(* ===== verification/_CoqProject ===== *)
-Q . S2P
Prelude.v
JsMap.v
JsNumber.v
JsDate.v
BoundedQueue.v
RingBuffer.v
Backpressure.v
IngestionChannel.v
Delegation.v
SequenceManager.v
Prisma.v
JsString.v
Retry.v
Service.v
Async.v
Mutex.v
Parallel.v
Timers.v
Dispute.v
MultiSig.v
Timelock.v
CircuitBreaker.v
OrderBook.v
OrderSync.v
JsDecimal.v
JsDigits.v
JsValue.v
DepthCodec.v
DepthCache.v
BridgeVerify.v
BridgeQueue.v
BridgeFlow.v
BridgeAudit.v
GovernanceResult.v
OrderFill.v
VoterHistory.v
VotingPower.v
EventListener.v
PriceFilter.v
Serialization.v
Webhook.v
PriceReview.v
Lockdown.v
MarketSources.v
MarketRate.v
StellarProvider.v
StellarService.v
OrderFlow.v
JsRounding.v
FxConversion.v
MultiSigSubmission.v
WebhookBroadcaster.v
Notifications.v
AmmPools.v
AmmReserves.v
Watchdog.v
Ciphers.v
KycTypes.v
Kyc.v
RelayerKeys.v
EventBusConfig.v
EventBus.v
Compliance.v
AnchorWebhook.v
