(* ===== verification/Prelude.v ===== *)
(** * StellarFlow backend: a verification development

    StellarFlow is a TypeScript backend around the Stellar network: it ingests prices and
    order books, collects signatures for price updates, follows governance proposals,
    handles remittances and their disputes and watches over its own keys and contracts. This
    development models the parts of [src/src/] that keep state and decide, and proves what
    makes them correct, or where they are not, what they do instead. This file is its root:
    the map below, then the notation, the monad, the program logic and the small lemmas
    every other file uses.

    ** How the program is modelled

    - A method that may throw or write is a function of [M W A := W -> exc A * W]: it
      completes or throws, and keeps what it wrote before throwing. [bind], [try_catch]
      and [for_of] are the statements of the same name; [wp] and [preserves] are the
      program logic used to reason about them statement by statement.
    - An [async] method is one step, except where the source suspends inside it in a way
      other calls can see: a promise parked in [AsyncBoundedQueue], the slow-down delay of
      [BackpressureManager.enqueue], and the messages between threads, where the pending
      promises and the message queues are part of the state and the steps interleave. The
      calls of [FxConversion], [MultiSigSubmission] and the files after them are programs of
      [Async], which stop at every [await] and interleave there with all other calls,
      with the intervals of [Timers] and with whatever else may happen outside. A flag that
      keeps two runs of a call apart is reasoned about with [Mutex], [Promise.all] and
      [Promise.allSettled] with [Parallel].
    - The database is an interface, [Prisma.PrismaTable]: the Prisma operations with their
      documented laws, each of which may also fail at any time; [gmap_table] implements it
      in memory. HTTP, the clock, Redis, the RPC server, signers and notifications are
      interfaces of the same kind ([Outside], [SigningWorld], [TimelockWorld],
      [CircuitWorld], [SnapshotWorld], [SyncWorld], [DepthRedis], [BridgeWorld],
      [ListenerWorld], [AuditWorld], [StellarEvents], [WebhookWorld], [ReviewWorld],
      [LockdownRedis], [MarketWorld], [StellarWorld], [FlowWorld], [RateFeed],
      [LockdownSwitch], [HookWorld], [DetectorWorld], [ReserveOutside], [WatchdogWorld],
      [KycWorld], [KeyWorld], [BusWorld], [ComplianceWorld], [AnchorWorld]) and so are the
      libraries the sources call ([MsgPack], [BridgeCrypto], [XdrCodec], [DecimalOps],
      [MoneyColumns], [StellarSdk], [SorobanValues], [Ciphers]); nothing is assumed of them
      beyond the laws they state. Every theorem holds for all implementations of them; one
      that needs more of the outside says so with a class of laws ([GcmLaws] and [KmsLaws],
      that what is encrypted is decrypted; [SteadyClock], that time does not go back) or of
      observations ([SignatureLog], [AccountLedger], [SubmissionLog], [PayoutLog],
      [RestartLog]), of which each file has an instance.
    - Services that the sources separate by an interface are separated by a class, and the
      client's theorems are proved against it: [PoolReserveStore] and
      [ContractReserveReader], with their laws [StampsRespected] over [LedgerStamps],
      between [AmmReserves] and [AmmPools]; [RateFeed] between [FxConversion] and
      [MarketRate].
    - Values of unknown shape (parsed JSON, decoded messages, event payloads) are
      [JsValue.jsval]; reading a property or converting to a number or text is total on it,
      as in JavaScript.
    - Numbers that reach arithmetic on fractions are binary64 values ([JsNumber.number],
      over the standard library's [spec_float]); counters, identifiers, times in
      milliseconds and ledger numbers are integers ([Z] or [nat]), within the range where
      the two agree. 32-bit operators are written out where the source uses them.
    - Logging to the console is left out.

    ** The files, and what their theorems show

    - [JsNumber]: binary64 arithmetic, comparison and [Array.prototype.sort]. The sign of
      a difference is the order of its operands, for every pair of finite numbers.
    - [JsString], [JsDate]: [parseInt], [toLowerCase], [toISOString].
    - [BoundedQueue]: the abstract bounded FIFO queue and the interface [BoundedFifo]
      through which a ring buffer is shown to refine it.
    - [RingBuffer] ([queue/lockFreeRingBuffer.ts], both buffer classes): each buffer
      answers every sequence of calls as the abstract queue does; batches, exact counters,
      the capacity rounding ([nextPowerOf2]), which ends within 31 doublings for requests
      up to 2^30 (the fuel [pow2_fuel]) and never ends above.
    - [IngestionChannel] (the rest of that file and [queue/workerThreadChannel.ts]):
      channels over the ring buffer, the manager and its aggregates, and the protocol of
      client and worker as a step relation.
    - [Backpressure] ([flow_control/backpressure.ts]): the asynchronous bounded queue with
      parked consumers and producers, and the manager's drop and slow-down rules.
    - [Delegation] ([logic/governanceDelegation.ts]): resolution of delegation chains and
      the effective weights.
    - [SequenceManager] ([services/sequence-manager.ts]): sequence numbers per account.
    - [Prisma], [Service]: the database interface and the state services run in.
    - [Retry] ([utils/retryUtil.ts]): [withRetry].
    - [Dispute] ([services/disputeService.ts], [services/emailService.ts]): the ticket
      state machine, paging, and the independence of all of it from notifications.
    - [MultiSig] ([services/multiSigService.ts]): requests and signatures in two tables;
      an approved request has its quorum of distinct signers.
    - [Timelock] ([services/governanceTimelockService.ts]): event decoding, the poll tick,
      the status machine of proposals, and what may be submitted to the network.
    - [CircuitBreaker] ([services/circuitBreakerService.ts],
      [services/invariantChecker.ts]): the balance invariant, the pause sequence and its
      cooldown.
    - [OrderBook] ([services/orderBookSnapshotEngine.ts]): the book, its depth, and the
      round trip of snapshots through JSON and Redis.
    - [OrderSync] ([services/orderBookSynchronizer.ts]): order events applied to a cache
      with two pairs of property names, and what that does to every depth returned.
    - [JsDecimal], [JsValue]: decimal text of binary64 numbers both ways, [parseFloat],
      rounding, and values of unknown shape with their conversions and [JSON.stringify].
    - [DepthCodec], [DepthCache] ([services/orderBookDepthCompression.ts],
      [services/orderDepthAggregatorService.ts]): the binary frame of a depth document, its
      round trip, what it rejects and the shape of what it decodes; aggregation by tick,
      which loses no order, and the cache over the codec.
    - [BridgeVerify], [BridgeQueue], [BridgeFlow], [BridgeAudit]
      ([services/bridgeSignatureVerification.ts]; [bridgeQueueService.ts],
      [bridgeMintingService.ts], [bridgeRelayerHealthMonitor.ts];
      [bridgeEventListener.ts]; [bridgeSupplyAuditService.ts]): the token bridge over one
      database. Verified events have their weight of genuine signatures, completed
      operations a confirmed transaction (or were set so by hand); what the queue, its retries and the restart of a
      failing worker do; where the ingestion stops; what the audit compares.
    - [GovernanceResult] ([services/governanceResultService.ts]): weights as decimal text,
      the tally as the exact sum over the rationals, and a snapshot that does not depend
      on the order of the votes. A choice that is an array index or [__proto__] is placed
      differently by a JavaScript object than by the list of the model.
    - [OrderFill], [VoterHistory], [VotingPower]
      ([services/orderFillVerificationService.ts], [voterHistoryService.ts],
      [votingPowerCheckpointService.ts]): the data the chain events feed. Fills are
      credited exactly once; votes and their proposals, interleaved with [Timelock]; paged
      history; the checkpoint in force at a ledger.
    - [EventListener] ([services/sorobanEventListener.ts]): the poll that feeds them, its
      shared cursor, and what that cursor makes it skip.
    - [PriceFilter] ([logic/outlierFilter.ts], [logic/zScoreFilter.ts],
      [logic/crossPairArbitrageDetection.ts] and their use in [services/marketRate/]): the
      filters over binary64 numbers, and when they accept, reject or have no effect.

    - [Serialization] ([lib/serialization] helpers), [Webhook] ([services/webhook.ts],
      [webhookRetryPublisher.ts]), [PriceReview] ([services/priceReviewService.ts]),
      [Lockdown] ([state/appState.ts]): what a rate goes through on its way out. Batches
      serialize as their elements do; a review is resolved once; the lockdown state is read back as written.
    - [MarketSources], [MarketRate] ([services/marketRate/], [services/sanityCheckService.ts],
      [logic] anomaly rules): the fetchers, the checks and the market rate service that
      composes them with reviews, webhooks, lockdown and multi-signatures: when a rate is
      submitted, how often, and when it is held back.
    - [StellarProvider] ([lib/rpcLoadBalancer.ts], [stellarNetwork.ts], [stellarProvider.ts]),
      [StellarService] ([services/stellarService.ts]): nodes and their quarantine, weighted
      round robin, and the submission loop over [SequenceManager] and [Lockdown]: how often
      a price reaches the ledger, what a rejected transaction does to the account number,
      and that nothing is signed under lockdown. The classes [AccountLedger] and
      [SignatureLog] name the two facts of the network the theorems speak of.
    - [OrderFlow] ([logic/orderCancellationAnomaly.ts],
      [services/orderBookImbalanceDetector.ts]): cancellation ratios per account; the pruned
      windows decide as the book of everything recorded since an account was admitted does.
    - [Async]: calls that stop at each [await] as a step relation over the calls under way,
      and a rely-guarantee logic: what every statement of every call keeps and allows, an
      interleaving of all of them keeps.
    - [JsRounding]: signs under multiplication, division and [Math.round].
    - [FxConversion] ([services/paymentRoutingService.ts], [fxConversionService.ts],
      [derivedAssetService.ts]): routes, quotes and their rate check, in every interleaving.
      The terms of a quote never change; an expired quote can still be locked, and a feed
      at zero or below passes the check.
    - [MultiSigSubmission] ([services/multiSigSubmissionService.ts]): the poller over
      [MultiSig]: what is submitted has its quorum in every interleaving
      ([SubmissionLog] names the envelopes the theorems speak of), overlapping polls
      submit twice, and a timer survives [stop].
    - [JsMap]: a [Map] as the list of its entries, where the code relies on their order.
    - [JsDigits]: decimal digits as regular expressions, [BigInt] and [padStart] treat them.
    - [Mutex], [Parallel], [Timers]: calls under a flag, groups of calls that are awaited
      together, and [setInterval].
    - [WebhookBroadcaster] ([services/governanceWebhookBroadcaster.ts]): endpoints and their
      deliveries. Attempts are counted once and bounded, what is settled stays, in every
      interleaving; an endpoint registered again is disabled by its first failure.
    - [Notifications] ([services/notificationService.ts]): alerts, their rate limit, and
      the alerts it keeps back.
    - [AmmPools], [AmmReserves] ([services/ammReserveDivergenceDetector.ts]): reserves as
      decimal texts, which round-trip; the detector of divergences: when checks are made,
      at which ledgers rows are written, and what a reported divergence leaves.
    - [Watchdog] ([services/systemHealthWatchdog.ts]): probes, queues and workers. The
      restarts of a worker are a cooldown apart; a restart that hangs stops all rounds.
    - [Ciphers], [KycTypes], [Kyc] ([crypto/encryption.ts], [services/kycTypes.ts],
      [kycEncryption.ts], [kycService.ts], [kycStore.ts], [kycAnchorClient.ts],
      [routes/kyc.ts]): customers of SEP-12. Stored payloads decrypt in every
      interleaving; a verdict is kept by calls in turn and lost by calls that overlap.
    - [RelayerKeys] ([services/kmsEnvelopeService.ts], [dekRotationService.ts],
      [relayerKeyService.ts], [crypto/vault.ts]): private keys under keys of their own. A
      rotation keeps them; one that overlaps a new pair mixes the two.
    - [EventBusConfig], [EventBus] ([services/eventBus/]): depths of queues, scaling within
      limits, alerts and incidents, and the recovery ratio that closes none.
    - [Compliance], [AnchorWebhook] ([services/complianceScreeningWorker.ts],
      [complianceScreeningClient.ts], [anchorPayoutRelayService.ts],
      [anchorWebhookService.ts], [routes/anchors.ts]): remittances, screened by a worker
      and reported on by the anchors. In every interleaving of both, what is paid out was
      screened, and is paid out once.

    Within a file the definitions come in the order of the source and keep its names (a
    prefix tells methods of the same name apart), then the lemmas, then the theorems and
    concrete runs that instantiate each of them.

    ** Bounds

    Loops over lists are structural; the delegation walk is structural on the remaining
    depth, the retry and confirmation loops on the remaining attempts. There is fuel in
    four places. [RingBuffer.nextPowerOf2]: two theorems say when it is enough and when
    none is. [BridgeQueue.processQueue], which can restart itself: it ends with one unit
    when fewer than two failures are recorded, and with no amount while the database stays
    down. [VoterHistory.follow], a client that turns pages: one unit per vote and one more
    are shown to be enough. [JsDecimal]: the search for the shortest decimal of a number
    tries the 17 precisions that always suffice.

    ** What is not modelled

    Process start-up, Express routes and middleware (but those of SEP-12 and of the anchor
    webhook), the insides of the Stellar SDK, of ethers, axios, MessagePack, Redis and
    Node's crypto, the SQL of raw queries beyond what it selects and writes, the worker
    channel pool, and the services not named above: read-only statistics, reports, the
    endpoints of SEP-24, SEP-31 and SEP-38, lending and treasury products, key store
    bindings, sockets and caches. Interval timers are modelled in the files over [Async];
    the earlier ones model the calls a timer makes. In the files not over [Async]
    interleavings of two service calls at the granularity of their statements are not
    modelled: each call is one step of a sequence, during which any statement may fail. *)

From stdpp Require Export base tactics gmap strings list numbers sorting.
From Stdlib Require Export ZArith Lia.

(** ** Notation scope and hint databases of the development *)

Declare Scope js_scope.
Delimit Scope js_scope with js.
Create HintDb sf discriminated.
Create Rewrite HintDb sf.

(** ** Errors and the state-and-exception monad

    A JavaScript statement either completes with a value or throws, and what it
    wrote before throwing stays written: the state is threaded through both
    outcomes. *)

(** [err_axios] is [None] for an error that is not an HTTP client error, and otherwise
    the status of the response, if there was one. *)
Record js_error := mk_error {
  err_message : string;
  err_code : option string;
  err_axios : option (option Z);
}.

Definition Error (msg : string) : js_error := mk_error msg None None.

Inductive exc (A : Type) :=
| Ok (a : A)
| Throw (e : js_error).
Arguments Ok {A} _.
Arguments Throw {A} _.

(** A pure function that may throw runs in [exc], with stdpp's notation for its binds. *)
#[export] Instance exc_ret : MRet exc := @Ok.
#[export] Instance exc_bind : MBind exc := λ A B f r,
  match r with Ok a => f a | Throw e => Throw e end.

(** Does the call complete? *)
Definition is_ok {A} (r : exc A) : bool := match r with Ok _ => true | Throw _ => false end.

Lemma bind_Ok {A B} (r : exc A) (f : A → exc B) b :
  (r ≫= f) = Ok b ↔ ∃ a, r = Ok a ∧ f a = Ok b.
Proof. destruct r as [a|e]; [naive_solver|]. split; [done|by intros (?&?&?)]. Qed.

(** [l.map(f)] where [f] may throw. *)
Lemma mapM_Ok {A B} (f : A → exc B) (l : list A) (k : list B) :
  mapM f l = Ok k ↔ Forall2 (λ x y, f x = Ok y) l k.
Proof.
  revert k; induction l as [|x l IH]; intros k; simpl.
  - split; [by intros [= <-]|by inversion 1].
  - rewrite bind_Ok. split.
    + intros (y & Hy & (k' & Hk & [= <-])%bind_Ok). constructor; [done|by apply IH].
    + inversion 1 as [|? y ? k' Hy Hk]; subst. exists y. split; [done|].
      apply bind_Ok. exists k'. split; [by apply IH|done].
Qed.

Definition M (W A : Type) := W → exc A * W.

Definition ret {W A} (a : A) : M W A := λ w, (Ok a, w).
Definition throw {W A} (e : js_error) : M W A := λ w, (Throw e, w).
Definition bind {W A B} (c : M W A) (k : A → M W B) : M W B := λ w,
  match c w with
  | (Ok a, w') => k a w'
  | (Throw e, w') => (Throw e, w')
  end.
Definition try_catch {W A} (c : M W A) (h : js_error → M W A) : M W A := λ w,
  match c w with
  | (Ok a, w') => (Ok a, w')
  | (Throw e, w') => h e w'
  end.
Definition get {W} : M W W := λ w, (Ok w, w).
Definition modify {W} (f : W → W) : M W unit := λ w, (Ok tt, f w).
(** A read-only call that may fail. *)
Definition lift_exc {W A} (r : exc A) : M W A := λ w, (r, w).

Notation "x <- c ;; k" := (bind c (λ x, k))
  (at level 60, c at next level, right associativity) : js_scope.
Notation "c ;;; k" := (bind c (λ _, k))
  (at level 60, right associativity) : js_scope.
#[global] Open Scope js_scope.

(** The outcome of a call as a value, for a caller that goes on in either case. *)
Definition attempt {W A} (c : M W A) : M W (exc A) := λ w, let '(r, w') := c w in (Ok r, w').

(** [for (const x of l) body], each iteration running in the state the previous
    one left; a throw leaves the loop. *)
Fixpoint for_of {W A} (l : list A) (body : A → M W unit) : M W unit :=
  match l with
  | [] => ret tt
  | x :: l' => body x ;;; for_of l' body
  end.

Section monad_laws.
Context {W A B C : Type}.

Lemma bind_ret_l (a : A) (k : A → M W B) w : bind (ret a) k w = k a w.
Proof. done. Qed.
Lemma bind_assoc (c : M W A) (k : A → M W B) (l : B → M W C) w :
  bind (bind c k) l w = bind c (λ x, bind (k x) l) w.
Proof. unfold bind. destruct (c w) as [[|] ?]; done. Qed.

(** A loop whose body always completes and keeps [P] keeps [P]. *)
Lemma for_of_inv (P : W → Prop) (l : list A) (body : A → M W unit) w :
  (∀ x w, x ∈ l → P w → ∃ w', body x w = (Ok tt, w') ∧ P w') →
  P w → ∃ w', for_of l body w = (Ok tt, w') ∧ P w'.
Proof.
  revert w; induction l as [|x l IH]; intros w Hb HP; simpl; [by eauto|].
  destruct (Hb x w) as (w1 & E & HP1); [set_solver|done|].
  unfold bind; rewrite E. apply IH; [|done]. intros; apply Hb; set_solver.
Qed.
End monad_laws.

(** Where a computation ends, whatever its outcome. *)
Definition final {W A} (c : M W A) (w : W) : W := (c w).2.
Definition outcome {W A} (c : M W A) (w : W) : exc A := (c w).1.

(** ** Weakest preconditions

    [wp c Q E w]: run from [w], [c] completes with a value and a state in [Q] or throws
    an error in a state in [E]. *)
Definition wp {W A} (c : M W A) (Q : A → W → Prop) (E : js_error → W → Prop) (w : W) : Prop :=
  match c w with
  | (Ok a, w') => Q a w'
  | (Throw e, w') => E e w'
  end.

Section wp.
Context {W A B : Type}.
Implicit Types (E : js_error → W → Prop) (w : W).

Lemma wp_ret (a : A) Q E w : Q a w → wp (ret a) Q E w.
Proof. done. Qed.
Lemma wp_throw e (Q : A → W → Prop) E w : E e w → wp (throw e) Q E w.
Proof. done. Qed.
Lemma wp_bind (c : M W A) (k : A → M W B) Q E w :
  wp c (λ a, wp (k a) Q E) E w → wp (bind c k) Q E w.
Proof. unfold wp, bind. by destruct (c w) as [[a|e] w']. Qed.
Lemma wp_try_catch (c : M W A) h Q E w :
  wp c Q (λ e, wp (h e) Q E) w → wp (try_catch c h) Q E w.
Proof. unfold wp, try_catch. by destruct (c w) as [[a|e] w']. Qed.
Lemma wp_mono (c : M W A) (Q Q' : A → W → Prop) (E E' : js_error → W → Prop) w :
  wp c Q E w → (∀ a w', Q a w' → Q' a w') → (∀ e w', E e w' → E' e w') → wp c Q' E' w.
Proof. unfold wp. destruct (c w) as [[a|e] w']; eauto. Qed.
Lemma wp_get Q E w : Q w w → wp (get : M W W) Q E w.
Proof. done. Qed.
Lemma wp_modify (f : W → W) Q E w : Q tt (f w) → wp (modify f) Q E w.
Proof. done. Qed.
Lemma wp_lift_exc (r : exc A) Q E w :
  (∀ a, r = Ok a → Q a w) → (∀ e, r = Throw e → E e w) → wp (lift_exc r) Q E w.
Proof. unfold wp, lift_exc. destruct r; eauto. Qed.
Lemma wp_attempt (c : M W A) (Q : exc A → W → Prop) E w :
  wp c (λ a, Q (Ok a)) (λ e, Q (Throw e)) w → wp (attempt c) Q E w.
Proof. unfold wp, attempt. by destruct (c w) as [[a|e] w']. Qed.
(** A property of the state that is kept, besides what else a call establishes. *)
Lemma wp_conj (c : M W A) (Q Q' : A → W → Prop) (E E' : js_error → W → Prop) w :
  wp c Q E w → wp c Q' E' w → wp c (λ a w', Q a w' ∧ Q' a w') (λ e w', E e w' ∧ E' e w') w.
Proof. unfold wp. by destruct (c w) as [[a|e] w']. Qed.
(** A goal about the result of a run, as a weakest precondition. *)
Lemma wp_run (c : M W A) (P : exc A → W → Prop) w :
  wp c (λ a, P (Ok a)) (λ e, P (Throw e)) w → let '(r, w') := c w in P r w'.
Proof. unfold wp. by destruct (c w) as [[a|e] w']. Qed.
Lemma wp_final (c : M W A) (P : W → Prop) w :
  wp c (λ _, P) (λ _, P) w → P (final c w).
Proof. unfold wp, final. by destruct (c w) as [[a|e] w']. Qed.
End wp.

(** A loop keeps what its body keeps, whether it ends or is left by a throw. *)
Lemma wp_for_of {W A} (P : W → Prop) (l : list A) (body : A → M W unit) w :
  (∀ x w, x ∈ l → P w → wp (body x) (λ _, P) (λ _, P) w) → P w →
  wp (for_of l body) (λ _, P) (λ _, P) w.
Proof.
  revert w; induction l as [|x l IH]; intros w Hb HP; [done|].
  simpl. apply wp_bind. eapply wp_mono; [apply Hb; [set_solver|done]| |done].
  intros [] w' HP'. apply IH; [|done]. intros; apply Hb; set_solver.
Qed.

(** ** Computations that keep a property of the state *)
Definition preserves {W A} (P : W → Prop) (c : M W A) : Prop :=
  ∀ w, P w → wp c (λ _, P) (λ _, P) w.

Section preserves.
Context {W A B : Type} (P : W → Prop).

Lemma preserves_ret (a : A) : preserves P (ret a).
Proof. by intros w. Qed.
Lemma preserves_throw e : preserves P (throw e : M W A).
Proof. by intros w. Qed.
Lemma preserves_get : preserves P get.
Proof. by intros w. Qed.
Lemma preserves_bind (c : M W A) (k : A → M W B) :
  preserves P c → (∀ a, preserves P (k a)) → preserves P (bind c k).
Proof.
  intros Hc Hk w Hw. apply wp_bind. eapply wp_mono; [by apply Hc| |done].
  intros a w' Hw'. by apply Hk.
Qed.
Lemma preserves_try_catch (c : M W A) h :
  preserves P c → (∀ e, preserves P (h e)) → preserves P (try_catch c h).
Proof.
  intros Hc Hh w Hw. apply wp_try_catch. eapply wp_mono; [by apply Hc|done|].
  intros e w' Hw'. by apply Hh.
Qed.
Lemma preserves_final (c : M W A) w : preserves P c → P w → P (final c w).
Proof. intros Hc Hw. apply (wp_final c P). by apply Hc. Qed.
Lemma preserves_lift_exc (r : exc A) : preserves P (lift_exc r).
Proof. intros w Hw. unfold wp, lift_exc. by destruct r. Qed.
Lemma preserves_attempt (c : M W A) : preserves P c → preserves P (attempt c).
Proof. intros Hc w Hw. specialize (Hc w Hw). unfold wp, attempt in *. by destruct (c w) as [[a|e] w']. Qed.
Lemma preserves_of_final (c : M W A) : (∀ w, P w → P (final c w)) → preserves P c.
Proof. intros Hc w Hw. specialize (Hc w Hw). unfold wp, final in *. by destruct (c w) as [[a|e] w']. Qed.
End preserves.

Lemma preserves_for_of {W A} (P : W → Prop) (l : list A) (body : A → M W unit) :
  (∀ x, x ∈ l → preserves P (body x)) → preserves P (for_of l body).
Proof. intros Hb w Hw. apply wp_for_of; [|done]. intros x w' Hx. by apply Hb. Qed.

(** [preserve]: reduce a goal [preserves P c] along the structure of [c] to its
    statements, closing those the hint database [sf] knows. *)
#[export] Hint Resolve preserves_ret preserves_throw preserves_get preserves_lift_exc : sf.
Ltac preserve :=
  repeat match goal with
  | |- ∀ _, _ => intros ?
  | |- preserves _ (bind _ _) => apply preserves_bind
  | |- preserves _ (try_catch _ _) => apply preserves_try_catch
  | |- preserves _ (attempt _) => apply preserves_attempt
  | |- preserves _ (for_of _ _) => apply preserves_for_of
  | |- preserves _ (match _ with _ => _ end) => case_match
  | |- preserves _ _ => solve [auto with sf]
  end.

(** Split a run of a monadic program on the outcome of its first call. *)
Ltac step_bind :=
  match goal with
  | |- context [bind ?c ?k ?w] =>
      unfold bind at 1; let E := fresh "E" in
      destruct (c w) as [[?|?] ?] eqn:E
  | H : context [bind ?c ?k ?w] |- _ =>
      unfold bind at 1 in H; let E := fresh "E" in
      destruct (c w) as [[?|?] ?] eqn:E
  end.

(** Case analysis on every [match] of the goal or of the hypotheses, with the
    trivial branches closed. *)
Ltac crush_match :=
  repeat (case_match; simplify_eq/=; try done).

(** ** JavaScript arrays

    Writing past the end extends the array, leaving holes. *)
Definition js_array_set {A} (hole : A) (l : list A) (i : nat) (x : A) : list A :=
  if decide (i < length l) then <[i := x]> l
  else l ++ replicate (i - length l) hole ++ [x].

Lemma js_array_set_in {A} (hole : A) l i x :
  i < length l → js_array_set hole l i x = <[i := x]> l.
Proof. intros. unfold js_array_set. by rewrite decide_True. Qed.

(** [Array.prototype.shift] on an array used as a sliding window of at most
    [n] samples: push, then drop the oldest when the window overflows. *)
Definition window_push {A} (n : nat) (l : list A) (x : A) : list A :=
  let l' := l ++ [x] in if decide (n < length l') then tail l' else l'.

Lemma window_push_length {A} n (l : list A) x :
  length l ≤ n → length (window_push n l x) ≤ n.
Proof.
  intros. unfold window_push. destruct (l ++ [x]) as [|y t] eqn:E.
  - by destruct l.
  - apply (f_equal length) in E. rewrite length_app in E; simpl in *.
    case_decide; simpl in *; lia.
Qed.

(** ** Truthiness: [a || b] on strings, and optional values *)
Definition str_or (a b : string) : string := if decide (a = "") then b else a.
Definition truthy_str (a : string) : bool := bool_decide (a ≠ "").
Definition truthy_opt (a : option string) : bool :=
  match a with Some s => truthy_str s | None => false end.

(** [Array.prototype.includes] *)
Definition includes {A} `{EqDecision A} (l : list A) (x : A) : bool :=
  bool_decide (x ∈ l).

(** Elements of a list are known by keys that do not repeat. *)
Lemma NoDup_key {A K} (f : A → K) (l : list A) x y :
  NoDup (f <$> l) → x ∈ l → y ∈ l → f x = f y → x = y.
Proof.
  intros Hn Hx Hy E. apply list_elem_of_lookup in Hx as [i Hi], Hy as [j Hj].
  assert (i = j) as ->; [|congruence].
  eapply NoDup_lookup; [exact Hn| |]; rewrite list_lookup_fmap, ?Hi, ?Hj; simpl; [done|].
  by rewrite E.
Qed.

(** ** Filters *)
Lemma filter_ext_in {A} (P Q : A → Prop) `{!∀ x, Decision (P x), !∀ x, Decision (Q x)} (l : list A) :
  (∀ x, x ∈ l → P x ↔ Q x) → filter P l = filter Q l.
Proof.
  induction l as [|x l IH]; intros Hpq; [done|]. rewrite !filter_cons.
  assert (P x ↔ Q x) as Hx by (apply Hpq; left). rewrite IH by (intros y Hy; apply Hpq; by right).
  repeat case_decide; tauto.
Qed.
Lemma length_filter_const {A} (b : Prop) `{!Decision b} (l : list A) :
  length (filter (λ _, b) l) = if decide b then length l else 0.
Proof. induction l as [|x l IH]; [by case_decide|]. rewrite filter_cons. case_decide; simpl; lia. Qed.
Lemma length_filter_fmap {A B} (f : A → B) (P : B → Prop) `{!∀ x, Decision (P x)} (l : list A) :
  length (filter P (f <$> l)) = length (filter (λ x, P (f x)) l).
Proof. induction l as [|x l IH]; [done|]. rewrite fmap_cons, !filter_cons. case_decide; simpl; lia. Qed.

(** ** Powers of two and masks *)
Lemma land_pow2_mask (x k : Z) :
  (0 ≤ k)%Z → Z.land x (2 ^ k - 1) = (x `mod` 2 ^ k)%Z.
Proof.
  intros. replace (2 ^ k - 1)%Z with (Z.ones k) by (rewrite Z.ones_equiv; lia).
  by apply Z.land_ones.
Qed.

(** Two positions less than [n] apart fall in different slots of a ring. *)
Lemma mod_window_ne (n a b : Z) :
  (0 < n)%Z → (a < b)%Z → (b - a < n)%Z → (a `mod` n ≠ b `mod` n)%Z.
Proof.
  intros Hn Hab Hd E.
  assert ((b - a) `mod` n = 0)%Z as E0.
  { rewrite Zminus_mod, E, Z.sub_diag. by apply Z.mod_0_l; lia. }
  rewrite Z.mod_small in E0; lia.
Qed.

(** ** Sums over lists of integers *)
Definition sum_list_Z (l : list Z) : Z := foldr Z.add 0%Z l.

Lemma sum_list_Z_app l1 l2 :
  sum_list_Z (l1 ++ l2) = (sum_list_Z l1 + sum_list_Z l2)%Z.
Proof. induction l1; simpl in *; [done|]. lia. Qed.

#[global] Instance sum_list_Z_perm : Proper (Permutation ==> eq) sum_list_Z.
Proof. intros l1 l2 P; induction P; simpl in *; lia. Qed.

#[export] Hint Rewrite @length_insert @length_app @length_map @length_replicate
  @length_cons : sf.
