(* ===== verification/JsMap.v ===== *)
(** * The [Map] of JavaScript

    A [Map] is the list of its entries in the order in which their keys were first set:
    [keys().next()] is the head, and a key that is set again keeps its place. Used where the
    code relies on that order. *)

From S2P Require Import Prelude.

Section map.
Context {K : Type} `{!EqDecision K} {V : Type}.
Implicit Types (l : list (K * V)) (k : K) (v : V).

(** [Map.get], [Map.set] and [Map.delete] *)
Fixpoint map_get l k : option V :=
  match l with
  | [] => None
  | (k0, v) :: l' => if decide (k0 = k) then Some v else map_get l' k
  end.
Fixpoint map_set l k v : list (K * V) :=
  match l with
  | [] => [(k, v)]
  | (k0, v0) :: l' => if decide (k0 = k) then (k, v) :: l' else (k0, v0) :: map_set l' k v
  end.
Definition map_delete l k : list (K * V) := filter (λ p, p.1 ≠ k) l.

Lemma map_get_None l k : map_get l k = None ↔ k ∉ l.*1.
Proof.
  induction l as [|[k0 v] l IH]; simpl; [set_solver|].
  case_decide; [|set_solver]. subst. set_solver.
Qed.

Lemma map_get_Some_in l k v : map_get l k = Some v → v ∈ l.*2.
Proof.
  induction l as [|[k0 v0] l IH]; simpl; [done|]. case_decide; [|set_solver].
  intros [= ->]. set_solver.
Qed.

Lemma map_get_app_new l k v : map_get l k = None → map_get (l ++ [(k, v)]) k = Some v.
Proof.
  induction l as [|[k0 v0] l IH]; simpl; [by rewrite decide_True|]. by case_decide.
Qed.

Lemma map_get_delete l k : map_get (map_delete l k) k = None.
Proof.
  unfold map_delete. induction l as [|[k0 v0] l IH]; [done|]. rewrite filter_cons.
  case_decide; simpl; [|done]. rewrite decide_False by done. done.
Qed.

Lemma map_get_set l k v k' : map_get (map_set l k v) k' = if decide (k = k') then Some v else map_get l k'.
Proof.
  induction l as [|[k0 v0] l IH]; simpl; [done|].
  destruct (decide (k0 = k)) as [->|Hne]; simpl; [by repeat case_decide|].
  rewrite IH. repeat case_decide; congruence.
Qed.

Lemma map_set_keys l k v : (map_set l k v).*1 = if decide (k ∈ l.*1) then l.*1 else l.*1 ++ [k].
Proof.
  induction l as [|[k0 v0] l IH]; [done|]. cbn [map_set].
  destruct (decide (k0 = k)) as [->|Hne]; rewrite !fmap_cons; cbn [fst].
  - by rewrite decide_True by left.
  - rewrite IH. destruct (decide (k ∈ l.*1)).
    + by rewrite decide_True by by right.
    + by rewrite decide_False by set_solver.
Qed.

Lemma map_set_length l k v : (length (map_set l k v) ≤ S (length l))%nat.
Proof. induction l as [|[k0 v0] l IH]; simpl; [lia|]. case_decide; simpl; lia. Qed.
End map.
