(* ===== verification/JsNumber.v ===== *)
(** * JavaScript numbers (IEEE 754 binary64)

    The [number] type of the sources, with the operations they use, as the
    binary64 instance of the Standard Library's executable specification of
    floating point. The facts proved here are the ones the components rely on:
    the sign of a subtraction decides the order of its operands (what makes
    [sort((a, b) => a.price - b.price)] an ordering), the order on finite numbers
    is total, and [Array.prototype.sort] with such a comparator sorts. Counters,
    timestamps and ledger sequences are modelled by [Z] in the components: they
    are safe integers in the sources. *)

From Stdlib Require Import SpecFloat.
From S2P Require Import Prelude.

Local Open Scope Z_scope.

Definition number := spec_float.

Definition prec := 53.
Definition emax := 1024.

Definition num_of_Z (z : Z) : number := binary_normalize prec emax z 0 false.
Definition num_zero : number := S754_zero false.
Definition num_one : number := num_of_Z 1.
Definition neg_infinity : number := S754_infinity true.
Definition num_add (a b : number) : number := SFadd prec emax a b.
Definition num_sub (a b : number) : number := SFsub prec emax a b.
Definition num_mul (a b : number) : number := SFmul prec emax a b.
Definition num_div (a b : number) : number := SFdiv prec emax a b.
Definition num_ltb (a b : number) : bool := SFltb a b.
Definition num_leb (a b : number) : bool := SFleb a b.

Definition isFinite (a : number) : bool :=
  match a with S754_zero _ | S754_finite _ _ _ => true | _ => false end.
Definition isNaN (a : number) : bool :=
  match a with S754_nan => true | _ => false end.

(** [Math.max] of two numbers: NaN is contagious, and +0 is above -0. *)
Definition math_max (a b : number) : number :=
  match a, b with
  | S754_nan, _ | _, S754_nan => S754_nan
  | S754_zero s1, S754_zero s2 => S754_zero (s1 && s2)
  | _, _ => if num_ltb a b then b else a
  end.

(** [Math.max(...l)] *)
Definition math_max_list (l : list number) : number :=
  fold_left math_max l neg_infinity.

(** [l.reduce((a, b) => a + b, 0)] *)
Definition num_sum (l : list number) : number := fold_left num_add l num_zero.

(** A machine value: mantissa and exponent in range. Every operation of the
    sources produces one; the inductive type has others. *)
Definition valid_num (a : number) : Prop := valid_binary prec emax a = true.

#[global] Instance number_eq_dec : EqDecision number.
Proof. solve_decision. Defined.

#[global] Program Instance number_countable : Countable number :=
  inj_countable
    (λ a, match a with
          | S754_zero s => inl (inl s)
          | S754_infinity s => inl (inr s)
          | S754_nan => inr (inl tt)
          | S754_finite s m e => inr (inr (s, m, e))
          end : (bool + bool) + (unit + (bool * positive * Z)))
    (λ c, Some match c with
          | inl (inl s) => S754_zero s
          | inl (inr s) => S754_infinity s
          | inr (inl _) => S754_nan
          | inr (inr (s, m, e)) => S754_finite s m e
          end) _.
Next Obligation. by intros []. Qed.

(** ** Alignment and comparison *)

Lemma iter_xO_val (m d : positive) : Zpos (Pos.iter xO m d) = Zpos m * 2 ^ Zpos d.
Proof.
  induction d using Pos.peano_ind.
  - simpl. lia.
  - rewrite Pos.iter_succ, Pos2Z.inj_xO, IHd, Pos2Z.inj_succ, Z.pow_succ_r by lia. lia.
Qed.

Lemma shl_align_val (m : positive) (e ez : Z) :
  ez ≤ e → Zpos (fst (shl_align m e ez)) = Zpos m * 2 ^ (e - ez).
Proof.
  intros H. unfold shl_align. destruct (ez - e) eqn:E; [|lia|].
  - replace (e - ez) with 0 by lia. simpl. lia.
  - simpl. rewrite iter_xO_val. do 2 f_equal. lia.
Qed.

Lemma digits2_bounds (m : positive) :
  2 ^ (Zpos (digits2_pos m) - 1) ≤ Zpos m < 2 ^ Zpos (digits2_pos m).
Proof.
  induction m as [p IH|p IH|]; simpl digits2_pos; [| |simpl; lia];
    rewrite Pos2Z.inj_succ;
    replace (Z.succ (Zpos (digits2_pos p)) - 1) with (Z.succ (Zpos (digits2_pos p) - 1)) by lia;
    rewrite !Z.pow_succ_r by lia; lia.
Qed.

(** The signed mantissa of a finite number aligned on exponent [ez]. *)
Definition aligned (s : bool) (m : positive) (e ez : Z) : Z :=
  cond_Zopp s (Zpos m * 2 ^ (e - ez)).

Lemma bounded_fexp (m : positive) (e : Z) :
  bounded prec emax m e = true → fexp prec emax (Zpos (digits2_pos m) + e) = e.
Proof.
  unfold bounded, canonical_mantissa. intros [H _]%andb_prop. by apply Z.eqb_eq.
Qed.

(** A canonical number with the smaller exponent is the smaller one. *)
Lemma exp_lt_val (m1 m2 : positive) (e1 e2 : Z) :
  bounded prec emax m1 e1 = true → bounded prec emax m2 e2 = true →
  e1 < e2 → Zpos m1 < Zpos m2 * 2 ^ (e2 - e1).
Proof.
  intros B1%bounded_fexp B2%bounded_fexp He.
  destruct (digits2_bounds m1) as [_ U1], (digits2_bounds m2) as [L2 _].
  set (d1 := Zpos (digits2_pos m1)) in *. set (d2 := Zpos (digits2_pos m2)) in *.
  assert (0 < d1 ∧ 0 < d2) as [? ?] by (unfold d1, d2; lia).
  assert (d1 + e1 < d2 + e2) by (unfold fexp in *; lia).
  assert (2 ^ d1 ≤ 2 ^ (d2 - 1 + (e2 - e1))) by (apply Z.pow_le_mono_r; lia).
  rewrite Z.pow_add_r in * by lia. nia.
Qed.

Lemma compare_aligned (m1 m2 : positive) (e1 e2 : Z) :
  bounded prec emax m1 e1 = true → bounded prec emax m2 e2 = true →
  match e1 ?= e2 with
  | Lt => Lt | Gt => Gt | Eq => Pos.compare_cont Eq m1 m2
  end = (Zpos m1 * 2 ^ (e1 - Z.min e1 e2) ?= Zpos m2 * 2 ^ (e2 - Z.min e1 e2)).
Proof.
  intros B1 B2. destruct (Z.compare_spec e1 e2) as [->|H|H]; symmetry.
  - rewrite Z.min_id, Z.sub_diag, Z.pow_0_r, !Z.mul_1_r. done.
  - apply Z.compare_lt_iff. rewrite Z.min_l, Z.sub_diag, Z.pow_0_r, Z.mul_1_r by lia.
    by apply exp_lt_val.
  - apply Z.compare_gt_iff.
    rewrite Z.min_r, Z.sub_diag, Z.pow_0_r, Z.mul_1_r by lia. by apply exp_lt_val.
Qed.

Lemma SFcompare_aligned s1 m1 e1 s2 m2 e2 :
  bounded prec emax m1 e1 = true → bounded prec emax m2 e2 = true →
  SFcompare (S754_finite s1 m1 e1) (S754_finite s2 m2 e2)
  = Some (aligned s1 m1 e1 (Z.min e1 e2) ?= aligned s2 m2 e2 (Z.min e1 e2)).
Proof.
  intros B1 B2. pose proof (compare_aligned m1 m2 e1 e2 B1 B2) as C.
  assert (0 < 2 ^ (e1 - Z.min e1 e2)) by (apply Z.pow_pos_nonneg; lia).
  assert (0 < 2 ^ (e2 - Z.min e1 e2)) by (apply Z.pow_pos_nonneg; lia).
  simpl. unfold aligned, cond_Zopp. destruct s1, s2; f_equal.
  - rewrite Z.compare_opp.
    rewrite (Z.compare_antisym (Zpos m1 * _) (Zpos m2 * _)), <-C.
    by destruct (e1 ?= e2).
  - symmetry. apply Z.compare_lt_iff. nia.
  - symmetry. apply Z.compare_gt_iff. nia.
  - done.
Qed.

(** ** Rounding keeps the sign and never underflows to zero

    A sum of two finite numbers is a multiple of the smallest subnormal, so
    rounding it loses low bits only when there are more than [prec] of them. *)

Lemma shr_1_m mrs : 0 ≤ shr_m mrs → shr_m (shr_1 mrs) = Z.div2 (shr_m mrs).
Proof. by destruct mrs as [[|[]|] ? ?]; simpl; try lia. Qed.

Lemma div2_pow (m : Z) (n : nat) :
  0 ≤ m → Nat.iter n Z.div2 m = m / 2 ^ Z.of_nat n.
Proof.
  intros Hm. induction n as [|n IH]; simpl Nat.iter.
  - by rewrite Z.pow_0_r, Z.div_1_r.
  - rewrite IH, Z.div2_div, Nat2Z.inj_succ, Z.pow_succ_r by lia.
    rewrite Z.div_div by lia. f_equal. lia.
Qed.

Lemma iter_pos_nat {A} (f : A → A) (p : positive) (x : A) :
  SpecFloat.iter_pos f p x = Nat.iter (Pos.to_nat p) f x.
Proof.
  revert x; induction p as [p IH|p IH|]; intros x; cbn [SpecFloat.iter_pos].
  - rewrite !IH, <-!Nat.iter_add, Pos2Nat.inj_xI.
    change (f x) with (Nat.iter 1 f x). rewrite <-Nat.iter_add. f_equal. lia.
  - rewrite !IH, <-!Nat.iter_add, Pos2Nat.inj_xO. f_equal. lia.
  - done.
Qed.

Lemma iter_shr_m (n : nat) mrs :
  0 ≤ shr_m mrs → shr_m (Nat.iter n shr_1 mrs) = Nat.iter n Z.div2 (shr_m mrs).
Proof.
  intros Hm. induction n as [|n IH]; simpl Nat.iter; [done|].
  rewrite shr_1_m; [by rewrite IH|]. rewrite IH, div2_pow by done.
  apply Z.div_pos; lia.
Qed.

Lemma shr_fexp_pos (m : positive) (e : Z) (l : location) :
  emin prec emax ≤ e →
  let r := shr_fexp prec emax (Zpos m) e l in
  1 ≤ shr_m (fst r) ∧ emin prec emax ≤ snd r.
Proof.
  intros He. unfold shr_fexp, shr, Zdigits2.
  destruct (digits2_bounds m) as [L _].
  set (d := Zpos (digits2_pos m)) in *. assert (0 < d) by (unfold d; lia).
  assert (shr_m (shr_record_of_loc (Zpos m) l) = Zpos m) as Em by (by destruct l as [|[]]).
  destruct (fexp prec emax (d + e) - e) as [|p|p] eqn:En; simpl;
    rewrite ?Em; [lia| |lia].
  rewrite iter_pos_nat, iter_shr_m, Em, div2_pow, positive_nat_Z by (rewrite ?Em; lia).
  split; [|lia]. assert (Zpos p ≤ d - 1) by (unfold fexp, prec in *; lia).
  apply Z.div_le_lower_bound; [lia|].
  assert (2 ^ Zpos p ≤ 2 ^ (d - 1)) by (apply Z.pow_le_mono_r; lia). lia.
Qed.

Lemma binary_round_aux_sign (s : bool) (m : positive) (e : Z) :
  emin prec emax ≤ e →
  (∃ m' e', binary_round_aux prec emax s (Zpos m) e loc_Exact = S754_finite s m' e') ∨
  binary_round_aux prec emax s (Zpos m) e loc_Exact = S754_infinity s.
Proof.
  intros He. unfold binary_round_aux.
  pose proof (shr_fexp_pos m e loc_Exact He) as [H1 H2].
  destruct (shr_fexp prec emax (Zpos m) e loc_Exact) as [r1 e1]; simpl in *.
  assert (1 ≤ round_nearest_even (shr_m r1) (loc_of_shr_record r1)) as H3.
  { unfold round_nearest_even. crush_match; lia. }
  destruct (round_nearest_even _ _) as [|m1|m1]; [lia| |lia].
  pose proof (shr_fexp_pos m1 e1 loc_Exact H2) as [H4 H5].
  destruct (shr_fexp prec emax (Zpos m1) e1 loc_Exact) as [r2 e2]; simpl in *.
  destruct (shr_m r2) as [|m2|]; [lia| |lia]. case_match; eauto.
Qed.

Lemma binary_round_sign (s : bool) (m : positive) (e : Z) :
  emin prec emax ≤ e →
  (∃ m' e', binary_round prec emax s m e = S754_finite s m' e') ∨
  binary_round prec emax s m e = S754_infinity s.
Proof.
  intros He. unfold binary_round.
  destruct (shl_align m e _) as [mz ez] eqn:E. apply binary_round_aux_sign.
  unfold shl_align in E. case_match; simplify_eq; [done..|]. unfold fexp; lia.
Qed.

Lemma bounded_emin (m : positive) (e : Z) :
  bounded prec emax m e = true → emin prec emax ≤ e.
Proof. intros H%bounded_fexp. unfold fexp in H. lia. Qed.

(** The sign of [a - b] decides the order of [a] and [b]. *)
Lemma num_sub_sign (a b : number) :
  valid_num a → valid_num b → isFinite a = true → isFinite b = true →
  num_ltb num_zero (num_sub a b) = num_ltb b a ∧
  num_ltb (num_sub a b) num_zero = num_ltb a b.
Proof.
  unfold valid_num, num_ltb, SFltb, num_sub.
  destruct a as [s1| | |s1 m1 e1], b as [s2| | |s2 m2 e2]; intros Va Vb Fa Fb;
    try discriminate; try (by destruct s1, s2); try (by destruct s1);
    try (by destruct s2).
  unfold SFsub; cbv zeta.
  rewrite (SFcompare_aligned _ _ _ _ _ _ Vb Va), (SFcompare_aligned _ _ _ _ _ _ Va Vb).
  rewrite !shl_align_val by lia. fold (aligned s1 m1 e1 (Z.min e1 e2)).
  fold (aligned s2 m2 e2 (Z.min e1 e2)). rewrite (Z.min_comm e2 e1).
  set (x := aligned s1 m1 e1 _). set (y := aligned s2 m2 e2 _).
  assert (emin prec emax ≤ Z.min e1 e2) as He.
  { apply bounded_emin in Va, Vb. lia. }
  rewrite (Z.compare_antisym x y).
  destruct (Z.compare_spec x y); [by rewrite (proj2 (Z.sub_move_0_r x y))| |];
    destruct (x - y) as [|p|p] eqn:E; try lia; cbn [binary_normalize];
    destruct (binary_round_sign (bool_decide (x < y)) p _ He) as [(?&?&R)|R];
    first [rewrite bool_decide_true in R by lia | rewrite bool_decide_false in R by lia];
    rewrite R; (split; [done|done]).
Qed.

(** ** Integers below 2^53 are exact *)

Lemma digits2_unique (m : positive) (d : Z) :
  2 ^ (d - 1) ≤ Zpos m < 2 ^ d → 0 < d → Zpos (digits2_pos m) = d.
Proof.
  intros [L U] Hd. destruct (digits2_bounds m) as [L' U'].
  set (k := Zpos (digits2_pos m)) in *. assert (0 < k) by (unfold k; lia).
  destruct (Z.lt_trichotomy k d) as [Hk|[Hk|Hk]]; [|done|].
  - assert (2 ^ k ≤ 2 ^ (d - 1)) by (apply Z.pow_le_mono_r; lia). lia.
  - assert (2 ^ d ≤ 2 ^ (k - 1)) by (apply Z.pow_le_mono_r; lia). lia.
Qed.

(** A full mantissa in range is not rounded. *)
Lemma round_full (s : bool) (m : positive) (e : Z) :
  Zpos (digits2_pos m) = prec → emin prec emax ≤ e → e ≤ emax - prec →
  binary_round_aux prec emax s (Zpos m) e loc_Exact = S754_finite s m e.
Proof.
  intros Hd Hl Hu. unfold binary_round_aux.
  assert (shr_fexp prec emax (Zpos m) e loc_Exact
          = ({| shr_m := Zpos m; shr_r := false; shr_s := false |}, e)) as E.
  { unfold shr_fexp, Zdigits2. rewrite Hd.
    replace (fexp prec emax (prec + e) - e) with 0 by (unfold fexp; lia). done. }
  rewrite E. simpl. rewrite E. simpl. by rewrite (proj2 (Z.leb_le _ _)).
Qed.

Lemma num_of_pos_exact (p : positive) :
  Zpos p < 2 ^ 53 → ∃ m e, num_of_Z (Zpos p) = S754_finite false m e ∧
    e ≤ 0 ∧ Zpos m = Zpos p * 2 ^ (- e) ∧ Zpos (digits2_pos m) = prec ∧ -53 ≤ e.
Proof.
  intros Hp. destruct (digits2_bounds p) as [L U].
  set (d := Zpos (digits2_pos p)) in *. assert (0 < d) by (unfold d; lia).
  assert (d ≤ 53).
  { destruct (Z.le_gt_cases d 53); [done|].
    assert (2 ^ 53 ≤ 2 ^ (d - 1)) by (apply Z.pow_le_mono_r; lia). lia. }
  assert (fexp prec emax (d + 0) = d - 53) as Hf by (unfold fexp, prec, emax, emin; lia).
  unfold num_of_Z, binary_normalize, binary_round. fold d. rewrite Hf.
  pose proof (shl_align_val p 0 (d - 53) ltac:(lia)) as V.
  assert (snd (shl_align p 0 (d - 53)) = d - 53) as Hs.
  { unfold shl_align. destruct (d - 53 - 0) eqn:E; simpl; lia. }
  destruct (shl_align p 0 (d - 53)) as [m e]. simpl in V, Hs. subst e.
  replace (0 - (d - 53)) with (53 - d) in V by lia.
  assert (Zpos (digits2_pos m) = prec) as Hm.
  { apply digits2_unique; [|done]. rewrite V. unfold prec.
    replace (53 - 1) with (d - 1 + (53 - d)) by lia.
    replace (2 ^ 53) with (2 ^ (d + (53 - d))) by (f_equal; lia).
    rewrite !Z.pow_add_r by lia. assert (0 < 2 ^ (53 - d)) by (apply Z.pow_pos_nonneg; lia).
    nia. }
  exists m, (d - 53). rewrite round_full by (done || (unfold emin, prec, emax; lia)).
  split_and!; [done|lia| |done|lia]. rewrite V. do 2 f_equal. lia.
Qed.

(** ** The order on finite numbers, through their exact integer value *)

(** The value of a finite number in units of the smallest subnormal. *)
Definition num_val (a : number) : Z :=
  match a with
  | S754_finite s m e => aligned s m e (emin prec emax)
  | _ => 0
  end.

Lemma aligned_shift s m e ez :
  emin prec emax ≤ ez → ez ≤ e →
  aligned s m e (emin prec emax) = aligned s m e ez * 2 ^ (ez - emin prec emax).
Proof.
  intros. unfold aligned, cond_Zopp.
  replace (e - emin prec emax) with ((e - ez) + (ez - emin prec emax)) by lia.
  rewrite Z.pow_add_r by lia. destruct s; lia.
Qed.

Lemma num_ltb_val (a b : number) :
  valid_num a → valid_num b → isFinite a = true → isFinite b = true →
  num_ltb a b = bool_decide (num_val a < num_val b).
Proof.
  unfold valid_num, num_ltb, SFltb.
  assert (∀ (s : bool) (m : positive) (e : Z), bounded prec emax m e = true →
            if s then num_val (S754_finite s m e) < 0 else 0 < num_val (S754_finite s m e)) as P.
  { intros s m e B%bounded_emin. cbn [num_val]. unfold aligned, cond_Zopp.
    assert (0 < 2 ^ (e - emin prec emax)) by (apply Z.pow_pos_nonneg; lia).
    destruct s; nia. }
  destruct a as [s1| | |s1 m1 e1], b as [s2| | |s2 m2 e2]; intros Va Vb Fa Fb;
    try discriminate.
  - done.
  - specialize (P s2 m2 e2 Vb). cbn [SFcompare].
    destruct s2; symmetry;
      [apply bool_decide_eq_false_2|apply bool_decide_eq_true_2]; simpl in *; lia.
  - specialize (P s1 m1 e1 Va). cbn [SFcompare].
    destruct s1; symmetry;
      [apply bool_decide_eq_true_2|apply bool_decide_eq_false_2]; simpl in *; lia.
  - rewrite (SFcompare_aligned _ _ _ _ _ _ Va Vb). cbn [num_val].
    apply bounded_emin in Va, Vb.
    rewrite !(aligned_shift _ _ _ (Z.min e1 e2)) by lia.
    set (x := aligned s1 _ _ _). set (y := aligned s2 _ _ _).
    assert (0 < 2 ^ (Z.min e1 e2 - emin prec emax)) by (apply Z.pow_pos_nonneg; lia).
    destruct (Z.compare_spec x y); symmetry;
      [apply bool_decide_eq_false_2|apply bool_decide_eq_true_2|apply bool_decide_eq_false_2];
      nia.
Qed.

(** ** [Array.prototype.sort] with a numeric comparator

    A stable sort: [x] stays before [y] unless [cmp x y > 0]. *)
Fixpoint sort_insert {A} (cmp : A → A → number) (x : A) (l : list A) : list A :=
  match l with
  | [] => [x]
  | y :: l' =>
      if num_ltb num_zero (cmp x y) then y :: sort_insert cmp x l' else x :: y :: l'
  end.

Definition js_sort {A} (cmp : A → A → number) (l : list A) : list A :=
  foldr (sort_insert cmp) [] l.

Section sort.
Context {A : Type} (cmp : A → A → number).

Lemma sort_insert_perm x l : sort_insert cmp x l ≡ₚ x :: l.
Proof.
  induction l as [|y l IH]; simpl; [done|]. case_match; [|done].
  rewrite IH. apply Permutation_swap.
Qed.

Lemma js_sort_perm l : js_sort cmp l ≡ₚ l.
Proof. induction l as [|x l IH]; simpl; [done|]. by rewrite sort_insert_perm, IH. Qed.

(** The comparator orders the elements of [l] by an integer key. *)
Definition cmp_key (key : A → Z) (l : list A) : Prop :=
  ∀ x y, x ∈ l → y ∈ l → num_ltb num_zero (cmp x y) = bool_decide (key y < key x).

Lemma sort_insert_sorted key x l :
  cmp_key key (x :: l) →
  StronglySorted (λ a b, key a ≤ key b) l →
  StronglySorted (λ a b, key a ≤ key b) (sort_insert cmp x l).
Proof.
  intros Hk. induction 1 as [|y l Hs IH Hf]; simpl; [by repeat constructor|].
  rewrite Hk by set_solver. case_bool_decide.
  - constructor.
    + apply IH. intros a b ??. apply Hk; set_solver.
    + rewrite sort_insert_perm. constructor; [lia|done].
  - constructor; [by constructor|]. constructor; [lia|].
    eapply Forall_impl; [done|]. simpl. lia.
Qed.

Lemma js_sort_sorted key l :
  cmp_key key l → StronglySorted (λ a b, key a ≤ key b) (js_sort cmp l).
Proof.
  induction l as [|x l IH]; intros Hk; simpl; [constructor|].
  apply sort_insert_sorted.
  - intros a b Ha Hb. apply Hk; [revert Ha|revert Hb]; rewrite !elem_of_cons;
      rewrite (js_sort_perm l); done.
  - apply IH. intros a b ??. apply Hk; set_solver.
Qed.
End sort.

(** A list without repeated keys has one sorted arrangement. *)
Lemma sorted_key_unique {A} (key : A → Z) (l1 l2 : list A) :
  StronglySorted (λ a b, key a ≤ key b) l1 →
  StronglySorted (λ a b, key a ≤ key b) l2 →
  NoDup (key <$> l1) → l1 ≡ₚ l2 → l1 = l2.
Proof.
  intros S1; revert l2. induction S1 as [|x l1 S1 IH F1]; intros l2 S2 N P.
  - by apply Permutation_nil_l in P.
  - destruct l2 as [|y l2]; [by apply Permutation_nil_r in P|].
    inversion S2 as [|? ? S2' F2]; subst. rewrite fmap_cons in N.
    apply NoDup_cons in N as [Nx N].
    assert (x = y) as ->.
    { assert (y ∈ x :: l1) as Hy by (rewrite P; set_solver).
      assert (x ∈ y :: l2) as Hx by (rewrite <-P; set_solver).
      apply elem_of_cons in Hy as [->|Hy]; [done|].
      apply elem_of_cons in Hx as [->|Hx]; [done|].
      rewrite Forall_forall in F1, F2. exfalso; apply Nx.
      assert (key x = key y) as -> by (specialize (F1 _ Hy); specialize (F2 _ Hx); lia).
      by apply list_elem_of_fmap_2. }
    f_equal. apply IH; [done|done|]. by apply Permutation_cons_inv in P.
Qed.
