(* ===== verification/JsDate.v ===== *)
(** * Dates

    A [Date] is its time value in milliseconds. [toISOString] is the standard
    library's, for the times a database column can hold. *)

From S2P Require Import Prelude.

Local Open Scope Z_scope.

(** The proleptic Gregorian date of a day counted from 1970-01-01. *)
Definition civil_of_days (days : Z) : Z * Z * Z :=
  let z := days + 719468 in
  let era := z / 146097 in
  let doe := z - era * 146097 in
  let yoe := (doe - doe / 1460 + doe / 36524 - doe / 146096) / 365 in
  let doy := doe - (365 * yoe + yoe / 4 - yoe / 100) in
  let mp := (5 * doy + 2) / 153 in
  let d := doy - (153 * mp + 2) / 5 + 1 in
  let m := if mp <? 10 then mp + 3 else mp - 9 in
  let y := yoe + era * 400 + (if m <=? 2 then 1 else 0) in
  (y, m, d).

Definition digit (n : Z) : string :=
  match n with
  | 0 => "0" | 1 => "1" | 2 => "2" | 3 => "3" | 4 => "4"
  | 5 => "5" | 6 => "6" | 7 => "7" | 8 => "8" | _ => "9"
  end.

(** The last [w] decimal digits of [n]. *)
Fixpoint padded (w : nat) (n : Z) : string :=
  match w with
  | O => ""
  | S w' => padded w' (n / 10) +:+ digit (n `mod` 10)
  end.

Definition iso_year (y : Z) : string :=
  if (0 <=? y) && (y <=? 9999) then padded 4 y
  else (if y <? 0 then "-" else "+") +:+ padded 6 (Z.abs y).

(** [Date.prototype.toISOString] *)
Definition toISOString (t : Z) : string :=
  let '(y, m, d) := civil_of_days (t / 86400000) in
  let s := t `mod` 86400000 in
  iso_year y +:+ "-" +:+ padded 2 m +:+ "-" +:+ padded 2 d +:+ "T" +:+
  padded 2 (s / 3600000) +:+ ":" +:+ padded 2 ((s / 60000) `mod` 60) +:+ ":" +:+
  padded 2 ((s / 1000) `mod` 60) +:+ "." +:+ padded 3 (s `mod` 1000) +:+ "Z".

Example iso_epoch : toISOString 0 = "1970-01-01T00:00:00.000Z".
Proof. reflexivity. Qed.
Example iso_leap : toISOString 1709210096007 = "2024-02-29T12:34:56.007Z".
Proof. reflexivity. Qed.
Example iso_before : toISOString (-1) = "1969-12-31T23:59:59.999Z".
Proof. reflexivity. Qed.

(** The day, counted from 1970-01-01, of a date of the proleptic Gregorian calendar. *)
Definition days_of_civil (y m d : Z) : Z :=
  let y := if m <=? 2 then y - 1 else y in
  let era := y / 400 in
  let yoe := y - era * 400 in
  let doy := (153 * (if 2 <? m then m - 3 else m + 9) + 2) / 5 + d - 1 in
  era * 146097 + yoe * 365 + yoe / 4 - yoe / 100 + doy - 719468.

Fixpoint digits_of (s : string) (acc : Z) : option Z :=
  match s with
  | "" => Some acc
  | String c s' =>
      let n := Z.of_nat (Ascii.nat_of_ascii c) in
      if ((48 <=? n) && (n <=? 57))%Z then digits_of s' (acc * 10 + (n - 48))%Z else None
  end%string.
(** [new Date(text)] on a text in the format of [toISOString] with a year of four digits;
    [None] is an invalid date. *)
Definition parseISO (s : string) : option Z :=
  let at_ i n := digits_of (String.substring i n s) 0 in
  if bool_decide (String.length s = 24%nat ∧ String.substring 4 1 s = "-" ∧ String.substring 7 1 s = "-" ∧
                  String.substring 10 1 s = "T" ∧ String.substring 13 1 s = ":" ∧ String.substring 16 1 s = ":" ∧
                  String.substring 19 1 s = "." ∧ String.substring 23 1 s = "Z") then
    match at_ 0%nat 4%nat, at_ 5%nat 2%nat, at_ 8%nat 2%nat, at_ 11%nat 2%nat, at_ 14%nat 2%nat, at_ 17%nat 2%nat, at_ 20%nat 3%nat with
    | Some y, Some mo, Some d, Some h, Some mi, Some sec, Some ms =>
        if (1 <=? mo) && (mo <=? 12) && (1 <=? d) && (d <=? 31) && (h <=? 23) && (mi <=? 59) && (sec <=? 59) then
          Some (days_of_civil y mo d * 86400000 + h * 3600000 + mi * 60000 + sec * 1000 + ms)
        else None
    | _, _, _, _, _, _, _ => None
    end
  else None.

Example parse_leap : parseISO "2024-02-29T12:34:56.007Z" = Some 1709210096007.
Proof. reflexivity. Qed.
Example parse_epoch : parseISO "1970-01-01T00:00:00.000Z" = Some 0.
Proof. reflexivity. Qed.

Definition week_days : list string := ["Sun"; "Mon"; "Tue"; "Wed"; "Thu"; "Fri"; "Sat"].
Definition months : list string :=
  ["Jan"; "Feb"; "Mar"; "Apr"; "May"; "Jun"; "Jul"; "Aug"; "Sep"; "Oct"; "Nov"; "Dec"].
(** [Date.prototype.toUTCString] *)
Definition toUTCString (t : Z) : string :=
  let days := t / 86400000 in
  let '(y, m, d) := civil_of_days days in
  let s := t `mod` 86400000 in
  default "" (week_days !! Z.to_nat ((days + 4) `mod` 7)) +:+ ", " +:+ padded 2 d +:+ " " +:+
  default "" (months !! Z.to_nat (m - 1)) +:+ " " +:+ (if y <? 0 then "-" else "") +:+ padded 4 (Z.abs y) +:+ " " +:+
  padded 2 (s / 3600000) +:+ ":" +:+ padded 2 ((s / 60000) `mod` 60) +:+ ":" +:+ padded 2 ((s / 1000) `mod` 60) +:+ " GMT".

Example utc_epoch : toUTCString 0 = "Thu, 01 Jan 1970 00:00:00 GMT".
Proof. reflexivity. Qed.
Example utc_leap : toUTCString 1709210096007 = "Thu, 29 Feb 2024 12:34:56 GMT".
Proof. reflexivity. Qed.
