(* ===== verification/BoundedQueue.v ===== *)
(** * Bounded FIFO queues: the abstract specification and its interface

    What the ring buffers promise to the ingestion channels built on them: a
    sequence of at most [capacity] items, refused when full, taken out in the order
    they were put in. [BoundedFifo] is the interface; its laws are a forward
    simulation of the list specification, and the theorems below, on whole
    sequences of operations, are proved once against it. *)

From S2P Require Import Prelude.

(** ** The specification *)

Definition spec_enq {T} (cap : nat) (x : T) (q : list T) : bool * list T :=
  if decide (length q < cap) then (true, q ++ [x]) else (false, q).

Definition spec_deq {T} (q : list T) : option T * list T :=
  match q with [] => (None, []) | x :: q' => (Some x, q') end.

Inductive qop (T : Type) := Enq (x : T) | Deq.
Arguments Enq {T} _.
Arguments Deq {T}.

(** What a caller observes of an operation. *)
Inductive qout (T : Type) := OutEnq (x : T) (ok : bool) | OutDeq (r : option T).
Arguments OutEnq {T} _ _.
Arguments OutDeq {T} _.

Fixpoint spec_run {T} (cap : nat) (ops : list (qop T)) (q : list T)
    : list (qout T) * list T :=
  match ops with
  | [] => ([], q)
  | Enq x :: ops' =>
      let '(ok, q1) := spec_enq cap x q in
      let '(outs, q2) := spec_run cap ops' q1 in (OutEnq x ok :: outs, q2)
  | Deq :: ops' =>
      let '(r, q1) := spec_deq q in
      let '(outs, q2) := spec_run cap ops' q1 in (OutDeq r :: outs, q2)
  end.

Definition accepted {T} (outs : list (qout T)) : list T :=
  omap (λ o, match o with OutEnq x true => Some x | _ => None end) outs.
Definition delivered {T} (outs : list (qout T)) : list T :=
  omap (λ o, match o with OutDeq r => r | _ => None end) outs.

Definition refused {T} (outs : list (qout T)) : list T :=
  omap (λ o, match o with OutEnq x false => Some x | _ => None end) outs.
Definition misses {T} (outs : list (qout T)) : list unit :=
  omap (λ o, match o with OutDeq None => Some tt | _ => None end) outs.

(** Nothing is lost, duplicated or reordered: what was there and what was accepted
    is what was delivered and what is left, in this order. *)
Lemma spec_run_conserves {T} cap (ops : list (qop T)) q outs q' :
  spec_run cap ops q = (outs, q') →
  q ++ accepted outs = delivered outs ++ q'.
Proof.
  revert q outs. induction ops as [|[x|] ops IH]; intros q outs; simpl.
  - intros [= <- <-]. by rewrite app_nil_r.
  - unfold spec_enq. case_decide; destruct (spec_run cap ops _) as [o r] eqn:E;
      intros [= <- <-]; apply IH in E; simpl; [|done].
    by rewrite <-E, <-app_assoc.
  - destruct q as [|y q]; simpl; destruct (spec_run cap ops _) as [o r] eqn:E;
      intros [= <- <-]; apply IH in E; simpl; [done|]. by rewrite E.
Qed.

Lemma spec_run_bounded {T} cap (ops : list (qop T)) q outs q' :
  length q ≤ cap → spec_run cap ops q = (outs, q') → length q' ≤ cap.
Proof.
  revert q outs. induction ops as [|[x|] ops IH]; intros q outs Hq; simpl.
  - by intros [= <- <-].
  - unfold spec_enq. case_decide; destruct (spec_run cap ops _) as [o r] eqn:E;
      intros [= <- <-]; eapply IH; [|done| |done]; [|done].
    rewrite length_app; simpl; lia.
  - destruct q as [|y q]; simpl in *; destruct (spec_run cap ops _) as [o r] eqn:E;
      intros [= <- <-]; eapply IH; [|done| |done]; simpl; lia.
Qed.

(** ** The interface *)

Class BoundedFifo (S T : Type) := {
  fifo_enq : T → S → bool * S;
  fifo_deq : S → option T * S;
  (** [fifo_rep cap s q]: the object [s] of capacity [cap] holds [q]. *)
  fifo_rep : nat → S → list T → Prop;
  fifo_rep_bound cap s q : fifo_rep cap s q → length q ≤ cap;
  fifo_enq_refines cap s q x : fifo_rep cap s q →
    (fifo_enq x s).1 = (spec_enq cap x q).1 ∧
    fifo_rep cap (fifo_enq x s).2 (spec_enq cap x q).2;
  fifo_deq_refines cap s q : fifo_rep cap s q →
    (fifo_deq s).1 = (spec_deq q).1 ∧
    fifo_rep cap (fifo_deq s).2 (spec_deq q).2;
}.

Section client.
Context {S T : Type} `{!BoundedFifo S T}.

Fixpoint run_ops (ops : list (qop T)) (s : S) : list (qout T) * S :=
  match ops with
  | [] => ([], s)
  | Enq x :: ops' =>
      let '(ok, s1) := fifo_enq x s in
      let '(outs, s2) := run_ops ops' s1 in (OutEnq x ok :: outs, s2)
  | Deq :: ops' =>
      let '(r, s1) := fifo_deq s in
      let '(outs, s2) := run_ops ops' s1 in (OutDeq r :: outs, s2)
  end.

(** Every sequence of operations is observed as on the specification. *)
Lemma run_ops_refines cap (ops : list (qop T)) s q :
  fifo_rep cap s q →
  (run_ops ops s).1 = (spec_run cap ops q).1 ∧
  fifo_rep cap (run_ops ops s).2 (spec_run cap ops q).2.
Proof.
  revert s q. induction ops as [|[x|] ops IH]; intros s q R; simpl; [done|..].
  - destruct (fifo_enq_refines _ _ _ x R) as [E1 R1].
    destruct (fifo_enq x s) as [ok s1], (spec_enq cap x q) as [ok' q1]; simpl in *.
    destruct (IH _ _ R1) as [E2 R2].
    destruct (run_ops ops s1), (spec_run cap ops q1); simpl in *. by subst.
  - destruct (fifo_deq_refines _ _ _ R) as [E1 R1].
    destruct (fifo_deq s) as [r s1], (spec_deq q) as [r' q1]; simpl in *.
    destruct (IH _ _ R1) as [E2 R2].
    destruct (run_ops ops s1), (spec_run cap ops q1); simpl in *. by subst.
Qed.

(** First in, first out over any sequence, from an object holding nothing. *)
Lemma run_ops_fifo cap (ops : list (qop T)) s outs s' :
  fifo_rep cap s [] → run_ops ops s = (outs, s') →
  ∃ q', fifo_rep cap s' q' ∧ accepted outs = delivered outs ++ q' ∧ length q' ≤ cap.
Proof.
  intros R E. destruct (run_ops_refines cap ops s [] R) as [E1 R1].
  rewrite E in *; simpl in *. destruct (spec_run cap ops []) as [o q'] eqn:Eq; simpl in *.
  subst. exists q'. split; [done|]. split; [by apply spec_run_conserves in Eq|].
  by eapply fifo_rep_bound.
Qed.
End client.
