(* ===== verification/RingBuffer.v ===== *)
(** * The ring buffers of [src/src/queue/lockFreeRingBuffer.ts]

    [LockFreeRingBuffer] (single producer, [spsc_*]) and [MPSCRingBuffer] (several
    producers, [mpsc_*]): positions are unbounded integers ([bigint]), a slot is
    found by masking a position with [capacity - 1], and the capacity is rounded up
    to a power of two by a 32-bit shift loop. Both refine a bounded FIFO queue
    (module [BoundedQueue]) through the same representation relation [ring_rep].
    JavaScript runs each method to completion, so an interleaving of producers and
    consumers is a sequence of whole operations. *)

From S2P Require Import Prelude JsNumber BoundedQueue.

Local Open Scope Z_scope.

(** ** Data *)

Record RingBufferConfig := mkRingBufferConfig {
  cfg_capacity : Z;
  cfg_enableMetrics : bool;
  cfg_enableBatching : bool;
  cfg_batchSize : Z;
}.

Record RingBufferMetrics := mkMetrics {
  m_size : Z;
  m_capacity : Z;
  m_utilization : number;
  m_totalEnqueued : Z;
  m_totalDequeued : Z;
  m_enqueueFailures : Z;
  m_dequeueFailures : Z;
  m_averageLatency : number;
  m_peakLatency : number;
  m_batchesProcessed : Z;
}.

(** A ring buffer object. [rb_head] and [rb_tail] are the fields of the source: in
    the SPSC class [head] is the write position, in the MPSC class it is the read
    position. A slot holds [None] for [undefined] (SPSC) or [null] (MPSC). *)
Record RingBuffer (T : Type) := mkRing {
  rb_buffer : list (option T);
  rb_capacity : Z;
  rb_mask : Z;
  rb_head : Z;
  rb_tail : Z;
  rb_metrics : RingBufferMetrics;
  rb_latencySamples : list number;
}.
Arguments mkRing {T} _ _ _ _ _ _ _.
Arguments rb_buffer {T} _.
Arguments rb_capacity {T} _.
Arguments rb_mask {T} _.
Arguments rb_head {T} _.
Arguments rb_tail {T} _.
Arguments rb_metrics {T} _.
Arguments rb_latencySamples {T} _.

Definition MAX_LATENCY_SAMPLES : nat := 1000.

(** [x << 1] on numbers: the result is a signed 32-bit integer. *)
Definition to_int32 (z : Z) : Z :=
  let r := z mod 2 ^ 32 in if r <? 2 ^ 31 then r else r - 2 ^ 32.
Definition shl1_int32 (power : Z) : Z := to_int32 (Z.shiftl (to_int32 power) 1).

(** [while (power < n) power <<= 1;] for at most [fuel] iterations; [None] when the
    loop has not finished by then. *)
Fixpoint nextPowerOf2_loop (fuel : nat) (n power : Z) : option Z :=
  if power <? n then
    match fuel with
    | O => None
    | S fuel' => nextPowerOf2_loop fuel' n (shl1_int32 power)
    end
  else Some power.

Definition nextPowerOf2 (n : Z) (fuel : nat) : option Z := nextPowerOf2_loop fuel n 1.

(** 31 shifts reach every power a 32-bit shift can reach. *)
Definition pow2_fuel : nat := 31.

Definition initial_metrics (capacity : Z) : RingBufferMetrics :=
  mkMetrics 0 capacity num_zero 0 0 0 0 num_zero num_zero 0.

(** ** Metric updates shared by the two classes *)

Definition set_enqueueFailures (m : RingBufferMetrics) : RingBufferMetrics :=
  mkMetrics (m_size m) (m_capacity m) (m_utilization m) (m_totalEnqueued m)
    (m_totalDequeued m) (m_enqueueFailures m + 1) (m_dequeueFailures m)
    (m_averageLatency m) (m_peakLatency m) (m_batchesProcessed m).

Definition set_dequeueFailures (m : RingBufferMetrics) : RingBufferMetrics :=
  mkMetrics (m_size m) (m_capacity m) (m_utilization m) (m_totalEnqueued m)
    (m_totalDequeued m) (m_enqueueFailures m) (m_dequeueFailures m + 1)
    (m_averageLatency m) (m_peakLatency m) (m_batchesProcessed m).

Definition note_enqueue (capacity size : Z) (m : RingBufferMetrics) : RingBufferMetrics :=
  mkMetrics size (m_capacity m) (num_div (num_of_Z size) (num_of_Z capacity))
    (m_totalEnqueued m + 1) (m_totalDequeued m) (m_enqueueFailures m)
    (m_dequeueFailures m) (m_averageLatency m) (m_peakLatency m) (m_batchesProcessed m).

Definition note_dequeue (capacity size : Z) (m : RingBufferMetrics) : RingBufferMetrics :=
  mkMetrics size (m_capacity m) (num_div (num_of_Z size) (num_of_Z capacity))
    (m_totalEnqueued m) (m_totalDequeued m + 1) (m_enqueueFailures m)
    (m_dequeueFailures m) (m_averageLatency m) (m_peakLatency m) (m_batchesProcessed m).

Definition note_batch (m : RingBufferMetrics) : RingBufferMetrics :=
  mkMetrics (m_size m) (m_capacity m) (m_utilization m) (m_totalEnqueued m)
    (m_totalDequeued m) (m_enqueueFailures m) (m_dequeueFailures m)
    (m_averageLatency m) (m_peakLatency m) (m_batchesProcessed m + 1).

Definition note_size (capacity size : Z) (m : RingBufferMetrics) : RingBufferMetrics :=
  mkMetrics size (m_capacity m) (num_div (num_of_Z size) (num_of_Z capacity))
    (m_totalEnqueued m) (m_totalDequeued m) (m_enqueueFailures m)
    (m_dequeueFailures m) (m_averageLatency m) (m_peakLatency m) (m_batchesProcessed m).

Definition note_latency (avg peak : number) (m : RingBufferMetrics) : RingBufferMetrics :=
  mkMetrics (m_size m) (m_capacity m) (m_utilization m) (m_totalEnqueued m)
    (m_totalDequeued m) (m_enqueueFailures m) (m_dequeueFailures m) avg peak
    (m_batchesProcessed m).

Section operations.
Context {T : Type}.
Implicit Types s : RingBuffer T.

Definition with_metrics s (m : RingBufferMetrics) : RingBuffer T :=
  mkRing (rb_buffer s) (rb_capacity s) (rb_mask s) (rb_head s) (rb_tail s) m
    (rb_latencySamples s).

(** [Number(position & BigInt(this.mask))] *)
Definition slot_index s (position : Z) : nat := Z.to_nat (Z.land position (rb_mask s)).

(** [recordLatency], the same code in both classes. *)
Definition recordLatency (latency : number) s : RingBuffer T :=
  let samples := window_push MAX_LATENCY_SAMPLES (rb_latencySamples s) latency in
  let m :=
    if decide (0 < length samples)%nat then
      note_latency (num_div (num_sum samples) (num_of_Z (Z.of_nat (length samples))))
        (math_max_list samples) (rb_metrics s)
    else rb_metrics s in
  mkRing (rb_buffer s) (rb_capacity s) (rb_mask s) (rb_head s) (rb_tail s) m samples.

(** *** [LockFreeRingBuffer]: [head] writes, [tail] reads *)

Definition spsc_constructor (config : RingBufferConfig) : option (RingBuffer T) :=
  capacity ← nextPowerOf2 (cfg_capacity config) pow2_fuel;
  Some (mkRing (replicate (Z.to_nat capacity) None) capacity (capacity - 1) 0 0
    (initial_metrics capacity) []).

Definition spsc_tryEnqueue (item : T) s : bool * RingBuffer T :=
  if rb_capacity s <=? rb_head s - rb_tail s then
    (false, with_metrics s (set_enqueueFailures (rb_metrics s)))
  else
    let buffer := js_array_set None (rb_buffer s) (slot_index s (rb_head s)) (Some item) in
    let head := rb_head s + 1 in
    (true, mkRing buffer (rb_capacity s) (rb_mask s) head (rb_tail s)
      (note_enqueue (rb_capacity s) (head - rb_tail s) (rb_metrics s))
      (rb_latencySamples s)).

Definition spsc_tryDequeue s : option T * RingBuffer T :=
  if rb_head s <=? rb_tail s then
    (None, with_metrics s (set_dequeueFailures (rb_metrics s)))
  else
    let index := slot_index s (rb_tail s) in
    let item := mjoin (rb_buffer s !! index) in
    let buffer := js_array_set None (rb_buffer s) index None in
    let tail := rb_tail s + 1 in
    (item, mkRing buffer (rb_capacity s) (rb_mask s) (rb_head s) tail
      (note_dequeue (rb_capacity s) (rb_head s - tail) (rb_metrics s))
      (rb_latencySamples s)).

Definition spsc_size s : Z := rb_head s - rb_tail s.
Definition spsc_isEmpty s : bool := rb_head s =? rb_tail s.
Definition spsc_isFull s : bool := rb_capacity s <=? rb_head s - rb_tail s.

Definition spsc_getMetrics s : RingBufferMetrics * RingBuffer T :=
  let m := note_size (rb_capacity s) (spsc_size s) (rb_metrics s) in
  (m, with_metrics s m).

Definition reset_metrics_at (capacity size : Z) : RingBufferMetrics :=
  mkMetrics size capacity (num_div (num_of_Z size) (num_of_Z capacity))
    0 0 0 0 num_zero num_zero 0.

Definition spsc_resetMetrics s : RingBuffer T :=
  mkRing (rb_buffer s) (rb_capacity s) (rb_mask s) (rb_head s) (rb_tail s)
    (reset_metrics_at (rb_capacity s) (spsc_size s)) [].

(** *** [MPSCRingBuffer]: [tail] writes, [head] reads *)

Definition mpsc_constructor (config : RingBufferConfig) : option (RingBuffer T) :=
  capacity ← nextPowerOf2 (cfg_capacity config) pow2_fuel;
  Some (mkRing (replicate (Z.to_nat capacity) None) capacity (capacity - 1) 0 0
    (initial_metrics capacity) []).

Definition mpsc_tryEnqueue (item : T) s : bool * RingBuffer T :=
  if rb_capacity s <=? rb_tail s - rb_head s then
    (false, with_metrics s (set_enqueueFailures (rb_metrics s)))
  else
    let index := slot_index s (rb_tail s) in
    match rb_buffer s !! index with
    | Some None =>
        let buffer := js_array_set None (rb_buffer s) index (Some item) in
        let tail := rb_tail s + 1 in
        (true, mkRing buffer (rb_capacity s) (rb_mask s) (rb_head s) tail
          (note_enqueue (rb_capacity s) (tail - rb_head s) (rb_metrics s))
          (rb_latencySamples s))
    | _ => (false, with_metrics s (set_enqueueFailures (rb_metrics s)))
    end.

Definition mpsc_tryDequeue s : option T * RingBuffer T :=
  if rb_tail s <=? rb_head s then
    (None, with_metrics s (set_dequeueFailures (rb_metrics s)))
  else
    let index := slot_index s (rb_head s) in
    match rb_buffer s !! index with
    | Some None => (None, with_metrics s (set_dequeueFailures (rb_metrics s)))
    | slot =>
        let buffer := js_array_set None (rb_buffer s) index None in
        let head := rb_head s + 1 in
        (mjoin slot, mkRing buffer (rb_capacity s) (rb_mask s) head (rb_tail s)
          (note_dequeue (rb_capacity s) (rb_tail s - head) (rb_metrics s))
          (rb_latencySamples s))
    end.

Fixpoint mpsc_dequeue_loop (n : nat) (items : list T) s : list T * RingBuffer T :=
  match n with
  | O => (items, s)
  | S n' =>
      match mpsc_tryDequeue s with
      | (Some item, s') => mpsc_dequeue_loop n' (items ++ [item]) s'
      | (None, s') => (items, s')
      end
  end.

Definition mpsc_tryDequeueBatch (maxItems : Z) s : list T * RingBuffer T :=
  let '(items, s') := mpsc_dequeue_loop (Z.to_nat maxItems) [] s in
  if decide (0 < length items)%nat
  then (items, with_metrics s' (note_batch (rb_metrics s')))
  else (items, s').

Definition mpsc_size s : Z := rb_tail s - rb_head s.
Definition mpsc_isEmpty s : bool := rb_head s =? rb_tail s.
Definition mpsc_isFull s : bool := rb_capacity s <=? rb_tail s - rb_head s.

Definition mpsc_getMetrics s : RingBufferMetrics * RingBuffer T :=
  let m := note_size (rb_capacity s) (mpsc_size s) (rb_metrics s) in
  (m, with_metrics s m).

Definition mpsc_resetMetrics s : RingBuffer T :=
  mkRing (rb_buffer s) (rb_capacity s) (rb_mask s) (rb_head s) (rb_tail s)
    (reset_metrics_at (rb_capacity s) (mpsc_size s)) [].
End operations.

(** ** The representation relation *)

Section representation.
Context {T : Type}.
Implicit Types (s : RingBuffer T) (q : list T).

(** The read position [rd] and the write position [wr] of [s] delimit [q]: slot
    [rd + i] holds the [i]-th item, and the slots past the write position are free. *)
Record ring_rep (cap : nat) s (rd wr : Z) q : Prop := {
  rep_pow2 : ∃ k, 0 ≤ k ∧ rb_capacity s = 2 ^ k;
  rep_mask : rb_mask s = rb_capacity s - 1;
  rep_cap : rb_capacity s = Z.of_nat cap;
  rep_length : length (rb_buffer s) = cap;
  rep_rd : 0 ≤ rd;
  rep_wr : wr = rd + Z.of_nat (length q);
  rep_bound : (length q ≤ cap)%nat;
  rep_slots : ∀ i : nat, (i < cap)%nat →
    rb_buffer s !! slot_index s (rd + Z.of_nat i) = Some (q !! i);
}.

Lemma slot_index_mod cap s rd wr q p :
  ring_rep cap s rd wr q → slot_index s p = Z.to_nat (p `mod` Z.of_nat cap).
Proof.
  intros [(k & Hk & E) Hm Hc _ _ _ _ _]. unfold slot_index.
  by rewrite Hm, E, land_pow2_mask, <-E, Hc.
Qed.

Lemma ring_rep_cap_pos cap s rd wr q : ring_rep cap s rd wr q → (0 < cap)%nat.
Proof.
  intros [(k & Hk & E) Hm Hc _ _ _ _ _].
  pose proof (Z.pow_pos_nonneg 2 k ltac:(lia) Hk). lia.
Qed.

Lemma slot_index_lt cap s rd wr q p :
  ring_rep cap s rd wr q → (slot_index s p < length (rb_buffer s))%nat.
Proof.
  intros R. rewrite (slot_index_mod _ _ _ _ _ p R), (rep_length _ _ _ _ _ R).
  pose proof (ring_rep_cap_pos _ _ _ _ _ R).
  pose proof (Z.mod_pos_bound p (Z.of_nat cap) ltac:(lia)). lia.
Qed.

Lemma slot_index_ne cap s rd wr q (a b : Z) :
  ring_rep cap s rd wr q → a < b → b - a < Z.of_nat cap →
  slot_index s a ≠ slot_index s b.
Proof.
  intros R Hab Hd. rewrite !(slot_index_mod _ _ _ _ _ _ R).
  pose proof (ring_rep_cap_pos _ _ _ _ _ R).
  pose proof (Z.mod_pos_bound a (Z.of_nat cap) ltac:(lia)).
  pose proof (Z.mod_pos_bound b (Z.of_nat cap) ltac:(lia)).
  pose proof (mod_window_ne (Z.of_nat cap) a b). lia.
Qed.

Lemma slot_index_wrap cap s rd wr q p :
  ring_rep cap s rd wr q → slot_index s (p + Z.of_nat cap) = slot_index s p.
Proof.
  intros R. rewrite !(slot_index_mod _ _ _ _ _ _ R).
  pose proof (ring_rep_cap_pos _ _ _ _ _ R).
  replace (p + Z.of_nat cap) with (p + 1 * Z.of_nat cap) by lia.
  by rewrite Z_mod_plus_full.
Qed.

(** Only the buffer, the capacity and the mask matter. *)
Lemma ring_rep_ext cap s s' rd wr q :
  rb_buffer s' = rb_buffer s → rb_capacity s' = rb_capacity s → rb_mask s' = rb_mask s →
  ring_rep cap s rd wr q → ring_rep cap s' rd wr q.
Proof.
  intros Eb Ec Em []. split; rewrite ?Eb, ?Ec, ?Em; try done.
  intros i Hi. unfold slot_index. rewrite Em. by apply rep_slots0.
Qed.

Lemma ring_rep_push cap s s' rd wr q x :
  ring_rep cap s rd wr q → (length q < cap)%nat →
  rb_buffer s' = js_array_set None (rb_buffer s) (slot_index s wr) (Some x) →
  rb_capacity s' = rb_capacity s → rb_mask s' = rb_mask s →
  ring_rep cap s' rd (wr + 1) (q ++ [x]).
Proof.
  intros R Hlt Eb Ec Em. pose proof (slot_index_lt _ _ _ _ _ wr R) as Hin.
  rewrite js_array_set_in in Eb by done. pose proof R as [].
  split; rewrite ?Eb, ?Ec, ?Em, ?length_insert, ?length_app; simpl; try done; [lia..|].
  intros i Hi.
  assert (slot_index s' = slot_index s) as -> by (unfold slot_index; by rewrite Em).
  destruct (decide (i = length q)) as [->|Hne].
  - rewrite rep_wr0, list_lookup_insert_eq by (rewrite <-rep_wr0; done).
    by rewrite list_lookup_middle.
  - rewrite list_lookup_insert_ne, rep_slots0; [|done|].
    2: { destruct (decide (i < length q)%nat);
         [apply not_eq_sym, (slot_index_ne cap s rd wr q (rd + Z.of_nat i) wr R)
         |apply (slot_index_ne cap s rd wr q wr (rd + Z.of_nat i) R)]; lia. }
    f_equal. destruct (decide (i < length q)%nat).
    + by rewrite lookup_app_l.
    + rewrite !lookup_ge_None_2; [done|rewrite length_app; simpl; lia|lia].
Qed.

Lemma ring_rep_pop cap s s' rd wr q x :
  ring_rep cap s rd wr (x :: q) →
  rb_buffer s' = js_array_set None (rb_buffer s) (slot_index s rd) None →
  rb_capacity s' = rb_capacity s → rb_mask s' = rb_mask s →
  ring_rep cap s' (rd + 1) wr q.
Proof.
  intros R Eb Ec Em. pose proof (slot_index_lt _ _ _ _ _ rd R) as Hin.
  rewrite js_array_set_in in Eb by done. pose proof R as []; simpl in *.
  split; rewrite ?Eb, ?Ec, ?Em, ?length_insert; simpl; try done; [lia..|].
  intros i Hi.
  assert (slot_index s' = slot_index s) as -> by (unfold slot_index; by rewrite Em).
  destruct (decide (S i = cap)) as [<-|Hne].
  - replace (rd + 1 + Z.of_nat i) with (rd + Z.of_nat (S i)) by lia.
    rewrite (slot_index_wrap _ _ _ _ _ _ R), list_lookup_insert_eq by done.
    by rewrite lookup_ge_None_2 by lia.
  - rewrite list_lookup_insert_ne
      by (eapply (slot_index_ne cap s rd wr (x :: q)); [done|lia|lia]).
    replace (rd + 1 + Z.of_nat i) with (rd + Z.of_nat (S i)) by lia.
    by rewrite rep_slots0 by lia.
Qed.

Lemma ring_rep_first cap s rd wr q x :
  ring_rep cap s rd wr (x :: q) → rb_buffer s !! slot_index s rd = Some (Some x).
Proof.
  intros R. pose proof (rep_slots _ _ _ _ _ R 0%nat) as H.
  rewrite Z.add_0_r in H. apply H. by eapply ring_rep_cap_pos.
Qed.

Lemma ring_rep_free cap s rd wr q :
  ring_rep cap s rd wr q → (length q < cap)%nat →
  rb_buffer s !! slot_index s wr = Some None.
Proof.
  intros R H. rewrite (rep_wr _ _ _ _ _ R), (rep_slots _ _ _ _ _ R) by done.
  by rewrite lookup_ge_None_2.
Qed.
End representation.

(** ** Rounding the capacity up *)

Lemma shl1_int32_pow2 (k : nat) :
  (k < 30)%nat → shl1_int32 (2 ^ Z.of_nat k) = 2 ^ Z.of_nat (S k).
Proof. intros H. do 30 (destruct k as [|k]; [by vm_compute|]). lia. Qed.

Lemma nextPowerOf2_loop_ok (fuel k : nat) (n : Z) :
  n ≤ 2 ^ 30 → (k ≤ 30)%nat → (30 < fuel + k)%nat → (k = 0%nat ∨ 2 ^ (Z.of_nat k - 1) < n) →
  ∃ j : nat, (j ≤ 30)%nat ∧ nextPowerOf2_loop fuel n (2 ^ Z.of_nat k) = Some (2 ^ Z.of_nat j) ∧
    n ≤ 2 ^ Z.of_nat j ∧ (j = 0%nat ∨ 2 ^ (Z.of_nat j - 1) < n).
Proof.
  revert k. induction fuel as [|fuel IH]; intros k Hn Hk Hf Hlow; simpl.
  - lia.
  - destruct (Z.ltb_spec (2 ^ Z.of_nat k) n) as [Hlt|Hge]; [|by exists k].
    destruct (decide (k = 30%nat)) as [->|]; [change (Z.of_nat 30) with 30 in Hlt; lia|].
    rewrite shl1_int32_pow2 by lia. apply IH; [done|lia|lia|].
    right. by replace (Z.of_nat (S k) - 1) with (Z.of_nat k) by lia.
Qed.

Lemma nextPowerOf2_ok (n : Z) :
  n ≤ 2 ^ 30 →
  ∃ j : nat, nextPowerOf2 n pow2_fuel = Some (2 ^ Z.of_nat j) ∧
    n ≤ 2 ^ Z.of_nat j ∧ (j = 0%nat ∨ 2 ^ (Z.of_nat j - 1) < n).
Proof.
  intros H. destruct (nextPowerOf2_loop_ok pow2_fuel 0 n) as (j & _ & Hj);
    [done|lia|unfold pow2_fuel; lia|by left|by exists j].
Qed.

(** The values the shift goes through: the powers of two up to [2^30], then the
    sign bit, then 0 for ever. *)
Definition shl1_orbit : list Z := (- 2 ^ 31) :: 0 :: ((λ k, 2 ^ Z.of_nat k) <$> seq 0 31).

Lemma shl1_orbit_closed : Forall (λ p, shl1_int32 p ∈ shl1_orbit) shl1_orbit.
Proof. apply (bool_decide_unpack _). by vm_compute. Qed.

Lemma shl1_orbit_le : Forall (λ p, p ≤ 2 ^ 30) shl1_orbit.
Proof. apply (bool_decide_unpack _). by vm_compute. Qed.

Lemma nextPowerOf2_loop_diverges (fuel : nat) (n power : Z) :
  2 ^ 30 < n → power ∈ shl1_orbit → nextPowerOf2_loop fuel n power = None.
Proof.
  intros Hn. revert power. induction fuel as [|fuel IH]; intros power Hp; simpl;
    pose proof (proj1 (Forall_forall _ _) shl1_orbit_le power Hp) as Hle;
    simpl in Hle; rewrite (proj2 (Z.ltb_lt power n)) by lia; [done|].
  apply IH. exact (proj1 (Forall_forall _ _) shl1_orbit_closed power Hp).
Qed.

(** ** The operations refine a bounded FIFO queue *)

Section refinement.
Context {T : Type}.
Implicit Types (s : RingBuffer T) (q : list T).

Definition spsc_rep (cap : nat) s q : Prop := ring_rep cap s (rb_tail s) (rb_head s) q.
Definition mpsc_rep (cap : nat) s q : Prop := ring_rep cap s (rb_head s) (rb_tail s) q.

Lemma fresh_ring_rep (j : nat) (m : RingBufferMetrics) :
  ring_rep (Z.to_nat (2 ^ Z.of_nat j))
    (mkRing (replicate (Z.to_nat (2 ^ Z.of_nat j)) None) (2 ^ Z.of_nat j)
       (2 ^ Z.of_nat j - 1) 0 0 m []) 0 0 ([] : list T).
Proof.
  pose proof (Z.pow_pos_nonneg 2 (Z.of_nat j) ltac:(lia) ltac:(lia)) as Hp.
  split; simpl; try lia; [exists (Z.of_nat j); lia|by rewrite length_replicate|].
  intros i Hi. unfold slot_index; simpl.
  rewrite lookup_replicate_2; [done|]. rewrite land_pow2_mask by lia.
  pose proof (Z.mod_pos_bound (Z.of_nat i) _ Hp). rewrite Z.add_0_l. lia.
Qed.

Lemma spsc_enq_refines cap s q x :
  spsc_rep cap s q →
  (spsc_tryEnqueue x s).1 = (spec_enq cap x q).1 ∧
  spsc_rep cap (spsc_tryEnqueue x s).2 (spec_enq cap x q).2.
Proof.
  intros R. unfold spsc_tryEnqueue, spec_enq. pose proof R as [].
  destruct (Z.leb_spec (rb_capacity s) (rb_head s - rb_tail s)); simpl.
  - rewrite decide_False by lia. split; [done|]. by eapply ring_rep_ext; [..|exact R].
  - rewrite decide_True by lia. split; [done|]. apply (ring_rep_push cap s _ _ _ q x R); [lia|done..].
Qed.

Lemma spsc_deq_refines cap s q :
  spsc_rep cap s q →
  (spsc_tryDequeue s).1 = (spec_deq q).1 ∧
  spsc_rep cap (spsc_tryDequeue s).2 (spec_deq q).2.
Proof.
  intros R. unfold spsc_tryDequeue. pose proof R as [].
  destruct q as [|x q]; simpl in *.
  - rewrite (proj2 (Z.leb_le _ _)) by lia. split; [done|].
    by eapply ring_rep_ext; [..|exact R].
  - rewrite (proj2 (Z.leb_gt _ _)) by lia; simpl.
    rewrite (ring_rep_first _ _ _ _ _ _ R). split; [done|].
    by apply (ring_rep_pop cap s _ _ _ q x R).
Qed.

Lemma mpsc_enq_refines cap s q x :
  mpsc_rep cap s q →
  (mpsc_tryEnqueue x s).1 = (spec_enq cap x q).1 ∧
  mpsc_rep cap (mpsc_tryEnqueue x s).2 (spec_enq cap x q).2.
Proof.
  intros R. unfold mpsc_tryEnqueue, spec_enq. pose proof R as [].
  destruct (Z.leb_spec (rb_capacity s) (rb_tail s - rb_head s)); simpl.
  - rewrite decide_False by lia. split; [done|]. by eapply ring_rep_ext; [..|exact R].
  - rewrite decide_True by lia. rewrite (ring_rep_free _ _ _ _ _ R) by lia.
    split; [done|]. apply (ring_rep_push cap s _ _ _ q x R); [lia|done..].
Qed.

Lemma mpsc_deq_refines cap s q :
  mpsc_rep cap s q →
  (mpsc_tryDequeue s).1 = (spec_deq q).1 ∧
  mpsc_rep cap (mpsc_tryDequeue s).2 (spec_deq q).2.
Proof.
  intros R. unfold mpsc_tryDequeue. pose proof R as [].
  destruct q as [|x q]; simpl in *.
  - rewrite (proj2 (Z.leb_le _ _)) by lia. split; [done|].
    by eapply ring_rep_ext; [..|exact R].
  - rewrite (proj2 (Z.leb_gt _ _)) by lia; simpl.
    rewrite (ring_rep_first _ _ _ _ _ _ R). split; [done|].
    by apply (ring_rep_pop cap s _ _ _ q x R).
Qed.

#[export] Instance mpsc_fifo : BoundedFifo (RingBuffer T) T := {
  fifo_enq := mpsc_tryEnqueue;
  fifo_deq := mpsc_tryDequeue;
  fifo_rep := mpsc_rep;
  fifo_rep_bound cap s q R := rep_bound cap s _ _ q R;
  fifo_enq_refines := mpsc_enq_refines;
  fifo_deq_refines := mpsc_deq_refines;
}.

Definition spsc_fifo : BoundedFifo (RingBuffer T) T := {|
  fifo_enq := spsc_tryEnqueue;
  fifo_deq := spsc_tryDequeue;
  fifo_rep := spsc_rep;
  fifo_rep_bound cap s q R := rep_bound cap s _ _ q R;
  fifo_enq_refines := spsc_enq_refines;
  fifo_deq_refines := spsc_deq_refines;
|}.

(** The constructors succeed up to [2^30] and give an empty buffer of the next
    power of two. *)
Lemma constructor_rep (config : RingBufferConfig) :
  cfg_capacity config ≤ 2 ^ 30 →
  ∃ (j : nat) s, mpsc_constructor config = Some s ∧ spsc_constructor config = Some s ∧
    cfg_capacity config ≤ 2 ^ Z.of_nat j ∧
    rb_metrics s = initial_metrics (2 ^ Z.of_nat j) ∧
    mpsc_rep (Z.to_nat (2 ^ Z.of_nat j)) s [] ∧ spsc_rep (Z.to_nat (2 ^ Z.of_nat j)) s [].
Proof.
  intros H. destruct (nextPowerOf2_ok _ H) as (j & E & Hle & _).
  eexists j, _. unfold mpsc_constructor, spsc_constructor. rewrite E; simpl.
  split_and!; [done|done|done|done|apply fresh_ring_rep|apply fresh_ring_rep].
Qed.

(** *** Batches *)

Lemma mpsc_dequeue_loop_spec cap (n : nat) items s q :
  mpsc_rep cap s q →
  (mpsc_dequeue_loop n items s).1 = items ++ take n q ∧
  mpsc_rep cap (mpsc_dequeue_loop n items s).2 (drop n q).
Proof.
  revert items s q. induction n as [|n IH]; intros items s q R; simpl.
  - by rewrite take_0, app_nil_r, drop_0.
  - destruct (mpsc_deq_refines cap s q R) as [E1 R1].
    destruct (mpsc_tryDequeue s) as [r s1]; simpl in *. destruct q as [|x q]; simpl in *; subst.
    + by rewrite app_nil_r.
    + destruct (IH (items ++ [x]) s1 q R1) as [-> R2]. by rewrite <-app_assoc.
Qed.

Lemma mpsc_batch_spec cap (maxItems : Z) s q :
  mpsc_rep cap s q →
  (mpsc_tryDequeueBatch maxItems s).1 = take (Z.to_nat maxItems) q ∧
  mpsc_rep cap (mpsc_tryDequeueBatch maxItems s).2 (drop (Z.to_nat maxItems) q).
Proof.
  intros R. unfold mpsc_tryDequeueBatch.
  destruct (mpsc_dequeue_loop_spec cap (Z.to_nat maxItems) [] s q R) as [E R1].
  destruct (mpsc_dequeue_loop _ _ _) as [items s1]; simpl in *. subst items.
  case_decide; simpl; (split; [done|]); [|done]. by eapply ring_rep_ext; [..|exact R1].
Qed.

(** *** Metrics *)

(** The counters have moved by the statistics of the observed outputs. *)
Definition counters_moved (m m' : RingBufferMetrics) (outs : list (qout T)) : Prop :=
  m_totalEnqueued m' = m_totalEnqueued m + Z.of_nat (length (accepted outs)) ∧
  m_totalDequeued m' = m_totalDequeued m + Z.of_nat (length (delivered outs)) ∧
  m_enqueueFailures m' = m_enqueueFailures m + Z.of_nat (length (refused outs)) ∧
  m_dequeueFailures m' = m_dequeueFailures m + Z.of_nat (length (misses outs)).

Lemma run_ops_counters cap (ops : list (qop T)) s q outs s' :
  mpsc_rep cap s q → run_ops ops s = (outs, s') →
  counters_moved (rb_metrics s) (rb_metrics s') outs.
Proof.
  revert s q outs. induction ops as [|[x|] ops IH]; intros s q outs R; simpl.
  - intros [= <- <-]. unfold counters_moved; simpl. lia.
  - pose proof (mpsc_enq_refines cap s q x R) as [_ R1]. revert R1.
    unfold mpsc_tryEnqueue.
    destruct (_ <=? _); [|destruct (rb_buffer s !! _) as [[|]|]]; simpl; intros R1;
      destruct (run_ops ops _) as [o r] eqn:E; intros [= <- <-];
      apply (IH _ _ _ R1) in E; revert E; unfold counters_moved; simpl; lia.
  - pose proof (mpsc_deq_refines cap s q R) as [E1 R1]. revert E1 R1.
    unfold mpsc_tryDequeue. pose proof R as [].
    destruct q as [|x q]; simpl in *.
    + rewrite (proj2 (Z.leb_le _ _)) by lia; simpl; intros _ R1.
      destruct (run_ops ops _) as [o r] eqn:E; intros [= <- <-].
      apply (IH _ _ _ R1) in E; revert E; unfold counters_moved; simpl; lia.
    + rewrite (proj2 (Z.leb_gt _ _)) by lia; simpl.
      rewrite (ring_rep_first _ _ _ _ _ _ R); simpl; intros _ R1.
      destruct (run_ops ops _) as [o r] eqn:E; intros [= <- <-].
      apply (IH _ _ _ R1) in E; revert E; unfold counters_moved; simpl; lia.
Qed.
End refinement.

(** ** Properties *)

(** C28. A multi-producer ring buffer built for at most [2^30] items behaves, on every
    sequence of [tryEnqueue] and [tryDequeue] calls in whatever order the producers
    and the consumer make them, exactly as a bounded FIFO queue whose capacity is a
    power of two not below the configured one: same answers, and the items it accepted
    are the items it delivered followed by the ones it still holds, in order. *)
Theorem mpsc_trace_fifo {T} (config : RingBufferConfig) (ops : list (qop T)) :
  cfg_capacity config ≤ 2 ^ 30 →
  ∃ (j : nat) (s0 : RingBuffer T),
    mpsc_constructor config = Some s0 ∧ cfg_capacity config ≤ 2 ^ Z.of_nat j ∧
    let cap := Z.to_nat (2 ^ Z.of_nat j) in
    let '(outs, s) := run_ops ops s0 in
    outs = (spec_run cap ops []).1 ∧
    ∃ q, mpsc_rep cap s q ∧ accepted outs = delivered outs ++ q ∧ (length q ≤ cap)%nat.
Proof.
  intros H. destruct (constructor_rep (T:=T) config H) as (j & s0 & E & _ & Hle & _ & R & _).
  exists j, s0. split; [done|]. split; [done|]. simpl.
  destruct (run_ops ops s0) as [outs s] eqn:Er.
  destruct (run_ops_refines (BoundedFifo0 := mpsc_fifo) _ ops s0 [] R) as [E1 _].
  rewrite Er in E1. split; [done|].
  by apply (run_ops_fifo (BoundedFifo0 := mpsc_fifo) _ ops s0).
Qed.

Lemma mpsc_trace_fifo_witness :
  ∃ (j : nat) (s0 : RingBuffer Z),
    mpsc_constructor (mkRingBufferConfig 3 true true 2) = Some s0 ∧ 3 ≤ 2 ^ Z.of_nat j ∧
    let cap := Z.to_nat (2 ^ Z.of_nat j) in
    let '(outs, s) := run_ops [Enq 7; Enq 8; Deq; Enq 9] s0 in
    outs = (spec_run cap [Enq 7; Enq 8; Deq; Enq 9] []).1 ∧
    ∃ q, mpsc_rep cap s q ∧ accepted outs = delivered outs ++ q ∧ (length q ≤ cap)%nat.
Proof. apply (mpsc_trace_fifo (mkRingBufferConfig 3 true true 2)). simpl. lia. Defined.

(** The single-producer ring buffer satisfies the same specification. *)
Theorem spsc_trace_fifo {T} (config : RingBufferConfig) (ops : list (qop T)) :
  cfg_capacity config ≤ 2 ^ 30 →
  ∃ (j : nat) (s0 : RingBuffer T),
    spsc_constructor config = Some s0 ∧ cfg_capacity config ≤ 2 ^ Z.of_nat j ∧
    let cap := Z.to_nat (2 ^ Z.of_nat j) in
    let '(outs, s) := run_ops (BoundedFifo0 := spsc_fifo) ops s0 in
    outs = (spec_run cap ops []).1 ∧
    ∃ q, spsc_rep cap s q ∧ accepted outs = delivered outs ++ q ∧ (length q ≤ cap)%nat.
Proof.
  intros H. destruct (constructor_rep (T:=T) config H) as (j & s0 & _ & E & Hle & _ & _ & R).
  exists j, s0. split; [done|]. split; [done|]. simpl.
  destruct (run_ops (BoundedFifo0 := spsc_fifo) ops s0) as [outs s] eqn:Er.
  destruct (run_ops_refines (BoundedFifo0 := spsc_fifo) _ ops s0 [] R) as [E1 _].
  rewrite Er in E1. split; [done|].
  by apply (run_ops_fifo (BoundedFifo0 := spsc_fifo) _ ops s0).
Qed.

Lemma spsc_trace_fifo_witness :
  ∃ (j : nat) (s0 : RingBuffer Z),
    spsc_constructor (mkRingBufferConfig 1 true true 2) = Some s0 ∧ 1 ≤ 2 ^ Z.of_nat j ∧
    let cap := Z.to_nat (2 ^ Z.of_nat j) in
    let '(outs, s) := run_ops (BoundedFifo0 := spsc_fifo) [Enq 7; Enq 8; Deq; Deq] s0 in
    outs = (spec_run cap [Enq 7; Enq 8; Deq; Deq] []).1 ∧
    ∃ q, spsc_rep cap s q ∧ accepted outs = delivered outs ++ q ∧ (length q ≤ cap)%nat.
Proof. apply (spsc_trace_fifo (mkRingBufferConfig 1 true true 2)). simpl. lia. Defined.

(** Rounding the capacity up always ends for capacities up to [2^30], after at most
    31 iterations, with the least power of two that is not below the request. *)
Theorem nextPowerOf2_least (n : Z) :
  n ≤ 2 ^ 30 →
  ∃ p, nextPowerOf2 n pow2_fuel = Some p ∧ n ≤ p ∧ (∃ j : nat, p = 2 ^ Z.of_nat j) ∧
    ∀ i : nat, n ≤ 2 ^ Z.of_nat i → p ≤ 2 ^ Z.of_nat i.
Proof.
  intros H. destruct (nextPowerOf2_ok n H) as (j & E & Hle & Hlow).
  exists (2 ^ Z.of_nat j). split_and!; [done|done|by exists j|].
  intros i Hi. apply Z.pow_le_mono_r; [lia|].
  destruct Hlow as [->|Hlow]; [lia|]. destruct (decide (i < j)%nat) as [Hij|]; [|lia].
  assert (2 ^ Z.of_nat i ≤ 2 ^ (Z.of_nat j - 1)) by (apply Z.pow_le_mono_r; lia). lia.
Qed.

Lemma nextPowerOf2_least_witness :
  ∃ p, nextPowerOf2 1000 pow2_fuel = Some p ∧ 1000 ≤ p ∧ (∃ j : nat, p = 2 ^ Z.of_nat j) ∧
    ∀ i : nat, 1000 ≤ 2 ^ Z.of_nat i → p ≤ 2 ^ Z.of_nat i.
Proof. apply (nextPowerOf2_least 1000). lia. Defined.

(** Above [2^30] the 32-bit shift overflows to the sign bit and then to 0, and the
    loop never ends: no number of iterations gives a result, so neither constructor
    returns. *)
Theorem nextPowerOf2_diverges (n : Z) (fuel : nat) :
  2 ^ 30 < n → nextPowerOf2 n fuel = None.
Proof.
  intros H. apply nextPowerOf2_loop_diverges; [done|].
  apply (bool_decide_unpack _). by vm_compute.
Qed.

Lemma nextPowerOf2_diverges_witness : nextPowerOf2 (2 ^ 30 + 1) 1000 = None.
Proof. apply nextPowerOf2_diverges. lia. Defined.

(** A batch takes the first [maxItems] items of the queue in order, leaves the
    others, and is counted when it is not empty. *)
Theorem mpsc_tryDequeueBatch_take {T} (cap : nat) (maxItems : Z) (s : RingBuffer T) (q : list T) :
  mpsc_rep cap s q →
  let '(items, s') := mpsc_tryDequeueBatch maxItems s in
  items = take (Z.to_nat maxItems) q ∧
  mpsc_rep cap s' (drop (Z.to_nat maxItems) q) ∧
  mpsc_size s' = Z.of_nat (length q - length items)%nat.
Proof.
  intros R. destruct (mpsc_batch_spec cap maxItems s q R) as [E R1].
  destruct (mpsc_tryDequeueBatch maxItems s) as [items s1]; simpl in *. subst items.
  split; [done|]. split; [done|]. unfold mpsc_size. rewrite (rep_wr _ _ _ _ _ R1).
  rewrite length_drop, length_take. lia.
Qed.

(** A buffer of capacity 4 holding two items, the first at position 3. *)
Definition sample_ring : RingBuffer Z := Eval vm_compute in
  (run_ops [Enq 1; Enq 2; Enq 3; Deq; Deq; Deq; Enq 10; Enq 20]
     (mkRing (replicate 4 None) 4 3 0 0 (initial_metrics 4) [])).2.

Lemma sample_ring_rep : mpsc_rep 4 sample_ring [10; 20].
Proof.
  split; [by exists 2|done|done|done|done|done|simpl; lia|].
  intros i Hi. do 4 (destruct i as [|i]; [by vm_compute|]). lia.
Qed.

Lemma mpsc_tryDequeueBatch_take_witness :
  let '(items, s') := mpsc_tryDequeueBatch 1 sample_ring in
  items = take 1 [10; 20] ∧ mpsc_rep 4 s' (drop 1 [10; 20]) ∧
  mpsc_size s' = Z.of_nat (2 - length items)%nat.
Proof. exact (mpsc_tryDequeueBatch_take 4 1 sample_ring [10; 20] sample_ring_rep). Defined.

(** The counters of a fresh buffer are the exact statistics of what its callers
    observed: accepted and refused items, delivered items and empty reads; and
    accepted less delivered is the number of items it holds. *)
Theorem mpsc_counters_exact {T} (config : RingBufferConfig) (ops : list (qop T)) s0 outs s :
  cfg_capacity config ≤ 2 ^ 30 → mpsc_constructor config = Some s0 →
  run_ops ops s0 = (outs, s) →
  m_totalEnqueued (rb_metrics s) = Z.of_nat (length (accepted outs)) ∧
  m_totalDequeued (rb_metrics s) = Z.of_nat (length (delivered outs)) ∧
  m_enqueueFailures (rb_metrics s) = Z.of_nat (length (refused outs)) ∧
  m_dequeueFailures (rb_metrics s) = Z.of_nat (length (misses outs)) ∧
  m_totalEnqueued (rb_metrics s) - m_totalDequeued (rb_metrics s) = mpsc_size s.
Proof.
  intros H E Er.
  destruct (constructor_rep (T:=T) config H) as (j & s0' & E' & _ & _ & Em & R & _).
  rewrite E in E'. injection E' as <-.
  pose proof (run_ops_counters _ ops s0 [] outs s R Er) as C. rewrite Em in C.
  destruct (run_ops_fifo (BoundedFifo0 := mpsc_fifo) _ ops s0 outs s R Er)
    as (q & Rq & Eq & _).
  apply (f_equal length) in Eq. rewrite length_app in Eq.
  unfold mpsc_size. rewrite (rep_wr _ _ _ _ _ Rq).
  unfold counters_moved in C; simpl in C. lia.
Qed.

Lemma mpsc_counters_exact_witness :
  let ops := [Enq 1; Enq 2; Enq 3; Deq] in
  let s0 : RingBuffer Z := mkRing (replicate 2 None) 2 1 0 0 (initial_metrics 2) [] in
  let s := (run_ops ops s0).2 in
  m_totalEnqueued (rb_metrics s) = 2 ∧ m_totalDequeued (rb_metrics s) = 1 ∧
  m_enqueueFailures (rb_metrics s) = 1 ∧ m_dequeueFailures (rb_metrics s) = 0 ∧
  m_totalEnqueued (rb_metrics s) - m_totalDequeued (rb_metrics s) = mpsc_size s.
Proof.
  cbv zeta.
  apply (mpsc_counters_exact (mkRingBufferConfig 2 true true 1) [Enq 1; Enq 2; Enq 3; Deq]
           (mkRing (replicate 2 None) 2 1 0 0 (initial_metrics 2) [])
           [OutEnq 1 true; OutEnq 2 true; OutEnq 3 false; OutDeq (Some 1)]).
  - simpl; lia.
  - by vm_compute.
  - by vm_compute.
Defined.
