(* ===== verification/Backpressure.v ===== *)
(** * Flow control: [src/src/flow_control/backpressure.ts]

    [AsyncBoundedQueue] with its parked producers and consumers, and the
    [BackpressureManager] on top of it. A pending promise is a ticket: a parked
    consumer is the ticket of its [get], a parked producer the ticket of its [put]
    with the item it will push; resolving a promise appends to the log of
    resolutions. [notifyConsumer] and [notifyProducer] call each other through the
    callbacks; each round removes a parked consumer, on which the recursion is
    structural. *)

From S2P Require Import Prelude JsNumber.

(** ** Packets *)

Inductive PacketPriority := CRITICAL | STANDARD | METRIC.

#[global] Instance PacketPriority_eq_dec : EqDecision PacketPriority.
Proof. solve_decision. Defined.

(** [data] is an arbitrary value, of which the queues look at nothing. *)
Record IngestionPacket := mkPacket {
  p_priority : PacketPriority;
  p_data : Z;
  p_timestamp : Z;
}.

(** ** The queue *)

Inductive resolution (T : Type) :=
| GetResolved (ticket : nat) (value : option T)
| PutResolved (ticket : nat).
Arguments GetResolved {T} _ _.
Arguments PutResolved {T} _.

Record AsyncBoundedQueue (T : Type) := mkAQ {
  aq_queue : list T;
  aq_waitingConsumers : list nat;
  aq_waitingProducers : list (nat * T);
  aq_closed : bool;
  aq_maxSize : nat;
  aq_log : list (resolution T);
}.
Arguments mkAQ {T} _ _ _ _ _ _.
Arguments aq_queue {T} _.
Arguments aq_waitingConsumers {T} _.
Arguments aq_waitingProducers {T} _.
Arguments aq_closed {T} _.
Arguments aq_maxSize {T} _.
Arguments aq_log {T} _.

(** What a caller of [put] or [get] holds when the call returns. *)
Inductive promise (A : Type) := Resolved (a : A) | Rejected (e : js_error) | Pending.
Arguments Resolved {A} _.
Arguments Rejected {A} _.
Arguments Pending {A}.

Section queue.
Context {T : Type}.
Implicit Types s : AsyncBoundedQueue T.

Definition aq_constructor (maxSize : nat) : AsyncBoundedQueue T :=
  mkAQ [] [] [] false maxSize [].

Definition aq_push (item : T) s : AsyncBoundedQueue T :=
  mkAQ (aq_queue s ++ [item]) (aq_waitingConsumers s) (aq_waitingProducers s)
    (aq_closed s) (aq_maxSize s) (aq_log s).

Definition aq_resolve (r : resolution T) s : AsyncBoundedQueue T :=
  mkAQ (aq_queue s) (aq_waitingConsumers s) (aq_waitingProducers s)
    (aq_closed s) (aq_maxSize s) (aq_log s ++ [r]).

(** [notifyConsumer]: hand the oldest item to the longest parked consumer, then
    [notifyProducer]: let the longest parked producer push if there is room, which
    notifies consumers again before its [put] resolves. [cs] is the content of
    [waitingConsumers]. *)
Fixpoint notify_loop (cs : list nat) s : AsyncBoundedQueue T :=
  match cs with
  | [] => s
  | consumer :: cs' =>
      let s1 := mkAQ (tail (aq_queue s)) cs' (aq_waitingProducers s) (aq_closed s)
                  (aq_maxSize s) (aq_log s ++ [GetResolved consumer (head (aq_queue s))]) in
      match aq_waitingProducers s1 with
      | (producer, item) :: ps =>
          if decide (length (aq_queue s1) < aq_maxSize s1) then
            aq_resolve (PutResolved producer)
              (notify_loop cs' (aq_push item (mkAQ (aq_queue s1) cs' ps (aq_closed s1)
                                                (aq_maxSize s1) (aq_log s1))))
          else s1
      | [] => s1
      end
  end.

Definition notifyConsumer s : AsyncBoundedQueue T :=
  notify_loop (aq_waitingConsumers s) s.

(** The callback a parked producer left behind: it ignores its argument. *)
Definition run_producer (producer : nat) (item : T) s : AsyncBoundedQueue T :=
  aq_resolve (PutResolved producer) (notifyConsumer (aq_push item s)).

Definition notifyProducer s : AsyncBoundedQueue T :=
  match aq_waitingProducers s with
  | (producer, item) :: ps =>
      if decide (length (aq_queue s) < aq_maxSize s) then
        run_producer producer item
          (mkAQ (aq_queue s) (aq_waitingConsumers s) ps (aq_closed s) (aq_maxSize s) (aq_log s))
      else s
  | [] => s
  end.

Definition aq_put (ticket : nat) (item : T) s : promise unit * AsyncBoundedQueue T :=
  if aq_closed s then (Rejected (Error "Queue is closed"), s)
  else if decide (length (aq_queue s) < aq_maxSize s) then
    (Resolved tt, notifyConsumer (aq_push item s))
  else
    (Pending, mkAQ (aq_queue s) (aq_waitingConsumers s)
                (aq_waitingProducers s ++ [(ticket, item)]) (aq_closed s) (aq_maxSize s)
                (aq_log s)).

Definition aq_tryPut (item : T) s : bool * AsyncBoundedQueue T :=
  if aq_closed s || bool_decide (aq_maxSize s ≤ length (aq_queue s)) then (false, s)
  else (true, notifyConsumer (aq_push item s)).

Definition aq_get (ticket : nat) s : promise T * AsyncBoundedQueue T :=
  match aq_queue s with
  | item :: queue =>
      (Resolved item, mkAQ queue (aq_waitingConsumers s) (aq_waitingProducers s)
                        (aq_closed s) (aq_maxSize s) (aq_log s))
  | [] =>
      if aq_closed s then (Rejected (Error "Queue is closed and empty"), s)
      else (Pending, mkAQ [] (aq_waitingConsumers s ++ [ticket]) (aq_waitingProducers s)
                       (aq_closed s) (aq_maxSize s) (aq_log s))
  end.

Definition aq_tryGet s : option T * AsyncBoundedQueue T :=
  match aq_queue s with
  | item :: queue =>
      (Some item, notifyProducer
        (mkAQ queue (aq_waitingConsumers s) (aq_waitingProducers s) (aq_closed s)
           (aq_maxSize s) (aq_log s)))
  | [] => (None, s)
  end.

Definition aq_size s : nat := length (aq_queue s).
Definition aq_isEmpty s : bool := bool_decide (length (aq_queue s) = 0).
Definition aq_isFull s : bool := bool_decide (aq_maxSize s ≤ length (aq_queue s)).

(** [close]: both loops run the callbacks of everyone parked. *)
Fixpoint close_consumers (cs : list nat) s : AsyncBoundedQueue T :=
  match cs with
  | [] => mkAQ (aq_queue s) [] (aq_waitingProducers s) (aq_closed s) (aq_maxSize s) (aq_log s)
  | c :: cs' =>
      close_consumers cs'
        (aq_resolve (GetResolved c None)
           (mkAQ (aq_queue s) cs' (aq_waitingProducers s) (aq_closed s) (aq_maxSize s) (aq_log s)))
  end.

Fixpoint close_producers (ps : list (nat * T)) s : AsyncBoundedQueue T :=
  match ps with
  | [] => mkAQ (aq_queue s) (aq_waitingConsumers s) [] (aq_closed s) (aq_maxSize s) (aq_log s)
  | (p, item) :: ps' =>
      close_producers ps'
        (run_producer p item
           (mkAQ (aq_queue s) (aq_waitingConsumers s) ps' (aq_closed s) (aq_maxSize s) (aq_log s)))
  end.

Definition aq_close s : AsyncBoundedQueue T :=
  let s0 := mkAQ (aq_queue s) (aq_waitingConsumers s) (aq_waitingProducers s) true
              (aq_maxSize s) (aq_log s) in
  let s1 := close_consumers (aq_waitingConsumers s0) s0 in
  close_producers (aq_waitingProducers s1) s1.
End queue.

(** ** Invariants of the open queue *)

Section invariants.
Context {T : Type}.
Implicit Types s : AsyncBoundedQueue T.

(** [notify_loop] is [notifyProducer] after the hand-over, as in the source. *)
Lemma notify_loop_cons c cs s :
  notify_loop (c :: cs) s =
  notifyProducer (mkAQ (tail (aq_queue s)) cs (aq_waitingProducers s) (aq_closed s)
    (aq_maxSize s) (aq_log s ++ [GetResolved c (head (aq_queue s))])).
Proof. reflexivity. Qed.

(** Consumers park only while the queue is empty, and nothing exceeds the bound. *)
Record aq_ok s : Prop := {
  ok_bound : length (aq_queue s) ≤ aq_maxSize s;
  ok_pos : 0 < aq_maxSize s;
  ok_parked : aq_waitingConsumers s ≠ [] → aq_queue s = [];
}.

(** No producer is parked while there is room for its item. *)
Definition no_starved_producer s : Prop :=
  aq_waitingProducers s ≠ [] → length (aq_queue s) = aq_maxSize s.

(** What a [notify] finds: one item over an empty queue while someone is parked, or
    a queue within bounds and nobody parked. *)
Definition aq_pushed s : Prop :=
  0 < aq_maxSize s ∧ length (aq_queue s) ≤ aq_maxSize s ∧
  (aq_waitingConsumers s ≠ [] → length (aq_queue s) = 1).

Lemma notify_loop_ok cs s :
  aq_waitingConsumers s = cs → aq_pushed s → aq_ok (notify_loop cs s).
Proof.
  revert s. induction cs as [|c cs IH]; intros s Ec (Hp & Hb & H1); simpl.
  - split; [done|done|]. by rewrite Ec.
  - assert (length (aq_queue s) = 1) as E1 by (apply H1; by rewrite Ec).
    destruct (aq_queue s) as [|x [|]]; simplify_eq/=.
    destruct (aq_waitingProducers s) as [|[p i] ps]; [by split; simpl; [lia|..]|].
    rewrite decide_True by done.
    destruct (IH (mkAQ [i] cs ps (aq_closed s) (aq_maxSize s)
                    (aq_log s ++ [GetResolved c (Some x)]))) as [? ? ?];
      [done|split_and!; simpl; [done|lia|done]|]. by split.
Qed.

Lemma notify_loop_no_producers cs s :
  aq_waitingProducers s = [] → aq_waitingProducers (notify_loop cs s) = [].
Proof. intros E. destruct cs; simpl; [done|]. by rewrite E. Qed.

Lemma aq_push_pushed item s :
  aq_ok s → length (aq_queue s) < aq_maxSize s → aq_pushed (aq_push item s).
Proof.
  intros [Hb Hp Hk] Hlt. unfold aq_pushed; simpl. rewrite length_app; simpl.
  split_and!; [done|lia|]. intros Hc. by rewrite (Hk Hc).
Qed.

Lemma push_notify_ok item s :
  aq_ok s → length (aq_queue s) < aq_maxSize s → aq_ok (notifyConsumer (aq_push item s)).
Proof. intros. apply notify_loop_ok; [done|]. by apply aq_push_pushed. Qed.

Lemma notifyProducer_ok s : aq_ok s → aq_ok (notifyProducer s).
Proof.
  intros Hok. unfold notifyProducer. destruct (aq_waitingProducers s) as [|[p i] ps]; [done|].
  case_decide; [|done]. unfold run_producer.
  destruct (push_notify_ok i (mkAQ (aq_queue s) (aq_waitingConsumers s) ps (aq_closed s)
    (aq_maxSize s) (aq_log s))) as [? ? ?]; [by destruct Hok|done|by split].
Qed.

Lemma aq_put_ok ticket item s : aq_ok s → aq_ok (aq_put ticket item s).2.
Proof.
  intros Hok. unfold aq_put. destruct (aq_closed s); [done|].
  case_decide; simpl; [by apply push_notify_ok|by destruct Hok].
Qed.

Lemma aq_tryPut_ok item s : aq_ok s → aq_ok (aq_tryPut item s).2.
Proof.
  intros Hok. unfold aq_tryPut. destruct (aq_closed s); [done|]; simpl.
  case_bool_decide; simpl; [done|]. apply push_notify_ok; [done|lia].
Qed.

Lemma aq_ok_shift s x q :
  aq_ok s → aq_queue s = x :: q →
  aq_ok (mkAQ q (aq_waitingConsumers s) (aq_waitingProducers s) (aq_closed s)
           (aq_maxSize s) (aq_log s)) ∧ aq_waitingConsumers s = [].
Proof.
  intros [Hb Hp Hk] E. rewrite E in *; simpl in *.
  destruct (aq_waitingConsumers s) as [|c cs]; [|by discriminate Hk].
  split; [|done]. split; simpl; [lia|done|done].
Qed.

Lemma aq_get_ok ticket s : aq_ok s → aq_ok (aq_get ticket s).2.
Proof.
  intros Hok. unfold aq_get. destruct (aq_queue s) as [|x q] eqn:E.
  - destruct (aq_closed s); simpl; [done|]. destruct Hok; split; simpl; [lia|done|done].
  - simpl. by eapply aq_ok_shift.
Qed.

Lemma aq_tryGet_ok s : aq_ok s → aq_ok (aq_tryGet s).2.
Proof.
  intros Hok. unfold aq_tryGet. destruct (aq_queue s) as [|x q] eqn:E; simpl; [done|].
  apply notifyProducer_ok. by eapply aq_ok_shift.
Qed.

Lemma aq_put_no_starve ticket item s :
  aq_ok s → no_starved_producer s → no_starved_producer (aq_put ticket item s).2.
Proof.
  intros Hok Hn. unfold aq_put. destruct (aq_closed s); [done|]. case_decide; simpl.
  - assert (aq_waitingProducers s = []) as E.
    { destruct (aq_waitingProducers s) eqn:E; [done|]. unfold no_starved_producer in Hn.
      rewrite E in Hn. specialize (Hn ltac:(done)). lia. }
    unfold no_starved_producer, notifyConsumer. by rewrite notify_loop_no_producers.
  - intros _. simpl. destruct Hok; lia.
Qed.

Lemma aq_tryPut_no_starve item s :
  aq_ok s → no_starved_producer s → no_starved_producer (aq_tryPut item s).2.
Proof.
  intros Hok Hn. unfold aq_tryPut. destruct (aq_closed s); [done|]; simpl.
  case_bool_decide; simpl; [done|].
  assert (aq_waitingProducers s = []) as E.
  { destruct (aq_waitingProducers s) eqn:E; [done|]. unfold no_starved_producer in Hn.
    rewrite E in Hn. specialize (Hn ltac:(done)). lia. }
  unfold no_starved_producer, notifyConsumer. by rewrite notify_loop_no_producers.
Qed.

Lemma aq_tryGet_no_starve s :
  aq_ok s → no_starved_producer s → no_starved_producer (aq_tryGet s).2.
Proof.
  intros Hok Hn. unfold aq_tryGet. destruct (aq_queue s) as [|x q] eqn:E; simpl; [done|].
  destruct (aq_ok_shift s x q Hok E) as [_ Ec].
  unfold no_starved_producer, notifyProducer in *; simpl in *. rewrite Ec, E in *.
  destruct (aq_waitingProducers s) as [|[p i] ps]; [done|]. simpl in *.
  specialize (Hn ltac:(done)). rewrite decide_True by lia. simpl.
  intros _. rewrite length_app; simpl. lia.
Qed.
End invariants.

(** ** Nothing is lost: sequences of operations *)

Section traces.
Context {T : Type}.
Implicit Types s : AsyncBoundedQueue T.

Inductive aq_op :=
| OpPut (ticket : nat) (item : T)
| OpTryPut (item : T)
| OpGet (ticket : nat)
| OpTryGet
| OpClose.

(** What one operation takes in and gives out at once: the item of a put that was
    accepted or parked, the item of a get that returned one. *)
Definition aq_step (op : aq_op) s : (list T * list T) * AsyncBoundedQueue T :=
  match op with
  | OpPut ticket item =>
      match aq_put ticket item s with
      | (Rejected _, s') => (([], []), s')
      | (_, s') => (([item], []), s')
      end
  | OpTryPut item =>
      match aq_tryPut item s with
      | (true, s') => (([item], []), s')
      | (false, s') => (([], []), s')
      end
  | OpGet ticket =>
      match aq_get ticket s with
      | (Resolved item, s') => (([], [item]), s')
      | (_, s') => (([], []), s')
      end
  | OpTryGet => let '(r, s') := aq_tryGet s in (([], option_list r), s')
  | OpClose => (([], []), aq_close s)
  end.

Fixpoint aq_run (ops : list aq_op) s : (list T * list T) * AsyncBoundedQueue T :=
  match ops with
  | [] => (([], []), s)
  | op :: ops' =>
      let '((i1, o1), s1) := aq_step op s in
      let '((i2, o2), s2) := aq_run ops' s1 in ((i1 ++ i2, o1 ++ o2), s2)
  end.

(** Items handed to parked consumers. *)
Definition handed (l : list (resolution T)) : list T :=
  omap (λ r, match r with GetResolved _ v => v | PutResolved _ => None end) l.

(** Everything the queue is answerable for. *)
Definition in_flight s : list T :=
  handed (aq_log s) ++ aq_queue s ++ (aq_waitingProducers s).*2.

Lemma handed_snoc l r :
  handed (l ++ [r]) = handed l ++ match r with GetResolved _ v => option_list v | _ => [] end.
Proof. unfold handed. rewrite omap_app. by destruct r as [? []|]. Qed.

Lemma in_flight_put_resolved ticket s :
  in_flight (aq_resolve (PutResolved ticket) s) = in_flight s.
Proof. unfold in_flight; simpl. by rewrite handed_snoc, app_nil_r. Qed.

Lemma notify_loop_in_flight cs s :
  aq_waitingConsumers s = cs → (cs ≠ [] → aq_queue s ≠ []) →
  in_flight (notify_loop cs s) ≡ₚ in_flight s.
Proof.
  revert s. induction cs as [|c cs IH]; intros s Ec Hq; simpl; [done|].
  destruct (aq_queue s) as [|x q] eqn:E; [by destruct Hq|].
  destruct (aq_waitingProducers s) as [|[p i] ps] eqn:Ep; cbn [tail head aq_queue aq_maxSize];
    [|case_decide; [rewrite in_flight_put_resolved, IH by
        (cbn; done || by intros _ []%app_nil)|]];
    unfold in_flight; cbn [aq_queue aq_log aq_waitingProducers aq_push];
    rewrite handed_snoc, E, Ep; cbn [fmap list_fmap snd option_list];
    rewrite <-!app_assoc; solve_Permutation.
Qed.

Lemma push_notify_in_flight item s :
  in_flight (notifyConsumer (aq_push item s)) ≡ₚ item :: in_flight s.
Proof.
  unfold notifyConsumer. rewrite notify_loop_in_flight;
    [|done|simpl; by intros _ []%app_nil].
  unfold in_flight; simpl. rewrite <-!app_assoc; simpl. solve_Permutation.
Qed.
Lemma run_producer_in_flight producer item s :
  in_flight (run_producer producer item s) ≡ₚ item :: in_flight s.
Proof. unfold run_producer. by rewrite in_flight_put_resolved, push_notify_in_flight. Qed.

Lemma notifyProducer_in_flight s : in_flight (notifyProducer s) ≡ₚ in_flight s.
Proof.
  unfold notifyProducer. destruct (aq_waitingProducers s) as [|[p i] ps] eqn:E; [done|].
  case_decide; [|done]. rewrite run_producer_in_flight. unfold in_flight; simpl.
  rewrite E; simpl. solve_Permutation.
Qed.

Lemma close_consumers_spec cs s :
  close_consumers cs s =
  mkAQ (aq_queue s) [] (aq_waitingProducers s) (aq_closed s) (aq_maxSize s)
    (aq_log s ++ ((λ c, GetResolved c None) <$> cs)).
Proof.
  revert s; induction cs as [|c cs IH]; intros s; simpl; [by rewrite app_nil_r|].
  rewrite IH; simpl. by rewrite <-app_assoc.
Qed.

Lemma close_producers_spec ps s :
  aq_waitingConsumers s = [] →
  close_producers ps s =
  mkAQ (aq_queue s ++ ps.*2) [] [] (aq_closed s) (aq_maxSize s)
    (aq_log s ++ (PutResolved <$> ps.*1)).
Proof.
  revert s; induction ps as [|[p i] ps IH]; intros s E; simpl;
    [by rewrite E, !app_nil_r|].
  unfold run_producer, notifyConsumer; simpl. rewrite E; simpl.
  rewrite IH by done; simpl. by rewrite <-!app_assoc.
Qed.

(** [close] resolves every parked caller and moves every parked item into the queue. *)
Lemma aq_close_spec s :
  aq_close s =
  mkAQ (aq_queue s ++ (aq_waitingProducers s).*2) [] [] true (aq_maxSize s)
    (aq_log s ++ ((λ c, GetResolved c None) <$> aq_waitingConsumers s)
              ++ (PutResolved <$> (aq_waitingProducers s).*1)).
Proof.
  unfold aq_close. rewrite close_consumers_spec; simpl.
  rewrite close_producers_spec by done; simpl. by rewrite <-app_assoc.
Qed.

Lemma handed_none {A} (f : A → resolution T) l :
  (∀ x, handed [f x] = []) → handed (f <$> l) = [].
Proof.
  intros H. induction l as [|x l IH]; [done|].
  change (handed ([f x] ++ (f <$> l)) = []). unfold handed in *.
  by rewrite omap_app, H, IH.
Qed.

Lemma aq_close_in_flight s : in_flight (aq_close s) ≡ₚ in_flight s.
Proof.
  rewrite aq_close_spec. unfold in_flight; simpl.
  unfold handed at 1. rewrite !omap_app. fold (handed (aq_log s)).
  fold (handed ((λ c, GetResolved c None) <$> aq_waitingConsumers s)).
  fold (handed (PutResolved <$> (aq_waitingProducers s).*1)).
  rewrite !handed_none by done. by rewrite !app_nil_r.
Qed.

Lemma aq_step_conserves op s ins outs s' :
  aq_step op s = ((ins, outs), s') → in_flight s ++ ins ≡ₚ outs ++ in_flight s'.
Proof.
  destruct op as [t x|x|t| |]; simpl.
  - unfold aq_put. destruct (aq_closed s); [|case_decide]; intros [= <- <- <-]; simpl.
    + by rewrite app_nil_r.
    + rewrite push_notify_in_flight. solve_Permutation.
    + unfold in_flight; simpl. rewrite fmap_app. simpl. by rewrite <-!app_assoc.
  - unfold aq_tryPut. destruct (_ || _); intros [= <- <- <-]; simpl.
    + by rewrite app_nil_r.
    + rewrite push_notify_in_flight. solve_Permutation.
  - unfold aq_get. destruct (aq_queue s) as [|y q] eqn:E;
      [destruct (aq_closed s)|]; intros [= <- <- <-]; unfold in_flight; simpl; rewrite ?E;
      solve_Permutation.
  - unfold aq_tryGet. destruct (aq_queue s) as [|y q] eqn:E; intros [= <- <- <-]; simpl.
    + by rewrite app_nil_r.
    + rewrite notifyProducer_in_flight. unfold in_flight; simpl. rewrite E.
      solve_Permutation.
  - intros [= <- <- <-]. rewrite aq_close_in_flight. by rewrite app_nil_r.
Qed.

Lemma aq_run_conserves ops s ins outs s' :
  aq_run ops s = ((ins, outs), s') → in_flight s ++ ins ≡ₚ outs ++ in_flight s'.
Proof.
  revert s ins outs. induction ops as [|op ops IH]; intros s ins outs; simpl.
  - intros [= <- <- <-]. by rewrite app_nil_r.
  - destruct (aq_step op s) as [[i1 o1] s1] eqn:E1.
    destruct (aq_run ops s1) as [[i2 o2] s2] eqn:E2. intros [= <- <- <-].
    apply aq_step_conserves in E1. apply IH in E2.
    rewrite app_assoc, E1, <-app_assoc, E2. by rewrite app_assoc.
Qed.

Lemma aq_step_ok op s : op ≠ OpClose → aq_ok s → aq_ok (aq_step op s).2.
Proof.
  intros Hc Hok. destruct op as [t x|x|t| |]; simpl; [..|done].
  - pose proof (aq_put_ok t x s Hok). by destruct (aq_put t x s) as [[] ?].
  - pose proof (aq_tryPut_ok x s Hok). by destruct (aq_tryPut x s) as [[] ?].
  - pose proof (aq_get_ok t s Hok). by destruct (aq_get t s) as [[] ?].
  - pose proof (aq_tryGet_ok s Hok). by destruct (aq_tryGet s) as [? ?].
Qed.

Lemma aq_run_ok ops s : OpClose ∉ ops → aq_ok s → aq_ok (aq_run ops s).2.
Proof.
  revert s. induction ops as [|op ops IH]; intros s Hc Hok; simpl; [done|].
  pose proof (aq_step_ok op s ltac:(set_solver) Hok) as Hok1.
  destruct (aq_step op s) as [[i1 o1] s1]; simpl in *.
  pose proof (IH s1 ltac:(set_solver) Hok1). by destruct (aq_run ops s1) as [[] ?].
Qed.
End traces.
Arguments aq_op T : clear implicits.

(** ** The backpressure manager *)

Record BackpressureMetrics := mkBM {
  bm_queueLength : nat;
  bm_maxCapacity : nat;
  bm_saturation : number;
  bm_droppedPackets : Z;
  bm_slowedDownIngestions : Z;
  bm_averageProcessingTime : number;
}.

Record BackpressureConfig := mkBC {
  bc_maxCapacity : nat;
  bc_dropThreshold : number;
  bc_slowDownThreshold : number;
  bc_slowDownDelay : number;
  bc_enableMetrics : bool;
}.

(** The literals [0.9] and [0.7]. *)
Definition num_0_9 : number := SpecFloat.S754_finite false 8106479329266893 (-53).
Definition num_0_7 : number := SpecFloat.S754_finite false 6305039478318694 (-53).

Definition default_bp_config : BackpressureConfig :=
  mkBC 1000 num_0_9 num_0_7 (num_of_Z 100) true.

Record BackpressureManager := mkMgr {
  mg_queue : AsyncBoundedQueue IngestionPacket;
  mg_config : BackpressureConfig;
  mg_metrics : BackpressureMetrics;
  mg_processingTimes : list number;
}.

Definition MAX_PROCESSING_TIME_SAMPLES : nat := 100.

Definition num_of_nat (n : nat) : number := num_of_Z (Z.of_nat n).

Definition bp_constructor (config : BackpressureConfig) : BackpressureManager :=
  mkMgr (aq_constructor (bc_maxCapacity config)) config
    (mkBM 0 (bc_maxCapacity config) num_zero 0 0 num_zero) [].

Definition mg_with_metrics (s : BackpressureManager) (m : BackpressureMetrics) :=
  mkMgr (mg_queue s) (mg_config s) m (mg_processingTimes s).
Definition mg_with_queue (s : BackpressureManager) (q : AsyncBoundedQueue IngestionPacket) :=
  mkMgr q (mg_config s) (mg_metrics s) (mg_processingTimes s).

Definition updateMetrics (s : BackpressureManager) : BackpressureManager :=
  let len := aq_size (mg_queue s) in
  mg_with_metrics s
    (mkBM len (bm_maxCapacity (mg_metrics s))
       (num_div (num_of_nat len) (num_of_nat (bc_maxCapacity (mg_config s))))
       (bm_droppedPackets (mg_metrics s)) (bm_slowedDownIngestions (mg_metrics s))
       (bm_averageProcessingTime (mg_metrics s))).

Definition drop_packet (s : BackpressureManager) : BackpressureManager :=
  let m := mg_metrics s in
  mg_with_metrics s
    (mkBM (bm_queueLength m) (bm_maxCapacity m) (bm_saturation m) (bm_droppedPackets m + 1)
       (bm_slowedDownIngestions m) (bm_averageProcessingTime m)).

(** [applySlowDown] up to its timer: the delay, and whether a timer is set. *)
Definition applySlowDown (saturation : number) (s : BackpressureManager)
    : option number * BackpressureManager :=
  let threshold := bc_slowDownThreshold (mg_config s) in
  let delayMultiplier := num_div (num_sub saturation threshold) (num_sub num_one threshold) in
  let delay := num_mul (bc_slowDownDelay (mg_config s)) delayMultiplier in
  if num_ltb num_zero delay then
    let m := mg_metrics s in
    (Some delay,
     mg_with_metrics s
       (mkBM (bm_queueLength m) (bm_maxCapacity m) (bm_saturation m) (bm_droppedPackets m)
          (bm_slowedDownIngestions m + 1) (bm_averageProcessingTime m)))
  else (None, s).

(** [enqueue] before its first suspension point: the saturation it computes once, and
    the delay it waits for. Other calls may run during that wait. *)
Definition enqueue_start (s : BackpressureManager)
    : (number * option number) * BackpressureManager :=
  let saturation :=
    num_div (num_of_nat (aq_size (mg_queue s))) (num_of_nat (bc_maxCapacity (mg_config s))) in
  let s1 := updateMetrics s in
  if num_leb (bc_slowDownThreshold (mg_config s)) saturation then
    let '(delay, s2) := applySlowDown saturation s1 in ((saturation, delay), s2)
  else ((saturation, None), s1).

Inductive enqueue_result := Enqueued | Dropped | Parked.

(** [enqueue] after the wait, with the saturation computed before it. *)
Definition enqueue_finish (ticket : nat) (saturation : number) (packet : IngestionPacket)
    (s : BackpressureManager) : enqueue_result * BackpressureManager :=
  if num_leb (bc_dropThreshold (mg_config s)) saturation
     && bool_decide (p_priority packet = METRIC)
  then (Dropped, drop_packet s)
  else
    let '(accepted, q1) := aq_tryPut packet (mg_queue s) in
    if accepted then (Enqueued, mg_with_queue s q1)
    else if bool_decide (p_priority packet = CRITICAL) then
      match aq_put ticket packet q1 with
      | (Resolved _, q2) => (Enqueued, mg_with_queue s q2)
      | (Pending, q2) => (Parked, mg_with_queue s q2)
      | (Rejected _, q2) => (Dropped, drop_packet (mg_with_queue s q2))
      end
    else (Dropped, drop_packet (mg_with_queue s q1)).

(** [enqueue] when nothing else runs during its wait. *)
Definition bp_enqueue (ticket : nat) (packet : IngestionPacket) (s : BackpressureManager)
    : enqueue_result * BackpressureManager :=
  let '((saturation, _), s1) := enqueue_start s in enqueue_finish ticket saturation packet s1.

Definition recordProcessingTime (time : number) (s : BackpressureManager) : BackpressureManager :=
  let times := window_push MAX_PROCESSING_TIME_SAMPLES (mg_processingTimes s) time in
  let m := mg_metrics s in
  let m' :=
    if decide (0 < length times) then
      mkBM (bm_queueLength m) (bm_maxCapacity m) (bm_saturation m) (bm_droppedPackets m)
        (bm_slowedDownIngestions m) (num_div (num_sum times) (num_of_nat (length times)))
    else m in
  mkMgr (mg_queue s) (mg_config s) m' times.

(** [dequeue], as far as its [await]: [Resolved None] is [undefined]. *)
Definition bp_dequeue (ticket : nat) (elapsed : Z) (s : BackpressureManager)
    : promise (option IngestionPacket) * BackpressureManager :=
  match aq_get ticket (mg_queue s) with
  | (Resolved packet, q) =>
      (Resolved (Some packet),
       updateMetrics (recordProcessingTime (num_of_Z elapsed) (mg_with_queue s q)))
  | (Rejected _, q) => (Resolved None, mg_with_queue s q)
  | (Pending, q) => (Pending, mg_with_queue s q)
  end.

Definition bp_tryDequeue (elapsed : Z) (s : BackpressureManager)
    : option IngestionPacket * BackpressureManager :=
  match aq_tryGet (mg_queue s) with
  | (Some packet, q) =>
      (Some packet,
       updateMetrics (recordProcessingTime (num_of_Z elapsed) (mg_with_queue s q)))
  | (None, q) => (None, mg_with_queue s q)
  end.

Definition bp_getMetrics (s : BackpressureManager) : BackpressureMetrics * BackpressureManager :=
  let s1 := updateMetrics s in (mg_metrics s1, s1).
Definition bp_getQueueLength (s : BackpressureManager) : nat := aq_size (mg_queue s).
Definition bp_getMaxCapacity (s : BackpressureManager) : nat := bc_maxCapacity (mg_config s).

Definition bp_resetMetrics (s : BackpressureManager) : BackpressureManager :=
  let len := aq_size (mg_queue s) in
  mkMgr (mg_queue s) (mg_config s)
    (mkBM len (bc_maxCapacity (mg_config s))
       (num_div (num_of_nat len) (num_of_nat (bc_maxCapacity (mg_config s)))) 0 0 num_zero) [].

Definition bp_shutdown (s : BackpressureManager) : BackpressureManager :=
  mg_with_queue s (aq_close (mg_queue s)).

(** ** Properties *)

(** No item is lost or duplicated by the asynchronous queue: over any sequence of
    puts, gets, their non-blocking versions and close, the items taken in are exactly
    the items returned, the items handed to parked consumers, the items queued and the
    items of parked producers. *)
Theorem async_queue_conserves {T} (maxSize : nat) (ops : list (aq_op T)) ins outs s :
  aq_run ops (aq_constructor maxSize) = ((ins, outs), s) →
  ins ≡ₚ outs ++ handed (aq_log s) ++ aq_queue s ++ (aq_waitingProducers s).*2.
Proof. intros H. by apply aq_run_conserves in H. Qed.

Lemma async_queue_conserves_witness :
  let s := (aq_run [OpPut 0 7%Z; OpPut 1 8%Z; OpTryGet; OpGet 2] (aq_constructor 1)).2 in
  [7; 8]%Z ≡ₚ [7; 8]%Z ++ handed (aq_log s) ++ aq_queue s ++ (aq_waitingProducers s).*2.
Proof.
  cbv zeta.
  apply (async_queue_conserves 1 [OpPut 0 7%Z; OpPut 1 8%Z; OpTryGet; OpGet 2] [7; 8]%Z [7; 8]%Z
    (aq_run [OpPut 0 7%Z; OpPut 1 8%Z; OpTryGet; OpGet 2] (aq_constructor 1)).2).
  by vm_compute.
Defined.

(** Until it is closed the queue never holds more than [maxSize] items, and
    consumers wait only while it is empty. *)
Theorem async_queue_bounded {T} (maxSize : nat) (ops : list (aq_op T)) :
  0 < maxSize → OpClose ∉ ops →
  let s := (aq_run ops (aq_constructor maxSize)).2 in
  length (aq_queue s) ≤ aq_maxSize s ∧ (aq_waitingConsumers s ≠ [] → aq_queue s = []).
Proof.
  intros Hp Hc. destruct (aq_run_ok ops (aq_constructor maxSize) Hc) as [? ? ?]; [|done].
  split; simpl; [lia|done|done].
Qed.

Lemma async_queue_bounded_witness :
  let s := (aq_run [OpPut 0 7%Z; OpPut 1 8%Z; OpTryGet] (aq_constructor 1)).2 in
  length (aq_queue s) ≤ aq_maxSize s ∧ (aq_waitingConsumers s ≠ [] → aq_queue s = []).
Proof. apply (async_queue_bounded 1); [lia|set_solver]. Defined.

(** Closing pushes every parked producer's item whatever the bound: a queue that is
    full with [k] producers parked holds [maxSize + k] items once closed. *)
Theorem close_overflows {T} (s : AsyncBoundedQueue T) :
  length (aq_queue s) = aq_maxSize s →
  length (aq_queue (aq_close s)) = aq_maxSize s + length (aq_waitingProducers s) ∧
  aq_closed (aq_close s) = true.
Proof.
  intros H. rewrite aq_close_spec; simpl. by rewrite length_app, length_fmap, H.
Qed.

Lemma close_overflows_witness :
  let s := (aq_run [OpPut 0 7%Z; OpPut 1 8%Z] (aq_constructor 1)).2 in
  length (aq_queue (aq_close s)) = 1 + 1 ∧ aq_closed (aq_close s) = true.
Proof.
  apply (close_overflows (aq_run [OpPut 0 7%Z; OpPut 1 8%Z] (aq_constructor 1)).2).
  by vm_compute.
Defined.

(** [put], [tryPut] and [tryGet] never leave a producer parked while there is room
    for its item. *)
Theorem no_starvation_preserved {T} (op : aq_op T) (s : AsyncBoundedQueue T) :
  match op with OpPut _ _ | OpTryPut _ | OpTryGet => True | _ => False end →
  aq_ok s → no_starved_producer s → no_starved_producer (aq_step op s).2.
Proof.
  intros Ho Hok Hn. destruct op as [t x|x|t| |]; simpl; try done.
  - pose proof (aq_put_no_starve t x s Hok Hn). by destruct (aq_put t x s) as [[] ?].
  - pose proof (aq_tryPut_no_starve x s Hok Hn). by destruct (aq_tryPut x s) as [[] ?].
  - pose proof (aq_tryGet_no_starve s Hok Hn). by destruct (aq_tryGet s) as [? ?].
Qed.

Lemma no_starvation_preserved_witness :
  let s := mkAQ [7%Z] [] [(1, 8%Z)] false 1 [] in
  no_starved_producer (aq_step OpTryGet s).2.
Proof.
  apply (no_starvation_preserved OpTryGet (mkAQ [7%Z] [] [(1, 8%Z)] false 1 []));
    [done|split; simpl; [lia|lia|done]|done].
Defined.

(** [get] does: taking an item from a full queue leaves every parked producer
    parked, and the next [get] on the emptied queue parks too although an item is
    waiting to be pushed. *)
Theorem get_starves_producer {T} (t1 t2 : nat) (x : T) (s : AsyncBoundedQueue T) :
  aq_queue s = [x] → aq_closed s = false → aq_waitingProducers s ≠ [] →
  let '(r1, s1) := aq_get t1 s in
  let '(r2, s2) := aq_get t2 s1 in
  r1 = Resolved x ∧ aq_queue s1 = [] ∧ aq_waitingProducers s1 = aq_waitingProducers s ∧
  r2 = Pending ∧ aq_waitingProducers s2 = aq_waitingProducers s ∧
  t2 ∈ aq_waitingConsumers s2.
Proof.
  intros E Ec Hw. unfold aq_get. rewrite E; simpl. rewrite Ec; simpl.
  split_and!; try done. set_solver.
Qed.

Lemma get_starves_producer_witness :
  let s := (aq_run [OpPut 0 7%Z; OpPut 1 8%Z] (aq_constructor 1)).2 in
  let '(r1, s1) := aq_get 2 s in
  let '(r2, s2) := aq_get 3 s1 in
  r1 = Resolved 7%Z ∧ aq_queue s1 = [] ∧ aq_waitingProducers s1 = aq_waitingProducers s ∧
  r2 = Pending ∧ aq_waitingProducers s2 = aq_waitingProducers s ∧
  3 ∈ aq_waitingConsumers s2.
Proof.
  apply (get_starves_producer 2 3 7%Z
    (aq_run [OpPut 0 7%Z; OpPut 1 8%Z] (aq_constructor 1)).2); by vm_compute.
Defined.

(** While the queue is open a critical packet is never dropped, whatever the
    saturation measured before the wait and whatever happened during it: it is
    enqueued, or parked until there is room. *)
Theorem critical_never_dropped (ticket : nat) (saturation : number) (packet : IngestionPacket)
    (s : BackpressureManager) :
  p_priority packet = CRITICAL → aq_closed (mg_queue s) = false →
  let '(r, s') := enqueue_finish ticket saturation packet s in
  r ≠ Dropped ∧
  bm_droppedPackets (mg_metrics s') = bm_droppedPackets (mg_metrics s) ∧
  (r = Parked → (ticket, packet) ∈ aq_waitingProducers (mg_queue s')).
Proof.
  intros Hp Hc. unfold enqueue_finish.
  rewrite (bool_decide_false (p_priority packet = METRIC)) by (rewrite Hp; done).
  rewrite andb_false_r. unfold aq_tryPut. rewrite Hc; simpl.
  case_bool_decide; simpl; [|done].
  rewrite bool_decide_true by done. unfold aq_put. rewrite Hc.
  rewrite decide_False by lia. simpl. split_and!; [done|done|]. intros _. set_solver.
Qed.

Lemma critical_never_dropped_witness :
  let s := bp_constructor (mkBC 0 num_0_9 num_0_7 num_one true) in
  let '(r, s') := enqueue_finish 5 num_one (mkPacket CRITICAL 1 2) s in
  r ≠ Dropped ∧
  bm_droppedPackets (mg_metrics s') = bm_droppedPackets (mg_metrics s) ∧
  (r = Parked → (5, mkPacket CRITICAL 1 2) ∈ aq_waitingProducers (mg_queue s')).
Proof. by apply (critical_never_dropped 5 num_one (mkPacket CRITICAL 1 2)). Defined.

(** A packet is dropped exactly when it is a metric measured above the drop
    threshold, or the queue is closed, or it is not critical and the queue is full;
    and the drop counter counts exactly the drops. *)
Theorem dropped_iff (ticket : nat) (saturation : number) (packet : IngestionPacket)
    (s : BackpressureManager) :
  let '(r, s') := enqueue_finish ticket saturation packet s in
  (r = Dropped ↔
     (num_leb (bc_dropThreshold (mg_config s)) saturation = true ∧ p_priority packet = METRIC) ∨
     aq_closed (mg_queue s) = true ∨
     (p_priority packet ≠ CRITICAL ∧ aq_maxSize (mg_queue s) ≤ length (aq_queue (mg_queue s)))) ∧
  bm_droppedPackets (mg_metrics s') =
    (bm_droppedPackets (mg_metrics s) + if r is Dropped then 1 else 0)%Z.
Proof.
  unfold enqueue_finish.
  destruct (num_leb _ _ && _) eqn:Em; simpl.
  - apply andb_prop in Em as [? ?%bool_decide_eq_true]. naive_solver.
  - assert (¬ (num_leb (bc_dropThreshold (mg_config s)) saturation = true ∧
               p_priority packet = METRIC)) as Hm.
    { intros [E1 E2]. rewrite E1, (bool_decide_true (p_priority packet = METRIC)) in Em; done. }
    clear Em. unfold aq_tryPut, aq_put. destruct (aq_closed (mg_queue s)) eqn:Ec; simpl.
    + case_bool_decide; rewrite ?Ec; simpl; (split; [split; [by auto|done]|done]).
    + case_bool_decide as Hfull; simpl; [|split; [split; [done|intros [?|[?|[? ?]]]; [done|done|lia]]|lia]].
      case_bool_decide as Hcrit; simpl; [|split; [split; [by auto|done]|done]].
      rewrite Ec, decide_False by lia; simpl.
      split; [split; [done|intros [?|[?|[? ?]]]; done]|lia].
Qed.
