(* ===== verification/IngestionChannel.v ===== *)
(** * Ingestion channels

    [LockFreeIngestionChannel] and [LockFreeChannelManager]
    ([src/src/queue/lockFreeRingBuffer.ts]) and the worker-thread channel built on
    them ([src/src/queue/workerThreadChannel.ts]). Channels are objects handed out
    by reference: the manager is modelled with a heap of channels and a map from
    names to references. The worker-thread channel is a system of two parties that
    exchange messages, as a step relation. *)

From S2P Require Import Prelude JsMap JsNumber BoundedQueue RingBuffer Backpressure.

Local Open Scope Z_scope.

(** ** One channel *)

(** [Partial<RingBufferConfig>] *)
Record PartialRingBufferConfig := mkPartial {
  pc_capacity : option Z;
  pc_enableMetrics : option bool;
  pc_enableBatching : option bool;
  pc_batchSize : option Z;
}.

Definition no_overrides : PartialRingBufferConfig := mkPartial None None None None.

(** [{ ...base, ...config }] *)
Definition merge_config (base : RingBufferConfig) (config : PartialRingBufferConfig)
    : RingBufferConfig :=
  mkRingBufferConfig
    (default (cfg_capacity base) (pc_capacity config))
    (default (cfg_enableMetrics base) (pc_enableMetrics config))
    (default (cfg_enableBatching base) (pc_enableBatching config))
    (default (cfg_batchSize base) (pc_batchSize config)).

Definition default_channel_config : RingBufferConfig := mkRingBufferConfig 1024 true true 32.

Record LockFreeIngestionChannel := mkChannel {
  ch_ringBuffer : RingBuffer IngestionPacket;
  ch_config : RingBufferConfig;
  ch_channelName : string;
}.

Definition channel_constructor (channelName : string) (config : PartialRingBufferConfig)
    : option LockFreeIngestionChannel :=
  let cfg := merge_config default_channel_config config in
  ring ← mpsc_constructor cfg;
  Some (mkChannel ring cfg channelName).

Definition with_ring (c : LockFreeIngestionChannel) (r : RingBuffer IngestionPacket) :=
  mkChannel r (ch_config c) (ch_channelName c).

(** [startTime] and [endTime] are the two readings of [Date.now()]. *)
Definition channel_publish (startTime endTime : Z) (packet : IngestionPacket)
    (c : LockFreeIngestionChannel) : bool * LockFreeIngestionChannel :=
  let '(success, ring) := mpsc_tryEnqueue packet (ch_ringBuffer c) in
  let latency := num_of_Z (endTime - startTime) in
  if success && cfg_enableMetrics (ch_config c)
  then (success, with_ring c (recordLatency latency ring))
  else (success, with_ring c ring).

(** [maxItems || 1]: an absent count and 0 both mean 1. *)
Definition subscribe_count (maxItems : option Z) (cfg : RingBufferConfig) : Z :=
  let maxItems :=
    if cfg_enableBatching cfg && bool_decide (maxItems = None)
    then Some (cfg_batchSize cfg) else maxItems in
  match maxItems with Some n => if n =? 0 then 1 else n | None => 1 end.

Definition channel_subscribe (maxItems : option Z) (c : LockFreeIngestionChannel)
    : list IngestionPacket * LockFreeIngestionChannel :=
  let '(items, ring) :=
    mpsc_tryDequeueBatch (subscribe_count maxItems (ch_config c)) (ch_ringBuffer c) in
  (items, with_ring c ring).

Definition channel_getMetrics (c : LockFreeIngestionChannel)
    : RingBufferMetrics * LockFreeIngestionChannel :=
  let '(m, ring) := mpsc_getMetrics (ch_ringBuffer c) in (m, with_ring c ring).

Definition channel_getName (c : LockFreeIngestionChannel) : string := ch_channelName c.
Definition channel_resetMetrics (c : LockFreeIngestionChannel) : LockFreeIngestionChannel :=
  with_ring c (mpsc_resetMetrics (ch_ringBuffer c)).
Definition channel_size (c : LockFreeIngestionChannel) : Z := mpsc_size (ch_ringBuffer c).
Definition channel_isEmpty (c : LockFreeIngestionChannel) : bool := mpsc_isEmpty (ch_ringBuffer c).
Definition channel_isFull (c : LockFreeIngestionChannel) : bool := mpsc_isFull (ch_ringBuffer c).

Definition channel_rep (cap : nat) (c : LockFreeIngestionChannel) (q : list IngestionPacket) :=
  mpsc_rep cap (ch_ringBuffer c) q.

Lemma channel_constructor_rep name config :
  cfg_capacity (merge_config default_channel_config config) ≤ 2 ^ 30 →
  ∃ (cap : nat) c, channel_constructor name config = Some c ∧ channel_rep cap c [] ∧
    ch_channelName c = name.
Proof.
  intros H. destruct (constructor_rep (T:=IngestionPacket) _ H) as (j & s & E & _ & _ & _ & R & _).
  eexists _, _. unfold channel_constructor. rewrite E; simpl. split; [done|]. by split.
Qed.

(** Recording a latency touches neither the slots nor the positions. *)
Lemma channel_publish_rep cap t0 t1 packet c q :
  channel_rep cap c q →
  (channel_publish t0 t1 packet c).1 = (spec_enq cap packet q).1 ∧
  channel_rep cap (channel_publish t0 t1 packet c).2 (spec_enq cap packet q).2.
Proof.
  intros R. unfold channel_publish.
  destruct (mpsc_enq_refines cap (ch_ringBuffer c) q packet R) as [E R1].
  destruct (mpsc_tryEnqueue packet (ch_ringBuffer c)) as [ok ring]; simpl in *.
  destruct (ok && _); (split; [done|]); simpl; [|done].
  by eapply ring_rep_ext; [..|exact R1].
Qed.

Lemma channel_subscribe_rep cap maxItems c q :
  channel_rep cap c q →
  let n := Z.to_nat (subscribe_count maxItems (ch_config c)) in
  (channel_subscribe maxItems c).1 = take n q ∧
  channel_rep cap (channel_subscribe maxItems c).2 (drop n q).
Proof.
  intros R n. unfold channel_subscribe.
  destruct (mpsc_batch_spec cap (subscribe_count maxItems (ch_config c)) _ _ R) as [E R1].
  by destruct (mpsc_tryDequeueBatch _ _).
Qed.

(** ** The channel manager *)

Record LockFreeChannelManager := mkManager {
  cm_heap : gmap nat LockFreeIngestionChannel;
  cm_next : nat;
  cm_channels : list (string * nat);
  cm_defaultConfig : RingBufferConfig;
}.

Definition manager_constructor (defaultConfig : PartialRingBufferConfig) : LockFreeChannelManager :=
  mkManager ∅ 0 [] (merge_config default_channel_config defaultConfig).

Definition as_partial (c : RingBufferConfig) : PartialRingBufferConfig :=
  mkPartial (Some (cfg_capacity c)) (Some (cfg_enableMetrics c))
    (Some (cfg_enableBatching c)) (Some (cfg_batchSize c)).

(** [None] when the channel's constructor does not return. *)
Definition getChannel (name : string) (config : option PartialRingBufferConfig)
    (s : LockFreeChannelManager) : option (nat * LockFreeChannelManager) :=
  match map_get (cm_channels s) name with
  | Some ref => Some (ref, s)
  | None =>
      channel ← channel_constructor name (default (as_partial (cm_defaultConfig s)) config);
      Some (cm_next s,
            mkManager (<[cm_next s := channel]> (cm_heap s)) (S (cm_next s))
              (cm_channels s ++ [(name, cm_next s)]) (cm_defaultConfig s))
  end.

Definition removeChannel (name : string) (s : LockFreeChannelManager)
    : bool * LockFreeChannelManager :=
  (bool_decide (is_Some (map_get (cm_channels s) name)),
   mkManager (cm_heap s) (cm_next s) (map_delete (cm_channels s) name) (cm_defaultConfig s)).

Definition set_channel (ref : nat) (c : LockFreeIngestionChannel) (s : LockFreeChannelManager) :=
  mkManager (<[ref := c]> (cm_heap s)) (cm_next s) (cm_channels s) (cm_defaultConfig s).

(** [for (const [name, channel] of this.channels) metrics.set(name, channel.getMetrics())];
    reading the metrics refreshes them in the channel. *)
Fixpoint collect_metrics (entries : list (string * nat)) (s : LockFreeChannelManager)
    : list (string * RingBufferMetrics) * LockFreeChannelManager :=
  match entries with
  | [] => ([], s)
  | (name, ref) :: entries' =>
      match cm_heap s !! ref with
      | Some c =>
          let '(m, c') := channel_getMetrics c in
          let '(ms, s') := collect_metrics entries' (set_channel ref c' s) in
          ((name, m) :: ms, s')
      | None => collect_metrics entries' s
      end
  end.

Definition getAllMetrics (s : LockFreeChannelManager) :=
  collect_metrics (cm_channels s) s.

Record AggregateMetrics := mkAggregate {
  ag_totalSize : Z;
  ag_totalCapacity : Z;
  ag_totalEnqueued : Z;
  ag_totalDequeued : Z;
  ag_totalFailures : Z;
  ag_averageUtilization : number;
}.

Definition sum_of {A} (f : A → Z) (l : list A) : Z := sum_list_Z (f <$> l).

Definition getAggregateMetrics (s : LockFreeChannelManager)
    : AggregateMetrics * LockFreeChannelManager :=
  let '(ms, s') := collect_metrics (cm_channels s) s in
  let ms := ms.*2 in
  let totalSize := sum_of m_size ms in
  let totalCapacity := sum_of m_capacity ms in
  (mkAggregate totalSize totalCapacity (sum_of m_totalEnqueued ms) (sum_of m_totalDequeued ms)
     (sum_of (λ m, m_enqueueFailures m + m_dequeueFailures m) ms)
     (if 0 <? totalCapacity then num_div (num_of_Z totalSize) (num_of_Z totalCapacity)
      else num_zero), s').

Definition getChannelNames (s : LockFreeChannelManager) : list string := (cm_channels s).*1.

Definition resetAllMetrics (s : LockFreeChannelManager) : LockFreeChannelManager :=
  foldl (λ s ref, match cm_heap s !! ref with
                  | Some c => set_channel ref (channel_resetMetrics c) s
                  | None => s
                  end) s (cm_channels s).*2.

Definition manager_shutdown (s : LockFreeChannelManager) : LockFreeChannelManager :=
  mkManager (cm_heap s) (cm_next s) [] (cm_defaultConfig s).

(** Names are unique, references are live and distinct, and every live channel is a
    well-formed bounded queue that reports its own capacity. *)
Record manager_ok (s : LockFreeChannelManager) : Prop := {
  mok_names : NoDup (cm_channels s).*1;
  mok_refs : NoDup (cm_channels s).*2;
  mok_live : ∀ ref, ref ∈ (cm_channels s).*2 → is_Some (cm_heap s !! ref);
  mok_fresh : ∀ ref, is_Some (cm_heap s !! ref) → (ref < cm_next s)%nat;
  mok_wf : ∀ ref c, cm_heap s !! ref = Some c →
    ∃ cap q, channel_rep cap c q ∧ m_capacity (rb_metrics (ch_ringBuffer c)) = Z.of_nat cap;
}.

Lemma channel_constructor_capacity name config c :
  channel_constructor name config = Some c →
  ∃ cap q, channel_rep cap c q ∧ m_capacity (rb_metrics (ch_ringBuffer c)) = Z.of_nat cap.
Proof.
  unfold channel_constructor. intros H.
  destruct (decide (cfg_capacity (merge_config default_channel_config config) ≤ 2 ^ 30)) as [Hle|Hgt].
  - destruct (constructor_rep (T:=IngestionPacket) _ Hle) as (j & s & E & _ & _ & Em & R & _).
    rewrite E in H. simplify_eq/=. eexists _, []. split; [exact R|]. rewrite Em; simpl.
    rewrite Z2Nat.id by lia. done.
  - unfold mpsc_constructor, nextPowerOf2 in H.
    rewrite nextPowerOf2_loop_diverges in H; [done|lia|].
    apply (bool_decide_unpack _). by vm_compute.
Qed.

Lemma manager_constructor_ok config : manager_ok (manager_constructor config).
Proof.
  split; simpl; try constructor; intros ref; [set_solver|..];
    rewrite lookup_empty; [by intros []|done].
Qed.

Lemma getChannel_ok name config s ref s' :
  manager_ok s → getChannel name config s = Some (ref, s') → manager_ok s'.
Proof.
  intros Hok. unfold getChannel. destruct (map_get (cm_channels s) name) eqn:Eg;
    [by intros [= <- <-]|].
  destruct (channel_constructor _ _) as [c|] eqn:Ec; simpl; [|done]. intros [= <- <-].
  destruct Hok as [Hn Hr Hl Hf Hw].
  assert (∀ r, r ∈ (cm_channels s).*2 → r ≠ cm_next s) as Hlt.
  { intros r Hin ->. specialize (Hf _ (Hl _ Hin)). lia. }
  split; simpl; rewrite ?fmap_app; simpl.
  - apply NoDup_app. split_and!; [done| |apply NoDup_singleton].
    apply map_get_None in Eg. set_solver.
  - apply NoDup_app. split_and!; [done| |apply NoDup_singleton]. set_solver.
  - intros r [Hin|Hin]%elem_of_app.
    + rewrite lookup_insert_ne by (apply not_eq_sym; auto). by apply Hl.
    + apply list_elem_of_singleton in Hin as ->. rewrite lookup_insert_eq. done.
  - intros r. rewrite lookup_insert. case_decide; [lia|]. intros Hs. specialize (Hf _ Hs). lia.
  - intros r c' . rewrite lookup_insert. case_decide; [|apply Hw]. intros [= <-].
    by eapply channel_constructor_capacity.
Qed.

Lemma channel_getMetrics_wf cap c q :
  channel_rep cap c q → m_capacity (rb_metrics (ch_ringBuffer c)) = Z.of_nat cap →
  let '(m, c') := channel_getMetrics c in
  channel_rep cap c' q ∧ m_capacity (rb_metrics (ch_ringBuffer c')) = Z.of_nat cap ∧
  m_size m = Z.of_nat (length q) ∧ m_capacity m = Z.of_nat cap.
Proof.
  intros R Hm. simpl. split_and!; [|done| |done].
  - by eapply ring_rep_ext; [..|exact R].
  - unfold mpsc_size. pose proof R as []. lia.
Qed.

(** Collecting metrics reports sizes within capacities, and keeps the channels. *)
Lemma collect_metrics_spec entries s :
  (∀ ref c, cm_heap s !! ref = Some c →
     ∃ cap q, channel_rep cap c q ∧ m_capacity (rb_metrics (ch_ringBuffer c)) = Z.of_nat cap) →
  let '(ms, s') := collect_metrics entries s in
  Forall (λ m, 0 ≤ m_size m ≤ m_capacity m) ms.*2 ∧
  cm_channels s' = cm_channels s ∧
  (∀ ref cap q c, cm_heap s !! ref = Some c → channel_rep cap c q →
     m_capacity (rb_metrics (ch_ringBuffer c)) = Z.of_nat cap →
     ∃ c', cm_heap s' !! ref = Some c' ∧ channel_rep cap c' q).
Proof.
  revert s. induction entries as [|[name ref] entries IH]; intros s Hwf;
    cbn [collect_metrics].
  - split_and!; [constructor|done|eauto].
  - destruct (cm_heap s !! ref) as [c|] eqn:E; [|by apply IH].
    destruct (Hwf _ _ E) as (cap & q & R & Hm).
    pose proof (channel_getMetrics_wf cap c q R Hm) as G.
    destruct (channel_getMetrics c) as [m c'] eqn:Eg. destruct G as (R' & Hm' & Hs & Hc).
    specialize (IH (set_channel ref c' s)).
    destruct (collect_metrics entries (set_channel ref c' s)) as [ms s'].
    destruct IH as (F & Ech & K).
    { intros r d. simpl. rewrite lookup_insert. case_decide; [|apply Hwf].
      intros [= <-]. eauto. }
    split_and!; [|done|].
    + simpl. constructor; [|done]. pose proof (rep_bound _ _ _ _ _ R). lia.
    + intros r cap1 q1 c1 Hr R1 Hm1.
      destruct (decide (r = ref)) as [->|Hne].
      * rewrite E in Hr. injection Hr as <-.
        apply (K ref cap1 q1 c'); simpl; [by rewrite lookup_insert_eq| |].
        -- pose proof (channel_getMetrics_wf cap1 c q1 R1 Hm1) as G.
           rewrite Eg in G. by destruct G.
        -- by rewrite Hm', <-Hm.
      * apply (K r cap1 q1 c1); simpl; [by rewrite lookup_insert_ne|done|done].
Qed.

Lemma sum_of_le {A} (f g : A → Z) (l : list A) :
  Forall (λ x, 0 ≤ f x ≤ g x) l → 0 ≤ sum_of f l ≤ sum_of g l.
Proof. unfold sum_of, sum_list_Z. induction 1; csimpl in *; lia. Qed.

(** *** Properties *)

(** Publishing to and subscribing from a channel is putting into and taking from a
    bounded FIFO queue: a packet is refused exactly when the channel is full, and a
    subscription gets the oldest packets in order, as many as asked for (the batch
    size by default). *)
Theorem channel_fifo (cap : nat) (c : LockFreeIngestionChannel) (q : list IngestionPacket)
    (t0 t1 : Z) (packet : IngestionPacket) (maxItems : option Z) :
  channel_rep cap c q →
  let '(ok, c1) := channel_publish t0 t1 packet c in
  let n := Z.to_nat (subscribe_count maxItems (ch_config c)) in
  let '(items, c2) := channel_subscribe maxItems c in
  (ok = true ↔ (length q < cap)%nat) ∧
  channel_rep cap c1 (if ok then q ++ [packet] else q) ∧
  items = take n q ∧ channel_rep cap c2 (drop n q).
Proof.
  intros R. destruct (channel_publish_rep cap t0 t1 packet c q R) as [E1 R1].
  destruct (channel_subscribe_rep cap maxItems c q R) as [E2 R2].
  destruct (channel_publish t0 t1 packet c) as [ok c1], (channel_subscribe maxItems c) as [it c2].
  simpl in *. subst. unfold spec_enq in *. by case_decide; simpl in *; (split; [done|]).
Qed.

Definition sample_packet : IngestionPacket := mkPacket STANDARD 1 2.

Lemma channel_fifo_witness :
  let c := mkChannel (mkRing [None; None] 2 1 0 0 (initial_metrics 2) [])
             (mkRingBufferConfig 2 true true 32) "prices" in
  let '(ok, c1) := channel_publish 5 6 sample_packet c in
  let n := Z.to_nat (subscribe_count None (ch_config c)) in
  let '(items, c2) := channel_subscribe None c in
  (ok = true ↔ (length ([] : list IngestionPacket) < 2)%nat) ∧
  channel_rep 2 c1 (if ok then [] ++ [sample_packet] else []) ∧
  items = take n [] ∧ channel_rep 2 c2 (drop n []).
Proof. cbv zeta. apply channel_fifo. exact (fresh_ring_rep 1 (initial_metrics 2)). Defined.

(** Over any set of channels the aggregate size never exceeds the aggregate capacity,
    and computing the aggregates leaves every channel's content as it was. *)
Theorem aggregate_within_capacity (s : LockFreeChannelManager) :
  manager_ok s →
  let '(agg, s') := getAggregateMetrics s in
  0 ≤ ag_totalSize agg ≤ ag_totalCapacity agg ∧
  getChannelNames s' = getChannelNames s ∧
  ∀ ref c, cm_heap s !! ref = Some c → ∃ cap q c',
    channel_rep cap c q ∧ cm_heap s' !! ref = Some c' ∧ channel_rep cap c' q.
Proof.
  intros [_ _ _ _ Hw]. unfold getAggregateMetrics.
  pose proof (collect_metrics_spec (cm_channels s) s Hw) as C.
  destruct (collect_metrics (cm_channels s) s) as [ms s']. destruct C as (F & Ech & K).
  split; [simpl; by apply sum_of_le|]. split; [by unfold getChannelNames; rewrite Ech|].
  intros ref c Hc. destruct (Hw ref c Hc) as (cap & q & R & Hm).
  destruct (K ref cap q c Hc R Hm) as (c' & Hc' & R'). by exists cap, q, c'.
Qed.

(** A name denotes one channel until it is removed: asking again returns the same
    object and creates nothing. After a removal, the next request creates a new empty
    channel and the removed object, still held by its users, is left as it was. *)
Theorem getChannel_identity (name : string) (config config' : option PartialRingBufferConfig)
    (s : LockFreeChannelManager) (ref : nat) (s1 : LockFreeChannelManager) :
  manager_ok s → getChannel name config s = Some (ref, s1) →
  getChannel name config' s1 = Some (ref, s1) ∧
  ∀ ref' s3, getChannel name config' (removeChannel name s1).2 = Some (ref', s3) →
    ref' ≠ ref ∧ cm_heap s3 !! ref = cm_heap s1 !! ref ∧
    ∃ c, cm_heap s3 !! ref' = Some c ∧ channel_size c = 0.
Proof.
  intros Hok E. pose proof (getChannel_ok _ _ _ _ _ Hok E) as Hok1.
  assert (map_get (cm_channels s1) name = Some ref) as Eg.
  { revert E. unfold getChannel. destruct (map_get (cm_channels s) name) eqn:Eg;
      [by intros [= <- <-]|].
    destruct (channel_constructor _ _); simpl; [|done]. intros [= <- <-]; simpl.
    by apply map_get_app_new. }
  split; [unfold getChannel; by rewrite Eg|].
  intros ref' s3. unfold getChannel, removeChannel; simpl. rewrite map_get_delete.
  destruct (channel_constructor _ _) as [c|] eqn:Ec; simpl; [|done]. intros [= <- <-]; simpl.
  assert (ref < cm_next s1)%nat as Hlt.
  { apply (mok_fresh _ Hok1), (mok_live _ Hok1). by eapply map_get_Some_in. }
  split_and!; [lia|by rewrite lookup_insert_ne by lia|].
  exists c. split; [by rewrite lookup_insert_eq|].
  revert Ec. unfold channel_constructor, mpsc_constructor.
  destruct (nextPowerOf2 _ _); simpl; by intros [= <-].
Qed.

(** A manager with one channel created through the interface. *)
Definition sample_manager : LockFreeChannelManager :=
  match getChannel "prices" (Some (mkPartial (Some 2) None None None))
          (manager_constructor no_overrides) with
  | Some (_, s) => s
  | None => manager_constructor no_overrides
  end.

Lemma sample_manager_ok : manager_ok sample_manager.
Proof.
  unfold sample_manager. destruct (getChannel _ _ _) as [[ref s]|] eqn:E;
    [|apply manager_constructor_ok].
  eapply getChannel_ok; [|exact E]. apply manager_constructor_ok.
Qed.

Lemma aggregate_within_capacity_witness :
  let '(agg, s') := getAggregateMetrics sample_manager in
  0 ≤ ag_totalSize agg ≤ ag_totalCapacity agg ∧
  getChannelNames s' = getChannelNames sample_manager ∧
  ∀ ref c, cm_heap sample_manager !! ref = Some c → ∃ cap q c',
    channel_rep cap c q ∧ cm_heap s' !! ref = Some c' ∧ channel_rep cap c' q.
Proof. exact (aggregate_within_capacity sample_manager sample_manager_ok). Defined.

Lemma getChannel_identity_witness :
  let s1 := sample_manager in
  getChannel "prices" None s1 = Some (0%nat, s1) ∧
  ∀ ref' s3, getChannel "prices" None (removeChannel "prices" s1).2 = Some (ref', s3) →
    ref' ≠ 0%nat ∧ cm_heap s3 !! 0%nat = cm_heap s1 !! 0%nat ∧
    ∃ c, cm_heap s3 !! ref' = Some c ∧ channel_size c = 0.
Proof.
  apply (getChannel_identity "prices" (Some (mkPartial (Some 2) None None None)) None
           (manager_constructor no_overrides)).
  - apply manager_constructor_ok.
  - by vm_compute.
Defined.

(** ** The worker-thread channel

    The main thread posts requests, each under a fresh message number (the id is
    [msg_<number>_<time>]), and keeps the resolver of each in [pendingRequests]; the
    worker answers over its own port. A promise resolves on a matching answer or, after
    five seconds, with the request's failure value. *)

Inductive request_kind := KPublish | KSubscribe | KMetrics.

(** Messages to the worker. *)
Inductive worker_request :=
| PUBLISH (packet : IngestionPacket) (id : nat)
| SUBSCRIBE (id : nat)
| METRICS (id : nat)
| SHUTDOWN.

(** The [data] of an answer. *)
Inductive answer :=
| AckData (success : bool)
| PacketsData (packets : list IngestionPacket)
| MetricsData (m : RingBufferMetrics).

(** [{ type: ACK, data, id? }] *)
Record worker_answer := mkAnswer { an_data : answer; an_id : option nat }.

(** What a caller's promise resolved with. *)
Inductive settled :=
| ByAnswer (a : answer)
| ByTimeout
| NotRunning.

Record WorkerChannelHandler := mkHandler {
  wh_channel : LockFreeIngestionChannel;
  wh_running : bool;
}.

Record WorkerThreadChannel := mkWorkerSystem {
  wt_messageId : nat;
  wt_pendingRequests : gmap nat request_kind;
  wt_running : bool;
  wt_toWorker : list worker_request;
  wt_toMain : list worker_answer;
  wt_worker : WorkerChannelHandler;
  wt_settled : list (request_kind * settled);
}.

Definition handler_constructor (channelName : string) (bufferSize batchSize : Z)
    : option WorkerChannelHandler :=
  channel ← channel_constructor channelName
              (mkPartial (Some bufferSize) (Some true) (Some true) (Some batchSize));
  Some (mkHandler channel true).

(** [sendAck]: no id. *)
Definition sendAck (success : bool) : worker_answer := mkAnswer (AckData success) None.
(** [sendResponse] *)
Definition sendResponse (data : answer) (id : nat) : worker_answer := mkAnswer data (Some id).

(** The worker's message handler; [t0] and [t1] are its clock readings. *)
Definition handle_request (t0 t1 : Z) (m : worker_request) (w : WorkerChannelHandler)
    : list worker_answer * WorkerChannelHandler :=
  if wh_running w then
    match m with
    | PUBLISH packet _ =>
        let '(success, c) := channel_publish t0 t1 packet (wh_channel w) in
        ([sendAck success], mkHandler c true)
    | SUBSCRIBE id =>
        let '(packets, c) := channel_subscribe None (wh_channel w) in
        ([sendResponse (PacketsData packets) id], mkHandler c true)
    | METRICS id =>
        let '(metrics, c) := channel_getMetrics (wh_channel w) in
        ([sendResponse (MetricsData metrics) id], mkHandler c true)
    | SHUTDOWN => ([sendAck true], mkHandler (wh_channel w) false)
    end
  else ([], w).

(** [publish], [subscribe] and [getMetrics] of the main thread. *)
Definition wt_request (kind : request_kind) (mk : nat → worker_request) (s : WorkerThreadChannel)
    : WorkerThreadChannel :=
  if wt_running s then
    mkWorkerSystem (S (wt_messageId s)) (<[wt_messageId s := kind]> (wt_pendingRequests s)) true
      (wt_toWorker s ++ [mk (wt_messageId s)]) (wt_toMain s) (wt_worker s) (wt_settled s)
  else
    mkWorkerSystem (wt_messageId s) (wt_pendingRequests s) false (wt_toWorker s) (wt_toMain s)
      (wt_worker s) (wt_settled s ++ [(kind, NotRunning)]).

Definition wt_publish (packet : IngestionPacket) := wt_request KPublish (PUBLISH packet).
Definition wt_subscribe := wt_request KSubscribe SUBSCRIBE.
Definition wt_getMetrics := wt_request KMetrics METRICS.

Definition settle (id : nat) (r : settled) (s : WorkerThreadChannel) : WorkerThreadChannel :=
  match wt_pendingRequests s !! id with
  | Some kind =>
      mkWorkerSystem (wt_messageId s) (delete id (wt_pendingRequests s)) (wt_running s)
        (wt_toWorker s) (wt_toMain s) (wt_worker s) (wt_settled s ++ [(kind, r)])
  | None => s
  end.

Definition handleWorkerMessage (m : worker_answer) (s : WorkerThreadChannel) : WorkerThreadChannel :=
  match an_id m with
  | Some id => settle id (ByAnswer (an_data m)) s
  | None => s
  end.

(** [stop]: the worker is terminated and the pending resolvers are forgotten. *)
Definition wt_stop (s : WorkerThreadChannel) : WorkerThreadChannel :=
  if wt_running s then
    mkWorkerSystem (wt_messageId s) ∅ false [] [] (wt_worker s) (wt_settled s)
  else s.

Inductive wt_step : WorkerThreadChannel → WorkerThreadChannel → Prop :=
| step_publish packet s : wt_step s (wt_publish packet s)
| step_subscribe s : wt_step s (wt_subscribe s)
| step_metrics s : wt_step s (wt_getMetrics s)
| step_worker t0 t1 m ms answers w s :
    wt_toWorker s = m :: ms →
    handle_request t0 t1 m (wt_worker s) = (answers, w) →
    wt_step s (mkWorkerSystem (wt_messageId s) (wt_pendingRequests s) (wt_running s) ms
                 (wt_toMain s ++ answers) w (wt_settled s))
| step_main m ms s :
    wt_toMain s = m :: ms →
    wt_step s (handleWorkerMessage m
      (mkWorkerSystem (wt_messageId s) (wt_pendingRequests s) (wt_running s)
         (wt_toWorker s) ms (wt_worker s) (wt_settled s)))
| step_timeout id s : wt_step s (settle id ByTimeout s)
| step_stop s : wt_step s (wt_stop s).

Definition wt_started (w : WorkerChannelHandler) : WorkerThreadChannel :=
  mkWorkerSystem 0 ∅ true [] [] w [].

Definition request_id (m : worker_request) : option nat :=
  match m with PUBLISH _ id | SUBSCRIBE id | METRICS id => Some id | SHUTDOWN => None end.

(** Numbers are handed out once; an answer or a request that will be answered under an
    id never belongs to a publish. *)
Record wt_inv (s : WorkerThreadChannel) : Prop := {
  wi_pending : ∀ id, is_Some (wt_pendingRequests s !! id) → (id < wt_messageId s)%nat;
  wi_answers : ∀ a id, a ∈ wt_toMain s → an_id a = Some id →
    (id < wt_messageId s)%nat ∧ wt_pendingRequests s !! id ≠ Some KPublish;
  wi_requests : ∀ m id, m ∈ wt_toWorker s → request_id m = Some id →
    (id < wt_messageId s)%nat ∧
    ((∀ p, m ≠ PUBLISH p id) → wt_pendingRequests s !! id ≠ Some KPublish);
  wi_settled : ∀ r, (KPublish, r) ∈ wt_settled s → ∀ a, r ≠ ByAnswer a;
}.

Lemma wt_request_inv kind mk s :
  (∀ id, request_id (mk id) = Some id) →
  (kind = KPublish → ∀ id, ∃ p, mk id = PUBLISH p id) →
  wt_inv s → wt_inv (wt_request kind mk s).
Proof.
  intros Hid Hk [Hp Ha Hr Hs]. unfold wt_request. destruct (wt_running s); split; simpl.
  - intros id. rewrite lookup_insert. case_decide; [lia|]. intros Hid'%Hp. lia.
  - intros a id Hin Hai. destruct (Ha a id Hin Hai). split; [lia|].
    by rewrite lookup_insert_ne by lia.
  - intros m id [Hin|Hin]%elem_of_app Hmi.
    + destruct (Hr m id Hin Hmi). split; [lia|]. by rewrite lookup_insert_ne by lia.
    + apply list_elem_of_singleton in Hin as ->. rewrite Hid in Hmi. injection Hmi as <-.
      split; [lia|]. intros Hnp. rewrite lookup_insert_eq. intros [= E].
      destruct (Hk E (wt_messageId s)) as [p Ep]. by apply (Hnp p).
  - exact Hs.
  - exact Hp.
  - exact Ha.
  - exact Hr.
  - intros r [Hin|Hin]%elem_of_app; [by apply Hs|].
    apply list_elem_of_singleton in Hin. by simplify_eq.
Qed.

Lemma settle_inv id r s :
  (wt_pendingRequests s !! id = Some KPublish → ∀ a, r ≠ ByAnswer a) →
  wt_inv s → wt_inv (settle id r s).
Proof.
  intros Hr [Hp Ha Hq Hs]. unfold settle.
  destruct (wt_pendingRequests s !! id) as [kind|] eqn:E; [|done].
  split; simpl.
  - intros i. rewrite lookup_delete. case_decide; [by intros []|]. apply Hp.
  - intros a i Hin Hai. destruct (Ha a i Hin Hai). split; [done|].
    rewrite lookup_delete. by case_decide.
  - intros m i Hin Hmi. destruct (Hq m i Hin Hmi) as [? Hn]. split; [done|].
    intros Hnp. rewrite lookup_delete. case_decide; [done|]. by apply Hn.
  - intros r' [Hin|Hin]%elem_of_app; [by apply Hs|].
    apply list_elem_of_singleton in Hin. simplify_eq. by apply Hr.
Qed.

(** Every answer of the worker that carries an id carries that of its request. *)
Lemma handle_request_ids t0 t1 m w answers w' a id :
  handle_request t0 t1 m w = (answers, w') → a ∈ answers → an_id a = Some id →
  request_id m = Some id ∧ ∀ p, m ≠ PUBLISH p id.
Proof.
  unfold handle_request. destruct (wh_running w); [|intros [= <- <-]; set_solver].
  destruct m as [p i|i|i|]; [destruct (channel_publish _ _ _ _)|destruct (channel_subscribe _ _)
    |destruct (channel_getMetrics _)|]; intros [= <- <-];
    intros ->%list_elem_of_singleton; simpl; by intros [= <-].
Qed.

Lemma wt_step_inv s s' : wt_step s s' → wt_inv s → wt_inv s'.
Proof.
  intros Hstep Hi. inversion Hstep as [p ?|?|?|t0 t1 m ms answers w ? Em Eh|m ms ? Em|id ?|?]; subst.
  - apply wt_request_inv; [done|by eauto|done].
  - by apply wt_request_inv.
  - by apply wt_request_inv.
  - destruct Hi as [Hp Ha Hr Hs]. split; simpl; [done| | |done].
    + intros a id [Hin|Hin]%elem_of_app Hai; [by eapply Ha|].
      destruct (handle_request_ids _ _ _ _ _ _ a id Eh Hin Hai) as [Hm Hnp].
      destruct (Hr m id) as [? Hn]; [rewrite Em; set_solver|done|]. auto.
    + intros m' id Hin. apply Hr. rewrite Em. set_solver.
  - assert (wt_inv (mkWorkerSystem (wt_messageId s) (wt_pendingRequests s) (wt_running s)
              (wt_toWorker s) ms (wt_worker s) (wt_settled s))) as Hi'.
    { destruct Hi as [Hp Ha Hr Hs]. split; simpl; [done| |done|done].
      intros a id Hin. apply Ha. rewrite Em. set_solver. }
    unfold handleWorkerMessage. destruct (an_id m) as [id|] eqn:Ei; [|done].
    apply settle_inv; [|done]. simpl. intros E.
    destruct (wi_answers _ Hi m id) as [_ []]; [rewrite Em; set_solver|done|done].
  - by apply settle_inv.
  - unfold wt_stop. destruct (wt_running s); [|done]. destruct Hi as [Hp Ha Hr Hs].
    split; simpl; [intros id; by rewrite lookup_empty; intros []|set_solver|set_solver|done].
Qed.

(** The worker's acknowledgement of a publish carries no id, so it never reaches the
    promise of that publish: in every reachable state of the two threads, a publish that
    has settled did so by the five-second timeout (or because the channel was not
    running), with [false], even when the worker had accepted the packet. *)
Theorem publish_only_times_out (w : WorkerChannelHandler) (s : WorkerThreadChannel) (r : settled) :
  rtc wt_step (wt_started w) s → (KPublish, r) ∈ wt_settled s → r = ByTimeout ∨ r = NotRunning.
Proof.
  intros Hrtc Hin. assert (wt_inv s) as Hi.
  { assert (wt_inv (wt_started w)) as H0.
    { split; simpl; [intros id; by rewrite lookup_empty; intros []|set_solver..]. }
    clear Hin. revert H0. induction Hrtc; [done|]. eauto using wt_step_inv. }
  pose proof (wi_settled _ Hi r Hin) as Hn. destruct r; [|by auto..]. by destruct (Hn a).
Qed.

Definition sample_handler : WorkerChannelHandler :=
  mkHandler (mkChannel (mkRing [None; None] 2 1 0 0 (initial_metrics 2) [])
    (mkRingBufferConfig 2 false true 32) "prices") true.

(** The packet is accepted by the worker, and the publish still times out. *)
Lemma publish_only_times_out_witness :
  ∃ s, rtc wt_step (wt_started sample_handler) s ∧
    channel_size (wh_channel (wt_worker s)) = 1 ∧ (KPublish, ByTimeout) ∈ wt_settled s ∧
    (ByTimeout = ByTimeout ∨ ByTimeout = NotRunning).
Proof.
  eassert (rtc wt_step (wt_started sample_handler) _) as R.
  { eapply rtc_l; [apply (step_publish sample_packet)|].
    eapply rtc_l; [eapply (step_worker 0 0); reflexivity|].
    eapply rtc_l; [eapply step_main; reflexivity|].
    eapply rtc_l; [apply (step_timeout 0)|]. apply rtc_refl. }
  eexists. split; [exact R|]. split; [reflexivity|].
  assert ((KPublish, ByTimeout) ∈ [(KPublish, ByTimeout)]) as Hin by set_solver.
  split; [exact Hin|]. exact (publish_only_times_out _ _ ByTimeout R Hin).
Defined.
