(* ===== verification/Delegation.v ===== *)
(** * Delegation of voting weight: [src/src/logic/governanceDelegation.ts]

    [resolveDelegation] walks a delegation chain at most [maxDepth] hops, stopping at
    an account that does not delegate, at the depth limit, or at the first account
    seen before. [computeEffectiveWeights] forwards every account's own weight along
    its chain. The chain is specified by the step relation of the delegation edges. *)

From S2P Require Import Prelude JsNumber.

Definition MAX_DELEGATION_DEPTH : nat := 5.

Inductive DelegationStatus := ok | cycle | depth_exceeded.

Record DelegationResolution := mkResolution {
  holder : string;
  hops : nat;
  status : DelegationStatus;
  path : list string;
}.

(** The warnings logged on the way. *)
Inductive delegation_warning :=
| GovernanceDelegationDepthExceeded (start : string) (maxDepth : nat) (path : list string)
| GovernanceDelegationCycleDetected (start : string) (path : list string).

(** The [while] loop; [remaining] is [maxDepth - hops], and [visited] is the set of the
    accounts of [path]. *)
Fixpoint resolve_loop (edges : gmap string string) (start : string) (maxDepth remaining : nat)
    (path : list string) (current : string) (hops : nat)
    : DelegationResolution * list delegation_warning :=
  match edges !! current with
  | None => (mkResolution current hops ok path, [])
  | Some next =>
      match remaining with
      | O => (mkResolution current hops depth_exceeded path,
              [GovernanceDelegationDepthExceeded start maxDepth path])
      | S remaining' =>
          if decide (next ∈ path) then
            (mkResolution start hops cycle (path ++ [next]),
             [GovernanceDelegationCycleDetected start (path ++ [next])])
          else resolve_loop edges start maxDepth remaining' (path ++ [next]) next (S hops)
      end
  end.

Definition resolveDelegation (start : string) (edges : gmap string string)
    (maxDepth : option nat) : DelegationResolution * list delegation_warning :=
  let maxDepth := default MAX_DELEGATION_DEPTH maxDepth in
  resolve_loop edges start maxDepth maxDepth [start] start 0.

(** [ownWeights] in the iteration order of the map; [result] as a finite map. *)
Definition computeEffectiveWeights (ownWeights : list (string * number))
    (edges : gmap string string) (maxDepth : option nat) : gmap string number :=
  foldl (λ result '(account, weight),
    let h := holder (resolveDelegation account edges maxDepth).1 in
    <[h := num_add (default num_zero (result !! h)) weight]> result) ∅ ownWeights.

(** ** The delegation graph *)

Section graph.
Context (edges : gmap string string).

Definition delegates (a b : string) : Prop := edges !! a = Some b.
Definition sink (a : string) : Prop := edges !! a = None.

Lemma nsteps_det n a b c : nsteps delegates n a b → nsteps delegates n a c → b = c.
Proof.
  intros H; revert c. induction H as [|n x y z Hxy Hyz IH]; intros c Hc;
    inversion Hc as [|? ? y' ? Hxy' Hyc']; subst; [done|].
  unfold delegates in *. simplify_eq. auto.
Qed.

Lemma nsteps_sink n m a b c :
  nsteps delegates n a b → sink b → nsteps delegates m a c →
  m ≤ n ∧ nsteps delegates (n - m) c b.
Proof.
  intros H Hs; revert m c. induction H as [x|n x y z Hxy Hyz IH]; intros m c Hc.
  - inversion Hc as [|m' ? y' ? Hxy' Hyc']; subst; [split; [done|constructor]|].
    unfold delegates, sink in *. congruence.
  - inversion Hc as [|m' ? y' ? Hxy' Hyc']; subst; [split; [lia|by econstructor]|].
    unfold delegates in *. simplify_eq. destruct (IH Hs m' c Hyc') as [? ?].
    split; [lia|done].
Qed.

(** An account from which a sink is reached is on no cycle. *)
Lemma sink_no_cycle n m a b :
  nsteps delegates n a b → sink b → nsteps delegates (S m) a a → False.
Proof.
  revert a. induction (lt_wf n) as [n _ IH]; intros a Hn Hs Hm.
  destruct (nsteps_sink n (S m) a b a Hn Hs Hm) as [Hle Hn'].
  apply (IH (n - S m) ltac:(lia) a Hn' Hs Hm).
Qed.

(** [chain l]: each account of [l] delegates to the next one. *)
Fixpoint chain (l : list string) : Prop :=
  match l with
  | a :: (b :: _) as l' => delegates a b ∧ chain l'
  | _ => True
  end.

Lemma chain_snoc l a b : chain (l ++ [a]) → delegates a b → chain (l ++ [a; b]).
Proof.
  induction l as [|x [|y l] IH]; simpl in *; [done|tauto|]. intros [? ?] ?. split; [done|].
  by apply IH.
Qed.

Lemma chain_reaches l a x : chain (l ++ [a]) → x ∈ l ++ [a] → ∃ k, nsteps delegates k x a.
Proof.
  revert x. induction l as [|y l IH]; intros x; simpl.
  - intros _ ->%list_elem_of_singleton. exists 0. constructor.
  - destruct l as [|z l]; simpl in *.
    + intros [Hd _] [->|Hx]%elem_of_cons; [exists 1; by apply nsteps_once|].
      apply list_elem_of_singleton in Hx as ->. exists 0; constructor.
    + intros [Hd Hc] [->|Hx]%elem_of_cons; [|by apply IH].
      destruct (IH z Hc) as [k Hk]; [set_solver|]. exists (S k). by econstructor.
Qed.

Lemma chain_nsteps x l a : chain (x :: l) → last (x :: l) = Some a →
  nsteps delegates (length l) x a.
Proof.
  revert x. induction l as [|y l IH]; intros x; simpl.
  - intros _ [= ->]. constructor.
  - intros [? ?] ?. econstructor; [done|]. by apply IH.
Qed.

(** *** The loop *)

Context (start : string) (maxDepth : nat).

Lemma resolve_loop_spec remaining p current n r w :
  resolve_loop edges start maxDepth remaining (p ++ [current]) current n = (r, w) →
  chain (p ++ [current]) → NoDup (p ++ [current]) → head (p ++ [current]) = Some start →
  n = length p →
  chain (path r) ∧ head (path r) = Some start ∧ hops r ≤ n + remaining ∧
  match status r with
  | ok => NoDup (path r) ∧ sink (holder r) ∧ last (path r) = Some (holder r) ∧
          hops r = pred (length (path r))
  | depth_exceeded => NoDup (path r) ∧ ¬ sink (holder r) ∧ hops r = n + remaining ∧
          last (path r) = Some (holder r) ∧ hops r = pred (length (path r))
  | cycle => holder r = start ∧ ¬ NoDup (path r) ∧ hops r = length (path r) - 2
  end.
Proof.
  revert p current n. induction remaining as [|m IH]; intros p current n; cbn [resolve_loop];
    destruct (edges !! current) as [next|] eqn:E; intros Hr Hc Hn Hh Hl.
  - injection Hr as <- <-; cbn. rewrite last_snoc, length_app; simpl.
    split_and!; [done|done|lia|done|by unfold sink; rewrite E|lia|done|lia].
  - injection Hr as <- <-; cbn. rewrite last_snoc, length_app; simpl.
    split_and!; [done|done|lia|done|done|done|lia].
  - case_decide as Hin.
    + injection Hr as <- <-; cbn.
      split_and!; [rewrite <-app_assoc; by apply chain_snoc|by destruct p|lia|done|
        |rewrite !length_app; simpl; lia].
      intros Hnd%NoDup_app. destruct Hnd as (_ & Hd & _).
      apply (Hd next); [done|set_solver].
    + destruct (IH (p ++ [current]) next (S n) Hr) as (H1 & H2 & H3 & H4).
      * rewrite <-app_assoc; simpl. by apply chain_snoc.
      * apply NoDup_app. split_and!; [done|set_solver|apply NoDup_singleton].
      * by destruct p.
      * rewrite length_app; simpl; lia.
      * split_and!; [done|done|lia|].
        destruct (status r); [done|done|]. destruct H4 as (?&?&?&?&?).
        split_and!; [done|done|lia|done|done].
  - injection Hr as <- <-; cbn. rewrite last_snoc, length_app; simpl.
    split_and!; [done|done|lia|done|done|done|lia].
Qed.

Lemma resolve_loop_reaches remaining p current n k h :
  chain (p ++ [current]) → nsteps delegates k current h → sink h → k ≤ remaining →
  holder (resolve_loop edges start maxDepth remaining (p ++ [current]) current n).1 = h ∧
  status (resolve_loop edges start maxDepth remaining (p ++ [current]) current n).1 = ok.
Proof.
  revert p current n k. induction remaining as [|m IH]; intros p current n k Hc Hk Hs Hle.
  - assert (k = 0) as -> by lia. inversion Hk; subst. simpl. unfold sink in Hs. by rewrite Hs.
  - inversion Hk as [|k' ? next ? Hd Hk']; subst; cbn [resolve_loop].
    + unfold sink in Hs. by rewrite Hs.
    + unfold delegates in Hd. rewrite Hd. rewrite decide_False.
      * apply (IH (p ++ [current]) next (S n) k'); [|done|done|lia].
        rewrite <-app_assoc; simpl. by apply chain_snoc.
      * intros Hin. destruct (chain_reaches p current next Hc Hin) as [j Hj].
        apply (sink_no_cycle (S k') j current h Hk Hs). by econstructor.
Qed.
End graph.

(** ** Effective weights *)

(** The weights forwarded to [h], in the order they are added. *)
Definition forwarded (ownWeights : list (string * number)) edges maxDepth (h : string)
    : list number :=
  omap (λ '(account, weight),
    if decide (holder (resolveDelegation account edges maxDepth).1 = h)
    then Some weight else None) ownWeights.

Lemma effective_weights_snoc own account weight edges maxDepth :
  computeEffectiveWeights (own ++ [(account, weight)]) edges maxDepth =
  let h := holder (resolveDelegation account edges maxDepth).1 in
  let result := computeEffectiveWeights own edges maxDepth in
  <[h := num_add (default num_zero (result !! h)) weight]> result.
Proof. unfold computeEffectiveWeights. by rewrite foldl_snoc. Qed.

Lemma effective_weights_spec own edges maxDepth h :
  computeEffectiveWeights own edges maxDepth !! h =
  match forwarded own edges maxDepth h with
  | [] => None
  | ws => Some (num_sum ws)
  end.
Proof.
  induction own as [|[account weight] own IH] using rev_ind; [done|].
  rewrite effective_weights_snoc; cbv zeta.
  unfold forwarded in *. rewrite omap_app; simpl.
  rewrite lookup_insert. case_decide as Eh.
  - subst h. rewrite IH. destruct (omap _ own) as [|w ws] eqn:E; simpl; [done|].
    unfold num_sum. by rewrite app_comm_cons, fold_left_app.
  - rewrite app_nil_r. by rewrite IH.
Qed.

Lemma forwarded_partition own edges maxDepth (ks : list string) :
  NoDup ks →
  (∀ account weight, (account, weight) ∈ own →
     holder (resolveDelegation account edges maxDepth).1 ∈ ks) →
  own.*2 ≡ₚ (ks ≫= forwarded own edges maxDepth).
Proof.
  intros Hnd. induction own as [|[account weight] own IH]; intros Hks.
  - clear. by induction ks.
  - set (k := holder (resolveDelegation account edges maxDepth).1).
    destruct (list_elem_of_split ks k) as (k1 & k2 & ->);
      [by apply (Hks account weight); set_solver|].
    assert (∀ l, k ∉ l → (l ≫= forwarded ((account, weight) :: own) edges maxDepth) =
                         (l ≫= forwarded own edges maxDepth)) as Hskip.
    { induction l as [|x l IHl]; intros Hk; [done|]. csimpl. rewrite IHl by set_solver.
      f_equal. unfold forwarded; simpl. rewrite decide_False; [done|].
      fold k. set_solver. }
    apply NoDup_app in Hnd as (_ & Hd & [Hn2 _]%NoDup_cons).
    rewrite bind_app, bind_cons. rewrite !Hskip; [|done|intros Hin; by apply (Hd k Hin); left].
    assert (forwarded ((account, weight) :: own) edges maxDepth k =
            weight :: forwarded own edges maxDepth k) as ->.
    { unfold forwarded at 1; simpl. by rewrite decide_True. }
    rewrite fmap_cons, IH by set_solver. rewrite bind_app, bind_cons. simpl. solve_Permutation.
Qed.

(** ** Properties *)

(** A chain is resolved to [h] with status [ok] exactly when following the
    delegations from the start reaches, in at most [maxDepth] hops, the account [h] that
    delegates to nobody. *)
Theorem resolve_ok_iff (start : string) (edges : gmap string string) (maxDepth : option nat)
    (h : string) :
  let r := (resolveDelegation start edges maxDepth).1 in
  (status r = ok ∧ holder r = h) ↔
  ∃ n, n ≤ default MAX_DELEGATION_DEPTH maxDepth ∧
    nsteps (delegates edges) n start h ∧ edges !! h = None.
Proof.
  unfold resolveDelegation; cbv zeta. set (d := default MAX_DELEGATION_DEPTH maxDepth). split.
  - destruct (resolve_loop edges start d d [start] start 0) as [r w] eqn:E; simpl.
    intros [Hs <-]. apply (resolve_loop_spec edges start d d [] start 0) in E;
      [|done|apply NoDup_singleton|done|done].
    destruct E as (Hc & Hh & Hle & H). rewrite Hs in H. destruct H as (_ & Hk & Hl & Hp).
    exists (hops r). split; [lia|]. split; [|done].
    destruct (path r) as [|x l]; [done|]. simpl in Hh. injection Hh as ->.
    rewrite Hp. simpl pred. by apply chain_nsteps.
  - intros (n & Hn & Hr & Hs).
    destruct (resolve_loop_reaches edges start d d [] start 0 n h); [done|done|done|done|].
    done.
Qed.

(** Resolution is bounded and safe on every graph, cyclic or not: it follows at most
    [maxDepth] hops along real delegations from the start; a detected cycle is a repeated
    account and leaves the weight with the start; without a cycle no account is visited
    twice and the holder is the last account reached. *)
Theorem resolve_bounded (start : string) (edges : gmap string string) (maxDepth : option nat) :
  let r := (resolveDelegation start edges maxDepth).1 in
  hops r ≤ default MAX_DELEGATION_DEPTH maxDepth ∧
  chain edges (path r) ∧ head (path r) = Some start ∧
  match status r with
  | cycle => holder r = start ∧ ¬ NoDup (path r)
  | _ => NoDup (path r) ∧ last (path r) = Some (holder r) ∧ S (hops r) = length (path r)
  end.
Proof.
  unfold resolveDelegation; cbv zeta. set (d := default MAX_DELEGATION_DEPTH maxDepth).
  destruct (resolve_loop edges start d d [start] start 0) as [r w] eqn:E; simpl.
  apply (resolve_loop_spec edges start d d [] start 0) in E;
    [|done|apply NoDup_singleton|done|done].
  destruct E as (Hc & Hh & Hle & H). split_and!; [lia|done|done|].
  assert (0 < length (path r)) by (destruct (path r); [done|simpl; lia]).
  destruct (status r).
  - destruct H as (? & _ & ? & ?). split_and!; [done|done|lia].
  - by destruct H as (? & ? & _).
  - destruct H as (? & _ & _ & ? & ?). split_and!; [done|done|lia].
Qed.

(** The effective weight of an account is the sum, in iteration order, of the own
    weights forwarded to it, accounts nobody resolves to having no entry; and every own
    weight is forwarded to exactly one account of the result: none is lost or counted
    twice. *)
Theorem effective_weights_partition (own : list (string * number))
    (edges : gmap string string) (maxDepth : option nat) :
  let result := computeEffectiveWeights own edges maxDepth in
  (∀ h, result !! h = if decide (forwarded own edges maxDepth h = []) then None
                      else Some (num_sum (forwarded own edges maxDepth h))) ∧
  own.*2 ≡ₚ (elements (dom result) ≫= forwarded own edges maxDepth).
Proof.
  split.
  - intros h. rewrite effective_weights_spec.
    destruct (forwarded own edges maxDepth h); by case_decide.
  - apply (forwarded_partition own edges maxDepth); [apply NoDup_elements|].
    intros account weight Hin. rewrite elem_of_elements, elem_of_dom, effective_weights_spec.
    destruct (forwarded own edges maxDepth _) eqn:E; [|done].
    assert (weight ∈ forwarded own edges maxDepth
              (holder (resolveDelegation account edges maxDepth).1)) as H.
    { apply list_elem_of_omap. exists (account, weight). split; [done|].
      by rewrite decide_True. }
    rewrite E in H. set_solver.
Qed.
