(* ===== verification/SequenceManager.v ===== *)
(** * Account sequence numbers: [src/src/services/sequence-manager.ts]

    One cached sequence number per account, fetched from Horizon when absent and
    incremented by every later request. Each call runs under the account's mutex, so
    calls on one account are whole steps in some order; the mutex objects themselves
    carry no other state. What Horizon answers is a parameter of each call. *)

From S2P Require Import Prelude.

Local Open Scope Z_scope.

(** [currentSequences] *)
Notation sequences := (gmap string Z).

(** [loadAccount(address)] then [BigInt(account.sequenceNumber())]. *)
Definition horizon_answer := exc Z.

Definition syncSequence (address : string) (horizon : horizon_answer) : M sequences Z := λ s,
  match horizon with
  | Ok ledgerSequence => (Ok ledgerSequence, <[address := ledgerSequence]> s)
  | Throw e => (Throw e, s)
  end.

Definition getNextSequence (address : string) (horizon : horizon_answer) : M sequences Z := λ s,
  try_catch
    (λ s : sequences,
       match s !! address with
       | None =>
           match horizon with
           | Ok ledgerSequence => (Ok ledgerSequence, <[address := ledgerSequence]> s)
           | Throw e => (Throw e, s)
           end
       | Some cachedSequence =>
           (Ok (cachedSequence + 1), <[address := cachedSequence + 1]> s)
       end)
    (λ error s, (Throw error, delete address s)) s.

(** An absent or empty address clears every account. *)
Definition invalidate (address : option string) (s : sequences) : sequences :=
  match address with
  | Some a => if truthy_str a then delete a s else ∅
  | None => ∅
  end.

(** ** Sequences of calls *)

Inductive seq_op :=
| NextSequence (address : string) (horizon : horizon_answer)
| SyncSequence (address : string) (horizon : horizon_answer)
| Invalidate (address : option string).

Definition seq_step (op : seq_op) (s : sequences) : option (string * Z) * sequences :=
  match op with
  | NextSequence a h =>
      let '(r, s') := getNextSequence a h s in
      (match r with Ok n => Some (a, n) | Throw _ => None end, s')
  | SyncSequence a h => (None, (syncSequence a h s).2)
  | Invalidate a => (None, invalidate a s)
  end.

(** The numbers handed out, in order. *)
Fixpoint seq_run (ops : list seq_op) (s : sequences) : list (string * Z) * sequences :=
  match ops with
  | [] => ([], s)
  | op :: ops' =>
      let '(o, s1) := seq_step op s in
      let '(os, s2) := seq_run ops' s1 in (option_list o ++ os, s2)
  end.

Definition issued_to (a : string) (os : list (string * Z)) : list Z :=
  omap (λ '(a', n), if decide (a' = a) then Some n else None) os.

(** Operations that leave the cached number of [a] to the requests for [a]. *)
Definition keeps (a : string) (op : seq_op) : Prop :=
  match op with
  | NextSequence _ _ => True
  | SyncSequence a' _ => a' ≠ a
  | Invalidate (Some a') => a' ≠ a ∧ a' ≠ ""
  | Invalidate None => False
  end.

Lemma issued_to_app a os1 os2 : issued_to a (os1 ++ os2) = issued_to a os1 ++ issued_to a os2.
Proof. apply omap_app. Qed.

Lemma issued_to_other a a' n : a' ≠ a → issued_to a [(a', n)] = [].
Proof. intros. simpl. by rewrite decide_False. Qed.

Lemma seq_step_other a op s :
  keeps a op → (∀ h, op ≠ NextSequence a h) →
  (seq_step op s).2 !! a = s !! a ∧ issued_to a (option_list (seq_step op s).1) = [].
Proof.
  intros Hk Hn. destruct op as [a' h|a' h|[a'|]]; simpl in Hk |- *; [..|done].
  - assert (a' ≠ a) by (intros ->; by apply (Hn h)).
    unfold getNextSequence, try_catch.
    destruct (s !! a') as [n|] eqn:E; [|destruct h as [n|e]];
      (split; [simpl; first [by rewrite lookup_insert_ne|by rewrite lookup_delete_ne]|]);
      [by apply issued_to_other|by apply issued_to_other|done].
  - split; [|done]. unfold syncSequence. destruct h; simpl; [|done].
    by rewrite lookup_insert_ne.
  - destruct Hk. split; [|done]. unfold truthy_str. rewrite bool_decide_true by done.
    by rewrite lookup_delete_ne.
Qed.

Lemma seq_step_next a h s n :
  s !! a = Some n →
  seq_step (NextSequence a h) s = (Some (a, n + 1), <[a := n + 1]> s).
Proof. intros E. simpl. unfold getNextSequence, try_catch. by rewrite E. Qed.

(** From a cached number [n], the requests for [a] get [n + 1], [n + 2], ... *)
Lemma seq_run_consecutive a ops s n :
  Forall (keeps a) ops → s !! a = Some n →
  issued_to a (seq_run ops s).1 =
    (λ i, n + 1 + Z.of_nat i) <$> seq 0 (length (issued_to a (seq_run ops s).1)) ∧
  (seq_run ops s).2 !! a = Some (n + Z.of_nat (length (issued_to a (seq_run ops s).1))).
Proof.
  revert s n. induction ops as [|op ops IH]; intros s n Hk Hs; cbn [seq_run].
  - split; [done|]. simpl. rewrite Hs. f_equal. lia.
  - apply Forall_cons in Hk as [Hk Hks].
    assert ((∃ h, op = NextSequence a h) ∨ ∀ h, op ≠ NextSequence a h) as [[h ->]|Hn].
    { destruct op as [a' h| |]; [|by right..].
      destruct (decide (a' = a)) as [->|]; [by left; exists h|right; congruence]. }
    + rewrite (seq_step_next a h s n Hs).
      destruct (IH (<[a := n + 1]> s) (n + 1) Hks) as [E1 E2]; [by rewrite lookup_insert_eq|].
      destruct (seq_run ops _) as [os s2]; simpl in *. rewrite decide_True by done; simpl.
      split; [|rewrite E2; f_equal; lia].
      f_equal; [lia|]. rewrite E1 at 1. rewrite <-fmap_S_seq, <-list_fmap_compose.
      apply list_fmap_ext. intros i x _. simpl. lia.
    + destruct (seq_step_other a op s Hk Hn) as [E1 E2].
      destruct (seq_step op s) as [o s1]; simpl in *.
      destruct (IH s1 n Hks) as [E3 E4]; [by rewrite E1|].
      destruct (seq_run ops s1) as [os s2]; simpl in *. by rewrite issued_to_app, E2.
Qed.

(** ** Properties *)

(** The first request for an account whose number is not cached gets the ledger's
    number [l], and from then on, whatever other accounts do in between, its requests get
    [l + 1], [l + 2], ...: consecutive numbers, no gap and no repetition, as long as the
    account is neither invalidated nor resynchronised. *)
Theorem sequences_consecutive (a : string) (l : Z) (ops : list seq_op) (s : sequences) :
  s !! a = None → Forall (keeps a) ops →
  let os := (seq_run (NextSequence a (Ok l) :: ops) s).1 in
  issued_to a os = (λ i, l + Z.of_nat i) <$> seq 0 (length (issued_to a os)) ∧
  NoDup (issued_to a os).
Proof.
  intros Hs Hk. cbv zeta. cbn [seq_run seq_step]. unfold getNextSequence, try_catch.
  rewrite Hs.
  destruct (seq_run_consecutive a ops (<[a := l]> s) l Hk) as [E _];
    [by rewrite lookup_insert_eq|].
  destruct (seq_run ops (<[a := l]> s)) as [os s2]; simpl in *. rewrite decide_True by done; simpl.
  assert (l :: issued_to a os =
          (λ i, l + Z.of_nat i) <$> seq 0 (S (length (issued_to a os)))) as E2.
  { simpl. f_equal; [lia|]. rewrite E at 1. rewrite <-fmap_S_seq, <-list_fmap_compose.
    apply list_fmap_ext. intros i x _. simpl. lia. }
  split; [exact E2|]. change (omap _ os) with (issued_to a os). rewrite E2.
  apply NoDup_fmap_2; [intros x y ?; lia|]. apply NoDup_seq.
Qed.

Lemma sequences_consecutive_witness :
  let os := (seq_run (NextSequence "GA" (Ok 41) ::
    [NextSequence "GB" (Ok 7); NextSequence "GA" (Ok 0); NextSequence "GA" (Ok 0)]) ∅).1 in
  issued_to "GA" os = (λ i, 41 + Z.of_nat i) <$> seq 0 (length (issued_to "GA" os)) ∧
  NoDup (issued_to "GA" os).
Proof.
  apply (sequences_consecutive "GA" 41
    [NextSequence "GB" (Ok 7); NextSequence "GA" (Ok 0); NextSequence "GA" (Ok 0)] ∅);
    [done|]. repeat constructor.
Defined.

(** A failed fetch leaves no cached number for the account, passes the error on and
    touches no other account; the next request fetches again. *)
Theorem failed_fetch_recovers (a : string) (e : js_error) (l : Z) (s : sequences) :
  s !! a = None →
  getNextSequence a (Throw e) s = (Throw e, s) ∧
  (getNextSequence a (Ok l) (getNextSequence a (Throw e) s).2).1 = Ok l.
Proof.
  intros Hs. unfold getNextSequence, try_catch. rewrite Hs. simpl.
  rewrite delete_id by done. by rewrite Hs.
Qed.

Lemma failed_fetch_recovers_witness :
  getNextSequence "GA" (Throw (Error "timeout")) ∅ = (Throw (Error "timeout"), ∅) ∧
  (getNextSequence "GA" (Ok 9) (getNextSequence "GA" (Throw (Error "timeout")) ∅).2).1 = Ok 9.
Proof. by apply (failed_fetch_recovers "GA" (Error "timeout") 9 ∅). Defined.
