(* ===== verification/Prisma.v ===== *)
(** * The database client

    The services read and write PostgreSQL tables through the Prisma client. A table is
    modelled by its interface: the operations the sources call, each of which may fail,
    with the documented behaviour of each as the laws of the class [PrismaTable]. A
    failed statement changes nothing; a query without an order returns the rows in any
    order. [gmap_table] is an implementation that shows the laws hold together. *)

From S2P Require Import Prelude.

(** Prisma's code for a violated unique constraint. *)
Definition P2002 : string := "P2002".

Class PrismaTable (K R D : Type) `{Countable K} := {
  (** The rows of the table, under the key the sources use ([@id] or [@@unique]). *)
  rows : D → gmap K R;
  findUnique : K → D → exc (option R);
  (** [findMany] and [SELECT] before their [WHERE], [ORDER BY] and [LIMIT]. *)
  findAll : D → exc (list R);
  count : (R → bool) → D → exc nat;
  (** [create] with a key the database chooses. *)
  create : (K → R) → D → exc R * D;
  (** [create] with a unique key given in the data. *)
  createUnique : K → R → D → exc R * D;
  update : K → (R → R) → D → exc R * D;
  upsert : K → R → (R → R) → D → exc R * D;
  updateMany : (R → bool) → (R → R) → D → exc nat * D;
  deleteMany : (R → bool) → D → exc nat * D;

  findUnique_ok k d o : findUnique k d = Ok o → o = rows d !! k;
  findAll_ok d l : findAll d = Ok l → l ≡ₚ (map_to_list (rows d)).*2;
  count_ok p d n : count p d = Ok n →
    n = length (filter (λ r, p r = true) (map_to_list (rows d)).*2);
  create_ok mk d r d' : create mk d = (Ok r, d') →
    ∃ k, rows d !! k = None ∧ r = mk k ∧ rows d' = <[k := r]> (rows d);
  create_err mk d e d' : create mk d = (Throw e, d') → rows d' = rows d;
  createUnique_ok k r d r' d' : createUnique k r d = (Ok r', d') →
    rows d !! k = None ∧ r' = r ∧ rows d' = <[k := r]> (rows d);
  createUnique_err k r d e d' : createUnique k r d = (Throw e, d') →
    rows d' = rows d ∧ (err_code e = Some P2002 → is_Some (rows d !! k));
  update_ok k f d r d' : update k f d = (Ok r, d') →
    ∃ r0, rows d !! k = Some r0 ∧ r = f r0 ∧ rows d' = <[k := r]> (rows d);
  update_err k f d e d' : update k f d = (Throw e, d') → rows d' = rows d;
  upsert_ok k c f d r d' : upsert k c f d = (Ok r, d') →
    r = match rows d !! k with Some r0 => f r0 | None => c end ∧
    rows d' = <[k := r]> (rows d);
  upsert_err k c f d e d' : upsert k c f d = (Throw e, d') → rows d' = rows d;
  updateMany_ok p f d n d' : updateMany p f d = (Ok n, d') →
    rows d' = (λ r, if p r then f r else r) <$> rows d ∧
    n = length (filter (λ r, p r = true) (map_to_list (rows d)).*2);
  updateMany_err p f d e d' : updateMany p f d = (Throw e, d') → rows d' = rows d;
  deleteMany_ok p d n d' : deleteMany p d = (Ok n, d') →
    rows d' = filter (λ kr, p kr.2 = false) (rows d) ∧
    n = length (filter (λ r, p r = true) (map_to_list (rows d)).*2);
  deleteMany_err p d e d' : deleteMany p d = (Throw e, d') → rows d' = rows d;
}.

(** ** Derived facts: where a statement leaves the table *)

Section derived.
Context {K R D : Type} `{PrismaTable K R D}.

(** An update leaves the other rows alone, whatever its outcome. *)
Lemma update_other k k' f (d : D) : k' ≠ k → rows (update k f d).2 !! k' = rows d !! k'.
Proof.
  intros Hne. destruct (update k f d) as [[r|e] d'] eqn:E; simpl.
  - apply update_ok in E as (r0 & _ & _ & ->). by rewrite lookup_insert_ne.
  - by apply update_err in E as ->.
Qed.

(** What an update may have done to its own row. *)
Lemma update_at k f (d : D) r0 :
  rows d !! k = Some r0 →
  rows (update k f d).2 !! k = Some r0 ∨ rows (update k f d).2 !! k = Some (f r0).
Proof.
  intros Hr. destruct (update k f d) as [[r|e] d'] eqn:E; simpl.
  - apply update_ok in E as (r1 & Hr1 & -> & ->). right. rewrite lookup_insert_eq. congruence.
  - apply update_err in E as ->. by left.
Qed.

Lemma create_keeps mk (d : D) k r :
  rows d !! k = Some r → rows (create mk d).2 !! k = Some r.
Proof.
  intros Hr. destruct (create mk d) as [[r'|e] d'] eqn:E; simpl.
  - apply create_ok in E as (k' & Hn & _ & ->). rewrite lookup_insert_ne; [done|congruence].
  - by apply create_err in E as ->.
Qed.

Lemma updateMany_at p f (d : D) k r0 :
  rows d !! k = Some r0 →
  rows (updateMany p f d).2 !! k = Some r0 ∨
  (p r0 = true ∧ rows (updateMany p f d).2 !! k = Some (f r0)).
Proof.
  intros Hr. destruct (updateMany p f d) as [[n|e] d'] eqn:E; simpl.
  - apply updateMany_ok in E as [-> _]. rewrite lookup_fmap, Hr; simpl.
    destruct (p r0) eqn:Ep; auto.
  - apply updateMany_err in E as ->. by left.
Qed.

(** Statements that never delete keep every row's key. *)
Lemma updateMany_key p f (d : D) k :
  is_Some (rows (updateMany p f d).2 !! k) ↔ is_Some (rows d !! k).
Proof.
  destruct (updateMany p f d) as [[n|e] d'] eqn:E; simpl.
  - apply updateMany_ok in E as [-> _]. by rewrite lookup_fmap, fmap_is_Some.
  - by apply updateMany_err in E as ->.
Qed.

(** [UPDATE ... WHERE ... RETURNING *]: the rows as they are after the update. *)
Definition updateReturning (p : R → bool) (f : R → R) (d : D) : exc (list R) * D :=
  let '(r, d') := updateMany p f d in
  (match r with
   | Ok _ => Ok (f <$> filter (λ r, p r = true) (map_to_list (rows d)).*2)
   | Throw e => Throw e
   end, d').

Lemma updateReturning_final p f (d : D) :
  (updateReturning p f d).2 = (updateMany p f d).2.
Proof. unfold updateReturning. by destruct (updateMany p f d). Qed.
End derived.

(** ** A table in memory *)

Section in_memory.
Context {K R : Type} `{Countable K} `{!Infinite K}.

Definition mem_create (mk : K → R) (m : gmap K R) : exc R * gmap K R :=
  let k := fresh (dom m) in (Ok (mk k), <[k := mk k]> m).

Definition mem_createUnique (k : K) (r : R) (m : gmap K R) : exc R * gmap K R :=
  match m !! k with
  | Some _ => (Throw (mk_error "Unique constraint failed" (Some P2002) None), m)
  | None => (Ok r, <[k := r]> m)
  end.

Definition mem_update (k : K) (f : R → R) (m : gmap K R) : exc R * gmap K R :=
  match m !! k with
  | Some r => (Ok (f r), <[k := f r]> m)
  | None => (Throw (mk_error "Record to update not found" (Some "P2025") None), m)
  end.

Definition mem_upsert (k : K) (c : R) (f : R → R) (m : gmap K R) : exc R * gmap K R :=
  let r := match m !! k with Some r0 => f r0 | None => c end in (Ok r, <[k := r]> m).

Definition count_rows (p : R → bool) (m : gmap K R) : nat :=
  length (filter (λ r, p r = true) (map_to_list m).*2).

#[export] Instance gmap_table : PrismaTable K R (gmap K R).
Proof.
  refine {| rows := id;
    findUnique k m := Ok (m !! k);
    findAll m := Ok (map_to_list m).*2;
    count p m := Ok (count_rows p m);
    create := mem_create;
    createUnique := mem_createUnique;
    update := mem_update;
    upsert := mem_upsert;
    updateMany p f m := (Ok (count_rows p m), (λ r, if p r then f r else r) <$> m);
    deleteMany p m := (Ok (count_rows p m), filter (λ kr, p kr.2 = false) m) |}.
  - by intros k d o [= <-].
  - by intros d l [= <-].
  - by intros p d n [= <-].
  - unfold mem_create. intros mk d r d' [= <- <-]. eexists. split_and!; [|done|done].
    apply not_elem_of_dom. apply is_fresh.
  - by unfold mem_create.
  - unfold mem_createUnique. intros k r d r' d'. destruct (d !! k) eqn:E; [done|].
    by intros [= <- <-].
  - unfold mem_createUnique. intros k r d e d'. destruct (d !! k) as [r0|] eqn:E; [|done].
    intros [= <- <-]. split; [done|]. intros _. exists r0. exact E.
  - unfold mem_update. intros k f d r d'. destruct (d !! k) eqn:E; [|done].
    intros [= <- <-]. eauto.
  - unfold mem_update. intros k f d e d'. destruct (d !! k); [done|]. by intros [= <- <-].
  - unfold mem_upsert. intros k c f d r d' [= <- <-]. done.
  - by unfold mem_upsert.
  - by intros p f d n d' [= <- <-].
  - done.
  - by intros p d n d' [= <- <-].
  - done.
Defined.
End in_memory.

(** ** A table whose server can be down

    While the flag is false every statement fails and changes nothing. *)

Section switched.
Context {K R D : Type} `{PrismaTable K R D}.

Definition unavailable : js_error := mk_error "Can't reach database server" (Some "P1001") None.

Definition when_up {A} (c : D → exc A * D) (s : bool * D) : exc A * (bool * D) :=
  if s.1 then let '(r, d) := c s.2 in (r, (s.1, d)) else (Throw unavailable, s).
Definition ask_up {A} (q : D → exc A) (s : bool * D) : exc A :=
  if s.1 then q s.2 else Throw unavailable.

Lemma when_up_inv {A} (c : D → exc A * D) s r s' :
  when_up c s = (r, s') → c s.2 = (r, s'.2) ∨ (r = Throw unavailable ∧ s' = s).
Proof.
  unfold when_up. destruct s.1; [|intros [= <- <-]; by right].
  destruct (c s.2) as [r0 d0]. intros [= <- <-]. by left.
Qed.

Instance switched_table : PrismaTable K R (bool * D).
Proof.
  refine {| rows s := rows s.2;
    findUnique k := ask_up (findUnique k);
    findAll := ask_up findAll;
    count p := ask_up (count p);
    create mk := when_up (create mk);
    createUnique k r := when_up (createUnique k r);
    update k f := when_up (update k f);
    upsert k c f := when_up (upsert k c f);
    updateMany p f := when_up (updateMany p f);
    deleteMany p := when_up (deleteMany p) |}.
  all: intros *; unfold ask_up.
  - case_match; [apply findUnique_ok|done].
  - case_match; [apply findAll_ok|done].
  - case_match; [apply count_ok|done].
  - intros [E|[? _]]%when_up_inv; [by apply create_ok in E|done].
  - intros [E|[_ ->]]%when_up_inv; [by apply create_err in E|done].
  - intros [E|[? _]]%when_up_inv; [by apply createUnique_ok in E|done].
  - intros [E|[[= ->] ->]]%when_up_inv; [by apply createUnique_err in E|done].
  - intros [E|[? _]]%when_up_inv; [by apply update_ok in E|done].
  - intros [E|[_ ->]]%when_up_inv; [by apply update_err in E|done].
  - intros [E|[? _]]%when_up_inv; [by apply upsert_ok in E|done].
  - intros [E|[_ ->]]%when_up_inv; [by apply upsert_err in E|done].
  - intros [E|[? _]]%when_up_inv; [by apply updateMany_ok in E|done].
  - intros [E|[_ ->]]%when_up_inv; [by apply updateMany_err in E|done].
  - intros [E|[? _]]%when_up_inv; [by apply deleteMany_ok in E|done].
  - intros [E|[_ ->]]%when_up_inv; [by apply deleteMany_err in E|done].
Defined.
End switched.

(** ** Interactive transactions: [prisma.$transaction(async (tx) => ...)]

    A body that throws, or a commit that fails, leaves the database as it was. *)

Class Transactional (D : Type) := { commit : D → exc unit }.

Definition transaction {D A} `{!Transactional D} (body : M D A) : M D A := λ d,
  match body d with
  | (Ok a, d') => match commit d' with Ok _ => (Ok a, d') | Throw e => (Throw e, d) end
  | (Throw e, _) => (Throw e, d)
  end.

Lemma transaction_inv {D A} `{!Transactional D} (body : M D A) d r d' :
  transaction body d = (r, d') →
  (∃ a, r = Ok a ∧ body d = (Ok a, d')) ∨ ((∃ e, r = Throw e) ∧ d' = d).
Proof.
  unfold transaction. destruct (body d) as [[a|e] d0]; [destruct (commit d0)|];
    intros [= <- <-]; eauto.
Qed.
