(* ===== verification/JsString.v ===== *)
(** * Strings

    What the sources use of the standard library's strings, on the ASCII characters. *)

From S2P Require Import Prelude.
From Stdlib Require Import Ascii.

Local Open Scope Z_scope.

Definition lower_ascii (c : Ascii.ascii) : Ascii.ascii :=
  let n := Ascii.nat_of_ascii c in
  if (65 <=? n)%nat && (n <=? 90)%nat then Ascii.ascii_of_nat (n + 32) else c.

Fixpoint toLowerCase (s : string) : string :=
  match s with
  | "" => ""
  | String c s' => String (lower_ascii c) (toLowerCase s')
  end%string.

Definition upper_ascii (c : Ascii.ascii) : Ascii.ascii :=
  let n := Ascii.nat_of_ascii c in
  if (97 <=? n)%nat && (n <=? 122)%nat then Ascii.ascii_of_nat (n - 32) else c.

Fixpoint toUpperCase (s : string) : string :=
  match s with
  | "" => ""
  | String c s' => String (upper_ascii c) (toUpperCase s')
  end%string.

Definition str_includes (s needle : string) : bool :=
  match String.index 0 needle s with Some _ => true | None => false end.

Definition digit_value (c : Ascii.ascii) : option Z :=
  let n := Z.of_nat (Ascii.nat_of_ascii c) in
  if (48 <=? n) && (n <=? 57) then Some (n - 48) else None.

Fixpoint parse_digits (s : string) (acc : option Z) : option Z :=
  match s with
  | "" => acc
  | String c s' =>
      match digit_value c with
      | Some d => parse_digits s' (Some (default 0 acc * 10 + d))
      | None => acc
      end
  end%string.

Fixpoint trim_start (s : string) : string :=
  match s with
  | String c s' =>
      let n := Ascii.nat_of_ascii c in
      if ((n =? 32) || ((9 <=? n) && (n <=? 13)))%nat then trim_start s' else s
  | "" => ""
  end%string.

(** [Number.parseInt(s, 10)], [None] being [NaN]. *)
Definition parseInt10 (s : string) : option Z :=
  match trim_start s with
  | String c s' =>
      if decide (c = "-"%char) then Z.opp <$> parse_digits s' None
      else if decide (c = "+"%char) then parse_digits s' None
      else parse_digits (String c s') None
  | "" => None
  end%string.

(** [s.slice(0, n)] *)
Definition slice_to (n : nat) (s : string) : string := String.substring 0 n s.

Example parse_plain : parseInt10 " 42abc" = Some 42.
Proof. reflexivity. Qed.
Example parse_nan : parseInt10 "abc" = None.
Proof. reflexivity. Qed.
