(* ===== verification/Retry.v ===== *)
(** * Retries of HTTP requests: [src/src/utils/retryUtil.ts]

    [withRetry] with its merged configuration. The request and the [onRetry] callback are
    computations of the caller's state; the wait between attempts is part of the callback,
    which receives the delay. [maxRetries] is a natural number: with a negative setting the
    source's loop body never runs and it throws [undefined]. *)

From S2P Require Import Prelude.

Local Open Scope Z_scope.

Definition DEFAULT_RETRYABLE_STATUS_CODES : list Z := [408; 429; 500; 502; 503; 504].

Record RetryConfig := mkRetryConfig {
  maxRetries : nat;
  retryDelay : Z;
  exponentialBackoff : bool;
  retryableStatusCodes : list Z;
  shouldRetry : option (js_error → bool);
}.

Definition DEFAULT_RETRY_CONFIG : RetryConfig :=
  mkRetryConfig 3 1000 false DEFAULT_RETRYABLE_STATUS_CODES None.

(** Only called on HTTP client errors. *)
Definition shouldRetryError (error : js_error) (config : RetryConfig) : bool :=
  match err_axios error with
  | Some (Some statusCode) => includes (retryableStatusCodes config) statusCode
  | _ => true
  end.

Definition calculateDelay (attempt : nat) (baseDelay : Z) (exponential : bool) : Z :=
  if exponential then baseDelay * 2 ^ (Z.of_nat attempt - 1) else baseDelay.

(** Whether a failed attempt that was not the last one is followed by another. *)
Definition retryable (config : RetryConfig) (error : js_error) : bool :=
  match err_axios error with
  | None => false
  | Some _ =>
      match shouldRetry config with
      | Some f => f error
      | None => shouldRetryError error config
      end
  end.

Section retry.
Context {W A : Type} (config : RetryConfig) (requestFn : M W A)
        (onRetry : nat → js_error → Z → M W unit).

(** [remaining] is [maxRetries - attempt] on entry of the loop body. *)
Fixpoint retry_loop (remaining attempt : nat) : M W A := λ w,
  match requestFn w with
  | (Ok a, w') => (Ok a, w')
  | (Throw error, w') =>
      let attempt' := S attempt in
      match remaining with
      | O => (Throw error, w')
      | S remaining' =>
          if retryable config error then
            (onRetry attempt' error
               (calculateDelay attempt' (retryDelay config) (exponentialBackoff config)) ;;;
             retry_loop remaining' attempt') w'
          else (Throw error, w')
      end
  end.

Definition withRetry : M W A := retry_loop (maxRetries config) 0.

(** A property of the state kept by each attempt and each callback is kept. *)
Lemma withRetry_preserves (P : W → Prop) w :
  (∀ w, P w → P (final requestFn w)) →
  (∀ n e d w, P w → P (final (onRetry n e d) w)) →
  P w → P (final withRetry w).
Proof.
  intros Hr Ho. unfold withRetry. generalize (maxRetries config), 0%nat.
  intros remaining; revert w. induction remaining as [|m IH]; intros w attempt HP;
    pose proof (Hr w HP) as HP1; unfold final in *; simpl;
    destruct (requestFn w) as [[a|e] w1]; simpl in *; try done.
  destruct (retryable config e); [|done]. unfold bind.
  pose proof (Ho (S attempt) e
    (calculateDelay (S attempt) (retryDelay config) (exponentialBackoff config)) w1 HP1) as HP2.
  destruct (onRetry _ _ _ w1) as [[[]|e'] w2]; simpl in *; [|done]. by apply IH.
Qed.
Lemma preserves_withRetry (P : W → Prop) :
  preserves P requestFn → (∀ n e d, preserves P (onRetry n e d)) → preserves P withRetry.
Proof.
  intros Hc Ho. apply preserves_of_final. intros w Hw. apply withRetry_preserves; [| |done].
  - intros w' Hw'. by apply (preserves_final P).
  - intros n e d w' Hw'. by apply (preserves_final P).
Qed.
End retry.

(** ** A scripted server

    The answers the server will give, in order, and the delays waited so far: the state
    in which the number of attempts can be counted. *)
Record script (A : Type) := mkScript { sc_answers : list (exc A); sc_delays : list Z }.
Arguments mkScript {A} _ _.
Arguments sc_answers {A} _.
Arguments sc_delays {A} _.

Definition scripted_request {A} : M (script A) A := λ s,
  match sc_answers s with
  | [] => (Throw (Error "no more answers"), s)
  | r :: rs => (r, mkScript rs (sc_delays s))
  end.

Definition note_delay {A} (n : nat) (e : js_error) (d : Z) : M (script A) unit := λ s,
  (Ok tt, mkScript (sc_answers s) (sc_delays s ++ [d])).

Section scripted.
Context {A : Type} (config : RetryConfig).
Implicit Types (errs : list js_error) (rest : list (exc A)).

Definition delay_of (attempt : nat) : Z :=
  calculateDelay attempt (retryDelay config) (exponentialBackoff config).

(** [k] retryable failures consume [k] answers and [k] waits. *)
Lemma retry_loop_failures remaining attempt errs rest ds :
  Forall (λ e, retryable config e = true) errs → (length errs ≤ remaining)%nat →
  retry_loop config scripted_request note_delay remaining attempt
    (mkScript ((Throw <$> errs) ++ rest) ds) =
  retry_loop config scripted_request note_delay (remaining - length errs) (attempt + length errs)
    (mkScript rest (ds ++ (delay_of <$> seq (S attempt) (length errs)))).
Proof.
  revert remaining attempt ds. induction errs as [|e errs IH]; intros remaining attempt ds Hf Hl;
    simpl in *.
  - by rewrite Nat.sub_0_r, Nat.add_0_r, app_nil_r.
  - destruct remaining as [|m]; [lia|]. apply Forall_cons in Hf as [He Hf]; simpl in He.
    simpl. rewrite He. unfold bind; simpl.
    rewrite IH by (done || lia). rewrite <-app_assoc. simpl.
    by replace (attempt + S (length errs))%nat with (S attempt + length errs)%nat by lia.
Qed.

(** ** Properties *)

(** With a server that fails retryably [k <= maxRetries] times and then answers,
    [withRetry] returns that answer after exactly [k + 1] attempts, having waited the
    [k] configured delays. *)
Theorem withRetry_succeeds errs (a : A) rest ds :
  Forall (λ e, retryable config e = true) errs → (length errs ≤ maxRetries config)%nat →
  withRetry config scripted_request note_delay (mkScript ((Throw <$> errs) ++ Ok a :: rest) ds) =
  (Ok a, mkScript rest (ds ++ (delay_of <$> seq 1 (length errs)))).
Proof.
  intros Hf Hl. unfold withRetry. rewrite retry_loop_failures by done.
  by destruct (maxRetries config - length errs)%nat.
Qed.

(** With a server that keeps failing retryably, [withRetry] makes exactly
    [maxRetries + 1] attempts and throws the last error. *)
Theorem withRetry_exhausts errs (e : js_error) rest ds :
  Forall (λ e, retryable config e = true) errs → length errs = maxRetries config →
  withRetry config scripted_request note_delay
    (mkScript ((Throw <$> errs) ++ Throw e :: rest) ds) =
  (Throw e, mkScript rest (ds ++ (delay_of <$> seq 1 (length errs)))).
Proof.
  intros Hf Hl. unfold withRetry. rewrite retry_loop_failures by (done || lia).
  by rewrite Hl, Nat.sub_diag.
Qed.

(** An error that may not be retried is thrown at once. *)
Lemma withRetry_gives_up (e : js_error) rest ds :
  retryable config e = false →
  withRetry config scripted_request note_delay (mkScript (Throw e :: rest) ds) =
  (Throw e, mkScript rest ds).
Proof. intros He. unfold withRetry. destruct (maxRetries config); simpl; [done|]. by rewrite He. Qed.
End scripted.

Definition server_error : js_error := mk_error "503" None (Some (Some 503)).

Lemma withRetry_succeeds_witness :
  withRetry DEFAULT_RETRY_CONFIG scripted_request note_delay
    (mkScript [Throw server_error; Throw server_error; Ok 5] []) =
  (Ok 5, mkScript [] [1000; 1000]).
Proof.
  apply (withRetry_succeeds DEFAULT_RETRY_CONFIG [server_error; server_error] 5 [] []);
    [by repeat constructor|simpl; lia].
Defined.

Lemma withRetry_exhausts_witness :
  withRetry DEFAULT_RETRY_CONFIG scripted_request note_delay
    (mkScript [Throw server_error; Throw server_error; Throw server_error; Throw server_error;
               Ok 5] []) =
  (Throw server_error, mkScript [Ok 5] [1000; 1000; 1000]).
Proof.
  apply (withRetry_exhausts DEFAULT_RETRY_CONFIG [server_error; server_error; server_error]
    server_error [Ok 5] []); [by repeat constructor|done].
Defined.
