(* ===== verification/Service.v ===== *)
(** * What the services run in

    A service call reads and writes the database and talks to the outside world: it
    reads the clock, sends HTTP requests and waits. The outside world is the class
    [Outside]; nothing is assumed of it, so a request may fail in any way and at any
    time. *)

From S2P Require Import Prelude.

Class Outside (H P : Type) := {
  (** [Date.now()], and the time of [new Date()] *)
  now : H → Z;
  (** [httpClient.post(url, payload, ...)] *)
  http_post : string → P → M H unit;
  (** [await delay(ms)] *)
  wait : Z → H → H;
}.

Record svc (D H : Type) := mkSvc { svc_db : D; svc_env : H }.
Arguments mkSvc {D H} _ _.
Arguments svc_db {D H} _.
Arguments svc_env {D H} _.

Section lifting.
Context {D H : Type}.

(** A statement run on the database. *)
Definition on_db {A} (c : M D A) : M (svc D H) A := λ w,
  let '(r, d) := c (svc_db w) in (r, mkSvc d (svc_env w)).

(** A query. *)
Definition query {A} (q : D → exc A) : M (svc D H) A := λ w, (q (svc_db w), w).

(** An effect on the outside world only. *)
Definition on_env {A} (c : M H A) : M (svc D H) A := λ w,
  let '(r, h) := c (svc_env w) in (r, mkSvc (svc_db w) h).

Lemma on_env_db {A} (c : M H A) w : svc_db (final (on_env c) w) = svc_db w.
Proof. unfold final, on_env. by destruct (c (svc_env w)). Qed.

Lemma wp_query {A} (q : D → exc A) Q E (w : svc D H) :
  (∀ a, q (svc_db w) = Ok a → Q a w) → (∀ e, E e w) → wp (query q) Q E w.
Proof. unfold wp, query. destruct (q (svc_db w)); eauto. Qed.
Lemma wp_on_env {A} (c : M H A) Q E (w : svc D H) :
  (∀ a h, Q a (mkSvc (svc_db w) h)) → (∀ e h, E e (mkSvc (svc_db w) h)) →
  wp (on_env c) Q E w.
Proof. unfold wp, on_env. destruct (c (svc_env w)) as [[a|e] h]; eauto. Qed.
Lemma wp_on_db {A} (c : M D A) Q E (w : svc D H) :
  (∀ a d, c (svc_db w) = (Ok a, d) → Q a (mkSvc d (svc_env w))) →
  (∀ e d, c (svc_db w) = (Throw e, d) → E e (mkSvc d (svc_env w))) →
  wp (on_db c) Q E w.
Proof. unfold wp, on_db. destruct (c (svc_db w)) as [[a|e] d]; eauto. Qed.

Lemma preserves_query {A} (P : svc D H → Prop) (q : D → exc A) : preserves P (query q).
Proof. intros w Hw. by apply wp_query. Qed.

(** Effects outside leave every property of the database. *)
Lemma preserves_on_env {A} (P : D → Prop) (c : M H A) : preserves (λ w, P (svc_db w)) (on_env c).
Proof. intros w Hw. by apply wp_on_env. Qed.

Lemma preserves_on_db {A} (P : D → Prop) (c : M D A) :
  (∀ d r d', P d → c d = (r, d') → P d') → preserves (λ w, P (svc_db w)) (on_db c).
Proof. intros Hc w Hw. apply wp_on_db; intros ? d E; by eapply Hc. Qed.
End lifting.

#[export] Hint Resolve preserves_query preserves_on_env : sf.

(** A database of two tables. *)
Section tables.
Context {D1 D2 : Type}.

Definition on_fst {A} (c : M D1 A) : M (D1 * D2) A := λ d,
  let '(r, d1) := c d.1 in (r, (d1, d.2)).
Definition on_snd {A} (c : M D2 A) : M (D1 * D2) A := λ d,
  let '(r, d2) := c d.2 in (r, (d.1, d2)).

Lemma on_fst_inv {A} (c : M D1 A) d r d' :
  on_fst c d = (r, d') → c d.1 = (r, d'.1) ∧ d'.2 = d.2.
Proof. unfold on_fst. destruct (c d.1). by intros [= -> <-]. Qed.
Lemma on_snd_inv {A} (c : M D2 A) d r d' :
  on_snd c d = (r, d') → c d.2 = (r, d'.2) ∧ d'.1 = d.1.
Proof. unfold on_snd. destruct (c d.2). by intros [= -> <-]. Qed.
End tables.


(** A world whose requests all succeed and whose clock counts the time waited. *)
#[export] Instance quiet_outside (P : Type) : Outside Z P := {|
  now t := t;
  http_post _ _ := ret tt;
  wait ms t := (t + ms)%Z;
|}.
