(* ===== verification/Async.v ===== *)
(** * Asynchronous calls

    An [async] function runs from one [await] to the next without interruption, and between
    them every other call in flight may take its own steps. [prog] is such a function as the
    sequence of its statements; [run] runs it alone, as a function of the monad of
    [Prelude]; [step] is one step of all calls in flight, in any order, among which new calls
    may arrive and the outside world may change. [guarantee] is the logic that carries a
    property of single statements over to every interleaving of any number of calls. *)

From S2P Require Import Prelude.

Inductive prog (W A : Type) : Type :=
| Done (r : exc A)
| Await {B : Type} (c : M W B) (k : exc B → prog W A).
Arguments Done {W A} _.
Arguments Await {W A B} _ _.

Section prog.
Context {W : Type}.

(** [await c], of one statement *)
Definition await {A} (c : M W A) : prog W A := Await c Done.
Definition pret {A} (a : A) : prog W A := Done (Ok a).
Definition pthrow {A} (e : js_error) : prog W A := Done (Throw e).

Fixpoint pbind {A B} (p : prog W A) (f : A → prog W B) : prog W B :=
  match p with
  | Done (Ok a) => f a
  | Done (Throw e) => Done (Throw e)
  | Await c k => Await c (λ r, pbind (k r) f)
  end.
(** [try p catch h] *)
Fixpoint pcatch {A} (p : prog W A) (h : js_error → prog W A) : prog W A :=
  match p with
  | Done (Ok a) => Done (Ok a)
  | Done (Throw e) => h e
  | Await c k => Await c (λ r, pcatch (k r) h)
  end.
(** [try p finally c] *)
Fixpoint pfinally {A} (p : prog W A) (c : prog W unit) : prog W A :=
  match p with
  | Done r => pbind c (λ _, Done r)
  | Await s k => Await s (λ r, pfinally (k r) c)
  end.
(** [for (const x of l) body], with [await]s in the body *)
Fixpoint pfor {A} (l : list A) (body : A → prog W unit) : prog W unit :=
  match l with
  | [] => pret tt
  | x :: l' => pbind (body x) (λ _, pfor l' body)
  end.
(** Two calls under way at once, and [Promise.allSettled] of any number: whenever each has a
    statement to go on with, [turn] says which one does. *)
Section parallel.
Context (turn : W → bool).
Fixpoint par {A B} (p : prog W A) : prog W B → prog W (exc A * exc B) :=
  fix par_with (q : prog W B) : prog W (exc A * exc B) :=
    match p, q with
    | Done r, Done r' => pret (r, r')
    | Await c k, Done r' => Await c (λ r, par (k r) (Done r'))
    | Done r, Await c k => Await c (λ r', par_with (k r'))
    | Await c k, Await c' k' =>
        Await (λ w, (Ok (turn w), w)) (λ b, match b with
          | Ok true => Await c (λ r, par (k r) q)
          | _ => Await c' (λ r', par_with (k' r'))
          end)
    end.
Fixpoint settle_all {A} (ps : list (prog W A)) : prog W (list (exc A)) :=
  match ps with
  | [] => pret []
  | p :: ps' => pbind (par p (settle_all ps')) (λ rs, pret (rs.1 :: match rs.2 with Ok l => l | Throw _ => [] end))
  end.
End parallel.
Definition pmap {A B} (f : A → B) (p : prog W A) : prog W B := pbind p (λ a, pret (f a)).
(** A call whose answer is not of interest *)
Definition forget {A} (p : prog W A) : prog W unit := pmap (λ _, tt) p.
End prog.

Notation "x <~ p ;; k" := (pbind p (λ x, k))
  (at level 60, p at next level, right associativity) : js_scope.
Notation "p ;~ k" := (pbind p (λ _, k))
  (at level 60, right associativity) : js_scope.

(** ** A call alone *)

Fixpoint run {W A} (p : prog W A) : M W A :=
  match p with
  | Done r => lift_exc r
  | Await c k => λ w, run (k (outcome c w)) (final c w)
  end.

Section alone.
Context {W : Type}.

Lemma run_await {A} (c : M W A) w : run (await c) w = c w.
Proof. unfold outcome, final, lift_exc. simpl. unfold outcome, final, lift_exc. by destruct (c w). Qed.
Lemma run_pbind {A B} (p : prog W A) (f : A → prog W B) w :
  run (pbind p f) w = bind (run p) (λ a, run (f a)) w.
Proof.
  revert w. induction p as [[a|e]|B' c k IH]; intros w; [done..|]. simpl. rewrite IH. unfold bind. done.
Qed.
Lemma run_forget_ok {A} (p : prog W A) w a w' : run p w = (Ok a, w') → run (forget p) w = (Ok tt, w').
Proof. intros Hr. unfold forget, pmap. rewrite run_pbind. unfold bind. by rewrite Hr. Qed.
Lemma run_pcatch {A} (p : prog W A) h w :
  run (pcatch p h) w = try_catch (run p) (λ e, run (h e)) w.
Proof.
  revert w. induction p as [[a|e]|B' c k IH]; intros w; [done..|]. simpl. rewrite IH. done.
Qed.
Lemma run_pfinally {A} (p : prog W A) c w :
  run (pfinally p c) w = let '(r, w1) := run p w in
    match run c w1 with (Ok _, w2) => (r, w2) | (Throw e, w2) => (Throw e, w2) end.
Proof.
  revert w. induction p as [r|B' s k IH]; intros w; [|apply IH].
  simpl. rewrite run_pbind. unfold bind, lift_exc. by destruct (run c w) as [[[]|e] w2].
Qed.

Lemma wp_pbind {A B} (p : prog W A) (f : A → prog W B) Q E w :
  wp (run p) (λ a, wp (run (f a)) Q E) E w → wp (run (pbind p f)) Q E w.
Proof. intros Hp. unfold wp. rewrite run_pbind. by apply (wp_bind (run p)). Qed.
Lemma wp_pcatch {A} (p : prog W A) h Q E w :
  wp (run p) Q (λ e, wp (run (h e)) Q E) w → wp (run (pcatch p h)) Q E w.
Proof. intros Hp. unfold wp. rewrite run_pcatch. by apply (wp_try_catch (run p)). Qed.
Lemma wp_await {A} (c : M W A) Q E w : wp c Q E w → wp (run (await c)) Q E w.
Proof. intros Hc. unfold wp. by rewrite run_await. Qed.
Lemma wp_sync {A B} (r : exc A) (f : A → prog W B) Q E w :
  (∀ a, r = Ok a → wp (run (f a)) Q E w) → (∀ e, r = Throw e → E e w) → wp (run (pbind (Done r) f)) Q E w.
Proof. intros Hf He. destruct r as [a|e]; [exact (Hf a eq_refl)|exact (He e eq_refl)]. Qed.
End alone.

(** ** Statements and answers

    [every S p]: each statement of [p] changes the state as [S] says, from any state;
    [returns P p]: what [p] returns, whatever its statements answer, satisfies [P]. *)

Fixpoint every {W A} (S : relation W) (p : prog W A) : Prop :=
  match p with
  | Done _ => True
  | Await c k => ∀ w, S w (final c w) ∧ every S (k (outcome c w))
  end.
Fixpoint returns {W A} (P : A → Prop) (p : prog W A) : Prop :=
  match p with
  | Done (Ok a) => P a
  | Done (Throw _) => True
  | Await c k => ∀ r, returns P (k r)
  end.

Section every.
Context {W : Type} (S : relation W).
Lemma every_await {A} (c : M W A) : (∀ w, S w (final c w)) → every S (await c).
Proof. intros Hc w. by split. Qed.
Lemma every_sync {A B} (r : exc A) (f : A → prog W B) :
  (∀ a, r = Ok a → every S (f a)) → every S (pbind (Done r) f).
Proof. intros Hf. destruct r as [a|e]; [exact (Hf a eq_refl)|done]. Qed.
Lemma every_bind {A B} (p : prog W A) (f : A → prog W B) :
  every S p → (∀ a, every S (f a)) → every S (pbind p f).
Proof.
  intros Hp Hf. induction p as [[a|e]|B' c k IH]; simpl in *; [done..|].
  intros w. destruct (Hp w). auto.
Qed.
Lemma every_par {A B} turn (p : prog W A) (q : prog W B) `{!Reflexive S} :
  every S p → every S q → every S (par turn p q).
Proof.
  revert q. induction p as [r|B1 c k IH]; intros q Hp Hq.
  - induction q as [r'|B2 c' k' IHq]; simpl in *; [done|]. intros w. destruct (Hq w). auto.
  - induction q as [r'|B2 c' k' IHq]; simpl in *; [intros w; destruct (Hp w); auto|].
    intros w. split; [done|]. destruct (turn w); cbn.
    + intros w'. destruct (Hp w'). auto.
    + intros w'. destruct (Hq w'). auto.
Qed.
Lemma every_done {A} (r : exc A) : every S (Done r).
Proof. done. Qed.
Lemma every_catch {A} (p : prog W A) h : every S p → (∀ e, every S (h e)) → every S (pcatch p h).
Proof.
  intros Hp Hh. induction p as [[a|e]|B c k IH]; simpl in *; [done..|]. intros w. destruct (Hp w). auto.
Qed.
Lemma every_finally {A} (p : prog W A) c : every S p → every S c → every S (pfinally p c).
Proof.
  intros Hp Hc. induction p as [r|B s k IH]; simpl in *; [by apply every_bind|]. intros w. destruct (Hp w). auto.
Qed.
Lemma every_settle {A} turn (ps : list (prog W A)) `{!Reflexive S} :
  (∀ p, p ∈ ps → every S p) → every S (settle_all turn ps).
Proof.
  intros Hps. induction ps as [|p ps IH]; cbn [settle_all]; [done|]. apply every_bind; [|done].
  apply every_par; [done|apply Hps; by left|]. apply IH. intros q Hq. apply Hps. by right.
Qed.
Lemma run_every {A} (p : prog W A) w `{!PreOrder S} : every S p → S w (final (run p) w).
Proof.
  revert w. induction p as [r|B c k IH]; intros w Hp; simpl in *; [done|]. destruct (Hp w) as [H1 H2].
  etrans; [exact H1|]. by apply IH.
Qed.
(** One statement among those of another call: what comes before and after it. *)
Lemma run_par_one {A B C} turn (p : prog W A) (c : M W B) (k' : exc B → prog W C) w `{!PreOrder S} :
  (∀ r, ∃ r', k' r = Done r') → every S p →
  ∃ w1, S w w1 ∧ S (final c w1) (final (run (par turn p (Await c k'))) w).
Proof.
  intros Hk. revert w. induction p as [r|B1 c1 k IH]; intros w Hp.
  - exists w. split; [done|]. destruct (Hk (outcome c w)) as [r' Er].
    change (S (final c w) (final (run (par turn (Done r) (k' (outcome c w)))) (final c w))). by rewrite Er.
  - cbn [par run]. unfold final at 2, outcome at 1. cbn [fst snd]. destruct (turn w) eqn:E.
    + destruct (Hp w) as [H1 H2]. destruct (IH _ (final c1 w) H2) as (w1 & Hw1 & Hw2). exists w1.
      split; [by etrans|exact Hw2].
    + exists w. split; [done|]. destruct (Hk (outcome c w)) as [r' Er].
      change (S (final c w) (final (run (par turn (Await c1 k) (k' (outcome c w)))) (final c w))). rewrite Er.
      refine (run_every _ _ _). apply every_par; [apply _|exact Hp|done].
Qed.
Lemma returns_bind {A B} (P : B → Prop) (p : prog W A) (f : A → prog W B) :
  (∀ a, returns P (f a)) → returns P (pbind p f).
Proof. intros Hf. induction p as [[a|e]|B' c k IH]; simpl; [apply Hf|done|]. intros r. apply IH. Qed.
End every.

(** [yields P p]: what [p] returns satisfies [P], whatever the states its statements run in. *)
Fixpoint yields {W A} (P : A → Prop) (p : prog W A) : Prop :=
  match p with
  | Done (Ok a) => P a
  | Done (Throw _) => True
  | Await c k => ∀ w, yields P (k (outcome c w))
  end.
Lemma yields_await {W A} (P : A → Prop) (c : M W A) : (∀ w a w', c w = (Ok a, w') → P a) → yields P (await c).
Proof.
  intros Hc w. unfold outcome. destruct (c w) as [[a|e] w'] eqn:E; [by eapply Hc|done].
Qed.
Lemma yields_bind {W A B} (Q : A → Prop) (P : B → Prop) (p : prog W A) (f : A → prog W B) :
  yields Q p → (∀ a, Q a → yields P (f a)) → yields P (pbind p f).
Proof. intros Hp Hf. induction p as [[a|e]|B' c k IH]; simpl in *; [by apply Hf|done|]. intros w. by apply IH. Qed.
Lemma yields_catch {W A} (P : A → Prop) (p : prog W A) h : yields P p → (∀ e, yields P (h e)) → yields P (pcatch p h).
Proof. intros Hp Hh. induction p as [[a|e]|B' c k IH]; simpl in *; [done|apply Hh|]. intros w. by apply IH. Qed.
Lemma yields_mono {W A} (P P' : A → Prop) (p : prog W A) : yields P p → (∀ a, P a → P' a) → yields P' p.
Proof. intros Hp HP. induction p as [[a|e]|B c k IH]; simpl in *; auto. Qed.
Lemma yields_true {W A} (p : prog W A) : yields (λ _, True) p.
Proof. induction p as [[a|e]|B c k IH]; simpl; [done|done|]. intros w. apply IH. Qed.
Definition ok_satisfies {A} (P : A → Prop) (r : exc A) : Prop := match r with Ok a => P a | Throw _ => True end.
Lemma yields_done {W A} (P : A → Prop) (r : exc A) : ok_satisfies P r → yields (W := W) P (Done r).
Proof. by destruct r. Qed.
Lemma yields_par {W A B} turn (P : A → Prop) (Q : B → Prop) (p : prog W A) (q : prog W B) :
  yields P p → yields Q q → yields (λ rs, ok_satisfies P rs.1 ∧ ok_satisfies Q rs.2) (par turn p q).
Proof.
  revert q. induction p as [r|B1 c k IH]; intros q Hp Hq.
  - induction q as [r'|B2 c' k' IHq]; simpl in *; [by destruct r, r'|]. intros w. by apply IHq.
  - induction q as [r'|B2 c' k' IHq]; simpl in *; [intros w; by apply IH|].
    intros w. cbv [outcome fst]. destruct (turn w); cbn; intros w'; [by apply IH|by apply IHq].
Qed.
Lemma yields_settle {W A} turn (P : A → Prop) (ps : list (prog W A)) :
  (∀ p, p ∈ ps → yields P p) → yields (Forall (ok_satisfies P)) (settle_all turn ps).
Proof.
  intros Hps. induction ps as [|p ps IH]; cbn [settle_all]; [constructor|].
  eapply yields_bind; [apply yields_par; [apply Hps; by left|apply IH; intros q Hq; apply Hps; by right]|].
  intros [r [l|e]] [Hr Hl]; by constructor.
Qed.
Lemma yields_run {W A} (P : A → Prop) (p : prog W A) w a w' : yields P p → run p w = (Ok a, w') → P a.
Proof.
  revert w. induction p as [[b|e]|B c k IH]; intros w Hp; simpl in *; [by intros [= <- _]|done|]. intros Hr. by eapply IH.
Qed.

(** A call on its own, statement by statement. *)
Inductive alone {W A} : prog W A * W → prog W A * W → Prop :=
| alone_step {B} (c : M W B) k w : alone (Await c k, w) (k (outcome c w), final c w).
Lemma alone_run {W A} (p : prog W A) w r w' : run p w = (r, w') → rtc alone (p, w) (Done r, w').
Proof.
  revert w. induction p as [r0|B c k IH]; intros w; simpl; [by intros [= <- <-]|].
  intros Hr. eapply rtc_l; [constructor|]. by apply IH.
Qed.
Lemma alone_bind {W A B} (p q : prog W A) (f : A → prog W B) w w' :
  rtc alone (p, w) (q, w') → rtc alone (pbind p f, w) (pbind q f, w').
Proof.
  intros Hr. refine (rtc_congruence (λ s, (pbind s.1 f, s.2)) alone (R := alone) _ _ _ Hr).
  intros s1 s2 Hs. destruct Hs. constructor.
Qed.
Lemma alone_catch {W A} (p q : prog W A) h w w' :
  rtc alone (p, w) (q, w') → rtc alone (pcatch p h, w) (pcatch q h, w').
Proof.
  intros Hr. refine (rtc_congruence (λ s, (pcatch s.1 h, s.2)) alone (R := alone) _ _ _ Hr).
  intros s1 s2 Hs. destruct Hs. constructor.
Qed.

(** ** All calls in flight *)

Section pool.
Context {W A : Type}.
(** The calls that may arrive, and what else may happen. *)
Context (calls : prog W A → Prop) (env : relation W).

Inductive step : list (prog W A) * W → list (prog W A) * W → Prop :=
| step_resume ps w i B (c : M W B) k :
    ps !! i = Some (Await c k) → step (ps, w) (<[i := k (outcome c w)]> ps, final c w)
| step_call ps w p : calls p → step (ps, w) (ps ++ [p], w)
| step_env ps w w' : env w w' → step (ps, w) (ps, w').

(** The calls resumed in the given order. *)
Fixpoint schedule (order : list nat) (ps : list (prog W A)) (w : W) : list (prog W A) * W :=
  match order with
  | [] => (ps, w)
  | i :: order' =>
      match ps !! i with
      | Some (Await c k) => schedule order' (<[i := k (outcome c w)]> ps) (final c w)
      | _ => schedule order' ps w
      end
  end.

Lemma schedule_steps order ps w : rtc step (ps, w) (schedule order ps w).
Proof.
  revert ps w. induction order as [|i order IH]; intros ps w; simpl; [done|].
  destruct (ps !! i) as [[r|B c k]|] eqn:E; [apply IH| |apply IH].
  eapply rtc_l; [by apply step_resume|apply IH].
Qed.

Lemma schedule_app o1 o2 ps w :
  schedule (o1 ++ o2) ps w = let '(ps', w') := schedule o1 ps w in schedule o2 ps' w'.
Proof.
  revert ps w. induction o1 as [|i o1 IH]; intros ps w; [done|]. cbn [app schedule].
  by destruct (ps !! i) as [[r|B c k]|]; rewrite IH.
Qed.

(** A call that is not interrupted runs as [run] says. *)
Fixpoint steps_alone (p : prog W A) (w : W) : nat :=
  match p with
  | Done _ => 0
  | Await c k => S (steps_alone (k (outcome c w)) (final c w))
  end.
Lemma schedule_alone i ps p w : ps !! i = Some p →
  schedule (replicate (steps_alone p w) i) ps w = (<[i := Done (outcome (run p) w)]> ps, final (run p) w).
Proof.
  revert ps w. induction p as [r|B c k IH]; intros ps w Hp; simpl.
  - by rewrite list_insert_id.
  - rewrite Hp. rewrite IH.
    + by rewrite list_insert_insert_eq.
    + rewrite list_lookup_insert_eq; [done|by eapply lookup_lt_Some].
Qed.

(** ... be it under way or new. *)
Lemma finish_alone ps1 p ps2 w r w' : run p w = (r, w') →
  rtc step (ps1 ++ p :: ps2, w) (ps1 ++ Done r :: ps2, w').
Proof.
  intros Hr. pose proof (schedule_alone (length ps1) (ps1 ++ p :: ps2) p w
    (list_lookup_middle ps1 ps2 p _ eq_refl)) as E.
  rewrite (insert_app_r_alt ps1), Nat.sub_diag in E by lia. unfold outcome, final in E. rewrite Hr in E.
  exact (eq_ind _ (rtc step _) (schedule_steps _ _ _) _ E).
Qed.
(** Some statements of a call, while the others wait. *)
Lemma alone_steps ps1 p q ps2 w w' : rtc alone (p, w) (q, w') → rtc step (ps1 ++ p :: ps2, w) (ps1 ++ q :: ps2, w').
Proof.
  intros Hr. refine (rtc_congruence (λ s, (ps1 ++ s.1 :: ps2, s.2)) step (R := alone) _ _ _ Hr).
  intros s1 s2 Hs. destruct Hs as [B c k w0]. simpl.
  replace (ps1 ++ k (outcome c w0) :: ps2) with (<[length ps1 := k (outcome c w0)]> (ps1 ++ Await c k :: ps2))
    by by rewrite (insert_app_r_alt ps1), Nat.sub_diag by lia.
  by apply step_resume, list_lookup_middle.
Qed.
(** The first part of a call, with the rest left to do. *)
Lemma prefix_alone {B C} ps1 (p : prog W B) (f : B → prog W C) (g : C → prog W A) ps2 w b w' :
  run p w = (Ok b, w') → rtc step (ps1 ++ pbind (pbind p f) g :: ps2, w) (ps1 ++ pbind (f b) g :: ps2, w').
Proof. intros Hr. apply alone_steps, (alone_bind (pbind p f) (f b)), (alone_bind p (Done (Ok b))). by apply alone_run. Qed.
Lemma call_alone ps p w r w' : calls p → run p w = (r, w') → rtc step (ps, w) (ps ++ [Done r], w').
Proof. intros Hp Hr. eapply rtc_l; [by apply step_call|]. by apply finish_alone. Qed.
Lemma run_reachable p w : calls p →
  rtc step ([], w) ([Done (outcome (run p) w)], final (run p) w).
Proof. intros Hp. apply (call_alone [] p); [done|]. unfold outcome, final. by destruct (run p w). Qed.
End pool.

(** The given calls, each made when the one before has ended. *)
Fixpoint run_in_turn {W A} (l : list (prog W A)) (w : W) : list (prog W A) * W :=
  match l with
  | [] => ([], w)
  | p :: l' =>
      let '(r, w1) := run p w in
      let '(ps, w2) := run_in_turn l' w1 in (Done r :: ps, w2)
  end.
Lemma run_in_turn_steps {W A} (calls : prog W A → Prop) env l ps w :
  Forall calls l → rtc (step calls env) (ps, w) (ps ++ (run_in_turn l w).1, (run_in_turn l w).2).
Proof.
  intros Hl. revert ps w. induction Hl as [|p l Hp _ IH]; intros ps w; simpl; [by rewrite app_nil_r|].
  destruct (run p w) as [r w1] eqn:E. specialize (IH (ps ++ [Done r]) w1).
  destruct (run_in_turn l w1) as [ps2 w2]. simpl in *. rewrite <-app_assoc in IH.
  etrans; [by eapply call_alone|exact IH].
Qed.

(** ** The logic of interleavings

    [I] holds of the state at all times; [R] is what every statement, of any call, may do to
    it. [guarantee Pre p Post]: each statement of [p], run in a state that others have
    changed by [R] since the statement before, keeps [I] and does no more than [R], and [p]
    ends as [Post] says. *)

Section logic.
Context {W : Type} (I : W → Prop) (R : relation W) `{!PreOrder R}.

Fixpoint guarantee {A} (Pre : W → Prop) (p : prog W A) (Post : exc A → W → Prop) : Prop :=
  match p with
  | Done r => ∀ w, I w → Pre w → Post r w
  | Await c k => ∀ w, I w → Pre w →
      I (final c w) ∧ R w (final c w) ∧ guarantee (R (final c w)) (k (outcome c w)) Post
  end.

Lemma guarantee_pre {A} (Pre Pre' : W → Prop) (p : prog W A) Post :
  guarantee Pre p Post → (∀ w, I w → Pre' w → Pre w) → guarantee Pre' p Post.
Proof. destruct p; simpl; eauto. Qed.
Lemma guarantee_post {A} Pre (p : prog W A) (Post Post' : exc A → W → Prop) :
  guarantee Pre p Post → (∀ r w, I w → Post r w → Post' r w) → guarantee Pre p Post'.
Proof.
  intros Hp Hpost. revert Pre Hp. induction p as [r|B c k IH]; intros Pre Hp; simpl in *; [by eauto|].
  intros w HI Hw. destruct (Hp w HI Hw) as (? & ? & ?). eauto.
Qed.
(** The state in which the rest runs, fixed. *)
Lemma guarantee_at {A} (Pre : W → Prop) (p : prog W A) Post :
  (∀ w, I w → Pre w → guarantee (R w) p Post) → guarantee Pre p Post.
Proof.
  intros Hp. destruct p as [r|B c k]; simpl in *; intros w HI Hw; by apply (Hp w).
Qed.
Lemma guarantee_ret {A} (Pre : W → Prop) (a : A) (Post : exc A → W → Prop) :
  (∀ w, I w → Pre w → Post (Ok a) w) → guarantee Pre (pret a) Post.
Proof. done. Qed.
Lemma guarantee_throw {A} (Pre : W → Prop) e (Post : exc A → W → Prop) :
  (∀ w, I w → Pre w → Post (Throw e) w) → guarantee Pre (pthrow e) Post.
Proof. done. Qed.
Lemma guarantee_await {A} (Pre : W → Prop) (c : M W A) (Post : exc A → W → Prop) :
  (∀ w, I w → Pre w → I (final c w) ∧ R w (final c w) ∧
     ∀ w', I w' → R (final c w) w' → Post (outcome c w) w') → guarantee Pre (await c) Post.
Proof. done. Qed.
(** A statement that does not change the state. *)
Lemma guarantee_read {A} (Pre : W → Prop) (c : M W A) (Post : exc A → W → Prop) :
  (∀ w, final c w = w) →
  (∀ w w', I w → Pre w → R w w' → I w' → Post (outcome c w) w') → guarantee Pre (await c) Post.
Proof. intros Hc Hp. apply guarantee_await. intros w HI Hw. rewrite Hc. split_and!; [done..|]. eauto. Qed.
Lemma guarantee_bind {A B} (Pre : W → Prop) (p : prog W A) (f : A → prog W B) (Post : exc B → W → Prop) :
  guarantee Pre p (λ r w, match r with Ok a => guarantee (R w) (f a) Post | Throw e => Post (Throw e) w end) →
  guarantee Pre (pbind p f) Post.
Proof.
  revert Pre. induction p as [[a|e]|B' c k IH]; intros Pre Hp; simpl in *; [by apply guarantee_at|done|].
  intros w HI Hw. destruct (Hp w HI Hw) as (? & ? & ?). eauto.
Qed.
Lemma guarantee_sync {A B} (Pre : W → Prop) (r : exc A) (f : A → prog W B) (Post : exc B → W → Prop) :
  (∀ a, r = Ok a → guarantee Pre (f a) Post) → (∀ e w, r = Throw e → I w → Pre w → Post (Throw e) w) →
  guarantee Pre (pbind (Done r) f) Post.
Proof. intros Hf He. destruct r as [a|e]; [exact (Hf a eq_refl)|]. intros w. by apply He. Qed.
Lemma guarantee_catch {A} (Pre : W → Prop) (p : prog W A) h (Post : exc A → W → Prop) :
  guarantee Pre p (λ r w, match r with Ok a => Post (Ok a) w | Throw e => guarantee (R w) (h e) Post end) →
  guarantee Pre (pcatch p h) Post.
Proof.
  revert Pre. induction p as [[a|e]|B' c k IH]; intros Pre Hp; simpl in *; [done|by apply guarantee_at|].
  intros w HI Hw. destruct (Hp w HI Hw) as (? & ? & ?). eauto.
Qed.

(** A call alone, as the case without interruption. *)
Lemma guarantee_run {A} (Pre : W → Prop) (p : prog W A) Post w :
  guarantee Pre p Post → I w → Pre w →
  wp (run p) (λ a w', I w' ∧ R w w' ∧ Post (Ok a) w') (λ e w', I w' ∧ R w w' ∧ Post (Throw e) w') w.
Proof.
  revert Pre w. induction p as [[a|e]|B c k IH]; intros Pre w Hp HI Hw; simpl in *;
    [by split_and!; [..|apply Hp]|by split_and!; [..|apply Hp]|].
  destruct (Hp w HI Hw) as (HI' & HR & Hk).
  specialize (IH _ _ (final c w) Hk HI' (reflexivity _)). unfold wp in *.
  destruct (run (k (outcome c w)) (final c w)) as [[a|e] w']; destruct IH as (? & ? & ?); (split_and!; [done|by etrans|done]).
Qed.

(** Calls whose statements all keep [I] and do no more than [R] from any state. *)
Definition well_behaved {A} (p : prog W A) : Prop := guarantee (λ _, True) p (λ _ _, True).

Lemma guarantee_fine {A} (Pre : W → Prop) (p : prog W A) : well_behaved p → guarantee Pre p (λ _ _, True).
Proof. intros Hp. by eapply guarantee_pre. Qed.
Lemma well_behaved_ret {A} (a : A) : well_behaved (pret a).
Proof. done. Qed.
Lemma well_behaved_throw {A} e : well_behaved (pthrow e : prog W A).
Proof. done. Qed.
Lemma well_behaved_await {A} (c : M W A) :
  (∀ w, I w → I (final c w) ∧ R w (final c w)) → well_behaved (await c).
Proof. intros Hc w HI _. destruct (Hc w HI). done. Qed.
Lemma well_behaved_bind {A B} (p : prog W A) (f : A → prog W B) :
  well_behaved p → (∀ a, well_behaved (f a)) → well_behaved (pbind p f).
Proof.
  intros Hp Hf. apply guarantee_bind. eapply guarantee_post; [exact Hp|].
  intros [a|e] w HI _; [|done]. by eapply guarantee_pre; [apply Hf|].
Qed.
(** A synchronous step, whose result is known. *)
Lemma well_behaved_sync {A B} (r : exc A) (f : A → prog W B) :
  (∀ a, r = Ok a → well_behaved (f a)) → well_behaved (pbind (Done r) f).
Proof. intros Hf. destruct r as [a|e]; [exact (Hf a eq_refl)|done]. Qed.
Lemma well_behaved_catch {A} (p : prog W A) h :
  well_behaved p → (∀ e, well_behaved (h e)) → well_behaved (pcatch p h).
Proof.
  intros Hp Hh. apply guarantee_catch. eapply guarantee_post; [exact Hp|].
  intros [a|e] w HI _; [done|]. by eapply guarantee_pre; [apply Hh|].
Qed.
Lemma well_behaved_finally {A} (p : prog W A) c : well_behaved p → well_behaved c → well_behaved (pfinally p c).
Proof.
  intros Hp Hc.
  enough (∀ Pre, guarantee Pre p (λ _ _, True) → guarantee Pre (pfinally p c) (λ _ _, True)) as Hall by by apply Hall.
  clear Hp. induction p as [r|B s k IH]; intros Pre Hp; simpl in *.
  - eapply guarantee_pre with (Pre := λ _, True); [|done]. by apply well_behaved_bind.
  - intros w HI Hw. destruct (Hp w HI Hw) as (? & ? & ?). eauto.
Qed.
Lemma well_behaved_for {A} (l : list A) (body : A → prog W unit) :
  (∀ x, x ∈ l → well_behaved (body x)) → well_behaved (pfor l body).
Proof.
  intros Hb. induction l as [|x l IH]; simpl; [done|]. apply well_behaved_bind; [apply Hb; by left|].
  intros _. apply IH. intros y Hy. apply Hb. by right.
Qed.

(** A property that no statement destroys is still there when the rest of the call runs. *)
Lemma guarantee_stable {A B} (S : W → Prop) (p : prog W A) (f : A → prog W B) (Post : exc B → W → Prop) :
  (∀ w w', S w → R w w' → S w') → well_behaved p → (∀ a, guarantee S (f a) Post) →
  (∀ e w, I w → S w → Post (Throw e) w) → guarantee S (pbind p f) Post.
Proof.
  intros HS Hp Hf He.
  assert (∀ Pre, (∀ w, I w → Pre w → S w) → ∀ Pre', guarantee Pre' p (λ _ _, True) → (∀ w, Pre w → Pre' w) →
    guarantee Pre (pbind p f) Post) as Hgen; [|by eapply (Hgen S)].
  clear Hp. induction p as [[a|e]|B' c k IH]; simpl; intros Pre HPre Pre' Hp Himp.
  - by eapply guarantee_pre; [apply Hf|].
  - intros w HI Hw. auto.
  - intros w HI Hw. destruct (Hp w HI (Himp w Hw)) as (HI' & HR & Hk). split_and!; [done..|].
    eapply IH; [|exact Hk|done]. intros w' _ Hw'. by eauto.
Qed.

(** ... with what the call in between returned. *)
Lemma guarantee_yields {A B} (S : W → Prop) (P : A → Prop) (p : prog W A) (f : A → prog W B) (Post : exc B → W → Prop) :
  (∀ w w', S w → R w w' → S w') → well_behaved p → yields P p → (∀ a, P a → guarantee S (f a) Post) →
  (∀ e w, I w → S w → Post (Throw e) w) → guarantee S (pbind p f) Post.
Proof.
  intros HS Hp HP Hf He.
  assert (∀ Pre, (∀ w, I w → Pre w → S w) → ∀ Pre', guarantee Pre' p (λ _ _, True) → (∀ w, Pre w → Pre' w) →
    guarantee Pre (pbind p f) Post) as Hgen; [|by eapply (Hgen S)].
  clear Hp. induction p as [[a|e]|B' c k IH]; simpl; intros Pre HPre Pre' Hp Himp.
  - by eapply guarantee_pre; [apply Hf|].
  - intros w HI Hw. auto.
  - intros w HI Hw. destruct (Hp w HI (Himp w Hw)) as (HI' & HR & Hk). split_and!; [done..|].
    eapply IH; [done| |exact Hk|done]. intros w' _ Hw'. by eauto.
Qed.

(** A property that no statement destroys, kept to the end. *)
Lemma guarantee_frame {A} (S Pre : W → Prop) (p : prog W A) (Post : exc A → W → Prop) :
  (∀ w w', S w → R w w' → S w') → guarantee Pre p Post →
  guarantee (λ w, Pre w ∧ S w) p (λ r w, Post r w ∧ S w).
Proof.
  intros HS. revert Pre. induction p as [r|B c k IH]; intros Pre Hp; simpl in *.
  - intros w HI [Hw Sw]. eauto.
  - intros w HI [Hw Sw]. destruct (Hp w HI Hw) as (HI' & HR & Hk). split_and!; [done..|].
    eapply guarantee_pre; [by eapply IH|]. intros w' _ Hw'. split; [done|]. eauto.
Qed.
(** A loop over elements of which each has what its iteration needs. *)
Lemma guarantee_for {A} (P : A → W → Prop) (l : list A) (body : A → prog W unit) :
  (∀ x w w', P x w → R w w' → P x w') →
  (∀ x, x ∈ l → guarantee (P x) (body x) (λ _ _, True)) →
  guarantee (λ w, Forall (λ x, P x w) l) (pfor l body) (λ _ _, True).
Proof.
  intros HP. induction l as [|x l IH]; intros Hb; simpl; [done|]. apply guarantee_bind.
  eapply guarantee_post; [eapply guarantee_pre;
    [apply (guarantee_frame (λ w, Forall (λ x, P x w) l)), (Hb x); [|by left]|]|].
  - intros w w' Hw Hr. eapply Forall_impl; [exact Hw|]. simpl. eauto.
  - intros w _ Hw. by apply Forall_cons in Hw.
  - intros [[]|e] w HI [_ Hw]; [|done]. eapply guarantee_pre; [apply IH; intros y Hy; apply Hb; by right|].
    intros w' _ Hw'. eapply Forall_impl; [exact Hw|]. simpl. eauto.
Qed.

Context {A : Type} (calls : prog W A → Prop) (env : relation W).
Context (Hcalls : ∀ p, calls p → well_behaved p) (Henv : ∀ w w', I w → env w w' → I w' ∧ R w w').

Definition in_flight (s : list (prog W A) * W) : Prop :=
  I s.2 ∧ Forall (λ p, guarantee (R s.2) p (λ _ _, True)) s.1.

Lemma in_flight_step s s' : in_flight s → step calls env s s' → in_flight s' ∧ R s.2 s'.2.
Proof.
  intros [HI HF] Hs.
  assert (∀ ps w', Forall (λ p, guarantee (R s.2) p (λ _ _, True)) ps → R s.2 w' →
    Forall (λ p : prog W A, guarantee (R w') p (λ _ _, True)) ps) as Hmove.
  { intros ps w' Hps Hw'. eapply Forall_impl; [exact Hps|]. intros p Hp.
    eapply guarantee_pre; [exact Hp|]. intros w'' _ Hw''. by etrans. }
  destruct Hs as [ps w i B c k Hi|ps w p Hp|ps w w' He]; simpl in *.
  - pose proof (Forall_lookup_1 _ _ _ _ HF Hi) as Hg. simpl in Hg.
    destruct (Hg w HI) as (HI' & HR & Hk); [done|]. split; [|done]. split; [done|]. simpl.
    apply Forall_insert; [by apply Hmove|exact Hk].
  - split; [|done]. split; [done|]. simpl. apply Forall_app. split; [done|]. constructor; [|done].
    eapply guarantee_pre; [by apply Hcalls|done].
  - destruct (Henv w w' HI He) as [HI' HR]. split; [|done]. split; [done|]. simpl. by apply Hmove.
Qed.

(** Whatever the interleaving, the invariant holds, and from one moment to a later one the
    state changes only as [R] allows. *)
Lemma interleaved s s' :
  in_flight s → rtc (step calls env) s s' → in_flight s' ∧ R s.2 s'.2.
Proof.
  intros Hs Hr. induction Hr as [s|s s1 s2 H1 _ IH]; [done|].
  destruct (in_flight_step s s1 Hs H1) as [Hs1 HR]. destruct (IH Hs1) as [? ?]. split; [done|by etrans].
Qed.
Lemma interleaved_fresh w s' : I w → rtc (step calls env) ([], w) s' → I s'.2 ∧ R w s'.2.
Proof. intros HI Hr. destruct (interleaved ([], w) s') as [[? _] ?]; [by split|done|done]. Qed.
End logic.

(** Statements that each keep [I] and do no more than [R]. *)
Lemma every_well_behaved {W A} (I : W → Prop) (R : relation W) (p : prog W A) :
  every (λ w w', I w → I w' ∧ R w w') p → well_behaved I R p.
Proof.
  intros Hp. enough (∀ Pre, guarantee I R Pre p (λ _ _, True)) as Hgen by apply Hgen.
  induction p as [r|B c k IH]; simpl in *; [done|]. intros Pre w HI _. destruct (Hp w) as [Hw Hk].
  destruct (Hw HI). split_and!; auto.
Qed.

Lemma every_mono {W A} (S S' : relation W) (p : prog W A) : (∀ w w', S w w' → S' w w') → every S p → every S' p.
Proof. intros HS. induction p as [r|B c k IH]; simpl; [done|]. intros Hp w. destruct (Hp w). auto. Qed.

(** [each]: reduce [every] of a call to its statements. *)
Ltac each :=
  repeat match goal with
  | |- ∀ _, _ => intros ?
  | |- every _ (pbind (Done _) _) => apply every_sync
  | |- every _ (pbind _ _) => apply every_bind
  | |- every _ (forget _) => apply every_bind
  | |- every _ (pmap _ _) => apply every_bind
  | |- every _ (pcatch _ _) => apply every_catch
  | |- every _ (pfinally _ _) => apply every_finally
  | |- every _ (par _ _ _) => apply every_par; [apply _| |]
  | |- every _ (settle_all _ _) => apply every_settle; [apply _|]
  | |- every _ (Done _) => apply every_done
  | |- every _ (pret _) => apply every_done
  | |- every _ (pthrow _) => apply every_done
  | |- every _ (match _ with _ => _ end) => case_match
  | |- every _ _ => solve [auto with sf]
  end.

(** [behave]: reduce [well_behaved] of a call to its statements. *)
Ltac behave :=
  repeat match goal with
  | |- ∀ _, _ => intros ?
  | |- well_behaved _ _ (pbind (Done _) _) => apply well_behaved_sync
  | |- well_behaved _ _ (pbind _ _) => apply well_behaved_bind; [apply _| |]
  | |- well_behaved _ _ (pcatch _ _) => apply well_behaved_catch; [apply _| |]
  | |- well_behaved _ _ (pfinally _ _) => apply well_behaved_finally; [apply _| |]
  | |- well_behaved _ _ (pfor _ _) => apply well_behaved_for; [apply _|]
  | |- well_behaved _ _ (pret _) => apply well_behaved_ret
  | |- well_behaved _ _ (pthrow _) => apply well_behaved_throw
  | |- well_behaved _ _ (Done _) => done
  | |- well_behaved _ _ (match _ with _ => _ end) => case_match
  | |- well_behaved _ _ _ => solve [auto with sf]
  end.
