(* ===== verification/Mutex.v ===== *)
(** * Calls that exclude each other

    A service sets a flag before a run of statements and clears it in a [finally]; a call
    that finds the flag set gives up. [guarded_by] is the logic of [Async] for such calls:
    while a call holds the flag, the others do no more than [Ro], which leaves the flag and
    what it protects alone; a holder may do all of [R]. At most one call in flight holds the
    flag, in every interleaving. *)

From S2P Require Import Prelude Async.

Section mutex.
Context {W : Type} (I : W → Prop) (flag : W → bool) (R Ro : relation W) `{!PreOrder R, !PreOrder Ro}.
Context (Ro_R : ∀ w w', Ro w w' → R w w') (Ro_flag : ∀ w w', Ro w w' → flag w' = flag w).

(** What the others may do, and what a statement may do, which may take the flag or give
    it back; [b] says whether the call holds it. *)
Definition rely (b : bool) : relation W := if b then Ro else R.
Definition moves (b b' : bool) (w w' : W) : Prop :=
  if b then R w w' ∧ flag w' = b'
  else if b' then R w w' ∧ flag w = false ∧ flag w' = true
  else Ro w w'.

Definition held (b : bool) (w : W) : Prop := b = true → flag w = true.

Fixpoint guarded_by {A} (b : bool) (Pre : W → Prop) (p : prog W A) (Post : bool → exc A → W → Prop) : Prop :=
  match p with
  | Done r => ∀ w, I w → held b w → Pre w → Post b r w
  | Await c k => ∀ w, I w → held b w → Pre w →
      I (final c w) ∧ ∃ b', moves b b' w (final c w) ∧
        guarded_by b' (rely b' (final c w)) (k (outcome c w)) Post
  end.

#[local] Instance rely_preorder b : PreOrder (rely b).
Proof using All. destruct b; apply _. Qed.
Lemma Ro_rely b w w' : Ro w w' → rely b w w'.
Proof using Ro_R. destruct b; [done|apply Ro_R]. Qed.

Lemma guarded_pre {A} b (Pre Pre' : W → Prop) (p : prog W A) Post :
  guarded_by b Pre p Post → (∀ w, I w → held b w → Pre' w → Pre w) → guarded_by b Pre' p Post.
Proof. destruct p; simpl; eauto. Qed.
Lemma guarded_post {A} b Pre (p : prog W A) (Post Post' : bool → exc A → W → Prop) :
  guarded_by b Pre p Post → (∀ b' r w, I w → held b' w → Post b' r w → Post' b' r w) → guarded_by b Pre p Post'.
Proof.
  intros Hp Hpost. revert b Pre Hp. induction p as [r|B c k IH]; intros b Pre Hp; simpl in *; [by eauto|].
  intros w HI Hb Hw. destruct (Hp w HI Hb Hw) as (? & b' & ? & ?). eauto 6.
Qed.
Lemma guarded_at {A} b (Pre : W → Prop) (p : prog W A) Post :
  (∀ w, I w → held b w → Pre w → guarded_by b (rely b w) p Post) → guarded_by b Pre p Post.
Proof using All. intros Hp. destruct p as [r|B c k]; simpl in *; intros w HI Hb Hw; by apply (Hp w). Qed.
Lemma guarded_done {A} b (Pre : W → Prop) (r : exc A) (Post : bool → exc A → W → Prop) :
  (∀ w, I w → held b w → Pre w → Post b r w) → guarded_by b Pre (Done r) Post.
Proof. done. Qed.

(** One statement: outside, taking the flag, inside, and giving it back. *)
Lemma guarded_outside {A} (Pre : W → Prop) (c : M W A) (Post : bool → exc A → W → Prop) :
  (∀ w, I w → Pre w → I (final c w) ∧ Ro w (final c w) ∧
     ∀ w', I w' → R (final c w) w' → Post false (outcome c w) w') → guarded_by false Pre (await c) Post.
Proof.
  intros Hc w HI _ Hw. destruct (Hc w HI Hw) as (? & ? & ?). split; [done|]. exists false. split; [done|].
  intros w' ? _ ?. eauto.
Qed.
Lemma guarded_try {A} (Pre : W → Prop) (c : M W A) (Post : bool → exc A → W → Prop) :
  (∀ w, I w → Pre w → I (final c w) ∧
     ((Ro w (final c w) ∧ ∀ w', I w' → R (final c w) w' → Post false (outcome c w) w') ∨
      (flag w = false ∧ R w (final c w) ∧ flag (final c w) = true ∧
       ∀ w', I w' → flag w' = true → Ro (final c w) w' → Post true (outcome c w) w'))) →
  guarded_by false Pre (await c) Post.
Proof.
  intros Hc w HI _ Hw. destruct (Hc w HI Hw) as [? [[? ?]|(? & ? & ? & ?)]]; (split; [done|]).
  - exists false. split; [done|]. intros w' ? _ ?. eauto.
  - exists true. split; [done|]. intros w' ? Hh ?. specialize (Hh eq_refl). eauto.
Qed.
Lemma guarded_acquire {A} (Pre : W → Prop) (c : M W A) (Post : bool → exc A → W → Prop) :
  (∀ w, I w → Pre w → if flag w then I (final c w) ∧ Ro w (final c w) ∧
       ∀ w', I w' → R (final c w) w' → Post false (outcome c w) w'
     else I (final c w) ∧ R w (final c w) ∧ flag (final c w) = true ∧
       ∀ w', I w' → flag w' = true → Ro (final c w) w' → Post true (outcome c w) w') →
  guarded_by false Pre (await c) Post.
Proof.
  intros Hc. apply guarded_try. intros w HI Hw. specialize (Hc w HI Hw).
  destruct (flag w); destruct Hc as (? & ?); (split; [done|]); [by left|by right].
Qed.
Lemma guarded_inside {A} (Pre : W → Prop) (c : M W A) (Post : bool → exc A → W → Prop) :
  (∀ w, I w → flag w = true → Pre w → I (final c w) ∧ R w (final c w) ∧ flag (final c w) = true ∧
     ∀ w', I w' → Ro (final c w) w' → Post true (outcome c w) w') → guarded_by true Pre (await c) Post.
Proof.
  intros Hc w HI Hb Hw. destruct (Hc w HI (Hb eq_refl) Hw) as (? & ? & ? & ?). split; [done|].
  exists true. split; [done|]. intros w' ? _ ?. eauto.
Qed.
Lemma guarded_release {A} (Pre : W → Prop) (c : M W A) (Post : bool → exc A → W → Prop) :
  (∀ w, I w → flag w = true → Pre w → I (final c w) ∧ R w (final c w) ∧ flag (final c w) = false ∧
     ∀ w', I w' → R (final c w) w' → Post false (outcome c w) w') → guarded_by true Pre (await c) Post.
Proof.
  intros Hc w HI Hb Hw. destruct (Hc w HI (Hb eq_refl) Hw) as (? & ? & ? & ?). split; [done|].
  exists false. split; [done|]. intros w' ? _ ?. eauto.
Qed.

Lemma guarded_bind {A B} b (Pre : W → Prop) (p : prog W A) (f : A → prog W B) (Post : bool → exc B → W → Prop) :
  guarded_by b Pre p (λ b' r w, match r with
    | Ok a => guarded_by b' (rely b' w) (f a) Post
    | Throw e => Post b' (Throw e) w
    end) → guarded_by b Pre (pbind p f) Post.
Proof using All.
  revert b Pre. induction p as [[a|e]|B' c k IH]; intros b Pre Hp; simpl in *; [by apply guarded_at|done|].
  intros w HI Hb Hw. destruct (Hp w HI Hb Hw) as (? & b' & ? & ?). eauto.
Qed.
Lemma guarded_catch {A} b (Pre : W → Prop) (p : prog W A) h (Post : bool → exc A → W → Prop) :
  guarded_by b Pre p (λ b' r w, match r with
    | Ok a => Post b' (Ok a) w
    | Throw e => guarded_by b' (rely b' w) (h e) Post
    end) → guarded_by b Pre (pcatch p h) Post.
Proof using All.
  revert b Pre. induction p as [[a|e]|B' c k IH]; intros b Pre Hp; simpl in *; [done|by apply guarded_at|].
  intros w HI Hb Hw. destruct (Hp w HI Hb Hw) as (? & b' & ? & ?). eauto.
Qed.
Lemma guarded_finally {A} b (Pre : W → Prop) (p : prog W A) (c : prog W unit) (Post : bool → exc A → W → Prop) :
  guarded_by b Pre p (λ b' r w, guarded_by b' (rely b' w) c (λ b'' r' w', match r' with
    | Ok _ => guarded_by b'' (rely b'' w') (Done r) Post
    | Throw e => Post b'' (Throw e) w'
    end)) → guarded_by b Pre (pfinally p c) Post.
Proof using All.
  revert b Pre. induction p as [r|B' s k IH]; intros b Pre Hp; simpl in Hp.
  - apply guarded_bind, guarded_at. exact Hp.
  - intros w HI Hb Hw. destruct (Hp w HI Hb Hw) as (? & b' & ? & ?). eauto.
Qed.
(** A loop each of whose iterations finds what the one before has left for the rest. *)
Lemma guarded_for {A} b (P : list A → W → Prop) (body : A → prog W unit) (Post : bool → exc unit → W → Prop) l :
  (∀ l w w', P l w → rely b w w' → P l w') →
  (∀ x l, guarded_by b (P (x :: l)) (body x) (λ b' r w, match r with
    | Ok _ => b' = b ∧ P l w
    | Throw e => Post b' (Throw e) w
    end)) →
  (∀ w, I w → held b w → P [] w → Post b (Ok tt) w) → guarded_by b (P l) (pfor l body) Post.
Proof using All.
  intros HP Hbody Hend. induction l as [|x l IH]; simpl; [done|]. apply guarded_bind.
  eapply guarded_post; [apply Hbody|]. intros b' [u|e] w HI Hb; [intros [-> Hw]|done].
  eapply guarded_pre; [exact IH|]. intros w' _ _ Hw'. by eapply HP.
Qed.

(** Calls all of whose statements run under the flag, and keep [J], which nobody outside
    the flag destroys: they may run at once. *)
Fixpoint within {A} (J : W → Prop) (p : prog W A) : Prop :=
  match p with
  | Done _ => True
  | Await c k => ∀ w, I w → flag w = true → J w →
      I (final c w) ∧ R w (final c w) ∧ flag (final c w) = true ∧ J (final c w) ∧ within J (k (outcome c w))
  end.

Lemma within_await {A} J (c : M W A) :
  (∀ w, I w → flag w = true → J w →
     I (final c w) ∧ R w (final c w) ∧ flag (final c w) = true ∧ J (final c w)) → within J (await c).
Proof using. intros Hc w HI Hf Hw. destruct (Hc w HI Hf Hw) as (?&?&?&?). done. Qed.
Lemma within_done {A} J (r : exc A) : within J (Done r).
Proof using. done. Qed.
Lemma within_bind {A B} J (p : prog W A) (f : A → prog W B) :
  within J p → (∀ a, within J (f a)) → within J (pbind p f).
Proof using.
  intros Hp Hf. induction p as [[a|e]|B' c k IH]; simpl in *; [done|done|].
  intros w HI Hw HJ. destruct (Hp w HI Hw HJ) as (?&?&?&?&?). split_and!; auto.
Qed.
(** ... with what the answer satisfies. *)
Lemma within_bind_returns {A B} J (P : A → Prop) (p : prog W A) (f : A → prog W B) :
  within J p → returns P p → (∀ a, P a → within J (f a)) → within J (pbind p f).
Proof using.
  intros Hp HP Hf. induction p as [[a|e]|B' c k IH]; simpl in *; [by apply Hf|done|].
  intros w HI Hw HJ. destruct (Hp w HI Hw HJ) as (?&?&?&?&?). split_and!; auto.
Qed.
(** A synchronous step, whose result is known. *)
Lemma within_sync {A B} J (r : exc A) (f : A → prog W B) :
  (∀ a, r = Ok a → within J (f a)) → within J (pbind (Done r) f).
Proof using. intros Hf. destruct r as [a|e]; [exact (Hf a eq_refl)|done]. Qed.
Lemma within_catch {A} J (p : prog W A) h : within J p → (∀ e, within J (h e)) → within J (pcatch p h).
Proof using.
  intros Hp Hh. induction p as [[a|e]|B' c k IH]; simpl in *; [done|done|].
  intros w HI Hw HJ. destruct (Hp w HI Hw HJ) as (?&?&?&?&?). split_and!; auto.
Qed.
Lemma within_par {A B} J turn (p : prog W A) (q : prog W B) : within J p → within J q → within J (par turn p q).
Proof using PreOrder0.
  revert q. induction p as [r|B1 c k IH]; intros q Hp Hq.
  - induction q as [r'|B2 c' k' IHq]; simpl in *; [done|]. intros w HI Hf HJ.
    destruct (Hq w HI Hf HJ) as (?&?&?&?&?). split_and!; auto.
  - induction q as [r'|B2 c' k' IHq]; simpl in *.
    + intros w HI Hf HJ. destruct (Hp w HI Hf HJ) as (?&?&?&?&?). split_and!; auto.
    + intros w HI Hf HJ. unfold final at 1 2 3 4, outcome. cbn [fst snd]. split_and!; [done..|].
      destruct (turn w); simpl; intros w' HI' Hf' HJ'.
      * destruct (Hp w' HI' Hf' HJ') as (?&?&?&?&?). split_and!; auto.
      * destruct (Hq w' HI' Hf' HJ') as (?&?&?&?&?). split_and!; auto.
Qed.
Lemma within_settle {A} J turn (ps : list (prog W A)) :
  (∀ p, p ∈ ps → within J p) → within J (settle_all turn ps).
Proof using PreOrder0.
  intros Hps. induction ps as [|p ps IH]; cbn [settle_all]; [done|]. apply within_bind; [|done].
  apply within_par; [apply Hps; by left|]. apply IH. intros q Hq. apply Hps. by right.
Qed.
Lemma within_guarded {A} J (p : prog W A) : (∀ w w', J w → Ro w w' → J w') → within J p →
  guarded_by true J p (λ b _ w, b = true ∧ J w).
Proof using All.
  intros HJ. enough (∀ Pre, (∀ w, Pre w → J w) → within J p → guarded_by true Pre p (λ b _ w, b = true ∧ J w)) as Hgen
    by by apply Hgen.
  induction p as [r|B c k IH]; simpl; intros Pre HPre Hp w HI Hf Hw; [by split; [|apply HPre]|].
  destruct (Hp w HI (Hf eq_refl) (HPre w Hw)) as (?&?&?&HJ'&?). split; [done|]. exists true. split; [done|].
  apply IH; [|done]. intros w' Hr. by eapply HJ.
Qed.

(** Calls that begin and end without the flag. *)
Definition well_guarded {A} (p : prog W A) : Prop := guarded_by false (λ _, True) p (λ b _ _, b = false).
Lemma well_guarded_outside {A} (c : M W A) :
  (∀ w, I w → I (final c w) ∧ Ro w (final c w)) → well_guarded (await c).
Proof using. intros Hc. apply guarded_outside. intros w HI _. by destruct (Hc w HI). Qed.
Lemma well_guarded_bind {A B} (p : prog W A) (f : A → prog W B) :
  well_guarded p → (∀ a, well_guarded (f a)) → well_guarded (pbind p f).
Proof using All.
  intros Hp Hf. apply guarded_bind. eapply guarded_post; [exact Hp|]. intros b [a|e] w HI _ ->; [|done].
  by eapply guarded_pre; [apply Hf|].
Qed.
Lemma well_guarded_done {A} (r : exc A) : well_guarded (Done r).
Proof using. done. Qed.
(** A synchronous step, whose result is known. *)
Lemma well_guarded_sync {A B} (r : exc A) (f : A → prog W B) :
  (∀ a, r = Ok a → well_guarded (f a)) → well_guarded (pbind (Done r) f).
Proof using. intros Hf. destruct r as [a|e]; [exact (Hf a eq_refl)|done]. Qed.
Lemma well_guarded_catch {A} (p : prog W A) h :
  well_guarded p → (∀ e, well_guarded (h e)) → well_guarded (pcatch p h).
Proof using All.
  intros Hp Hh. apply guarded_catch. eapply guarded_post; [exact Hp|]. intros b [a|e] w HI _ ->; [done|].
  by eapply guarded_pre; [apply Hh|].
Qed.
Lemma well_guarded_forget {A} (p : prog W A) : well_guarded p → well_guarded (forget p).
Proof using All. intros Hp. by apply well_guarded_bind. Qed.
Lemma well_guarded_for {A} (l : list A) (body : A → prog W unit) :
  (∀ x, well_guarded (body x)) → well_guarded (pfor l body).
Proof using All.
  intros Hb. induction l as [|x l IH]; simpl; [done|]. by apply well_guarded_bind.
Qed.

(** ** All calls in flight *)
Section pool.
Context {A : Type} (calls : prog W A → Prop) (env : relation W).
Context (Hcalls : ∀ p, calls p → well_guarded p) (Henv : ∀ w w', I w → env w w' → I w' ∧ Ro w w').

(** [h] is the call that holds the flag, if any does. *)
Definition mode (h : option nat) (i : nat) : bool := bool_decide (h = Some i).
Definition guarded_calls (h : option nat) (s : list (prog W A) * W) : Prop :=
  I s.2 ∧ flag s.2 = bool_decide (is_Some h) ∧ (∀ i, h = Some i → i < length s.1) ∧
  ∀ i p, s.1 !! i = Some p → guarded_by (mode h i) (rely (mode h i) s.2) p (λ b _ _, b = false).

Lemma guarded_move b w w' (p : prog W A) Post :
  guarded_by b (rely b w) p Post → rely b w w' → guarded_by b (rely b w') p Post.
Proof using All. intros Hp Hr. eapply guarded_pre; [exact Hp|]. intros w'' _ _ Hw. by etrans. Qed.

Lemma guarded_resume h ps w i B (c : M W B) k :
  guarded_calls h (ps, w) → ps !! i = Some (Await c k) →
  ∃ h', guarded_calls h' (<[i := k (outcome c w)]> ps, final c w) ∧ R w (final c w).
Proof using All.
  intros (HI & Hf & Hl & Hg) Hi. simpl in *. pose proof (Hg i _ Hi) as Hc. simpl in Hc.
  assert (i < length ps) as Hlt by by eapply lookup_lt_Some.
  destruct (Hc w HI) as (HI' & b' & Hm & Hk); [|done|].
  { intros E%bool_decide_eq_true. by rewrite Hf, E. }
  enough (∃ h', mode h' i = b' ∧ flag (final c w) = bool_decide (is_Some h') ∧ (∀ j, h' = Some j → j < length ps) ∧
    (∀ j, j ≠ i → mode h' j = mode h j ∧ rely (mode h j) w (final c w)) ∧ R w (final c w)) as
    (h' & E & Hf' & Hl' & Ho & HR).
  { exists h'. split; [|done]. split_and!; simpl; [done|done|by rewrite length_insert|].
    intros j p [(<- & <- & _)|[Hne Hj]]%list_lookup_insert_Some; [by rewrite E|].
    destruct (Ho j) as [-> Hr]; [done|]. eapply guarded_move; [by apply Hg|done]. }
  destruct (decide (h = Some i)) as [->|Hh].
  - unfold mode in Hm at 1. rewrite bool_decide_true in Hm by done. destruct Hm as [HR Hb].
    assert (∀ j, j ≠ i → mode (Some i) j = false) as Hj by (intros j ?; apply bool_decide_false; congruence).
    exists (if b' then Some i else None). split_and!; [|by destruct b'| |intros j Hne; rewrite (Hj j Hne)|done].
    + destruct b'; [by apply bool_decide_true|done].
    + intros j E. destruct b'; [apply Hl, E|done].
    + split; [by destruct b'; [apply Hj|]|done].
  - unfold mode in Hm at 1. rewrite bool_decide_false in Hm by done. destruct b'.
    + destruct Hm as (HR & Hn & Hy). assert (h = None) as ->.
      { destruct h; [|done]. by rewrite Hf in Hn. }
      exists (Some i). split_and!; [by apply bool_decide_true|done|by intros j [= <-]| |done].
      intros j Hne. split; [by apply bool_decide_false; congruence|done].
    + exists h. split_and!; [by apply bool_decide_false|by rewrite (Ro_flag _ _ Hm)|done| |by apply Ro_R].
      intros j _. split; [done|by apply Ro_rely].
Qed.

Lemma guarded_step h s s' : guarded_calls h s → step calls env s s' → ∃ h', guarded_calls h' s' ∧ R s.2 s'.2.
Proof using All.
  intros Hs Hst. destruct Hst as [ps w i B c k Hi|ps w p Hp|ps w w' He]; [by eapply guarded_resume| |].
  - destruct Hs as (HI & Hf & Hl & Hg). exists h. split; [|simpl; reflexivity]. split_and!; [done..| |].
    + intros i E. specialize (Hl i E). simpl in *. rewrite length_app. simpl. lia.
    + intros i q [Hi|[Hi E]]%lookup_app_Some; [by apply Hg|]. simpl in *.
      assert (i = length ps ∧ q = p) as [-> ->].
      { apply list_lookup_singleton_Some in E as [? ->]. split; [lia|done]. }
      assert (mode h (length ps) = false) as -> by (apply bool_decide_false; intros E'; specialize (Hl _ E'); lia).
      eapply guarded_pre; [by apply Hcalls|done].
  - destruct Hs as (HI & Hf & Hl & Hg). simpl in *. destruct (Henv w w' HI He) as [HI' HR].
    exists h. split; [|by apply Ro_R]. split_and!; simpl; [done|by rewrite (Ro_flag _ _ HR)|done|].
    intros i p Hi. eapply guarded_move; [by apply Hg|by apply Ro_rely].
Qed.

(** Whatever the interleaving, one call at most holds the flag, the invariant holds, and
    the state has changed as [R] allows. *)
Lemma exclusive h s s' :
  guarded_calls h s → rtc (step calls env) s s' → ∃ h', guarded_calls h' s' ∧ R s.2 s'.2.
Proof using All.
  intros Hs Hr. revert h Hs. induction Hr as [s|s s1 s2 H1 _ IH]; intros h Hs; [by exists h|].
  destruct (guarded_step h s s1 Hs H1) as (h1 & Hs1 & HR). destruct (IH h1 Hs1) as (h2 & ? & ?).
  exists h2. split; [done|by etrans].
Qed.
Lemma exclusive_fresh w s' :
  I w → flag w = false → rtc (step calls env) ([], w) s' → I s'.2 ∧ R w s'.2.
Proof using All.
  intros HI Hf Hr. destruct (exclusive None ([], w) s') as (h & (? & _) & ?); [|done|done].
  split_and!; [done|done|done|]. intros i p Hi. done.
Qed.
End pool.
End mutex.

(** [behave_outside]: reduce [well_guarded] of a call that does not take the flag to its
    statements. *)
Ltac behave_outside :=
  repeat match goal with
  | |- ∀ _, _ => intros ?
  | |- well_guarded _ _ _ _ (pbind (Done _) _) => apply well_guarded_sync
  | |- well_guarded _ _ _ _ (pbind _ _) => apply well_guarded_bind; [apply _|apply _|auto with sf..| |]
  | |- well_guarded _ _ _ _ (forget _) => apply well_guarded_forget; [apply _|apply _|auto with sf..|]
  | |- well_guarded _ _ _ _ (pcatch _ _) => apply well_guarded_catch; [apply _|apply _|auto with sf..| |]
  | |- well_guarded _ _ _ _ (pfor _ _) => apply well_guarded_for; [apply _|apply _|auto with sf..|]
  | |- well_guarded _ _ _ _ (Done _) => apply well_guarded_done
  | |- well_guarded _ _ _ _ (pret _) => apply well_guarded_done
  | |- well_guarded _ _ _ _ (match _ with _ => _ end) => case_match
  | |- well_guarded _ _ _ _ _ => solve [auto with sf]
  end.

(** [behave_within]: reduce [within] of a call to its statements. *)
Ltac behave_within :=
  repeat match goal with
  | |- ∀ _, _ => intros ?
  | |- within _ _ _ _ (pbind (Done _) _) => apply within_sync
  | |- within _ _ _ _ (pbind _ _) => apply within_bind
  | |- within _ _ _ _ (forget _) => apply within_bind; [|intros ?; apply within_done]
  | |- within _ _ _ _ (pcatch _ _) => apply within_catch
  | |- within _ _ _ _ (par _ _ _) => apply within_par; [apply _| |]
  | |- within _ _ _ _ (settle_all _ _) => apply within_settle; [apply _|]
  | |- within _ _ _ _ (Done _) => apply within_done
  | |- within _ _ _ _ (pret _) => apply within_done
  | |- within _ _ _ _ (pthrow _) => apply within_done
  | |- within _ _ _ _ (match _ with _ => _ end) => case_match
  | |- within _ _ _ _ _ => solve [auto with sf]
  end.
