(* ===== verification/Parallel.v ===== *)
(** * Calls that wait for several others

    What [Promise.all] and [Promise.allSettled] of calls guarantee, in the logics of [Async]
    and [Mutex]: each of the calls ends as it does alone, whatever the others of its group
    and everyone else do in between. *)

From S2P Require Import Prelude Async Mutex.

Section together.
Context {W : Type} (I : W → Prop) (R : relation W) `{!PreOrder R}.

Definition stable (P : W → Prop) : Prop := ∀ w w', P w → R w w' → P w'.
Lemma stable_reached w : stable (R w).
Proof using PreOrder0. intros w1 w2 H1 H2. by etrans. Qed.
Lemma stable_true : stable (λ _, True).
Proof. done. Qed.

Lemma guarantee_par {A B} turn (P Q : W → Prop) (p : prog W A) (q : prog W B) PostP PostQ :
  stable P → stable Q → (∀ r, stable (PostP r)) → (∀ r, stable (PostQ r)) →
  guarantee I R P p PostP → guarantee I R Q q PostQ →
  guarantee I R (λ w, P w ∧ Q w) (par turn p q) (λ rs w, ∃ r r', rs = Ok (r, r') ∧ PostP r w ∧ PostQ r' w).
Proof using PreOrder0.
  intros HP HQ HPP HPQ. revert P HP q Q HQ. induction p as [r|B1 c k IH]; intros P HP q Q HQ Hp Hq.
  - revert Q HQ Hq. induction q as [r'|B2 c' k' IHq]; simpl in *; intros Q HQ Hq; [intros w HI [? ?]; exists r, r'; split_and!; auto|].
    intros w HI [Hw Hw']. destruct (Hq w HI Hw') as (HI' & HR & Hk). split_and!; [done..|].
    eapply guarantee_pre; [apply IHq; [apply stable_reached|exact Hk]|]. intros w1 _ H1. simpl in *. split; [|done].
    eapply HP; [exact Hw|]. by etrans.
  - revert Q HQ Hq. induction q as [r'|B2 c' k' IHq]; intros Q HQ Hq.
    { simpl in *. intros w HI [Hw Hw']. destruct (Hp w HI Hw) as (HI' & HR & Hk). split_and!; [done..|].
      eapply guarantee_pre; [apply (IH _ _ (stable_reached _) (Done r') Q HQ Hk Hq)|]. intros w1 _ H1. split; [done|].
      eapply HQ; [exact Hw'|]. by etrans. }
    cbn [par guarantee]. intros w HI [Hw Hw']. unfold final at 1 2 3, outcome. cbn [fst snd]. split_and!; [done|reflexivity|].
    destruct (turn w); cbn [guarantee]; intros w1 HI1 H1.
    + destruct (Hp w1 HI1 (HP _ _ Hw H1)) as (HI' & HR & Hk). split_and!; [done..|].
      eapply guarantee_pre; [apply (IH _ _ (stable_reached _) (Await c' k') Q HQ Hk Hq)|]. intros w2 _ H2. split; [done|].
      eapply HQ; [exact Hw'|]. etrans; [exact H1|]. by etrans.
    + destruct (Hq w1 HI1 (HQ _ _ Hw' H1)) as (HI' & HR & Hk). split_and!; [done..|].
      eapply guarantee_pre; [apply (IHq _ _ (stable_reached _) Hk)|]. intros w2 _ H2. split; [|done].
      eapply HP; [exact Hw|]. etrans; [exact H1|]. by etrans.
Qed.

(** A group of calls, each of which ends as its own property says. *)
Definition all_end {A} (l : list (prog W A * (exc A → W → Prop))) (rs : exc (list (exc A))) (w : W) : Prop :=
  ∃ answers, rs = Ok answers ∧ Forall2 (λ x r, x.2 r w) l answers.
Lemma all_end_stable {A} (l : list (prog W A * (exc A → W → Prop))) rs :
  (∀ x, x ∈ l → ∀ r, stable (x.2 r)) → stable (all_end l rs).
Proof.
  intros HS w w' (answers & -> & Hf) Hr. exists answers. split; [done|].
  induction Hf as [|x r l answers Hx _ IH]; constructor.
  - eapply HS; [by left|exact Hx|done].
  - apply IH. intros y Hy. apply HS. by right.
Qed.
Lemma guarantee_settle {A} turn (P : W → Prop) (l : list (prog W A * (exc A → W → Prop))) :
  stable P → (∀ x, x ∈ l → ∀ r, stable (x.2 r)) → (∀ x, x ∈ l → guarantee I R P x.1 x.2) →
  guarantee I R P (settle_all turn l.*1) (all_end l).
Proof using PreOrder0.
  intros HP HS Hl. induction l as [|[p Post] l IH]; cbn [fmap list_fmap fst settle_all].
  { intros w HI Hw. exists []. split; [done|constructor]. }
  assert (∀ x, x ∈ l → ∀ r, stable (x.2 r)) as HSl by (intros x Hx; apply HS; by right).
  assert (∀ r, stable (Post r)) as HSp by (apply (HS (p, Post)); by left).
  apply guarantee_bind; [apply _|]. eapply guarantee_post.
  - eapply guarantee_pre; [apply (guarantee_par turn P P p (settle_all turn l.*1) Post (all_end l)); try done|].
    + intros rs. by apply all_end_stable.
    + apply (Hl (p, Post)). by left.
    + apply IH; [done|]. intros x Hx. apply Hl. by right.
    + by intros w _ Hw.
  - intros rs w _ (r & r' & -> & Hr & Hall). apply guarantee_ret. intros w' _ Hw'.
    destruct (all_end_stable l r' HSl w w' Hall Hw') as (answers & -> & Hf). exists (r :: answers). split; [done|].
    constructor; [by eapply HSp|done].
Qed.
End together.

(** Calls that do nothing others may not do, run by the holder of a flag. *)
Lemma guarded_quiet {W A} (I : W → Prop) (flag : W → bool) (R Ro : relation W) `{!PreOrder R, !PreOrder Ro}
    (Ro_R : ∀ w w', Ro w w' → R w w') (Ro_flag : ∀ w w', Ro w w' → flag w' = flag w)
    (Pre : W → Prop) (p : prog W A) (Post : exc A → W → Prop) :
  guarantee I Ro Pre p Post → guarded_by I flag R Ro true Pre p (λ b r w, b = true ∧ Post r w).
Proof using All.
  revert Pre. induction p as [r|B c k IH]; intros Pre Hp; simpl in *; [intros w HI _ Hw; by split; [|apply Hp]|].
  intros w HI Hh Hw. destruct (Hp w HI Hw) as (HI' & HR & Hk). split; [done|]. exists true. simpl. split_and!; [by apply Ro_R| |].
  - rewrite (Ro_flag _ _ HR). by apply Hh.
  - by apply IH.
Qed.
