(* ===== verification/Timers.v ===== *)
(** * Interval timers

    [setInterval] and [clearInterval]: the intervals a process has running, under their
    ids, and the id that is given out next. What an interval calls is a call that may
    arrive at any time. *)

From S2P Require Import Prelude.

Record timers := mkTimers {
  tm_active : gmap nat Z;
  tm_next : nat;
}.
Definition no_timers : timers := mkTimers ∅ 0.

Definition setInterval (ms : Z) (t : timers) : nat * timers :=
  (tm_next t, mkTimers (<[tm_next t := ms]> (tm_active t)) (S (tm_next t))).
(** [clearInterval(null)] does nothing. *)
Definition clearInterval (id : option nat) (t : timers) : timers :=
  match id with Some i => mkTimers (delete i (tm_active t)) (tm_next t) | None => t end.

(** Ids are given out once. *)
Definition timers_fresh (t : timers) : Prop := ∀ i, tm_next t ≤ i → tm_active t !! i = None.
Lemma setInterval_fresh ms t : timers_fresh t → timers_fresh (setInterval ms t).2.
Proof. intros Ht i Hi. simpl in *. rewrite lookup_insert_ne by lia. apply Ht. lia. Qed.
Lemma clearInterval_fresh id t : timers_fresh t → timers_fresh (clearInterval id t).
Proof. intros Ht i Hi. destruct id as [j|]; simpl in *; [|by apply Ht]. apply lookup_delete_None. right. by apply Ht. Qed.
(** Clearing what was set last. *)
Lemma clear_set ms t :
  timers_fresh t → tm_active (clearInterval (Some (tm_next t)) (setInterval ms t).2) = tm_active t.
Proof. intros Ht. simpl. apply delete_insert_id, Ht. done. Qed.
