(* ===== verification/Dispute.v ===== *)
(** * Dispute tickets: [src/src/services/disputeService.ts] and
    [src/src/services/emailService.ts]

    The ticket state machine with its operations, over any table that obeys the laws of
    [PrismaTable] and any outside world. Statuses are strings, as in the column. A table
    column that is not one of the four statuses is possible and handled as the code does;
    only own properties of the transition table are looked up. *)

From S2P Require Import Prelude JsNumber JsDate Prisma Service Retry.

Local Open Scope Z_scope.

Definition DISPUTE_STATUSES : list string := ["open"; "investigating"; "refunded"; "closed"].

(** [DISPUTE_TRANSITIONS[current] ?? []] *)
Definition DISPUTE_TRANSITIONS (current : string) : list string :=
  if decide (current = "open") then ["investigating"; "refunded"; "closed"]
  else if decide (current = "investigating") then ["refunded"; "closed"]
  else if decide (current = "refunded") then ["closed"]
  else [].

Record OpenDisputeInput (U : Type) := mkOpen {
  oi_remittanceId : string;
  oi_userId : string;
  oi_reason : string;
  oi_details : option U;
  oi_email : option string;
  oi_webhookUrl : option string;
}.
Arguments mkOpen {U}.
Arguments oi_remittanceId {U}.
Arguments oi_userId {U}.
Arguments oi_reason {U}.
Arguments oi_details {U}.
Arguments oi_email {U}.
Arguments oi_webhookUrl {U}.

Record TransitionDisputeInput := mkTransition {
  ti_toStatus : string;
  ti_byId : option string;
  ti_email : option string;
  ti_webhookUrl : option string;
}.

Record ManualRefundInput := mkRefund {
  ri_refundAmount : option number;
  ri_byId : option string;
  ri_email : option string;
  ri_webhookUrl : option string;
}.

Record DisputeListFilters := mkFilters {
  fl_status : option string;
  fl_userId : option string;
  fl_limit : option Z;
  fl_offset : option Z;
}.

Record DisputeRow := mkRow {
  row_id : string;
  row_remittanceId : string;
  row_userId : string;
  row_status : string;
  row_reason : string;
  row_details : option string;
  row_email : option string;
  row_webhookUrl : option string;
  row_refundAmount : option number;
  row_refundedById : option string;
  row_refundedAt : option Z;
  row_resolvedById : option string;
  row_resolvedAt : option Z;
  row_createdAt : Z;
  row_updatedAt : Z;
}.

Record DisputeRecord := mkRecord {
  rec_id : string;
  rec_remittanceId : string;
  rec_userId : string;
  rec_status : string;
  rec_reason : string;
  rec_details : option string;
  rec_email : option string;
  rec_webhookUrl : option string;
  rec_refundAmount : option number;
  rec_refundedById : option string;
  rec_refundedAt : option string;
  rec_resolvedById : option string;
  rec_resolvedAt : option string;
  rec_createdAt : string;
  rec_updatedAt : string;
}.

(** [DisputeResult]: [success], with the ticket or the error. *)
Inductive DisputeResult :=
| DisputeSuccess (dispute : DisputeRecord)
| DisputeFailure (error : string).

Inductive DisputeListResult :=
| ListSuccess (data : list DisputeRecord) (total : nat)
| ListFailure (error : string).

Record StatusMessage := mkMessage { sm_subject : string; sm_message : string }.

Definition STATUS_MESSAGES (status : string) : option StatusMessage :=
  if decide (status = "open") then Some (mkMessage
    "Dispute opened for your remittance"
    "A dispute has been opened for your remittance transaction because the fiat payout failed or timed out. Our team is reviewing the ticket.")
  else if decide (status = "investigating") then Some (mkMessage
    "Your remittance dispute is under investigation"
    "Your remittance dispute is now being investigated. We will notify you as soon as an update is available.")
  else if decide (status = "refunded") then Some (mkMessage
    "Refund issued for your remittance dispute"
    "A refund has been issued for your remittance dispute. The funds are being returned to your account.")
  else if decide (status = "closed") then Some (mkMessage
    "Your remittance dispute has been closed"
    "Your remittance dispute has been closed. If you have further questions, please contact support.")
  else None.

Definition toDisputeRecord (row : DisputeRow) : DisputeRecord := {|
  rec_id := row_id row;
  rec_remittanceId := row_remittanceId row;
  rec_userId := row_userId row;
  rec_status := if includes DISPUTE_STATUSES (row_status row) then row_status row else "open";
  rec_reason := row_reason row;
  rec_details := row_details row;
  rec_email := row_email row;
  rec_webhookUrl := row_webhookUrl row;
  rec_refundAmount := row_refundAmount row;
  rec_refundedById := row_refundedById row;
  rec_refundedAt := toISOString <$> row_refundedAt row;
  rec_resolvedById := row_resolvedById row;
  rec_resolvedAt := toISOString <$> row_resolvedAt row;
  rec_createdAt := toISOString (row_createdAt row);
  rec_updatedAt := toISOString (row_updatedAt row);
|}.

(** ** Outgoing messages *)

Record EmailMessage := mkEmail {
  em_to : string;
  em_subject : string;
  em_text : string;
  em_html : option string;
}.

Record EmailConfig := mkEmailConfig {
  ec_apiUrl : option string;
  ec_apiKey : option string;
  ec_fromEmail : string;
}.

(** The constructor's merge: explicit setting, then environment, then default. *)
Definition email_constructor (apiUrl apiKey fromEmail : option string)
    (EMAIL_API_URL EMAIL_API_KEY EMAIL_FROM : option string) : EmailConfig :=
  let or a b := match a with Some x => Some x | None => b end in {|
  ec_apiUrl := or apiUrl EMAIL_API_URL;
  ec_apiKey := or apiKey EMAIL_API_KEY;
  ec_fromEmail := default "no-reply@stellarflow.network" (or fromEmail EMAIL_FROM);
|}.

(** The bodies POSTed by the two services. *)
Inductive payload :=
| EmailBody (from : string) (m : EmailMessage) (authorization : option string)
| WebhookBody (eventType timestamp : string) (dispute : DisputeRecord).

Definition newline : string := String (Ascii.ascii_of_nat 10) "".

Section notifications.
Context {H : Type} `{Outside H payload} (config : EmailConfig).

(** [maxRetries: 3, retryDelay: 1000], the other settings being the defaults. *)
Definition notify_retry : RetryConfig :=
  mkRetryConfig 3 1000 (exponentialBackoff DEFAULT_RETRY_CONFIG)
    (retryableStatusCodes DEFAULT_RETRY_CONFIG) None.

Definition await_delay (attempt : nat) (error : js_error) (ms : Z) : M H unit := λ h,
  (Ok tt, wait ms h).

Definition email_send (m : EmailMessage) : M H bool :=
  if truthy_opt (ec_apiUrl config) then
    let apiUrl := default "" (ec_apiUrl config) in
    let authorization :=
      if truthy_opt (ec_apiKey config)
      then Some ("Bearer " +:+ default "" (ec_apiKey config)) else None in
    let m' := if truthy_opt (em_html m) then m
              else mkEmail (em_to m) (em_subject m) (em_text m) None in
    try_catch
      (withRetry notify_retry
         (http_post apiUrl (EmailBody (ec_fromEmail config) m' authorization)) await_delay ;;;
       ret true)
      (λ _, ret false)
  else ret true.

Definition dispatchWebhook (dispute : DisputeRecord) : M H unit :=
  withRetry notify_retry
    (λ h, http_post (default "" (rec_webhookUrl dispute))
            (WebhookBody "dispute.state_changed" (toISOString (now h)) dispute) h)
    await_delay.

Definition email_text (meta : StatusMessage) (dispute : DisputeRecord) : string :=
  sm_message meta +:+ newline +:+ newline +:+
  "Dispute ID: " +:+ rec_id dispute +:+ newline +:+
  "Transaction ID: " +:+ rec_remittanceId dispute +:+ newline +:+
  "Status: " +:+ rec_status dispute +:+ newline +:+
  "Reason: " +:+ rec_reason dispute +:+ newline +:+ newline +:+
  "Thank you," +:+ newline +:+ "StellarFlow Support".

Definition notifyStateChange (dispute : DisputeRecord) : M H unit :=
  try_catch
    ((if truthy_opt (rec_email dispute) then
        match STATUS_MESSAGES (rec_status dispute) with
        | Some meta =>
            email_send (mkEmail (default "" (rec_email dispute)) (sm_subject meta)
                          (email_text meta dispute) None) ;;; ret tt
        | None => throw (Error "Cannot read properties of undefined")
        end
      else ret tt) ;;;
     (if truthy_opt (rec_webhookUrl dispute) then dispatchWebhook dispute else ret tt))
    (λ _, ret tt).

(** Whatever the mail provider and the endpoint answer, the notification completes. *)
Lemma notifyStateChange_completes dispute h :
  notifyStateChange dispute h = (Ok tt, final (notifyStateChange dispute) h).
Proof.
  unfold final, notifyStateChange, try_catch.
  destruct (bind _ _ h) as [[[]|e] h'] eqn:E; done.
Qed.
End notifications.

(** ** The service *)

Section service.
Context {D H U : Type} `{!PrismaTable string DisputeRow D} `{!Outside H payload}.
Context (JSON_stringify : U → exc string) (decimal : number → number) (config : EmailConfig).

Notation run := (M (svc D H)).

Definition new_Date : run Z := λ w, (Ok (now (svc_env w)), w).

(** The [catch] around every operation. *)
Definition guarded {R} (failure : string → R) (body : run R) : run R :=
  try_catch body (λ error, ret (failure (err_message error))).

(** The row [create] writes: the columns of [data], the generated key and the
    database's timestamps. *)
Definition opened_row (input : OpenDisputeInput U) (details : option string) (t : Z)
    (id : string) : DisputeRow :=
  mkRow id (oi_remittanceId input) (oi_userId input) "open" (oi_reason input) details
    (oi_email input) (oi_webhookUrl input) None None None None None t t.

Definition stringify_details (details : option U) : run (option string) :=
  match details with
  | Some d => s <- lift_exc (JSON_stringify d) ;; ret (Some s)
  | None => ret None
  end.

Definition openDispute (input : OpenDisputeInput U) : run DisputeResult :=
  guarded DisputeFailure
    (if negb (truthy_str (oi_remittanceId input)) || negb (truthy_str (oi_userId input)) ||
        negb (truthy_str (oi_reason input))
     then ret (DisputeFailure "remittanceId, userId and reason are required")
     else
       details <- stringify_details (oi_details input) ;;
       t <- new_Date ;;
       created <- on_db (create (opened_row input details t)) ;;
       on_env (notifyStateChange config (toDisputeRecord created)) ;;;
       ret (DisputeSuccess (toDisputeRecord created))).

Definition matches_filter (filters : DisputeListFilters) (row : DisputeRow) : bool :=
  (negb (truthy_opt (fl_status filters)) || bool_decide (fl_status filters = Some (row_status row))) &&
  (negb (truthy_opt (fl_userId filters)) || bool_decide (fl_userId filters = Some (row_userId row))).

(** [orderBy: [{ createdAt: "desc" }, { id: "asc" }]] *)
Definition list_order (r1 r2 : DisputeRow) : Prop :=
  row_createdAt r2 < row_createdAt r1 ∨
  (row_createdAt r1 = row_createdAt r2 ∧ String.leb (row_id r1) (row_id r2) = true).

#[export] Instance list_order_dec : RelDecision list_order.
Proof. intros r1 r2. unfold list_order. apply _. Defined.

Definition list_limit (limit : option Z) : Z := Z.min (Z.max (default 50 limit) 1) 200.

(** [findMany] with [where], [orderBy], [take] and [skip]. *)
Definition page (filters : DisputeListFilters) (limit offset : Z) (l : list DisputeRow) :
    list DisputeRow :=
  take (Z.to_nat limit) (drop (Z.to_nat offset)
    (merge_sort list_order (filter (λ r, matches_filter filters r = true) l))).

Definition listDisputes (filters : DisputeListFilters) : run DisputeListResult :=
  guarded ListFailure
    (let limit := list_limit (fl_limit filters) in
     let offset := default 0 (fl_offset filters) in
     if offset <? 0 then throw (Error "Invalid value for skip argument")
     else
       rows <- query findAll ;;
       total <- query (count (matches_filter filters)) ;;
       ret (ListSuccess (toDisputeRecord <$> page filters limit offset rows) total)).

Definition getDispute (disputeId : string) : run DisputeResult :=
  guarded DisputeFailure
    (row <- query (findUnique disputeId) ;;
     match row with
     | None => ret (DisputeFailure "Dispute ticket not found")
     | Some row => ret (DisputeSuccess (toDisputeRecord row))
     end).

(** The columns an update writes, and Prisma's [@updatedAt]. *)
Definition transition_data (input : TransitionDisputeInput) (t : Z) (row : DisputeRow) :
    DisputeRow :=
  let closing := bool_decide (ti_toStatus input = "closed") in
  let or a b := match a with Some x => Some x | None => b end in
  mkRow (row_id row) (row_remittanceId row) (row_userId row) (ti_toStatus input)
    (row_reason row) (row_details row)
    (or (ti_email input) (row_email row)) (or (ti_webhookUrl input) (row_webhookUrl row))
    (row_refundAmount row) (row_refundedById row) (row_refundedAt row)
    (if closing then ti_byId input else row_resolvedById row)
    (if closing then Some t else row_resolvedAt row)
    (row_createdAt row) t.

Definition transitionStatus (disputeId : string) (input : TransitionDisputeInput) :
    run DisputeResult :=
  guarded DisputeFailure
    (existing <- query (findUnique disputeId) ;;
     match existing with
     | None => ret (DisputeFailure "Dispute ticket not found")
     | Some existing =>
         if negb (includes DISPUTE_STATUSES (ti_toStatus input)) then
           ret (DisputeFailure
             "Invalid target status. Must be one of: open, investigating, refunded, closed")
         else if negb (includes (DISPUTE_TRANSITIONS (row_status existing)) (ti_toStatus input)) then
           ret (DisputeFailure ("Cannot transition dispute from '" +:+ row_status existing +:+
                                "' to '" +:+ ti_toStatus input +:+ "'"))
         else
           t <- new_Date ;;
           updated <- on_db (update disputeId (transition_data input t)) ;;
           on_env (notifyStateChange config (toDisputeRecord updated)) ;;;
           ret (DisputeSuccess (toDisputeRecord updated))
     end).

Definition refund_data (input : ManualRefundInput) (t : Z) (row : DisputeRow) : DisputeRow :=
  let or a b := match a with Some x => Some x | None => b end in
  mkRow (row_id row) (row_remittanceId row) (row_userId row) "refunded"
    (row_reason row) (row_details row)
    (or (ri_email input) (row_email row)) (or (ri_webhookUrl input) (row_webhookUrl row))
    (decimal <$> ri_refundAmount input) (ri_byId input) (Some t)
    (row_resolvedById row) (row_resolvedAt row)
    (row_createdAt row) t.

Definition triggerManualRefund (disputeId : string) (input : ManualRefundInput) :
    run DisputeResult :=
  guarded DisputeFailure
    (existing <- query (findUnique disputeId) ;;
     match existing with
     | None => ret (DisputeFailure "Dispute ticket not found")
     | Some existing =>
         if decide (row_status existing = "closed") then
           ret (DisputeFailure "Cannot refund a dispute that has already been closed")
         else
           t <- new_Date ;;
           updated <- on_db (update disputeId (refund_data input t)) ;;
           on_env (notifyStateChange config (toDisputeRecord updated)) ;;;
           ret (DisputeSuccess (toDisputeRecord updated))
     end).

(** ** Sequences of calls *)

Inductive dispute_op :=
| OpenDispute (input : OpenDisputeInput U)
| ListDisputes (filters : DisputeListFilters)
| GetDispute (disputeId : string)
| TransitionStatus (disputeId : string) (input : TransitionDisputeInput)
| TriggerManualRefund (disputeId : string) (input : ManualRefundInput).

Definition dispute_step (w : svc D H) (op : dispute_op) : svc D H :=
  match op with
  | OpenDispute i => final (openDispute i) w
  | ListDisputes f => final (listDisputes f) w
  | GetDispute k => final (getDispute k) w
  | TransitionStatus k i => final (transitionStatus k i) w
  | TriggerManualRefund k i => final (triggerManualRefund k i) w
  end.

(** What the caller of an operation gets. *)
Definition dispute_answer (w : svc D H) (op : dispute_op) :
    exc DisputeResult + exc DisputeListResult :=
  match op with
  | OpenDispute i => inl (outcome (openDispute i) w)
  | ListDisputes f => inr (outcome (listDisputes f) w)
  | GetDispute k => inl (outcome (getDispute k) w)
  | TransitionStatus k i => inl (outcome (transitionStatus k i) w)
  | TriggerManualRefund k i => inl (outcome (triggerManualRefund k i) w)
  end.

Definition dispute_run : svc D H → list dispute_op → svc D H := foldl dispute_step.

(** A step of the documented diagram. *)
Definition diagram (s1 s2 : string) : Prop := s2 ∈ DISPUTE_TRANSITIONS s1.

(** ** Lemmas *)

Definition ticket (w : svc D H) (k : string) : option DisputeRow := rows (svc_db w) !! k.

Lemma transitions_valid s1 s2 : diagram s1 s2 → s2 ∈ DISPUTE_STATUSES.
Proof.
  unfold diagram, DISPUTE_TRANSITIONS, DISPUTE_STATUSES.
  repeat case_decide; set_solver.
Qed.

(** The last two calls of every writing operation. *)
Lemma notify_and_return rec (w : svc D H) :
  (on_env (notifyStateChange config rec) ;;; ret (DisputeSuccess rec)) w =
  (Ok (DisputeSuccess rec), final (on_env (notifyStateChange config rec)) w).
Proof.
  unfold bind, on_env, final. by rewrite notifyStateChange_completes.
Qed.

Lemma query_ok {A} (q : D → exc A) (w w' : svc D H) a :
  query q w = (Ok a, w') → q (svc_db w) = Ok a ∧ w' = w.
Proof. unfold query. by intros [= -> ->]. Qed.

Lemma updates_and_notifies k f (w : svc D H) :
  let c := guarded DisputeFailure
             (updated <- on_db (update k f) ;;
              on_env (notifyStateChange config (toDisputeRecord updated)) ;;;
              ret (DisputeSuccess (toDisputeRecord updated))) in
  (∃ row, ticket w k = Some row ∧
    outcome c w = Ok (DisputeSuccess (toDisputeRecord (f row))) ∧
    rows (svc_db (final c w)) = <[k := f row]> (rows (svc_db w))) ∨
  (∃ msg, outcome c w = Ok (DisputeFailure msg)) ∧ rows (svc_db (final c w)) = rows (svc_db w).
Proof.
  intros c. unfold outcome, final.
  destruct (update k f (svc_db w)) as [[r|e] d] eqn:E.
  - assert (c w = (Ok (DisputeSuccess (toDisputeRecord r)),
        final (on_env (notifyStateChange config (toDisputeRecord r))) (mkSvc d (svc_env w)))) as ->.
    { subst c. unfold guarded, try_catch. unfold bind at 1, on_db. rewrite E.
      by rewrite notify_and_return. }
    left. apply update_ok in E as (row & Hr & -> & Hd). exists row. split; [done|].
    split; [done|]. cbn [snd]. by rewrite on_env_db.
  - assert (c w = (Ok (DisputeFailure (err_message e)), mkSvc d (svc_env w))) as ->.
    { subst c. unfold guarded, try_catch, bind, on_db. by rewrite E. }
    apply update_err in E. simpl. eauto.
Qed.

(** The two ways [transitionStatus] can end. *)
Lemma transitionStatus_cases disputeId input (w : svc D H) :
  let f := transition_data input (now (svc_env w)) in
  let c := transitionStatus disputeId input in
  (∃ row, ticket w disputeId = Some row ∧ diagram (row_status row) (ti_toStatus input) ∧
    outcome c w = Ok (DisputeSuccess (toDisputeRecord (f row))) ∧
    rows (svc_db (final c w)) = <[disputeId := f row]> (rows (svc_db w))) ∨
  (∃ msg, outcome c w = Ok (DisputeFailure msg)) ∧ rows (svc_db (final c w)) = rows (svc_db w).
Proof.
  intros f c. destruct (findUnique disputeId (svc_db w)) as [[row|]|e] eqn:E;
    [|right; subst c; unfold outcome, final, transitionStatus, guarded, try_catch, bind, query;
      rewrite E; eauto..].
  apply findUnique_ok in E as E'.
  pose proof (updates_and_notifies disputeId f w) as Hu. cbv zeta in Hu. revert Hu.
  set (c' := guarded DisputeFailure _). intros Hu.
  assert (c w =
    if includes DISPUTE_STATUSES (ti_toStatus input)
    then if includes (DISPUTE_TRANSITIONS (row_status row)) (ti_toStatus input) then c' w
         else (Ok (DisputeFailure ("Cannot transition dispute from '" +:+ row_status row +:+
                                "' to '" +:+ ti_toStatus input +:+ "'")), w)
    else (Ok (DisputeFailure
             "Invalid target status. Must be one of: open, investigating, refunded, closed"), w))
    as Hc.
  { subst c. unfold transitionStatus, guarded at 1, try_catch at 1, bind at 1, query. rewrite E.
    destruct (includes DISPUTE_STATUSES _); [|reflexivity]. destruct (includes _ _); reflexivity. }
  unfold outcome, final in *. rewrite Hc. clear Hc.
  destruct (includes DISPUTE_STATUSES _); [|by eauto].
  destruct (includes _ _) eqn:E2; [|by eauto].
  apply bool_decide_eq_true in E2.
  destruct Hu as [(row' & Hr & Ho & Hd)|?]; [|by right].
  assert (row' = row) as -> by (unfold ticket in Hr; congruence). left. by exists row.
Qed.

Lemma triggerManualRefund_cases disputeId input (w : svc D H) :
  let f := refund_data input (now (svc_env w)) in
  let c := triggerManualRefund disputeId input in
  (∃ row, ticket w disputeId = Some row ∧ row_status row ≠ "closed" ∧
    outcome c w = Ok (DisputeSuccess (toDisputeRecord (f row))) ∧
    rows (svc_db (final c w)) = <[disputeId := f row]> (rows (svc_db w))) ∨
  (∃ msg, outcome c w = Ok (DisputeFailure msg)) ∧ rows (svc_db (final c w)) = rows (svc_db w).
Proof.
  intros f c. destruct (findUnique disputeId (svc_db w)) as [[row|]|e] eqn:E;
    [|right; subst c; unfold outcome, final, triggerManualRefund, guarded, try_catch, bind, query;
      rewrite E; eauto..].
  apply findUnique_ok in E as E'.
  pose proof (updates_and_notifies disputeId f w) as Hu. cbv zeta in Hu. revert Hu.
  set (c' := guarded DisputeFailure _). intros Hu.
  assert (c w = if decide (row_status row = "closed")
    then (Ok (DisputeFailure "Cannot refund a dispute that has already been closed"), w)
    else c' w) as Hc.
  { subst c. unfold triggerManualRefund, guarded at 1, try_catch at 1, bind at 1, query.
    rewrite E. by destruct (decide _). }
  unfold outcome, final in *. rewrite Hc. clear Hc.
  destruct (decide _); [by eauto|].
  destruct Hu as [(row' & Hr & Ho & Hd)|?]; [|by right].
  assert (row' = row) as -> by (unfold ticket in Hr; congruence). left. by exists row.
Qed.

Lemma openDispute_keeps input k row (w : svc D H) :
  ticket w k = Some row → ticket (final (openDispute input) w) k = Some row.
Proof.
  intros Hr. unfold final, openDispute, guarded, try_catch.
  destruct (_ || _); [done|].
  unfold bind at 1. unfold stringify_details.
  destruct (oi_details input) as [d|]; [unfold bind at 1, lift_exc; destruct (JSON_stringify d)|];
    try done; cbn [ret]; unfold bind at 1, new_Date, bind at 1, on_db;
    (destruct (create _ _) as [[r|e] d'] eqn:E; [rewrite notify_and_return; cbn [snd];
       unfold ticket; rewrite on_env_db|]; cbn [snd];
     change d' with (Ok (A:=DisputeRow) r, d').2 || change d' with (Throw (A:=DisputeRow) e, d').2;
     rewrite <-E; by apply create_keeps).
Qed.

(** What one call may do to a ticket. *)
Lemma dispute_step_ticket op k row (w : svc D H) :
  ticket w k = Some row →
  ticket (dispute_step w op) k = Some row ∨
  ∃ row', ticket (dispute_step w op) k = Some row' ∧
    ((∃ to, diagram (row_status row) to ∧ row_status row' = to) ∨
     (row_status row ≠ "closed" ∧ row_status row' = "refunded")).
Proof.
  intros Hr. destruct op as [i|f|k'|k' i|k' i]; simpl.
  - left. by apply openDispute_keeps.
  - left. unfold final, listDisputes, guarded, try_catch, bind, query, throw.
    destruct (_ <? _); [done|]. destruct (findAll _); [|done]. by destruct (count _ _).
  - left. unfold final, getDispute, guarded, try_catch, bind, query.
    by destruct (findUnique _ _) as [[]|].
  - destruct (transitionStatus_cases k' i w) as [(row0 & Hr0 & Hd & _ & Hs)|[_ Hs]];
      unfold ticket in *; rewrite Hs; [|by left].
    destruct (decide (k' = k)) as [->|]; [|rewrite lookup_insert_ne by done; by left].
    right. rewrite lookup_insert_eq. eexists. split; [done|]. left.
    replace row with row0 by congruence. by exists (ti_toStatus i).
  - destruct (triggerManualRefund_cases k' i w) as [(row0 & Hr0 & Hd & _ & Hs)|[_ Hs]];
      unfold ticket in *; rewrite Hs; [|by left].
    destruct (decide (k' = k)) as [->|]; [|rewrite lookup_insert_ne by done; by left].
    right. rewrite lookup_insert_eq. eexists. split; [done|]. right.
    by replace row with row0 by congruence.
Qed.

(** A manual refund moves along the diagram too, or repeats. *)
Lemma refund_on_diagram s :
  s ∈ DISPUTE_STATUSES → s ≠ "closed" → rtc diagram s "refunded".
Proof.
  intros Hs Hc. unfold DISPUTE_STATUSES in Hs.
  repeat (apply elem_of_cons in Hs as [->|Hs]); [..|done|by apply elem_of_nil in Hs];
    [apply rtc_once; compute; set_solver..|done].
Qed.

(** ** Properties *)

(** [transitionStatus] never throws. It succeeds only when the ticket exists and the
    diagram has the step, and then it writes exactly the requested columns of that ticket
    and returns the written row; in every other case no row changes. *)
Theorem transitionStatus_follows_diagram disputeId input (w : svc D H) :
  ∃ r, outcome (transitionStatus disputeId input) w = Ok r ∧
  match r with
  | DisputeSuccess rec =>
      ∃ row, ticket w disputeId = Some row ∧ diagram (row_status row) (ti_toStatus input) ∧
        rec = toDisputeRecord (transition_data input (now (svc_env w)) row) ∧
        rows (svc_db (final (transitionStatus disputeId input) w)) =
          <[disputeId := transition_data input (now (svc_env w)) row]> (rows (svc_db w))
  | DisputeFailure _ =>
      rows (svc_db (final (transitionStatus disputeId input) w)) = rows (svc_db w)
  end.
Proof.
  destruct (transitionStatus_cases disputeId input w)
    as [(row & Hr & Hd & -> & Hs)|[[msg ->] Hs]]; (eexists; split; [done|]);
    [by exists row|done].
Qed.

(** C26. Over every sequence of calls, with any failures of the database, the mail
    provider and the endpoints, the status of a ticket moves only forward along the
    documented diagram, and the row of a closed ticket never changes again. *)
Theorem dispute_lifecycle ops k row (w : svc D H) :
  ticket w k = Some row → row_status row ∈ DISPUTE_STATUSES →
  ∃ row', ticket (dispute_run w ops) k = Some row' ∧
    rtc diagram (row_status row) (row_status row') ∧
    (row_status row = "closed" → row' = row).
Proof.
  revert row w. induction ops as [|op ops IH]; intros row w Hr Hs; simpl.
  { exists row. by split_and!. }
  destruct (dispute_step_ticket op k row w Hr) as [Hr1|(row1 & Hr1 & Hm)].
  { by apply IH. }
  assert (row_status row ≠ "closed" ∧ rtc diagram (row_status row) (row_status row1) ∧
          row_status row1 ∈ DISPUTE_STATUSES) as (Hc & Hd & Hs1).
  { destruct Hm as [(to & Hd & ->)|[Hc ->]].
    - split; [intros E; rewrite E in Hd; by apply elem_of_nil in Hd|].
      split; [by apply rtc_once|by eapply transitions_valid].
    - split; [done|]. split; [by apply refund_on_diagram|compute; set_solver]. }
  destruct (IH row1 _ Hr1 Hs1) as (row' & Hr' & Hd' & _).
  exists row'. split; [done|]. split; [by etrans|done].
Qed.

(** [triggerManualRefund] never throws. It succeeds exactly when it found a ticket
    that is not closed and could write it: the ticket becomes [refunded] with the given
    amount and operator. Otherwise no row changes. *)
Theorem triggerManualRefund_refunds disputeId input (w : svc D H) :
  ∃ r, outcome (triggerManualRefund disputeId input) w = Ok r ∧
  match r with
  | DisputeSuccess rec =>
      ∃ row, ticket w disputeId = Some row ∧ row_status row ≠ "closed" ∧
        rec = toDisputeRecord (refund_data input (now (svc_env w)) row) ∧
        rec_status rec = "refunded" ∧
        rec_refundAmount rec = decimal <$> ri_refundAmount input ∧
        rows (svc_db (final (triggerManualRefund disputeId input) w)) =
          <[disputeId := refund_data input (now (svc_env w)) row]> (rows (svc_db w))
  | DisputeFailure _ =>
      rows (svc_db (final (triggerManualRefund disputeId input) w)) = rows (svc_db w)
  end.
Proof.
  destruct (triggerManualRefund_cases disputeId input w)
    as [(row & Hr & Hd & -> & Hs)|[[msg ->] Hs]]; (eexists; split; [done|]);
    [by exists row|done].
Qed.

(** ** Listing *)

Lemma listDisputes_page filters l total (w : svc D H) :
  findAll (svc_db w) = Ok l → count (matches_filter filters) (svc_db w) = Ok total →
  0 ≤ default 0 (fl_offset filters) →
  listDisputes filters w =
    (Ok (ListSuccess (toDisputeRecord <$>
           page filters (list_limit (fl_limit filters)) (default 0 (fl_offset filters)) l) total), w).
Proof.
  intros El Ec Ho. unfold listDisputes, guarded, try_catch.
  destruct (Z.ltb_spec (default 0 (fl_offset filters)) 0); [lia|].
  unfold bind, query. by rewrite El, Ec.
Qed.

Lemma fmap_join {A B} (f : A → B) (ls : list (list A)) : f <$> mjoin ls = mjoin (fmap f <$> ls).
Proof.
  induction ls as [|l ls IH]; [done|]. change (f <$> (l ++ mjoin ls) = (f <$> l) ++ mjoin (fmap f <$> ls)).
  by rewrite fmap_app, IH.
Qed.

Lemma pages_concat {A} (n size : nat) (l : list A) :
  mjoin ((λ i, take size (drop (i * size) l)) <$> seq 0 n) = take (n * size) l.
Proof.
  induction n as [|n IH]; [done|].
  rewrite seq_S, fmap_app, join_app, IH. simpl. rewrite app_nil_r.
  rewrite (Nat.add_comm size). by rewrite take_take_drop.
Qed.

Definition with_offset (filters : DisputeListFilters) (offset : Z) : DisputeListFilters :=
  mkFilters (fl_status filters) (fl_userId filters) (fl_limit filters) (Some offset).

(** Paging is exact: while the table does not change, the pages at offsets 0, L, 2L, ...
    (L being the clamped limit) hold between them every ticket that passes the filter,
    once, and no page holds more than 200. *)
Theorem listDisputes_pages filters l total (w : svc D H) n :
  let L := list_limit (fl_limit filters) in
  findAll (svc_db w) = Ok l → count (matches_filter filters) (svc_db w) = Ok total →
  (total ≤ n * Z.to_nat L)%nat →
  ∃ pages : nat → list DisputeRecord, (∀ i, (i < n)%nat →
      listDisputes (with_offset filters (Z.of_nat i * L)) w = (Ok (ListSuccess (pages i) total), w) ∧
      (length (pages i) ≤ 200)%nat) ∧
    mjoin (pages <$> seq 0 n) ≡ₚ
      toDisputeRecord <$> filter (λ r, matches_filter filters r = true)
                            (map_to_list (rows (svc_db w))).*2.
Proof.
  intros L El Ec Hn.
  exists (λ i, toDisputeRecord <$> page filters L (Z.of_nat i * L) l).
  assert (1 ≤ L ≤ 200) as HL by (unfold L, list_limit; lia).
  pose proof (count_ok _ _ _ Ec) as Ht. pose proof (findAll_ok _ _ El) as Hp. split.
  - intros i Hi. split; [exact (listDisputes_page (with_offset filters (Z.of_nat i * L)) l total w El Ec ltac:(simpl; lia))|].
    rewrite length_fmap. unfold page. rewrite length_take. lia.
  - set (sorted := merge_sort list_order (filter (λ r, matches_filter filters r = true) l)).
    assert (mjoin ((λ i : nat, toDisputeRecord <$> page filters L (Z.of_nat i * L) l) <$> seq 0 n) =
            toDisputeRecord <$> take (n * Z.to_nat L) sorted) as ->.
    { rewrite <-pages_concat. rewrite fmap_join, <-list_fmap_compose.
      f_equal. apply list_fmap_ext. intros j i _. unfold compose, page. do 3 f_equal. lia. }
    assert (sorted ≡ₚ filter (λ r, matches_filter filters r = true)
              (map_to_list (rows (svc_db w))).*2) as Hs.
    { unfold sorted. by rewrite merge_sort_Permutation, Hp. }
    rewrite take_ge by (rewrite Hs; lia). by rewrite Hs.
Qed.
End service.

(** ** Notifications are best effort *)

Section best_effort.
Context {D H1 H2 U : Type} `{!PrismaTable string DisputeRow D}.
Context `{!Outside H1 payload} `{!Outside H2 payload}.
Context (JSON_stringify : U → exc string) (decimal : number → number).
Context (config1 config2 : EmailConfig).

Definition same_effect {A} (c1 : M (svc D H1) A) (c2 : M (svc D H2) A) d h1 h2 : Prop :=
  outcome c1 (mkSvc d h1) = outcome c2 (mkSvc d h2) ∧
  svc_db (final c1 (mkSvc d h1)) = svc_db (final c2 (mkSvc d h2)).

Lemma writes_same_effect (write : M D DisputeRow) d h1 h2 :
  same_effect
    (guarded DisputeFailure (r <- on_db write ;;
       on_env (notifyStateChange config1 (toDisputeRecord r)) ;;;
       ret (DisputeSuccess (toDisputeRecord r))))
    (guarded DisputeFailure (r <- on_db write ;;
       on_env (notifyStateChange config2 (toDisputeRecord r)) ;;;
       ret (DisputeSuccess (toDisputeRecord r)))) d h1 h2.
Proof.
  unfold same_effect, outcome, final, guarded, try_catch, on_db. unfold bind at 1 3 5 7.
  cbn [svc_db]. destruct (write d) as [[r|e] d']; [|done].
  rewrite !notify_and_return. cbn [fst snd]. by rewrite !on_env_db.
Qed.

Lemma dated_writes_same_effect (write : Z → M D DisputeRow) d h1 h2 :
  now h1 = now h2 →
  same_effect
    (guarded DisputeFailure (t <- new_Date ;; r <- on_db (write t) ;;
       on_env (notifyStateChange config1 (toDisputeRecord r)) ;;;
       ret (DisputeSuccess (toDisputeRecord r))))
    (guarded DisputeFailure (t <- new_Date ;; r <- on_db (write t) ;;
       on_env (notifyStateChange config2 (toDisputeRecord r)) ;;;
       ret (DisputeSuccess (toDisputeRecord r)))) d h1 h2.
Proof.
  intros Hnow. pose proof (writes_same_effect (write (now h1)) d h1 h2) as Hs.
  unfold same_effect, outcome, final, guarded, try_catch in *.
  unfold bind at 1 4 7 10, new_Date. cbn [svc_env]. by rewrite <-Hnow.
Qed.

(** A first call that only reads, and reads the same in both worlds. *)
Lemma read_same_effect {A R} (F : string → R) c1 c2 k1 k2 d h1 h2 (r : exc A) :
  c1 (mkSvc d h1) = (r, mkSvc d h1) → c2 (mkSvc d h2) = (r, mkSvc d h2) →
  (∀ x, r = Ok x → same_effect (guarded F (k1 x)) (guarded F (k2 x)) d h1 h2) →
  same_effect (guarded F (x <- c1 ;; k1 x)) (guarded F (x <- c2 ;; k2 x)) d h1 h2.
Proof.
  unfold same_effect, outcome, final, guarded, try_catch, bind. intros -> ->.
  destruct r; [by eauto|done].
Qed.

(** Neither the answer of an operation nor what it writes depends on the mail
    provider, on the webhook endpoints or on the mail configuration: with any two outside
    worlds that show the same time the caller gets the same answer and the database ends
    in the same state. *)
Theorem notifications_best_effort op (d : D) (h1 : H1) (h2 : H2) :
  now h1 = now h2 →
  dispute_answer JSON_stringify decimal config1 (mkSvc d h1) op =
    dispute_answer JSON_stringify decimal config2 (mkSvc d h2) op ∧
  svc_db (dispute_step JSON_stringify decimal config1 (mkSvc d h1) op) =
    svc_db (dispute_step JSON_stringify decimal config2 (mkSvc d h2) op).
Proof.
  intros Hnow.
  destruct op as [i|f|k|k i|k i]; cbn [dispute_answer dispute_step].
  - enough (same_effect (openDispute JSON_stringify config1 i)
      (openDispute JSON_stringify config2 i) d h1 h2) as [-> ->] by done.
    unfold openDispute. destruct (_ || _); [done|].
    apply (read_same_effect _ _ _ _ _ _ _ _ (outcome (stringify_details JSON_stringify
      (oi_details i)) (mkSvc d h1))); [by destruct (oi_details i) as [u|]; [|];
        try (cbn; unfold bind, lift_exc, outcome; destruct (JSON_stringify u))..|].
    intros details _. by apply (dated_writes_same_effect (λ t, create (opened_row i details t))).
  - unfold outcome, final, listDisputes, guarded, try_catch, bind, query, throw.
    destruct (_ <? _); [done|]. cbn [svc_db]. destruct (findAll d); [|done].
    by destruct (count _ d).
  - unfold outcome, final, getDispute, guarded, try_catch, bind, query. cbn [svc_db].
    by destruct (findUnique k d) as [[]|].
  - enough (same_effect (transitionStatus config1 k i) (transitionStatus config2 k i) d h1 h2)
      as [-> ->] by done.
    apply (read_same_effect _ _ _ _ _ _ _ _ (findUnique k d)); [done..|].
    intros [row|] _; [|done]. destruct (negb _); [done|]. destruct (negb _); [done|].
    by apply (dated_writes_same_effect (λ t, update k (transition_data i t))).
  - enough (same_effect (triggerManualRefund decimal config1 k i)
      (triggerManualRefund decimal config2 k i) d h1 h2) as [-> ->] by done.
    apply (read_same_effect _ _ _ _ _ _ _ _ (findUnique k d)); [done..|].
    intros [row|] _; [|done]. destruct (decide _); [done|].
    by apply (dated_writes_same_effect (λ t, update k (refund_data decimal i t))).
Qed.
End best_effort.

(** ** Concrete runs

    A table in memory, a quiet outside world (its state is the clock) and a world whose
    requests all fail. *)

Definition failing_outside : Outside Z payload := {|
  now t := t;
  http_post _ _ := throw (mk_error "503" None (Some (Some 503)));
  wait ms t := t + ms;
|}.

Definition sample_row (status : string) (createdAt : Z) (id : string) : DisputeRow :=
  mkRow id "r1" "u1" status "payout timeout" None (Some "a@b.c") (Some "http://hook") None None None
    None None createdAt createdAt.

Definition sample_table : gmap string DisputeRow := {[
  "d1" := sample_row "open" 10 "d1"; "d2" := sample_row "refunded" 30 "d2";
  "d3" := sample_row "closed" 20 "d3" ]}.

Definition sample_world : svc (gmap string DisputeRow) Z := mkSvc sample_table 1000.
Definition sample_config : EmailConfig :=
  email_constructor None None None (Some "http://mail") None None.
Definition no_json (u : unit) : exc string := Ok "{}".
Definition sample_ops : list (dispute_op (U:=unit)) :=
  [TransitionStatus "d1" (mkTransition "investigating" None None None);
   TransitionStatus "d1" (mkTransition "open" None None None);
   TriggerManualRefund "d1" (mkRefund (Some (num_of_Z 5)) (Some "op") None None);
   TransitionStatus "d1" (mkTransition "closed" (Some "op") None None);
   TriggerManualRefund "d1" (mkRefund None None None None)].

Example sample_run_status :
  row_status <$> ticket (dispute_run no_json id sample_config sample_world sample_ops) "d1" =
  Some "closed".
Proof. by vm_compute. Qed.

Lemma dispute_lifecycle_witness :
  ∃ row', ticket (dispute_run no_json id sample_config sample_world sample_ops) "d1" = Some row' ∧
    rtc diagram "open" (row_status row') ∧ ("open" = "closed" → row' = sample_row "open" 10 "d1").
Proof.
  apply (dispute_lifecycle no_json id sample_config sample_ops "d1" (sample_row "open" 10 "d1")).
  - by vm_compute.
  - apply (bool_decide_unpack _). by vm_compute.
Defined.

Definition all_tickets : DisputeListFilters := mkFilters None None (Some 2) None.

Lemma listDisputes_pages_witness :
  let L := list_limit (Some 2) in
  ∃ pages : nat → list DisputeRecord, (∀ i, (i < 2)%nat →
      listDisputes (with_offset all_tickets (Z.of_nat i * L)) sample_world =
        (Ok (ListSuccess (pages i) 3), sample_world) ∧ (length (pages i) ≤ 200)%nat) ∧
    mjoin (pages <$> seq 0 2) ≡ₚ
      toDisputeRecord <$> filter (λ r, matches_filter all_tickets r = true)
                            (map_to_list sample_table).*2.
Proof.
  refine (listDisputes_pages all_tickets (map_to_list sample_table).*2 3 sample_world 2 _ _ _);
    [reflexivity|by vm_compute|apply (bool_decide_unpack _); by vm_compute].
Defined.

Definition sample_refund : dispute_op (U:=unit) :=
  TriggerManualRefund "d2" (mkRefund (Some (num_of_Z 7)) None None None).

Lemma notifications_best_effort_witness :
  dispute_answer (Outside0:=quiet_outside payload) no_json id sample_config sample_world
      sample_refund =
    dispute_answer (Outside0:=failing_outside) no_json id sample_config sample_world
      sample_refund ∧
  svc_db (dispute_step (Outside0:=quiet_outside payload) no_json id sample_config sample_world
      sample_refund) =
    svc_db (dispute_step (Outside0:=failing_outside) no_json id sample_config sample_world
      sample_refund).
Proof.
  exact (notifications_best_effort (Outside0:=quiet_outside payload) (Outside1:=failing_outside)
    no_json id sample_config sample_config sample_refund sample_table 1000 1000 eq_refl).
Defined.

(** The diagram has no step from [refunded] to itself, yet a second manual refund of the
    same ticket succeeds and replaces the recorded amount. *)
Lemma refund_repeats :
  let once := dispute_step no_json id sample_config sample_world
    (TriggerManualRefund "d1" (mkRefund (Some (num_of_Z 5)) None None None)) in
  let twice := dispute_step no_json id sample_config once
    (TriggerManualRefund "d1" (mkRefund (Some (num_of_Z 7)) None None None)) in
  (row_refundAmount <$> ticket once "d1" = Some (Some (num_of_Z 5))) ∧
  (row_refundAmount <$> ticket twice "d1" = Some (Some (num_of_Z 7))) ∧
  ¬ diagram "refunded" "refunded".
Proof.
  split_and!; [by vm_compute..|].
  unfold diagram. apply (bool_decide_unpack _). by vm_compute.
Qed.
