(* ===== verification/MultiSig.v ===== *)
(** * Multi-signature price updates: [src/src/services/multiSigService.ts]

    Requests for a price update and the signatures collected for them, in two tables: the
    requests under their numeric id, the signatures under the unique pair of request and
    signer key. The signer, the lockdown switch, the remote servers, the Stellar
    submission and the metrics are the outside world, of which nothing is assumed. *)

From S2P Require Import Prelude JsString JsNumber Prisma Service.
From stdpp Require Import pretty.

Local Open Scope Z_scope.

Record SignatureRequest := mkSignatureRequest {
  sr_multiSigPriceId : Z;
  sr_currency : string;
  sr_rate : number;
  sr_source : string;
  sr_memoId : string;
  sr_requiredSignatures : Z;
}.

Record SignaturePayload := mkSignaturePayload {
  sp_multiSigPriceId : Z;
  sp_currency : string;
  sp_rate : number;
  sp_source : string;
  sp_memoId : string;
  sp_signerPublicKey : string;
}.

Record SignatureData := mkSignatureData {
  sd_signature : option string;
  sd_signerPublicKey : option string;
  sd_signerName : option string;
}.

(** The remote answer: its own signature fields, or nested under [data]. *)
Record RemoteSignatureResponse := mkRemote {
  rr_success : option bool;
  rr_error : option string;
  rr_self : SignatureData;
  rr_data : option SignatureData;
}.

(** A row of [MultiSigPrice]; [Dec] is the decimal column type. *)
Record MultiSigPrice (Dec : Type) := mkPrice {
  mp_id : Z;
  mp_priceReviewId : Z;
  mp_currency : string;
  mp_rate : Dec;
  mp_source : string;
  mp_status : string;
  mp_requiredSignatures : Z;
  mp_collectedSignatures : Z;
  mp_memoId : option string;
  mp_stellarTxHash : option string;
  mp_submittedAt : option Z;
  mp_requestedAt : Z;
  mp_expiresAt : Z;
}.
Arguments mkPrice {Dec}.
Arguments mp_id {Dec}.
Arguments mp_priceReviewId {Dec}.
Arguments mp_currency {Dec}.
Arguments mp_rate {Dec}.
Arguments mp_source {Dec}.
Arguments mp_status {Dec}.
Arguments mp_requiredSignatures {Dec}.
Arguments mp_collectedSignatures {Dec}.
Arguments mp_memoId {Dec}.
Arguments mp_stellarTxHash {Dec}.
Arguments mp_submittedAt {Dec}.
Arguments mp_requestedAt {Dec}.
Arguments mp_expiresAt {Dec}.

Record MultiSigSignature := mkSignature {
  ms_multiSigPriceId : Z;
  ms_signerPublicKey : string;
  ms_signerName : string;
  ms_signature : string;
}.

(** What the service reports to the metrics registry. *)
Inductive metric :=
| SuccessfulSubmission (asset : string)
| FailedSubmission (asset reason : string)
| GasUsage (asset : string) (feeStroops : number)
| SubmissionDuration (asset : string).

Class SigningWorld (H : Type) := {
  sw_now : H → Z;
  assertSigningAllowed : M H unit;
  (** [signer.sign(message)], in hexadecimal *)
  signer_sign : string → M H string;
  (** [axios.post(url, payload)] with the bearer token *)
  axios_post_sign : string → string → SignaturePayload → M H RemoteSignatureResponse;
  submitMultiSignedPriceUpdate :
    string → number → string → list (string * string) → M H string;
  markContractSubmitted : Z → string → string → M H unit;
  observe : metric → H → H;
  (** [String(error)]: the class of the error and its message *)
  String_of : js_error → string;
}.

(** ** The service *)

Record MultiSigService := mkService {
  localSignerPublicKey : string;
  signerName : string;
  REQUIRED_SIGNATURES : Z;
}.

Definition SIGNATURE_EXPIRY_MS : Z := 60 * 60 * 1000.

(** The constructor; the key is read from the signer afterwards. *)
Definition multisig_constructor (ORACLE_SIGNER_NAME MULTI_SIG_REQUIRED_COUNT : option string)
    (publicKey : string) : MultiSigService :=
  let or a b := if truthy_opt a then default "" a else b in
  let requiredSignatures := parseInt10 (or MULTI_SIG_REQUIRED_COUNT "2") in {|
  localSignerPublicKey := publicKey;
  signerName := or ORACLE_SIGNER_NAME "oracle-server";
  REQUIRED_SIGNATURES :=
    match requiredSignatures with
    | Some n => if 0 <? n then n else 2
    | None => 2
    end;
|}.

Definition createSignatureMessage (currency rate source : string) : string :=
  "SF-PRICE-" +:+ currency +:+ "-" +:+ rate +:+ "-" +:+ source.

Definition classifyError (error : js_error) : string :=
  let msg := toLowerCase (err_message error) in
  if str_includes msg "timeout" then "timeout"
  else if str_includes msg "validation" then "validation"
  else if str_includes msg "expired" then "expired"
  else if str_includes msg "not found" then "not_found"
  else "unknown".

Definition id_str (n : Z) : string := pretty n.

Section service.
Context {DP DS H Dec : Type}.
Context `{!PrismaTable Z (MultiSigPrice Dec) DP}.
Context `{!PrismaTable (Z * string) MultiSigSignature DS} `{!SigningWorld H}.
Context (dec_of_number : number → Dec) (dec_toString : Dec → string) (dec_toNumber : Dec → number).
Context (self : MultiSigService).

Notation run := (M (svc (DP * DS) H)).

Definition ms_new_Date : run Z := λ w, (Ok (sw_now (svc_env w)), w).
Definition find_price (id : Z) : run (option (MultiSigPrice Dec)) :=
  query (λ d, findUnique id d.1).
Definition update_price (id : Z) (f : MultiSigPrice Dec → MultiSigPrice Dec) :
    run (MultiSigPrice Dec) := on_db (on_fst (update id f)).

Definition set_status (status : string) (p : MultiSigPrice Dec) : MultiSigPrice Dec :=
  mkPrice (mp_id p) (mp_priceReviewId p) (mp_currency p) (mp_rate p) (mp_source p) status
    (mp_requiredSignatures p) (mp_collectedSignatures p) (mp_memoId p) (mp_stellarTxHash p)
    (mp_submittedAt p) (mp_requestedAt p) (mp_expiresAt p).

(** [{ collectedSignatures: { increment: 1 } }] *)
Definition increment_collected (p : MultiSigPrice Dec) : MultiSigPrice Dec :=
  mkPrice (mp_id p) (mp_priceReviewId p) (mp_currency p) (mp_rate p) (mp_source p) (mp_status p)
    (mp_requiredSignatures p) (mp_collectedSignatures p + 1) (mp_memoId p) (mp_stellarTxHash p)
    (mp_submittedAt p) (mp_requestedAt p) (mp_expiresAt p).

Definition set_submission (memoId stellarTxHash : string) (t : Z) (p : MultiSigPrice Dec) :
    MultiSigPrice Dec :=
  mkPrice (mp_id p) (mp_priceReviewId p) (mp_currency p) (mp_rate p) (mp_source p) (mp_status p)
    (mp_requiredSignatures p) (mp_collectedSignatures p) (Some memoId) (Some stellarTxHash)
    (Some t) (mp_requestedAt p) (mp_expiresAt p).

Definition createMultiSigRequest (priceReviewId : Z) (currency : string) (rate : number)
    (source memoId : string) : run SignatureRequest :=
  t <- ms_new_Date ;;
  created <- on_db (on_fst (create (λ id,
    mkPrice id priceReviewId currency (dec_of_number rate) source "PENDING"
      (REQUIRED_SIGNATURES self) 0 (Some memoId) None None t (t + SIGNATURE_EXPIRY_MS)))) ;;
  ret (mkSignatureRequest (mp_id created) currency rate source memoId (REQUIRED_SIGNATURES self)).

Definition approveMultiSigPrice (id : Z) : run unit :=
  update_price id (set_status "APPROVED") ;;; ret tt.

(** The insertion of a signature; a duplicate signer (P2002) is not an error. *)
Definition store_signature (id : Z) (key name signature : string) : run bool :=
  try_catch
    (on_db (on_snd (createUnique (id, key) (mkSignature id key name signature))) ;;; ret true)
    (λ error, if decide (err_code error = Some P2002) then ret false else throw error).

(** What follows the insertion in [signMultiSigPrice] and [requestRemoteSignature]. *)
Definition count_signature (id : Z) : run unit :=
  updated <- update_price id increment_collected ;;
  if mp_requiredSignatures updated <=? mp_collectedSignatures updated
  then approveMultiSigPrice id else ret tt.

(** The expiry check of [signMultiSigPrice] and [collectSignature]. *)
Definition check_expiry (id : Z) (p : MultiSigPrice Dec) : run unit :=
  t <- ms_new_Date ;;
  if mp_expiresAt p <? t then
    update_price id (set_status "EXPIRED") ;;;
    throw (Error ("MultiSigPrice " +:+ id_str id +:+ " has expired"))
  else ret tt.

Definition signMultiSigPrice (id : Z) : run (string * string) :=
  p <- find_price id ;;
  match p with
  | None => throw (Error ("MultiSigPrice " +:+ id_str id +:+ " not found"))
  | Some p =>
      if decide (mp_status p = "PENDING") then
        check_expiry id p ;;;
        on_env assertSigningAllowed ;;;
        signature <- on_env (signer_sign
          (createSignatureMessage (mp_currency p) (dec_toString (mp_rate p)) (mp_source p))) ;;
        created <- store_signature id (localSignerPublicKey self) (signerName self) signature ;;
        (if created : bool then count_signature id else ret tt) ;;;
        ret (signature, localSignerPublicKey self)
      else throw (Error ("Cannot sign MultiSigPrice " +:+ id_str id +:+ " - status is " +:+ mp_status p))
  end.

Definition requestRemoteSignature (id : Z) (remoteServerUrl : string) (authToken : option string) :
    run (bool * option string) :=
  try_catch
    (on_env assertSigningAllowed ;;;
     p <- find_price id ;;
     match p with
     | None => ret (false, Some ("MultiSigPrice " +:+ id_str id +:+ " not found"))
     | Some p =>
         result <- on_env (axios_post_sign (remoteServerUrl +:+ "/api/v1/price-updates/sign")
           ("Bearer " +:+ default "" authToken)
           (mkSignaturePayload id (mp_currency p) (dec_toNumber (mp_rate p)) (mp_source p)
              (default "" (mp_memoId p)) (localSignerPublicKey self))) ;;
         if decide (rr_success result = Some false) then
           ret (false, Some (if truthy_opt (rr_error result) then default "" (rr_error result)
                             else "Remote server rejected the signing request"))
         else
           let signatureData := default (rr_self result) (rr_data result) in
           if negb (truthy_opt (sd_signature signatureData)) ||
              negb (truthy_opt (sd_signerPublicKey signatureData))
           then ret (false, Some "Remote server did not return signature data")
           else
             created <- store_signature id (default "" (sd_signerPublicKey signatureData))
               (if truthy_opt (sd_signerName signatureData)
                then default "" (sd_signerName signatureData) else "remote-signer")
               (default "" (sd_signature signatureData)) ;;
             (if created : bool then count_signature id else ret tt) ;;;
             ret (true, None)
     end)
    (λ error, ret (false, Some (String_of error))).

Definition getSignatures (id : Z) : run (list MultiSigSignature) :=
  l <- query (λ d, findAll d.2) ;;
  ret (filter (λ s, ms_multiSigPriceId s = id) l).

Definition resolveCurrency (id : Z) : run string :=
  row <- find_price id ;;
  ret (match row with Some p => mp_currency p | None => "unknown" end).

Definition note (m : metric) : run unit := on_env (modify (observe m)).

Definition recordSubmission (id : Z) (memoId stellarTxHash : string) (asset : option string)
    (feeStroops : option number) : run unit :=
  label <- match asset with Some a => ret a | None => resolveCurrency id end ;;
  try_catch
    (t <- ms_new_Date ;;
     update_price id (set_submission memoId stellarTxHash t) ;;;
     note (SuccessfulSubmission label) ;;;
     (match feeStroops with
      | Some fee => if num_ltb num_zero fee then note (GasUsage label fee) else ret tt
      | None => ret tt
      end) ;;;
     note (SubmissionDuration label))
    (λ error,
     note (FailedSubmission label (classifyError error)) ;;;
     note (SubmissionDuration label) ;;;
     throw error).

Record CollectResult := mkCollect {
  cr_multiSigPrice : MultiSigPrice Dec;
  cr_collectedSignatures : Z;
  cr_requiredSignatures : Z;
  cr_thresholdMet : bool;
  cr_broadcast : option string;
}.

(** [broadcast]: approve, submit the envelope with every stored signature, record it. *)
Definition broadcast_price (id : Z) (updated : MultiSigPrice Dec) : run string :=
  approveMultiSigPrice id ;;;
  signatures <- getSignatures id ;;
  let signatureList := (λ s, (ms_signerPublicKey s, ms_signature s)) <$> signatures in
  let memoId := if truthy_opt (mp_memoId updated) then default "" (mp_memoId updated)
                else "MS-" +:+ id_str id in
  txHash <- on_env (submitMultiSignedPriceUpdate (mp_currency updated)
    (dec_toNumber (mp_rate updated)) memoId signatureList) ;;
  recordSubmission id memoId txHash None None ;;;
  on_env (markContractSubmitted (mp_priceReviewId updated) memoId txHash) ;;;
  ret txHash.

Definition collectSignature (id : Z) (signature signerPublicKey : string)
    (name : option string) : run CollectResult :=
  if negb (truthy_str signature) then
    throw (Error "Signature is required and must be a non-empty string")
  else if negb (truthy_str signerPublicKey) then throw (Error "signerPublicKey is required")
  else
    p <- find_price id ;;
    match p with
    | None => throw (Error ("MultiSigPrice " +:+ id_str id +:+ " not found"))
    | Some p =>
        if decide (mp_status p = "PENDING") then
          check_expiry id p ;;;
          created <- store_signature id signerPublicKey
            (if truthy_opt name then default "" name else "external-signer") signature ;;
          updated <- (if created : bool then update_price id increment_collected else ret p) ;;
          let thresholdMet := mp_requiredSignatures updated <=? mp_collectedSignatures updated in
          broadcast <- (if thresholdMet then h <- broadcast_price id updated ;; ret (Some h)
                        else ret None) ;;
          ret (mkCollect updated (mp_collectedSignatures updated) (mp_requiredSignatures updated)
                 thresholdMet broadcast)
        else throw (Error ("Cannot collect signature for MultiSigPrice " +:+ id_str id +:+
                           " - status is " +:+ mp_status p))
    end.

Definition getMultiSigPrice (id : Z) : run (option (MultiSigPrice Dec * list MultiSigSignature)) :=
  p <- find_price id ;;
  match p with
  | None => ret None
  | Some p => l <- getSignatures id ;; ret (Some (p, l))
  end.

Definition requested_later (p1 p2 : MultiSigPrice Dec) : Prop :=
  mp_requestedAt p2 ≤ mp_requestedAt p1.
#[export] Instance requested_later_dec : RelDecision requested_later.
Proof. intros p1 p2. unfold requested_later. apply _. Defined.

Definition getPendingMultiSigPrices : run (list (MultiSigPrice Dec * list MultiSigSignature)) :=
  l <- query (λ d, findAll d.1) ;;
  sigs <- query (λ d, findAll d.2) ;;
  ret ((λ p, (p, filter (λ s, ms_multiSigPriceId s = mp_id p) sigs)) <$>
       merge_sort requested_later (filter (λ p, mp_status p = "PENDING") l)).

Definition cleanupExpiredRequests : run nat :=
  t <- ms_new_Date ;;
  on_db (on_fst (updateMany
    (λ p, bool_decide (mp_status p = "PENDING") && (mp_expiresAt p <? t))
    (set_status "EXPIRED"))).

Definition getLocalSignerInfo : string * string := (localSignerPublicKey self, signerName self).

(** ** The invariant *)

(** The distinct signers whose signatures are stored for a request. *)
Definition signers (m : gmap (Z * string) MultiSigSignature) (id : Z) : gset string :=
  set_map snd (filter (λ k : Z * string, k.1 = id) (dom m)).

Definition signer_count (d : DP * DS) (id : Z) : Z := Z.of_nat (size (signers (rows d.2) id)).

(** [n] stored signatures of the request are not yet counted. *)
Record row_ok (count n : Z) (p : MultiSigPrice Dec) : Prop := {
  ro_required : 1 ≤ mp_requiredSignatures p;
  ro_collected : mp_collectedSignatures p + n ≤ count;
  ro_status : mp_status p ∈ ["PENDING"; "APPROVED"; "EXPIRED"];
  ro_approved : mp_status p = "APPROVED" → mp_requiredSignatures p ≤ mp_collectedSignatures p;
}.

Definition slack (id n : Z) (w : svc (DP * DS) H) : Prop :=
  ∀ id' p, rows (svc_db w).1 !! id' = Some p →
  row_ok (signer_count (svc_db w) id') (if decide (id' = id) then n else 0) p.

Definition ms_inv (w : svc (DP * DS) H) : Prop :=
  ∀ id p, rows (svc_db w).1 !! id = Some p → row_ok (signer_count (svc_db w) id) 0 p.

Lemma row_ok_weaken count n m p : m ≤ n → row_ok count n p → row_ok count m p.
Proof. intros ? []; constructor; auto with lia. Qed.

Lemma slack_inv id n w : 0 ≤ n → slack id n w → ms_inv w.
Proof.
  intros Hn Hs id' p Hp. eapply row_ok_weaken; [|by apply Hs]. case_decide; lia.
Qed.
Lemma inv_slack id w : ms_inv w → slack id 0 w.
Proof. intros Hs id' p Hp. by case_decide; apply Hs. Qed.

Lemma elem_of_signers m id key : key ∈ signers m id ↔ is_Some (m !! (id, key)).
Proof.
  rewrite <-elem_of_dom. unfold signers. rewrite elem_of_map. split.
  - intros ([id' key'] & -> & Hf). apply elem_of_filter in Hf as [Hid Hd]; simpl in *.
    by subst id'.
  - intros Hd. exists (id, key). split; [done|]. by apply elem_of_filter.
Qed.

Lemma signers_insert m id key s :
  m !! (id, key) = None →
  size (signers (<[(id, key) := s]> m) id) = S (size (signers m id)) ∧
  ∀ id', id' ≠ id → signers (<[(id, key) := s]> m) id' = signers m id'.
Proof.
  intros Hn. split.
  - assert (signers (<[(id, key) := s]> m) id = {[key]} ∪ signers m id) as ->.
    { apply set_eq. intros k. rewrite elem_of_union, elem_of_singleton, !elem_of_signers,
        lookup_insert_is_Some'. naive_solver. }
    rewrite size_union, size_singleton; [done|].
    apply disjoint_singleton_l. rewrite elem_of_signers, Hn. by intros [].
  - intros id' Hne. apply set_eq. intros k.
    rewrite !elem_of_signers, lookup_insert_is_Some'. naive_solver.
Qed.

(** ** Statements *)

(** Effects outside the database. *)
Lemma wp_outside {A} (c : M H A) (P : svc (DP * DS) H → Prop) w :
  (∀ h, P (mkSvc (svc_db w) h)) → wp (on_env c) (λ _, P) (λ _, P) w.
Proof. intros Hp. apply wp_on_env; auto. Qed.

Lemma wp_update_price id f n m (w : svc (DP * DS) H) :
  0 ≤ n → slack id n w →
  (∀ p, rows (svc_db w).1 !! id = Some p → row_ok (signer_count (svc_db w) id) n p →
        row_ok (signer_count (svc_db w) id) m (f p)) →
  wp (update_price id f)
    (λ r w', slack id m w' ∧ rows (svc_db w').1 !! id = Some r) (λ _, ms_inv) w.
Proof.
  intros Hn Hs Hf. apply wp_on_db.
  - intros r d [E E2]%on_fst_inv. apply update_ok in E as (p & Hp & -> & Hd).
    unfold slack, signer_count; simpl. rewrite Hd, E2, lookup_insert_eq. split; [|done].
    intros id' p'. destruct (decide (id' = id)) as [->|Hne].
    + rewrite lookup_insert_eq. intros [= <-]. apply Hf; [done|].
      specialize (Hs id p Hp). by rewrite decide_True in Hs.
    + rewrite lookup_insert_ne by done. intros Hp'. specialize (Hs id' p' Hp').
      by rewrite decide_False in Hs.
  - intros e d [E E2]%on_fst_inv. apply update_err in E.
    apply (slack_inv id n); [done|]. unfold slack, signer_count in *; simpl.
    by rewrite E, E2.
Qed.

(** An update that respects the row invariant. *)
Lemma wp_update_inv id f (w : svc (DP * DS) H) :
  ms_inv w →
  (∀ p count, rows (svc_db w).1 !! id = Some p → row_ok count 0 p → row_ok count 0 (f p)) →
  wp (update_price id f) (λ _, ms_inv) (λ _, ms_inv) w.
Proof.
  intros Hi Hf. eapply wp_mono; [apply (wp_update_price id f 0 0)| |done].
  - lia.
  - by apply inv_slack.
  - intros; by apply Hf.
  - intros r w' [Hs _]. by apply (slack_inv id 0).
Qed.

Lemma wp_approve id (w : svc (DP * DS) H) :
  ms_inv w →
  (∀ p, rows (svc_db w).1 !! id = Some p → mp_requiredSignatures p ≤ mp_collectedSignatures p) →
  wp (approveMultiSigPrice id) (λ _, ms_inv) (λ _, ms_inv) w.
Proof.
  intros Hi Hp. unfold approveMultiSigPrice. apply wp_bind.
  eapply wp_mono; [apply wp_update_inv; [done|]|by intros; apply wp_ret|done].
  intros p count Hr [? ? ? ?]. constructor; simpl; [done|done| |auto].
  set_solver.
Qed.

Lemma wp_expire id (w : svc (DP * DS) H) :
  ms_inv w → wp (update_price id (set_status "EXPIRED")) (λ _, ms_inv) (λ _, ms_inv) w.
Proof.
  intros Hi. apply wp_update_inv; [done|]. intros p count _ [? ? ? ?].
  by constructor; simpl; [..|set_solver|].
Qed.

(** A stored signature is new: the request has one more signer than counted. *)
Lemma wp_store id key name signature (w : svc (DP * DS) H) :
  ms_inv w →
  wp (store_signature id key name signature)
    (λ created w', slack id (if created : bool then 1 else 0) w' ∧
       rows (svc_db w').1 = rows (svc_db w).1)
    (λ _, ms_inv) w.
Proof.
  intros Hi.
  assert (∀ e d, on_snd (createUnique (id, key) (mkSignature id key name signature)) (svc_db w)
    = (Throw e, d) → ms_inv (mkSvc d (svc_env w)) ∧ rows d.1 = rows (svc_db w).1) as Herr.
  { intros e d [E E2]%on_snd_inv. apply createUnique_err in E as [E _].
    split; [|by rewrite E2]. unfold ms_inv, signer_count in *; simpl. by rewrite E, E2. }
  apply wp_try_catch, wp_bind, wp_on_db.
  - intros r d [E E2]%on_snd_inv. apply wp_ret; simpl.
    apply createUnique_ok in E as (Hn & -> & Hd). split; [|by rewrite E2].
    destruct (signers_insert (rows (svc_db w).2) id key (mkSignature id key name signature) Hn)
      as [Hs Ho].
    intros id' p. simpl. rewrite E2. intros Hp. unfold signer_count; simpl. rewrite Hd.
    specialize (Hi id' p Hp). unfold signer_count in Hi.
    case_decide as Hid; [subst id'|].
    + rewrite Hs. destruct Hi. constructor; auto with lia.
    + by rewrite Ho.
  - intros e d E. destruct (Herr e d E) as [Hd Hr].
    destruct (decide _); [apply wp_ret|by apply wp_throw].
    split; [by apply inv_slack|done].
Qed.

Lemma wp_count id (w : svc (DP * DS) H) :
  slack id 1 w → wp (count_signature id) (λ _, ms_inv) (λ _, ms_inv) w.
Proof.
  intros Hs. apply wp_bind.
  eapply wp_mono; [apply (wp_update_price id increment_collected 1 0); [lia|done|]| |done].
  - intros p Hp [? ? ? Ha]. constructor; simpl; [done|lia|done|].
    intros Hst. specialize (Ha Hst). lia.
  - intros r w' [Hs' Hr]. apply (slack_inv id 0) in Hs'; [|done].
    destruct (Z.leb_spec (mp_requiredSignatures r) (mp_collectedSignatures r)); [|by apply wp_ret].
    apply wp_approve; [done|]. intros p Hp. congruence.
Qed.

Lemma wp_store_and_count id key name signature (w : svc (DP * DS) H) :
  ms_inv w →
  wp (created <- store_signature id key name signature ;;
      if created : bool then count_signature id else ret tt) (λ _, ms_inv) (λ _, ms_inv) w.
Proof.
  intros Hi. apply wp_bind. eapply wp_mono; [by apply wp_store| |done].
  intros [] w' [Hs _]; [by apply wp_count|]. apply wp_ret. by apply (slack_inv id 0).
Qed.

(** ** Operations keep the invariant *)

Lemma wp_find id Q (E : js_error → _ → Prop) (w : svc (DP * DS) H) :
  (∀ o, o = rows (svc_db w).1 !! id → Q o w) → (∀ e, E e w) → wp (find_price id) Q E w.
Proof. intros HQ HE. apply wp_query; [|done]. intros o Ho. apply HQ. by apply findUnique_ok. Qed.

Lemma wp_new_Date Q (E : js_error → _ → Prop) (w : svc (DP * DS) H) :
  Q (sw_now (svc_env w)) w → wp ms_new_Date Q E w.
Proof. done. Qed.

Lemma wp_check_expiry id p (w : svc (DP * DS) H) :
  ms_inv w →
  wp (check_expiry id p) (λ _ w', w' = w ∧ sw_now (svc_env w) ≤ mp_expiresAt p) (λ _, ms_inv) w.
Proof.
  intros Hi. unfold check_expiry. apply wp_bind, wp_new_Date.
  destruct (Z.ltb_spec (mp_expiresAt p) (sw_now (svc_env w))); [|by apply wp_ret].
  apply wp_bind. eapply wp_mono; [by apply wp_expire| |done]. intros r w' ?. by apply wp_throw.
Qed.

Lemma sign_keeps id w : ms_inv w → wp (signMultiSigPrice id) (λ _, ms_inv) (λ _, ms_inv) w.
Proof.
  intros Hi. apply wp_bind, wp_find; [|done]. intros [p|] _; [|by apply wp_throw].
  destruct (decide _); [|by apply wp_throw].
  apply wp_bind. eapply wp_mono; [by apply wp_check_expiry| |done]. intros [] ? [-> _].
  apply wp_bind. eapply wp_mono; [by apply (wp_outside _ ms_inv)| |done]. intros [] w1 H1.
  apply wp_bind. eapply wp_mono; [by apply (wp_outside _ ms_inv)| |done]. intros s w2 H2.
  apply wp_bind. eapply wp_mono; [by apply wp_store| |done]. intros created w3 [H3 _].
  apply wp_bind. destruct created.
  - eapply wp_mono; [by apply wp_count| |done]. by intros [] ? ?; apply wp_ret.
  - apply wp_ret, wp_ret. by apply (slack_inv id 0).
Qed.

Lemma remote_keeps id url token w :
  ms_inv w → wp (requestRemoteSignature id url token) (λ _, ms_inv) (λ _, ms_inv) w.
Proof.
  intros Hi. apply wp_try_catch.
  assert (∀ e w, ms_inv w → wp (ret (false, Some (String_of e))) (λ _, ms_inv) (λ _, ms_inv) w)
    as Hret by (by intros; apply wp_ret).
  apply wp_bind. eapply wp_mono; [by apply (wp_outside _ ms_inv)| |by auto]. intros [] w1 H1.
  apply wp_bind, wp_find; [|by auto]. intros [p|] _; [|by apply wp_ret].
  apply wp_bind. eapply wp_mono; [by apply (wp_outside _ ms_inv)| |by auto]. intros r w2 H2.
  destruct (decide _); [by apply wp_ret|]. cbv zeta.
  destruct (_ || _); [by apply wp_ret|].
  apply wp_bind. eapply wp_mono; [by apply wp_store| |by auto]. intros created w3 [H3 _].
  apply wp_bind. destruct created.
  - eapply wp_mono; [by apply wp_count| |by auto]. by intros [] ? ?; apply wp_ret.
  - apply wp_ret, wp_ret. by apply (slack_inv id 0).
Qed.

Lemma create_request_keeps rid currency rate source memoId w :
  1 ≤ REQUIRED_SIGNATURES self → ms_inv w →
  wp (createMultiSigRequest rid currency rate source memoId) (λ _, ms_inv) (λ _, ms_inv) w.
Proof.
  intros Hreq Hi. apply wp_bind, wp_new_Date.
  apply wp_bind, wp_on_db.
  - intros r d [E E2]%on_fst_inv. apply create_ok in E as (k & Hn & -> & Hd). apply wp_ret.
    intros id p. unfold signer_count. simpl. rewrite Hd, E2.
    destruct (decide (id = k)) as [->|]; [|rewrite lookup_insert_ne by done; apply Hi].
    rewrite lookup_insert_eq. intros [= <-]. constructor; simpl; [done|lia|set_solver|done].
  - intros e d [E E2]%on_fst_inv. apply create_err in E. unfold ms_inv, signer_count in *; simpl.
    by rewrite E, E2.
Qed.

Lemma record_keeps id memoId tx asset fee w :
  ms_inv w → wp (recordSubmission id memoId tx asset fee) (λ _, ms_inv) (λ _, ms_inv) w.
Proof.
  intros Hi. apply wp_bind.
  assert (∀ m w, ms_inv w → wp (note m) (λ _, ms_inv) (λ _, ms_inv) w) as Hnote
    by (by intros; apply (wp_outside _ ms_inv)).
  eapply (wp_mono _ (λ _, ms_inv) _ (λ _, ms_inv)); [| |done].
  { destruct asset; [by apply wp_ret|]. apply wp_bind, wp_find; [|done]. by intros; apply wp_ret. }
  intros label w1 H1. apply wp_try_catch.
  eapply (wp_mono _ (λ _, ms_inv) _ (λ _, ms_inv)); [|by intros|].
  - apply wp_bind, wp_new_Date.
    apply wp_bind. eapply wp_mono; [apply wp_update_inv; [done|]| |done].
    { intros p count _ []. by constructor. }
    intros ? w2 H2. apply wp_bind. eapply wp_mono; [by apply Hnote| |done].
    intros ? w3 H3. apply wp_bind. eapply (wp_mono _ (λ _, ms_inv) _ (λ _, ms_inv)); [| |done].
    { destruct fee; [|by apply wp_ret]. destruct (num_ltb _ _); [by apply Hnote|by apply wp_ret]. }
    intros ? w4 H4. by apply Hnote.
  - intros e w2 H2. apply wp_bind. eapply wp_mono; [by apply Hnote| |done].
    intros ? w3 H3. apply wp_bind. eapply wp_mono; [by apply Hnote| |done].
    intros ? w4 H4. by apply wp_throw.
Qed.

Lemma broadcast_keeps id p w :
  ms_inv w →
  (∀ q, rows (svc_db w).1 !! id = Some q → mp_requiredSignatures q ≤ mp_collectedSignatures q) →
  wp (broadcast_price id p) (λ _, ms_inv) (λ _, ms_inv) w.
Proof.
  intros Hi Hp. apply wp_bind. eapply wp_mono; [by apply wp_approve| |done]. intros [] w1 H1.
  apply wp_bind, wp_bind, wp_query; [|done]. intros l _. apply wp_ret. cbv zeta.
  apply wp_bind. eapply wp_mono; [by apply (wp_outside _ ms_inv)| |done]. intros tx w2 H2.
  apply wp_bind. eapply wp_mono; [by apply record_keeps| |done]. intros [] w3 H3.
  apply wp_bind. eapply wp_mono; [by apply (wp_outside _ ms_inv)| |done]. by intros; apply wp_ret.
Qed.

Lemma collect_keeps id signature key name w :
  ms_inv w → wp (collectSignature id signature key name) (λ _, ms_inv) (λ _, ms_inv) w.
Proof.
  intros Hi. unfold collectSignature. destruct (negb _); [by apply wp_throw|].
  destruct (negb _); [by apply wp_throw|].
  apply wp_bind, wp_find; [|done]. intros [p|] Hp; [|by apply wp_throw].
  destruct (decide _); [|by apply wp_throw].
  apply wp_bind. eapply wp_mono; [by apply wp_check_expiry| |done]. intros [] ? [-> _].
  apply wp_bind. eapply wp_mono; [by apply wp_store| |done]. intros created w1 [H1 Hr].
  apply wp_bind.
  eapply (wp_mono _ (λ u w', ms_inv w' ∧ rows (svc_db w').1 !! id = Some u) _ (λ _, ms_inv));
    [| |done].
  { destruct created.
    - eapply wp_mono; [apply (wp_update_price id increment_collected 1 0); [lia|done|]| |done].
      + intros q Hq [? ? ? Ha]. constructor; simpl; [done|lia|done|].
        intros Hst. specialize (Ha Hst). lia.
      + intros u w2 [Hs Hu]. split; [by apply (slack_inv id 0)|done].
    - apply wp_ret. split; [by apply (slack_inv id 0)|]. by rewrite Hr. }
  intros u w2 [H2 Hu]. apply wp_bind.
  destruct (Z.leb_spec (mp_requiredSignatures u) (mp_collectedSignatures u)).
  - apply wp_bind. eapply wp_mono; [apply broadcast_keeps; [done|]| |done].
    + intros q Hq. congruence.
    + intros tx w3 H3. by apply wp_ret, wp_ret.
  - by apply wp_ret, wp_ret.
Qed.

Lemma cleanup_keeps w : ms_inv w → wp cleanupExpiredRequests (λ _, ms_inv) (λ _, ms_inv) w.
Proof.
  intros Hi. apply wp_bind, wp_new_Date.
  apply wp_on_db.
  - intros n d [E E2]%on_fst_inv. apply updateMany_ok in E as [Hd _]. intros id p.
    unfold signer_count; simpl. rewrite Hd, E2, lookup_fmap.
    destruct (rows (svc_db w).1 !! id) as [q|] eqn:Hq; simpl; [|done].
    specialize (Hi id q Hq). destruct (_ && _); intros [= <-]; [|done].
    destruct Hi. by constructor; simpl; [..|set_solver|].
  - intros e d [E E2]%on_fst_inv. apply updateMany_err in E.
    unfold ms_inv, signer_count in *; simpl. by rewrite E, E2.
Qed.

(** ** Sequences of calls *)

Inductive multisig_op :=
| CreateRequest (priceReviewId : Z) (currency : string) (rate : number) (source memoId : string)
| SignLocal (id : Z)
| RequestRemote (id : Z) (url : string) (token : option string)
| Collect (id : Z) (signature key : string) (name : option string)
| Cleanup
| RecordSubmission (id : Z) (memoId tx : string) (asset : option string) (fee : option number).

Definition multisig_step (w : svc (DP * DS) H) (op : multisig_op) : svc (DP * DS) H :=
  match op with
  | CreateRequest r c x s m => final (createMultiSigRequest r c x s m) w
  | SignLocal id => final (signMultiSigPrice id) w
  | RequestRemote id u t => final (requestRemoteSignature id u t) w
  | Collect id s k n => final (collectSignature id s k n) w
  | Cleanup => final cleanupExpiredRequests w
  | RecordSubmission id m t a f => final (recordSubmission id m t a f) w
  end.

Definition multisig_run : svc (DP * DS) H → list multisig_op → svc (DP * DS) H :=
  foldl multisig_step.

Lemma multisig_step_keeps op w :
  1 ≤ REQUIRED_SIGNATURES self → ms_inv w → ms_inv (multisig_step w op).
Proof.
  intros Hreq Hi. destruct op; simpl; apply (wp_final _ ms_inv);
    [by apply create_request_keeps|by apply sign_keeps|by apply remote_keeps|by apply collect_keeps|
     by apply cleanup_keeps|by apply record_keeps].
Qed.

Lemma multisig_run_keeps ops w :
  1 ≤ REQUIRED_SIGNATURES self → ms_inv w → ms_inv (multisig_run w ops).
Proof.
  intros Hreq. revert w. induction ops as [|op ops IH]; intros w Hi; [done|].
  simpl. by apply IH, multisig_step_keeps.
Qed.
End service.

Arguments CollectResult Dec : clear implicits.
Arguments cr_multiSigPrice {Dec}.
Arguments cr_collectedSignatures {Dec}.
Arguments cr_requiredSignatures {Dec}.
Arguments cr_thresholdMet {Dec}.
Arguments cr_broadcast {Dec}.

Lemma constructor_required name count key :
  1 ≤ REQUIRED_SIGNATURES (multisig_constructor name count key).
Proof. simpl. destruct (parseInt10 _) as [n|]; [|lia]. destruct (Z.ltb_spec 0 n); lia. Qed.

(** ** Properties *)

Section properties.
Context {DP DS H Dec : Type}.
Context `{!PrismaTable Z (MultiSigPrice Dec) DP}.
Context `{!PrismaTable (Z * string) MultiSigSignature DS} `{!SigningWorld H}.
Context (dec_of_number : number → Dec) (dec_toString : Dec → string) (dec_toNumber : Dec → number).

(** C1. Over every sequence of calls from empty tables, with any failures of the database,
    the signer, the remote servers and the submission, whatever the environment the
    service was configured from: an approved request has at least one required signature
    and at least as many distinct signers stored as it requires, and no request ever
    counts more signatures than distinct signers stored. *)
Theorem approved_has_quorum name count key ops (w : svc (DP * DS) H) id p :
  rows (svc_db w).1 = ∅ →
  let w' := multisig_run dec_of_number dec_toString dec_toNumber
              (multisig_constructor name count key) w ops in
  rows (svc_db w').1 !! id = Some p →
  mp_collectedSignatures p ≤ signer_count (svc_db w') id ∧
  (mp_status p = "APPROVED" →
     1 ≤ mp_requiredSignatures p ≤ signer_count (svc_db w') id).
Proof.
  intros He w' Hp.
  assert (ms_inv w') as Hi.
  { apply multisig_run_keeps; [apply constructor_required|]. intros id' p'. by rewrite He. }
  destruct (Hi id p Hp) as [Hr Hc _ Ha]. split; [lia|]. intros Hst. specialize (Ha Hst). lia.
Qed.

(** Computations that leave the table of signatures alone. *)
Notation keeps_sigs c := (∀ v, preserves (λ w : svc (DP * DS) H, (svc_db w).2 = v) c).

Lemma keeps_sigs_env {A} (c : M H A) : keeps_sigs (on_env c).
Proof. intros v. apply (preserves_on_env (λ d : DP * DS, d.2 = v)). Qed.
Lemma keeps_sigs_date : keeps_sigs ms_new_Date.
Proof. by intros v w. Qed.
Lemma keeps_sigs_update id f : keeps_sigs (update_price id f).
Proof.
  intros v. apply (preserves_on_db (λ d : DP * DS, d.2 = v)). by intros d r d' <- [_ E]%on_fst_inv.
Qed.
#[local] Hint Resolve keeps_sigs_env keeps_sigs_date keeps_sigs_update : sf.

Lemma keeps_sigs_broadcast id p : keeps_sigs (broadcast_price dec_toNumber id p).
Proof.
  intros v. unfold broadcast_price, approveMultiSigPrice, getSignatures, recordSubmission,
    resolveCurrency, find_price, note. cbv zeta. preserve.
Qed.

(** After the insertion the signer's signature is stored, new or old. *)
Lemma store_signature_stored id key name signature (w : svc (DP * DS) H) :
  wp (store_signature id key name signature)
    (λ _ w', key ∈ signers (rows (svc_db w').2) id ∧ (svc_db w').1 = (svc_db w).1)
    (λ _ _, True) w.
Proof.
  apply wp_try_catch, wp_bind, wp_on_db.
  - intros r d [E E2]%on_snd_inv. apply wp_ret; simpl. split; [|done].
    apply createUnique_ok in E as (_ & _ & ->). by rewrite elem_of_signers, lookup_insert_eq.
  - intros e d [E E2]%on_snd_inv. apply createUnique_err in E as [Hr Hc].
    destruct (decide _) as [Hp|]; [apply wp_ret|by apply wp_throw]. split; [|done]. simpl.
    rewrite Hr, elem_of_signers. by apply Hc.
Qed.

Lemma check_expiry_passed id p (w : svc (DP * DS) H) :
  wp (check_expiry id p) (λ _ w', w' = w ∧ sw_now (svc_env w) ≤ mp_expiresAt p) (λ _ _, True) w.
Proof.
  apply wp_bind, wp_new_Date.
  destruct (Z.ltb_spec (mp_expiresAt p) (sw_now (svc_env w))); [|by apply wp_ret].
  apply wp_bind. eapply (wp_mono _ (λ _ _, True) _ (λ _ _, True)); [|by intros; apply wp_throw|done].
  unfold wp. by destruct (update_price _ _ _) as [[]].
Qed.

(** When [collectSignature] returns, the request was pending and not expired, the
    signer's signature is among the stored ones, the threshold flag compares the returned
    counts, and the envelope was broadcast exactly when the threshold was met. *)
Theorem collectSignature_result id signature key name (w : svc (DP * DS) H) r :
  outcome (collectSignature dec_toNumber id signature key name) w = Ok r →
  (∃ p, rows (svc_db w).1 !! id = Some p ∧ mp_status p = "PENDING" ∧
        sw_now (svc_env w) ≤ mp_expiresAt p) ∧
  key ∈ signers (rows (svc_db (final (collectSignature dec_toNumber id signature key name) w)).2) id ∧
  cr_thresholdMet r = (cr_requiredSignatures r <=? cr_collectedSignatures r) ∧
  (is_Some (cr_broadcast r) ↔ cr_thresholdMet r = true).
Proof.
  set (Q := λ (r : CollectResult Dec) (w' : svc (DP * DS) H),
    (∃ p, rows (svc_db w).1 !! id = Some p ∧ mp_status p = "PENDING" ∧
        sw_now (svc_env w) ≤ mp_expiresAt p) ∧
    key ∈ signers (rows (svc_db w').2) id ∧
    cr_thresholdMet r = (cr_requiredSignatures r <=? cr_collectedSignatures r) ∧
    (is_Some (cr_broadcast r) ↔ cr_thresholdMet r = true)).
  enough (wp (collectSignature dec_toNumber id signature key name) Q (λ _ _, True) w) as Hw.
  { unfold wp, outcome, final in *. destruct (collectSignature _ _ _ _ _ w) as [[r'|e] w'];
      simpl; intros [= <-]; apply Hw. }
  unfold collectSignature. destruct (negb _); [by apply wp_throw|].
  destruct (negb _); [by apply wp_throw|].
  apply wp_bind, wp_find; [|done]. intros [p|] Hp; [|by apply wp_throw].
  destruct (decide _) as [Hst|]; [|by apply wp_throw].
  apply wp_bind. eapply wp_mono; [by apply check_expiry_passed| |done]. intros [] ? [-> Hexp].
  apply wp_bind. eapply wp_mono; [by apply store_signature_stored| |done].
  intros created w1 [Hk _]. apply wp_bind.
  eapply (wp_mono _ (λ _ w', (svc_db w').2 = (svc_db w1).2) _ (λ _ _, True)); [| |done].
  { destruct created; [|by apply wp_ret].
    eapply wp_mono; [by apply keeps_sigs_update|done|done]. }
  intros u w2 E2. apply wp_bind. cbv zeta.
  destruct (mp_requiredSignatures u <=? mp_collectedSignatures u) eqn:Et.
  - apply wp_bind. eapply wp_mono; [by apply (keeps_sigs_broadcast _ _ (svc_db w2).2)| |done].
    intros tx w3 E3. apply wp_ret, wp_ret. unfold Q; simpl in *. rewrite E3, E2, Et.
    split_and!; [by exists p|done|done|]. by split.
  - apply wp_ret, wp_ret. unfold Q; simpl in *. rewrite E2, Et.
    split_and!; [by exists p|done|done|]. split; [by intros []|done].
Qed.
End properties.

(** [requestRemoteSignature] looks at neither the status nor the expiry of the
    request: on tables in memory, a valid answer of a new signer is stored and counted, and
    when the count reaches the requirement the request becomes approved, even one that was
    already marked expired. *)
Theorem remote_signature_ignores_status {H Dec : Type} `{!SigningWorld H}
    (dec_toNumber : Dec → number) self prices sigs (h h1 h2 : H) id url token p key sig nm :
  prices !! id = Some p → sigs !! (id, key) = None → key ≠ "" → sig ≠ "" →
  assertSigningAllowed h = (Ok tt, h1) →
  (∀ payload, axios_post_sign (url +:+ "/api/v1/price-updates/sign")
     ("Bearer " +:+ default "" token) payload h1 =
     (Ok (mkRemote (Some true) None (mkSignatureData None None None)
            (Some (mkSignatureData (Some sig) (Some key) nm))), h2)) →
  mp_collectedSignatures p + 1 = mp_requiredSignatures p →
  let '(r, w') := requestRemoteSignature dec_toNumber self id url token (mkSvc (prices, sigs) h) in
  r = Ok (true, None) ∧
  (svc_db w').1 !! id = Some (set_status "APPROVED" (increment_collected p)).
Proof.
  intros Hp Hs Hk Hg Ha Hpost Hc.
  unfold requestRemoteSignature, try_catch, bind at 1, on_env at 1. cbn [svc_env svc_db].
  rewrite Ha. unfold bind at 1, find_price, query. cbn [svc_db fst findUnique gmap_table].
  rewrite Hp. unfold bind at 1, on_env at 1. cbn [svc_env svc_db]. rewrite Hpost. simpl.
  unfold truthy_str. rewrite !bool_decide_true by done. simpl.
  unfold bind at 1, store_signature, try_catch, bind at 1, on_db at 1, on_snd at 1. simpl.
  unfold mem_createUnique. rewrite Hs. simpl.
  unfold bind at 1, count_signature, bind at 1, update_price at 1, on_db at 1, on_fst at 1. simpl.
  unfold mem_update at 1. rewrite Hp. simpl. rewrite Hc, Z.leb_refl.
  unfold approveMultiSigPrice, bind, update_price, on_db, on_fst. simpl. unfold mem_update.
  rewrite lookup_insert_eq. simpl. split; [done|]. by rewrite lookup_insert_eq.
Qed.

(** ** Concrete runs *)

Definition sample_response : RemoteSignatureResponse :=
  mkRemote (Some true) None (mkSignatureData None None None)
    (Some (mkSignatureData (Some "aa") (Some "KEY2") None)).

(** Signing is allowed, the remote server answers, submissions succeed; the state is the
    clock. *)
#[export] Instance calm_world : SigningWorld Z := {|
  sw_now t := t;
  assertSigningAllowed := ret tt;
  signer_sign m := ret m;
  axios_post_sign _ _ _ := ret sample_response;
  submitMultiSignedPriceUpdate _ _ _ _ := ret "tx";
  markContractSubmitted _ _ _ := ret tt;
  observe _ t := t;
  String_of e := "Error: " +:+ err_message e;
|}.

Definition sample_self : MultiSigService := multisig_constructor None None "KEY1".
Definition empty_tables : svc (gmap Z (MultiSigPrice number) * gmap (Z * string) MultiSigSignature) Z :=
  mkSvc (∅, ∅) 1000.
Definition sample_calls : list multisig_op :=
  [CreateRequest 7 "NGN" (num_of_Z 15) "CoinGecko" "memo"; SignLocal 0;
   RequestRemote 0 "http://oracle-2" None; RequestRemote 0 "http://oracle-2" None].

Example sample_calls_end :
  (λ p, (mp_status p, mp_collectedSignatures p)) <$>
    (svc_db (multisig_run id (λ _, "15") id sample_self empty_tables sample_calls)).1 !! 0 =
  Some ("APPROVED", 2).
Proof. by vm_compute. Qed.

Lemma approved_has_quorum_witness :
  ∃ p, (svc_db (multisig_run id (λ _, "15") id sample_self empty_tables sample_calls)).1 !! 0 = Some p ∧
  mp_collectedSignatures p ≤
    signer_count (svc_db (multisig_run id (λ _, "15") id sample_self empty_tables sample_calls)) 0 ∧
  (mp_status p = "APPROVED" →
     1 ≤ mp_requiredSignatures p ≤
       signer_count (svc_db (multisig_run id (λ _, "15") id sample_self empty_tables sample_calls)) 0).
Proof.
  eexists. split; [by vm_compute|].
  apply (approved_has_quorum id (λ _, "15") id None None "KEY1" sample_calls empty_tables 0);
    [done|by vm_compute].
Defined.

Definition pending_price : MultiSigPrice number :=
  mkPrice 0 7 "NGN" (num_of_Z 15) "CoinGecko" "PENDING" 2 1 (Some "memo") None None 0 5000.
Definition pending_tables : svc (gmap Z (MultiSigPrice number) * gmap (Z * string) MultiSigSignature) Z :=
  mkSvc ({[0 := pending_price]}, {[(0, "KEY1") := mkSignature 0 "KEY1" "oracle-server" "bb"]}) 1000.

Lemma collectSignature_result_witness :
  ∃ r, outcome (collectSignature id 0 "cc" "KEY3" None) pending_tables = Ok r ∧
    cr_thresholdMet r = (cr_requiredSignatures r <=? cr_collectedSignatures r) ∧
    (is_Some (cr_broadcast r) ↔ cr_thresholdMet r = true).
Proof.
  eexists. split; [by vm_compute|].
  eapply (collectSignature_result id 0 "cc" "KEY3" None pending_tables). by vm_compute.
Defined.

Lemma remote_signature_ignores_status_witness :
  let p := set_status "EXPIRED" pending_price in
  let '(r, w') := requestRemoteSignature id sample_self 0 "http://oracle-2" None
    (mkSvc ({[0 := p]}, ∅) 9000) in
  r = Ok (true, None) ∧
  (svc_db w').1 !! 0 = Some (set_status "APPROVED" (increment_collected p)).
Proof.
  intros p.
  apply (remote_signature_ignores_status (H:=Z) id sample_self {[0 := p]} ∅ 9000 9000 9000 0
    "http://oracle-2" None p "KEY2" "aa" None); done.
Defined.
