(* ===== verification/Timelock.v ===== *)
(** * Governance timelock: [src/src/services/governanceTimelockService.ts]

    The poll tick: index contract events, expire stale proposals, announce ready ones,
    execute them. The service's cursor [lastIndexedLedger] and its two tables are the
    state; proposals are kept under their unique [proposalId], which the statements with
    [WHERE "id" = ...] are keyed by as well (the two columns identify the same row). The
    Stellar RPC, the notification and broadcast services and the clock are the outside
    world. *)

From S2P Require Import Prelude JsNumber JsDate Prisma Service.

Local Open Scope Z_scope.

(** ** Event payloads

    JavaScript values as far as the service inspects them. [JSc] is an object of the
    Stellar SDK, whose inside only the SDK knows. *)
Inductive js (Sc : Type) :=
| JUndefined
| JNull
| JBool (b : bool)
| JNum (n : number)
| JStr (s : string)
| JArr (l : list (js Sc))
| JObj (fields : list (string * js Sc))
| JSc (v : Sc).
Arguments JUndefined {Sc}.
Arguments JNull {Sc}.
Arguments JBool {Sc} _.
Arguments JNum {Sc} _.
Arguments JStr {Sc} _.
Arguments JArr {Sc} _.
Arguments JObj {Sc} _.
Arguments JSc {Sc} _.

Record RawSorobanEvent (Sc : Type) := mkEvent {
  ev_ledger : option Z;
  ev_ledgerClosedAt : option string;
  ev_contractId : option string;
  ev_txHash : option string;
  ev_topic : js Sc;
  ev_value : js Sc;
}.
Arguments mkEvent {Sc}.
Arguments ev_ledger {Sc}.
Arguments ev_ledgerClosedAt {Sc}.
Arguments ev_contractId {Sc}.
Arguments ev_txHash {Sc}.
Arguments ev_topic {Sc}.
Arguments ev_value {Sc}.

(** A [Date]: its time value, [None] for an invalid date. *)
Notation date := (option Z).

(** The time value a number gives: whole milliseconds within the range of dates. *)
Definition time_clip (n : number) : date :=
  match n with
  | SpecFloat.S754_zero _ => Some 0
  | SpecFloat.S754_finite s m e =>
      let a := if 0 <=? e then Zpos m * 2 ^ e else Zpos m / 2 ^ (- e) in
      if a <=? 8640000000000000 then Some (if s then - a else a) else None
  | _ => None
  end.

Definition num_1e12 : number := num_of_Z 1000000000000.

(** Seconds or milliseconds, by magnitude. *)
Definition date_of_number (n : number) : date :=
  time_clip (if num_ltb n num_1e12 then num_mul n (num_of_Z 1000) else n).

Section decoding.
Context {Sc : Type}.
(** The SDK: parsing, the tag of a value, its payload printed, the entries of a map, its
    conversion to a string, and its own properties. *)
Context (fromXDR : string → option Sc) (sc_name sc_value_string : Sc → string).
Context (sc_map : Sc → option (list (Sc * Sc))) (sc_String : Sc → string).
Context (sc_prop : Sc → string → js Sc).
(** The language's [Number(s)] and [Date] parsing of strings. *)
Context (Number_of : string → number) (Date_of : string → date).

(** The recursive calls of the map case receive SDK objects, which are not strings and
    come back as they are. *)
Definition decodeScVal (raw : js Sc) : js Sc :=
  match raw with
  | JStr s =>
      match fromXDR s with
      | None => raw
      | Some scVal =>
          let typeName := sc_name scVal in
          if includes ["scvSymbol"; "scvString"] typeName then JStr (sc_value_string scVal)
          else if includes ["scvU64"; "scvI64"; "scvU32"; "scvI32"] typeName
          then JStr (sc_value_string scVal)
          else if decide (typeName = "scvMap") then
            JObj ((λ '(k, v), (sc_String k, JSc v)) <$> default [] (sc_map scVal))
          else raw
      end
  | _ => raw
  end.

Definition as_string (v : js Sc) : option string :=
  match v with JStr s => Some s | _ => None end.

Definition extractEventName (topic : js Sc) : option string :=
  match topic with
  | JArr l => as_string (decodeScVal (default JUndefined (head l)))
  | JStr _ => as_string (decodeScVal topic)
  | _ => None
  end.

(** [decoded[key]] on an object; a later duplicate key wins. *)
Definition prop (v : js Sc) (key : string) : js Sc :=
  match v with
  | JObj fields =>
      default JUndefined (snd <$> last (filter (λ kv, kv.1 = key) fields))
  | JSc v => sc_prop v key
  | _ => JUndefined
  end.

Definition is_object (v : js Sc) : bool :=
  match v with JObj _ | JArr _ | JSc _ => true | _ => false end.

(** [a ?? b ?? ...] over the properties named. *)
Fixpoint first_prop (v : js Sc) (keys : list string) : js Sc :=
  match keys with
  | [] => JUndefined
  | [key] => prop v key
  | key :: keys' =>
      match prop v key with
      | JUndefined | JNull => first_prop v keys'
      | x => x
      end
  end.

Definition proposal_in_value (value : js Sc) : option string :=
  let decoded := decodeScVal value in
  if is_object decoded
  then as_string (first_prop decoded ["proposalId"; "proposal_id"; "id"]) else None.

Definition extractProposalId (topic value : js Sc) : option string :=
  match topic with
  | JArr (_ :: second :: _) =>
      match decodeScVal second with
      | JStr s => if truthy_str s then Some s else proposal_in_value value
      | _ => proposal_in_value value
      end
  | _ => proposal_in_value value
  end.

(** [None]: no expiry in the payload. *)
Definition extractExpiresAt (value : js Sc) : option date :=
  let decoded := decodeScVal value in
  if negb (is_object decoded) then None
  else
    match first_prop decoded ["expiresAt"; "expires_at"; "eta"; "executeAfter"; "execute_after"] with
    | JStr "" => None
    | JStr raw =>
        let num := Number_of raw in
        if negb (isNaN num) then Some (date_of_number num)
        else match Date_of raw with Some d => Some (Some d) | None => None end
    | JNum raw =>
        if isNaN raw || (num_leb raw num_zero && num_leb num_zero raw) then None
        else Some (date_of_number raw)
    | _ => None
    end.
End decoding.

(** ** The service *)

Record GovernanceProposal := mkProposal {
  gp_proposalId : string;
  gp_contractId : string;
  gp_expiresAt : Z;
  gp_status : string;
  gp_transactionHash : option string;
  gp_executedAt : option Z;
  gp_queuedAt : option Z;
  gp_timelockActionSource : option string;
  gp_notificationCount : Z;
  gp_executionReadyNotifiedAt : option Z;
  gp_updatedAt : Z;
}.

Record TimelockEvent := mkTimelockEvent {
  te_eventType : string;
  te_proposalId : string;
  te_contractId : string;
  te_ledgerSeq : Z;
  te_txHash : string;
  te_topics : string;
  te_value : string;
}.

Definition set_ledgerSeq (n : Z) (e : TimelockEvent) : TimelockEvent :=
  mkTimelockEvent (te_eventType e) (te_proposalId e) (te_contractId e) n (te_txHash e)
    (te_topics e) (te_value e).

(** What is broadcast to webhooks and sockets. *)
Inductive broadcast :=
| ProposalExecuted (proposalId : string) (contractId transactionHash : option string)
| ProposalExpired (proposalId contractId status : string) (expiresAt : Z) (reason : string)
| TimelockStatus (proposalId status : string) (time : string).

Class TimelockWorld (H Sc : Type) := {
  tl_now : H → Z;
  rpc_getEvents : Z → string → M H (list (RawSorobanEvent Sc));
  latest_ledger_closed_at : M H Z;
  executeGovernanceProposal : string → string → M H string;
  sendGovernanceTimelockReadyAlert : string → string → Z → M H unit;
  emit : broadcast → H → H;
}.

Definition DAY_MS : Z := 24 * 60 * 60 * 1000.
Definition timelock_events : list string := ["ProposalQueued"; "TimelockActionExecuted"].

Section service.
Context {DP DE H Sc : Type}.
Context `{!PrismaTable string GovernanceProposal DP}.
Context `{!PrismaTable (string * string * string) TimelockEvent DE} `{!TimelockWorld H Sc}.
Context (fromXDR : string → option Sc) (sc_name sc_value_string : Sc → string).
Context (sc_map : Sc → option (list (Sc * Sc))) (sc_String : Sc → string).
Context (sc_prop : Sc → string → js Sc).
Context (Number_of : string → number) (Date_of : string → date).
Context (JSON_stringify : js Sc → string).
Context (defaultGracePeriodMs : Z).

(** The tables and [lastIndexedLedger]. *)
Notation db := (DP * DE * Z)%type.
Notation run := (M (svc db H)).
Notation decode_name := (extractEventName fromXDR sc_name sc_value_string sc_map sc_String).
Notation decode_id := (extractProposalId fromXDR sc_name sc_value_string sc_map sc_String sc_prop).
Notation decode_expiry := (extractExpiresAt fromXDR sc_name sc_value_string sc_map sc_String sc_prop
  Number_of Date_of).

Definition tl_new_Date : run Z := λ w, (Ok (tl_now (svc_env w)), w).
Definition proposals {A} (c : M DP A) : run A := on_db (on_fst (on_fst c)).
Definition events {A} (c : M DE A) : run A := on_db (on_fst (on_snd c)).
Definition proposal_rows (w : svc db H) : gmap string GovernanceProposal := rows (svc_db w).1.1.
Definition lastIndexedLedger (w : svc db H) : Z := (svc_db w).2.
Definition send (b : broadcast) : run unit := on_env (modify (emit b)).

Definition advance_cursor (ledger : Z) : run unit := λ w,
  (Ok tt, if lastIndexedLedger w <? ledger
          then mkSvc ((svc_db w).1, ledger) (svc_env w) else w).

(** An invalid date is rejected by the client. *)
Definition valid_date (d : date) : run Z :=
  match d with
  | Some t => ret t
  | None => throw (Error "Invalid value for argument: Provided Date object is invalid")
  end.

Definition queued_update (expiresAt queuedAt : Z) (txHash : string) (t : Z)
    (p : GovernanceProposal) : GovernanceProposal :=
  mkProposal (gp_proposalId p) (gp_contractId p) expiresAt (gp_status p) (gp_transactionHash p)
    (gp_executedAt p) (Some queuedAt) (Some txHash) (gp_notificationCount p)
    (gp_executionReadyNotifiedAt p) t.

Definition handleProposalQueued (proposalId contractId : string) (event : RawSorobanEvent Sc)
    (txHash : string) : run unit :=
  t <- tl_new_Date ;;
  let ledgerClosedAt :=
    if truthy_opt (ev_ledgerClosedAt event)
    then Date_of (default "" (ev_ledgerClosedAt event)) else Some t in
  let effectiveExpiresAt := default (Some (t + DAY_MS)) (decode_expiry (ev_value event)) in
  expiresAt <- valid_date effectiveExpiresAt ;;
  queuedAt <- valid_date ledgerClosedAt ;;
  proposals (upsert proposalId
    (mkProposal proposalId contractId expiresAt "Queued" None None (Some queuedAt) (Some txHash)
       0 None t)
    (queued_update expiresAt queuedAt txHash t)) ;;;
  ret tt.

Definition executed_update (t : Z) (p : GovernanceProposal) : GovernanceProposal :=
  mkProposal (gp_proposalId p) (gp_contractId p) (gp_expiresAt p) "Executed"
    (gp_transactionHash p) (Some t) (gp_queuedAt p) (gp_timelockActionSource p)
    (gp_notificationCount p) (gp_executionReadyNotifiedAt p) t.

Definition handleTimelockActionExecuted (proposalId contractId : string) : run unit :=
  executedAt <- tl_new_Date ;;
  try_catch (proposals (update proposalId (executed_update executedAt)) ;;; ret tt)
    (λ _, ret tt) ;;;
  send (ProposalExecuted proposalId (Some contractId) None) ;;;
  send (TimelockStatus proposalId "Executed" (toISOString executedAt)).

(** [x ?? null] *)
Definition or_null (x : js Sc) : js Sc := match x with JUndefined => JNull | _ => x end.

Definition index_event (contractId : string) (event : RawSorobanEvent Sc) : run unit :=
  match decode_name (ev_topic event) with
  | Some eventName =>
      if includes timelock_events eventName then
        let proposalId := default "" (decode_id (ev_topic event) (ev_value event)) in
        if truthy_str proposalId then
          let txHash := default "" (ev_txHash event) in
          let ledgerSeq := default 0 (ev_ledger event) in
          events (upsert (txHash, eventName, proposalId)
            (mkTimelockEvent eventName proposalId contractId ledgerSeq txHash
               (JSON_stringify (or_null (ev_topic event))) (JSON_stringify (or_null (ev_value event))))
            (set_ledgerSeq ledgerSeq)) ;;;
          (if decide (eventName = "ProposalQueued")
           then handleProposalQueued proposalId contractId event txHash
           else handleTimelockActionExecuted proposalId (default contractId (ev_contractId event))) ;;;
          advance_cursor ledgerSeq
        else ret tt
      else advance_cursor (default 0 (ev_ledger event))
  | None => advance_cursor (default 0 (ev_ledger event))
  end.

Definition indexContractEvents (contractId : string) : run unit :=
  try_catch
    (w <- get ;;
     response <- on_env (rpc_getEvents (Z.max 1 (lastIndexedLedger w)) contractId) ;;
     for_of response (index_event contractId))
    (λ _, ret tt).

(** ** Expiring stale proposals *)

(** [ORDER BY "expiresAt" ASC] *)
Definition earlier (p1 p2 : GovernanceProposal) : Prop := gp_expiresAt p1 ≤ gp_expiresAt p2.
#[export] Instance earlier_dec : RelDecision earlier.
Proof. intros p1 p2. unfold earlier. apply _. Defined.

Definition select_proposals (where_ : GovernanceProposal → bool) : run (list GovernanceProposal) :=
  l <- query (λ d, findAll d.1.1) ;;
  ret (merge_sort earlier (filter (λ p, where_ p = true) l)).

Definition is_queued (p : GovernanceProposal) : bool := bool_decide (gp_status p = "Queued").

Definition set_expired (t : Z) (p : GovernanceProposal) : GovernanceProposal :=
  mkProposal (gp_proposalId p) (gp_contractId p) (gp_expiresAt p) "Expired"
    (gp_transactionHash p) (gp_executedAt p) (gp_queuedAt p) (gp_timelockActionSource p)
    (gp_notificationCount p) (gp_executionReadyNotifiedAt p) t.

(** [UPDATE ... WHERE "id" = p.id AND where_] *)
Definition update_where (p : GovernanceProposal) (where_ : GovernanceProposal → bool)
    (f : GovernanceProposal → GovernanceProposal) : run nat :=
  proposals (updateMany (λ r, bool_decide (gp_proposalId r = gp_proposalId p) && where_ r) f).

(** Whether the row was expired by this call. *)
Definition expire_one (gracePeriodMs now : Z) (proposal : GovernanceProposal) : run bool :=
  try_catch
    (t <- tl_new_Date ;;
     updatedRows <- update_where proposal is_queued (set_expired t) ;;
     if (0 <? updatedRows)%nat then
       w <- get ;;
       let txHash := "expired-" +:+ gp_proposalId proposal +:+ "-" +:+ pretty.pretty now in
       try_catch
         (events (upsert (txHash, "ProposalExecutionExpired", gp_proposalId proposal)
            (mkTimelockEvent "ProposalExecutionExpired" (gp_proposalId proposal)
               (gp_contractId proposal) (lastIndexedLedger w) txHash
               (JSON_stringify (JArr [JStr "ProposalExecutionExpired"; JStr (gp_proposalId proposal)]))
               (JSON_stringify (JObj [("proposalId", JStr (gp_proposalId proposal));
                  ("contractId", JStr (gp_contractId proposal));
                  ("expiresAt", JStr (toISOString (gp_expiresAt proposal)));
                  ("gracePeriodMs", JNum (num_of_Z gracePeriodMs));
                  ("expiredAt", JStr (toISOString now))])))
            id) ;;; ret tt)
         (λ _, ret tt) ;;;
       send (ProposalExpired (gp_proposalId proposal) (gp_contractId proposal) "Expired"
               (gp_expiresAt proposal) "timelock_execution_window_expired") ;;;
       send (TimelockStatus (gp_proposalId proposal) "Expired"
               (toISOString (gp_expiresAt proposal))) ;;;
       ret true
     else ret false)
    (λ _, ret false).

(** The loop collects the identifiers of the proposals it expired. *)
Fixpoint expire_loop (gracePeriodMs now : Z) (l : list GovernanceProposal) : run (list string) :=
  match l with
  | [] => ret []
  | proposal :: l' =>
      expired <- expire_one gracePeriodMs now proposal ;;
      expiredIds <- expire_loop gracePeriodMs now l' ;;
      ret (if expired : bool then gp_proposalId proposal :: expiredIds else expiredIds)
  end.

Definition cleanExpiredProposals (gracePeriodMs : Z) : run (nat * list string) :=
  now <- tl_new_Date ;;
  try_catch
    (expiredProposals <- select_proposals
       (λ p, is_queued p && (gp_expiresAt p <? now - gracePeriodMs)) ;;
     let batch := take 100 expiredProposals in
     expiredIds <- expire_loop gracePeriodMs now batch ;;
     ret (length batch, expiredIds))
    (λ _, ret (0%nat, [])).

(** ** Ready proposals *)

Definition set_notified (t : Z) (p : GovernanceProposal) : GovernanceProposal :=
  mkProposal (gp_proposalId p) (gp_contractId p) (gp_expiresAt p) (gp_status p)
    (gp_transactionHash p) (gp_executedAt p) (gp_queuedAt p) (gp_timelockActionSource p)
    (gp_notificationCount p + 1) (Some t) t.

(** The check repeated before each proposal of a batch. *)
Definition unless_aged_out (proposal : GovernanceProposal) (c : run unit) : run unit :=
  t <- tl_new_Date ;;
  if gp_expiresAt proposal + defaultGracePeriodMs <? t then ret tt else c.

Definition notify_one (proposal : GovernanceProposal) : run unit :=
  unless_aged_out proposal
    (try_catch
       (on_env (sendGovernanceTimelockReadyAlert (gp_proposalId proposal)
          (gp_contractId proposal) (gp_expiresAt proposal)) ;;;
        t <- tl_new_Date ;;
        update_where proposal (λ _, true) (set_notified t) ;;;
        send (ProposalExpired (gp_proposalId proposal) (gp_contractId proposal) "Queued"
                (gp_expiresAt proposal) "timelock_expired"))
       (λ _, ret tt)).

Definition notifyReadyProposals : run unit :=
  now <- tl_new_Date ;;
  pending <- select_proposals (λ p, is_queued p && (gp_expiresAt p <=? now) &&
    (now - defaultGracePeriodMs <=? gp_expiresAt p) &&
    bool_decide (gp_executionReadyNotifiedAt p = None)) ;;
  for_of pending notify_one.

Definition set_executed (transactionHash : string) (t : Z) (p : GovernanceProposal) :
    GovernanceProposal :=
  mkProposal (gp_proposalId p) (gp_contractId p) (gp_expiresAt p) "Executed"
    (Some transactionHash) (Some t) (gp_queuedAt p) (gp_timelockActionSource p)
    (gp_notificationCount p) (gp_executionReadyNotifiedAt p) t.

Definition execute_one (contractId : string) (proposal : GovernanceProposal) : run unit :=
  unless_aged_out proposal
    (try_catch
       (transactionHash <- on_env (executeGovernanceProposal
          (str_or (gp_contractId proposal) contractId) (gp_proposalId proposal)) ;;
        t <- tl_new_Date ;;
        update_where proposal is_queued (set_executed transactionHash t) ;;;
        send (ProposalExecuted (gp_proposalId proposal) (Some (gp_contractId proposal))
                (Some transactionHash)))
       (λ _, ret tt)).

Definition ready_to_execute (ledgerTimestamp thresholdDate : Z) (p : GovernanceProposal) : bool :=
  is_queued p && (gp_expiresAt p <=? ledgerTimestamp) && (thresholdDate <=? gp_expiresAt p).

Definition checkAndExecute (contractId : string) : run unit :=
  ledgerTimestamp <- on_env latest_ledger_closed_at ;;
  t <- tl_new_Date ;;
  l <- select_proposals (ready_to_execute ledgerTimestamp (t - defaultGracePeriodMs)) ;;
  for_of l (execute_one contractId).

(** [contractId] is [GOVERNANCE_CONTRACT_ID ?? CONTRACT_ID]. *)
Definition tick (contractId : option string) : run unit :=
  if truthy_opt contractId then
    let contractId := default "" contractId in
    indexContractEvents contractId ;;;
    cleanExpiredProposals defaultGracePeriodMs ;;;
    notifyReadyProposals ;;;
    checkAndExecute contractId
  else ret tt.

(** The cursor [start] resumes from. *)
Definition resume : run unit :=
  l <- query (λ d, findAll d.1.2) ;;
  match te_ledgerSeq <$> l with
  | [] => ret tt
  | n :: l' => λ w, (Ok tt, mkSvc ((svc_db w).1, foldr Z.max n l') (svc_env w))
  end.

(** ** Sequences of calls *)

Inductive timelock_op :=
| IndexEvents (contractId : string)
| CleanExpired (gracePeriodMs : Z)
| NotifyReady
| CheckAndExecute (contractId : string)
| Tick (contractId : option string).

Definition timelock_step (w : svc db H) (op : timelock_op) : svc db H :=
  match op with
  | IndexEvents c => final (indexContractEvents c) w
  | CleanExpired g => final (cleanExpiredProposals g) w
  | NotifyReady => final notifyReadyProposals w
  | CheckAndExecute c => final (checkAndExecute c) w
  | Tick c => final (tick c) w
  end.

Definition timelock_run : svc db H → list timelock_op → svc db H := foldl timelock_step.

(** ** What a call keeps

    A property of the database kept by every statement the service runs is kept by every
    call. *)
Record statements_keep (P : db → Prop) : Prop := {
  sk_index txHash name id e f :
    preserves (λ w, P (svc_db w)) (events (upsert (txHash, name, id) e f));
  sk_queue id c expiresAt queuedAt txHash t :
    preserves (λ w, P (svc_db w)) (proposals (upsert id
      (mkProposal id c expiresAt "Queued" None None (Some queuedAt) (Some txHash) 0 None t)
      (queued_update expiresAt queuedAt txHash t)));
  sk_executed id t : preserves (λ w, P (svc_db w)) (proposals (update id (executed_update t)));
  sk_expire p t : preserves (λ w, P (svc_db w)) (update_where p is_queued (set_expired t));
  sk_notify p t : preserves (λ w, P (svc_db w)) (update_where p (λ _, true) (set_notified t));
  sk_execute p h t : preserves (λ w, P (svc_db w)) (update_where p is_queued (set_executed h t));
  sk_cursor n : preserves (λ w, P (svc_db w)) (advance_cursor n);
}.

Section keep.
Context (P : db → Prop) (HP : statements_keep P).
Notation keeps := (preserves (λ w, P (svc_db w))).

Lemma keeps_date : keeps tl_new_Date.
Proof. by intros w. Qed.
Lemma keeps_send b : keeps (send b).
Proof. apply preserves_on_env. Qed.
Lemma keeps_valid_date d : keeps (valid_date d).
Proof. by destruct d; intros w. Qed.
Local Hint Resolve keeps_date keeps_send keeps_valid_date sk_index sk_queue sk_executed sk_expire
  sk_notify sk_execute sk_cursor HP : sf.

Lemma keeps_index_event c e : keeps (index_event c e).
Proof. unfold index_event, handleProposalQueued, handleTimelockActionExecuted. preserve. Qed.
Lemma keeps_index c : keeps (indexContractEvents c).
Proof. unfold indexContractEvents. preserve; apply keeps_index_event. Qed.
Lemma keeps_expire_one g n p : keeps (expire_one g n p).
Proof. unfold expire_one. preserve. Qed.
Lemma keeps_expire_loop g n l : keeps (expire_loop g n l).
Proof.
  induction l; simpl; [apply preserves_ret|]. preserve. apply keeps_expire_one.
Qed.
Lemma keeps_clean g : keeps (cleanExpiredProposals g).
Proof. unfold cleanExpiredProposals, select_proposals. preserve; apply keeps_expire_loop. Qed.
Lemma keeps_notify : keeps notifyReadyProposals.
Proof. unfold notifyReadyProposals, select_proposals, notify_one, unless_aged_out. preserve. Qed.
Lemma keeps_check c : keeps (checkAndExecute c).
Proof. unfold checkAndExecute, select_proposals, execute_one, unless_aged_out. preserve. Qed.
Local Hint Resolve keeps_index keeps_clean keeps_notify keeps_check : sf.
Lemma keeps_tick c : keeps (tick c).
Proof. unfold tick. preserve. Qed.

Lemma timelock_run_keeps ops w : P (svc_db w) → P (svc_db (timelock_run w ops)).
Proof.
  revert w. induction ops as [|op ops IH]; intros w Hw; [done|]. simpl. apply IH.
  destruct op; simpl; apply (preserves_final (λ w, P (svc_db w)));
    auto using keeps_tick with sf.
Qed.
End keep.

(** ** Which statements touch what *)

Lemma events_keep (P : db → Prop) (c : M DE TimelockEvent) :
  (∀ d e', P d → P (d.1.1, e', d.2)) → preserves (λ w, P (svc_db w)) (events c).
Proof.
  intros HP. apply preserves_on_db. intros [[dp de] n] r d' Hd E.
  apply on_fst_inv in E as [[E E1]%on_snd_inv E2]. destruct d' as [[dp' de'] n']; simpl in *; subst.
  by apply (HP (dp, de, n)).
Qed.

Lemma proposals_keep {A} (Q : gmap string GovernanceProposal → Prop) (c : M DP A) :
  (∀ d r d', Q (rows d) → c d = (r, d') → Q (rows d')) →
  preserves (λ w, Q (rows (svc_db w).1.1)) (proposals c).
Proof.
  intros Hc. apply (preserves_on_db (λ d : db, Q (rows d.1.1))). intros d r d' Hd E.
  apply on_fst_inv in E as [[E _]%on_fst_inv _]. by eapply Hc.
Qed.

Lemma proposals_cursor {A} n (c : M DP A) :
  preserves (λ w, n ≤ (svc_db w).2) (proposals c).
Proof.
  apply (preserves_on_db (λ d : db, n ≤ d.2)). intros d r d' Hd E.
  apply on_fst_inv in E as [_ ->]. done.
Qed.

(** [updateMany] under a queued-only condition. *)
Definition update_queued (p : GovernanceProposal) (f : GovernanceProposal → GovernanceProposal)
    (r : GovernanceProposal) : GovernanceProposal :=
  if bool_decide (gp_proposalId r = gp_proposalId p) && is_queued r then f r else r.

Lemma rows_statements_keep (Q : gmap string GovernanceProposal → Prop) :
  (∀ m id r0, Q m → m !! id = None → gp_status r0 = "Queued" → Q (<[id := r0]> m)) →
  (∀ m id r (f : GovernanceProposal → GovernanceProposal), Q m → m !! id = Some r → gp_status (f r) = gp_status r ∨ gp_status (f r) = "Executed" →
     Q (<[id := f r]> m)) →
  (∀ m (g : GovernanceProposal → GovernanceProposal), Q m → (∀ r, g r = r ∨ gp_status (g r) = gp_status r ∨
     (gp_status r = "Queued" ∧ gp_status (g r) ∈ ["Expired"; "Executed"])) → Q (g <$> m)) →
  statements_keep (λ d, Q (rows d.1.1)).
Proof.
  intros Hnew Hset Hmap.
  assert (∀ p f, (∀ r, gp_status (f r) ∈ ["Expired"; "Executed"]) →
    preserves (λ w, Q (rows (svc_db w).1.1)) (update_where p is_queued f)) as Hq.
  { intros p f Hf. apply proposals_keep. intros d [n|e] d' Hd E.
    - apply updateMany_ok in E as [-> _]. apply Hmap; [done|]. intros r.
      destruct (bool_decide (gp_proposalId r = gp_proposalId p)); [|by left]. simpl.
      destruct (is_queued r) eqn:E; [|by left]. right; right. split; [|done].
      by apply bool_decide_eq_true in E.
    - by apply updateMany_err in E as ->. }
  constructor.
  - intros. by apply (events_keep (λ d, Q (rows d.1.1))).
  - intros. apply proposals_keep. intros d [r|e] d' Hd E; [|by apply upsert_err in E as ->].
    apply upsert_ok in E as [-> ->]. destruct (rows d !! id) as [r0|] eqn:E.
    + by apply (Hset _ _ _ (queued_update _ _ _ _)); [..|left].
    + by apply Hnew.
  - intros. apply proposals_keep. intros d [r|e] d' Hd E; [|by apply update_err in E as ->].
    apply update_ok in E as (r0 & Hr & -> & ->). by apply Hset; [..|right].
  - intros. apply Hq. intros; simpl; set_solver.
  - intros. apply proposals_keep. intros d [n|e] d' Hd E; [|by apply updateMany_err in E as ->].
    apply updateMany_ok in E as [-> _]. apply Hmap; [done|]. intros r. right; left.
    by destruct (_ && _).
  - intros. apply Hq. intros; simpl; set_solver.
  - intros n w Hw. unfold wp, advance_cursor. by destruct (_ <? _).
Qed.

(** ** Properties *)

(** The moves of a proposal's status: a queued one expires, and one of any status becomes
    executed, by the service itself or by an event of the contract. *)
Inductive status_edge : string → string → Prop :=
| edge_expire : status_edge "Queued" "Expired"
| edge_execute s : status_edge s "Executed".

(** Where the moves lead. *)
Definition status_after (s0 s : string) : Prop :=
  s = s0 ∨ s = "Executed" ∨ s0 = "Queued" ∧ s = "Expired".

Lemma edge_targets s0 s : rtc status_edge s0 s → status_after s0 s.
Proof.
  induction 1 as [|x y z E _ IH]; [by left|]. unfold status_after in *.
  destruct E; destruct IH as [?|[?|[? ?]]]; subst; naive_solver.
Qed.

Definition at_least (k s0 : string) (m : gmap string GovernanceProposal) : Prop :=
  ∃ p, m !! k = Some p ∧ rtc status_edge s0 (gp_status p).

Lemma at_least_keep k s0 : statements_keep (λ d, at_least k s0 (rows d.1.1)).
Proof.
  apply rows_statements_keep.
  - intros m id r0 (p & Hp & Hr) Hn Hq. exists p. by rewrite lookup_insert_ne by congruence.
  - intros m id r f (p & Hp & Hr) Hid Hf.
    destruct (decide (id = k)) as [->|]; [|exists p; by rewrite lookup_insert_ne].
    exists (f r). rewrite lookup_insert_eq. split; [done|]. replace r with p in * by congruence.
    destruct Hf as [->| ->]; [done|]. etrans; [done|]. apply rtc_once. constructor.
  - intros m g (p & Hp & Hr) Hg. exists (g p). rewrite lookup_fmap, Hp.
    split; [done|]. destruct (Hg p) as [->|[->|[Hq Ht]]]; [done|done|]. etrans; [done|].
    rewrite Hq. apply rtc_once.
    apply list_elem_of_In in Ht as [<-|[<-|[]]]; constructor.
Qed.

(** C40. Over every sequence of ticks and single calls, with any events and any failures, a
    proposal, whatever its status, keeps its row, and its status stays what it was, becomes
    [Executed], or, if it was [Queued], becomes [Expired]. So nothing brings a proposal back
    to [Queued], nothing leaves [Executed], and only a queued one expires. *)
Theorem proposal_status_forward ops (w : svc db H) k p :
  proposal_rows w !! k = Some p →
  ∃ p', proposal_rows (timelock_run w ops) !! k = Some p' ∧
    (gp_status p' = gp_status p ∨ gp_status p' = "Executed" ∨
     gp_status p = "Queued" ∧ gp_status p' = "Expired").
Proof.
  intros Hp.
  destruct (timelock_run_keeps _ (at_least_keep k (gp_status p)) ops w) as (p' & Hp' & Hr).
  - by exists p.
  - exists p'. split; [done|]. exact (edge_targets _ _ Hr).
Qed.

(** The indexing cursor never moves back. *)
Theorem cursor_never_back ops (w : svc db H) :
  lastIndexedLedger w ≤ lastIndexedLedger (timelock_run w ops).
Proof.
  apply (timelock_run_keeps (λ d, lastIndexedLedger w ≤ d.2)); [|done]. constructor.
  - intros. by apply (events_keep (λ d, lastIndexedLedger w ≤ d.2)).
  - intros. apply proposals_cursor.
  - intros. apply proposals_cursor.
  - intros. apply proposals_cursor.
  - intros. apply proposals_cursor.
  - intros. apply proposals_cursor.
  - intros n w' Hw. unfold wp, advance_cursor, lastIndexedLedger in *.
    destruct (Z.ltb_spec (svc_db w').2 n); simpl; lia.
Qed.

(** [handleProposalQueued], when it succeeds, writes one row: a new one in state
    [Queued], or the existing one with its status, its execution and its notification
    record untouched. In both cases the expiry becomes the one of the payload or, without
    one, 24 hours after the moment of indexing, so indexing the same event again moves
    the expiry. *)
Theorem handleProposalQueued_upserts proposalId contractId event txHash (w : svc db H) :
  outcome (handleProposalQueued proposalId contractId event txHash) w = Ok tt →
  let t := tl_now (svc_env w) in
  ∃ p', default (Some (t + DAY_MS)) (decode_expiry (ev_value event)) = Some (gp_expiresAt p') ∧
    proposal_rows (final (handleProposalQueued proposalId contractId event txHash) w) =
      <[proposalId := p']> (proposal_rows w) ∧
    match proposal_rows w !! proposalId with
    | None => gp_status p' = "Queued" ∧ gp_notificationCount p' = 0 ∧
              gp_executionReadyNotifiedAt p' = None
    | Some p => gp_status p' = gp_status p ∧ gp_notificationCount p' = gp_notificationCount p ∧
        gp_executionReadyNotifiedAt p' = gp_executionReadyNotifiedAt p ∧
        gp_executedAt p' = gp_executedAt p ∧ gp_transactionHash p' = gp_transactionHash p
    end.
Proof.
  unfold outcome, final, handleProposalQueued. unfold bind at 1 5, tl_new_Date.
  destruct (default _ (decode_expiry _)) as [e|] eqn:Ee; [|done]. simpl.
  unfold bind at 1 4. simpl.
  destruct (if truthy_opt _ then _ else _) as [q|] eqn:Eq; [|done]. simpl.
  unfold bind, proposals, on_db, on_fst. simpl.
  destruct (upsert _ _ _ _) as [[r|er] d'] eqn:E; [|done]. simpl. intros _.
  apply upsert_ok in E as [-> Hd]. eexists. split; [|split; [exact Hd|]].
  - unfold proposal_rows. by destruct (rows _ !! proposalId).
  - unfold proposal_rows. by destruct (rows _ !! proposalId).
Qed.
End service.

(** ** What is submitted to the network

    A world that records the calls of [executeGovernanceProposal] with their times. *)

Definition submission := (string * string * Z)%type.

Definition recording {H Sc} (base : TimelockWorld H Sc) : TimelockWorld (H * list submission) Sc := {|
  tl_now h := tl_now h.1;
  rpc_getEvents n c := on_fst (rpc_getEvents n c);
  latest_ledger_closed_at := on_fst latest_ledger_closed_at;
  executeGovernanceProposal c p := λ '(h, l),
    let '(r, h') := executeGovernanceProposal c p h in (r, (h', l ++ [(c, p, tl_now h)]));
  sendGovernanceTimelockReadyAlert p c t := on_fst (sendGovernanceTimelockReadyAlert p c t);
  emit b h := (emit b h.1, h.2);
|}.

Section submissions.
Context {DP DE H Sc : Type}.
Context `{!PrismaTable string GovernanceProposal DP} (base : TimelockWorld H Sc).
Context (grace : Z).
#[local] Existing Instance recording.
Notation db := (DP * DE * Z)%type.
Notation log w := (svc_env w).2.

(** What one proposal of the batch adds to the log: nothing, or its own submission. *)
Definition adds (contractId : string) (p : GovernanceProposal)
    (w w' : svc db (H * list submission)) : Prop :=
  log w' = log w ∨
  ∃ t, log w' = log w ++ [(str_or (gp_contractId p) contractId, gp_proposalId p, t)] ∧
    t ≤ gp_expiresAt p + grace.

Lemma execute_one_log contractId p (w : svc db (H * list submission)) :
  wp (execute_one (Sc:=Sc) (H:=H * list submission) grace contractId p)
    (λ _, adds contractId p w) (λ _, adds contractId p w) w.
Proof.
  assert (∀ d (h : H * list submission), h.2 = log w → adds contractId p w (mkSvc d h)) as Hsame
    by (intros d h E; by left).
  apply wp_bind. change (wp tl_new_Date ?Q ?E w) with (Q (tl_now (svc_env w)) w). cbv beta.
  destruct (Z.ltb_spec (gp_expiresAt p + grace) (tl_now (svc_env w))) as [|Hle];
    [apply wp_ret; by left|].
  apply wp_try_catch, wp_bind. destruct w as [d [h l]]. unfold wp at 1, on_env at 1. simpl.
  simpl in Hle, Hsame.
  assert (∀ d h', adds contractId p (mkSvc d (h, l)) (mkSvc d
    (h', l ++ [(str_or (gp_contractId p) contractId, gp_proposalId p, tl_now h)]))) as Hadd.
  { intros. right. by exists (tl_now h). }
  destruct (executeGovernanceProposal (H:=H) _ _ h) as [[tx|e] h']; [|by apply wp_ret].
  apply wp_bind. change (wp tl_new_Date ?Q ?E ?w) with (Q (tl_now (svc_env w)) w). cbv beta.
  apply wp_bind, wp_on_db; simpl.
  - intros n d' _. unfold send, wp, on_env, modify. simpl. exact (Hadd d' _).
  - intros e d' _. apply wp_ret. exact (Hadd d' h').
Qed.

Lemma execute_batch_log contractId (l : list GovernanceProposal) (w : svc db (H * list submission)) :
  wp (for_of l (execute_one (Sc:=Sc) (H:=H * list submission) grace contractId))
    (λ _ w', ∃ new, log w' = log w ++ new ∧ new.*1.*2 `sublist_of` gp_proposalId <$> l ∧
       ∀ s, s ∈ new → ∃ p, p ∈ l ∧ gp_proposalId p = s.1.2 ∧ s.2 ≤ gp_expiresAt p + grace)
    (λ _ w', ∃ new, log w' = log w ++ new ∧ new.*1.*2 `sublist_of` gp_proposalId <$> l ∧
       ∀ s, s ∈ new → ∃ p, p ∈ l ∧ gp_proposalId p = s.1.2 ∧ s.2 ≤ gp_expiresAt p + grace) w.
Proof.
  revert w. induction l as [|p l IH]; intros w.
  { apply wp_ret. exists []. split; [by rewrite app_nil_r|]. split; [done|set_solver]. }
  assert (∀ w1, adds contractId p w w1 → ∃ new, log w1 = log w ++ new ∧
    new.*1.*2 `sublist_of` [gp_proposalId p] ∧
    ∀ s, s ∈ new → gp_proposalId p = s.1.2 ∧ s.2 ≤ gp_expiresAt p + grace) as Hadds.
  { intros w1 [E|(t & E & Ht)].
    - exists []. split; [by rewrite app_nil_r|]. split; [apply sublist_nil_l|set_solver].
    - eexists [_]. split; [exact E|]. split; [done|].
      intros s ->%list_elem_of_singleton. done. }
  cbn [for_of]. apply wp_bind. eapply wp_mono; [apply execute_one_log| |].
  - intros [] w1 (n1 & E1 & S1 & P1)%Hadds. eapply wp_mono; [apply IH|..];
      intros ? w2 (n2 & E2 & S2 & P2); exists (n1 ++ n2);
      (split; [by rewrite E2, E1, <-app_assoc|]; split;
       [rewrite !fmap_app; cbn [fmap list_fmap]; change (gp_proposalId p :: ?x) with ([gp_proposalId p] ++ x);
        by apply sublist_app|]);
      (intros s [Hs|Hs]%elem_of_app; [exists p; destruct (P1 s Hs); set_solver|
        destruct (P2 s Hs) as (q & ? & ? & ?); exists q; set_solver]).
  - intros e w1 (n1 & E1 & S1 & P1)%Hadds. exists n1. split; [done|]. split.
    + etrans; [exact S1|]. 
      cbn [fmap list_fmap]. apply sublist_skip, sublist_nil_l.
    + intros s Hs. exists p. destruct (P1 s Hs). set_solver.
Qed.

(** C4. Every proposal [checkAndExecute] submits to the network was queued in the table
    when the call began, its timelock had expired by the time of the latest ledger, and it
    was submitted before its grace period ended; each row is submitted at most once per
    call, in the order of expiry. *)
Theorem executes_only_ready contractId (w : svc db (H * list submission)) ledgerTime h1 :
  latest_ledger_closed_at (Sc:=Sc) (svc_env w).1 = (Ok ledgerTime, h1) →
  log w = [] →
  let w' := final (checkAndExecute (Sc:=Sc) (H:=H * list submission) grace contractId) w in
  ∃ l, Sorted earlier l ∧ (log w').*1.*2 `sublist_of` gp_proposalId <$> l ∧
    l ⊆+ (map_to_list (proposal_rows w)).*2 ∧
    ∀ s, s ∈ log w' → ∃ p, p ∈ l ∧ gp_proposalId p = s.1.2 ∧
      gp_status p = "Queued" ∧ gp_expiresAt p ≤ ledgerTime ∧ s.2 ≤ gp_expiresAt p + grace.
Proof.
  intros Hl Hlog. set (R := λ w' : svc db (H * list submission), ∃ l, Sorted earlier l ∧
    (log w').*1.*2 `sublist_of` gp_proposalId <$> l ∧
    l ⊆+ (map_to_list (proposal_rows w)).*2 ∧
    ∀ s, s ∈ log w' → ∃ p, p ∈ l ∧ gp_proposalId p = s.1.2 ∧
      gp_status p = "Queued" ∧ gp_expiresAt p ≤ ledgerTime ∧ s.2 ≤ gp_expiresAt p + grace).
  assert (∀ w', log w' = [] → R w') as Hnil.
  { intros w' E. exists []. rewrite E. split_and!; [constructor|done|apply submseteq_nil_l|set_solver]. }
  apply (wp_final _ R). apply wp_bind. destruct w as [d [h lg]]; simpl in *. subst lg.
  unfold wp at 1, on_env at 1. simpl. unfold on_fst. simpl. rewrite Hl.
  apply wp_bind. change (wp tl_new_Date ?Q ?E ?w) with (Q (tl_now (svc_env w)) w). cbv beta.
  apply wp_bind, wp_bind, wp_query; [|intros e; by apply Hnil].
  intros rs Hrs. apply wp_ret. simpl in *. apply findAll_ok in Hrs.
  set (l := merge_sort _ _).
  assert (l ⊆+ (map_to_list (rows d.1.1)).*2) as Hsub.
  { unfold l. rewrite merge_sort_Permutation, <-Hrs. apply sublist_submseteq, sublist_filter. }
  assert (Sorted earlier l) as Hsort.
  { apply Sorted_merge_sort. intros x y. unfold earlier. lia. }
  eapply wp_mono; [apply execute_batch_log|..]; intros ? w' (new & E & Hs & Hp); simpl in E;
    exists l; rewrite E; (split_and!; [done..|]); intros s Hin;
    destruct (Hp s Hin) as (p & Hpl & Hid & Ht); exists p; (split_and!; [done..| | |done]);
    unfold l in Hpl; rewrite merge_sort_Permutation in Hpl;
    apply list_elem_of_filter in Hpl as [Hr _]; unfold ready_to_execute, is_queued in Hr;
    apply andb_prop in Hr as [[Hq Hle]%andb_prop _];
    [by apply bool_decide_eq_true in Hq|lia|by apply bool_decide_eq_true in Hq|lia].
Qed.
End submissions.

(** ** Concrete runs

    No SDK values; a clock as the state of the world; one queued event per poll. *)

Definition queued_event (id : string) (value : js unit) : RawSorobanEvent unit :=
  mkEvent (Some 7) None None (Some "tx") (JArr [JStr "ProposalQueued"; JStr id]) value.

#[export] Instance steady_world : TimelockWorld Z unit := {|
  tl_now t := t;
  rpc_getEvents _ _ := ret [queued_event "p1" (JObj [("eta", JNum (num_of_Z 500))])];
  latest_ledger_closed_at := λ t, (Ok t, t);
  executeGovernanceProposal _ _ := λ t, (Ok "tx2", t + 10);
  sendGovernanceTimelockReadyAlert _ _ _ := ret tt;
  emit _ t := t;
|}.

Definition no_xdr (s : string) : option unit := None.
Definition no_string (u : unit) : string := "".
Definition no_entries (u : unit) : option (list (unit * unit)) := None.
Definition no_prop (u : unit) (k : string) : js unit := JUndefined.
Definition no_number (s : string) : number := SpecFloat.S754_nan.
Definition no_date (s : string) : date := None.
Definition no_text (v : js unit) : string := "".

Definition one_proposal (status : string) : gmap string GovernanceProposal :=
  {["p1" := mkProposal "p1" "C1" 500000 status None None None None 0 None 0]}.
Notation table_world := (svc (gmap string GovernanceProposal *
  gmap (string * string * string) TimelockEvent * Z) Z).
Definition sample_timelock (status : string) : table_world :=
  mkSvc (one_proposal status, ∅, 3) 600000.

Notation sample_run_ops := (timelock_run no_xdr no_string no_string no_entries no_string no_prop
  no_number no_date no_text 1000000).

Example sample_tick :
  gp_status <$> proposal_rows (sample_run_ops (sample_timelock "Queued") [Tick (Some "C1")]) !! "p1" =
  Some "Executed".
Proof. by vm_compute. Qed.

Lemma proposal_status_forward_witness :
  ∃ p', proposal_rows (sample_run_ops (sample_timelock "Cancelled") [Tick (Some "C1"); CleanExpired 5])
          !! "p1" = Some p' ∧
    (gp_status p' = "Cancelled" ∨ gp_status p' = "Executed" ∨
     "Cancelled" = "Queued" ∧ gp_status p' = "Expired").
Proof.
  apply (proposal_status_forward no_xdr no_string no_string no_entries no_string no_prop
    no_number no_date no_text 1000000 [Tick (Some "C1"); CleanExpired 5] (sample_timelock "Cancelled") "p1"
    (mkProposal "p1" "C1" 500000 "Cancelled" None None None None 0 None 0)).
  reflexivity.
Defined.

(** An event without an expiry, indexed again a minute later. *)
Notation handle_sample := (handleProposalQueued no_xdr no_string no_string no_entries no_string
  no_prop no_number no_date).

Lemma handleProposalQueued_upserts_witness :
  ∃ p', Some (600000 + DAY_MS) = Some (gp_expiresAt p') ∧
    proposal_rows (final (handle_sample "p1" "C1" (queued_event "p1" JNull) "tx")
      (sample_timelock "Executed")) = <["p1" := p']> (one_proposal "Executed") ∧
    gp_status p' = "Executed" ∧ gp_notificationCount p' = 0 ∧
    gp_executionReadyNotifiedAt p' = None ∧ gp_executedAt p' = None ∧ gp_transactionHash p' = None.
Proof.
  destruct (handleProposalQueued_upserts no_xdr no_string no_string no_entries no_string no_prop
    no_number no_date "p1" "C1" (queued_event "p1" JNull) "tx" (sample_timelock "Executed")
    ltac:(by vm_compute))    as (p' & He & Hr & Hm).
  exists p'. split; [exact He|]. split; [exact Hr|]. exact Hm.
Defined.

Definition recorded_world : svc (gmap string GovernanceProposal *
  gmap (string * string * string) TimelockEvent * Z) (Z * list submission) :=
  mkSvc (one_proposal "Queued", ∅, 3) (600000, []).

Lemma executes_only_ready_witness :
  let w' := final (checkAndExecute (Sc:=unit) (H:=Z * list submission)
    (TimelockWorld0:=recording steady_world) 1000000 "C1") recorded_world in
  (svc_env w').2 = [("C1", "p1", 600000)] ∧
  ∃ l, Sorted earlier l ∧ (svc_env w').2.*1.*2 `sublist_of` gp_proposalId <$> l ∧
    l ⊆+ (map_to_list (proposal_rows recorded_world)).*2 ∧
    ∀ s, s ∈ (svc_env w').2 → ∃ p, p ∈ l ∧ gp_proposalId p = s.1.2 ∧
      gp_status p = "Queued" ∧ gp_expiresAt p ≤ 600000 ∧ s.2 ≤ gp_expiresAt p + 1000000.
Proof.
  intros w'. split; [by vm_compute|].
  exact (executes_only_ready steady_world 1000000 "C1" recorded_world 600000 600000
    eq_refl eq_refl).
Defined.
