(* ===== verification/CircuitBreaker.v ===== *)
(** * Automated circuit breaker: [src/src/services/circuitBreakerService.ts] and
    [src/src/services/invariantChecker.ts]

    The invariant check of the keeper's balance and the pause sequence it triggers. The
    state is the audit table and the fields of the service; the signer, the lockdown
    switch, Horizon, the RPC server, the sequence provider and the notifier are the
    outside world. The Stellar SDK's transactions are the record of what the service puts
    into them. *)

From S2P Require Import Prelude JsString JsNumber JsDate Prisma Service.

Local Open Scope Z_scope.

(** ** [invariantChecker.ts] *)

Inductive InvariantSeverity := HIGH | CRITICAL.

#[export] Instance InvariantSeverity_eq_dec : EqDecision InvariantSeverity.
Proof. solve_decision. Defined.

Record ViolationDetails := mkDetails {
  vd_keeperPublicKey : string;
  vd_balance : option number;
  vd_minKeeperXlmBalance : number;
}.

Record InvariantViolation := mkViolation {
  iv_breachType : string;
  iv_severity : InvariantSeverity;
  iv_message : string;
  iv_details : ViolationDetails;
}.

Record BalanceSnapshot := mkSnapshot {
  bs_keeperXlmBalance : option number;
  bs_keeperPublicKey : string;
}.

Definition UNREADABLE : string := "KEEPER_BALANCE_UNREADABLE".
Definition BELOW_FLOOR : string := "KEEPER_XLM_BALANCE_BELOW_FLOOR".

Section checker.
(** A number in a template string. *)
Context (num_to_string : number → string).

Definition evaluateBalanceInvariants (snapshot : BalanceSnapshot) (minKeeperXlmBalance : number) :
    list InvariantViolation :=
  match bs_keeperXlmBalance snapshot with
  | None =>
      [mkViolation UNREADABLE HIGH
         "Keeper account balance could not be read — invariant state is unknown."
         (mkDetails (bs_keeperPublicKey snapshot) None minKeeperXlmBalance)]
  | Some balance =>
      if num_ltb balance minKeeperXlmBalance then
        [mkViolation BELOW_FLOOR CRITICAL
           ("Keeper XLM balance " +:+ num_to_string balance +:+ " is below the invariant floor of "
            +:+ num_to_string minKeeperXlmBalance +:+ " XLM.")
           (mkDetails (bs_keeperPublicKey snapshot) (Some balance) minKeeperXlmBalance)]
      else []
  end.

Definition requiresCircuitBreakerPause (violations : list InvariantViolation) :
    list InvariantViolation := filter (λ v, iv_severity v = CRITICAL) violations.
End checker.

(** ** [circuitBreakerService.ts] *)

Definition DEFAULT_MIN_KEEPER_XLM : Z := 20.
Definition DEFAULT_CHECK_INTERVAL_MS : Z := 60 * 1000.
Definition DEFAULT_COOLDOWN_MS : Z := 30 * 60 * 1000.
Definition PAUSE_MEMO_PREFIX : string := "SF-PAUSE-".

Definition parsePositiveNumber (raw : option string) (fallback : Z) : Z :=
  match parseInt10 (default "" raw) with
  | Some parsed => if 0 <? parsed then parsed else fallback
  | None => fallback
  end.

Record CircuitBreakerConfig := mkCBConfig {
  cb_enabled : bool;
  cb_contractId : string;
  cb_minKeeperXlmBalance : number;
  cb_checkIntervalMs : Z;
  cb_cooldownMs : Z;
}.

(** The constructor's settings: explicit dependency, then environment, then default. *)
Definition cb_constructor (enabled : option bool) (contractId : option string)
    (minKeeperXlmBalance : option number) (checkIntervalMs cooldownMs : option Z)
    (CIRCUIT_BREAKER_ENABLED CONTRACT_ID INVARIANT_MIN_KEEPER_XLM_BALANCE
     CIRCUIT_BREAKER_CHECK_INTERVAL_MS CIRCUIT_BREAKER_COOLDOWN_MS : option string) :
    CircuitBreakerConfig := {|
  cb_enabled := default (bool_decide (CIRCUIT_BREAKER_ENABLED = Some "true")) enabled;
  cb_contractId := default (default "" CONTRACT_ID) contractId;
  cb_minKeeperXlmBalance := default (num_of_Z (parsePositiveNumber
    INVARIANT_MIN_KEEPER_XLM_BALANCE DEFAULT_MIN_KEEPER_XLM)) minKeeperXlmBalance;
  cb_checkIntervalMs := default (parsePositiveNumber
    CIRCUIT_BREAKER_CHECK_INTERVAL_MS DEFAULT_CHECK_INTERVAL_MS) checkIntervalMs;
  cb_cooldownMs := default (parsePositiveNumber
    CIRCUIT_BREAKER_COOLDOWN_MS DEFAULT_COOLDOWN_MS) cooldownMs;
|}.

(** The mutable fields. *)
Record CircuitBreakerService := mkCB {
  cb_isRunning : bool;
  cb_lastCheckAt : option Z;
  cb_lastViolation : option string;
  cb_lastPauseAt : option Z;
  cb_lastPauseByBreachType : gmap string Z;
}.

Definition cb_initial : CircuitBreakerService := mkCB false None None None ∅.

(** A row of the audit table. *)
Record CircuitBreakerEvent := mkCBEvent {
  ce_breachType : string;
  ce_severity : InvariantSeverity;
  ce_reason : string;
  ce_details : ViolationDetails;
  ce_status : string;
  ce_txHash : option string;
  ce_keeperPublicKey : string;
  ce_detectedAt : Z;
}.

Record PauseTransaction := mkPauseTx {
  pt_source : string;
  pt_sequence : string;
  pt_fee : string;
  pt_networkPassphrase : string;
  pt_contract : string;
  pt_function : string;
  pt_memo : string;
  pt_timeout : Z;
}.

Record Balance := mkBalance { bal_asset_type : string; bal_balance : string }.

Record Alert := mkAlert {
  al_breachType : string;
  al_reason : string;
  al_contractId : string;
  al_txHash : option string;
}.

(** The services and servers called; [Sim] and [Atx] are the SDK's simulations and
    assembled transactions. *)
Class CircuitWorld (H Sim Atx : Type) := {
  cb_now : H → Z;
  isLockdownEnabled : M H bool;
  getPublicKey : M H string;
  keeper_sign : string → M H string;
  loadBalances : string → M H (list Balance);
  sequenceProvider : string → M H string;
  notifier : Alert → M H bool;
  simulateTransaction : PauseTransaction → M H (string + Sim);
  assembleTransaction : PauseTransaction → Sim → Atx;
  tx_hash : Atx → string;
  (** the signed transaction; the answer's status and error *)
  sendTransaction : Atx → string → string → M H (string * option string);
}.

Definition quote : string := String (Ascii.ascii_of_nat 34) "".

Section service.
Context {DE H Sim Atx : Type}.
Context `{!PrismaTable Z CircuitBreakerEvent DE} `{!CircuitWorld H Sim Atx}.
Context (num_to_string : number → string) (parseFloat : string → number).
Context (networkPassphrase : string) (config : CircuitBreakerConfig).

Notation db := (DE * CircuitBreakerService)%type.
Notation run := (M (svc db H)).

Definition cb_Date_now : run Z := λ w, (Ok (cb_now (svc_env w)), w).
Definition fields (w : svc db H) : CircuitBreakerService := (svc_db w).2.
Definition set_fields (f : CircuitBreakerService → CircuitBreakerService) : run unit := λ w,
  (Ok tt, mkSvc ((svc_db w).1, f (svc_db w).2) (svc_env w)).

Definition set_lastCheckAt (t : Z) (s : CircuitBreakerService) : CircuitBreakerService :=
  mkCB (cb_isRunning s) (Some t) (cb_lastViolation s) (cb_lastPauseAt s)
    (cb_lastPauseByBreachType s).
Definition set_lastViolation (v : string) (s : CircuitBreakerService) : CircuitBreakerService :=
  mkCB (cb_isRunning s) (cb_lastCheckAt s) (Some v) (cb_lastPauseAt s)
    (cb_lastPauseByBreachType s).
Definition stamp_pause (breachType : string) (at_ now : Z) (s : CircuitBreakerService) :
    CircuitBreakerService :=
  mkCB (cb_isRunning s) (cb_lastCheckAt s) (cb_lastViolation s) (Some at_)
    (<[breachType := now]> (cb_lastPauseByBreachType s)).

Definition fetchKeeperBalance (publicKey : string) : run (option number) :=
  try_catch
    (balances <- on_env (loadBalances publicKey) ;;
     ret (match filter (λ b, bal_asset_type b = "native") balances with
          | native :: _ => Some (parseFloat (bal_balance native))
          | [] => None
          end))
    (λ _, ret None).

(** The default recorder: a row with the database's timestamp. *)
Definition eventRecorder (violation : InvariantViolation) (status : string)
    (txHash : option string) (keeperPublicKey : string) : run unit :=
  t <- cb_Date_now ;;
  on_db (on_fst (create (λ _, mkCBEvent (iv_breachType violation) (iv_severity violation)
    (iv_message violation) (iv_details violation) status txHash keeperPublicKey t))) ;;;
  ret tt.

(** The default finder: is there a submitted pause of this type since then? *)
Definition persistedPauseFinder (breachType : string) (since : Z) : run bool :=
  n <- query (λ d, count (λ e, bool_decide (ce_breachType e = breachType) &&
    bool_decide (ce_status e = "PAUSE_SUBMITTED") && (since <=? ce_detectedAt e)) d.1) ;;
  ret (0 <? n)%nat.

Definition isWithinCooldown (breachType : string) (now : Z) : run bool :=
  w <- get ;;
  let lastInMemory := default 0 (cb_lastPauseByBreachType (fields w) !! breachType) in
  if now - lastInMemory <? cb_cooldownMs config then ret true
  else persistedPauseFinder breachType (now - cb_cooldownMs config).

Definition buildPauseTransaction (source sequence passphrase : string)
    (memoText : option string) : PauseTransaction :=
  mkPauseTx source sequence "100" passphrase (cb_contractId config) "pause"
    (default (PAUSE_MEMO_PREFIX +:+ "CIRCUIT") memoText) 30.

Definition submitPauseTransaction (raw : PauseTransaction) : run string :=
  simulation <- on_env (simulateTransaction raw) ;;
  match simulation with
  | inl error => throw (Error ("pause() simulation failed: " +:+ error))
  | inr simulation =>
      let assembled := assembleTransaction raw simulation in
      signature <- on_env (keeper_sign (tx_hash assembled)) ;;
      publicKey <- on_env getPublicKey ;;
      response <- on_env (sendTransaction assembled publicKey signature) ;;
      if includes ["PENDING"; "DUPLICATE"; "TRY_AGAIN_LATER"] response.1 then
        ret (tx_hash assembled)
      else throw (Error ("pause() submission rejected with status " +:+ quote +:+ response.1 +:+ quote +:+
        match response.2 with Some e => ": " +:+ e | None => "" end))
  end.

Definition buildSignAndSubmitPause (violation : InvariantViolation) (publicKey : string) :
    run string :=
  nextSequence <- on_env (sequenceProvider publicKey) ;;
  let memo := PAUSE_MEMO_PREFIX +:+ slice_to 14 (iv_breachType violation) in
  submitPauseTransaction (buildPauseTransaction publicKey nextSequence networkPassphrase (Some memo)).

(** [skipped], or the transaction. *)
Inductive PauseResult :=
| PauseSkipped (reason : string)
| PauseSubmitted (txHash : string).

Definition alert (violation : InvariantViolation) (txHash : option string) : run unit :=
  on_env (notifier (mkAlert (iv_breachType violation) (iv_message violation)
    (cb_contractId config) txHash)) ;;; ret tt.

(** The [try] block of [triggerPause]: submit, stamp, audit. *)
Definition submit_and_record (violation : InvariantViolation) (keeperPublicKey : string) (now : Z) :
    run string :=
  txHash <- buildSignAndSubmitPause violation keeperPublicKey ;;
  t <- cb_Date_now ;;
  set_fields (stamp_pause (iv_breachType violation) t now) ;;;
  eventRecorder violation "PAUSE_SUBMITTED" (Some txHash) keeperPublicKey ;;;
  ret txHash.

Definition triggerPause (violation : InvariantViolation) : run PauseResult :=
  now <- cb_Date_now ;;
  within <- isWithinCooldown (iv_breachType violation) now ;;
  if within : bool then ret (PauseSkipped "cooldown")
  else
    keeperPublicKey <- on_env getPublicKey ;;
    eventRecorder violation "DETECTED" None keeperPublicKey ;;;
    txHash <- try_catch (submit_and_record violation keeperPublicKey now)
      (λ error, eventRecorder violation "PAUSE_FAILED" None keeperPublicKey ;;; throw error) ;;
    alert violation (if truthy_str txHash then Some txHash else None) ;;;
    ret (PauseSubmitted txHash).

Definition notifyOnly (violation : InvariantViolation) : run unit := alert violation None.

Definition join_breaches (violations : list InvariantViolation) : string :=
  String.concat "," (iv_breachType <$> violations).

Definition runCheck : run (list InvariantViolation) :=
  if negb (cb_enabled config) || negb (truthy_str (cb_contractId config)) then ret []
  else
    locked <- on_env isLockdownEnabled ;;
    if locked : bool then ret []
    else
      keeperPublicKey <- on_env getPublicKey ;;
      keeperXlmBalance <- fetchKeeperBalance keeperPublicKey ;;
      t <- cb_Date_now ;;
      set_fields (set_lastCheckAt t) ;;;
      let violations := evaluateBalanceInvariants num_to_string
        (mkSnapshot keeperXlmBalance keeperPublicKey) (cb_minKeeperXlmBalance config) in
      match violations with
      | [] => ret []
      | _ =>
          set_fields (set_lastViolation (join_breaches violations)) ;;;
          for_of (filter (λ v, iv_severity v ≠ CRITICAL) violations) notifyOnly ;;;
          for_of (requiresCircuitBreakerPause violations) (λ v, triggerPause v ;;; ret tt) ;;;
          ret violations
      end.

Record CircuitBreakerStatus := mkStatus {
  st_enabled : bool;
  st_isRunning : bool;
  st_contractId : string;
  st_minKeeperXlmBalance : number;
  st_checkIntervalMs : Z;
  st_cooldownMs : Z;
  st_lastCheckAt : option string;
  st_lastViolation : option string;
  st_lastPauseAt : option string;
}.

Definition getStatus (s : CircuitBreakerService) : CircuitBreakerStatus :=
  mkStatus (cb_enabled config) (cb_isRunning s) (cb_contractId config)
    (cb_minKeeperXlmBalance config) (cb_checkIntervalMs config) (cb_cooldownMs config)
    (toISOString <$> cb_lastCheckAt s) (cb_lastViolation s) (toISOString <$> cb_lastPauseAt s).

(** [start] up to the interval timer, whose callbacks are later [runCheck]s. *)
Definition set_isRunning (b : bool) (s : CircuitBreakerService) : CircuitBreakerService :=
  mkCB b (cb_lastCheckAt s) (cb_lastViolation s) (cb_lastPauseAt s) (cb_lastPauseByBreachType s).

Definition cb_start : run unit :=
  w <- get ;;
  if cb_isRunning (fields w) then ret tt
  else if negb (cb_enabled config) then ret tt
  else if negb (truthy_str (cb_contractId config)) then ret tt
  else
    set_fields (set_isRunning true) ;;;
    try_catch (runCheck ;;; ret tt) (λ _, ret tt).

Definition cb_stop : run unit := set_fields (set_isRunning false).

(** ** Calls and what they keep *)

Inductive breaker_op :=
| RunCheck
| TriggerPause (violation : InvariantViolation)
| StartService
| StopService
(** The outside world moves on between two calls. *)
| WorldMoves (h : H).

Definition breaker_step (w : svc db H) (op : breaker_op) : svc db H :=
  match op with
  | RunCheck => final runCheck w
  | TriggerPause v => final (triggerPause v) w
  | StartService => final cb_start w
  | StopService => final cb_stop w
  | WorldMoves h => mkSvc (svc_db w) h
  end.

Definition breaker_run : svc db H → list breaker_op → svc db H := foldl breaker_step.

(** When the service last stamped a pause of this type. *)
Definition last_pause (b : string) (s : CircuitBreakerService) : Z :=
  default 0 (cb_lastPauseByBreachType s !! b).

(** [s'] may follow [s]: the stamp is the same, or at least a cooldown later. *)
Definition spaced (b : string) (s s' : CircuitBreakerService) : Prop :=
  last_pause b s' = last_pause b s ∨ cb_cooldownMs config ≤ last_pause b s' - last_pause b s.

Lemma spaced_trans b s1 s2 s3 :
  0 ≤ cb_cooldownMs config → spaced b s1 s2 → spaced b s2 s3 → spaced b s1 s3.
Proof. unfold spaced. lia. Qed.

(** Computations that leave the fields alone. *)
Notation keeps_fields c := (∀ s, preserves (λ w, fields w = s) c).

Lemma keeps_fields_env {A} (c : M H A) : keeps_fields (on_env c).
Proof. intros s. apply (preserves_on_env (λ d : db, d.2 = s)). Qed.
Lemma keeps_fields_now : keeps_fields cb_Date_now.
Proof. by intros s w. Qed.
Lemma keeps_fields_db {A} (c : M DE A) : keeps_fields (on_db (on_fst c)).
Proof.
  intros s. apply (preserves_on_db (λ d : db, d.2 = s)). intros d r d' <- [_ E]%on_fst_inv. done.
Qed.
Local Hint Resolve keeps_fields_env keeps_fields_now keeps_fields_db : sf.

Lemma keeps_fields_recorder v st tx k : keeps_fields (eventRecorder v st tx k).
Proof. intros s. unfold eventRecorder. preserve. Qed.
Lemma keeps_fields_alert v tx : keeps_fields (alert v tx).
Proof. intros s. unfold alert. preserve. Qed.
Lemma keeps_fields_fetch k : keeps_fields (fetchKeeperBalance k).
Proof. intros s. unfold fetchKeeperBalance. preserve. Qed.
Lemma keeps_fields_build v k : keeps_fields (buildSignAndSubmitPause v k).
Proof. intros s. unfold buildSignAndSubmitPause, submitPauseTransaction. cbv zeta. preserve. Qed.
Local Hint Resolve keeps_fields_recorder keeps_fields_alert keeps_fields_fetch
  keeps_fields_build : sf.

Lemma wp_keeps_fields {A} (c : run A) (Q : A → _ → Prop) (E : js_error → _ → Prop) w :
  keeps_fields c → (∀ a w', fields w' = fields w → Q a w') →
  (∀ e w', fields w' = fields w → E e w') → wp c Q E w.
Proof. intros Hc HQ HE. eapply wp_mono; [by apply (Hc (fields w))|done|done]. Qed.

(** The outcomes of [isWithinCooldown]: it reads only. *)
Lemma wp_cooldown b now (w : svc db H) :
  wp (isWithinCooldown b now)
    (λ within w', w' = w ∧
       (within = false → cb_cooldownMs config ≤ now - last_pause b (fields w)))
    (λ _ w', w' = w) w.
Proof.
  unfold isWithinCooldown. apply wp_bind. change (wp get ?Q ?E w) with (Q w w). cbv beta zeta.
  fold (last_pause b (fields w)).
  destruct (Z.ltb_spec (now - last_pause b (fields w)) (cb_cooldownMs config)); [by apply wp_ret|].
  apply wp_bind, wp_query; [|done]. intros n _. by apply wp_ret.
Qed.

(** What a pause sequence that ran leaves in the fields. *)
Definition stamped (v : InvariantViolation) (now : Z) (s s' : CircuitBreakerService) : Prop :=
  cb_lastPauseByBreachType s' = <[iv_breachType v := now]> (cb_lastPauseByBreachType s).

Lemma wp_submit v k now (w : svc db H) :
  wp (submit_and_record v k now) (λ _ w', stamped v now (fields w) (fields w'))
    (λ _ w', fields w' = fields w ∨ stamped v now (fields w) (fields w')) w.
Proof.
  apply wp_bind, wp_keeps_fields; [apply keeps_fields_build| |by auto].
  intros tx w1 E1. apply wp_bind, wp_keeps_fields; [apply keeps_fields_now| |by auto with congruence].
  intros t w2 E2. apply wp_bind.
  change (wp (set_fields ?f) ?Q ?E w2) with (Q tt (mkSvc ((svc_db w2).1, f (fields w2)) (svc_env w2))).
  cbv beta.
  assert (∀ w', fields w' = stamp_pause (iv_breachType v) t now (fields w2) →
    stamped v now (fields w) (fields w')) as Hst.
  { intros w' ->. unfold stamped. simpl. by rewrite E2, E1. }
  apply wp_bind, wp_keeps_fields; [apply keeps_fields_recorder| |].
  - intros [] w3 E3. apply wp_ret. by apply Hst.
  - intros e w3 E3. right. by apply Hst.
Qed.

(** Every outcome of [triggerPause]. *)
Lemma wp_triggerPause v (w : svc db H) :
  let now := cb_now (svc_env w) in
  let fresh_ := cb_cooldownMs config ≤ now - last_pause (iv_breachType v) (fields w) in
  wp (triggerPause v)
    (λ r w', match r with
             | PauseSkipped _ => w' = w
             | PauseSubmitted _ => fresh_ ∧ stamped v now (fields w) (fields w')
             end)
    (λ _ w', fields w' = fields w ∨ (fresh_ ∧ stamped v now (fields w) (fields w'))) w.
Proof.
  intros now fresh_. apply wp_bind.
  change (wp cb_Date_now ?Q ?E w) with (Q now w). cbv beta.
  apply wp_bind. eapply wp_mono; [apply wp_cooldown| |by intros e w' ->; left].
  intros [] w' [-> Hf]; [by apply wp_ret|]. specialize (Hf eq_refl). fold fresh_ in Hf.
  apply wp_bind, wp_keeps_fields; [apply keeps_fields_env| |by auto].
  intros k w1 E1. apply wp_bind, wp_keeps_fields;
    [apply keeps_fields_recorder| |by left; congruence].
  intros [] w2 E2. apply wp_bind, wp_try_catch. rewrite <-E1, <-E2.
  eapply wp_mono; [apply wp_submit|..].
  - intros tx w3 Hs. apply wp_bind, wp_keeps_fields; [apply keeps_fields_alert|..].
    + intros [] w4 E4. apply wp_ret. by rewrite E4.
    + intros e w4 E4. right. by rewrite E4.
  - intros e w3 Hs. apply wp_bind, wp_keeps_fields; [apply keeps_fields_recorder|..].
    + intros [] w4 E4. apply wp_throw. rewrite E4. destruct Hs; [by left|by right].
    + intros e' w4 E4. rewrite E4. destruct Hs; [by left|by right].
Qed.

Lemma stamped_spaced v now b s s' :
  cb_cooldownMs config ≤ now - last_pause (iv_breachType v) s → stamped v now s s' → spaced b s s'.
Proof.
  unfold spaced, last_pause, stamped. intros Hc ->.
  destruct (decide (iv_breachType v = b)) as [<-|].
  - rewrite lookup_insert_eq. by right.
  - rewrite lookup_insert_ne by done. by left.
Qed.

Lemma triggerPause_spaced v b s0 :
  0 ≤ cb_cooldownMs config → preserves (λ w, spaced b s0 (fields w)) (triggerPause v).
Proof.
  intros Hc w Hw. eapply wp_mono; [apply wp_triggerPause|..].
  - intros [] w'; [by intros ->|]. intros [Hf Hs].
    eapply spaced_trans; [done..|]. by eapply stamped_spaced.
  - intros e w' [->|[Hf Hs]]; [done|]. eapply spaced_trans; [done..|]. by eapply stamped_spaced.
Qed.

Lemma keeps_spaced {A} (c : run A) b s0 :
  keeps_fields c → preserves (λ w, spaced b s0 (fields w)) c.
Proof.
  intros Hc w Hw. eapply wp_mono; [by apply (Hc (fields w))|..]; intros ? w' E;
    unfold spaced, last_pause in *; by rewrite E.
Qed.

Lemma set_fields_spaced f b s0 :
  (∀ s, cb_lastPauseByBreachType (f s) = cb_lastPauseByBreachType s) →
  preserves (λ w, spaced b s0 (fields w)) (set_fields f).
Proof.
  intros Hf w Hw. unfold wp, set_fields; simpl. unfold spaced, last_pause, fields in *; simpl.
  by rewrite Hf.
Qed.

Lemma runCheck_spaced b s0 :
  0 ≤ cb_cooldownMs config → preserves (λ w, spaced b s0 (fields w)) runCheck.
Proof.
  intros Hc. unfold runCheck, notifyOnly. cbv zeta.
  assert (∀ v, preserves (λ w, spaced b s0 (fields w)) (triggerPause v)) as Ht
    by (intros; by apply triggerPause_spaced).
  assert (∀ t, preserves (λ w, spaced b s0 (fields w)) (set_fields (set_lastCheckAt t))) as H1
    by (intros; by apply set_fields_spaced).
  assert (∀ v, preserves (λ w, spaced b s0 (fields w)) (set_fields (set_lastViolation v))) as H2
    by (intros; by apply set_fields_spaced).
  preserve; apply keeps_spaced; auto with sf.
Qed.

(** ** Properties *)

(** C31. Over every sequence of checks, direct triggers, starts, stops and changes of the
    outside world (its clock included), with any failures, two stamps of one breach type
    are equal or at least the cooldown apart: however often a breach is found, the pause
    sequence runs at most once per cooldown. *)
Theorem cooldown_respected ops (w : svc db H) b :
  0 ≤ cb_cooldownMs config →
  spaced b (fields w) (fields (breaker_run w ops)).
Proof.
  intros Hc. assert (∀ s0, spaced b s0 (fields w) → spaced b s0 (fields (breaker_run w ops))) as Hr.
  { revert w. induction ops as [|op ops IH]; intros w s0 Hw; [done|]. simpl. apply IH.
    destruct op; simpl; [..|done];
      apply (preserves_final (λ w, spaced b s0 (fields w))); try done.
    - by apply runCheck_spaced.
    - by apply triggerPause_spaced.
    - unfold cb_start.
      assert (preserves (λ w, spaced b s0 (fields w)) (set_fields (set_isRunning true)))
        by (by apply set_fields_spaced).
      assert (preserves (λ w, spaced b s0 (fields w)) runCheck) by (by apply runCheck_spaced).
      preserve.
    - by apply set_fields_spaced. }
  apply Hr. by left.
Qed.

(** [triggerPause] skips without any effect at all, or submits and stamps the time the
    call began, which only happens a cooldown after the previous stamp, or throws; a
    thrown error leaves the stamps as they were unless the pause had been submitted. *)
Theorem triggerPause_outcomes v (w : svc db H) :
  let now := cb_now (svc_env w) in
  let due := cb_cooldownMs config ≤ now - last_pause (iv_breachType v) (fields w) in
  let '(r, w') := triggerPause v w in
  match r with
  | Ok (PauseSkipped _) => w' = w
  | Ok (PauseSubmitted _) => due ∧ stamped v now (fields w) (fields w')
  | Throw _ => fields w' = fields w ∨ (due ∧ stamped v now (fields w) (fields w'))
  end.
Proof.
  intros now due. pose proof (wp_triggerPause v w) as Hw. unfold wp in Hw.
  destruct (triggerPause v w) as [[r|e] w']; exact Hw.
Qed.
End service.

(** ** A concrete run

    The keeper holds 5 XLM of the required 20; the world's state is the clock. *)
#[export] Instance low_balance : CircuitWorld Z unit string := {|
  cb_now t := t;
  isLockdownEnabled := ret false;
  getPublicKey := ret "KEEPER";
  keeper_sign m := ret m;
  loadBalances _ := ret [mkBalance "native" "5"];
  sequenceProvider _ := ret "1";
  notifier _ := ret true;
  simulateTransaction _ := ret (inr tt);
  assembleTransaction tx _ := pt_memo tx;
  tx_hash t := t;
  sendTransaction _ _ _ := ret ("PENDING", None);
|}.

Definition sample_config : CircuitBreakerConfig :=
  cb_constructor (Some true) (Some "C1") None None None None None None None None.
Definition sample_start : svc (gmap Z CircuitBreakerEvent * CircuitBreakerService) Z :=
  mkSvc (∅, cb_initial) 10000000.
Definition as_five (s : string) : number := num_of_Z 5.
Definition no_digits (n : number) : string := "".
Definition sample_checks : list (breaker_op (H:=Z)) :=
  [StartService; WorldMoves 10001000; RunCheck; WorldMoves 11900000; RunCheck].

(** The second check falls within the cooldown, the third does not. *)
Example sample_stamps :
  let stamp n := last_pause BELOW_FLOOR (fields (breaker_run no_digits as_five "net" sample_config
    sample_start (take n sample_checks))) in
  (stamp 1%nat, stamp 3%nat, stamp 5%nat) = (10000000, 10000000, 11900000).
Proof. by vm_compute. Qed.

Lemma cooldown_respected_witness :
  spaced sample_config BELOW_FLOOR (fields sample_start)
    (fields (breaker_run no_digits as_five "net" sample_config sample_start sample_checks)).
Proof.
  apply (cooldown_respected no_digits as_five "net" sample_config sample_checks sample_start
    BELOW_FLOOR).
  apply (bool_decide_unpack _). by vm_compute.
Defined.
