(* ===== verification/OrderBook.v ===== *)
(** * Order book snapshots: [src/src/services/orderBookSnapshotEngine.ts]

    The in-memory book, its depth, and the snapshots kept in Redis. The two [Map]s from
    price to amount are finite maps: their iteration order never shows, since the depth is
    sorted by price and prices are distinct. Redis, the clock and the analytics exporter
    are the outside world; a call is a whole step, so [isCapturing] only stays set between
    calls when a capture is suspended. Proved: what a recovery takes back of a capture (the
    levels that JSON keeps, and nothing of a capture made while Redis was closed), and that
    the depth lists the book in order. *)

From S2P Require Import Prelude JsNumber JsDate Service.
From stdpp Require Import pretty.

Local Open Scope Z_scope.

Inductive OrderSide := bid | ask.

Record OrderBookLevel := mkLevel { price : number; amount : number }.

Record OrderBookSnapshot := mkBookSnapshot {
  os_version : Z;
  os_ledgerSeq : Z;
  os_capturedAt : string;
  os_bids : list OrderBookLevel;
  os_asks : list OrderBookLevel;
}.

Record OrderBookSnapshotEngineConfig := mkOBConfig {
  snapshotIntervalLedgers : Z;
  retentionDays : Z;
  purgeIntervalMs : Z;
  keyPrefix : string;
}.

Definition DEFAULT_CONFIG : OrderBookSnapshotEngineConfig :=
  mkOBConfig 10 7 (60 * 60 * 1000) "stellarflow:orderbook:snapshot".

Record SnapshotMetrics := mkSM {
  sm_snapshotsCaptured : nat;
  sm_snapshotsRecovered : nat;
  sm_snapshotsPurged : nat;
  sm_lastSnapshotLedger : option Z;
  sm_lastSnapshotAt : option Z;
  sm_lastRecoveryAt : option Z;
  sm_lastPurgeAt : option Z;
  sm_captureErrors : nat;
  sm_recoveryErrors : nat;
}.

Notation book := (gmap number number).

Record OrderBookSnapshotEngine := mkEngine {
  ob_config : OrderBookSnapshotEngineConfig;
  ob_bids : book;
  ob_asks : book;
  ob_lastSnapshotLedger : Z;
  ob_isCapturing : bool;
  ob_isRunning : bool;
  ob_metrics : SnapshotMetrics;
}.

Definition ob_constructor (config : OrderBookSnapshotEngineConfig) : OrderBookSnapshotEngine :=
  mkEngine config ∅ ∅ 0 false false (mkSM 0 0 0 None None None None 0 0).

(** ** The book *)

(** A [Map] has one key for the two zeros. *)
Definition map_key (p : number) : number :=
  match p with SpecFloat.S754_zero _ => num_zero | _ => p end.

(** [!Number.isFinite(price) || price <= 0] *)
Definition bad_price (p : number) : bool := negb (isFinite p) || num_leb p num_zero.

Definition on_book (side : OrderSide) (f : book → book) (e : OrderBookSnapshotEngine) :
    OrderBookSnapshotEngine :=
  match side with
  | bid => mkEngine (ob_config e) (f (ob_bids e)) (ob_asks e) (ob_lastSnapshotLedger e)
             (ob_isCapturing e) (ob_isRunning e) (ob_metrics e)
  | ask => mkEngine (ob_config e) (ob_bids e) (f (ob_asks e)) (ob_lastSnapshotLedger e)
             (ob_isCapturing e) (ob_isRunning e) (ob_metrics e)
  end.

Definition applyDepthUpdate (side : OrderSide) (p a : number) (e : OrderBookSnapshotEngine) :
    OrderBookSnapshotEngine :=
  if bad_price p then e
  else on_book side (λ b,
    if num_leb a num_zero then delete (map_key p) b
    else <[map_key p := num_add (default num_zero (b !! map_key p)) a]> b) e.

Definition setLevel (side : OrderSide) (p a : number) (e : OrderBookSnapshotEngine) :
    OrderBookSnapshotEngine :=
  if bad_price p then e
  else on_book side (λ b,
    if num_leb a num_zero then delete (map_key p) b else <[map_key p := a]> b) e.

Definition removeLevel (side : OrderSide) (p : number) (e : OrderBookSnapshotEngine) :
    OrderBookSnapshotEngine := on_book side (delete (map_key p)) e.

Definition ob_clear (e : OrderBookSnapshotEngine) : OrderBookSnapshotEngine :=
  on_book ask (λ _, ∅) (on_book bid (λ _, ∅) e).

Definition levelCount (e : OrderBookSnapshotEngine) : nat :=
  size (ob_bids e) + size (ob_asks e).

Definition levels (b : book) : list OrderBookLevel :=
  (λ '(p, a), mkLevel p a) <$> map_to_list b.

Definition getDepth (e : OrderBookSnapshotEngine) : list OrderBookLevel * list OrderBookLevel :=
  (js_sort (λ a b, num_sub (price b) (price a)) (levels (ob_bids e)),
   js_sort (λ a b, num_sub (price a) (price b)) (levels (ob_asks e))).

Definition load_level (b : book) (level : OrderBookLevel) : book :=
  if isFinite (price level) && isFinite (amount level) && num_ltb num_zero (amount level)
  then <[map_key (price level) := amount level]> b else b.

Definition applySnapshot (s : OrderBookSnapshot) (e : OrderBookSnapshotEngine) :
    OrderBookSnapshotEngine :=
  on_book ask (λ _, foldl load_level ∅ (os_asks s))
    (on_book bid (λ _, foldl load_level ∅ (os_bids s)) e).

(** ** Redis *)

(** A stored value: the text of a snapshot, or a plain string. *)
Inductive redis_value (Txt : Type) := VJson (t : Txt) | VString (s : string).
Arguments VJson {Txt} _.
Arguments VString {Txt} _.

Class SnapshotWorld (R Txt : Type) := {
  ob_now : R → Z;
  redis_isOpen : R → bool;
  redis_get : string → M R (option (redis_value Txt));
  redis_setEx : string → Z → redis_value Txt → M R unit;
  redis_scan : string → M R (list (list string));
  redis_del : list string → M R unit;
  exportSnapshot : OrderBookSnapshot → M R unit;
  (** What Redis holds; a key that expires disappears between two calls. *)
  redis_kv : R → gmap string (redis_value Txt);
  redis_get_ok k r o r' : redis_get k r = (Ok o, r') →
    o = redis_kv r !! k ∧ redis_kv r' = redis_kv r;
  redis_setEx_ok k ttl v r r' : redis_setEx k ttl v r = (Ok tt, r') →
    redis_kv r' = <[k := v]> (redis_kv r);
  (** The exporter writes to the analytics storage only. *)
  export_keeps s r : redis_kv (final (exportSnapshot s) r) = redis_kv r;
}.

Section engine.
Context {R Txt : Type} `{!SnapshotWorld R Txt}.
Context (JSON_stringify : OrderBookSnapshot → Txt) (Txt_string : Txt → string).
Context (JSON_parse : redis_value Txt → exc OrderBookSnapshot) (Date_parse : string → option Z).

Notation run := (M (svc OrderBookSnapshotEngine R)).

Definition value_string (v : redis_value Txt) : string :=
  match v with VJson t => Txt_string t | VString s => s end.
Definition truthy_value (v : option (redis_value Txt)) : bool :=
  match v with Some (VString s) => truthy_str s | Some (VJson _) => true | None => false end.

Definition set_engine (f : OrderBookSnapshotEngine → OrderBookSnapshotEngine) : run unit := λ w,
  (Ok tt, mkSvc (f (svc_db w)) (svc_env w)).
Definition engine : run OrderBookSnapshotEngine := λ w, (Ok (svc_db w), w).
Definition isOpen : run bool := λ w, (Ok (redis_isOpen (svc_env w)), w).
Definition time_now : run Z := λ w, (Ok (ob_now (svc_env w)), w).

Definition set_capturing (c : bool) (e : OrderBookSnapshotEngine) : OrderBookSnapshotEngine :=
  mkEngine (ob_config e) (ob_bids e) (ob_asks e) (ob_lastSnapshotLedger e) c (ob_isRunning e)
    (ob_metrics e).
Definition set_running (c : bool) (e : OrderBookSnapshotEngine) : OrderBookSnapshotEngine :=
  mkEngine (ob_config e) (ob_bids e) (ob_asks e) (ob_lastSnapshotLedger e) (ob_isCapturing e) c
    (ob_metrics e).
Definition set_metrics (f : SnapshotMetrics → SnapshotMetrics) (ledger : Z → Z)
    (e : OrderBookSnapshotEngine) : OrderBookSnapshotEngine :=
  mkEngine (ob_config e) (ob_bids e) (ob_asks e) (ledger (ob_lastSnapshotLedger e))
    (ob_isCapturing e) (ob_isRunning e) (f (ob_metrics e)).

Definition note_captured (ledgerSeq t : Z) : OrderBookSnapshotEngine → OrderBookSnapshotEngine :=
  set_metrics (λ m, mkSM (S (sm_snapshotsCaptured m)) (sm_snapshotsRecovered m)
    (sm_snapshotsPurged m) (Some ledgerSeq) (Some t) (sm_lastRecoveryAt m) (sm_lastPurgeAt m)
    (sm_captureErrors m) (sm_recoveryErrors m)) (λ _, ledgerSeq).
Definition note_recovered (ledgerSeq t : Z) : OrderBookSnapshotEngine → OrderBookSnapshotEngine :=
  set_metrics (λ m, mkSM (sm_snapshotsCaptured m) (S (sm_snapshotsRecovered m))
    (sm_snapshotsPurged m) (Some ledgerSeq) (sm_lastSnapshotAt m) (Some t) (sm_lastPurgeAt m)
    (sm_captureErrors m) (sm_recoveryErrors m)) (λ _, ledgerSeq).
Definition note_purged (n : nat) (t : Z) : OrderBookSnapshotEngine → OrderBookSnapshotEngine :=
  set_metrics (λ m, mkSM (sm_snapshotsCaptured m) (sm_snapshotsRecovered m)
    (sm_snapshotsPurged m + n) (sm_lastSnapshotLedger m) (sm_lastSnapshotAt m)
    (sm_lastRecoveryAt m) (Some t) (sm_captureErrors m) (sm_recoveryErrors m)) id.
Definition note_capture_error : OrderBookSnapshotEngine → OrderBookSnapshotEngine :=
  set_metrics (λ m, mkSM (sm_snapshotsCaptured m) (sm_snapshotsRecovered m)
    (sm_snapshotsPurged m) (sm_lastSnapshotLedger m) (sm_lastSnapshotAt m)
    (sm_lastRecoveryAt m) (sm_lastPurgeAt m) (S (sm_captureErrors m)) (sm_recoveryErrors m)) id.
Definition note_recovery_error : OrderBookSnapshotEngine → OrderBookSnapshotEngine :=
  set_metrics (λ m, mkSM (sm_snapshotsCaptured m) (sm_snapshotsRecovered m)
    (sm_snapshotsPurged m) (sm_lastSnapshotLedger m) (sm_lastSnapshotAt m)
    (sm_lastRecoveryAt m) (sm_lastPurgeAt m) (sm_captureErrors m) (S (sm_recoveryErrors m))) id.

Definition snapshot_key (c : OrderBookSnapshotEngineConfig) (suffix : string) : string :=
  keyPrefix c +:+ ":" +:+ suffix.

Definition persist (e : OrderBookSnapshotEngine) (s : OrderBookSnapshot) : run unit :=
  let ttlSeconds := retentionDays (ob_config e) * 24 * 60 * 60 in
  open <- isOpen ;;
  if open : bool then
    on_env (redis_setEx (snapshot_key (ob_config e) (pretty (os_ledgerSeq s))) ttlSeconds
              (VJson (JSON_stringify s))) ;;;
    on_env (redis_setEx (snapshot_key (ob_config e) "latest") ttlSeconds
              (VString (pretty (os_ledgerSeq s))))
  else ret tt.

(** The [finally] clears the flag on every path. *)
Definition captureSnapshot (ledgerSeq : Z) : run (option OrderBookSnapshot) :=
  e <- engine ;;
  if ob_isCapturing e then ret None
  else
    set_engine (set_capturing true) ;;;
    r <- try_catch
      (t <- time_now ;;
       let '(bids, asks) := getDepth e in
       let snapshot := mkBookSnapshot 1 ledgerSeq (toISOString t) bids asks in
       persist e snapshot ;;;
       t' <- time_now ;;
       set_engine (note_captured ledgerSeq t') ;;;
       try_catch (on_env (exportSnapshot snapshot)) (λ _, ret tt) ;;;
       ret (Some snapshot))
      (λ _, set_engine note_capture_error ;;; ret None) ;;
    set_engine (set_capturing false) ;;;
    ret r.

Definition onNewLedger (ledgerSeq : Z) : run unit :=
  e <- engine ;;
  if negb (ob_isRunning e) then ret tt
  else if ledgerSeq - ob_lastSnapshotLedger e <? snapshotIntervalLedgers (ob_config e) then ret tt
  else captureSnapshot ledgerSeq ;;; ret tt.

Definition recoverFromLatestSnapshot : run (option OrderBookSnapshot) :=
  try_catch
    (e <- engine ;;
     open <- isOpen ;;
     if negb open then ret None
     else
       latestLedgerRaw <- on_env (redis_get (snapshot_key (ob_config e) "latest")) ;;
       if negb (truthy_value latestLedgerRaw) then ret None
       else
         let latest := default "" (value_string <$> latestLedgerRaw) in
         raw <- on_env (redis_get (snapshot_key (ob_config e) latest)) ;;
         match raw with
         | Some v =>
             if truthy_value raw then
               snapshot <- lift_exc (JSON_parse v) ;;
               set_engine (applySnapshot snapshot) ;;;
               t <- time_now ;;
               set_engine (note_recovered (os_ledgerSeq snapshot) t) ;;;
               ret (Some snapshot)
             else ret None
         | None => ret None
         end)
    (λ _, set_engine note_recovery_error ;;; ret None).

(** Whether the purge deletes a key. *)
Definition is_expired (cutoff : Z) (raw : option (redis_value Txt)) : bool :=
  match raw with
  | Some v =>
      if truthy_value raw then
        match JSON_parse v with
        | Ok s => match Date_parse (os_capturedAt s) with
                  | Some capturedAt => capturedAt <? cutoff
                  | None => false
                  end
        | Throw _ => true
        end
      else true
  | None => true
  end.

Fixpoint expired_keys (latestKey : string) (cutoff : Z) (keys : list string) : run (list string) :=
  match keys with
  | [] => ret []
  | key :: keys' =>
      if decide (key = latestKey) then expired_keys latestKey cutoff keys'
      else
        raw <- on_env (redis_get key) ;;
        rest <- expired_keys latestKey cutoff keys' ;;
        ret (if is_expired cutoff raw then key :: rest else rest)
  end.

Definition purgeExpiredSnapshots : run nat :=
  try_catch
    (e <- engine ;;
     open <- isOpen ;;
     if negb open then ret 0%nat
     else
       t <- time_now ;;
       let cutoff := t - retentionDays (ob_config e) * 24 * 60 * 60 * 1000 in
       batches <- on_env (redis_scan (snapshot_key (ob_config e) "*")) ;;
       keysToDelete <- expired_keys (snapshot_key (ob_config e) "latest") cutoff (mjoin batches) ;;
       (if (0 <? length keysToDelete)%nat then on_env (redis_del keysToDelete) else ret tt) ;;;
       t' <- time_now ;;
       set_engine (note_purged (length keysToDelete) t') ;;;
       ret (length keysToDelete))
    (λ _, ret 0%nat).

(** [start] up to the purge timer. *)
Definition ob_start : run unit :=
  e <- engine ;;
  if ob_isRunning e then ret tt
  else set_engine (set_running true) ;;; recoverFromLatestSnapshot ;;; ret tt.

Definition ob_stop : run unit := set_engine (set_running false).
End engine.

(** ** Lemmas *)

(** What a recovery takes back: finite positive amounts at finite prices. *)
Definition level_kept (kv : number * number) : bool :=
  isFinite kv.1 && isFinite kv.2 && num_ltb num_zero kv.2.
Definition kept_levels (b : book) : book := filter (λ kv, level_kept kv = true) b.
(** The keys of a [Map], which has one key for the two zeros ([map_keys_kept]). *)
Definition keys_of_map (b : book) : Prop := map_Forall (λ p _, map_key p = p) b.

(** A number as JSON gives it back: no negative zero, and [null], which is [NaN] here (neither
    is finite), for what is not finite. *)
Definition json_number (x : number) : number :=
  match x with
  | SpecFloat.S754_zero _ => num_zero
  | SpecFloat.S754_infinity _ => SpecFloat.S754_nan
  | _ => x
  end.
Definition json_level (l : OrderBookLevel) : OrderBookLevel :=
  mkLevel (json_number (price l)) (json_number (amount l)).
Definition json_snapshot (s : OrderBookSnapshot) : OrderBookSnapshot :=
  mkBookSnapshot (os_version s) (os_ledgerSeq s) (os_capturedAt s) (json_level <$> os_bids s)
    (json_level <$> os_asks s).

Definition level_pair (l : OrderBookLevel) : number * number := (price l, amount l).

Lemma levels_pairs (b : book) : level_pair <$> levels b = map_to_list b.
Proof.
  unfold levels. rewrite <-list_fmap_compose. rewrite <-(list_fmap_id (map_to_list b)) at 2.
  apply list_fmap_ext. by intros _ [p a] _.
Qed.

Lemma foldl_insert_union (l : list (number * number)) (acc : book) :
  NoDup l.*1 → foldl (λ m kv, <[kv.1 := kv.2]> m) acc l = list_to_map l ∪ acc.
Proof.
  revert acc. induction l as [|[k v] l IH]; intros acc Hn; simpl.
  { by rewrite (left_id_L ∅ (∪)). }
  apply NoDup_cons in Hn as [Hk Hn]. rewrite IH by done.
  rewrite <-insert_union_r; [by rewrite insert_union_l|]. by apply not_elem_of_list_to_map_1.
Qed.

Lemma load_json acc l : map_key (price l) = price l →
  load_level acc (json_level l) = if level_kept (level_pair l) then <[price l := amount l]> acc else acc.
Proof.
  intros Hk. unfold load_level, level_kept, level_pair. destruct l as [p a]. simpl in *.
  destruct p as [sp|sp| |sp mp ep], a as [sa|sa| |sa ma ea]; simpl in *; try done.
  by injection Hk as <-.
Qed.
Lemma load_json_pairs l acc :
  Forall (λ lv, map_key (price lv) = price lv) l →
  foldl load_level acc (json_level <$> l)
  = foldl (λ m kv, <[kv.1 := kv.2]> m) acc (filter (λ kv, level_kept kv = true) (level_pair <$> l)).
Proof.
  intros Hl. revert acc. induction Hl as [|lv l Hk _ IH]; intros acc; [done|].
  cbn [fmap list_fmap foldl]. rewrite load_json, filter_cons by done. rewrite IH.
  destruct (level_kept (level_pair lv)); [by rewrite decide_True|by rewrite decide_False].
Qed.

(** Loading the levels of a book, in any order, as JSON gives them back. *)
Lemma load_levels (b : book) l :
  keys_of_map b → l ≡ₚ levels b → foldl load_level ∅ (json_level <$> l) = kept_levels b.
Proof.
  intros Hb Hl. assert (level_pair <$> l ≡ₚ map_to_list b) as Hp by (by rewrite Hl, levels_pairs).
  assert (NoDup (level_pair <$> l).*1) as Hn by (rewrite Hp; apply NoDup_fst_map_to_list).
  assert (NoDup (filter (λ kv, level_kept kv = true) (level_pair <$> l)).*1) as Hn'.
  { eapply sublist_NoDup; [exact Hn|]. apply fmap_sublist, sublist_filter. }
  rewrite load_json_pairs.
  - rewrite foldl_insert_union, (right_id_L ∅ (∪)) by done. unfold kept_levels. rewrite map_filter_alt.
    apply list_to_map_proper; [done|]. by rewrite Hp.
  - apply Forall_forall. intros lv Hin.
    assert (level_pair lv ∈ map_to_list b) as Hm by (rewrite <-Hp; by apply list_elem_of_fmap_2).
    apply elem_of_map_to_list in Hm. exact (Hb (price lv) _ Hm).
Qed.

Lemma pretty_go_head x s c s' : (∀ n, pretty_N_char n ≠ c) →
  s ≠ String c s' → pretty_N_go x s ≠ String c s'.
Proof.
  intros Hc. revert s. induction (N.lt_wf_0 x) as [x _ IH]; intros s ?.
  assert (x = 0 ∨ 0 < x)%N as [->|?] by lia; [by rewrite pretty_N_go_0|].
  rewrite pretty_N_go_step by done. apply IH; [by apply N.div_lt|]. intros [= E _]. by eapply Hc.
Qed.

(** A printed number is not the word under which the latest ledger is kept. *)
Lemma pretty_not_latest (n : Z) : pretty n ≠ "latest".
Proof.
  assert (∀ m : N, pretty m ≠ "latest") as HN.
  { intros m. unfold pretty, pretty_N. case_decide; [done|]. apply pretty_go_head; [|done].
    intros k. unfold pretty_N_char. by repeat case_match. }
  destruct n as [|p|p]; [done|apply (HN (Npos p))|done].
Qed.

Lemma pretty_nonempty (n : Z) : truthy_str (pretty n) = true.
Proof.
  apply bool_decide_eq_true. assert (∀ x s, s ≠ "" → pretty_N_go x s ≠ "") as Hgo.
  { intros x. induction (N.lt_wf_0 x) as [x _ IH]; intros s ?.
    assert (x = 0 ∨ 0 < x)%N as [->|?] by lia; [by rewrite pretty_N_go_0|].
    rewrite pretty_N_go_step by done. by apply IH; [apply N.div_lt|]. }
  assert (∀ m : N, pretty m ≠ "") as HN.
  { intros m. unfold pretty, pretty_N. case_decide; [done|].
    rewrite pretty_N_go_step by lia. by apply Hgo. }
  destruct n as [|p|p]; [done|apply (HN (Npos p))|done].
Qed.

Lemma snapshot_key_inj c s1 s2 : snapshot_key c s1 = snapshot_key c s2 → s1 = s2.
Proof.
  unfold snapshot_key. intros E. apply (inj (String.append (keyPrefix c))) in E.
  by simplify_eq/=.
Qed.

Section properties.
Context {R Txt : Type} `{!SnapshotWorld R Txt}.
Context (JSON_stringify : OrderBookSnapshot → Txt) (Txt_string : Txt → string).
Context (JSON_parse : redis_value Txt → exc OrderBookSnapshot) (Date_parse : string → option Z).

(** What JSON makes of a snapshot. *)
Hypothesis JSON_roundtrip : ∀ s, JSON_parse (VJson (JSON_stringify s)) = Ok (json_snapshot s).

Notation capture := (captureSnapshot (Txt:=Txt) JSON_stringify).
Notation recover := (recoverFromLatestSnapshot (Txt:=Txt) Txt_string JSON_parse).

(** What a successful capture leaves behind; with Redis closed, nothing. *)
Lemma capture_stores n e r s w' :
  capture n (mkSvc e r) = (Ok (Some s), w') →
  os_bids s = (getDepth e).1 ∧ os_asks s = (getDepth e).2 ∧ os_ledgerSeq s = n ∧
  if redis_isOpen r then
    redis_kv (svc_env w') !! snapshot_key (ob_config e) "latest" = Some (VString (pretty n)) ∧
    redis_kv (svc_env w') !! snapshot_key (ob_config e) (pretty n) = Some (VJson (JSON_stringify s))
  else redis_kv (svc_env w') = redis_kv r.
Proof.
  unfold captureSnapshot. unfold bind at 1, engine. cbn [svc_db].
  destruct (ob_isCapturing e); [done|].
  unfold bind at 1, set_engine at 1. cbn [svc_db svc_env].
  unfold bind at 1, try_catch at 1, bind at 1, time_now at 1.
  destruct (getDepth e) as [bids asks] eqn:Ed. cbn [svc_env].
  set (snap := mkBookSnapshot 1 n _ bids asks).
  unfold bind at 1, persist. unfold bind at 1, isOpen at 1. cbn [svc_env].
  destruct (redis_isOpen r).
  2:{ unfold ret at 1. unfold bind at 1, time_now at 1. unfold bind at 1, set_engine at 1. cbn [svc_env svc_db].
    unfold bind at 1, try_catch at 1, on_env at 1. cbn [svc_env svc_db].
    pose proof (export_keeps snap r) as Hx. unfold final in Hx.
    destruct (exportSnapshot snap r) as [[[]|er] r3]; cbn [snd] in Hx; unfold bind, ret, set_engine; cbn [svc_env svc_db];
      intros [= <- <-]; by split_and!. }
  unfold bind at 1, on_env at 1. cbn [svc_env svc_db].
  destruct (redis_setEx (snapshot_key (ob_config e) (pretty (os_ledgerSeq snap))) _ _ r)
    as [[[]|er] r1] eqn:E1; [|done].
  unfold on_env at 1. cbn [svc_env svc_db].
  destruct (redis_setEx (snapshot_key (ob_config e) "latest") _ _ r1) as [[[]|er] r2] eqn:E2; [|done].
  apply redis_setEx_ok in E1, E2.
  unfold bind at 1, time_now at 1. unfold bind at 1, set_engine at 1. cbn [svc_env svc_db].
  unfold bind at 1, try_catch at 1, on_env at 1. cbn [svc_env svc_db].
  pose proof (export_keeps snap r2) as Hx. unfold final in Hx.
  destruct (exportSnapshot snap r2) as [ex r3]; cbn [snd] in Hx.
  assert (∀ w'' : svc OrderBookSnapshotEngine R, svc_env w'' = r3 →
    os_bids snap = bids ∧ os_asks snap = asks ∧ os_ledgerSeq snap = n ∧
    redis_kv (svc_env w'') !! snapshot_key (ob_config e) "latest" = Some (VString (pretty n)) ∧
    redis_kv (svc_env w'') !! snapshot_key (ob_config e) (pretty n) =
      Some (VJson (JSON_stringify snap))) as Hgoal.
  { intros w'' ->. rewrite Hx, E2, E1. split_and!; [done..|by rewrite lookup_insert_eq|].
    rewrite lookup_insert_ne, lookup_insert_eq; [done|].
    intros E%snapshot_key_inj. by apply (pretty_not_latest n). }
  destruct ex as [[]|er]; unfold bind, ret, set_engine; cbn [svc_env svc_db];
    intros [= <- <-]; by apply Hgoal.
Qed.

(** ** Properties *)

(** C35. What a capture that answered a snapshot is worth. With Redis closed it has stored
    nothing: a recovery finds what was there before. With Redis open, any engine with the
    same configuration recovers it, as long as the two keys hold what the capture wrote: the
    recovery never throws; either it restores the ledger and every level whose price and
    amount are finite and whose amount is positive (and no other), or it answers nothing and
    leaves the books as they were; and when Redis is open and answers, it restores. *)
Theorem recover_restores n e r s w1 :
  keys_of_map (ob_bids e) → keys_of_map (ob_asks e) →
  capture n (mkSvc e r) = (Ok (Some s), w1) →
  if redis_isOpen r then
    ∀ e0 r0, ob_config e0 = ob_config e →
      (∀ k, k ∈ ["latest"; pretty n] →
         redis_kv r0 !! snapshot_key (ob_config e) k = redis_kv (svc_env w1) !! snapshot_key (ob_config e) k) →
      let '(res, w2) := recover (mkSvc e0 r0) in
      match res with
      | Ok (Some s') => s' = json_snapshot s ∧ ob_lastSnapshotLedger (svc_db w2) = n ∧
          ob_bids (svc_db w2) = kept_levels (ob_bids e) ∧ ob_asks (svc_db w2) = kept_levels (ob_asks e)
      | Ok None => ob_bids (svc_db w2) = ob_bids e0 ∧ ob_asks (svc_db w2) = ob_asks e0
      | Throw _ => False
      end ∧
      (redis_isOpen r0 = true → (∀ k r, ∃ o r', redis_get (Txt:=Txt) k r = (Ok o, r')) →
       res = Ok (Some (json_snapshot s)))
  else redis_kv (svc_env w1) = redis_kv r.
Proof.
  intros Hb Ha Hcap. destruct (capture_stores n e r s w1 Hcap) as (Eb & Ea & En & Hkv).
  destruct (redis_isOpen r); [|exact Hkv]. destruct Hkv as [Klatest Ksnap].
  intros e0 r0 Hcfg Hkeys. rewrite <-(Hkeys "latest") in Klatest by by left.
  rewrite <-(Hkeys (pretty n)) in Ksnap by by right; left.
  unfold recoverFromLatestSnapshot, try_catch. unfold bind at 1, engine, bind at 1, isOpen.
  cbn [svc_db svc_env]. rewrite Hcfg.
  destruct (redis_isOpen r0); cbn [negb]; [|by simpl].
  unfold bind at 1, on_env at 1. cbn [svc_db svc_env].
  destruct (redis_get (snapshot_key (ob_config e) "latest") r0) as [[o|er] r1] eqn:E1;
    [|simpl; split; [done|]; intros _ Hg; destruct (Hg (snapshot_key (ob_config e) "latest") r0)
        as (? & ? & ?); congruence].
  apply redis_get_ok in E1 as [-> Kr1]. rewrite Klatest. unfold truthy_value at 1.
  rewrite pretty_nonempty. simpl.
  unfold bind at 1, on_env at 1. simpl.
  destruct (redis_get (snapshot_key (ob_config e) (pretty n)) r1) as [[o|er] r2] eqn:E2;
    [|simpl; split; [done|]; intros _ Hg; destruct (Hg (snapshot_key (ob_config e) (pretty n)) r1)
        as (? & ? & ?); congruence].
  apply redis_get_ok in E2 as [-> Kr2]. rewrite Kr1, Ksnap. cbn [truthy_value].
  unfold bind, lift_exc. rewrite JSON_roundtrip. unfold set_engine, time_now, ret. cbn [svc_db svc_env].
  simpl. split; [|done]. rewrite Eb, Ea, En. split_and!; try done; apply load_levels; try done; apply js_sort_perm.
Qed.
End properties.

(** ** The depth of a book *)

Inductive book_op :=
| ApplyDepthUpdate (side : OrderSide) (p a : number)
| SetLevel (side : OrderSide) (p a : number)
| RemoveLevel (side : OrderSide) (p : number)
| Clear.

Definition book_step (e : OrderBookSnapshotEngine) (op : book_op) : OrderBookSnapshotEngine :=
  match op with
  | ApplyDepthUpdate side p a => applyDepthUpdate side p a e
  | SetLevel side p a => setLevel side p a e
  | RemoveLevel side p => removeLevel side p e
  | Clear => ob_clear e
  end.

(** The keys stay those of a [Map], by every update and by every recovery. *)
Definition map_keys (e : OrderBookSnapshotEngine) : Prop :=
  keys_of_map (ob_bids e) ∧ keys_of_map (ob_asks e).
Lemma keys_insert p a b : keys_of_map b → keys_of_map (<[map_key p := a]> b).
Proof. intros Hb. apply map_Forall_insert_2; [by destruct p|done]. Qed.
Lemma keys_load l b : keys_of_map b → keys_of_map (foldl load_level b l).
Proof.
  revert b. induction l as [|lv l IH]; intros b Hb; [done|]. apply IH. unfold load_level.
  destruct (_ && _); [by apply keys_insert|done].
Qed.
Lemma on_book_keys side f e :
  map_keys e → (∀ b, keys_of_map b → keys_of_map (f b)) → map_keys (on_book side f e).
Proof. intros [Hb Ha] Hf. destruct side; split; simpl; auto. Qed.
Theorem map_keys_kept e op s : map_keys e → map_keys (book_step e op) ∧ map_keys (applySnapshot s e).
Proof.
  intros He. assert (∀ p (b : book), keys_of_map b → keys_of_map (delete p b)) as Hd
    by (intros; by apply map_Forall_delete).
  split.
  - destruct op as [side p a|side p a|side p|]; simpl; unfold applyDepthUpdate, setLevel, removeLevel, ob_clear.
    + destruct (bad_price p); [done|]. apply on_book_keys; [done|]. intros b Hb.
      destruct (num_leb a num_zero); auto using keys_insert.
    + destruct (bad_price p); [done|]. apply on_book_keys; [done|]. intros b Hb.
      destruct (num_leb a num_zero); auto using keys_insert.
    + apply on_book_keys; auto.
    + split; apply map_Forall_empty.
  - split; apply keys_load, map_Forall_empty.
Qed.

(** Prices are 64-bit floating-point numbers. *)
Definition valid_op (op : book_op) : Prop :=
  match op with
  | ApplyDepthUpdate _ p _ | SetLevel _ p _ | RemoveLevel _ p => valid_num p
  | Clear => True
  end.

Definition prices_ok (b : book) : Prop :=
  map_Forall (λ p _, valid_num p ∧ isFinite p = true) b.

Definition engine_ok (e : OrderBookSnapshotEngine) : Prop :=
  prices_ok (ob_bids e) ∧ prices_ok (ob_asks e).

Lemma on_book_ok side f e :
  engine_ok e → (∀ b, prices_ok b → prices_ok (f b)) → engine_ok (on_book side f e).
Proof. intros [Hb Ha] Hf. destruct side; split; simpl; auto. Qed.

Lemma prices_ok_delete p b : prices_ok b → prices_ok (delete p b).
Proof. apply map_Forall_delete. Qed.
Lemma prices_ok_insert p a b :
  valid_num p → bad_price p = false → prices_ok b → prices_ok (<[map_key p := a]> b).
Proof.
  intros Hv Hp Hb. apply map_Forall_insert_2; [|done].
  apply orb_false_iff in Hp as [Hf _]. apply negb_false_iff in Hf. by destruct p.
Qed.
#[local] Hint Resolve prices_ok_delete prices_ok_insert : sf.

Lemma book_step_ok e op : valid_op op → engine_ok e → engine_ok (book_step e op).
Proof.
  intros Hv He. destruct op as [side p a|side p a|side p|]; simpl in *;
    unfold applyDepthUpdate, setLevel, removeLevel, ob_clear.
  - destruct (bad_price p) eqn:Ep; [done|]. apply on_book_ok; [done|]. intros b Hb.
    destruct (num_leb a num_zero); auto with sf.
  - destruct (bad_price p) eqn:Ep; [done|]. apply on_book_ok; [done|]. intros b Hb.
    destruct (num_leb a num_zero); auto with sf.
  - apply on_book_ok; auto with sf.
  - split; apply map_Forall_empty.
Qed.

Lemma StronglySorted_weaken {A} (P Q : A → A → Prop) l :
  (∀ x y, P x y → Q x y) → StronglySorted P l → StronglySorted Q l.
Proof.
  intros HPQ. induction 1 as [|x l Hs IH Hf]; constructor; [done|].
  eapply Forall_impl; [done|]. auto.
Qed.

Lemma levels_ok b l : prices_ok b → l ∈ levels b → valid_num (price l) ∧ isFinite (price l) = true.
Proof.
  intros Hb Hl. apply list_elem_of_fmap in Hl as ([p a] & -> & Hpa).
  apply elem_of_map_to_list in Hpa. by apply (Hb p a).
Qed.

(** After every sequence of updates from empty books, the depth lists exactly the
    entries of the two books, each price once, the bids by descending and the asks by
    ascending price, for all prices (differences that overflow or underflow
    included). *)
Theorem getDepth_sorted config ops :
  Forall valid_op ops →
  let e := foldl book_step (ob_constructor config) ops in
  StronglySorted (λ l1 l2, num_val (price l2) ≤ num_val (price l1)) (getDepth e).1 ∧
  StronglySorted (λ l1 l2, num_val (price l1) ≤ num_val (price l2)) (getDepth e).2 ∧
  (level_pair <$> (getDepth e).1) ≡ₚ map_to_list (ob_bids e) ∧
  (level_pair <$> (getDepth e).2) ≡ₚ map_to_list (ob_asks e) ∧
  NoDup (price <$> (getDepth e).1) ∧ NoDup (price <$> (getDepth e).2).
Proof.
  intros Hops e. assert (engine_ok e) as [Hb Ha].
  { subst e. assert (engine_ok (ob_constructor config)) as H0 by (split; apply map_Forall_empty).
    revert H0. generalize (ob_constructor config). induction Hops as [|op ops Hop _ IH];
      intros e He; [done|]. simpl. by apply IH, book_step_ok. }
  assert (∀ cmp b, (level_pair <$> js_sort cmp (levels b)) ≡ₚ map_to_list b) as Hperm
    by (intros cmp b; by rewrite js_sort_perm, levels_pairs).
  assert (∀ cmp b, NoDup (price <$> js_sort cmp (levels b))) as Hnd.
  { intros cmp b. rewrite js_sort_perm.
    replace (price <$> levels b) with ((map_to_list b).*1); [apply NoDup_fst_map_to_list|].
    by rewrite <-levels_pairs, <-list_fmap_compose. }
  unfold getDepth; simpl. split_and!; auto.
  - eapply StronglySorted_weaken; [|apply (js_sort_sorted _ (λ l, - num_val (price l)))].
    + simpl. intros; lia.
    + intros x y [Vx Fx]%(levels_ok _ _ Hb) [Vy Fy]%(levels_ok _ _ Hb).
      rewrite (proj1 (num_sub_sign _ _ Vy Vx Fy Fx)), num_ltb_val by done.
      apply bool_decide_ext. lia.
  - apply (js_sort_sorted _ (λ l, num_val (price l))).
    intros x y [Vx Fx]%(levels_ok _ _ Ha) [Vy Fy]%(levels_ok _ _ Ha).
    by rewrite (proj1 (num_sub_sign _ _ Vx Vy Fx Fy)), num_ltb_val by done.
Qed.

(** ** Concrete runs *)

Record memory_redis := mkRedis {
  mr_kv : gmap string (redis_value OrderBookSnapshot);
  mr_now : Z;
}.

(** Redis in memory; JSON makes of a snapshot what it does when it is read. *)
#[export] Program Instance redis_in_memory : SnapshotWorld memory_redis OrderBookSnapshot := {|
  ob_now := mr_now;
  redis_isOpen _ := true;
  redis_get k r := (Ok (mr_kv r !! k), r);
  redis_setEx k _ v r := (Ok tt, mkRedis (<[k := v]> (mr_kv r)) (mr_now r));
  redis_scan _ r := (Ok [elements (dom (mr_kv r))], r);
  redis_del ks r := (Ok tt, mkRedis (foldr delete (mr_kv r) ks) (mr_now r));
  exportSnapshot _ := ret tt;
  redis_kv := mr_kv;
|}.
Next Obligation. by intros k r o r' [= <- <-]. Qed.
Next Obligation. by intros k ttl v r r' [= <-]. Qed.
Next Obligation. done. Qed.

Definition parse_value (v : redis_value OrderBookSnapshot) : exc OrderBookSnapshot :=
  match v with VJson s => Ok (json_snapshot s) | VString _ => Throw (Error "Unexpected token") end.
Definition no_text (s : OrderBookSnapshot) : string := "".

Definition sample_updates : list book_op :=
  [ApplyDepthUpdate bid (num_of_Z 9) (num_of_Z 2); ApplyDepthUpdate bid (num_of_Z 10) (num_of_Z 1);
   ApplyDepthUpdate bid (num_of_Z 9) (num_of_Z 3); SetLevel ask (num_of_Z 12) (num_of_Z 4);
   SetLevel ask (num_of_Z 11) (num_of_Z 4); RemoveLevel ask (num_of_Z 12)].
Definition sample_engine : OrderBookSnapshotEngine :=
  Eval vm_compute in foldl book_step (ob_constructor DEFAULT_CONFIG) sample_updates.

Example sample_depth : getDepth sample_engine =
  ([mkLevel (num_of_Z 10) (num_of_Z 1); mkLevel (num_of_Z 9) (num_of_Z 5)],
   [mkLevel (num_of_Z 11) (num_of_Z 4)]).
Proof. by vm_compute. Qed.

Lemma getDepth_sorted_witness :
  let e := foldl book_step (ob_constructor DEFAULT_CONFIG) sample_updates in
  StronglySorted (λ l1 l2, num_val (price l2) ≤ num_val (price l1)) (getDepth e).1 ∧
  StronglySorted (λ l1 l2, num_val (price l1) ≤ num_val (price l2)) (getDepth e).2 ∧
  (level_pair <$> (getDepth e).1) ≡ₚ map_to_list (ob_bids e) ∧
  (level_pair <$> (getDepth e).2) ≡ₚ map_to_list (ob_asks e) ∧
  NoDup (price <$> (getDepth e).1) ∧ NoDup (price <$> (getDepth e).2).
Proof.
  apply (getDepth_sorted DEFAULT_CONFIG sample_updates). repeat constructor.
Defined.

Definition sample_redis : memory_redis := mkRedis ∅ 1000.
Definition sample_capture := Eval vm_compute in
  captureSnapshot (Txt:=OrderBookSnapshot) id 500 (mkSvc sample_engine sample_redis).
Definition sample_snapshot : OrderBookSnapshot := Eval vm_compute in
  match sample_capture.1 with Ok (Some s) => s | _ => mkBookSnapshot 0 0 "" [] [] end.

Definition sample_recovery :=
  recoverFromLatestSnapshot (Txt:=OrderBookSnapshot) no_text parse_value
    (mkSvc (ob_constructor DEFAULT_CONFIG) (svc_env sample_capture.2)).

Lemma recover_restores_witness : sample_recovery.1 = Ok (Some sample_snapshot).
Proof.
  pose proof (recover_restores (Txt:=OrderBookSnapshot) id no_text parse_value (λ s, eq_refl)
    500 sample_engine sample_redis sample_snapshot sample_capture.2
    ltac:(apply (bool_decide_unpack (keys_of_map _)); by vm_compute)
    ltac:(apply (bool_decide_unpack (keys_of_map _)); by vm_compute)
    ltac:(by vm_compute) (ob_constructor DEFAULT_CONFIG) (svc_env sample_capture.2) eq_refl (λ k _, eq_refl)) as Hw.
  fold sample_recovery in Hw. destruct sample_recovery as [res w2]. destruct Hw as [_ Hw].
  apply Hw; [done|]. intros k r. by exists (mr_kv r !! k), r.
Defined.

(** A level that an infinite update has made infinite is not taken back. *)
Definition infinite_capture := captureSnapshot (Txt:=OrderBookSnapshot) id 501
  (mkSvc (applyDepthUpdate bid (num_of_Z 10) (SpecFloat.S754_infinity false) sample_engine) sample_redis).
Example infinite_level_lost :
  let recovered := recoverFromLatestSnapshot (Txt:=OrderBookSnapshot) no_text parse_value
    (mkSvc (ob_constructor DEFAULT_CONFIG) (svc_env infinite_capture.2)) in
  (levelCount (svc_db infinite_capture.2), levelCount (svc_db recovered.2)) = (3, 2)%nat.
Proof. by vm_compute. Qed.
