(* ===== verification/OrderSync.v ===== *)
(** * Order book synchronizer: [src/src/services/orderBookSynchronizer.ts]

    Order events applied to a per-market cache that is mirrored in Redis sorted sets. A
    cache object is created with the two maps [bids] and [asks]; the event code reads and
    writes the properties [bid] and [ask], which exist only once [hydrateMarketFromRedis]
    has assigned them. All four properties are in the model, the last two optional. *)

From S2P Require Import Prelude JsString JsNumber JsDate Service.

Local Open Scope Z_scope.

Inductive SyncSide := side_bid | side_ask.

Definition side_name (s : SyncSide) : string :=
  match s with side_bid => "bid" | side_ask => "ask" end.

Record OrderBookDepthRow := mkDepthRow { dr_price : number; dr_quantity : number }.

Record DepthSnapshot := mkDepth {
  ds_market : string;
  ds_bids : list OrderBookDepthRow;
  ds_asks : list OrderBookDepthRow;
  ds_spread : option number;
  ds_updatedAt : string;
}.

Notation price_map := (gmap number number).

(** The properties of a cache object: [bids], [asks], and [cache["bid"]], [cache["ask"]]. *)
Record MarketOrderCache := mkCache {
  mc_bids : price_map;
  mc_asks : price_map;
  mc_bid : option price_map;
  mc_ask : option price_map;
}.

(** An event; [U] is the type of unchecked values. *)
Record SyncEvent (U : Type) := mkSyncEvent {
  se_market : option string;
  se_side : option string;
  se_price : U;
  se_quantity : U;
  se_type : option string;
}.
Arguments mkSyncEvent {U}.
Arguments se_market {U}.
Arguments se_side {U}.
Arguments se_price {U}.
Arguments se_quantity {U}.
Arguments se_type {U}.

Definition upper_ascii (c : Ascii.ascii) : Ascii.ascii :=
  let n := Ascii.nat_of_ascii c in
  if (97 <=? n)%nat && (n <=? 122)%nat then Ascii.ascii_of_nat (n - 32) else c.

Definition is_space (c : Ascii.ascii) : bool :=
  let n := Ascii.nat_of_ascii c in ((n =? 32) || ((9 <=? n) && (n <=? 13)))%nat.

(** Trimming and then removing every run of blanks leaves no blank at all. *)
Fixpoint normalizeMarket (market : string) : string :=
  match market with
  | "" => ""
  | String c market' =>
      if is_space c then normalizeMarket market'
      else String (upper_ascii c) (normalizeMarket market')
  end%string.

Definition normalizeSide (side : string) : exc SyncSide :=
  let value := toLowerCase side in
  if includes ["buy"; "bid"] value then Ok side_bid
  else if includes ["sell"; "ask"] value then Ok side_ask
  else Throw (Error ("Unsupported order side: " +:+ side)).

Definition maxDepthRows : nat := 25.

Class SyncWorld (R : Type) := {
  sy_now : R → Z;
  (** [getRedisClient()] is not null *)
  sy_redis : R → bool;
  zRangeScores : string → M R (list number);
  zAdd : string → number → M R unit;
  zRem : string → number → M R unit;
  broadcastToSessions : DepthSnapshot → M R unit;
}.

Section synchronizer.
Context {R U : Type} `{!SyncWorld R}.
(** [Number(value)] and [String(value)] of an unchecked value. *)
Context (Number_of : U → number) (String_of : U → string).

(** [localCache] *)
Notation caches := (gmap string MarketOrderCache).
Notation run := (M (svc caches R)).

Definition toPositiveNumber (value : U) (label : string) : exc number :=
  let numeric := Number_of value in
  if negb (isFinite numeric) || num_leb numeric num_zero
  then Throw (Error ("Invalid " +:+ label +:+ ": " +:+ String_of value))
  else Ok numeric.

Definition empty_cache : MarketOrderCache := mkCache ∅ ∅ None None.

Definition ensureMarketCache (market : string) : run MarketOrderCache := λ w,
  match svc_db w !! market with
  | Some c => (Ok c, w)
  | None => (Ok empty_cache, mkSvc (<[market := empty_cache]> (svc_db w)) (svc_env w))
  end.

(** [cache[side]!]: reading a method of [undefined] throws. *)
Definition side_map (c : MarketOrderCache) (side : SyncSide) : exc price_map :=
  match (match side with side_bid => mc_bid c | side_ask => mc_ask c end) with
  | Some m => Ok m
  | None => Throw (Error "Cannot read properties of undefined")
  end.

Definition with_side (side : SyncSide) (m : price_map) (c : MarketOrderCache) : MarketOrderCache :=
  match side with
  | side_bid => mkCache (mc_bids c) (mc_asks c) (Some m) (mc_ask c)
  | side_ask => mkCache (mc_bids c) (mc_asks c) (mc_bid c) (Some m)
  end.

Definition read_side (market : string) (side : SyncSide) : run price_map :=
  c <- ensureMarketCache market ;;
  lift_exc (side_map c side).

Definition write_side (market : string) (side : SyncSide) (m : price_map) : run unit := λ w,
  (Ok tt, mkSvc (alter (with_side side m) market (svc_db w)) (svc_env w)).

Definition getRedisKey (market : string) (side : SyncSide) : string :=
  "orderbook:" +:+ market +:+ ":" +:+ side_name side.

Definition redis_client : run bool := λ w, (Ok (sy_redis (svc_env w)), w).

Definition persistRedisPriceLevel (market : string) (side : SyncSide) (price : number)
    (quantityOverride : option number) : run unit :=
  redis <- redis_client ;;
  if negb redis then ret tt
  else
    ensureMarketCache market ;;;
    nextQty <- match quantityOverride with
               | Some q => ret q
               | None => m <- read_side market side ;; ret (default num_zero (m !! price))
               end ;;
    if num_leb nextQty num_zero then on_env (zRem (getRedisKey market side) price)
    else
      on_env (zAdd (getRedisKey market side) price) ;;;
      m <- read_side market side ;;
      write_side market side (<[price := nextQty]> m).

Definition removeRedisPriceLevel (market : string) (side : SyncSide) (price : number) : run unit :=
  redis <- redis_client ;;
  if negb redis then ret tt
  else
    m <- read_side market side ;;
    write_side market side (delete price m) ;;;
    on_env (zRem (getRedisKey market side) price).

Definition depth_rows (cmp : number → number → number) (m : price_map) : list OrderBookDepthRow :=
  (λ '(p, q), mkDepthRow p q) <$>
    take maxDepthRows (js_sort (λ l r, cmp l.1 r.1) (map_to_list m)).

Definition buildSnapshot (market : string) (cache : MarketOrderCache) (t : Z) : DepthSnapshot :=
  let bids := depth_rows (λ l r, num_sub r l) (mc_bids cache) in
  let asks := depth_rows (λ l r, num_sub l r) (mc_asks cache) in
  let spread := match bids, asks with
    | b :: _, a :: _ =>
        if num_ltb num_zero (dr_price a) && num_ltb num_zero (dr_price b)
        then Some (num_sub (dr_price a) (dr_price b)) else None
    | _, _ => None
    end in
  mkDepth market bids asks spread (toISOString t).

Definition snapshot_of (market : string) : run DepthSnapshot :=
  cache <- ensureMarketCache market ;;
  t <- (λ w, (Ok (sy_now (svc_env w)), w)) ;;
  ret (buildSnapshot market cache t).

Definition apply_event (market : string) (side : SyncSide) (price quantity : number)
    (type_ : string) : run unit :=
  if decide (type_ = "created") then
    m <- read_side market side ;;
    write_side market side (<[price := num_add (default num_zero (m !! price)) quantity]> m) ;;;
    persistRedisPriceLevel market side price None
  else if decide (type_ = "executed") then
    m <- read_side market side ;;
    let nextQty := math_max num_zero (num_sub (default num_zero (m !! price)) quantity) in
    write_side market side
      (if num_ltb num_zero nextQty then <[price := nextQty]> m else delete price m) ;;;
    persistRedisPriceLevel market side price (Some nextQty)
  else if decide (type_ = "cancelled") then
    m <- read_side market side ;;
    write_side market side (delete price m) ;;;
    removeRedisPriceLevel market side price
  else throw (Error ("Unsupported order event type: " +:+ type_)).

Definition processOrderEvent (event : SyncEvent U) : run DepthSnapshot :=
  let market := normalizeMarket (default "" (se_market event)) in
  if negb (truthy_str market) then throw (Error "Order event requires a market name")
  else
    side <- lift_exc (normalizeSide (match se_side event with
      | Some s => s
      | None => default "bid" (se_type event)
      end)) ;;
    price <- lift_exc (toPositiveNumber (se_price event) "price") ;;
    quantity <- lift_exc (toPositiveNumber (se_quantity event) "quantity") ;;
    let type_ := toLowerCase (default "created" (se_type event)) in
    ensureMarketCache market ;;;
    apply_event market side price quantity type_ ;;;
    snapshot <- snapshot_of market ;;
    on_env (broadcastToSessions snapshot) ;;;
    ret snapshot.

(** One side of [hydrateMarketFromRedis]: the prices of the sorted set, with the
    quantities already cached. *)
Fixpoint hydrate_entries (market : string) (side : SyncSide) (scores : list number)
    (nextMap : price_map) : run price_map :=
  match scores with
  | [] => ret nextMap
  | parsedPrice :: scores' =>
      if negb (isFinite parsedPrice) || num_leb parsedPrice num_zero
      then hydrate_entries market side scores' nextMap
      else
        m <- read_side market side ;;
        hydrate_entries market side scores'
          (<[parsedPrice := default num_zero (m !! parsedPrice)]> nextMap)
  end.

Definition hydrate_side (market : string) (side : SyncSide) : run unit :=
  entries <- on_env (zRangeScores (getRedisKey market side)) ;;
  nextMap <- hydrate_entries market side entries ∅ ;;
  write_side market side nextMap.

Definition hydrateMarketFromRedis (market : string) : run unit :=
  let normalizedMarket := normalizeMarket market in
  ensureMarketCache normalizedMarket ;;;
  redis <- redis_client ;;
  if negb redis then ret tt
  else
    hydrate_side normalizedMarket side_bid ;;;
    hydrate_side normalizedMarket side_ask.

Definition sync_getDepth (market : string) : run DepthSnapshot :=
  let normalizedMarket := normalizeMarket market in
  hydrateMarketFromRedis normalizedMarket ;;;
  snapshot_of normalizedMarket.

(** ** Sequences of calls *)

Inductive sync_op :=
| ProcessOrderEvent (event : SyncEvent U)
| GetDepth (market : string)
| Hydrate (market : string).

Definition sync_step (w : svc caches R) (op : sync_op) : svc caches R :=
  match op with
  | ProcessOrderEvent e => final (processOrderEvent e) w
  | GetDepth m => final (sync_getDepth m) w
  | Hydrate m => final (hydrateMarketFromRedis m) w
  end.

Definition sync_run : svc caches R → list sync_op → svc caches R := foldl sync_step.

(** ** Lemmas *)

(** Nothing was ever put into [bids] or [asks]. *)
Definition untouched (d : caches) : Prop :=
  map_Forall (λ _ c, mc_bids c = ∅ ∧ mc_asks c = ∅) d.
Notation keeps c := (preserves (λ w : svc caches R, untouched (svc_db w)) c).

Lemma wp_ensure market (w : svc caches R) (E : js_error → svc caches R → Prop) :
  untouched (svc_db w) →
  wp (ensureMarketCache market)
    (λ c w', untouched (svc_db w') ∧ mc_bids c = ∅ ∧ mc_asks c = ∅) E w.
Proof.
  intros Hw. unfold wp, ensureMarketCache. destruct (svc_db w !! market) as [c|] eqn:Ec.
  - split; [done|]. by apply (Hw market).
  - split; [|done]. by apply map_Forall_insert_2.
Qed.

Lemma keeps_ensure market : keeps (ensureMarketCache market).
Proof. intros w Hw. eapply wp_mono; [by apply (wp_ensure market w (λ _ _, False))| |done]. by intros ? ? []. Qed.
Lemma keeps_lift {A} (r : exc A) : keeps (lift_exc r).
Proof. intros w Hw. unfold wp, lift_exc. by destruct r. Qed.
Lemma keeps_read market side : keeps (read_side market side).
Proof. apply preserves_bind; [apply keeps_ensure|]. intros; apply keeps_lift. Qed.
Lemma keeps_write market side m : keeps (write_side market side m).
Proof.
  intros w Hw. unfold wp, write_side; simpl. intros k c. rewrite lookup_alter_Some.
  intros [(-> & c0 & Hc & ->)|[_ Hc]]; [|by apply (Hw k)].
  destruct (Hw _ _ Hc). by destruct side.
Qed.
Lemma keeps_redis : keeps redis_client.
Proof. by intros w. Qed.
#[local] Hint Resolve keeps_ensure keeps_lift keeps_read keeps_write keeps_redis : sf.

Lemma keeps_apply market side p q t : keeps (apply_event market side p q t).
Proof. unfold apply_event, persistRedisPriceLevel, removeRedisPriceLevel. cbv zeta. preserve. Qed.
Lemma keeps_hydrate_entries market side scores m : keeps (hydrate_entries market side scores m).
Proof. revert m. induction scores; intros m; simpl; preserve. Qed.
#[local] Hint Resolve keeps_apply keeps_hydrate_entries : sf.
Lemma keeps_hydrate market : keeps (hydrateMarketFromRedis market).
Proof. unfold hydrateMarketFromRedis, hydrate_side. cbv zeta. preserve. Qed.
#[local] Hint Resolve keeps_hydrate : sf.

Definition empty_depth (s : DepthSnapshot) : Prop :=
  ds_bids s = [] ∧ ds_asks s = [] ∧ ds_spread s = None.

Lemma wp_snapshot market (w : svc caches R) :
  untouched (svc_db w) →
  wp (snapshot_of market) (λ s w', untouched (svc_db w') ∧ empty_depth s)
    (λ _ w', untouched (svc_db w')) w.
Proof.
  intros Hw. apply wp_bind. eapply wp_mono; [by apply (wp_ensure market w (λ _ _, False))| |done].
  intros c w1 (H1 & Hb & Ha). apply wp_bind.
  change (untouched (svc_db w1) ∧ empty_depth (buildSnapshot market c (sy_now (svc_env w1)))).
  split; [done|]. unfold buildSnapshot. by rewrite Hb, Ha.
Qed.

Lemma wp_process event (w : svc caches R) :
  untouched (svc_db w) →
  wp (processOrderEvent event) (λ s w', untouched (svc_db w') ∧ empty_depth s)
    (λ _ w', untouched (svc_db w')) w.
Proof.
  intros Hw. unfold processOrderEvent. destruct (negb _); [by apply wp_throw|].
  do 3 (apply wp_bind; eapply wp_mono; [by apply keeps_lift| |done]; intros ? ? ?).
  apply wp_bind. eapply wp_mono; [by apply keeps_ensure| |done]. intros ? ? ?.
  apply wp_bind. eapply wp_mono; [by apply keeps_apply| |done]. intros ? ? ?.
  apply wp_bind. eapply wp_mono; [by apply wp_snapshot| |done]. intros s w2 [Hw2 Hs].
  apply wp_bind. eapply wp_mono; [by apply (preserves_on_env untouched)| |done].
  intros ? ? ?. by apply wp_ret.
Qed.

Lemma wp_depth market (w : svc caches R) :
  untouched (svc_db w) →
  wp (sync_getDepth market) (λ s w', untouched (svc_db w') ∧ empty_depth s)
    (λ _ w', untouched (svc_db w')) w.
Proof.
  intros Hw. apply wp_bind. eapply wp_mono; [by apply keeps_hydrate| |done].
  intros ? ? ?. by apply wp_snapshot.
Qed.

Lemma sync_run_untouched ops w : untouched (svc_db w) → untouched (svc_db (sync_run w ops)).
Proof.
  revert w. induction ops as [|op ops IH]; intros w Hw; [done|]. simpl. apply IH.
  destruct op; simpl; apply (wp_final _ (λ w, untouched (svc_db w))).
  - eapply wp_mono; [by apply wp_process|by intros ? ? []|done].
  - eapply wp_mono; [by apply wp_depth|by intros ? ? []|done].
  - by apply keeps_hydrate.
Qed.

(** ** Properties *)

(** From an empty cache, over every sequence of events, hydrations and depth requests
    and whatever Redis answers, every depth the synchronizer returns is empty: no bids, no
    asks, no spread. *)
Theorem depth_always_empty ops (w : svc caches R) :
  svc_db w = ∅ →
  let w' := sync_run w ops in
  (∀ event s, outcome (processOrderEvent event) w' = Ok s → empty_depth s) ∧
  (∀ market s, outcome (sync_getDepth market) w' = Ok s → empty_depth s).
Proof.
  intros Hw w'. assert (untouched (svc_db w')) as Hu.
  { apply sync_run_untouched. rewrite Hw. apply map_Forall_empty. }
  assert (∀ A (c : run A) (Q : A → Prop), wp c (λ a w, untouched (svc_db w) ∧ Q a)
    (λ _ w, untouched (svc_db w)) w' → ∀ a, outcome c w' = Ok a → Q a) as Hout.
  { unfold wp, outcome. intros A c Q Hc a. destruct (c w') as [[a'|e] w2]; simpl; [|done].
    intros [= <-]. by destruct Hc. }
  split; [intros event|intros market]; apply Hout; [by apply wp_process|by apply wp_depth].
Qed.

(** On a market that was never hydrated no event can be processed: whatever the event,
    [processOrderEvent] throws. *)
Theorem unhydrated_market_throws event (w : svc caches R) :
  (∀ c, svc_db w !! normalizeMarket (default "" (se_market event)) = Some c →
        mc_bid c = None ∧ mc_ask c = None) →
  ∃ e, outcome (processOrderEvent event) w = Throw e.
Proof.
  set (market := normalizeMarket _). intros Hc.
  enough (wp (processOrderEvent event) (λ _ _, False) (λ _ _, True) w) as Hw.
  { unfold wp, outcome in *. destruct (processOrderEvent event w) as [[s|e] w2]; [done|by exists e]. }
  assert (∀ side w', (∀ c, svc_db w' !! market = Some c → mc_bid c = None ∧ mc_ask c = None) →
    wp (read_side market side) (λ _ _, False) (λ _ _, True) w') as Hread.
  { intros side w' Hw'. apply wp_bind. unfold wp, ensureMarketCache, lift_exc, side_map.
    destruct (svc_db w' !! market) as [c|] eqn:E; [|by destruct side].
    destruct (Hw' c eq_refl) as [Hb Ha]. destruct side; by rewrite ?Hb, ?Ha. }
  unfold processOrderEvent. fold market. destruct (negb _); [by apply wp_throw|].
  do 3 (apply wp_bind; unfold wp at 1, lift_exc at 1;
        match goal with |- context [match ?r with Ok _ => _ | Throw _ => _ end] => destruct r end;
        [|done]).
  apply wp_bind.
  assert (wp (ensureMarketCache market) (λ _ w', ∀ c, svc_db w' !! market = Some c →
    mc_bid c = None ∧ mc_ask c = None) (λ _ _, True) w) as He.
  { unfold wp, ensureMarketCache. destruct (svc_db w !! market) as [c|] eqn:E; [by rewrite E|].
    simpl. rewrite lookup_insert_eq. by intros c [= <-]. }
  eapply wp_mono; [exact He| |done]. intros ? w1 H1. apply wp_bind.
  eapply wp_mono with (Q := λ _ _, False) (E := λ _ _, True); [|done|done].
  unfold apply_event. repeat case_decide; [..|by apply wp_throw];
    (apply wp_bind; eapply wp_mono; [by apply Hread|done|done]).
Qed.
End synchronizer.

(** ** Concrete runs *)

(** Redis answers and holds nothing; broadcasts succeed. *)
#[export] Instance empty_redis : SyncWorld Z := {|
  sy_now t := t;
  sy_redis _ := true;
  zRangeScores key := ret [];
  zAdd _ _ := ret tt;
  zRem _ _ := ret tt;
  broadcastToSessions _ := ret tt;
|}.

Definition sample_event : SyncEvent number :=
  mkSyncEvent (Some "xlm / usd") (Some "buy") (num_of_Z 10) (num_of_Z 3) None.
Definition sample_string (n : number) : string := "".
Definition fresh_sync : svc (gmap string MarketOrderCache) Z := mkSvc ∅ 0.

(** Hydrated once, the market takes events, and still shows no depth. *)
Example sample_after_hydration :
  ds_bids <$> (match outcome (processOrderEvent id sample_string sample_event)
      (sync_run id sample_string fresh_sync [Hydrate "XLM/USD"]) with
    | Ok s => Some s | Throw _ => None end) = Some [].
Proof. by vm_compute. Qed.

Lemma depth_always_empty_witness :
  let w' := sync_run id sample_string fresh_sync [Hydrate "XLM/USD"] in
  (∀ event s, outcome (processOrderEvent id sample_string event) w' = Ok s → empty_depth s) ∧
  (∀ market s, outcome (sync_getDepth market) w' = Ok s → empty_depth s).
Proof.
  apply (depth_always_empty id sample_string [Hydrate "XLM/USD"] fresh_sync). reflexivity.
Defined.

Lemma unhydrated_market_throws_witness :
  ∃ e, outcome (processOrderEvent id sample_string sample_event) fresh_sync = Throw e.
Proof.
  apply (unhydrated_market_throws id sample_string sample_event fresh_sync).
  intros c Hc. vm_compute in Hc. discriminate.
Defined.
