(* ===== verification/JsDecimal.v ===== *)
(** * Decimal text of a JavaScript number

    [Number(text)], [String(x)], [x.toFixed(n)] and [parseFloat(text)] as ECMAScript
    defines them, on ASCII text: reading rounds the exact decimal to the nearest double;
    printing writes the fewest digits that read back as the same double. Both are computed
    with exact integers, so they agree with the language on every double. *)

From Stdlib Require Import SpecFloat Ascii.
From stdpp Require Import pretty.
From S2P Require Import Prelude JsNumber JsString.

Local Open Scope Z_scope.

(** ** From a decimal to a double *)

Definition signed_zero (s : bool) : number := S754_zero s.

(** The double nearest to [± d / q], [q] positive. *)
Definition round_ratio (s : bool) (d : Z) (q : positive) : number :=
  match d with
  | Zpos m =>
      let '(mz, ez, lz) := SFdiv_core_binary prec emax (Zpos m) 0 (Zpos q) 0 in
      binary_round_aux prec emax s mz ez lz
  | _ => signed_zero s
  end.

(** The number of decimal digits of [d]. *)
Definition digits10 (d : Z) : Z := Z.of_nat (String.length (pretty d)).

(** The double nearest to [± d * 10^x]. Outside the exponents of a double the power of
    ten is not built. *)
Definition round_decimal (s : bool) (d x : Z) : number :=
  if d =? 0 then signed_zero s
  else if 309 <? x then S754_infinity s
  else if x + digits10 d <? -324 then signed_zero s
  else if 0 <=? x then binary_normalize prec emax (cond_Zopp s (d * 10 ^ x)) 0 s
  else round_ratio s d (Z.to_pos (10 ^ (- x))).

(** ** [Number(text)] *)

(** The leading digits of [t] appended to [acc], how many there were, and the rest. *)
Fixpoint take_digits (t : string) (acc : Z) (n : nat) : Z * nat * string :=
  match t with
  | String c t' =>
      match digit_value c with
      | Some d => take_digits t' (acc * 10 + d) (S n)
      | None => (acc, n, t)
      end
  | "" => (acc, n, t)
  end%string.

Definition take_sign (t : string) : bool * string :=
  match t with
  | String "-" t' => (true, t')
  | String "+" t' => (false, t')
  | _ => (false, t)
  end%string.

(** The exponent part, [None] when there is none. *)
Definition take_exponent (t : string) : option (Z * string) :=
  match t with
  | String c t' =>
      if bool_decide (c = "e"%char) || bool_decide (c = "E"%char) then
        let '(s, t'') := take_sign t' in
        match take_digits t'' 0 0 with
        | (_, O, _) => None
        | (x, _, rest) => Some (if s then - x else x, rest)
        end
      else None
  | "" => None
  end%string.

(** The longest prefix of [t] that is an unsigned decimal literal: digits, exponent and
    what follows. *)
Definition take_decimal (t : string) : option (Z * Z * string) :=
  let '(i, ni, r) := take_digits t 0 0 in
  let '(d, nf, r') :=
    match r with
    | String "." r1 => let '(d, n, r2) := take_digits r1 i 0 in
        if decide (ni = O ∧ n = O) then (i, O, r) else (d, n, r2)
    | _ => (i, O, r)
    end%string in
  if decide (ni = O ∧ nf = O) then None
  else match take_exponent r' with
       | Some (x, r'') => Some (d, x - Z.of_nat nf, r'')
       | None => Some (d, - Z.of_nat nf, r')
       end.

Fixpoint rev_string (t acc : string) : string :=
  match t with "" => acc | String c t' => rev_string t' (String c acc) end%string.

(** [t.trim()] *)
Definition trim (t : string) : string :=
  rev_string (trim_start (rev_string (trim_start t) "")) "".

(** [s.split(c)] *)
Fixpoint split_on (c : Ascii.ascii) (s current : string) : list string :=
  match s with
  | "" => [rev_string current ""]
  | String d s' =>
      if decide (d = c) then rev_string current "" :: split_on c s' "" else split_on c s' (String d current)
  end%string.

Definition hex_value (c : ascii) : option Z :=
  let n := Z.of_nat (nat_of_ascii c) in
  if (48 <=? n) && (n <=? 57) then Some (n - 48)
  else if (65 <=? n) && (n <=? 70) then Some (n - 55)
  else if (97 <=? n) && (n <=? 102) then Some (n - 87)
  else None.

(** All of [t] as digits below [base]. *)
Fixpoint radix_digits (base : Z) (t : string) (acc : Z) : option Z :=
  match t with
  | "" => Some acc
  | String c t' =>
      match hex_value c with
      | Some d => if (d <? base)%Z then radix_digits base t' (acc * base + d) else None
      | None => None
      end
  end%string.

Definition radix_literal (t : string) : option number :=
  match t with
  | String "0" (String p (String c t')) =>
      let read b := match radix_digits b (String c t') 0 with
                    | Some d => Some (num_of_Z d) | None => Some S754_nan end in
      if bool_decide (p = "x"%char) || bool_decide (p = "X"%char) then read 16
      else if bool_decide (p = "o"%char) || bool_decide (p = "O"%char) then read 8
      else if bool_decide (p = "b"%char) || bool_decide (p = "B"%char) then read 2
      else None
  | _ => None
  end%string.

(** [Number(text)] *)
Definition Number_str (text : string) : number :=
  let t := trim text in
  if decide (t = "") then num_zero
  else match radix_literal t with
  | Some x => x
  | None =>
      let '(s, u) := take_sign t in
      if decide (u = "Infinity") then S754_infinity s
      else match take_decimal u with
           | Some (d, x, "") => round_decimal s d x
           | _ => S754_nan
           end
  end%string.

(** [parseFloat(text)]: the longest decimal prefix. *)
Definition parseFloat (text : string) : number :=
  let '(s, u) := take_sign (trim_start text) in
  if String.prefix "Infinity" u then S754_infinity s
  else match take_decimal u with
       | Some (d, x, _) => round_decimal s d x
       | None => S754_nan
       end.

(** [BigInt(text)]: an integer literal, [None] being a SyntaxError. *)
Definition BigInt_str (text : string) : option Z :=
  let t := trim text in
  if decide (t = "") then Some 0
  else match t with
  | String "0" (String p (String c t')) =>
      let rest := String c t' in
      if bool_decide (p = "x"%char) || bool_decide (p = "X"%char) then radix_digits 16 rest 0
      else if bool_decide (p = "o"%char) || bool_decide (p = "O"%char) then radix_digits 8 rest 0
      else if bool_decide (p = "b"%char) || bool_decide (p = "B"%char) then radix_digits 2 rest 0
      else radix_digits 10 t 0
  | _ =>
      let '(s, u) := take_sign t in
      if decide (u = "") then None
      else (λ d, if s then - d else d)%Z <$> radix_digits 10 u 0
  end%string.

Example bigint_plain : BigInt_str " -12 " = Some (-12).
Proof. vm_compute. reflexivity. Qed.
Example bigint_fraction : BigInt_str "1.5" = None.
Proof. vm_compute. reflexivity. Qed.

(** ** [String(x)] *)

(** The first exponent [n] from [n0] on with [num < den * 10^n]. *)
Fixpoint magnitude (fuel : nat) (num den n : Z) : Z :=
  match fuel with
  | O => n
  | S fuel' =>
      if (if 0 <=? n then num <? den * 10 ^ n else num * 10 ^ (- n) <? den)
      then n else magnitude fuel' num den (n + 1)
  end.

(** The shortest decimal [s * 10^(n-k)] that rounds to [x = num / den]: from [k] digits
    on, the nearest of the two candidates that reads back as [x]. *)
Fixpoint shortest (fuel : nat) (x : number) (num den n k : Z) : Z * Z * Z :=
  let p := n - k in
  let a := if 0 <=? p then num else num * 10 ^ (- p) in
  let b := if 0 <=? p then den * 10 ^ p else den in
  let lo := a / b in
  let ok d := bool_decide (round_decimal false d p = x) in
  let below := 2 * (a mod b) <? b in
  match fuel with
  | O => (lo, k, n)
  | S fuel' =>
      let first := if below then lo else lo + 1 in
      let second := if below then lo + 1 else lo in
      let pick d := if d =? 10 ^ k then (1, 1, n + 1) else (d, k, n) in
      if ok first then pick first
      else if ok second then pick second
      else shortest fuel' x num den n (k + 1)
  end.

Fixpoint zeros (n : nat) : string :=
  match n with O => "" | S n' => String "0" (zeros n') end%string.

(** Digits [s] ([k] of them) with the point after the first [n], as ECMAScript writes it. *)
Definition format_digits (s : string) (k n : Z) : string :=
  if (k <=? n) && (n <=? 21) then s +:+ zeros (Z.to_nat (n - k))
  else if (0 <? n) && (n <=? 21) then
    slice_to (Z.to_nat n) s +:+ "." +:+ String.substring (Z.to_nat n) (Z.to_nat (k - n)) s
  else if (-6 <? n) && (n <=? 0) then "0." +:+ zeros (Z.to_nat (- n)) +:+ s
  else
    let e := n - 1 in
    let sgn := if e <? 0 then "-" else "+" in
    (if k =? 1 then s
     else slice_to 1 s +:+ "." +:+ String.substring 1 (Z.to_nat (k - 1)) s)
    +:+ "e" +:+ sgn +:+ pretty (Z.abs e).

Definition print_finite (m : positive) (e : Z) : string :=
  let num := Zpos m * 2 ^ Z.max e 0 in
  let den := 2 ^ Z.max (- e) 0 in
  let n := magnitude 5 num den ((Zpos (digits2_pos m) + e - 1) * 30103 / 100000 - 1) in
  let '(d, k, n') := shortest 17 (S754_finite false m e) num den n 1 in
  format_digits (pretty d) k n'.

(** [String(x)] *)
Definition String_num (x : number) : string :=
  match x with
  | S754_zero _ => "0"
  | S754_infinity s => if s then "-Infinity" else "Infinity"
  | S754_nan => "NaN"
  | S754_finite s m e => (if s then "-" else "") +:+ print_finite m e
  end%string.

(** ** [x.toFixed(f)] *)

(** The integer nearest to [m * 2^e * 10^f], the larger of two. *)
Definition scaled_round (m : positive) (e : Z) (f : nat) : Z :=
  let num := Zpos m * 2 ^ Z.max e 0 * 10 ^ Z.of_nat f in
  let den := 2 ^ Z.max (- e) 0 in
  (2 * num + den) / (2 * den).

Definition fixed_text (d : Z) (f : nat) : string :=
  match f with
  | O => pretty d
  | _ =>
      let t := pretty d in
      let t := zeros (S f - String.length t) +:+ t in
      slice_to (String.length t - f) t +:+ "." +:+ String.substring (String.length t - f) f t
  end%string.

Definition toFixed (x : number) (f : nat) : string :=
  match x with
  | S754_zero _ => fixed_text 0 f
  | S754_finite s m e =>
      if num_leb (num_of_Z (10 ^ 21)) (S754_finite false m e) then String_num x
      else (if s then "-" else "") +:+ fixed_text (scaled_round m e f) f
  | _ => String_num x
  end%string.

(** [Number.isInteger(x)] *)
Definition isInteger (x : number) : bool :=
  match x with
  | S754_zero _ => true
  | S754_finite _ m e => (0 <=? e) || (Zpos m mod 2 ^ (- e) =? 0)
  | _ => false
  end.

(** [Math.floor(x)] *)
Definition math_floor (x : number) : number :=
  match x with
  | S754_finite s m e =>
      if isInteger x then x
      else binary_normalize prec emax (cond_Zopp s (Zpos m) / 2 ^ (- e)) 0 false
  | _ => x
  end.

(** [Math.ceil(x)] *)
Definition math_ceil (x : number) : number := SFopp (math_floor (SFopp x)).

(** [Math.min] of two numbers *)
Definition math_min (a b : number) : number := SFopp (math_max (SFopp a) (SFopp b)).

(** The integer a number truncates to. *)
Definition trunc_Z (x : number) : Z :=
  match x with
  | S754_finite s m e => cond_Zopp s (if 0 <=? e then Zpos m * 2 ^ e else Zpos m / 2 ^ (- e))
  | _ => 0
  end.

(** Counters are integers. *)
Lemma isInteger_nat (n : nat) : Z.of_nat n < 2 ^ 53 → isInteger (num_of_Z (Z.of_nat n)) = true.
Proof.
  intros Hn. destruct (Z.of_nat n) as [|p|p] eqn:E; [done| |lia].
  destruct (num_of_pos_exact p Hn) as (m & e & -> & He & Hm & _). simpl.
  apply orb_true_iff. right. rewrite Hm, Z.mod_mul; [done|].
  apply Z.pow_nonzero; lia.
Qed.

Lemma num_of_nat_nonneg (n : nat) :
  Z.of_nat n < 2 ^ 53 → num_leb num_zero (num_of_Z (Z.of_nat n)) = true ∧
                        num_of_Z (Z.of_nat n) ≠ S754_zero true.
Proof.
  intros Hn. destruct (Z.of_nat n) as [|p|p] eqn:E; [done| |lia].
  by destruct (num_of_pos_exact p Hn) as (m & e & -> & _).
Qed.

Example number_half : String_num (Number_str " 0.50 ") = "0.5".
Proof. vm_compute. reflexivity. Qed.
Example number_tenth : String_num (num_add (Number_str "0.1") (Number_str "0.2"))
  = "0.30000000000000004".
Proof. vm_compute. reflexivity. Qed.
Example number_1e21 : String_num (Number_str "1000000000000000000000") = "1e+21".
Proof. vm_compute. reflexivity. Qed.
Example number_1e23 : String_num (Number_str "1e23") = "1e+23".
Proof. vm_compute. reflexivity. Qed.
Example number_tiny : String_num (Number_str "0.000000000001") = "1e-12".
Proof. vm_compute. reflexivity. Qed.
Example number_micro : String_num (Number_str "123e-8") = "0.00000123".
Proof. vm_compute. reflexivity. Qed.
Example number_min : String_num (Number_str "5e-324") = "5e-324".
Proof. vm_compute. reflexivity. Qed.
Example number_max : String_num (Number_str "1.7976931348623157e308") = "1.7976931348623157e+308".
Proof. vm_compute. reflexivity. Qed.
Example number_overflow : Number_str "1.8e308" = S754_infinity false.
Proof. vm_compute. reflexivity. Qed.
Example number_hex : Number_str "0x1F" = num_of_Z 31.
Proof. vm_compute. reflexivity. Qed.
Example number_junk : Number_str "12px" = S754_nan.
Proof. vm_compute. reflexivity. Qed.
Example parseFloat_px : parseFloat "-12.5px" = num_div (num_of_Z (-25)) (num_of_Z 2).
Proof. vm_compute. reflexivity. Qed.
Example fixed_tie : toFixed (Number_str "2.5") 0 = "3".
Proof. vm_compute. reflexivity. Qed.
Example fixed_binary : toFixed (Number_str "1.005") 2 = "1.00".
Proof. vm_compute. reflexivity. Qed.
Example fixed_negative : toFixed (Number_str "-1.5") 3 = "-1.500".
Proof. vm_compute. reflexivity. Qed.
Example floor_negative : math_floor (Number_str "-1.5") = num_of_Z (-2).
Proof. vm_compute. reflexivity. Qed.
