(* ===== verification/JsDigits.v ===== *)
(** * Decimal digits

    Texts as lists of characters, and what regular expressions, [BigInt], [padStart] and
    [trim] do to decimal digits: a natural number prints as digits of its value, and digits
    put together have the value one expects. *)

From Stdlib Require Import Ascii.
From stdpp Require Import pretty.
From S2P Require Import Prelude JsString JsDecimal.

Local Open Scope Z_scope.

Notation chars := String.list_ascii_of_string.
Notation text := String.string_of_list_ascii.

Definition is_digit (c : ascii) : bool := if digit_value c then true else false.

(** The longest prefix of digits, and the rest. *)
Fixpoint span_digits (l : list ascii) : list ascii * list ascii :=
  match l with
  | c :: l' => if is_digit c then let '(d, r) := span_digits l' in (c :: d, r) else ([], l)
  | [] => ([], [])
  end.

(** [BigInt(digits)] and [Number(digits)] on decimal digits. *)
Definition digits_value (l : list ascii) : Z :=
  fold_left (λ acc c, acc * 10 + default 0 (digit_value c)) l 0.

Definition minus_char : ascii := "-"%char.
Definition dot_char : ascii := "."%char.
Definition zero_char : ascii := "0"%char.

Definition split_sign (l : list ascii) : bool * list ascii :=
  match l with
  | c :: l' => if decide (c = minus_char) then (true, l') else (false, l)
  | [] => (false, [])
  end.

(** [/^(\d+)(?:\.(\d+))?/]: whole digits, fraction digits, what follows. *)
Definition match_decimal (l : list ascii) : option (list ascii * list ascii * list ascii) :=
  match span_digits l with
  | ([], _) => None
  | (whole, c :: r) =>
      if decide (c = dot_char) then
        match span_digits r with
        | ([], _) => Some (whole, [], c :: r)
        | (fraction, r') => Some (whole, fraction, r')
        end
      else Some (whole, [], c :: r)
  | (whole, []) => Some (whole, [], [])
  end.

(** [text.padStart(n, "0")] *)
Definition padStart (n : nat) (l : list ascii) : list ascii :=
  replicate (n - length l) zero_char ++ l.

(** ** Values *)

Lemma digits_value_app l1 l2 :
  digits_value (l1 ++ l2) = digits_value l1 * 10 ^ Z.of_nat (length l2) + digits_value l2.
Proof.
  unfold digits_value. rewrite fold_left_app. generalize (fold_left (λ acc c, acc * 10 + default 0 (digit_value c)) l1 0).
  assert (∀ l z, fold_left (λ acc c, acc * 10 + default 0 (digit_value c)) l z
                 = z * 10 ^ Z.of_nat (length l)
                   + fold_left (λ acc c, acc * 10 + default 0 (digit_value c)) l 0) as H.
  { induction l as [|c l IH]; intros z; cbn [fold_left length]; [simpl; lia|].
    rewrite (IH (z * 10 + _)), (IH (0 * 10 + _)), Nat2Z.inj_succ, Z.pow_succ_r by lia. lia. }
  intros z. apply H.
Qed.

Lemma digits_value_zeros n : digits_value (replicate n zero_char) = 0.
Proof. induction n as [|n IH]; [done|]. exact IH. Qed.

Lemma digits_zeros_l n l : digits_value (replicate n zero_char ++ l) = digits_value l.
Proof. rewrite digits_value_app, digits_value_zeros. lia. Qed.

Lemma digits_zeros_r n l :
  digits_value (l ++ replicate n zero_char) = digits_value l * 10 ^ Z.of_nat n.
Proof. rewrite digits_value_app, digits_value_zeros, length_replicate. lia. Qed.

Definition all_digits (l : list ascii) : Prop := Forall (λ c, is_digit c = true) l.

Lemma span_digits_app l r :
  all_digits l → match r with c :: _ => is_digit c = false | [] => True end →
  span_digits (l ++ r) = (l, r).
Proof.
  intros Hl Hr. induction Hl as [|c l Hc _ IH]; simpl.
  - destruct r as [|c r]; [done|]. simpl. by rewrite Hr.
  - by rewrite Hc, IH.
Qed.

Lemma all_digits_zeros n : all_digits (replicate n zero_char).
Proof. apply Forall_replicate. done. Qed.

Lemma digit_char_value (x : N) :
  (x < 10)%N → digit_value (pretty_N_char x) = Some (Z.of_N x).
Proof.
  intros Hx. destruct x as [|p]; [done|].
  destruct p as [[[|p|]|[|p|]|]|[[|p|]|[|p|]|]|]; try done; try lia; destruct p; try done; lia.
Qed.

(** A natural number prints as its digits. *)
Lemma pretty_N_go_digits (x : N) (s : string) :
  ∃ l, chars (pretty_N_go x s) = l ++ chars s ∧ all_digits l ∧ digits_value l = Z.of_N x.
Proof.
  revert s. induction (N.lt_wf_0 x) as [x _ IH]. intros s.
  destruct (decide (0 < x)%N) as [Hx|Hx].
  - rewrite pretty_N_go_step by done.
    destruct (IH (x / 10)%N (N.div_lt x 10 Hx eq_refl) (String (pretty_N_char (x mod 10)) s))
      as (l & -> & Hl & Hv).
    exists (l ++ [pretty_N_char (x mod 10)]).
    assert (x mod 10 < 10)%N as Hm by (by apply N.mod_lt).
    split_and!.
    + by rewrite <-app_assoc.
    + apply Forall_app. split; [done|]. constructor; [|done].
      unfold is_digit. by rewrite digit_char_value.
    + rewrite digits_value_app, Hv. unfold digits_value. simpl.
      rewrite digit_char_value by done. simpl. pose proof (N.div_mod x 10). lia.
  - assert (x = 0%N) as -> by lia. exists [].
    rewrite pretty_N_go_0. split_and!; [done|constructor|done].
Qed.

Lemma pretty_nonneg (z : Z) :
  0 ≤ z → ∃ l, chars (pretty z) = l ∧ all_digits l ∧ digits_value l = z ∧ l ≠ [].
Proof.
  intros Hz. destruct z as [|p|p]; [|clear Hz|lia].
  - exists [zero_char]. split_and!; [done| |done|done]. constructor; done.
  - change (pretty (Z.pos p)) with (pretty_N_go (Npos p) "").
    destruct (pretty_N_go_digits (Npos p) "") as (l & -> & Hl & Hv).
    exists l. rewrite app_nil_r. split_and!; [done|done|done|]. intros ->. done.
Qed.

Lemma text_chars s : text (chars s) = s.
Proof. apply String.string_of_list_ascii_of_string. Qed.
Lemma chars_text l : chars (text l) = l.
Proof. apply String.list_ascii_of_string_of_list_ascii. Qed.

(** ** Signs and white space *)

Lemma all_digits_app l1 l2 : all_digits (l1 ++ l2) ↔ all_digits l1 ∧ all_digits l2.
Proof. apply Forall_app. Qed.

Lemma digit_not_sign c : is_digit c = true → c ≠ minus_char ∧ c ≠ dot_char ∧ c ≠ "e"%char ∧ c ≠ "E"%char.
Proof. intros H. split_and!; intros ->; done. Qed.

Lemma split_sign_digits l : all_digits l → l ≠ [] → split_sign l = (false, l).
Proof.
  intros Hl Hn. destruct Hl as [|c l Hc _]; [done|]. simpl.
  by rewrite decide_False by apply digit_not_sign, Hc.
Qed.

Lemma split_sign_text (neg : bool) body :
  body ≠ [] → all_digits [default zero_char (head body)] →
  split_sign (if neg then minus_char :: body else body) = (neg, body).
Proof.
  intros Hn Hd. destruct neg; simpl; [done|]. destruct body as [|c body]; [done|].
  simpl. inversion Hd; subst. by rewrite decide_False by by apply digit_not_sign.
Qed.

(** A text without an exponent is left alone. *)
Lemma match_decimal_body whole fraction :
  all_digits whole → whole ≠ [] → all_digits fraction →
  match_decimal (match fraction with [] => whole | _ => whole ++ [dot_char] ++ fraction end)
  = Some (whole, fraction, []).
Proof.
  intros Hw Hn Hf. unfold match_decimal. destruct whole as [|w whole]; [done|].
  destruct fraction as [|f fraction].
  - rewrite <-(app_nil_r (w :: whole)) at 1. by rewrite span_digits_app.
  - rewrite span_digits_app by done. simpl app. cbv iota.
    rewrite decide_True by done. rewrite <-(app_nil_r (f :: fraction)) at 1.
    by rewrite span_digits_app.
Qed.

(** White space and digits. *)
Lemma trim_start_id c s :
  is_digit c = true ∨ c = minus_char → trim_start (String c s) = String c s.
Proof.
  intros Hc. cbn [trim_start]. cbv zeta.
  replace ((nat_of_ascii c =? 32)%nat || ((9 <=? nat_of_ascii c)%nat && (nat_of_ascii c <=? 13)%nat))
    with false; [done|]. symmetry.
  destruct Hc as [Hc| ->]; [|done]. unfold is_digit, digit_value in Hc.
  destruct ((48 <=? Z.of_nat (nat_of_ascii c)) && _) eqn:E; [|done].
  apply andb_true_iff in E as [E1%Z.leb_le E2%Z.leb_le].
  apply orb_false_iff. split; [apply Nat.eqb_neq; lia|].
  apply andb_false_iff. right. apply Nat.leb_gt. lia.
Qed.

Lemma rev_string_chars s acc : chars (rev_string s acc) = rev (chars s) ++ chars acc.
Proof.
  revert acc; induction s as [|c s IH]; intros acc; simpl; [done|].
  by rewrite IH, <-app_assoc.
Qed.

(** [l] starts and ends with a digit (or starts with a sign). *)
Lemma trim_text l c1 c2 mid :
  l = c1 :: mid → (∃ pre, l = pre ++ [c2]) →
  is_digit c1 = true ∨ c1 = minus_char → is_digit c2 = true →
  chars (trim (text l)) = l.
Proof.
  intros Hl [pre Hp] H1 H2. unfold trim.
  assert (trim_start (text l) = text l) as -> by (rewrite Hl; by apply trim_start_id).
  assert (rev_string (text l) "" = String c2 (text (rev pre))) as ->.
  { rewrite <-(text_chars (rev_string (text l) "")), rev_string_chars, chars_text, Hp.
    by rewrite rev_app_distr, app_nil_r. }
  rewrite trim_start_id by by left.
  rewrite rev_string_chars. simpl. rewrite chars_text, rev_involutive, app_nil_r. done.
Qed.

Definition decimal_body (whole fraction : list ascii) : list ascii :=
  match fraction with [] => whole | _ => whole ++ [dot_char] ++ fraction end.

Lemma decimal_body_last whole fraction :
  all_digits whole → whole ≠ [] → all_digits fraction →
  ∃ pre c, decimal_body whole fraction = pre ++ [c] ∧ is_digit c = true.
Proof.
  intros Hw Hn Hf. destruct (exists_last (l := whole ++ fraction)) as (pre & c & E).
  { by destruct whole. }
  assert (is_digit c = true) as Hc.
  { assert (all_digits (pre ++ [c])) as H by (rewrite <-E; by apply all_digits_app).
    apply all_digits_app in H as [_ H]. by inversion H. }
  unfold decimal_body. destruct fraction as [|f fraction].
  - rewrite app_nil_r in E. by exists pre, c.
  - destruct (exists_last (l := f :: fraction)) as (pre' & c' & E'); [done|].
    rewrite E', app_assoc in E. apply app_inj_tail in E as [_ ->].
    exists (whole ++ [dot_char] ++ pre'), c. rewrite E'. by rewrite <-!app_assoc.
Qed.
