(* ===== verification/JsValue.v ===== *)
(** * JavaScript values of unknown shape

    What the sources receive as [unknown]: parsed JSON, decoded MessagePack, arguments
    from outside. Property access, [Number(v)], [String(v)] and [JSON.stringify(v)] on
    such values. Arrays are dense and objects keep the order of their properties. *)

From Stdlib Require Import SpecFloat Ascii.
From stdpp Require Import pretty.
From S2P Require Import Prelude JsNumber JsString JsDecimal.

Local Open Scope Z_scope.

(** [JOther] is an object that is neither an array nor a plain object (bytes, a date):
    the sources only ever convert it, so it is known by its number and its text. *)
Inductive jsval :=
| JUndef
| JNull
| JBool (b : bool)
| JNum (n : number)
| JStr (s : string)
| JArr (l : list jsval)
| JObj (fields : list (string * jsval))
| JOther (n : number) (s : string).

(** [o[name]] on a list of properties: the last one written wins, as in [JSON.parse]. *)
Fixpoint field (fields : list (string * jsval)) (name : string) : jsval :=
  match fields with
  | [] => JUndef
  | (k, v) :: rest =>
      if bool_decide (k = name ∧ name ∉ rest.*1) then v else field rest name
  end.

(** [v?.name] for the data properties of JSON values. *)
Definition prop (v : jsval) (name : string) : jsval :=
  match v with JObj fields => field fields name | _ => JUndef end.

(** [l[i]] on an array of values. *)
Definition at_index (l : list jsval) (i : nat) : jsval := default JUndef (l !! i).

(** [!v] is the negation of this. *)
Definition truthy (v : jsval) : bool :=
  match v with
  | JUndef | JNull => false
  | JBool b => b
  | JNum n => match n with S754_zero _ | S754_nan => false | _ => true end
  | JStr s => truthy_str s
  | JArr _ | JObj _ | JOther _ _ => true
  end.

(** [typeof v === "object"] *)
Definition is_object (v : jsval) : bool :=
  match v with JNull | JArr _ | JObj _ | JOther _ _ => true | _ => false end.

(** [l.join(sep)] on strings *)
Definition join (sep : string) (l : list string) : string := String.concat sep l.

(** [String(v)] *)
Fixpoint String_val (v : jsval) : string :=
  match v with
  | JUndef => "undefined"
  | JNull => "null"
  | JBool b => if b then "true" else "false"
  | JNum n => String_num n
  | JStr s => s
  | JArr l => join "," (map (λ x, match x with JUndef | JNull => "" | _ => String_val x end) l)
  | JObj _ => "[object Object]"
  | JOther _ s => s
  end.

(** [Number(v)] *)
Definition Number_val (v : jsval) : number :=
  match v with
  | JUndef => S754_nan
  | JNull => num_zero
  | JBool b => if b then num_one else num_zero
  | JNum n => n
  | JStr s => Number_str s
  | JArr _ => Number_str (String_val v)
  | JObj _ => S754_nan
  | JOther n _ => n
  end.

(** ** [JSON.stringify] *)

Definition dquote : string := String (ascii_of_nat 34) "".

Definition hex_digit (n : nat) : ascii :=
  ascii_of_nat (if decide (n < 10)%nat then 48 + n else 87 + n).

Definition json_char (c : ascii) : string :=
  let n := nat_of_ascii c in
  if decide (n = 34%nat) then String "\" dquote
  else if decide (n = 92%nat) then "\\"
  else if decide (n = 8%nat) then "\b"
  else if decide (n = 9%nat) then "\t"
  else if decide (n = 10%nat) then "\n"
  else if decide (n = 12%nat) then "\f"
  else if decide (n = 13%nat) then "\r"
  else if decide (n < 32)%nat then
    "\u00" +:+ String (hex_digit (n / 16)) (String (hex_digit (n mod 16)) "")
  else String c "".

Fixpoint json_chars (s : string) : string :=
  match s with
  | "" => ""
  | String c s' => json_char c +:+ json_chars s'
  end%string.

Definition json_string (s : string) : string := dquote +:+ json_chars s +:+ dquote.

(** [JSON.stringify(v)], [None] being [undefined]. An undefined array element is written
    [null], an undefined property is left out; of the other objects only dates, which are
    written as their text, reach it. *)
Fixpoint JSON_stringify (v : jsval) : option string :=
  match v with
  | JUndef => None
  | JNull => Some "null"
  | JBool b => Some (if b then "true" else "false")
  | JNum n => Some (if isFinite n then String_num n else "null")
  | JStr s => Some (json_string s)
  | JArr l => Some ("[" +:+ join "," (map (λ x, default "null" (JSON_stringify x)) l) +:+ "]")
  | JObj fields =>
      Some ("{" +:+ join "," (omap (λ '(k, x), (λ t, json_string k +:+ ":" +:+ t)
                                 <$> JSON_stringify x) fields) +:+ "}")
  | JOther _ s => Some (json_string s)
  end.

Example stringify_nested :
  JSON_stringify (JObj [("a", JArr [JNum num_one; JUndef]); ("b", JUndef); ("c", JStr "x")])
  = Some ("{" +:+ json_string "a" +:+ ":[1,null]," +:+ json_string "c" +:+ ":" +:+
          json_string "x" +:+ "}").
Proof. vm_compute. reflexivity. Qed.
Example number_of_array : Number_val (JArr [JStr "5"]) = num_of_Z 5.
Proof. vm_compute. reflexivity. Qed.
