(* ===== verification/DepthCodec.v ===== *)
(** * Compressed depth documents ([services/orderBookDepthCompression.ts])

    The codec of the per-market depth cache: a ten byte header (magic, version, flags,
    payload length) and a MessagePack payload in columns. The MessagePack library is the
    class [MsgPack]; bytes, header, columns and every check are modelled. Proved: what is
    encoded decodes to the same document, whatever decodes is a well-formed document, and
    no truncated, extended or foreign payload decodes. *)

From Stdlib Require Import SpecFloat Strings.Byte Ascii.
From stdpp Require Import pretty.
From S2P Require Import Prelude JsNumber JsString JsDecimal JsValue.

Local Open Scope Z_scope.

(** ** Documents *)

Record DepthLevel := mkDepthLevel {
  dl_price : string;
  dl_volume : string;
  dl_cumulativeVolume : string;
  dl_orderCount : number;
}.

Record OrderDepth := mkDepth {
  market : string;
  tickSize : string;
  bids : list DepthLevel;
  asks : list DepthLevel;
  generatedAt : string;
}.

Definition level_js (l : DepthLevel) : jsval :=
  JObj [("price", JStr (dl_price l)); ("volume", JStr (dl_volume l));
        ("cumulativeVolume", JStr (dl_cumulativeVolume l));
        ("orderCount", JNum (dl_orderCount l))].

(** The document as the JavaScript object it is. *)
Definition depth_js (d : OrderDepth) : jsval :=
  JObj [("market", JStr (market d)); ("tickSize", JStr (tickSize d));
        ("bids", JArr (map level_js (bids d))); ("asks", JArr (map level_js (asks d)));
        ("generatedAt", JStr (generatedAt d))].

(** ** The MessagePack library

    [encode] refuses values nested too deeply; [decode] throws on malformed bytes. A value
    of strings, numbers and arrays decodes to itself, except that the library writes
    integers as integers, so that [-0] comes back as [0]. *)

Definition plus_zero_num (n : number) : number :=
  if bool_decide (n = S754_zero true) then num_zero else n.

Fixpoint plus_zero (v : jsval) : jsval :=
  match v with
  | JNum n => JNum (plus_zero_num n)
  | JArr l => JArr (map plus_zero l)
  | _ => v
  end.

Fixpoint packable (depth : nat) (v : jsval) : bool :=
  match depth with
  | O => false
  | S depth' =>
      match v with
      | JNum _ | JStr _ => true
      | JArr l => forallb (packable depth') l
      | _ => false
      end
  end.

Class MsgPack := {
  mp_encode : jsval → exc (list byte);
  mp_decode : list byte → exc jsval;
  mp_roundtrip v : packable 100 v = true →
    ∃ bytes, mp_encode v = Ok bytes ∧ mp_decode bytes = Ok (plus_zero v);
}.

(** ** Buffers *)

Definition byte_of (z : Z) : byte := default x00 (Byte.of_N (Z.to_N (z mod 256))).
Definition byte_val (b : byte) : Z := Z.of_N (Byte.to_N b).

Definition Buffer_alloc (n : nat) : list byte := replicate n x00.

(** [buf.write] and the other writers: the bytes at an offset. *)
Definition buf_write (buf bytes : list byte) (offset : nat) : list byte :=
  take offset buf ++ bytes ++ drop (offset + length bytes) buf.

Definition u32be (n : Z) : list byte :=
  [byte_of (n / 2 ^ 24); byte_of (n / 2 ^ 16); byte_of (n / 2 ^ 8); byte_of n].

Definition writeUInt32BE (buf : list byte) (n : Z) (offset : nat) : exc (list byte) :=
  if bool_decide (0 ≤ n < 2 ^ 32) then Ok (buf_write buf (u32be n) offset)
  else Throw (mk_error "The value of value is out of range." (Some "ERR_OUT_OF_RANGE") None).

Definition readUInt8 (buf : list byte) (offset : nat) : Z :=
  byte_val (nth offset buf x00).

Definition readUInt32BE (buf : list byte) (offset : nat) : Z :=
  readUInt8 buf offset * 2 ^ 24 + readUInt8 buf (offset + 1) * 2 ^ 16
  + readUInt8 buf (offset + 2) * 2 ^ 8 + readUInt8 buf (offset + 3).

(** [buf.toString("latin1", 0, n)] *)
Definition latin1 (buf : list byte) : string := String.string_of_list_byte buf.

(** ** Encoding *)

Definition ORDER_BOOK_DEPTH_MAGIC : string := "SFD1".
Definition ORDER_BOOK_DEPTH_FORMAT_VERSION : Z := 1.
Definition HEADER_OFFSET_VERSION : nat := String.length ORDER_BOOK_DEPTH_MAGIC.
Definition HEADER_OFFSET_PAYLOAD_LENGTH : nat := String.length ORDER_BOOK_DEPTH_MAGIC + 2.
Definition HEADER_SIZE : nat := String.length ORDER_BOOK_DEPTH_MAGIC + 1 + 1 + 4.
Definition SIDE_COLUMN_COUNT : nat := 4.
Definition PAYLOAD_FIELD_COUNT : nat := 5.

Definition OrderBookDepthCodecError {A} (message : string) : exc A :=
  Throw (Error message).

Definition toEncodableText (value : jsval) (fld : string) : exc string :=
  match value with
  | JStr s => if truthy_str s then Ok s
              else OrderBookDepthCodecError (fld +:+ " must be a non-empty decimal string")
  | JNum n => if isFinite n then Ok (String_num n)
              else OrderBookDepthCodecError (fld +:+ " must be a non-empty decimal string")
  | _ => OrderBookDepthCodecError (fld +:+ " must be a non-empty decimal string")
  end.

(** [toOrderCount] and [decodeOrderCount], which are the same function. *)
Definition toOrderCount (value : jsval) (fld : string) : exc number :=
  match value with
  | JNum n => if isInteger n && num_leb num_zero n then Ok n
              else OrderBookDepthCodecError (fld +:+ " must be a non-negative integer")
  | _ => OrderBookDepthCodecError (fld +:+ " must be a non-negative integer")
  end.

Definition encodeDecimal (value : string) : jsval :=
  let numeric := Number_str value in
  if isFinite numeric && bool_decide (String_num numeric = value) then JNum numeric
  else JStr value.

(** [`${side}[${index}]`] *)
Definition level_path (side : string) (index : nat) : string :=
  side +:+ "[" +:+ pretty index +:+ "]".

Record columns := mkColumns {
  col_prices : list jsval;
  col_volumes : list jsval;
  col_cumulative : list jsval;
  col_counts : list jsval;
}.

(** The body of [levels.forEach]. *)
Definition push_level (side : string) (index : nat) (level : jsval) (c : columns)
    : exc columns :=
  let path := level_path side index in
  price ← toEncodableText (prop level "price") (path +:+ ".price");
  volume ← toEncodableText (prop level "volume") (path +:+ ".volume");
  cumulative ← toEncodableText (prop level "cumulativeVolume") (path +:+ ".cumulativeVolume");
  count ← toOrderCount (prop level "orderCount") (path +:+ ".orderCount");
  Ok (mkColumns (col_prices c ++ [encodeDecimal price]) (col_volumes c ++ [encodeDecimal volume])
        (col_cumulative c ++ [encodeDecimal cumulative]) (col_counts c ++ [JNum count])).

Fixpoint push_levels (side : string) (index : nat) (levels : list jsval) (c : columns)
    : exc columns :=
  match levels with
  | [] => Ok c
  | level :: rest => c' ← push_level side index level c; push_levels side (S index) rest c'
  end.

Definition columns_js (c : columns) : jsval :=
  JArr [JArr (col_prices c); JArr (col_volumes c); JArr (col_cumulative c); JArr (col_counts c)].

Definition encodeSide (levels : jsval) (side : string) : exc jsval :=
  match levels with
  | JArr l => c ← push_levels side 0 l (mkColumns [] [] [] []); Ok (columns_js c)
  | _ => OrderBookDepthCodecError (side +:+ " must be an array of depth levels")
  end.

Definition encodePayload (depth : jsval) : exc jsval :=
  if negb (truthy depth) || negb (is_object depth)
  then OrderBookDepthCodecError "depth must be an order book depth object"
  else
    market ← toEncodableText (prop depth "market") "market";
    tick ← toEncodableText (prop depth "tickSize") "tickSize";
    generated ← toEncodableText (prop depth "generatedAt") "generatedAt";
    b ← encodeSide (prop depth "bids") "bids";
    a ← encodeSide (prop depth "asks") "asks";
    Ok (JArr [JStr market; JStr tick; JStr generated; b; a]).

Definition encode_header (payload_length : nat) : exc (list byte) :=
  let header := Buffer_alloc HEADER_SIZE in
  let header := buf_write header (String.list_byte_of_string ORDER_BOOK_DEPTH_MAGIC) 0 in
  let header := buf_write header [byte_of ORDER_BOOK_DEPTH_FORMAT_VERSION]
                  HEADER_OFFSET_VERSION in
  let header := buf_write header [byte_of 0] (HEADER_OFFSET_VERSION + 1) in
  writeUInt32BE header (Z.of_nat payload_length) HEADER_OFFSET_PAYLOAD_LENGTH.

(** ** Decoding *)

Definition decodeDecimal (value : jsval) (fld : string) : exc string :=
  match value with
  | JNum n => if isFinite n then Ok (String_num n)
              else OrderBookDepthCodecError (fld +:+ " is not a finite number")
  | JStr s => if truthy_str s then Ok s
              else OrderBookDepthCodecError (fld +:+ " must be a number or a decimal string")
  | _ => OrderBookDepthCodecError (fld +:+ " must be a number or a decimal string")
  end.

Definition decodeText (value : jsval) (fld : string) : exc string :=
  match value with
  | JStr s => if truthy_str s then Ok s
              else OrderBookDepthCodecError (fld +:+ " must be a non-empty string")
  | _ => OrderBookDepthCodecError (fld +:+ " must be a non-empty string")
  end.

Definition asColumn (value : jsval) (fld : string) : exc (list jsval) :=
  match value with
  | JArr l => Ok l
  | _ => OrderBookDepthCodecError (fld +:+ " must be an array")
  end.

Definition decode_level (side : string) (prices volumes cumulative counts : list jsval)
    (index : nat) : exc DepthLevel :=
  let path := level_path side index in
  price ← decodeDecimal (at_index prices index) (path +:+ ".price");
  volume ← decodeDecimal (at_index volumes index) (path +:+ ".volume");
  cumulativeVolume ← decodeDecimal (at_index cumulative index) (path +:+ ".cumulativeVolume");
  orderCount ← toOrderCount (at_index counts index) (path +:+ ".orderCount");
  Ok (mkDepthLevel price volume cumulativeVolume orderCount).

Definition decodeSide (value : jsval) (side : string) : exc (list DepthLevel) :=
  match value with
  | JArr fields =>
      if negb (bool_decide (length fields = SIDE_COLUMN_COUNT)) then
        OrderBookDepthCodecError
          (side +:+ " must be a MessagePack array of " +:+ pretty SIDE_COLUMN_COUNT +:+ " columns")
      else
        prices ← asColumn (at_index fields 0) (side +:+ ".prices");
        volumes ← asColumn (at_index fields 1) (side +:+ ".volumes");
        cumulative ← asColumn (at_index fields 2) (side +:+ ".cumulativeVolumes");
        counts ← asColumn (at_index fields 3) (side +:+ ".orderCounts");
        if bool_decide (length volumes ≠ length prices ∨ length cumulative ≠ length prices
                        ∨ length counts ≠ length prices) then
          OrderBookDepthCodecError (side +:+ " columns must all have the same length")
        else mapM (decode_level side prices volumes cumulative counts) (seq 0 (length prices))
  | _ => OrderBookDepthCodecError
           (side +:+ " must be a MessagePack array of " +:+ pretty SIDE_COLUMN_COUNT +:+ " columns")
  end.

(** The checks on the decoded payload and the document they build. *)
Definition decode_fields (decoded : jsval) : exc OrderDepth :=
  match decoded with
  | JArr fields =>
      if negb (bool_decide (length fields = PAYLOAD_FIELD_COUNT)) then
        OrderBookDepthCodecError ("compressed depth payload must decode to a "
          +:+ pretty PAYLOAD_FIELD_COUNT +:+ " element MessagePack array")
      else
        market ← decodeText (at_index fields 0) "market";
        tick ← decodeText (at_index fields 1) "tickSize";
        generated ← decodeText (at_index fields 2) "generatedAt";
        b ← decodeSide (at_index fields 3) "bids";
        a ← decodeSide (at_index fields 4) "asks";
        Ok (mkDepth market tick b a generated)
  | _ => OrderBookDepthCodecError ("compressed depth payload must decode to a "
           +:+ pretty PAYLOAD_FIELD_COUNT +:+ " element MessagePack array")
  end.

(** The checks on the header. *)
Definition check_header (buffer : list byte) : exc unit :=
  if bool_decide (length buffer < HEADER_SIZE)%nat then
    OrderBookDepthCodecError ("compressed depth payload is truncated: expected at least "
      +:+ pretty HEADER_SIZE +:+ " header bytes, received " +:+ pretty (length buffer))
  else
  let magic := latin1 (take (String.length ORDER_BOOK_DEPTH_MAGIC) buffer) in
  if negb (bool_decide (magic = ORDER_BOOK_DEPTH_MAGIC)) then
    OrderBookDepthCodecError ("compressed depth payload has an invalid magic prefix: expected "
      +:+ dquote +:+ ORDER_BOOK_DEPTH_MAGIC +:+ dquote +:+ ", received "
      +:+ dquote +:+ magic +:+ dquote)
  else
  let version := readUInt8 buffer HEADER_OFFSET_VERSION in
  if negb (version =? ORDER_BOOK_DEPTH_FORMAT_VERSION) then
    OrderBookDepthCodecError ("unsupported compressed depth payload version: " +:+ pretty version)
  else
  let declaredLength := readUInt32BE buffer HEADER_OFFSET_PAYLOAD_LENGTH in
  let receivedLength := Z.of_nat (length buffer) - Z.of_nat HEADER_SIZE in
  if negb (declaredLength =? receivedLength) then
    OrderBookDepthCodecError ("compressed depth payload is truncated or corrupted: header declares "
      +:+ pretty declaredLength +:+ " payload bytes, received " +:+ pretty receivedLength)
  else Ok tt.

(** [isCompressedOrderDepth] takes bytes or text; on a plain [Uint8Array],
    [toString("latin1")] ignores its argument and lists the bytes in decimal. *)
Inductive cached_payload :=
| PNone
| PString (s : string)
| PBuffer (b : list byte)
| PUint8Array (b : list byte).

Definition isCompressedOrderDepth (payload : cached_payload) : bool :=
  let magic_length := String.length ORDER_BOOK_DEPTH_MAGIC in
  match payload with
  | PNone => false
  | PString s => bool_decide (slice_to magic_length s = ORDER_BOOK_DEPTH_MAGIC)
  | PBuffer b => bool_decide (latin1 (take magic_length b) = ORDER_BOOK_DEPTH_MAGIC)
  | PUint8Array b =>
      bool_decide (join "," (map (λ x, pretty (byte_val x)) (take magic_length b))
                   = ORDER_BOOK_DEPTH_MAGIC)
  end.

Section codec.
Context `{MsgPack}.

Definition encodeOrderDepth (depth : jsval) : exc (list byte) :=
  v ← encodePayload depth;
  payload ← mp_encode v;
  header ← encode_header (length payload);
  Ok (header ++ payload).

Definition decodeOrderDepth (buffer : list byte) : exc OrderDepth :=
  _ ← check_header buffer;
  match mp_decode (drop HEADER_SIZE buffer) with
  | Throw e => OrderBookDepthCodecError
      ("compressed depth payload is not valid MessagePack: " +:+ err_message e)
  | Ok decoded => decode_fields decoded
  end.
End codec.

(** ** Measurement *)

Record CompressionMeasurement := mkMeasurement {
  jsonBytes : number;
  encodedBytes : number;
  ratio : number;
  reductionPercent : number;
  meetsTarget : bool;
}.

Record CodecLatencyStats := mkLatency {
  samples : nat;
  avgMs : number;
  minMs : number;
  p50Ms : number;
  p95Ms : number;
  maxMs : number;
}.

Definition ORDER_BOOK_DEPTH_MIN_REDUCTION : number := Number_str "0.6".
Definition ORDER_BOOK_DEPTH_LATENCY_BUDGET_MS : number := Number_str "0.5".
Definition DEFAULT_BENCHMARK_ITERATIONS : number := num_of_Z 100.
Definition DEFAULT_BENCHMARK_WARMUP_ITERATIONS : number := num_of_Z 20.

Definition num_of_nat (n : nat) : number := num_of_Z (Z.of_nat n).

Definition percentile (sortedSamples : list number) (quantile : number) : number :=
  if decide (sortedSamples = []) then num_zero
  else
    let n := num_of_nat (length sortedSamples) in
    let index := math_min (num_sub n num_one)
                   (math_max num_zero (num_sub (math_ceil (num_mul quantile n)) num_one)) in
    default num_zero (sortedSamples !! Z.to_nat (trunc_Z index)).

Definition summarizeLatency (l : list number) : CodecLatencyStats :=
  let sorted := js_sort num_sub l in
  let total := num_sum sorted in
  mkLatency (length sorted)
    (if decide (sorted = []) then num_zero else num_div total (num_of_nat (length sorted)))
    (default num_zero (sorted !! 0%nat))
    (percentile sorted (Number_str "0.5")) (percentile sorted (Number_str "0.95"))
    (default num_zero (last sorted)).

Definition normalizeIterations (value : option number) (fallback : number) : exc number :=
  match value with
  | None => Ok fallback
  | Some n => if negb (isInteger n) || num_ltb n num_one
              then OrderBookDepthCodecError "benchmark iterations must be a positive integer"
              else Ok n
  end.

Record OrderBookDepthCodecBenchmark := mkBenchmark {
  iterations : number;
  bench_encode : CodecLatencyStats;
  bench_decode : CodecLatencyStats;
  compression : CompressionMeasurement;
  latencyBudgetMs : number;
  withinLatencyBudget : bool;
}.

Section measurement.
Context `{MsgPack} {T : Type} (performance_now : T → number * T).

Definition measureCompressionRatio (depth : jsval) : exc CompressionMeasurement :=
  match JSON_stringify depth with
  | None => Throw (mk_error "The string argument must be of type string" (Some "ERR_INVALID_ARG_TYPE") None)
  | Some text =>
      let jsonBytes := num_of_nat (String.length text) in
      encoded ← encodeOrderDepth depth;
      let encodedBytes := num_of_nat (length encoded) in
      let ratio := if decide (jsonBytes = num_zero) then num_zero
                   else num_div encodedBytes jsonBytes in
      let reductionPercent := num_mul (num_sub num_one ratio) (num_of_Z 100) in
      Ok (mkMeasurement jsonBytes encodedBytes ratio reductionPercent
            (num_leb (num_mul ORDER_BOOK_DEPTH_MIN_REDUCTION (num_of_Z 100)) reductionPercent))
  end.

Definition now_ms : M T number := λ h, let '(t, h') := performance_now h in (Ok t, h').

(** The timed loop, [n] iterations to go. *)
Fixpoint bench_loop (n : nat) (depth : jsval) (encodeSamples decodeSamples : list number)
    : M T (list number * list number) :=
  match n with
  | O => ret (encodeSamples, decodeSamples)
  | S n' =>
      encodeStartedAt <- now_ms ;;
      payload <- lift_exc (encodeOrderDepth depth) ;;
      t1 <- now_ms ;;
      decodeStartedAt <- now_ms ;;
      _ <- lift_exc (decodeOrderDepth payload) ;;
      t2 <- now_ms ;;
      bench_loop n' depth (encodeSamples ++ [num_sub t1 encodeStartedAt])
        (decodeSamples ++ [num_sub t2 decodeStartedAt])
  end.

Definition benchmarkOrderDepthCodec (depth : jsval) (opt_iterations opt_warmup : option number)
    (opt_budget : option number) : M T OrderBookDepthCodecBenchmark :=
  iters <- lift_exc (normalizeIterations opt_iterations DEFAULT_BENCHMARK_ITERATIONS) ;;
  warmup <- lift_exc (normalizeIterations opt_warmup DEFAULT_BENCHMARK_WARMUP_ITERATIONS) ;;
  let budget := default ORDER_BOOK_DEPTH_LATENCY_BUDGET_MS opt_budget in
  for_of (seq 0 (Z.to_nat (trunc_Z warmup))) (λ _,
    payload <- lift_exc (encodeOrderDepth depth) ;;
    lift_exc (decodeOrderDepth payload) ;;; ret tt) ;;;
  s <- bench_loop (Z.to_nat (trunc_Z iters)) depth [] [] ;;
  let enc := summarizeLatency s.1 in
  let dec := summarizeLatency s.2 in
  m <- lift_exc (measureCompressionRatio depth) ;;
  ret (mkBenchmark iters enc dec m budget
         (num_leb (avgMs enc) budget && num_leb (avgMs dec) budget &&
          num_leb (p95Ms enc) budget && num_leb (p95Ms dec) budget)).
End measurement.

(** ** The document an input describes, and when it describes one *)

Definition text_of (v : jsval) : string :=
  match v with JStr s => s | JNum n => String_num n | _ => "" end.
Definition count_of (v : jsval) : number :=
  match v with JNum n => plus_zero_num n | _ => num_zero end.
Definition level_of (v : jsval) : DepthLevel :=
  mkDepthLevel (text_of (prop v "price")) (text_of (prop v "volume"))
    (text_of (prop v "cumulativeVolume")) (count_of (prop v "orderCount")).
Definition side_of (v : jsval) : list DepthLevel :=
  match v with JArr l => map level_of l | _ => [] end.
Definition document (v : jsval) : OrderDepth :=
  mkDepth (text_of (prop v "market")) (text_of (prop v "tickSize"))
    (side_of (prop v "bids")) (side_of (prop v "asks")) (text_of (prop v "generatedAt")).

Definition is_text (v : jsval) : bool :=
  match v with JStr s => truthy_str s | JNum n => isFinite n | _ => false end.
Definition is_count (v : jsval) : bool :=
  match v with JNum n => isInteger n && num_leb num_zero n | _ => false end.
Definition is_level (v : jsval) : bool :=
  is_text (prop v "price") && is_text (prop v "volume") &&
  is_text (prop v "cumulativeVolume") && is_count (prop v "orderCount").
Definition is_side (v : jsval) : bool :=
  match v with JArr l => forallb is_level l | _ => false end.
Definition is_document (v : jsval) : bool :=
  is_text (prop v "market") && is_text (prop v "tickSize") && is_text (prop v "generatedAt")
  && is_side (prop v "bids") && is_side (prop v "asks").

(** Well-formed documents: every text is non-empty and every count a natural number. *)
Definition level_wf (l : DepthLevel) : Prop :=
  dl_price l ≠ "" ∧ dl_volume l ≠ "" ∧ dl_cumulativeVolume l ≠ "" ∧
  isInteger (dl_orderCount l) = true ∧ num_leb num_zero (dl_orderCount l) = true.
Definition depth_wf (d : OrderDepth) : Prop :=
  market d ≠ "" ∧ tickSize d ≠ "" ∧ generatedAt d ≠ "" ∧
  Forall level_wf (bids d) ∧ Forall level_wf (asks d).

(** ** Bytes *)

Lemma byte_val_of z : byte_val (byte_of z) = z mod 256.
Proof.
  unfold byte_val, byte_of. pose proof (Z.mod_pos_bound z 256).
  destruct (Byte.of_N (Z.to_N (z mod 256))) as [b|] eqn:E; simpl.
  - apply Byte.to_of_N in E. rewrite E. lia.
  - apply Byte.of_N_None_iff in E. lia.
Qed.

Definition frame (n : nat) : list byte :=
  String.list_byte_of_string ORDER_BOOK_DEPTH_MAGIC ++ [x01; x00] ++ u32be (Z.of_nat n).

Lemma encode_header_eq n :
  encode_header n = if bool_decide (Z.of_nat n < 2 ^ 32) then Ok (frame n)
                    else Throw (mk_error "The value of value is out of range."
                                  (Some "ERR_OUT_OF_RANGE") None).
Proof.
  unfold encode_header, writeUInt32BE. do 2 case_bool_decide; try lia; reflexivity.
Qed.

Lemma read_frame n rest :
  Z.of_nat n < 2 ^ 32 →
  readUInt32BE (frame n ++ rest) HEADER_OFFSET_PAYLOAD_LENGTH = Z.of_nat n.
Proof.
  intros Hn. unfold readUInt32BE, readUInt8, frame. simpl nth. rewrite !byte_val_of.
  set (z := Z.of_nat n) in *. assert (0 ≤ z) by lia. clearbody z.
  replace (z / 2 ^ 24) with (z / 256 / 256 / 256) by (rewrite !Z.div_div by lia; done).
  replace (z / 2 ^ 16) with (z / 256 / 256) by (rewrite !Z.div_div by lia; done).
  change (2 ^ 8) with 256 in *.
  pose proof (Z.div_mod z 256). pose proof (Z.div_mod (z / 256) 256).
  pose proof (Z.div_mod (z / 256 / 256) 256).
  assert (z / 256 / 256 / 256 < 256) by (do 3 (apply Z.div_lt_upper_bound; [lia|]); lia).
  assert (0 ≤ z / 256 / 256 / 256) by (repeat apply Z.div_pos; lia).
  rewrite (Z.mod_small (z / 256 / 256 / 256)) by lia. lia.
Qed.

(** The header accepts exactly as many bytes as it announces. *)
Lemma check_frame n rest :
  Z.of_nat n < 2 ^ 32 →
  is_ok (check_header (frame n ++ rest)) = bool_decide (length rest = n).
Proof.
  intros Hn. unfold check_header.
  rewrite length_app. change (length (frame n)) with HEADER_SIZE.
  rewrite (bool_decide_false (HEADER_SIZE + _ < _)%nat) by lia.
  change (latin1 (take _ (frame n ++ rest))) with ORDER_BOOK_DEPTH_MAGIC.
  rewrite (bool_decide_true (_ = ORDER_BOOK_DEPTH_MAGIC)) by done. change (readUInt8 (frame n ++ rest) _) with 1.
  rewrite read_frame by done.
  change (1 =? ORDER_BOOK_DEPTH_FORMAT_VERSION) with true. cbv beta iota zeta delta [negb].
  destruct (Z.eqb_spec (Z.of_nat n) (Z.of_nat (HEADER_SIZE + length rest) - Z.of_nat HEADER_SIZE));
    [rewrite bool_decide_true by lia|rewrite bool_decide_false by lia]; done.
Qed.

(** ** Fields *)

Lemma toEncodableText_ok v fld t :
  toEncodableText v fld = Ok t ↔ is_text v = true ∧ t = text_of v.
Proof.
  unfold toEncodableText, is_text, text_of, OrderBookDepthCodecError.
  destruct v; try naive_solver; case_match; naive_solver.
Qed.

Lemma toOrderCount_ok v fld n :
  toOrderCount v fld = Ok n ↔ is_count v = true ∧ v = JNum n.
Proof.
  unfold toOrderCount, is_count, OrderBookDepthCodecError.
  destruct v; try naive_solver; case_match; naive_solver.
Qed.

Lemma plus_zero_decimal t : plus_zero (encodeDecimal t) = encodeDecimal t.
Proof.
  unfold encodeDecimal. destruct (isFinite (Number_str t)); [|done]. simpl.
  case_bool_decide as E; [|done]. simpl. unfold plus_zero_num.
  case_bool_decide as Z; [|done]. exfalso.
  rewrite Z in E. simpl in E. subst t. revert Z. vm_compute. done.
Qed.

(** A decimal string is kept lossless. *)
Lemma decode_encodeDecimal t fld :
  t ≠ "" → decodeDecimal (plus_zero (encodeDecimal t)) fld = Ok t.
Proof.
  rewrite plus_zero_decimal. unfold encodeDecimal, decodeDecimal. intros Ht.
  destruct (isFinite (Number_str t)) eqn:F; simpl.
  - case_bool_decide as E; [by rewrite F, E|]. unfold truthy_str. by rewrite bool_decide_true.
  - unfold truthy_str. by rewrite bool_decide_true.
Qed.

Lemma isInteger_plus_zero n : isInteger (plus_zero_num n) = isInteger n.
Proof. unfold plus_zero_num. by case_bool_decide; subst. Qed.
Lemma leb_plus_zero n : num_leb num_zero (plus_zero_num n) = num_leb num_zero n.
Proof. unfold plus_zero_num. by case_bool_decide; subst. Qed.

(** Printed numbers are never empty. *)
Lemma string_app_nonempty_r (a b : string) : b ≠ "" → (a +:+ b) ≠ "".
Proof. by destruct a. Qed.
Lemma string_app_nonempty_l (a b : string) : a ≠ "" → (a +:+ b) ≠ "".
Proof. by destruct a. Qed.

Lemma pretty_N_go_nonempty (x : N) s : (0 < x)%N → pretty_N_go x s ≠ "".
Proof.
  revert s. induction (N.lt_wf_0 x) as [x _ IH]. intros s Hx.
  rewrite pretty_N_go_step by done.
  destruct (decide (x / 10 = 0)%N) as [->|]; [by rewrite pretty_N_go_0|].
  apply IH; [by apply N.div_lt|by apply N.neq_0_lt_0].
Qed.

Lemma pretty_Z_nonempty (d : Z) : pretty d ≠ "".
Proof.
  assert (∀ p, pretty (Npos p) ≠ "") as H.
  { intros p. unfold pretty, pretty_N. rewrite decide_False by done.
    by apply pretty_N_go_nonempty. }
  destruct d as [|p|p]; simpl; [done|by apply H|].
  by apply string_app_nonempty_l.
Qed.

Lemma format_digits_nonempty s k n : s ≠ "" → format_digits s k n ≠ "".
Proof.
  intros Hs. unfold format_digits. repeat case_match; try done.
  all: first [by apply string_app_nonempty_l | by apply string_app_nonempty_r].
Qed.

Lemma String_num_nonempty n : String_num n ≠ "".
Proof.
  destruct n as [?|[]| |s m e]; try done. apply string_app_nonempty_r.
  unfold print_finite. destruct (shortest _ _ _ _ _ _) as [[d k] n'].
  apply format_digits_nonempty, pretty_Z_nonempty.
Qed.

Lemma is_text_nonempty v : is_text v = true → text_of v ≠ "".
Proof.
  destruct v; simpl; try done.
  - intros _. apply String_num_nonempty.
  - unfold truthy_str. by intros H%bool_decide_eq_true.
Qed.

(** ** Columns *)

Definition count_col (v : jsval) : jsval := prop v "orderCount".

Lemma push_level_ok side i v c c' :
  push_level side i v c = Ok c' ↔
  is_level v = true ∧
  c' = mkColumns (col_prices c ++ [encodeDecimal (dl_price (level_of v))])
         (col_volumes c ++ [encodeDecimal (dl_volume (level_of v))])
         (col_cumulative c ++ [encodeDecimal (dl_cumulativeVolume (level_of v))])
         (col_counts c ++ [count_col v]).
Proof.
  unfold push_level, is_level, count_col. cbv zeta. rewrite !andb_true_iff.
  setoid_rewrite bind_Ok. setoid_rewrite toEncodableText_ok.
  setoid_rewrite bind_Ok. setoid_rewrite toEncodableText_ok.
  setoid_rewrite bind_Ok. setoid_rewrite toEncodableText_ok.
  setoid_rewrite bind_Ok. setoid_rewrite toOrderCount_ok. simpl. split.
  - intros (?&(?&->)&?&(?&->)&?&(?&->)&n&(?&Hn)&[= <-]). by rewrite Hn in *.
  - intros ([[[??]?] Hc]&->). repeat (eexists; split; [by split|]).
    revert Hc. destruct (prop v "orderCount"); try done. eauto.
Qed.

Definition app_columns (c : columns) (ls : list jsval) : columns :=
  let texts f := map (λ v, encodeDecimal (f (level_of v))) ls in
  mkColumns (col_prices c ++ texts dl_price) (col_volumes c ++ texts dl_volume)
    (col_cumulative c ++ texts dl_cumulativeVolume) (col_counts c ++ map count_col ls).

Lemma push_levels_ok side i ls c c' :
  push_levels side i ls c = Ok c' ↔ forallb is_level ls = true ∧ c' = app_columns c ls.
Proof.
  revert i c; induction ls as [|v ls IH]; intros i c; simpl.
  - unfold app_columns. simpl. rewrite !app_nil_r. destruct c; naive_solver.
  - rewrite bind_Ok, andb_true_iff. setoid_rewrite push_level_ok. setoid_rewrite IH.
    unfold app_columns. simpl. split.
    + intros (?&[? ->]&?&->). simpl. by rewrite <-!app_assoc.
    + intros [[??] ->]. eexists. split; [by split|]. simpl. by rewrite <-!app_assoc.
Qed.

Definition side_payload (v : jsval) : jsval :=
  match v with JArr l => columns_js (app_columns (mkColumns [] [] [] []) l) | _ => JUndef end.

Lemma encodeSide_ok v side p :
  encodeSide v side = Ok p ↔ is_side v = true ∧ p = side_payload v.
Proof.
  unfold encodeSide, is_side, side_payload, OrderBookDepthCodecError.
  destruct v; try naive_solver. rewrite bind_Ok. setoid_rewrite push_levels_ok. naive_solver.
Qed.

Definition payload_of (v : jsval) : jsval :=
  JArr [JStr (text_of (prop v "market")); JStr (text_of (prop v "tickSize"));
        JStr (text_of (prop v "generatedAt")); side_payload (prop v "bids");
        side_payload (prop v "asks")].

Lemma encodePayload_ok v p :
  encodePayload v = Ok p ↔ is_document v = true ∧ p = payload_of v.
Proof.
  unfold encodePayload, is_document.
  assert (negb (truthy v) || negb (is_object v) = true → is_text (prop v "market") = false).
  { destruct v; simpl; done. }
  destruct (negb (truthy v) || negb (is_object v)).
  - rewrite H by done. simpl. unfold OrderBookDepthCodecError. naive_solver.
  - clear H. rewrite !andb_true_iff. setoid_rewrite bind_Ok. setoid_rewrite toEncodableText_ok.
    setoid_rewrite bind_Ok. setoid_rewrite toEncodableText_ok.
    setoid_rewrite bind_Ok. setoid_rewrite toEncodableText_ok.
    setoid_rewrite bind_Ok. setoid_rewrite encodeSide_ok.
    setoid_rewrite bind_Ok. setoid_rewrite encodeSide_ok. unfold payload_of. split.
    + intros (?&(?&->)&?&(?&->)&?&(?&->)&?&(?&->)&?&(?&->)&[= <-]). done.
    + intros ([[[[??]?]?]?]&->). repeat (eexists; split; [by split|]). done.
Qed.

(** ** Decoding the columns *)

Lemma decode_level_at side ls i v :
  ls !! i = Some v → is_level v = true →
  let col f := map plus_zero (map (λ v, encodeDecimal (f (level_of v))) ls) in
  decode_level side (col dl_price) (col dl_volume) (col dl_cumulativeVolume)
    (map plus_zero (map count_col ls)) i = Ok (level_of v).
Proof.
  intros Hi Hv col. unfold is_level in Hv. rewrite !andb_true_iff in Hv.
  destruct Hv as [[[H1%is_text_nonempty H2%is_text_nonempty] H3%is_text_nonempty] H4].
  unfold decode_level, at_index, col. cbv zeta.
  assert (∀ (f g : jsval → jsval), map g (map f ls) !! i = Some (g (f v))) as L.
  { intros f g. by rewrite !list_lookup_fmap, Hi. }
  rewrite !L. simpl default. rewrite !decode_encodeDecimal by done. simpl.
  unfold level_of, count_of, count_col in *. destruct (prop v "orderCount"); try done.
  simpl in *. by rewrite isInteger_plus_zero, leb_plus_zero, H4.
Qed.

Lemma decodeSide_payload v side :
  is_side v = true → decodeSide (plus_zero (side_payload v)) side = Ok (side_of v).
Proof.
  destruct v as [| | | | |ls| |]; try done. intros Hs.
  unfold decodeSide, side_payload, columns_js, app_columns, at_index.
  cbn [plus_zero map app col_prices col_volumes col_cumulative col_counts].
  rewrite bool_decide_true by done.
  cbn [negb lookup list_lookup default asColumn id mbind exc_bind].
  rewrite bool_decide_false by (rewrite !length_map; naive_solver).
  apply mapM_Ok. rewrite !length_map. apply Forall2_lookup. intros i.
  change (side_of (JArr ls)) with (level_of <$> ls). rewrite list_lookup_fmap.
  destruct (ls !! i) as [v|] eqn:E.
  - rewrite lookup_seq_lt by (by eapply lookup_lt_Some). constructor.
    apply (decode_level_at _ ls i v); [done|].
    apply (proj1 (forallb_forall is_level ls) Hs), list_elem_of_In.
    by eapply list_elem_of_lookup_2.
  - rewrite lookup_seq_ge by (by apply lookup_ge_None). constructor.
Qed.

Lemma decode_payload v :
  is_document v = true → decode_fields (plus_zero (payload_of v)) = Ok (document v).
Proof.
  unfold is_document. rewrite !andb_true_iff.
  intros [[[[H1%is_text_nonempty H2%is_text_nonempty] H3%is_text_nonempty] Hb] Ha].
  unfold decode_fields, payload_of, at_index. cbn [plus_zero map].
  rewrite bool_decide_true by done. cbn [negb lookup list_lookup default id].
  unfold decodeText, truthy_str. rewrite !bool_decide_true by done. simpl.
  rewrite !decodeSide_payload by done. done.
Qed.

Lemma packable_arr n l : packable (S n) (JArr l) = forallb (packable n) l.
Proof. done. Qed.

Lemma packable_payload v : is_document v = true → packable 100 (payload_of v) = true.
Proof.
  unfold is_document. rewrite !andb_true_iff. intros [[_ Hb] Ha].
  assert (∀ t, packable 97 (encodeDecimal t) = true) as D.
  { intros t. unfold encodeDecimal. by destruct (_ && _). }
  assert (∀ s, is_side s = true → packable 99 (side_payload s) = true) as S.
  { intros [| | | | |ls| |]; try done. intros Hs.
    assert (∀ (f : jsval → jsval),
              (∀ x, x ∈ ls → is_level x = true → packable 97 (f x) = true) →
              forallb (packable 97) (map f ls) = true) as M.
    { intros f Hf. apply forallb_forall. intros ? (x & <- & Hx)%in_map_iff. apply Hf.
      - by apply list_elem_of_In.
      - by apply (proj1 (forallb_forall is_level ls) Hs). }
    unfold side_payload, columns_js, app_columns. rewrite packable_arr.
    cbn [forallb col_prices col_volumes col_cumulative col_counts app].
    rewrite !packable_arr, !M; [done|..]; intros x _ Hx; [|done..].
    unfold is_level in Hx. rewrite !andb_true_iff in Hx. destruct Hx as [_ Hx].
    unfold count_col. by destruct (prop x "orderCount"). }
  unfold payload_of. rewrite packable_arr. cbn [forallb]. by rewrite (S _ Hb), (S _ Ha).
Qed.

Section codec_theorems.
Context `{MsgPack}.

Lemma encodeOrderDepth_ok v b :
  encodeOrderDepth v = Ok b ↔
  is_document v = true ∧
  ∃ payload, mp_encode (payload_of v) = Ok payload ∧ Z.of_nat (length payload) < 2 ^ 32 ∧
             b = frame (length payload) ++ payload.
Proof.
  unfold encodeOrderDepth. rewrite bind_Ok. setoid_rewrite encodePayload_ok.
  setoid_rewrite bind_Ok. setoid_rewrite bind_Ok. setoid_rewrite encode_header_eq. split.
  - intros (?&(?&->)&payload&?&h&Hh&[= <-]). case_bool_decide; simplify_eq. eauto 10.
  - intros (?&payload&?&?&->). eexists. split; [by split|]. exists payload. split; [done|].
    rewrite bool_decide_true by done. eauto.
Qed.

Lemma decode_frame v payload :
  is_document v = true → mp_encode (payload_of v) = Ok payload →
  Z.of_nat (length payload) < 2 ^ 32 →
  decodeOrderDepth (frame (length payload) ++ payload) = Ok (document v).
Proof.
  intros Hv Hp Hn. destruct (mp_roundtrip _ (packable_payload v Hv)) as (? & E & Hd).
  rewrite Hp in E. injection E as <-. unfold decodeOrderDepth.
  pose proof (check_frame (length payload) payload Hn) as C.
  rewrite bool_decide_true in C by done. destruct (check_header _) as [[]|]; [|done]. simpl.
  change (drop _ _) with payload. rewrite Hd. by apply decode_payload.
Qed.

(** C36. Round trip of the depth codec: whatever [encodeOrderDepth] accepts, numbers in
    place of decimal strings included, [decodeOrderDepth] gives back as the document it
    describes, every decimal string character for character. *)
Theorem codec_roundtrip v b :
  encodeOrderDepth v = Ok b → decodeOrderDepth b = Ok (document v).
Proof. intros (Hv & payload & Hp & Hn & ->)%encodeOrderDepth_ok. by apply decode_frame. Qed.

(** Framing: no strict prefix of an encoded document decodes, and none decodes with
    bytes appended: the header's length makes truncation and trailing garbage errors. *)
Theorem codec_frame_exact v b b' rest :
  encodeOrderDepth v = Ok b → b' ≠ b → b' `prefix_of` b ∨ b' = b ++ rest →
  is_ok (decodeOrderDepth b') = false.
Proof.
  intros (Hv & payload & Hp & Hn & ->)%encodeOrderDepth_ok Hne Hb'.
  assert (is_ok (check_header b') = false) as C.
  { destruct (decide (length b' < HEADER_SIZE)%nat) as [Hlt|Hge].
    { unfold check_header. by rewrite bool_decide_true. }
    assert (∃ r, b' = frame (length payload) ++ r ∧ r ≠ payload ∧
                 (r `prefix_of` payload ∨ payload `prefix_of` r)) as (r & -> & Hr & Hl).
    { destruct Hb' as [Hpre| ->].
      - destruct (prefix_weak_total b' (frame (length payload)) _ Hpre
                    (prefix_app_r _ _ _ (reflexivity _))) as [Hx|[r ->]].
        + apply prefix_length in Hx as Hlen. change (length (frame _)) with HEADER_SIZE in Hlen.
          exists []. apply prefix_length_eq in Hx; [|change (length (frame _)) with HEADER_SIZE; lia].
          subst b'. rewrite app_nil_r in *. split_and!; [done| |left; apply prefix_nil].
          intros <-. by rewrite app_nil_r in Hne.
        + exists r. split_and!; [done|by intros ->|]. left. by apply prefix_app_inv in Hpre.
      - exists (payload ++ rest). rewrite <-app_assoc in *. split_and!; [done| |right].
        + intros E. apply Hne. by rewrite E.
        + by apply prefix_app_r. }
    rewrite check_frame by done. apply bool_decide_eq_false. intros Hlen. apply Hr.
    destruct Hl as [Hl|Hl]; [|symmetry]; by apply prefix_length_eq; [|lia]. }
  unfold decodeOrderDepth. destruct (check_header b'); [done|]. done.
Qed.

(** ** What a decoded document looks like *)

Lemma decodeDecimal_wf v fld t : decodeDecimal v fld = Ok t → t ≠ "".
Proof.
  unfold decodeDecimal, OrderBookDepthCodecError, truthy_str.
  destruct v; try done; case_match; intros [= <-]; [apply String_num_nonempty|].
  by case_bool_decide.
Qed.

Lemma decodeText_wf v fld t : decodeText v fld = Ok t → t ≠ "".
Proof.
  unfold decodeText, OrderBookDepthCodecError, truthy_str.
  destruct v; try done. case_bool_decide; [|done]. by intros [= <-].
Qed.

Lemma decodeSide_wf v side ls : decodeSide v side = Ok ls → Forall level_wf ls.
Proof.
  unfold decodeSide, OrderBookDepthCodecError. destruct v as [| | | | |l| |]; try done.
  case_match; [done|].
  intros (p&_&(vo&_&(cu&_&(co&_&Hl)%bind_Ok)%bind_Ok)%bind_Ok)%bind_Ok.
  case_match; [done|]. apply mapM_Ok in Hl. revert Hl. generalize (seq 0 (length p)).
  intros idx Hl. induction Hl as [|i level idx ls Hi _ IH]; constructor; [|done].
  unfold decode_level in Hi. apply bind_Ok in Hi as (? & W1%decodeDecimal_wf & Hi).
  apply bind_Ok in Hi as (? & W2%decodeDecimal_wf & Hi).
  apply bind_Ok in Hi as (? & W3%decodeDecimal_wf & Hi).
  apply bind_Ok in Hi as (n & [Hc En]%toOrderCount_ok & [= <-]).
  rewrite En in Hc. simpl in Hc. apply andb_true_iff in Hc as [??]. done.
Qed.

(** Typing of decoded documents: whatever bytes [decodeOrderDepth] accepts, the
    document it returns is well formed (non-empty texts, natural order counts). *)
Theorem decode_well_formed b d : decodeOrderDepth b = Ok d → depth_wf d.
Proof.
  unfold decodeOrderDepth. intros (_ & _ & Hd)%bind_Ok.
  destruct (mp_decode _) as [v|]; [|done]. revert Hd. unfold decode_fields.
  destruct v; try done. case_match; [done|].
  intros (m & Hm%decodeText_wf & (t & Ht%decodeText_wf & (g & Hg%decodeText_wf &
    (bi & Hb%decodeSide_wf & (a & Ha%decodeSide_wf & [= <-])%bind_Ok)%bind_Ok)
    %bind_Ok)%bind_Ok)%bind_Ok. done.
Qed.

Lemma is_text_str s : is_text (JStr s) = true ↔ s ≠ "".
Proof. apply bool_decide_eq_true. Qed.

Lemma is_level_js l : is_level (level_js l) = true ↔ level_wf l.
Proof.
  destruct l as [p v c n]. unfold is_level, level_wf. rewrite !andb_true_iff.
  change (is_text (prop (level_js _) "price")) with (is_text (JStr p)).
  change (is_text (prop (level_js _) "volume")) with (is_text (JStr v)).
  change (is_text (prop (level_js _) "cumulativeVolume")) with (is_text (JStr c)).
  rewrite !is_text_str. change (is_count _) with (isInteger n && num_leb num_zero n).
  rewrite andb_true_iff. simpl. naive_solver.
Qed.

Lemma is_side_js ls : is_side (JArr (map level_js ls)) = true ↔ Forall level_wf ls.
Proof.
  simpl. rewrite forallb_forall, Forall_forall. setoid_rewrite <-is_level_js.
  setoid_rewrite in_map_iff. setoid_rewrite list_elem_of_In. naive_solver.
Qed.

(** Acceptance: [encodeOrderDepth] throws on a document exactly when one of its texts
    is empty, a count is not a natural number, or the payload needs 2^32 bytes or more. *)
Theorem encode_accepts d :
  is_ok (encodeOrderDepth (depth_js d)) = true ↔
  depth_wf d ∧ ∃ payload, mp_encode (payload_of (depth_js d)) = Ok payload ∧
                          Z.of_nat (length payload) < 2 ^ 32.
Proof.
  assert (is_document (depth_js d) = true ↔ depth_wf d) as Hd.
  { unfold is_document, depth_wf. rewrite !andb_true_iff.
    change (prop (depth_js d) "market") with (JStr (market d)).
    change (prop (depth_js d) "tickSize") with (JStr (tickSize d)).
    change (prop (depth_js d) "generatedAt") with (JStr (generatedAt d)).
    change (prop (depth_js d) "bids") with (JArr (map level_js (bids d))).
    change (prop (depth_js d) "asks") with (JArr (map level_js (asks d))).
    rewrite !is_text_str, !is_side_js. naive_solver. }
  rewrite <-Hd. split.
  - destruct (encodeOrderDepth _) eqn:E; [|done]. intros _.
    apply encodeOrderDepth_ok in E. naive_solver.
  - intros (? & p & ? & ?).
    assert (encodeOrderDepth (depth_js d) = Ok (frame (length p) ++ p)) as ->; [|done].
    apply encodeOrderDepth_ok. eauto.
Qed.

(** The document a typed document describes is itself, its counts being natural. *)
Lemma document_js d :
  Forall (λ l, dl_orderCount l ≠ S754_zero true) (bids d ++ asks d) →
  document (depth_js d) = d.
Proof.
  assert (∀ l, dl_orderCount l ≠ S754_zero true → level_of (level_js l) = l) as L.
  { intros [p v c n] Hn. unfold level_of. simpl in *. unfold plus_zero_num.
    by rewrite bool_decide_false. }
  rewrite Forall_app. destruct d as [m t b a g]. intros [Hb Ha]. simpl in Hb, Ha.
  unfold document.
  change (mkDepth m t (map level_of (map level_js b)) (map level_of (map level_js a)) g
          = mkDepth m t b a g).
  rewrite !map_map. f_equal.
  - rewrite <-(map_id b) at 2. apply map_ext_in. intros l Hl%list_elem_of_In.
    apply L. by eapply (proj1 (Forall_forall _ _)) in Hb.
  - rewrite <-(map_id a) at 2. apply map_ext_in. intros l Hl%list_elem_of_In.
    apply L. by eapply (proj1 (Forall_forall _ _)) in Ha.
Qed.

Lemma isCompressed_encoded v b :
  encodeOrderDepth v = Ok b → isCompressedOrderDepth (PBuffer b) = true.
Proof. by intros (Hv & payload & Hp & Hn & ->)%encodeOrderDepth_ok. Qed.
End codec_theorems.

Lemma pretty_byte_digit x :
  match pretty (byte_val x) with String c _ => bool_decide (c ≠ "S"%char) | "" => false end = true.
Proof. destruct x; reflexivity. Qed.

Lemma string_app_nil_r (s : string) : (s +:+ "") = s.
Proof. induction s as [|c s IH]; [done|]. exact (f_equal (String c) IH). Qed.

(** The cheap check never recognises a plain [Uint8Array], although the type of its
    argument and its comment admit one and [decodeOrderDepth] reads it: on such an array
    [toString("latin1")] lists the bytes in decimal. *)
Theorem uint8array_never_recognised b : isCompressedOrderDepth (PUint8Array b) = false.
Proof.
  apply bool_decide_eq_false. intros E.
  assert (∀ x sep t, (pretty (byte_val x) +:+ sep +:+ t) ≠ ORDER_BOOK_DEPTH_MAGIC) as D.
  { intros x sep t. pose proof (pretty_byte_digit x) as Hx.
    destruct (pretty (byte_val x)); [done|]. simpl. intros [= -> _]. done. }
  unfold join in E. destruct b as [|b0 [|b1 rest]]; [done| |].
  - apply (D b0 "" ""). rewrite <-E. apply string_app_nil_r.
  - by apply (D b0 "," _) in E.
Qed.

(** ** A packing library, and concrete documents *)

Fixpoint val_tree (v : jsval) : gen_tree (number + string) :=
  match v with
  | JNum n => GenLeaf (inl n)
  | JStr s => GenLeaf (inr s)
  | JArr l => GenNode 0 (map val_tree l)
  | _ => GenNode 1 []
  end.

Fixpoint tree_val (t : gen_tree (number + string)) : jsval :=
  match t with
  | GenLeaf (inl n) => JNum (plus_zero_num n)
  | GenLeaf (inr s) => JStr s
  | GenNode 0 l => JArr (map tree_val l)
  | GenNode _ _ => JUndef
  end.

Lemma tree_val_tree n v : packable n v = true → tree_val (val_tree v) = plus_zero v.
Proof.
  revert v; induction n as [|n IH]; [done|]. intros [| | | | |l| |]; try done.
  rewrite packable_arr. intros Hl. simpl. f_equal. rewrite map_map.
  apply map_ext_in. intros v Hv. apply IH. by apply (proj1 (forallb_forall _ _) Hl).
Qed.

Fixpoint pos_bytes (p : positive) : list byte :=
  match p with xH => [] | xO q => x00 :: pos_bytes q | xI q => x01 :: pos_bytes q end.

Fixpoint bytes_pos (l : list byte) : option positive :=
  match l with
  | [] => Some xH
  | x00 :: l' => xO <$> bytes_pos l'
  | x01 :: l' => xI <$> bytes_pos l'
  | _ => None
  end.

Lemma bytes_pos_bytes p : bytes_pos (pos_bytes p) = Some p.
Proof. induction p as [p IH|p IH|]; simpl; by rewrite ?IH. Qed.

(** The value's bits, one per byte. *)
#[export] Instance bit_pack : MsgPack.
Proof.
  refine {|
  mp_encode v := if packable 100 v then Ok (pos_bytes (encode (val_tree v)))
                 else Throw (Error "Unrecognized object");
  mp_decode bytes := match bytes_pos bytes ≫= decode with
                     | Some t => Ok (tree_val t)
                     | None => Throw (Error "Extra bytes") end |}.
  intros v Hv. rewrite Hv. eexists. split; [done|].
  rewrite bytes_pos_bytes. simpl. rewrite decode_encode. by rewrite (tree_val_tree 100).
Defined.

Definition sample_depth : OrderDepth :=
  mkDepth "XLM/USDC" "0.5" [mkDepthLevel "1.50" "2" "2" num_one] [] "2024-01-01T00:00:00.000Z".

Definition sample_bytes : list byte := Eval vm_compute in
  match encodeOrderDepth (depth_js sample_depth) with Ok b => b | Throw _ => [] end.

(** Encoded, decoded, and refused when cut short. *)
Example codec_roundtrip_witness :
  encodeOrderDepth (depth_js sample_depth) = Ok sample_bytes ∧
  decodeOrderDepth sample_bytes = Ok (document (depth_js sample_depth)).
Proof.
  assert (encodeOrderDepth (depth_js sample_depth) = Ok sample_bytes) as E by (by vm_compute).
  split; [exact E|]. exact (codec_roundtrip _ _ E).
Defined.

Example decode_well_formed_witness :
  decodeOrderDepth sample_bytes = Ok sample_depth ∧ depth_wf sample_depth.
Proof.
  assert (decodeOrderDepth sample_bytes = Ok sample_depth) as E by (by vm_compute).
  split; [exact E|]. exact (decode_well_formed _ _ E).
Defined.

Example codec_frame_exact_witness :
  take 100 sample_bytes ≠ sample_bytes ∧
  is_ok (decodeOrderDepth (take 100 sample_bytes)) = false.
Proof.
  assert (take 100 sample_bytes ≠ sample_bytes) as Hne
    by (intros E%(f_equal length); by vm_compute in E).
  split; [exact Hne|].
  assert (encodeOrderDepth (depth_js sample_depth) = Ok sample_bytes) as E by (by vm_compute).
  exact (codec_frame_exact _ _ _ [] E Hne
           (or_introl (prefix_take _ _))).
Defined.

Example benchmark_runs :
  is_ok (outcome (benchmarkOrderDepthCodec (λ t : Z, (num_of_Z t, (t + 1)%Z))
                    (depth_js sample_depth) (Some (num_of_Z 2)) (Some num_one) None) 0) = true.
Proof. vm_compute. reflexivity. Qed.
