(* ===== verification/DepthCache.v ===== *)
(** * The depth aggregator and its cache ([services/orderDepthAggregatorService.ts])

    Orders of a market are read from two sorted sets, grouped by tick, sorted and
    accumulated; the document is written to Redis through the codec of [DepthCodec] and
    read back through it. Redis is the class [DepthRedis]. Proved: every order counted
    once, every document well formed, and what [updateDepth] caches [getCachedDepth]
    returns. *)

From Stdlib Require Import SpecFloat Strings.Byte.
From S2P Require Import Prelude JsNumber JsDate JsString JsDecimal JsValue DepthCodec.

Local Open Scope Z_scope.

Inductive OrderSide := side_bids | side_asks.

(** [Number.EPSILON] *)
Definition EPSILON : number := S754_finite false 4503599627370496 (-104).

Definition parsePositiveDecimal (value : jsval) (fld : string) : exc number :=
  let parsed := Number_val value in
  if negb (isFinite parsed) || num_leb parsed num_zero
  then Throw (Error (fld +:+ " must be a positive number")) else Ok parsed.

Definition decimalString (value : number) : string :=
  String_num (Number_str (toFixed value 12)).

Record RedisOrder := mkRedisOrder { ro_price : number; ro_volume : number }.

Record Level := mkLevel { lv_volume : number; lv_orderCount : nat }.

(** A JavaScript [Map]: one entry per key, in insertion order, the two zeros one key. *)
Definition map_key (p : number) : number :=
  match p with S754_zero _ => num_zero | _ => p end.

Fixpoint levels_get (m : list (number * Level)) (k : number) : option Level :=
  match m with
  | [] => None
  | (k', l) :: m' => if bool_decide (k' = map_key k) then Some l else levels_get m' k
  end.

Fixpoint levels_set (m : list (number * Level)) (k : number) (l : Level)
    : list (number * Level) :=
  match m with
  | [] => [(map_key k, l)]
  | (k', l') :: m' =>
      if bool_decide (k' = map_key k) then (k', l) :: m' else (k', l') :: levels_set m' k l
  end.

Section aggregate.
(** [JSON.parse] *)
Context (JSON_parse : string → exc jsval).

Definition parseOrder (member : string) : option RedisOrder :=
  match
    parsed ← JSON_parse member;
    if negb (truthy parsed) || negb (is_object parsed) then Ok None
    else
      price ← parsePositiveDecimal (prop parsed "price") "price";
      volume ← parsePositiveDecimal (prop parsed "volume") "volume";
      Ok (Some (mkRedisOrder price volume))
  with Ok o => o | Throw _ => None end.

Definition tick_of (tick_size price : number) : number :=
  num_mul (math_floor (num_div (num_add price EPSILON) tick_size)) tick_size.

(** The body of the loop over the members. *)
Definition add_member (tick_size : number) (m : list (number * Level)) (member : string)
    : list (number * Level) :=
  match parseOrder member with
  | None => m
  | Some order =>
      let tick := tick_of tick_size (ro_price order) in
      let current := default (mkLevel num_zero 0) (levels_get m tick) in
      levels_set m tick (mkLevel (num_add (lv_volume current) (ro_volume order))
                           (S (lv_orderCount current)))
  end.

(** The [map] that accumulates volumes. *)
Fixpoint accumulate (cumulativeVolume : number) (l : list (number * Level))
    : list DepthLevel :=
  match l with
  | [] => []
  | (price, level) :: rest =>
      let c := num_add cumulativeVolume (lv_volume level) in
      mkDepthLevel (decimalString price) (decimalString (lv_volume level)) (decimalString c)
        (num_of_nat (lv_orderCount level)) :: accumulate c rest
  end.

Definition compare_sides (side : OrderSide) (a b : number * Level) : number :=
  match side with side_bids => num_sub b.1 a.1 | side_asks => num_sub a.1 b.1 end.

Definition aggregateSide (members : list string) (tick_size : number) (side : OrderSide)
    : list DepthLevel :=
  let levels := fold_left (add_member tick_size) members [] in
  accumulate num_zero (js_sort (compare_sides side) levels).

(** ** The service *)

(** Redis as the service uses it. A sorted set has fewer than 2^32 members; a [GET]
    that follows a [SET] reads what was set, or fails. *)
Class DepthRedis (R : Type) := {
  isReady : R → bool;
  zRange : string → R → exc (list string) * R;
  redis_set : string → list byte → R → exc unit * R;
  redis_get : string → R → exc (option (list byte)) * R;
  dr_now : R → Z;
  zRange_bound k r l r' : zRange k r = (Ok l, r') → Z.of_nat (length l) < 2 ^ 32;
  set_get k b r r' : redis_set k b r = (Ok tt, r') →
    ∀ o r'', redis_get k r' = (Ok o, r'') → o = Some b;
}.

Context {R : Type} `{DepthRedis R} `{MsgPack}.
(** [process.env.ORDER_BOOK_REDIS_PREFIX] and the decoding of bytes as UTF-8 text. *)
Context (env_prefix : option string) (utf8 : list byte → string).

Definition DEFAULT_KEY_PREFIX : string := "orders:book".
Definition keyPrefix : string := default DEFAULT_KEY_PREFIX env_prefix.
Definition cacheKey (market : string) : string := keyPrefix +:+ ":" +:+ market +:+ ":depth:cache".

Definition getDepth (market : string) (tick : jsval) : M R OrderDepth :=
  let normalizedMarket := trim market in
  if negb (truthy_str normalizedMarket) || (100 <? String.length normalizedMarket)%nat
  then throw (Error "market must be a non-empty value up to 100 characters")
  else
    numericTickSize <- lift_exc (parsePositiveDecimal tick "tickSize") ;;
    r <- get ;;
    if negb (isReady r) then throw (Error "Redis depth store is unavailable")
    else
      bidMembers <- zRange (keyPrefix +:+ ":" +:+ normalizedMarket +:+ ":bids") ;;
      askMembers <- zRange (keyPrefix +:+ ":" +:+ normalizedMarket +:+ ":asks") ;;
      r' <- get ;;
      ret (mkDepth normalizedMarket (decimalString numericTickSize)
             (aggregateSide bidMembers numericTickSize side_bids)
             (aggregateSide askMembers numericTickSize side_asks)
             (toISOString (dr_now r'))).

Definition updateDepth (market : string) (tick : jsval) : M R unit :=
  depth <- getDepth market tick ;;
  r <- get ;;
  if negb (isReady r) then ret tt
  else
    bytes <- lift_exc (encodeOrderDepth (depth_js depth)) ;;
    redis_set (cacheKey market) bytes.

(** What the cache holds: a document of this format, or one of the JSON texts written
    before it, returned as it parses. *)
Inductive cached := CDepth (d : OrderDepth) | CJson (v : jsval).

Definition getCachedDepth (market : string) : M R (option cached) :=
  r <- get ;;
  if negb (isReady r) then ret None
  else
    raw <- redis_get (cacheKey market) ;;
    match raw with
    | None => ret None
    | Some raw =>
        if decide (raw = []) then ret None
        else
          try_catch
            (if isCompressedOrderDepth (PBuffer raw)
             then d <- lift_exc (decodeOrderDepth raw) ;; ret (Some (CDepth d))
             else v <- lift_exc (JSON_parse (utf8 raw)) ;; ret (Some (CJson v)))
            (λ _, ret None)
    end.
End aggregate.

(** ** Levels *)

Definition total_orders (m : list (number * Level)) : nat :=
  sum_list (map (λ kl, lv_orderCount kl.2) m).

Lemma levels_set_total m k l :
  (total_orders (levels_set m k l) + default 0 (lv_orderCount <$> levels_get m k)
   = total_orders m + lv_orderCount l)%nat.
Proof.
  unfold total_orders. induction m as [|[k' l'] m IH]; simpl; [lia|].
  case_bool_decide; simpl; lia.
Qed.

Lemma levels_set_keys m k l :
  (levels_set m k l).*1 = if bool_decide (map_key k ∈ m.*1) then m.*1 else m.*1 ++ [map_key k].
Proof.
  induction m as [|[k' l'] m IH]; simpl; [done|].
  destruct (decide (k' = map_key k)) as [E|E].
  - rewrite (bool_decide_true (k' = _)), bool_decide_true by set_solver. done.
  - rewrite (bool_decide_false (k' = _)) by done. rewrite fmap_cons, IH. simpl.
    do 2 case_bool_decide; first [done|exfalso; set_solver].
Qed.

Section depth_cache.
Context (JSON_parse : string → exc jsval).
Notation parseOrder := (parseOrder JSON_parse).
Notation aggregateSide := (aggregateSide JSON_parse).
Notation build ts ms := (fold_left (add_member JSON_parse ts) ms []).

Definition valid_members (members : list string) : nat :=
  length (filter (λ m, is_Some (parseOrder m)) members).

Lemma add_member_total ts m member :
  total_orders (add_member JSON_parse ts m member)
  = (total_orders m + valid_members [member])%nat.
Proof.
  unfold add_member, valid_members. rewrite filter_cons.
  destruct (parseOrder member) as [o|]; simpl.
  - match goal with |- total_orders (levels_set m ?t ?l) = _ =>
      pose proof (levels_set_total m t l) as E end.
    simpl in E. destruct (levels_get m _); simpl in *; lia.
  - lia.
Qed.

Lemma build_total ts ms m :
  total_orders (fold_left (add_member JSON_parse ts) ms m)
  = (total_orders m + valid_members ms)%nat.
Proof.
  revert m; induction ms as [|x ms IH]; intros m; simpl; [unfold valid_members; simpl; lia|].
  rewrite IH, add_member_total. unfold valid_members. rewrite !filter_cons.
  case_decide; simpl; lia.
Qed.

Lemma build_keys ts ms m :
  NoDup m.*1 → NoDup (fold_left (add_member JSON_parse ts) ms m).*1.
Proof.
  revert m; induction ms as [|x ms IH]; intros m Hm; simpl; [done|]. apply IH.
  unfold add_member. destruct (parseOrder x); [|done]. rewrite levels_set_keys.
  case_bool_decide; [done|]. apply NoDup_app. split_and!; [done| |apply NoDup_singleton].
  set_solver.
Qed.

Definition countable (n : number) : Prop :=
  isInteger n = true ∧ num_leb num_zero n = true ∧ n ≠ S754_zero true.

Lemma accumulate_wf c l :
  Forall (λ kl, Z.of_nat (lv_orderCount kl.2) < 2 ^ 53) l →
  Forall (λ x, level_wf x ∧ countable (dl_orderCount x)) (accumulate c l).
Proof.
  intros Hl; revert c; induction Hl as [|[p lv] l Hn _ IH]; intros c; simpl; constructor; [|done].
  simpl in Hn. pose proof (isInteger_nat _ Hn). destruct (num_of_nat_nonneg _ Hn).
  unfold level_wf, countable, decimalString; simpl.
  split_and!; try done; apply String_num_nonempty.
Qed.

Lemma sum_list_member (l : list nat) n : n ∈ l → (n ≤ sum_list l)%nat.
Proof. induction 1; simpl; lia. Qed.

Lemma aggregate_wf members ts side :
  Z.of_nat (length members) < 2 ^ 53 →
  Forall (λ x, level_wf x ∧ countable (dl_orderCount x)) (aggregateSide members ts side).
Proof.
  intros Hn. apply accumulate_wf, Forall_forall. intros kl Hkl.
  rewrite js_sort_perm in Hkl.
  assert (lv_orderCount kl.2 ≤ total_orders (build ts members))%nat as Hle
    by (apply sum_list_member, list_elem_of_In, in_map_iff; exists kl;
        by rewrite <-list_elem_of_In).
  rewrite build_total in Hle. unfold total_orders, valid_members in Hle. simpl in Hle.
  pose proof (length_filter (λ m, is_Some (parseOrder m)) members). lia.
Qed.

(** Conservation of orders: the levels of a side are the distinct ticks its orders
    fall on, one level each, and their order counts add up to the number of members that
    parse as orders: none is lost and none counted twice, however they are grouped. *)
Theorem aggregate_conserves_orders members tick_size side :
  ∃ ticks : list (number * nat),
    map (λ l, (dl_price l, dl_orderCount l)) (aggregateSide members tick_size side)
      = map (λ t, (decimalString t.1, num_of_nat t.2)) ticks ∧
    NoDup ticks.*1 ∧ sum_list ticks.*2 = valid_members members.
Proof.
  set (sorted := js_sort (compare_sides side) (build tick_size members)).
  exists (map (λ kl, (kl.1, lv_orderCount kl.2)) sorted).
  assert (sorted ≡ₚ build tick_size members) as P by apply js_sort_perm.
  assert (∀ (l : list (number * Level)), (map (λ kl, (kl.1, lv_orderCount kl.2)) l).*1 = l.*1) as E1.
  { intros l. induction l as [|? l IH]; simpl; [done|]. by f_equal. }
  assert (∀ (l : list (number * Level)),
            (map (λ kl, (kl.1, lv_orderCount kl.2)) l).*2 = map (λ kl, lv_orderCount kl.2) l) as E2.
  { intros l. induction l as [|? l IH]; simpl; [done|]. by f_equal. }
  split_and!.
  - unfold DepthCache.aggregateSide. fold sorted. generalize num_zero.
    clear P. induction sorted as [|[p lv] l IH]; intros c; simpl; [done|]. by rewrite IH.
  - rewrite E1, P. apply build_keys. constructor.
  - rewrite E2. transitivity (total_orders (build tick_size members)).
    + unfold total_orders. by rewrite P.
    + by rewrite build_total.
Qed.

Context {R : Type} `{DepthRedis R} `{MsgPack}.
Context (env_prefix : option string) (utf8 : list byte → string).

Lemma getDepth_wf market tick r d r' :
  getDepth JSON_parse env_prefix market tick r = (Ok d, r') →
  depth_wf d ∧ document (depth_js d) = d.
Proof.
  unfold getDepth. case_match; [done|].
  unfold bind, lift_exc, get, ret.
  destruct (parsePositiveDecimal tick "tickSize") as [ts|]; [|done].
  destruct (isReady r); [|done]. simpl.
  destruct (zRange _ r) as [[bs|] r1] eqn:E1; [|done].
  destruct (zRange _ r1) as [[as_|] r2] eqn:E2; [|done]. intros [= <- <-].
  apply zRange_bound in E1, E2.
  pose proof (aggregate_wf bs ts side_bids ltac:(lia)) as [B1 B2]%Forall_and.
  pose proof (aggregate_wf as_ ts side_asks ltac:(lia)) as [A1 A2]%Forall_and.
  split.
  - unfold depth_wf; simpl. split_and!; [|apply String_num_nonempty| |done|done].
    + intros E. unfold truthy_str in *. by rewrite E in *.
    + unfold toISOString. destruct (civil_of_days _) as [[y m] dd].
      apply string_app_nonempty_r. apply string_app_nonempty_l. done.
  - apply document_js. simpl. apply Forall_app. split.
    + eapply Forall_impl; [exact B2|]. by intros ? (_ & _ & ?).
    + eapply Forall_impl; [exact A2|]. by intros ? (_ & _ & ?).
Qed.

(** The depth cache returns what was cached: when [updateDepth] completes with Redis
    ready, [getCachedDepth] of the same market gives back the very document [getDepth]
    built, through MessagePack and Redis, unless Redis itself is down or fails. *)
Theorem depth_cache_roundtrip market tick r d r1 r2 :
  getDepth JSON_parse env_prefix market tick r = (Ok d, r1) → isReady r1 = true →
  updateDepth JSON_parse env_prefix market tick r = (Ok tt, r2) → isReady r2 = true →
  match getCachedDepth JSON_parse env_prefix utf8 market r2 with
  | (Ok o, _) => o = Some (CDepth d)
  | (Throw e, r3) => redis_get (cacheKey env_prefix market) r2 = (Throw e, r3)
  end.
Proof.
  intros Hd Hr1 Hu Hr2. destruct (getDepth_wf _ _ _ _ _ Hd) as [_ Hdoc].
  unfold updateDepth in Hu. unfold bind at 1 in Hu. rewrite Hd in Hu.
  unfold bind, get in Hu. rewrite Hr1 in Hu. cbn [negb lift_exc] in Hu.
  unfold lift_exc in Hu. destruct (encodeOrderDepth (depth_js d)) as [b|] eqn:Eb; [|done].
  unfold getCachedDepth, bind, get. rewrite Hr2. cbn [negb].
  destruct (redis_get (cacheKey env_prefix market) r2) as [[o|e] r3] eqn:Eg; [|done].
  pose proof (set_get _ _ _ _ Hu _ _ Eg) as ->.
  pose proof (isCompressed_encoded _ _ Eb) as Hc.
  rewrite decide_False by (intros ->; by apply encodeOrderDepth_ok in Eb as (?&?&?&?&?)).
  unfold try_catch. rewrite Hc. unfold lift_exc.
  apply encodeOrderDepth_ok in Eb as (Hv & payload & Hp & Hn & ->).
  by rewrite (decode_frame _ _ Hv Hp Hn), Hdoc.
Qed.
End depth_cache.

(** ** A store in memory *)

Record mem_depth := mkMemDepth {
  zsets : gmap string (list string);
  blobs : gmap string (list byte);
  clock : Z;
}.

#[export] Instance mem_redis : DepthRedis mem_depth.
Proof.
  refine {|
    isReady _ := true;
    zRange k r := let l := default [] (zsets r !! k) in
      (if bool_decide (Z.of_nat (length l) < 2 ^ 32) then Ok l else Throw (Error "OOM"), r);
    redis_set k b r := (Ok tt, mkMemDepth (zsets r) (<[k := b]> (blobs r)) (clock r));
    redis_get k r := (Ok (blobs r !! k), r);
    dr_now := clock |}.
  - intros k r l r'. simpl. case_bool_decide; [|done]. by intros [= <- _].
  - intros k b r r' [= <-] o r''. simpl. rewrite lookup_insert_eq. by intros [= <- _].
Defined.

(** Members of the form "p@v" stand for parsed orders. *)
Definition at_sign_parse (s : string) : exc jsval :=
  match String.index 0 "@" s with
  | Some i => Ok (JObj [("price", JStr (slice_to i s));
                        ("volume", JStr (String.substring (S i) (String.length s) s))])
  | None => Throw (Error "Unexpected token")
  end.

Definition sample_store : mem_depth :=
  mkMemDepth (<["orders:book:XLM/USDC:bids" := ["10.2@3"; "junk"; "9.7@1"; "10.4@0.5"]]>
              (<["orders:book:XLM/USDC:asks" := ["11@2"]]> ∅)) ∅ 0.

Definition sample_get : exc OrderDepth * mem_depth :=
  getDepth at_sign_parse None "XLM/USDC" (JStr "1") sample_store.
Definition sample_doc : OrderDepth :=
  match sample_get with (Ok d, _) => d | _ => mkDepth "" "" [] [] "" end.
Definition sample_updated : mem_depth :=
  final (updateDepth at_sign_parse None "XLM/USDC" (JStr "1")) sample_store.

Example sample_levels :
  map (λ l, (dl_price l, dl_volume l, dl_cumulativeVolume l)) (bids sample_doc)
  = [("10", "3.5", "3.5"); ("9", "1", "4.5")].
Proof. vm_compute. reflexivity. Qed.

Example depth_cache_roundtrip_witness :
  outcome (getCachedDepth at_sign_parse None (λ _, "") "XLM/USDC") sample_updated
    = Ok (Some (CDepth sample_doc)) ∧
  match getCachedDepth at_sign_parse None (λ _, "") "XLM/USDC" sample_updated with
  | (Ok o, _) => o = Some (CDepth sample_doc)
  | (Throw e, r3) => redis_get (cacheKey None "XLM/USDC") sample_updated = (Throw e, r3)
  end.
Proof.
  assert (getDepth at_sign_parse None "XLM/USDC" (JStr "1") sample_store
          = (Ok sample_doc, sample_store)) as E1 by (by vm_compute).
  assert (updateDepth at_sign_parse None "XLM/USDC" (JStr "1") sample_store
          = (Ok tt, sample_updated)) as E2 by (by vm_compute).
  split; [by vm_compute|].
  exact (depth_cache_roundtrip at_sign_parse None (λ _, "") "XLM/USDC" (JStr "1") sample_store
           sample_doc sample_store sample_updated E1 eq_refl E2 eq_refl).
Defined.
