(* ===== verification/BridgeVerify.v ===== *)
(** * The token bridge: signatures of validators ([services/bridgeSignatureVerification.ts])

    The tables of the bridge (chains, validators, events, signatures, operations), the
    weighted threshold of validator signatures, and the call that adds a signature. The
    signature schemes are the class [BridgeCrypto]. Proved: what [VERIFIED] means, that
    every stored signature is genuine and every validator signs an event at most once, and
    how the two routines fall short of their description. *)

From S2P Require Import Prelude JsString JsDate Prisma Service.

Local Open Scope Z_scope.

(** ** The rows, with the columns the modelled code reads or writes *)

Record BridgeChain := mkBridgeChain {
  bc_id : Z;
  bc_chainId : string;
  bc_chainType : string;
  bc_isActive : bool;
}.

(** [chainId] refers to [BridgeChain.chainId], a string. *)
Record BridgeValidator := mkBridgeValidator {
  bv_id : Z;
  bv_chainId : string;
  bv_validatorAddress : string;
  bv_isActive : bool;
  bv_weight : Z;
}.

(** [chainId] refers to [BridgeChain.id], an integer. *)
Record BridgeEvent := mkBridgeEvent {
  be_id : Z;
  be_chainId : Z;
  be_eventType : string;
  be_transactionHash : string;
  be_tokenAmount : string;
  be_fromAddress : string;
  be_destinationChainId : option string;
  be_destinationAddress : option string;
  be_status : string;
  be_processedAt : option Z;
}.

Record BridgeValidatorSignature := mkBridgeSignature {
  sg_bridgeEventId : Z;
  sg_validatorId : Z;
  sg_signature : string;
}.

Record BridgeOperation := mkBridgeOperation {
  bo_id : string;
  bo_bridgeEventId : Z;
  bo_sorobanContract : string;
  bo_mintAmount : string;
  bo_recipientAddress : string;
  bo_stellarTxHash : option string;
  bo_queueStatus : string;
  bo_priority : Z;
  bo_retryCount : Z;
  bo_maxRetries : Z;
  bo_queuedAt : Z;
  bo_processingStartedAt : option Z;
  bo_completedAt : option Z;
}.

Record bridge_db (C V E S O : Type) := mkBridgeDb {
  tb_chains : C;
  tb_validators : V;
  tb_events : E;
  tb_signatures : S;
  tb_operations : O;
}.
Arguments mkBridgeDb {C V E S O} _ _ _ _ _.
Arguments tb_chains {C V E S O} _.
Arguments tb_validators {C V E S O} _.
Arguments tb_events {C V E S O} _.
Arguments tb_signatures {C V E S O} _.
Arguments tb_operations {C V E S O} _.

(** ** Statements on one table *)

Section tables.
Context {C V E S O : Type}.
Notation db := (bridge_db C V E S O).

Definition on_events {A} (c : M E A) : M db A := λ d,
  let '(r, t) := c (tb_events d) in
  (r, mkBridgeDb (tb_chains d) (tb_validators d) t (tb_signatures d) (tb_operations d)).
Definition on_signatures {A} (c : M S A) : M db A := λ d,
  let '(r, t) := c (tb_signatures d) in
  (r, mkBridgeDb (tb_chains d) (tb_validators d) (tb_events d) t (tb_operations d)).
Definition on_operations {A} (c : M O A) : M db A := λ d,
  let '(r, t) := c (tb_operations d) in
  (r, mkBridgeDb (tb_chains d) (tb_validators d) (tb_events d) (tb_signatures d) t).

(** Two databases with the same tables, those of one statement apart. *)
Lemma on_events_inv {A} (c : M E A) d r d' :
  on_events c d = (r, d') → c (tb_events d) = (r, tb_events d') ∧
  d' = mkBridgeDb (tb_chains d) (tb_validators d) (tb_events d') (tb_signatures d) (tb_operations d).
Proof. unfold on_events. destruct (c (tb_events d)). by intros [= -> <-]. Qed.
Lemma on_signatures_inv {A} (c : M S A) d r d' :
  on_signatures c d = (r, d') → c (tb_signatures d) = (r, tb_signatures d') ∧
  d' = mkBridgeDb (tb_chains d) (tb_validators d) (tb_events d) (tb_signatures d') (tb_operations d).
Proof. unfold on_signatures. destruct (c (tb_signatures d)). by intros [= -> <-]. Qed.
Lemma on_operations_inv {A} (c : M O A) d r d' :
  on_operations c d = (r, d') → c (tb_operations d) = (r, tb_operations d') ∧
  d' = mkBridgeDb (tb_chains d) (tb_validators d) (tb_events d) (tb_signatures d) (tb_operations d').
Proof. unfold on_operations. destruct (c (tb_operations d)). by intros [= -> <-]. Qed.
End tables.

Definition set_event_status (status : string) (e : BridgeEvent) : BridgeEvent :=
  mkBridgeEvent (be_id e) (be_chainId e) (be_eventType e) (be_transactionHash e)
    (be_tokenAmount e) (be_fromAddress e) (be_destinationChainId e) (be_destinationAddress e)
    status (be_processedAt e).

(** ** Signature schemes *)

Class BridgeCrypto := {
  (** ethers' [verifyMessage]: the address that signed the message. *)
  verifyMessage : string → string → exc string;
  (** [Keypair.fromPublicKey(address).verify(message, Buffer.from(signature, "hex"))] *)
  ed25519_verify : string → string → string → exc bool;
}.

Section crypto.
Context `{BridgeCrypto}.

Definition bridge_message (e : BridgeEvent) : string :=
  "BridgeEvent:" +:+ be_eventType e +:+ ":" +:+ be_transactionHash e +:+ ":" +:+
  be_fromAddress e +:+ ":" +:+ be_tokenAmount e +:+ ":" +:+
  str_or (default "" (be_destinationChainId e)) "stellar".

Definition verifyValidatorSignature (e : BridgeEvent) (chainType validatorAddress signature : string)
    : bool :=
  let message := bridge_message e in
  match
    if decide (chainType = "EVM") then
      recoveredAddress ← verifyMessage message signature;
      Ok (bool_decide (toLowerCase recoveredAddress = toLowerCase validatorAddress))
    else if decide (chainType = "Stellar") then
      ed25519_verify validatorAddress message signature
    else Ok false
  with Ok b => b | Throw _ => false end.
End crypto.

(** [l.reduce((sum, v) => sum + v.weight, 0)] *)
Definition sumZ (l : list Z) : Z := foldr Z.add 0 l.

(** [Math.ceil((totalWeight * 2) / 3)] *)
Definition required_threshold (totalWeight : Z) : Z := - (- (totalWeight * 2) / 3).

Section service.
Context {C V E S O H : Type}.
Context `{!PrismaTable Z BridgeChain C} `{!PrismaTable Z BridgeValidator V}.
Context `{!PrismaTable Z BridgeEvent E} `{!PrismaTable (Z * Z) BridgeValidatorSignature S}.
Context `{BridgeCrypto}.

Notation run := (M (svc (bridge_db C V E S O) H)).

(** A required relation: the row a foreign key points to. *)
Definition required {A} (o : option A) : run A :=
  match o with
  | Some a => ret a
  | None => throw (Error "Inconsistent query result: Field is required to return data, got null instead.")
  end.

(** [bridgeEvent.findUnique({ where: { id }, include: { chain: true } })] *)
Definition find_event_with_chain (bridgeEventId : Z) : run (option (BridgeEvent * BridgeChain)) :=
  e <- query (λ d, findUnique bridgeEventId (tb_events d)) ;;
  match e with
  | None => ret None
  | Some e =>
      c <- query (λ d, findUnique (be_chainId e) (tb_chains d)) ;;
      chain <- required c ;;
      ret (Some (e, chain))
  end.

(** The validators of a chain with [isActive: true]. *)
Definition active_validators (chainId : string) (l : list BridgeValidator) : list BridgeValidator :=
  filter (λ v, bv_chainId v = chainId ∧ bv_isActive v = true) l.

(** Pairs each signature with its validator. *)
Fixpoint include_validators (sigs : list BridgeValidatorSignature)
    : run (list (BridgeValidatorSignature * BridgeValidator)) :=
  match sigs with
  | [] => ret []
  | s :: rest =>
      v <- query (λ d, findUnique (sg_validatorId s) (tb_validators d)) ;;
      validator <- required v ;;
      l <- include_validators rest ;;
      ret ((s, validator) :: l)
  end.

(** [bridgeValidatorSignature.findMany({ where: { bridgeEventId }, include: { validator } })] *)
Definition find_signatures (bridgeEventId : Z)
    : run (list (BridgeValidatorSignature * BridgeValidator)) :=
  l <- query (λ d, findAll (tb_signatures d)) ;;
  include_validators (filter (λ s, sg_bridgeEventId s = bridgeEventId) l).

(** The signatures the loop accepts. *)
Definition valid_signatures (e : BridgeEvent) (chainType : string)
    (l : list (BridgeValidatorSignature * BridgeValidator))
    : list (BridgeValidatorSignature * BridgeValidator) :=
  filter (λ sv, verifyValidatorSignature e chainType (bv_validatorAddress sv.2)
                  (sg_signature sv.1) = true) l.

Definition verifyBridgeEventSignatures (bridgeEventId : Z) : run bool :=
  try_catch
    (found <- find_event_with_chain bridgeEventId ;;
     match found with
     | None => ret false
     | Some (bridgeEvent, chain) =>
         all <- query (λ d, findAll (tb_validators d)) ;;
         let validators := active_validators (bc_chainId chain) all in
         if decide (validators = []) then ret false
         else
           let totalWeight := sumZ (bv_weight <$> validators) in
           let requiredThreshold := required_threshold totalWeight in
           existingSignatures <- find_signatures bridgeEventId ;;
           let valid := valid_signatures bridgeEvent (bc_chainType chain) existingSignatures in
           let verifiedWeight := sumZ ((λ sv, bv_weight sv.2) <$> valid) in
           let thresholdMet := requiredThreshold <=? verifiedWeight in
           (if thresholdMet then
              on_db (on_events (update bridgeEventId (set_event_status "VERIFIED"))) ;;; ret tt
            else ret tt) ;;;
           ret thresholdMet
     end)
    (λ _, ret false).

Record SignatureVerificationResult := mkVerification {
  svr_isValid : bool;
  svr_thresholdMet : bool;
  svr_totalWeight : Z;
  svr_requiredThreshold : Z;
  svr_signatures : list (string * string * Z);
}.

(** [bridgeValidator.findMany({ where: { chainId, isActive: true } })]: the client rejects
    an integer for the string column [chainId] before it reaches the database. *)
Definition find_active_validators (chainId : Z + string) : run (list BridgeValidator) :=
  match chainId with
  | inl _ => throw (Error "Argument `chainId`: Invalid value provided. Expected StringFilter or String, provided Int.")
  | inr s => l <- query (λ d, findAll (tb_validators d)) ;; ret (active_validators s l)
  end.

(** [bridgeValidator.findUnique({ where: { validatorAddress }, include: { chain } })] *)
Definition find_validator (validatorAddress : string) : run (option BridgeValidator) :=
  l <- query (λ d, findAll (tb_validators d)) ;;
  ret (List.find (λ v, bool_decide (bv_validatorAddress v = validatorAddress)) l).

Definition addValidatorSignature (bridgeEventId : Z) (validatorAddress signature : string)
    : run SignatureVerificationResult :=
  validator <- find_validator validatorAddress ;;
  match validator with
  | None => throw (Error ("Validator " +:+ validatorAddress +:+ " not found or inactive"))
  | Some validator =>
  if negb (bv_isActive validator) then
    throw (Error ("Validator " +:+ validatorAddress +:+ " not found or inactive"))
  else
  existingSig <- query (λ d, findUnique (bridgeEventId, bv_id validator) (tb_signatures d)) ;;
  match existingSig with
  | Some _ => throw (Error "Validator has already signed this event")
  | None =>
  found <- find_event_with_chain bridgeEventId ;;
  match found with
  | None => throw (Error "Bridge event not found")
  | Some (bridgeEvent, chain) =>
  if negb (verifyValidatorSignature bridgeEvent (bc_chainType chain) validatorAddress signature)
  then throw (Error "Invalid signature")
  else
  on_db (on_signatures (createUnique (bridgeEventId, bv_id validator)
           (mkBridgeSignature bridgeEventId (bv_id validator) signature))) ;;;
  thresholdMet <- verifyBridgeEventSignatures bridgeEventId ;;
  allSignatures <- find_signatures bridgeEventId ;;
  let totalWeight := sumZ ((λ sv, bv_weight sv.2) <$> allSignatures) in
  validators <- find_active_validators (inl (be_chainId bridgeEvent)) ;;
  ret (mkVerification true thresholdMet totalWeight
         (required_threshold (sumZ (bv_weight <$> validators)))
         ((λ sv, (bv_validatorAddress sv.2, sg_signature sv.1, bv_weight sv.2)) <$> allSignatures))
  end end end.
End service.

(** ** The threshold, over the rows *)

Lemma sumZ_perm l1 l2 : l1 ≡ₚ l2 → sumZ l1 = sumZ l2.
Proof. induction 1; simpl in *; lia. Qed.

Lemma required_threshold_spec w :
  3 * required_threshold w - 3 < 2 * w ≤ 3 * required_threshold w.
Proof.
  unfold required_threshold. pose proof (Z.div_mod (- (w * 2)) 3).
  pose proof (Z.mod_pos_bound (- (w * 2)) 3). lia.
Qed.

Section spec.
Context {C V E S O H : Type}.
Context `{!PrismaTable Z BridgeChain C} `{!PrismaTable Z BridgeValidator V}.
Context `{!PrismaTable Z BridgeEvent E} `{!PrismaTable (Z * Z) BridgeValidatorSignature S}.
Context `{BridgeCrypto}.
Notation db := (bridge_db C V E S O).
Notation world := (svc db H).
Implicit Types (d : db) (w : world).

Definition all_rows {K R D} `{PrismaTable K R D} (t : D) : list R := (map_to_list (rows t)).*2.

Definition signatures_of d (id : Z) : list BridgeValidatorSignature :=
  filter (λ s, sg_bridgeEventId s = id) (all_rows (tb_signatures d)).

(** The weight a stored signature contributes. *)
Definition signature_weight d (e : BridgeEvent) (c : BridgeChain) (s : BridgeValidatorSignature) : Z :=
  match rows (tb_validators d) !! sg_validatorId s with
  | Some v => if verifyValidatorSignature e (bc_chainType c) (bv_validatorAddress v) (sg_signature s)
              then bv_weight v else 0
  | None => 0
  end.

Definition chain_validators d (c : BridgeChain) : list BridgeValidator :=
  active_validators (bc_chainId c) (all_rows (tb_validators d)).

(** The genuine signatures of the event weigh at least two thirds of the weight of the
    active validators of its chain, of which there is one. *)
Definition threshold_reached d (id : Z) : Prop :=
  ∃ e c, rows (tb_events d) !! id = Some e ∧ rows (tb_chains d) !! be_chainId e = Some c ∧
    chain_validators d c ≠ [] ∧
    2 * sumZ (bv_weight <$> chain_validators d c)
    ≤ 3 * sumZ (signature_weight d e c <$> signatures_of d id).

(** [d'] is [d], or [d] with the event [id], its threshold reached, marked [VERIFIED]. *)
Definition verified_or_same d (id : Z) d' : Prop :=
  (∃ t, d' = mkBridgeDb (tb_chains d) (tb_validators d) t (tb_signatures d) (tb_operations d) ∧
    (rows t = rows (tb_events d) ∨
     threshold_reached d id ∧ ∃ e, rows (tb_events d) !! id = Some e ∧
       rows t = <[id := set_event_status "VERIFIED" e]> (rows (tb_events d)))).

Lemma verified_or_same_refl d id : verified_or_same d id d.
Proof. destruct d as [c v e s o]. exists e. simpl. auto. Qed.

Lemma include_validators_run sigs w :
  ∃ r, include_validators sigs w = (r, w) ∧
  ∀ l, r = Ok l →
    Forall2 (λ s sv, sv.1 = s ∧ rows (tb_validators (svc_db w)) !! sg_validatorId s = Some sv.2) sigs l.
Proof.
  induction sigs as [|s sigs IH]; simpl.
  - eexists. split; [done|]. intros l [= <-]. constructor.
  - unfold bind, query. destruct (findUnique _ _) as [o|] eqn:E1; [|by eexists].
    apply findUnique_ok in E1. destruct o as [v|]; simpl; [|by eexists].
    destruct IH as (r & -> & Hr). destruct r as [l|]; [|by eexists].
    eexists. split; [done|]. intros l' [= <-]. constructor; [done|by apply Hr].
Qed.

Lemma valid_weight_sum d e c sigs l :
  Forall2 (λ s sv, sv.1 = s ∧ rows (tb_validators d) !! sg_validatorId s = Some sv.2) sigs l →
  sumZ ((λ sv, bv_weight sv.2) <$> valid_signatures e (bc_chainType c) l)
  = sumZ (signature_weight d e c <$> sigs).
Proof.
  induction 1 as [|s [s' v] sigs l [Hs Hv] _ IH]; [done|]. simpl in Hs, Hv. subst s'.
  unfold valid_signatures in *. rewrite filter_cons, fmap_cons. simpl.
  unfold signature_weight at 1. rewrite Hv.
  case_decide as Hd.
  - rewrite fmap_cons. simpl. by rewrite Hd, IH.
  - apply not_true_is_false in Hd. by rewrite Hd.
Qed.

Lemma find_event_with_chain_run id w :
  ∃ r, find_event_with_chain id w = (r, w) ∧
  ∀ o, r = Ok o →
    match o with
    | None => rows (tb_events (svc_db w)) !! id = None
    | Some (e, c) => rows (tb_events (svc_db w)) !! id = Some e ∧
                     rows (tb_chains (svc_db w)) !! be_chainId e = Some c
    end.
Proof.
  unfold find_event_with_chain, bind, query.
  destruct (findUnique id _) as [o|] eqn:E1; [|by eexists]. apply findUnique_ok in E1.
  destruct o as [e|]; [|eexists; split; [done|]; by intros ? [= <-]].
  destruct (findUnique (be_chainId e) _) as [o|] eqn:E2; [|by eexists]. apply findUnique_ok in E2.
  destruct o as [c|]; simpl; [|by eexists].
  eexists. split; [done|]. by intros ? [= <-].
Qed.

Lemma find_signatures_run id w :
  ∃ r, find_signatures id w = (r, w) ∧
  ∀ l, r = Ok l → ∃ sigs, sigs ≡ₚ signatures_of (svc_db w) id ∧
    Forall2 (λ s sv, sv.1 = s ∧ rows (tb_validators (svc_db w)) !! sg_validatorId s = Some sv.2) sigs l.
Proof.
  unfold find_signatures, bind, query.
  destruct (findAll _) as [all|] eqn:E1; [|by eexists]. apply findAll_ok in E1.
  destruct (include_validators_run (filter (λ s, sg_bridgeEventId s = id) all) w) as (r & -> & Hr).
  exists r. split; [done|]. intros l Hl. eexists. split; [|by apply Hr].
  unfold signatures_of, all_rows. by rewrite E1.
Qed.

(** [verifyBridgeEventSignatures] never throws, answers [true] only when the threshold is
    reached, and writes nothing else than [VERIFIED] on such an event. *)
Lemma wp_verify id w :
  wp (verifyBridgeEventSignatures id)
    (λ b w', svc_env w' = svc_env w ∧ verified_or_same (svc_db w) id (svc_db w') ∧
             (b = true → threshold_reached (svc_db w) id ∧
                ∃ e, rows (tb_events (svc_db w)) !! id = Some e ∧
                rows (tb_events (svc_db w')) = <[id := set_event_status "VERIFIED" e]>
                                                 (rows (tb_events (svc_db w)))) ∧
             (b = false → rows (tb_events (svc_db w')) = rows (tb_events (svc_db w))))
    (λ _ _, False) w.
Proof.
  set (Q := λ (b : bool) (w' : world), svc_env w' = svc_env w ∧ _).
  assert (Q false w) as Q0 by (split_and!; [done|apply verified_or_same_refl|done|done]).
  unfold verifyBridgeEventSignatures. apply wp_try_catch.
  eapply (wp_mono _ Q _ (λ _, Q false)); [|done|done].
  apply wp_bind. unfold wp at 1.
  destruct (find_event_with_chain_run id w) as (r & -> & Hr). destruct r as [o|]; [|done].
  specialize (Hr o eq_refl). destruct o as [[e c]|]; [|by apply wp_ret]. destruct Hr as [He Hc].
  apply wp_bind, wp_query; [|done]. intros all Hall%findAll_ok.
  case_decide as Hv; [by apply wp_ret|].
  apply wp_bind. unfold wp at 1.
  destruct (find_signatures_run id w) as (r & -> & Hr). destruct r as [sigs|]; [|done].
  destruct (Hr sigs eq_refl) as (raw & Hraw & Hsigs).
  assert (active_validators (bc_chainId c) all ≡ₚ chain_validators (svc_db w) c) as Hact.
  { unfold chain_validators, active_validators, all_rows. by rewrite Hall. }
  rewrite (valid_weight_sum (svc_db w) e c raw sigs Hsigs).
  rewrite (sumZ_perm _ _ (fmap_Permutation (signature_weight (svc_db w) e c) _ _ Hraw)).
  rewrite (sumZ_perm _ _ (fmap_Permutation bv_weight _ _ Hact)).
  set (total := sumZ (bv_weight <$> _)). set (verified := sumZ (signature_weight _ _ _ <$> _)).
  destruct (Z.leb_spec (required_threshold total) verified) as [Hle|]; [|by apply wp_ret].
  assert (threshold_reached (svc_db w) id) as Ht.
  { exists e, c. split_and!; [done|done| |].
    - intros Hnil. apply Hv. rewrite Hnil in Hact. by apply Permutation_nil_r in Hact.
    - fold total verified. pose proof (required_threshold_spec total). lia. }
  apply wp_bind, wp_bind, wp_on_db.
  - intros e' d' (Hu & Hd')%on_events_inv. apply update_ok in Hu as (e0 & He0 & -> & Hrows).
    apply wp_ret, wp_ret. rewrite He in He0. injection He0 as <-. unfold Q. simpl.
    split_and!; [done| |by eauto|done]. exists (tb_events d'). split; [done|]. right. eauto.
  - intros ? d' (Hu & Hd')%on_events_inv. apply update_err in Hu. unfold Q. simpl.
    split_and!; [done| |done|done]. exists (tb_events d'). auto.
Qed.

(** C27. What a verified bridge event is: [verifyBridgeEventSignatures] never throws and
    touches no table but the events. When it answers [true], the genuine signatures stored
    for the event weigh at least two thirds of the weight of its chain's active validators
    (of which there is at least one), and the one row that changed is this event's, whose
    status became [VERIFIED]; when it answers [false], no event changed. *)
Theorem verified_has_threshold id w :
  match verifyBridgeEventSignatures id w with
  | (Throw _, _) => False
  | (Ok b, w') =>
      tb_chains (svc_db w') = tb_chains (svc_db w) ∧
      tb_validators (svc_db w') = tb_validators (svc_db w) ∧
      tb_signatures (svc_db w') = tb_signatures (svc_db w) ∧
      tb_operations (svc_db w') = tb_operations (svc_db w) ∧
      if b then threshold_reached (svc_db w) id ∧
         ∃ e, rows (tb_events (svc_db w)) !! id = Some e ∧
              rows (tb_events (svc_db w'))
              = <[id := set_event_status "VERIFIED" e]> (rows (tb_events (svc_db w)))
      else rows (tb_events (svc_db w')) = rows (tb_events (svc_db w))
  end.
Proof.
  pose proof (wp_verify id w) as Hw. unfold wp in Hw.
  destruct (verifyBridgeEventSignatures id w) as [[b|e] w']; [|done].
  destruct Hw as (_ & (t & -> & _) & Hb & Hf). simpl in *. destruct b; split_and!; naive_solver.
Qed.

(** ** Adding a signature *)

Definition genuine_for d (e : BridgeEvent) (s : BridgeValidatorSignature) : Prop :=
  ∃ c v, rows (tb_chains d) !! be_chainId e = Some c ∧
    rows (tb_validators d) !! sg_validatorId s = Some v ∧
    verifyValidatorSignature e (bc_chainType c) (bv_validatorAddress v) (sg_signature s) = true.

(** Validators are stored under their id. *)
Definition validators_keyed d : Prop :=
  ∀ k v, rows (tb_validators d) !! k = Some v → bv_id v = k.

(** A new genuine signature by an active validator that had not signed. *)
Definition signature_added d (id : Z) (address signature : string) d' : Prop :=
  ∃ e v, rows (tb_events d) !! id = Some e ∧
    rows (tb_validators d) !! bv_id v = Some v ∧ bv_isActive v = true ∧
    bv_validatorAddress v = address ∧
    rows (tb_signatures d) !! (id, bv_id v) = None ∧
    genuine_for d e (mkBridgeSignature id (bv_id v) signature) ∧
    rows (tb_signatures d')
    = <[(id, bv_id v) := mkBridgeSignature id (bv_id v) signature]> (rows (tb_signatures d)).

Lemma find_validator_run address w :
  validators_keyed (svc_db w) →
  ∃ r, find_validator address w = (r, w) ∧
  ∀ v, r = Ok (Some v) → rows (tb_validators (svc_db w)) !! bv_id v = Some v ∧
                         bv_validatorAddress v = address.
Proof.
  intros Hk. unfold find_validator, bind, query.
  destruct (findAll _) as [l|] eqn:E1; [|by eexists]. apply findAll_ok in E1.
  eexists. split; [done|]. intros v [= Hf]. apply find_some in Hf as [Hin Ha].
  apply bool_decide_eq_true in Ha. split; [|done].
  apply list_elem_of_In in Hin. rewrite E1 in Hin.
  apply list_elem_of_fmap in Hin as ([k v'] & -> & Hkv). simpl.
  apply elem_of_map_to_list in Hkv. by rewrite (Hk _ _ Hkv).
Qed.

(** Everything before the insertion leaves the database alone. *)
Lemma wp_addValidatorSignature id address signature w :
  validators_keyed (svc_db w) →
  wp (addValidatorSignature id address signature)
    (λ _ _, False)
    (λ _ w', svc_env w' = svc_env w ∧
       (tb_validators (svc_db w') = tb_validators (svc_db w) ∧
        tb_chains (svc_db w') = tb_chains (svc_db w) ∧
        tb_operations (svc_db w') = tb_operations (svc_db w)) ∧
       (rows (tb_signatures (svc_db w')) = rows (tb_signatures (svc_db w)) ∧
        rows (tb_events (svc_db w')) = rows (tb_events (svc_db w)) ∨
        signature_added (svc_db w) id address signature (svc_db w') ∧
        (rows (tb_events (svc_db w')) = rows (tb_events (svc_db w)) ∨
         ∃ e, rows (tb_events (svc_db w)) !! id = Some e ∧
              rows (tb_events (svc_db w'))
              = <[id := set_event_status "VERIFIED" e]> (rows (tb_events (svc_db w))))))
    w.
Proof.
  intros Hk. set (E' := λ (_ : js_error) (w' : world), svc_env w' = svc_env w ∧ _).
  assert (∀ e, E' e w) as E0 by (intros e; unfold E'; split_and!; auto).
  unfold addValidatorSignature. apply wp_bind. unfold wp at 1.
  destruct (find_validator_run address w Hk) as (r & -> & Hr).
  destruct r as [[v|]|]; [|by apply wp_throw|done]. destruct (Hr v eq_refl) as [Hv Haddr].
  destruct (bv_isActive v) eqn:Hact; simpl negb; [|by apply wp_throw].
  apply wp_bind, wp_query; [|done]. intros [old|] Hnew%findUnique_ok; [by apply wp_throw|].
  apply wp_bind. unfold wp at 1.
  destruct (find_event_with_chain_run id w) as (r & -> & Hr'). destruct r as [o|]; [|done].
  specialize (Hr' o eq_refl). destruct o as [[e c]|]; [|by apply wp_throw].
  destruct Hr' as [He Hc].
  destruct (verifyValidatorSignature e _ address signature) eqn:Hver; simpl negb; [|by apply wp_throw].
  apply wp_bind, wp_on_db.
  2: { intros ? d' (Hcr & Hd')%on_signatures_inv. apply createUnique_err in Hcr as [Hcr _].
       rewrite Hd'. unfold E'. simpl. auto 6. }
  intros s d' (Hcr & Hd')%on_signatures_inv. apply createUnique_ok in Hcr as (_ & -> & Hrows).
  set (w1 := mkSvc d' (svc_env w)).
  assert (signature_added (svc_db w) id address signature d') as Hadd.
  { exists e, v. split_and!; [done..| |by rewrite Hrows].
    exists c, v. by rewrite Haddr. }
  assert (tb_events d' = tb_events (svc_db w)) as Hev by (by rewrite Hd').
  apply wp_bind. eapply wp_mono; [apply (wp_verify id w1)| |done].
  intros b w2 (Henv & (t & Hd2 & Ht) & _). simpl in Henv, Ht, Hd2.
  assert (∀ err, E' err w2) as E2.
  { intros err. unfold E'. rewrite Henv, Hd2. simpl. rewrite Hev in Ht.
    split_and!; [done|by rewrite Hd'..|]. right.
    split; [exact Hadd|]. destruct Ht as [?|(_ & ?)]; [by left|by right]. }
  apply wp_bind. unfold wp at 1.
  destruct (find_signatures_run id w2) as (r & -> & _). destruct r; [|done].
  apply wp_bind. by apply wp_throw.
Qed.

(** [addValidatorSignature] never returns: it throws on every input, the last of its
    queries being rejected, also when it has stored the signature. What it may have stored
    is one genuine signature of an active validator that had not signed the event. *)
Theorem addValidatorSignature_throws id address signature w :
  validators_keyed (svc_db w) →
  match addValidatorSignature id address signature w with
  | (Ok _, _) => False
  | (Throw _, w') =>
      rows (tb_signatures (svc_db w')) = rows (tb_signatures (svc_db w)) ∨
      signature_added (svc_db w) id address signature (svc_db w')
  end.
Proof.
  intros Hk. pose proof (wp_addValidatorSignature id address signature w Hk) as Hw.
  unfold wp in Hw. destruct (addValidatorSignature id address signature w) as [[r|e] w']; [done|].
  naive_solver.
Qed.

(** ** Every stored signature is genuine *)

Definition signatures_genuine d : Prop :=
  ∀ k s, rows (tb_signatures d) !! k = Some s →
    k = (sg_bridgeEventId s, sg_validatorId s) ∧
    ∃ e, rows (tb_events d) !! sg_bridgeEventId s = Some e ∧ genuine_for d e s.

(** A status change does not change what was signed. *)
Lemma genuine_status d e s st :
  genuine_for d e s → genuine_for d (set_event_status st e) s.
Proof. intros (c & v & ?). exists c, v. done. Qed.

Lemma signatures_genuine_status d d' id e st :
  signatures_genuine d → rows (tb_events d) !! id = Some e →
  tb_validators d' = tb_validators d → tb_chains d' = tb_chains d →
  rows (tb_signatures d') = rows (tb_signatures d) →
  rows (tb_events d') = <[id := set_event_status st e]> (rows (tb_events d)) →
  signatures_genuine d'.
Proof.
  intros Hg He Hv Hc Hs Hev k s Hk. rewrite Hs in Hk. destruct (Hg k s Hk) as (-> & e' & He' & Hgen).
  split; [done|]. rewrite Hev. destruct (decide (sg_bridgeEventId s = id)) as [<-|Hne].
  - rewrite He in He'. injection He' as <-. rewrite lookup_insert_eq. eexists. split; [done|].
    apply genuine_status. unfold genuine_for. by rewrite Hv, Hc.
  - rewrite lookup_insert_ne by done. exists e'. unfold genuine_for. by rewrite Hv, Hc.
Qed.

(** Invariant of the signature table: each row is the genuine signature, over the
    fields of an existing event, of the validator it names, and is stored under that pair,
    so that no validator counts twice. Adding signatures and verifying events keep it. *)
Theorem signatures_stay_genuine id address signature w :
  validators_keyed (svc_db w) → signatures_genuine (svc_db w) →
  signatures_genuine (svc_db (final (addValidatorSignature id address signature) w)) ∧
  signatures_genuine (svc_db (final (verifyBridgeEventSignatures id) w)).
Proof.
  intros Hk Hg. split.
  - apply (wp_final _ (λ w', signatures_genuine (svc_db w'))).
    eapply wp_mono; [by apply wp_addValidatorSignature|done|].
    intros err w' (_ & (Hv & Hc & _) & [[Hs He]|[Hadd Hev]]).
    + intros k s Hks. rewrite Hs in Hks. destruct (Hg k s Hks) as (-> & e & ? & ?).
      split; [done|]. exists e. rewrite He. unfold genuine_for. by rewrite Hv, Hc.
    + destruct Hadd as (e & v & He & Hvv & _ & _ & Hnone & Hgen & Hs).
      assert (signatures_genuine (mkBridgeDb (tb_chains (svc_db w)) (tb_validators (svc_db w))
                (tb_events (svc_db w)) (tb_signatures (svc_db w')) (tb_operations (svc_db w)))) as Hg1.
      { intros k s Hks. simpl in *. rewrite Hs in Hks.
        destruct (decide (k = (id, bv_id v))) as [->|Hne].
        - rewrite lookup_insert_eq in Hks. injection Hks as <-. simpl. eauto.
        - rewrite lookup_insert_ne in Hks by done. by apply Hg. }
      destruct Hev as [Hev|(e' & He' & Hev)].
      * intros k s Hks. destruct (Hg1 k s Hks) as (-> & e' & ? & ?). split; [done|].
        exists e'. rewrite Hev. unfold genuine_for. by rewrite Hv, Hc.
      * by eapply signatures_genuine_status; [exact Hg1|exact He'|done..].
  - apply (wp_final _ (λ w', signatures_genuine (svc_db w'))).
    eapply wp_mono; [apply wp_verify| |done]. intros b w' (_ & (t & -> & Ht) & _).
    destruct Ht as [Ht|(_ & e & He & Ht)].
    + intros k s Hks. destruct (Hg k s Hks) as (-> & e & ? & ?). split; [done|].
      exists e. simpl. by rewrite Ht.
    + by eapply signatures_genuine_status; [exact Hg|exact He|done..].
Qed.
End spec.

(** ** Concrete runs *)

(** A signature scheme in which the signature names the signer. *)
#[export] Instance naming_crypto : BridgeCrypto := {|
  verifyMessage _ signature := Ok signature;
  ed25519_verify address _ signature := Ok (bool_decide (address = signature));
|}.

Definition mem_bridge := bridge_db (gmap Z BridgeChain) (gmap Z BridgeValidator)
  (gmap Z BridgeEvent) (gmap (Z * Z) BridgeValidatorSignature) (gmap string BridgeOperation).

Definition sample_event (id chain : Z) : BridgeEvent :=
  mkBridgeEvent id chain "TOKEN_LOCK" "0xfeed" "100" "0xa11ce" None (Some "GDEST") "PENDING" None.

Definition sample_tables (vs : list BridgeValidator) (ss : list BridgeValidatorSignature)
    : mem_bridge :=
  mkBridgeDb (<[1 := mkBridgeChain 1 "1" "EVM" true]> (<[2 := mkBridgeChain 2 "137" "EVM" true]> ∅))
    (list_to_map ((λ v, (bv_id v, v)) <$> vs)) {[ 7 := sample_event 7 1 ]}
    (list_to_map ((λ s, ((sg_bridgeEventId s, sg_validatorId s), s)) <$> ss)) ∅.

Definition two_validators : list BridgeValidator :=
  [mkBridgeValidator 1 "1" "0xAA" true 3; mkBridgeValidator 2 "1" "0xBB" true 1].
Definition signing_world : svc mem_bridge unit := mkSvc (sample_tables two_validators []) tt.

Example sample_keyed : validators_keyed (svc_db signing_world).
Proof.
  apply (bool_decide_unpack (map_Forall (λ k v, bv_id v = k) (tb_validators (svc_db signing_world)))).
  by vm_compute.
Defined.

(** The call throws, the signature is stored and the event verified. *)
Example addValidatorSignature_throws_witness :
  tb_signatures (svc_db (final (addValidatorSignature 7 "0xAA" "0xaa") signing_world))
    = {[ (7, 1) := mkBridgeSignature 7 1 "0xaa" ]} ∧
  be_status <$> tb_events (svc_db (final (addValidatorSignature 7 "0xAA" "0xaa") signing_world)) !! 7
    = Some "VERIFIED" ∧
  match addValidatorSignature 7 "0xAA" "0xaa" signing_world with
  | (Ok _, _) => False
  | (Throw _, w') =>
      rows (tb_signatures (svc_db w')) = rows (tb_signatures (svc_db signing_world)) ∨
      signature_added (svc_db signing_world) 7 "0xAA" "0xaa" (svc_db w')
  end.
Proof.
  split; [by vm_compute|]. split; [by vm_compute|].
  exact (addValidatorSignature_throws 7 "0xAA" "0xaa" signing_world sample_keyed).
Defined.

Example signatures_stay_genuine_witness :
  signatures_genuine (svc_db (final (addValidatorSignature 7 "0xBB" "0xbb") signing_world)) ∧
  signatures_genuine (svc_db (final (verifyBridgeEventSignatures 7) signing_world)).
Proof.
  apply (signatures_stay_genuine 7 "0xBB" "0xbb" signing_world sample_keyed).
  intros k s Hk. simpl in Hk. by rewrite lookup_empty in Hk.
Defined.

(** Validator 2 serves another chain and validator 3 is inactive; together they verify an
    event of chain "1", none of whose validators has signed. *)
Definition foreign_world : svc mem_bridge unit :=
  mkSvc (sample_tables
    [mkBridgeValidator 1 "1" "0xAA" true 3; mkBridgeValidator 2 "137" "0xBB" true 1;
     mkBridgeValidator 3 "1" "0xCC" false 1]
    [mkBridgeSignature 7 2 "0xbb"; mkBridgeSignature 7 3 "0xcc"]) tt.

(** The threshold is taken over the active validators of the event's chain, but the
    weight that meets it is not: signatures of a validator of another chain and of a
    deactivated one verify an event that no active validator of its chain has signed. *)
Theorem foreign_weight_verifies :
  outcome (verifyBridgeEventSignatures 7) foreign_world = Ok true ∧
  filter (λ v : BridgeValidator, bv_chainId v = "1" ∧ bv_isActive v = true ∧
            is_Some (tb_signatures (svc_db foreign_world) !! (7, bv_id v)))
    (all_rows (tb_validators (svc_db foreign_world))) = [].
Proof. split; by vm_compute. Qed.
