(* ===== verification/BridgeQueue.v ===== *)
(** * The token bridge: minting and the operation queue
    ([services/bridgeMintingService.ts], [services/bridgeQueueService.ts],
    [services/bridgeRelayerHealthMonitor.ts])

    Operations are rows that a poll tick picks by priority, submits to the network and
    marks completed or failed. The health monitor restarts the worker, whose start runs a
    tick again: the tick is recursive, and takes fuel. The SDK, the RPC server and the
    signer are the class [BridgeWorld]. *)

From stdpp Require Import pretty.
From S2P Require Import Prelude JsDate JsString JsDecimal Prisma Service SequenceManager BridgeVerify.

Local Open Scope Z_scope.

Record BridgeOperationParams := mkParams {
  pa_bridgeEventId : Z;
  pa_sorobanContract : string;
  pa_mintAmount : string;
  pa_recipientAddress : string;
  pa_priority : option Z;
}.

Record QueueStats := mkStats {
  qs_queued : nat;
  qs_processing : nat;
  qs_completed : nat;
  qs_failed : nat;
}.

Record StagedTransaction := mkStaged {
  st_contractId : string;
  st_amount : string;
  st_recipient : string;
  st_transactionXdr : string;
  st_hash : string;
}.

(** The call of the contract's [mint] that a transaction carries. *)
Record mint_call := mkMint {
  mc_account : string;
  mc_sequence : Z;
  mc_fee : Z;
  mc_contract : string;
  mc_recipient : string;
  mc_amount : Z;
  mc_transactionHash : string;
  mc_chainId : string;
}.

Inductive tx_status := TxSuccess | TxFailed (resultXdr : string) | TxOther.

Class BridgeWorld (X Tx : Type) := {
  bw_now : X → Z;
  (** [process.env.SOROBAN_BRIDGE_CONTRACT_ID] *)
  bridge_contract : option string;
  getPublicKey : M X string;
  (** [loadAccount(address)] and its sequence number *)
  horizon_sequence : string → X → horizon_answer * X;
  fetchBaseFee : M X Z;
  (** building the transaction, [simulateTransaction], [assembleTransaction] *)
  assemble : mint_call → M X Tx;
  tx_hash : Tx → string;
  tx_xdr : Tx → string;
  sign_tx : Tx → M X string;
  sendTransaction : Tx → string → M X string;
  getTransaction : string → M X tx_status;
  pause_ms : Z → X → X;
  bw_sendAlert : Z → M X unit;
}.

(** The service object, its health monitor included. *)
Record queue_mem := mkQueueMem {
  qm_isProcessing : bool;
  qm_processingInterval : bool;
  qm_consecutiveFailures : Z;
  qm_backlogAlertActive : bool;
}.

Record bridge_env (X : Type) := mkBridgeEnv {
  en_mem : queue_mem;
  en_sequences : sequences;
  en_out : X;
}.
Arguments mkBridgeEnv {X} _ _ _.
Arguments en_mem {X} _.
Arguments en_sequences {X} _.
Arguments en_out {X} _.

Definition BACKLOG_THRESHOLD : Z := 50.
Definition FAILURE_THRESHOLD : Z := 3.

(** ** Changes of an operation *)

Definition with_status (status : string) (tx : option string) (retry : Z)
    (started completed : option Z) (o : BridgeOperation) : BridgeOperation :=
  mkBridgeOperation (bo_id o) (bo_bridgeEventId o) (bo_sorobanContract o) (bo_mintAmount o)
    (bo_recipientAddress o) tx status (bo_priority o) retry (bo_maxRetries o) (bo_queuedAt o)
    started completed.

Definition mark_processing (t : Z) (o : BridgeOperation) : BridgeOperation :=
  with_status "PROCESSING" (bo_stellarTxHash o) (bo_retryCount o) (Some t) (bo_completedAt o) o.
Definition mark_completed (hash : string) (t : Z) (o : BridgeOperation) : BridgeOperation :=
  with_status "COMPLETED" (Some hash) (bo_retryCount o) (bo_processingStartedAt o) (Some t) o.
Definition mark_failed (o : BridgeOperation) : BridgeOperation :=
  with_status "FAILED" (bo_stellarTxHash o) (bo_retryCount o + 1) (bo_processingStartedAt o)
    (bo_completedAt o) o.
Definition mark_requeued (o : BridgeOperation) : BridgeOperation :=
  with_status "QUEUED" (bo_stellarTxHash o) (bo_retryCount o + 1) (bo_processingStartedAt o)
    (bo_completedAt o) o.

Definition complete_event (t : Z) (e : BridgeEvent) : BridgeEvent :=
  mkBridgeEvent (be_id e) (be_chainId e) (be_eventType e) (be_transactionHash e)
    (be_tokenAmount e) (be_fromAddress e) (be_destinationChainId e) (be_destinationAddress e)
    "COMPLETED" (Some t).

(** The order of [findFirst]: priority, then time of queueing, both ascending. *)
Definition urgency (a b : BridgeOperation) : Prop :=
  bo_priority a < bo_priority b ∨ bo_priority a = bo_priority b ∧ bo_queuedAt a ≤ bo_queuedAt b.

#[global] Instance urgency_dec a b : Decision (urgency a b).
Proof. unfold urgency. apply _. Defined.
#[global] Instance urgency_total : Total urgency.
Proof. intros a b. unfold urgency. lia. Qed.
#[global] Instance urgency_trans : Transitive urgency.
Proof. intros a b c. unfold urgency. lia. Qed.

Definition eligible (o : BridgeOperation) : bool :=
  bool_decide (bo_queueStatus o = "QUEUED") && (bo_retryCount o <? 3).
Definition has_status (status : string) (o : BridgeOperation) : bool :=
  bool_decide (bo_queueStatus o = status).

Section queue.
Context {TC TV TE TS TO X Tx : Type}.
Context `{!PrismaTable Z BridgeEvent TE} `{!PrismaTable string BridgeOperation TO}.
Context `{!BridgeWorld X Tx}.

Notation run := (M (svc (bridge_db TC TV TE TS TO) (bridge_env X))).

Definition outside {A} (c : M X A) : run A :=
  on_env (λ e, let '(r, x) := c (en_out e) in (r, mkBridgeEnv (en_mem e) (en_sequences e) x)).
Definition new_Date : run Z := λ w, (Ok (bw_now (en_out (svc_env w))), w).
Definition set_mem (f : queue_mem → queue_mem) : run unit :=
  on_env (modify (λ e, mkBridgeEnv (f (en_mem e)) (en_sequences e) (en_out e))).
Definition mem : run queue_mem := λ w, (Ok (en_mem (svc_env w)), w).

(** [sequenceManager.getNextSequence]: Horizon is asked when no number is cached. *)
Definition next_sequence (publicKey : string) : run Z :=
  on_env (λ e,
    let '(answer, x) := match en_sequences e !! publicKey with
                        | Some _ => (Throw (Error ""), en_out e)
                        | None => horizon_sequence publicKey (en_out e)
                        end in
    let '(r, s) := getNextSequence publicKey answer (en_sequences e) in
    (r, mkBridgeEnv (en_mem e) s x)).

Definition BigInt_text (text : string) : run Z :=
  match BigInt_str text with
  | Some n => ret n
  | None => throw (Error ("Cannot convert " +:+ text +:+ " to a BigInt"))
  end.

Definition update_operation (id : string) (f : BridgeOperation → BridgeOperation) : run unit :=
  on_db (on_operations (update id f)) ;;; ret tt.

(** ** Minting *)

(** Account, fee, transaction, simulation, assembly. *)
Definition build_mint (contract recipient amount transactionHash chainId : string) : run Tx :=
  publicKey <- outside getPublicKey ;;
  sequence <- next_sequence publicKey ;;
  fee <- outside fetchBaseFee ;;
  n <- BigInt_text amount ;;
  outside (assemble (mkMint publicKey sequence fee contract recipient n transactionHash chainId)).

Definition stageSorobanMintTransaction (bridgeEvent : BridgeEvent) : run (option StagedTransaction) :=
  try_catch
    (let sorobanContractId := str_or (default "" bridge_contract)
                                (default "" (be_destinationChainId bridgeEvent)) in
     if negb (truthy_str sorobanContractId) then ret None
     else
       let mintAmount := be_tokenAmount bridgeEvent in
       let recipient := str_or (default "" (be_destinationAddress bridgeEvent))
                          (be_fromAddress bridgeEvent) in
       tx <- build_mint sorobanContractId recipient mintAmount
               (be_transactionHash bridgeEvent) (pretty (be_chainId bridgeEvent)) ;;
       ret (Some (mkStaged sorobanContractId mintAmount recipient (tx_xdr tx) (tx_hash tx))))
    (λ _, ret None).

(** The loop that waits for confirmation, [attempts] to go. *)
Fixpoint wait_confirmation (attempts : nat) (id : string) (eventId : Z) (hash : string)
    : run string :=
  match attempts with
  | O => throw (Error "Transaction confirmation timeout")
  | S attempts' =>
      result <- outside (getTransaction hash) ;;
      match result with
      | TxSuccess =>
          t <- new_Date ;;
          update_operation id (mark_completed hash t) ;;;
          t' <- new_Date ;;
          on_db (on_events (update eventId (complete_event t'))) ;;;
          ret hash
      | TxFailed resultXdr => throw (Error ("Transaction failed: " +:+ resultXdr))
      | TxOther =>
          outside (modify (pause_ms 1000)) ;;;
          wait_confirmation attempts' id eventId hash
      end
  end.

Definition submitStagedMintTransaction (id : string) : run (option string) :=
  try_catch
    (o <- query (λ d, findUnique id (tb_operations d)) ;;
     match o with
     | None => ret None
     | Some operation =>
         e <- query (λ d, findUnique (bo_bridgeEventId operation) (tb_events d)) ;;
         bridgeEvent <- required e ;;
         t <- new_Date ;;
         update_operation id (mark_processing t) ;;;
         tx <- build_mint (bo_sorobanContract operation) (bo_recipientAddress operation)
                 (bo_mintAmount operation) (be_transactionHash bridgeEvent)
                 (pretty (be_chainId bridgeEvent)) ;;
         signature <- outside (sign_tx tx) ;;
         hash <- outside (sendTransaction tx signature) ;;
         h <- wait_confirmation 30 id (bo_bridgeEventId operation) hash ;;
         ret (Some h)
     end)
    (λ _, update_operation id mark_failed ;;; ret None).

(** ** The queue *)

Definition enqueue (params : BridgeOperationParams) : run string :=
  t <- new_Date ;;
  let priority := match pa_priority params with
                  | Some p => if p =? 0 then 5 else p
                  | None => 5
                  end in
  operation <- on_db (on_operations (create (λ id,
    mkBridgeOperation id (pa_bridgeEventId params) (pa_sorobanContract params)
      (pa_mintAmount params) (pa_recipientAddress params) None "QUEUED" priority 0 3 t
      None None))) ;;
  ret (bo_id operation).

Definition getPendingCount : run nat :=
  query (λ d, count (λ o, has_status "QUEUED" o || has_status "PROCESSING" o) (tb_operations d)).

Definition count_status (status : string) : run nat :=
  query (λ d, count (has_status status) (tb_operations d)).

Definition getStats : run QueueStats :=
  queued <- count_status "QUEUED" ;;
  processing <- count_status "PROCESSING" ;;
  completed <- count_status "COMPLETED" ;;
  failed <- count_status "FAILED" ;;
  ret (mkStats queued processing completed failed).

Definition retryFailedOperations : run nat :=
  on_db (on_operations (updateMany (λ o, has_status "FAILED" o && (bo_retryCount o <? 3))
                          mark_requeued)).

Definition getOperationsByEvent (bridgeEventId : Z) : run (list BridgeOperation) :=
  l <- query (λ d, findAll (tb_operations d)) ;;
  ret (filter (λ o, bo_bridgeEventId o = bridgeEventId) l).

(** A truthy [errorMessage] names a column the table does not have, and the client
    rejects the call. *)
Definition updateOperationStatus (id status : string) (errorMessage : option string) : run unit :=
  t <- new_Date ;;
  if truthy_opt errorMessage then
    throw (Error "Unknown argument `errorMessage`. Available options are marked with ?.")
  else
    update_operation id (λ o, with_status status (bo_stellarTxHash o) (bo_retryCount o)
      (if decide (status = "PROCESSING") then Some t else bo_processingStartedAt o)
      (if decide (status = "COMPLETED") then Some t else bo_completedAt o) o).

(** [setDate] moves the date by whole days (a server without daylight saving). *)
Definition cleanupOldOperations (daysToKeep : Z) : run nat :=
  t <- new_Date ;;
  let cutoffDate := t - daysToKeep * 86400000 in
  on_db (on_operations (deleteMany (λ o, has_status "COMPLETED" o &&
    match bo_completedAt o with Some c => c <? cutoffDate | None => false end))).

(** [findFirst] of the tick. *)
Definition next_operation : run (option BridgeOperation) :=
  l <- query (λ d, findAll (tb_operations d)) ;;
  ret (head (merge_sort urgency (filter (λ o, eligible o = true) l))).

(** ** The health monitor and the worker

    [notifications] says whether the monitor was given a notification service; the queue
    service gives it none. *)
Definition health_check (notifications : bool) : run (nat * bool) :=
  pending <- getPendingCount ;;
  m <- mem ;;
  (if (BACKLOG_THRESHOLD <? Z.of_nat pending) && negb (qm_backlogAlertActive m) then
     set_mem (λ m, mkQueueMem (qm_isProcessing m) (qm_processingInterval m)
                     (qm_consecutiveFailures m) true) ;;;
     (if notifications then outside (bw_sendAlert (Z.of_nat pending)) else ret tt)
   else if Z.of_nat pending <=? BACKLOG_THRESHOLD then
     set_mem (λ m, mkQueueMem (qm_isProcessing m) (qm_processingInterval m)
                     (qm_consecutiveFailures m) false)
   else ret tt) ;;;
  ret (pending, Z.of_nat pending <=? BACKLOG_THRESHOLD).

Definition set_failures (n : Z) : run unit :=
  set_mem (λ m, mkQueueMem (qm_isProcessing m) (qm_processingInterval m) n
                  (qm_backlogAlertActive m)).
Definition recordWorkerSuccess : run unit := set_failures 0.

Definition queue_stop : run unit :=
  set_mem (λ m, mkQueueMem false false (qm_consecutiveFailures m) (qm_backlogAlertActive m)).

(** [start], whose first tick is [tick]. [None]: the fuel of the tick ran out. *)
Definition queue_start (tick : run (option unit)) : run (option unit) :=
  m <- mem ;;
  if qm_isProcessing m then ret (Some tt)
  else
    set_mem (λ m, mkQueueMem true true (qm_consecutiveFailures m) (qm_backlogAlertActive m)) ;;;
    tick.

Definition recordWorkerFailure (restartWorker : run (option unit)) : run (option bool) :=
  m <- mem ;;
  set_failures (qm_consecutiveFailures m + 1) ;;;
  if qm_consecutiveFailures m + 1 <? FAILURE_THRESHOLD then ret (Some false)
  else
    try_catch
      (r <- restartWorker ;;
       match r with
       | None => ret None
       | Some _ => set_failures 0 ;;; ret (Some true)
       end)
      (λ _, ret (Some false)).

(** The body of [processQueue], inside its [try]. *)
Definition tick_body : run unit :=
  health_check false ;;;
  operation <- next_operation ;;
  match operation with
  | None => recordWorkerSuccess
  | Some operation =>
      txHash <- submitStagedMintTransaction (bo_id operation) ;;
      match txHash with
      | Some h => if truthy_str h then recordWorkerSuccess else ret tt
      | None => ret tt
      end
  end.

Fixpoint processQueue (fuel : nat) : run (option unit) :=
  match fuel with
  | O => ret None
  | S fuel' =>
      try_catch (tick_body ;;; ret (Some tt))
        (λ _, r <- recordWorkerFailure (queue_stop ;;; queue_start (processQueue fuel')) ;;
              ret (match r with None => None | Some _ => Some tt end))
  end.
End queue.

(** ** Lifting of statements and effects *)

Section queue_theorems.
Context {TC TV TE TS TO X Tx : Type}.
Context `{!PrismaTable Z BridgeEvent TE} `{!PrismaTable string BridgeOperation TO}.
Context `{!BridgeWorld X Tx}.
Notation db := (bridge_db TC TV TE TS TO).
Notation world := (svc db (bridge_env X)).
Notation run := (M world).
Implicit Types (d : db) (w : world).

(** Every operation satisfies [P] of its key. *)
Definition all_ops (P : string → BridgeOperation → Prop) d : Prop :=
  ∀ k o, rows (tb_operations d) !! k = Some o → P k o.
Notation keeps_ops P := (preserves (λ w : world, all_ops P (svc_db w))).

Lemma wp_bridge_outside {A} (c : M X A) Q E w :
  (∀ a e, (c (en_out (svc_env w))).1 = Ok a → Q a (mkSvc (svc_db w) e)) →
  (∀ err e, E err (mkSvc (svc_db w) e)) → wp (outside c : run A) Q E w.
Proof.
  intros HQ HE. unfold wp, outside, on_env. destruct (c (en_out (svc_env w))) as [[a|err] x] eqn:Ec.
  - apply HQ. first [done|by rewrite Ec].
  - apply HE.
Qed.

Lemma keeps_outside {A} P (c : M X A) : keeps_ops P (outside c).
Proof. intros w Hw. by apply wp_bridge_outside. Qed.
Lemma keeps_set_mem P f : keeps_ops P (set_mem f).
Proof. apply preserves_on_env. Qed.
Lemma keeps_new_Date P : keeps_ops P (new_Date).
Proof. by intros w. Qed.
Lemma keeps_mem P : keeps_ops P (mem).
Proof. by intros w. Qed.
Lemma keeps_next_sequence P pk : keeps_ops P (next_sequence pk).
Proof. apply preserves_on_env. Qed.
Lemma keeps_BigInt P t : keeps_ops P (BigInt_text t).
Proof. unfold BigInt_text. preserve. Qed.
Lemma keeps_events {A} P (c : M TE A) : keeps_ops P (on_db (on_events c)).
Proof.
  apply (preserves_on_db (all_ops P)). intros d r d' Hd (_ & ->)%on_events_inv. exact Hd.
Qed.
Lemma keeps_required {A} P (o : option A) : keeps_ops P (required o).
Proof. unfold required. preserve. Qed.
#[local] Hint Resolve keeps_outside keeps_set_mem keeps_new_Date keeps_mem keeps_next_sequence
  keeps_BigInt keeps_events keeps_required : sf.

(** An update of one operation, which may move it from one property to another. *)
Lemma wp_update_operation (P P' : string → BridgeOperation → Prop) id f w :
  all_ops P (svc_db w) →
  (∀ o, P id o → P' id (f o)) → (∀ k o, k ≠ id → P k o → P' k o) →
  wp (update_operation id f : run unit) (λ _ w', all_ops P' (svc_db w'))
    (λ _ w', all_ops P (svc_db w')) w.
Proof.
  intros HP Hf Hk. apply wp_bind, wp_on_db.
  - intros o d' (Hu & ->)%on_operations_inv. apply update_ok in Hu as (o0 & Ho & -> & Hr).
    apply wp_ret. intros k r. simpl. rewrite Hr. destruct (decide (k = id)) as [->|Hne].
    + rewrite lookup_insert_eq. intros [= <-]. apply Hf, HP, Ho.
    + rewrite lookup_insert_ne by done. intros Hkr. by apply Hk, HP.
  - intros e d' (Hu & ->)%on_operations_inv. apply update_err in Hu.
    intros k r. simpl. rewrite Hu. apply HP.
Qed.

Lemma keeps_update_operation P id f :
  (∀ o, P id o → P id (f o)) → keeps_ops P (update_operation id f).
Proof. intros Hf w Hw. by apply wp_update_operation. Qed.

(** ** Retry counts, and what [COMPLETED] means *)

(** The network has reported the success of [hash]. *)
Definition confirmed (hash : string) : Prop := ∃ x, (getTransaction hash x).1 = Ok TxSuccess.

Definition first_or_last (o : BridgeOperation) : Prop := bo_retryCount o = 0 ∨ bo_retryCount o = 2.

Definition op_ok (k : string) (o : BridgeOperation) : Prop :=
  bo_id o = k ∧
  ((bo_queueStatus o = "QUEUED" ∨ bo_queueStatus o = "PROCESSING" ∨ bo_queueStatus o = "COMPLETED")
     ∧ first_or_last o
   ∨ bo_queueStatus o = "FAILED" ∧ (bo_retryCount o = 1 ∨ bo_retryCount o = 3)).

(** A [COMPLETED] operation is confirmed, or [manual] says it was completed by hand. *)
Definition op_confirmed (manual : string → Prop) (k : string) (o : BridgeOperation) : Prop :=
  bo_id o = k ∧
  (bo_queueStatus o = "COMPLETED" → (∃ h, bo_stellarTxHash o = Some h ∧ confirmed h) ∨ manual k).

(** The operation [id] is being attempted. *)
Definition attempting (id : string) (k : string) (o : BridgeOperation) : Prop :=
  op_ok k o ∧ (k = id → first_or_last o).

Lemma all_ops_mono (P P' : string → BridgeOperation → Prop) d :
  (∀ k o, P k o → P' k o) → all_ops P d → all_ops P' d.
Proof. unfold all_ops. naive_solver. Qed.

Lemma attempting_processing id t o : attempting id id o → attempting id id (mark_processing t o).
Proof.
  intros [[Hid _] Hr]. specialize (Hr eq_refl).
  split; [|done]. split; [done|]. left. split; [simpl; auto|done].
Qed.

Lemma attempting_completed id h t o : attempting id id o → attempting id id (mark_completed h t o).
Proof.
  intros [[Hid _] Hr]. specialize (Hr eq_refl). split; [|done].
  split; [done|]. left. split; [simpl; auto|done].
Qed.

Lemma attempting_failed id o : attempting id id o → op_ok id (mark_failed o).
Proof.
  intros [[Hid _] Hr]. specialize (Hr eq_refl). unfold first_or_last in Hr.
  split; [done|]. right. simpl. split; [done|lia].
Qed.

Lemma keeps_build_mint P c r a h n : keeps_ops P (build_mint c r a h n).
Proof. unfold build_mint. preserve. Qed.
#[local] Hint Resolve keeps_build_mint : sf.

Lemma keeps_wait_confirmation P n id ev hash :
  (∀ h t o, confirmed h → P id o → P id (mark_completed h t o)) → keeps_ops P (wait_confirmation n id ev hash).
Proof.
  intros HP. induction n as [|n IH]; simpl; [by apply preserves_throw|].
  intros w Hw. apply wp_bind, wp_bridge_outside; [|done]. intros status e Hs.
  assert (∀ e, all_ops P (svc_db (mkSvc (svc_db w) e : world))) as Hw' by done.
  destruct status as [|r|].
  - assert (confirmed hash) as Hc by (by eexists).
    match goal with |- wp ?c _ _ _ => assert (keeps_ops P c) as K end.
    { preserve. apply keeps_update_operation. intros o. by apply HP. }
    apply (K _ (Hw' e)).
  - by apply wp_throw.
  - apply wp_bind, wp_bridge_outside; [|done]. intros _ e' _. by apply IH.
Qed.

Lemma wp_submit_mint id w :
  all_ops (attempting id) (svc_db w) →
  wp (submitStagedMintTransaction id : run (option string))
    (λ _ w', all_ops op_ok (svc_db w')) (λ _ w', all_ops op_ok (svc_db w')) w.
Proof.
  intros Hw. unfold submitStagedMintTransaction. apply wp_try_catch.
  assert (∀ w', all_ops (attempting id) (svc_db w') → all_ops op_ok (svc_db w')) as Hweak
    by (intros w'; apply all_ops_mono; by intros k o [? _]).
  eapply wp_mono with (Q := λ _ w', all_ops (attempting id) (svc_db w'))
    (E := λ _ w', all_ops (attempting id) (svc_db w')).
  - revert w Hw.
    match goal with |- ∀ w, _ → wp ?c _ _ w => change (keeps_ops (attempting id) c) end.
    preserve; [|apply keeps_wait_confirmation; intros h t o _; apply attempting_completed].
    apply keeps_update_operation. intros o. by apply attempting_processing.
  - intros _ w' Hw'. by apply Hweak.
  - intros _ w' Hw'. apply wp_bind.
    eapply wp_mono; [apply (wp_update_operation (attempting id) op_ok)|..]; [done| | |by auto|by auto].
    + apply attempting_failed.
    + by intros k o _ [? _].
Qed.
(** ** The tick *)

Lemma head_merge_sort (l : list BridgeOperation) o :
  head (merge_sort urgency l) = Some o → o ∈ l ∧ Forall (urgency o) l.
Proof.
  intros Ho. pose proof (merge_sort_Permutation urgency l) as P.
  pose proof (StronglySorted_merge_sort urgency l) as S.
  destruct (merge_sort urgency l) as [|o' l']; [done|]. injection Ho as ->.
  inversion S as [|? ? _ F]; subst. split; [rewrite <-P; by left|].
  rewrite <-P. constructor; [|done]. unfold urgency. lia.
Qed.

Lemma next_operation_run w :
  ∃ r, next_operation w = (r, w) ∧
  ∀ o, r = Ok o →
    match o with
    | Some o => (∃ k, rows (tb_operations (svc_db w)) !! k = Some o) ∧ eligible o = true ∧
                ∀ k' o', rows (tb_operations (svc_db w)) !! k' = Some o' → eligible o' = true →
                         urgency o o'
    | None => ∀ k' o', rows (tb_operations (svc_db w)) !! k' = Some o' → eligible o' = false
    end.
Proof.
  unfold next_operation, bind, query. destruct (findAll _) as [l|] eqn:El; [|by eexists].
  apply findAll_ok in El. eexists. split; [done|]. intros o [= <-].
  assert (∀ k' o', rows (tb_operations (svc_db w)) !! k' = Some o' → eligible o' = true →
            o' ∈ filter (λ o, eligible o = true) l) as Hin.
  { intros k' o' Hk He. apply list_elem_of_filter. split; [done|]. rewrite El.
    apply list_elem_of_fmap. exists (k', o'). by rewrite elem_of_map_to_list. }
  destruct (head _) as [o|] eqn:Eo.
  - apply head_merge_sort in Eo as [Ho HF]. apply list_elem_of_filter in Ho as [He Ho].
    rewrite El in Ho. apply list_elem_of_fmap in Ho as ([k o'] & -> & Hk%elem_of_map_to_list).
    split_and!; [by exists k|done|]. intros k2 o2 H2 E2. rewrite Forall_forall in HF. eauto.
  - intros k' o' Hk. apply not_true_is_false. intros He. specialize (Hin k' o' Hk He).
    pose proof (merge_sort_Permutation urgency (filter (λ o, eligible o = true) l)) as P.
    destruct (merge_sort _ _); [|done]. rewrite <-P in Hin. by apply elem_of_nil in Hin.
Qed.

Lemma keeps_health_check P b : keeps_ops P (health_check b).
Proof.
  unfold health_check, getPendingCount. preserve.
Qed.

Lemma keeps_tick_body : keeps_ops op_ok tick_body.
Proof.
  unfold tick_body. apply preserves_bind; [apply keeps_health_check|]. intros _ w Hw.
  apply wp_bind. unfold wp at 1. destruct (next_operation_run w) as (r & -> & Hr).
  destruct r as [o|]; [|done]. specialize (Hr o eq_refl).
  destruct o as [o|]; [|by apply preserves_on_env].
  destruct Hr as ([k Hk] & He & _). destruct (Hw k o Hk) as [Hid Hst].
  apply wp_bind. eapply wp_mono; [apply wp_submit_mint| |done].
  - intros k' o' Hk'. split; [by apply Hw|]. rewrite Hid. intros ->.
    rewrite Hk in Hk'. injection Hk' as <-. unfold eligible in He.
    apply andb_true_iff in He as [Hq%bool_decide_eq_true _]. rewrite Hq in Hst.
    by destruct Hst as [[_ ?]|[? _]].
  - intros h w' Hw'. destruct h as [h|]; [|by apply wp_ret].
    case_match; [by apply preserves_on_env|by apply wp_ret].
Qed.

Lemma keeps_processQueue P fuel : keeps_ops P tick_body → keeps_ops P (processQueue fuel).
Proof.
  intros Ht. induction fuel as [|fuel IH]; simpl; [apply preserves_ret|].
  apply preserves_try_catch; [apply preserves_bind; [exact Ht|by auto with sf]|].
  intros err. apply preserves_bind; [|by auto with sf].
  unfold recordWorkerFailure, queue_stop, queue_start, set_failures. preserve; exact IH.
Qed.

Lemma keeps_confirmed_tick manual : keeps_ops (op_confirmed manual) tick_body.
Proof.
  unfold tick_body. apply preserves_bind; [apply keeps_health_check|]. intros _.
  apply preserves_bind; [by intros w Hw; unfold wp; destruct (next_operation_run w) as (r & -> & _); destruct r|].
  intros [o|]; [|by apply preserves_on_env]. apply preserves_bind; [|by intros [h|]; [case_match|]; [apply preserves_on_env|apply preserves_ret..]].
  unfold submitStagedMintTransaction. preserve.
  - apply keeps_update_operation. by intros o' [Hid _].
  - apply keeps_wait_confirmation. intros h t o' Hh [Hid _]. split; [done|]. intros _. left. by exists h.
  - apply keeps_update_operation. by intros o' [Hid _].
Qed.

(** ** Sequences of calls *)

Inductive queue_call :=
| CallEnqueue (params : BridgeOperationParams)
| CallTick (fuel : nat)
| CallStart (fuel : nat)
| CallStop
| CallRetryFailed
| CallCleanup (daysToKeep : Z)
| CallUpdateStatus (id status : string) (errorMessage : option string).

Definition run_call (c : queue_call) : run unit :=
  match c with
  | CallEnqueue params => enqueue params ;;; ret tt
  | CallTick fuel => processQueue fuel ;;; ret tt
  | CallStart fuel => queue_start (processQueue fuel) ;;; ret tt
  | CallStop => queue_stop
  | CallRetryFailed => retryFailedOperations ;;; ret tt
  | CallCleanup days => cleanupOldOperations days ;;; ret tt
  | CallUpdateStatus id status message => updateOperationStatus id status message
  end.
(** A status set by hand, for which any is allowed. *)
Definition by_hand (c : queue_call) : bool := match c with CallUpdateStatus _ _ _ => true | _ => false end.

Definition run_calls (cs : list queue_call) (w : world) : world :=
  fold_left (λ w c, final (run_call c) w) cs w.

(** What the statements on all rows do to a property of each. *)
Lemma keeps_enqueue P params :
  (∀ id t, P id (mkBridgeOperation id (pa_bridgeEventId params) (pa_sorobanContract params) (pa_mintAmount params)
     (pa_recipientAddress params) None "QUEUED" (match pa_priority params with Some p => if p =? 0 then 5 else p | None => 5 end)
     0 3 t None None)) → keeps_ops P (enqueue params).
Proof.
  intros HP. unfold enqueue. preserve. apply (preserves_on_db (all_ops P)).
  intros d r d' Hd (Hc & ->)%on_operations_inv k o Hk. simpl in Hk. destruct r as [r|e].
  - apply create_ok in Hc as (k' & _ & -> & Hrows). rewrite Hrows in Hk.
    apply lookup_insert_Some in Hk as [(<- & <-)|[_ Hk]]; [apply HP|by apply Hd].
  - apply create_err in Hc. rewrite Hc in Hk. by apply Hd.
Qed.
Lemma keeps_retry P :
  (∀ k o, P k o → bo_queueStatus o = "FAILED" → bo_retryCount o < 3 → P k (mark_requeued o)) → keeps_ops P retryFailedOperations.
Proof.
  intros HP. unfold retryFailedOperations. preserve. apply (preserves_on_db (all_ops P)).
  intros d r d' Hd (Hc & ->)%on_operations_inv k o Hk. simpl in Hk. destruct r as [n|e].
  - apply updateMany_ok in Hc as [Hrows _]. rewrite Hrows, lookup_fmap in Hk.
    apply fmap_Some in Hk as (o0 & Ho & ->). pose proof (Hd k o0 Ho) as Hp.
    case_match eqn:Hq; [|done]. unfold has_status in Hq. apply andb_true_iff in Hq as [Hf%bool_decide_eq_true Hlt%Z.ltb_lt].
    by apply HP.
  - apply updateMany_err in Hc. rewrite Hc in Hk. by apply Hd.
Qed.
Lemma keeps_cleanup P days : keeps_ops P (cleanupOldOperations days).
Proof.
  unfold cleanupOldOperations. preserve. apply (preserves_on_db (all_ops P)).
  intros d r d' Hd (Hc & ->)%on_operations_inv k o Hk. simpl in Hk. destruct r as [n|e].
  - apply deleteMany_ok in Hc as [Hrows _]. rewrite Hrows in Hk.
    apply map_lookup_filter_Some in Hk as [Hk _]. by apply Hd.
  - apply deleteMany_err in Hc. rewrite Hc in Hk. by apply Hd.
Qed.

Lemma keeps_call c : by_hand c = false → keeps_ops op_ok (run_call c).
Proof.
  destruct c as [p|fuel|fuel| | |days|]; intros Hc; simpl; [..|done].
  - apply preserves_bind; [|by auto with sf]. apply keeps_enqueue. intros id t. split; [done|]. left. split; by left.
  - apply preserves_bind; [apply keeps_processQueue, keeps_tick_body|by auto with sf].
  - apply preserves_bind; [|by auto with sf]. unfold queue_start. preserve; apply keeps_processQueue, keeps_tick_body.
  - apply preserves_on_env.
  - apply preserves_bind; [|by auto with sf]. apply keeps_retry. intros k o [Hid Hst] Hf Hlt. rewrite Hf in Hst.
    split; [done|]. left. split; [by left|].
    destruct Hst as [[[?|[?|?]] _]|[_ [Hr|Hr]]]; try done; [|lia]. right. simpl. by rewrite Hr.
  - apply preserves_bind; [apply keeps_cleanup|by auto with sf].
Qed.
Lemma keeps_confirmed_call manual c :
  (∀ id message, c = CallUpdateStatus id "COMPLETED" message → manual id) → keeps_ops (op_confirmed manual) (run_call c).
Proof.
  intros Hm. destruct c as [p|fuel|fuel| | |days|id status message]; simpl.
  - apply preserves_bind; [|by auto with sf]. by apply keeps_enqueue.
  - apply preserves_bind; [apply keeps_processQueue, keeps_confirmed_tick|by auto with sf].
  - apply preserves_bind; [|by auto with sf]. unfold queue_start. preserve; apply keeps_processQueue, keeps_confirmed_tick.
  - apply preserves_on_env.
  - apply preserves_bind; [|by auto with sf]. by apply keeps_retry; intros k o [Hid _].
  - apply preserves_bind; [apply keeps_cleanup|by auto with sf].
  - unfold updateOperationStatus. preserve. apply keeps_update_operation. intros o [Hid _]. split; [done|]. simpl.
    intros ->. right. by apply (Hm id message).
Qed.

Lemma run_calls_keep P cs w :
  (∀ c, c ∈ cs → keeps_ops P (run_call c)) → all_ops P (svc_db w) → all_ops P (svc_db (run_calls cs w)).
Proof.
  revert w; induction cs as [|c cs IH]; intros w Hc Hw; simpl; [done|]. apply IH; [by intros c' Hc'; apply Hc; right|].
  apply (preserves_final (λ w : world, all_ops P (svc_db w))); [apply Hc; by left|done].
Qed.

(** C3. Confirmation: from an empty queue, after any sequence of calls of the service and
    whatever fails in between, every [COMPLETED] operation carries the hash of a
    transaction whose success the network has reported, or [updateOperationStatus] was
    called to set it [COMPLETED] by hand. *)
Theorem completed_is_confirmed cs w k o :
  rows (tb_operations (svc_db w)) = ∅ →
  rows (tb_operations (svc_db (run_calls cs w))) !! k = Some o →
  bo_queueStatus o = "COMPLETED" →
  (∃ h, bo_stellarTxHash o = Some h ∧ confirmed h) ∨ ∃ message, CallUpdateStatus k "COMPLETED" message ∈ cs.
Proof.
  intros He Ho. eapply (run_calls_keep (op_confirmed (λ k, ∃ message, CallUpdateStatus k "COMPLETED" message ∈ cs)) cs w); [..|exact Ho].
  - intros c Hc. apply keeps_confirmed_call. intros id message ->. by exists message.
  - intros ? ?. rewrite He. by rewrite lookup_empty.
Qed.

(** Retry accounting: an attempt that fails adds one to [retryCount] and requeueing
    adds another, so a queued operation has a count of 0 or 2 and a failed one of 1 or 3,
    never anything else as long as no status is set by hand: after two failures the count
    is 3 and the operation is not requeued again, although [maxRetries] is 3. *)
Theorem retry_counts cs w k o :
  Forall (λ c, by_hand c = false) cs →
  rows (tb_operations (svc_db w)) = ∅ →
  rows (tb_operations (svc_db (run_calls cs w))) !! k = Some o →
  (bo_queueStatus o = "QUEUED" ∨ bo_queueStatus o = "PROCESSING" ∨ bo_queueStatus o = "COMPLETED")
    ∧ (bo_retryCount o = 0 ∨ bo_retryCount o = 2)
  ∨ bo_queueStatus o = "FAILED" ∧ (bo_retryCount o = 1 ∨ bo_retryCount o = 3).
Proof.
  intros Hcs He Ho. eapply (run_calls_keep op_ok cs w); [..|exact Ho].
  - intros c Hc. apply keeps_call. rewrite Forall_forall in Hcs. by apply Hcs.
  - intros ? ?. rewrite He. by rewrite lookup_empty.
Qed.

(** Priority: the tick takes an eligible operation (queued, fewer than three retries)
    that no eligible operation precedes in priority or, at equal priority, in the time it
    was queued; it takes none only when none is eligible, or when the query fails. *)
Theorem next_operation_most_urgent w :
  ∃ r, next_operation w = (r, w) ∧
  match r with
  | Ok (Some o) => (∃ k, rows (tb_operations (svc_db w)) !! k = Some o) ∧ eligible o = true ∧
      ∀ k' o', rows (tb_operations (svc_db w)) !! k' = Some o' → eligible o' = true →
        bo_priority o < bo_priority o' ∨
        bo_priority o = bo_priority o' ∧ bo_queuedAt o ≤ bo_queuedAt o'
  | Ok None => ∀ k' o', rows (tb_operations (svc_db w)) !! k' = Some o' → eligible o' = false
  | Throw _ => True
  end.
Proof.
  destruct (next_operation_run w) as (r & Er & Hr). exists r. split; [done|].
  destruct r as [o|]; [|done]. exact (Hr o eq_refl).
Qed.

(** ** Restarts *)

Definition db_down d : Prop := ∀ p, ∃ e, count p (tb_operations d) = Throw e.

Lemma tick_body_down w : db_down (svc_db w) → ∃ e, tick_body w = (Throw e, w).
Proof.
  intros Hd. unfold tick_body, health_check, getPendingCount.
  destruct (Hd (λ o, has_status "QUEUED" o || has_status "PROCESSING" o)) as [e He].
  exists e. unfold bind, query. by rewrite He.
Qed.

(** A restart is a recursive call: once two ticks in a row have failed and as long as
    the pending count keeps failing, [processQueue] never returns, whatever the fuel: it
    restarts the worker, whose first tick fails and restarts it again, without a pause. *)
Theorem processQueue_diverges fuel w :
  db_down (svc_db w) → 2 ≤ qm_consecutiveFailures (en_mem (svc_env w)) →
  (processQueue fuel w).1 = Ok None.
Proof.
  revert w. induction fuel as [|fuel IH]; intros w Hd Hn; [done|].
  simpl. unfold try_catch at 1. unfold bind at 1.
  destruct (tick_body_down w Hd) as [e ->].
  unfold recordWorkerFailure, queue_stop, queue_start, set_failures, set_mem, mem, modify, on_env.
  unfold bind, try_catch. simpl.
  rewrite (proj2 (Z.ltb_ge _ _)) by (unfold FAILURE_THRESHOLD; lia). simpl.
  match goal with |- context [processQueue fuel ?w'] =>
    pose proof (IH w' Hd) as E; destruct (processQueue fuel w') as [r w1] end.
  simpl in E. rewrite E by lia. done.
Qed.

(** Short of that, a tick ends: with fewer than two failures on record, one unit of
    fuel is enough for [processQueue], whatever its queries and the network do. *)
Theorem processQueue_ends w :
  qm_consecutiveFailures (en_mem (svc_env (final tick_body w))) < 2 →
  (processQueue 1 w).1 = Ok (Some tt).
Proof.
  intros Hn. simpl. unfold try_catch at 1, bind at 1. unfold final in Hn.
  destruct (tick_body w) as [[[]|e] w1]; [done|]. simpl in Hn.
  unfold recordWorkerFailure, bind, mem, set_failures, set_mem, on_env, modify. simpl.
  by rewrite (proj2 (Z.ltb_lt _ _)) by (unfold FAILURE_THRESHOLD; lia).
Qed.
End queue_theorems.

(** ** Concrete runs *)

Record mem_net := mkNet {
  nt_now : Z;
  nt_sent : list mint_call;
  nt_answers : list (exc tx_status);
}.

(** A network that records what is sent to it; status queries get the scripted answers,
    then success. *)
#[export] Instance scripted_net : BridgeWorld mem_net mint_call := {|
  bw_now := nt_now;
  bridge_contract := None;
  getPublicKey := ret "GORACLE";
  horizon_sequence _ x := (Ok 41, x);
  fetchBaseFee := ret 100;
  assemble := ret;
  tx_hash _ := "staged";
  tx_xdr _ := "xdr";
  sign_tx _ := ret "sig";
  sendTransaction tx _ x := (Ok ("tx" +:+ pretty (length (nt_sent x))),
                             mkNet (nt_now x) (nt_sent x ++ [tx]) (nt_answers x));
  getTransaction _ x := match nt_answers x with
                        | r :: rest => (r, mkNet (nt_now x) (nt_sent x) rest)
                        | [] => (Ok TxSuccess, x) end;
  pause_ms ms x := mkNet (nt_now x + ms) (nt_sent x) (nt_answers x);
  bw_sendAlert _ := ret tt;
|}.

Definition idle_mem : queue_mem := mkQueueMem false false 0 false.

Definition queue_world (answers : list (exc tx_status)) : svc mem_bridge (bridge_env mem_net) :=
  mkSvc (sample_tables [] []) (mkBridgeEnv idle_mem ∅ (mkNet 0 [] answers)).

Definition sample_params : BridgeOperationParams := mkParams 7 "CBRIDGE" "100" "GDEST" None.

Definition ops_of (w : svc mem_bridge (bridge_env mem_net)) : list BridgeOperation :=
  (map_to_list (tb_operations (svc_db w))).*2.

Definition one_success : svc mem_bridge (bridge_env mem_net) :=
  run_calls [CallEnqueue sample_params; CallTick 1] (queue_world []).

Definition only_op (w : svc mem_bridge (bridge_env mem_net)) : BridgeOperation :=
  default (mkBridgeOperation "" 0 "" "" "" None "" 0 0 0 0 None None) (head (ops_of w)).

Definition one_call_set : list queue_call := [CallEnqueue sample_params; CallTick 1].
Example completed_is_confirmed_witness :
  bo_queueStatus (only_op one_success) = "COMPLETED" ∧
  ∃ h, bo_stellarTxHash (only_op one_success) = Some h ∧ confirmed h.
Proof.
  split; [by vm_compute|].
  destruct (completed_is_confirmed one_call_set (queue_world [])
            (bo_id (only_op one_success)) (only_op one_success)) as [Hh|[message Hc]]; [by vm_compute..|exact Hh|].
  by repeat (apply elem_of_cons in Hc as [Hc|Hc]; [discriminate Hc|]); apply not_elem_of_nil in Hc.
Defined.
(** Nothing is asked of the network when an operation is completed by hand. *)
Definition completed_by_hand := run_calls [CallEnqueue sample_params;
  CallUpdateStatus (bo_id (only_op (run_calls [CallEnqueue sample_params] (queue_world [])))) "COMPLETED" None] (queue_world []).
Example hand_completion : (λ o, (bo_queueStatus o, bo_stellarTxHash o)) <$> ops_of completed_by_hand = [("COMPLETED", None)].
Proof. by vm_compute. Qed.

(** The network stops answering after the first transaction was sent. *)
Definition outage : list (exc tx_status) := [Throw (Error "socket hang up")].
Definition resubmitting : list queue_call :=
  [CallEnqueue sample_params; CallTick 1; CallRetryFailed; CallTick 1].
Definition resubmitted : svc mem_bridge (bridge_env mem_net) :=
  run_calls resubmitting (queue_world outage).

Example retry_counts_witness :
  (bo_queueStatus (only_op resubmitted) = "QUEUED" ∨ bo_queueStatus (only_op resubmitted) = "PROCESSING"
   ∨ bo_queueStatus (only_op resubmitted) = "COMPLETED")
    ∧ (bo_retryCount (only_op resubmitted) = 0 ∨ bo_retryCount (only_op resubmitted) = 2)
  ∨ bo_queueStatus (only_op resubmitted) = "FAILED" ∧
    (bo_retryCount (only_op resubmitted) = 1 ∨ bo_retryCount (only_op resubmitted) = 3).
Proof.
  refine (retry_counts resubmitting (queue_world outage)
            (bo_id (only_op resubmitted)) (only_op resubmitted) _ _ _); [by repeat constructor|by vm_compute..].
Defined.

(** An attempt is not undone by its failure: when the first status query after the
    submission fails, the operation is marked failed while its transaction is in flight,
    and the next attempt sends a second mint of the same amount for the same event under
    the next sequence number. *)
Theorem uncertain_mint_is_repeated :
  (λ c, (mc_sequence c, mc_amount c, mc_recipient c, mc_transactionHash c))
    <$> nt_sent (en_out (svc_env resubmitted))
  = [(41, 100, "GDEST", "0xfeed"); (42, 100, "GDEST", "0xfeed")] ∧
  bo_queueStatus (only_op resubmitted) = "COMPLETED".
Proof. split; by vm_compute. Qed.

(** Staging a mint takes a sequence number that no transaction then uses. *)
Definition staged_then_sent : svc mem_bridge (bridge_env mem_net) :=
  final (stageSorobanMintTransaction (set_event_status "VERIFIED"
           (mkBridgeEvent 7 1 "TOKEN_LOCK" "0xfeed" "100" "0xa11ce" (Some "CBRIDGE") (Some "GDEST")
              "PENDING" None)) ;;;
         enqueue sample_params ;;; processQueue 1) (queue_world []).

Example staging_burns_a_sequence :
  mc_sequence <$> nt_sent (en_out (svc_env staged_then_sent)) = [42].
Proof. by vm_compute. Qed.

#[local] Existing Instance switched_table.
Definition down_bridge : Type := bridge_db (gmap Z BridgeChain) (gmap Z BridgeValidator)
  (gmap Z BridgeEvent) (gmap (Z * Z) BridgeValidatorSignature) (bool * gmap string BridgeOperation).
Definition down_world (failures : Z) : svc down_bridge (bridge_env mem_net) :=
  mkSvc (mkBridgeDb ∅ ∅ ∅ ∅ (false, ∅))
    (mkBridgeEnv (mkQueueMem true true failures false) ∅ (mkNet 0 [] [])).

Example processQueue_diverges_witness :
  db_down (svc_db (down_world 2)) ∧ (processQueue 1000 (down_world 2)).1 = Ok None.
Proof.
  assert (db_down (svc_db (down_world 2))) as Hd by (by intros p; eexists).
  split; [exact Hd|]. apply (processQueue_diverges 1000 (down_world 2) Hd). by vm_compute.
Defined.

Example processQueue_ends_witness :
  qm_consecutiveFailures (en_mem (svc_env (final tick_body (down_world 1)))) = 1 ∧
  (processQueue 1 (down_world 1)).1 = Ok (Some tt).
Proof.
  split; [by vm_compute|]. apply (processQueue_ends (down_world 1)). by vm_compute.
Defined.
