(* ===== verification/BridgeFlow.v ===== *)
(** * The token bridge: ingestion of events ([services/bridgeEventListener.ts])

    The poll of a chain (block cursor, logs, parsing, the hand-over to the queue of
    packets) and the worker that records an event, verifies it and stages its mint, over
    [BridgeVerify] and [BridgeQueue]. The ethers library, the packet queue and the burn
    tracker are the class [ListenerWorld]. Proved: the cursor of a chain never moves back,
    and does not move at all past a quiet window; and the worker, which verifies an event
    before anyone can have signed it, never enqueues a mint. *)

From stdpp Require Import pretty.
From S2P Require Import Prelude JsDate JsString Prisma Service SequenceManager BridgeVerify BridgeQueue.

Local Open Scope Z_scope.

Record BridgeEventData := mkEventData {
  ed_chainId : Z;
  ed_eventType : string;
  ed_transactionHash : string;
  ed_blockNumber : Z;
  ed_logIndex : Z;
  ed_tokenAmount : Z;
  ed_fromAddress : string;
  ed_toAddress : string;
  ed_destinationChainId : option string;
  ed_destinationAddress : string;
  ed_eventTimestamp : Z;
}.

(** [CollateralLockedEvent], by the fields the listener reads. *)
Record CollateralLockedEvent := mkLocked {
  cl_chainId : string;
  cl_transactionHash : string;
  cl_tokenAmount : string;
  cl_fromAddress : string;
  cl_destinationChainId : option string;
  cl_destinationAddress : option string;
}.

Record ChainConfig := mkChainConfig {
  cc_id : Z;
  cc_chainId : string;
  cc_bridgeContract : option string;
}.

Record evm_log := mkLog {
  lg_blockNumber : Z;
  lg_index : Z;
  lg_transactionHash : string;
  lg_topics : list string;
  lg_data : string;
}.

Class ListenerWorld (X : Type) := {
  getBlockNumber : string → M X Z;
  getLogs : string → option string → Z → Z → M X (list evm_log);
  (** [getBlock(number)]: the timestamp of the block, if there is one *)
  getBlock : string → Z → M X (option Z);
  ethers_id : string → string;
  (** ABI decoding of [uint256, uint256, bytes32]: the two integers *)
  abi_decode : string → exc (Z * Z);
  (** [bpManager.enqueue(packet)] with standard priority *)
  packet_enqueue : BridgeEventData → M X bool;
  recordBurn : BridgeEventData → M X unit;
}.

Record listener (X : Type) := mkListener {
  ls_isRunning : bool;
  ls_providers : gset string;
  ls_pollTimers : gset string;
  ls_lastProcessedBlocks : gmap string Z;
  ls_out : X;
}.
Arguments mkListener {X} _ _ _ _ _.
Arguments ls_isRunning {X} _.
Arguments ls_providers {X} _.
Arguments ls_pollTimers {X} _.
Arguments ls_lastProcessedBlocks {X} _.
Arguments ls_out {X} _.

(** ** Polling a chain *)

Section polling.
Context {X : Type} `{!ListenerWorld X}.
Notation poll_run := (M (listener X)).

Definition at_out {A} (c : M X A) : poll_run A := λ l,
  let '(r, x) := c (ls_out l) in
  (r, mkListener (ls_isRunning l) (ls_providers l) (ls_pollTimers l) (ls_lastProcessedBlocks l) x).
Definition set_cursor (chainId : string) (n : Z) : poll_run unit :=
  modify (λ l, mkListener (ls_isRunning l) (ls_providers l) (ls_pollTimers l)
                 (<[chainId := n]> (ls_lastProcessedBlocks l)) (ls_out l)).

Definition topic (log : evm_log) (i : nat) : string := nth i (lg_topics log) "".

(** [m.get(k) || fallback] *)
Definition cursor_or (l : listener X) (chainId : string) (fallback : Z) : Z :=
  match ls_lastProcessedBlocks l !! chainId with
  | Some n => if n =? 0 then fallback else n
  | None => fallback
  end.

Definition event_type (signature : string) : option string :=
  if decide (signature = ethers_id "TokensLocked(address,address,uint256,uint256,bytes32)")
  then Some "TOKEN_LOCK"
  else if decide (signature = ethers_id "TokensReleased(address,uint256,uint256,bytes32)")
  then Some "TOKEN_RELEASE"
  else if decide (signature = ethers_id "TokensBurned(address,uint256,uint256,bytes32)")
  then Some "TOKEN_BURN"
  else None.

Definition parseLog (log : evm_log) (chain : ChainConfig) : poll_run (option BridgeEventData) :=
  try_catch
    (l <- get ;;
     block <- (if decide (cc_chainId chain ∈ ls_providers l)
               then at_out (getBlock (cc_chainId chain) (lg_blockNumber log)) else ret None) ;;
     match block with
     | None => ret None
     | Some timestamp =>
         match event_type (topic log 0) with
         | None => ret None
         | Some eventType =>
             decoded <- lift_exc (abi_decode (lg_data log)) ;;
             let to := if decide (eventType = "TOKEN_LOCK") then topic log 2 else topic log 1 in
             ret (Some (mkEventData (cc_id chain) eventType (lg_transactionHash log)
                          (lg_blockNumber log) (lg_index log) decoded.1 (topic log 1) to
                          (Some (pretty decoded.2)) to (timestamp * 1000)))
         end
     end)
    (λ _, ret None).

(** The body of the loop over the logs of a window. *)
Definition poll_log (chain : ChainConfig) (log : evm_log) : poll_run unit :=
  try_catch
    (eventData <- parseLog log chain ;;
     match eventData with
     | None => ret tt
     | Some data =>
         accepted <- at_out (packet_enqueue data) ;;
         if accepted : bool then
           l <- get ;;
           if cursor_or l (cc_chainId chain) 0 <? lg_blockNumber log
           then set_cursor (cc_chainId chain) (lg_blockNumber log) else ret tt
         else ret tt
     end)
    (λ _, ret tt).

Definition batchSize : Z := 100.

Definition pollChainEvents (chain : ChainConfig) : poll_run unit :=
  try_catch
    (l <- get ;;
     if negb (bool_decide (cc_chainId chain ∈ ls_providers l)) then ret tt
     else
       currentBlock <- at_out (getBlockNumber (cc_chainId chain)) ;;
       l <- get ;;
       let lastProcessed := cursor_or l (cc_chainId chain) (currentBlock - 1000) in
       let fromBlock := lastProcessed + 1 in
       let toBlock := Z.min (fromBlock + batchSize - 1) currentBlock in
       if toBlock <? fromBlock then ret tt
       else
         logs <- at_out (getLogs (cc_chainId chain) (cc_bridgeContract chain) fromBlock toBlock) ;;
         for_of logs (poll_log chain))
    (λ _, ret tt).

Definition listener_stop : poll_run unit :=
  modify (λ l, mkListener false ∅ ∅ (ls_lastProcessedBlocks l) (ls_out l)).
Definition isActive (l : listener X) : bool := ls_isRunning l.
End polling.

(** ** The worker *)

Section worker.
Context {TC TV TE TS TO X Tx : Type}.
Context `{!PrismaTable Z BridgeChain TC} `{!PrismaTable Z BridgeValidator TV}.
Context `{!PrismaTable Z BridgeEvent TE} `{!PrismaTable (Z * Z) BridgeValidatorSignature TS}.
Context `{!PrismaTable string BridgeOperation TO}.
Context `{!BridgeWorld X Tx} `{!BridgeCrypto} `{!ListenerWorld X}.

Notation run := (M (svc (bridge_db TC TV TE TS TO) (bridge_env X))).

(** What both ingestion paths do with a recorded event. *)
Definition verify_and_stage (bridgeEvent : BridgeEvent) : run unit :=
  isVerified <- verifyBridgeEventSignatures (be_id bridgeEvent) ;;
  if negb isVerified then ret tt
  else
    stagedTx <- stageSorobanMintTransaction bridgeEvent ;;
    match stagedTx with
    | None => ret tt
    | Some stagedTx =>
        enqueue (mkParams (be_id bridgeEvent) (st_contractId stagedTx) (st_amount stagedTx)
                   (st_recipient stagedTx) (Some 5)) ;;;
        on_db (on_events (update (be_id bridgeEvent) (set_event_status "STAGED"))) ;;;
        ret tt
    end.

Definition record_event (mk : Z → BridgeEvent) : run BridgeEvent := on_db (on_events (create mk)).

(** The worker loop on one packet. *)
Definition process_packet (eventData : BridgeEventData) : run unit :=
  try_catch
    (bridgeEvent <- record_event (λ id, mkBridgeEvent id (ed_chainId eventData)
       (ed_eventType eventData) (ed_transactionHash eventData) (pretty (ed_tokenAmount eventData))
       (ed_fromAddress eventData) (ed_destinationChainId eventData)
       (Some (ed_destinationAddress eventData)) "PENDING" None) ;;
     (if decide (ed_eventType eventData = "TOKEN_BURN") then outside (recordBurn eventData)
      else ret tt) ;;;
     verify_and_stage bridgeEvent)
    (λ _, ret tt).

Definition persistCollateralLockedEvent (event : CollateralLockedEvent) : run unit :=
  l <- query (λ d, findAll (tb_chains d)) ;;
  match List.find (λ kc : BridgeChain, bool_decide (bc_chainId kc = cl_chainId event)) l with
  | None => throw (Error ("Bridge chain " +:+ cl_chainId event +:+ " is not configured"))
  | Some chain =>
      bridgeEvent <- record_event (λ id, mkBridgeEvent id (bc_id chain) "COLLATERAL_LOCK"
        (cl_transactionHash event) (cl_tokenAmount event) (cl_fromAddress event)
        (cl_destinationChainId event) (cl_destinationAddress event) "PENDING" None) ;;
      verify_and_stage bridgeEvent
  end.
End worker.

(** ** The cursor *)

Section cursor.
Context {X : Type} `{!ListenerWorld X}.
Implicit Types (l : listener X) (chain : ChainConfig).

Lemma cursor_or_set l l' c n :
  ls_lastProcessedBlocks l' = <[c := n]> (ls_lastProcessedBlocks l) → cursor_or l' c 0 = n.
Proof.
  unfold cursor_or. intros ->. rewrite lookup_insert_eq. destruct (Z.eqb_spec n 0); lia.
Qed.

(** Calls outside leave the cursors alone. *)
Notation keeps_cursors m := (preserves (λ l, ls_lastProcessedBlocks l = m)).

Lemma keeps_at_out {A} m (c : M X A) : keeps_cursors m (at_out c).
Proof. intros l Hl. unfold wp, at_out. by destruct (c (ls_out l)) as [[?|?] ?]. Qed.
#[local] Hint Resolve keeps_at_out : sf.

Lemma keeps_parseLog m log chain : keeps_cursors m (parseLog log chain).
Proof.
  unfold parseLog. preserve.
Qed.

(** The cursors other than one's own are left alone, and one's own does not move back. *)
Definition advanced (c : string) (m : gmap string Z) l : Prop :=
  ls_lastProcessedBlocks l = m ∨
  ∃ n, ls_lastProcessedBlocks l = <[c := n]> m ∧ default 0 (m !! c) < n.

Lemma advanced_ge c m l l0 :
  ls_lastProcessedBlocks l0 = m → advanced c m l → cursor_or l0 c 0 ≤ cursor_or l c 0.
Proof.
  intros <- [E|(n & E & Hn)].
  - unfold cursor_or. rewrite E. done.
  - rewrite (cursor_or_set l0 l c n E). unfold cursor_or. destruct (_ !! c) as [k|]; simpl in Hn; [|lia].
    destruct (Z.eqb_spec k 0); lia.
Qed.

Lemma advanced_poll_log c m chain log :
  c = cc_chainId chain → preserves (advanced c m) (poll_log chain log).
Proof.
  intros -> l Hl. unfold poll_log. apply wp_try_catch. set (c := cc_chainId chain) in *.
  assert (∀ l', ls_lastProcessedBlocks l' = ls_lastProcessedBlocks l → advanced c m l') as Hs.
  { intros l' E. unfold advanced. by rewrite E. }
  apply wp_bind. eapply wp_mono; [by apply (keeps_parseLog (ls_lastProcessedBlocks l))| |].
  2: { intros e l' E. apply wp_ret. by apply Hs. }
  intros [data|] l1 E1; [|apply wp_ret; by apply Hs].
  apply wp_bind. eapply wp_mono; [by apply (keeps_at_out (ls_lastProcessedBlocks l))| |].
  2: { intros e l' E. apply wp_ret. by apply Hs. }
  intros [|] l2 E2; [|apply wp_ret; by apply Hs].
  apply wp_bind. unfold get. unfold wp at 1.
  destruct (Z.ltb_spec (cursor_or l2 c 0) (lg_blockNumber log)) as [Hlt|]; [|apply wp_ret; by apply Hs].
  unfold set_cursor, modify, wp. right. exists (lg_blockNumber log). simpl. fold c.
  unfold cursor_or in Hlt. rewrite E2 in *. destruct Hl as [E|(n & E & Hn)]; rewrite E in *.
  - split; [done|]. destruct (m !! c) as [k|]; simpl; [|done].
    destruct (Z.eqb_spec k 0); lia.
  - rewrite lookup_insert_eq in Hlt. split; [by rewrite insert_insert_eq|].
    destruct (Z.eqb_spec n 0); lia.
Qed.

Lemma advanced_poll m chain :
  preserves (advanced (cc_chainId chain) m) (pollChainEvents chain).
Proof.
  assert (∀ A (c : M X A), preserves (advanced (cc_chainId chain) m) (at_out c)) as Ho.
  { intros A c l Hl. eapply wp_mono; [by apply (keeps_at_out (ls_lastProcessedBlocks l))|..];
      simpl; intros ? l' E; unfold advanced in *; by rewrite E. }
  unfold pollChainEvents. preserve; try apply Ho. by apply advanced_poll_log.
Qed.

(** The block cursor of a chain never moves back, and polling one chain leaves the
    cursors of the others alone, whatever the provider answers. *)
Theorem cursor_monotone chain l c :
  cursor_or l (cc_chainId chain) 0 ≤ cursor_or (final (pollChainEvents chain) l) (cc_chainId chain) 0 ∧
  (c ≠ cc_chainId chain →
   ls_lastProcessedBlocks (final (pollChainEvents chain) l) !! c = ls_lastProcessedBlocks l !! c).
Proof.
  assert (advanced (cc_chainId chain) (ls_lastProcessedBlocks l) (final (pollChainEvents chain) l)) as Ha.
  { apply (preserves_final (advanced (cc_chainId chain) (ls_lastProcessedBlocks l)));
      [apply advanced_poll|by left]. }
  split; [by eapply advanced_ge|]. intros Hc. destruct Ha as [->|(n & -> & _)]; [done|].
  by rewrite lookup_insert_ne.
Qed.

(** A provider that has no logs of the contract in a window. *)
Definition quiet_from chain (last : Z) : Prop :=
  ∀ to x, to ≤ last + batchSize →
    (getLogs (cc_chainId chain) (cc_bridgeContract chain) (last + 1) to x).1 = Ok [].

Lemma quiet_poll chain l last :
  ls_lastProcessedBlocks l !! cc_chainId chain = Some last → last ≠ 0 → quiet_from chain last →
  ls_lastProcessedBlocks (final (pollChainEvents chain) l) = ls_lastProcessedBlocks l.
Proof.
  intros Hl Hn Hq. apply (wp_final _ (λ l', ls_lastProcessedBlocks l' = ls_lastProcessedBlocks l)).
  unfold pollChainEvents. apply wp_try_catch, wp_bind. unfold get, wp at 1.
  destruct (negb _); [by apply wp_ret|].
  apply wp_bind. eapply wp_mono; [by apply (keeps_at_out (ls_lastProcessedBlocks l))| |done].
  intros currentBlock l1 E1. apply wp_bind. unfold get, wp at 1.
  assert (cursor_or l1 (cc_chainId chain) (currentBlock - 1000) = last) as ->.
  { unfold cursor_or. rewrite E1, Hl. destruct (Z.eqb_spec last 0); lia. }
  destruct (_ <? _); [by apply wp_ret|].
  apply wp_bind. unfold at_out, wp at 1.
  pose proof (Hq (Z.min (last + 1 + batchSize - 1) currentBlock) (ls_out l1) ltac:(lia)) as HL.
  destruct (getLogs _ _ _ _ _) as [r x]. simpl in HL. subst r. done.
Qed.

(** The cursor moves only to blocks that hold logs, and a poll looks at one window of
    a hundred blocks after it: once a chain has a hundred consecutive blocks without a log
    of the bridge, no number of polls gets past them, and no later event is ever seen. *)
Theorem quiet_window_stalls chain l last n :
  ls_lastProcessedBlocks l !! cc_chainId chain = Some last → last ≠ 0 → quiet_from chain last →
  ls_lastProcessedBlocks (Nat.iter n (final (pollChainEvents chain)) l) !! cc_chainId chain = Some last.
Proof.
  intros Hl Hn Hq. induction n as [|n IH]; [done|]. simpl. by rewrite (quiet_poll chain _ last).
Qed.
End cursor.

(** ** The worker never enqueues *)

Section ingestion.
Context {TC TV TE TS TO X Tx : Type}.
Context `{!PrismaTable Z BridgeChain TC} `{!PrismaTable Z BridgeValidator TV}.
Context `{!PrismaTable Z BridgeEvent TE} `{!PrismaTable (Z * Z) BridgeValidatorSignature TS}.
Context `{!PrismaTable string BridgeOperation TO}.
Context `{!BridgeWorld X Tx} `{!BridgeCrypto} `{!ListenerWorld X}.
Notation world := (svc (bridge_db TC TV TE TS TO) (bridge_env X)).
Implicit Types (w : world).

(** Active validators have weight. *)
Definition weights_positive (d : bridge_db TC TV TE TS TO) : Prop :=
  ∀ k c, rows (tb_chains d) !! k = Some c → chain_validators d c ≠ [] →
    0 < sumZ (bv_weight <$> chain_validators d c).

Definition nothing_staged w w' : Prop :=
  tb_operations (svc_db w') = tb_operations (svc_db w) ∧
  en_sequences (svc_env w') = en_sequences (svc_env w).

Lemma wp_verify_and_stage_unsigned e w :
  signatures_of (svc_db w) (be_id e) = [] → weights_positive (svc_db w) →
  wp (verify_and_stage e) (λ _, nothing_staged w) (λ _, nothing_staged w) w.
Proof.
  intros Hs Hp. unfold verify_and_stage. apply wp_bind.
  eapply wp_mono; [apply wp_verify| |done].
  intros b w1 (Henv & (t & Hd & _) & Hb & _). destruct b; simpl negb.
  - exfalso. destruct (Hb eq_refl) as [(e' & c & _ & Hc & Hv & Hle) _].
    specialize (Hp _ c Hc Hv). rewrite Hs in Hle. simpl in Hle. lia.
  - apply wp_ret. split; [by rewrite Hd|by rewrite Henv].
Qed.

(** Recording an event, then verifying and staging it, stages nothing: the event is new,
    and the signatures in the table belong to existing events. *)
Lemma wp_record_and_stage {A} mk (pre : M world A) w :
  (∀ id, be_id (mk id) = id) →
  signatures_genuine (svc_db w) → weights_positive (svc_db w) →
  (∀ w, wp pre (λ _ w', svc_db w' = svc_db w ∧ en_sequences (svc_env w') = en_sequences (svc_env w))
           (λ _ w', svc_db w' = svc_db w ∧ en_sequences (svc_env w') = en_sequences (svc_env w)) w) →
  wp (e <- record_event mk ;; pre ;;; verify_and_stage e) (λ _, nothing_staged w)
    (λ _, nothing_staged w) w.
Proof.
  intros Hid Hg Hp Hpre. apply wp_bind, wp_on_db.
  2: { intros err d' (_ & ->)%on_events_inv. done. }
  intros e d' (Hc & Hd')%on_events_inv. apply create_ok in Hc as (k & Hk & -> & _).
  apply wp_bind. eapply wp_mono; [apply Hpre| |].
  - intros _ w1 [Hd1 He1]. simpl in Hd1, He1.
    eapply wp_mono; [apply wp_verify_and_stage_unsigned|..].
    + rewrite Hid, Hd1, Hd'. unfold signatures_of. simpl.
      destruct (filter _ _) as [|s l] eqn:Ef; [done|]. exfalso.
      assert (s ∈ s :: l) as Hs by by left. rewrite <-Ef in Hs.
      apply list_elem_of_filter in Hs as [Hse Hs]. unfold all_rows in Hs.
      apply list_elem_of_fmap in Hs as ([kk s'] & -> & Hks%elem_of_map_to_list).
      destruct (Hg _ _ Hks) as (_ & e' & He' & _). simpl in Hse. rewrite Hse in He'. congruence.
    + rewrite Hd1, Hd'. exact Hp.
    + intros _ w2 [H1 H2]. split; [by rewrite H1, Hd1, Hd'|by rewrite H2, He1].
    + intros _ w2 [H1 H2]. split; [by rewrite H1, Hd1, Hd'|by rewrite H2, He1].
  - intros _ w1 [Hd1 He1]. simpl in Hd1, He1. split; [by rewrite Hd1, Hd'|by rewrite He1].
Qed.

(** No mint is ever enqueued: both ways an event enters (the worker and
    [persistCollateralLockedEvent]) verify it immediately after creating its row, when no
    signature can refer to it yet. With validators of positive weight the answer is
    [false], and the operations and the account's sequence numbers stay as they were; and
    [addValidatorSignature], which verifies it later, does not stage it either. *)
Theorem ingestion_never_enqueues w packet locked id address signature :
  validators_keyed (svc_db w) → signatures_genuine (svc_db w) → weights_positive (svc_db w) →
  nothing_staged w (final (process_packet packet) w) ∧
  nothing_staged w (final (persistCollateralLockedEvent locked) w) ∧
  nothing_staged w (final (addValidatorSignature id address signature) w).
Proof.
  intros Hk Hg Hp. split_and!.
  - apply (wp_final _ (nothing_staged w)). unfold process_packet. apply wp_try_catch.
    eapply wp_mono; [apply wp_record_and_stage; [done..|]|done|done].
    intros w1. case_match; [|by apply wp_ret].
    unfold wp, outside, on_env. destruct (recordBurn packet _) as [[[]|] x]; done.
  - apply (wp_final _ (nothing_staged w)). unfold persistCollateralLockedEvent.
    apply wp_bind, wp_query; [|done]. intros l _. destruct (List.find _ l); [|by apply wp_throw].
    eapply (wp_mono (e <- record_event _ ;; ret tt ;;; verify_and_stage e));
      [apply wp_record_and_stage|done|done]; done.
  - apply (wp_final _ (nothing_staged w)).
    eapply wp_mono; [by apply wp_addValidatorSignature|done|].
    intros err w' (Henv & (_ & _ & Ho) & _). split; [done|by rewrite Henv].
Qed.
End ingestion.

(** ** Concrete runs *)

Definition lock_log (block : Z) : evm_log :=
  mkLog block 0 "0xfeed" ["TokensLocked(address,address,uint256,uint256,bytes32)"; "0xa11ce"; "GDEST"] "".

(** One lock in block 1010 and the next in block 1200. *)
Definition history : list evm_log := [lock_log 1010; lock_log 1200].

(** A chain with that history, its head as state. *)
#[export] Instance history_listener : ListenerWorld Z := {|
  getBlockNumber _ x := (Ok x, x + 1);
  getLogs _ _ from to x := (Ok (filter (λ l, from ≤ lg_blockNumber l ≤ to) history), x);
  getBlock _ n := ret (Some n);
  ethers_id := id;
  abi_decode _ := Ok (100, 1);
  packet_enqueue _ := ret true;
  recordBurn _ := ret tt;
|}.

#[export] Instance net_listener : ListenerWorld mem_net := {|
  getBlockNumber _ := ret 0;
  getLogs _ _ _ _ := ret [];
  getBlock _ _ := ret None;
  ethers_id := id;
  abi_decode _ := Ok (0, 0);
  packet_enqueue _ := ret true;
  recordBurn _ := ret tt;
|}.

Definition chain_one : ChainConfig := mkChainConfig 1 "1" (Some "0xb1d6e").
Definition polling_state (last : Z) : listener Z :=
  mkListener true {["1"]} {["1"]} {["1" := last]} 1300.

Example poll_advances :
  ls_lastProcessedBlocks (final (pollChainEvents chain_one) (polling_state 1000)) !! "1" = Some 1010.
Proof. by vm_compute. Qed.

(** The lock of block 1200 is never seen, the head being at 1300 and rising. *)
Example quiet_window_stalls_witness :
  quiet_from (X := Z) chain_one 1010 ∧
  ls_lastProcessedBlocks (Nat.iter 30 (final (pollChainEvents chain_one)) (polling_state 1010)) !! "1"
  = Some 1010.
Proof.
  assert (quiet_from (X := Z) chain_one 1010) as Hq.
  { intros to x Hto. unfold batchSize in Hto.
    assert (filter (λ l, 1010 + 1 ≤ lg_blockNumber l ≤ to) history = []) as E; [|exact (f_equal Ok E)].
    unfold history. rewrite !filter_cons, !decide_False by (simpl; lia). done. }
  split; [exact Hq|].
  exact (quiet_window_stalls chain_one (polling_state 1010) 1010 30 eq_refl ltac:(lia) Hq).
Defined.

Definition packet_one : BridgeEventData :=
  mkEventData 1 "TOKEN_LOCK" "0xbeef" 1010 0 100 "0xa11ce" "GDEST" None "GDEST" 0.
Definition locked_one : CollateralLockedEvent := mkLocked "1" "0xbeef" "100" "0xa11ce" None None.
Definition ingesting : svc mem_bridge (bridge_env mem_net) :=
  mkSvc (sample_tables two_validators []) (mkBridgeEnv idle_mem ∅ (mkNet 0 [] [])).

Example ingestion_never_enqueues_witness :
  length (ops_of (final (process_packet packet_one) ingesting)) = 0%nat ∧
  nothing_staged ingesting (final (process_packet packet_one) ingesting) ∧
  nothing_staged ingesting (final (persistCollateralLockedEvent locked_one) ingesting) ∧
  nothing_staged ingesting (final (addValidatorSignature 7 "0xAA" "0xaa") ingesting).
Proof.
  split; [by vm_compute|].
  apply (ingestion_never_enqueues ingesting packet_one locked_one 7 "0xAA" "0xaa" sample_keyed).
  - intros k s Hk. simpl in Hk. by rewrite lookup_empty in Hk.
  - intros k c Hk Hne. enough (chain_validators (svc_db ingesting) c = [] ∨
      0 < sumZ (bv_weight <$> chain_validators (svc_db ingesting) c)) as [?|?] by done.
    revert k c Hk Hne. intros k c Hk _. revert k c Hk.
    apply (bool_decide_unpack (map_Forall (λ (k : Z) c, chain_validators (svc_db ingesting) c = [] ∨
             0 < sumZ (bv_weight <$> chain_validators (svc_db ingesting) c))
             (tb_chains (svc_db ingesting)))).
    by vm_compute.
Defined.
