(* ===== verification/BridgeAudit.v ===== *)
(** * The token bridge: supply audit ([services/bridgeSupplyAuditService.ts])

    For each active chain, the supply of the wrapped token against the balance of the
    remote vault. The two queries are the class [AuditWorld]; the chains, audited
    concurrently by the source, are audited in turn. Proved: each active chain is compared
    once and flagged exactly when its two figures differ, and a figure that cannot be
    fetched counts as zero, so that an outage of both sides passes for agreement. *)

From S2P Require Import Prelude JsString JsDecimal.

Local Open Scope Z_scope.

Record AuditChain := mkAuditChain {
  ac_id : Z;
  ac_chainId : string;
  ac_chainName : string;
  ac_chainType : string;
  ac_rpcUrl : option string;
  ac_bridgeContract : option string;
  ac_isActive : bool;
}.

Record BridgeSupplyAuditComparison := mkComparison {
  bridgeChainId : Z;
  chainName : string;
  chainType : string;
  sorobanContractId : string;
  remoteContractAddress : string;
  sorobanSupply : Z;
  remoteCollateralBalance : Z;
  delta : Z;
  hasMismatch : bool;
  timestamp : Z;
}.

Class AuditWorld (X : Type) := {
  au_now : X → Z;
  (** [process.env.SOROBAN_BRIDGE_CONTRACT_ID] *)
  au_contract : option string;
  (** [prisma.bridgeChain.findMany()] *)
  find_chains : M X (list AuditChain);
  (** [getContractData(id, "TOTAL_SUPPLY")] and its value, if any *)
  getContractData : string → M X (option Z);
  (** [totalSupply()] of a contract behind an RPC endpoint *)
  evm_totalSupply : string → string → M X Z;
  sendSupplyAlert : BridgeSupplyAuditComparison → M X unit;
}.

Section audit.
Context {X : Type} `{!AuditWorld X}.

Definition fetchSorobanTotalSupply (contractId : string) : M X Z :=
  result <- getContractData contractId ;;
  ret (default 0 result).

Definition fetchRemoteCollateralBalance (chain : AuditChain) : M X Z :=
  if negb (truthy_opt (ac_bridgeContract chain)) || negb (truthy_opt (ac_rpcUrl chain)) then
    throw (Error "Missing RPC URL or bridge contract address for remote collateral query")
  else if decide (ac_chainType chain = "EVM") then
    evm_totalSupply (default "" (ac_rpcUrl chain)) (default "" (ac_bridgeContract chain))
  else if decide (ac_chainType chain = "Solana") then ret 0
  else throw (Error ("Unsupported chain type for collateral query: " +:+ ac_chainType chain)).

Definition evaluateBridgeSupply (chain : AuditChain) (contractId : string) (supply balance t : Z)
    : BridgeSupplyAuditComparison :=
  let delta := supply - balance in
  mkComparison (ac_id chain) (ac_chainName chain) (ac_chainType chain) contractId
    (default "" (ac_bridgeContract chain)) supply balance delta (negb (delta =? 0)) t.

Definition handleSupplyMismatch (c : BridgeSupplyAuditComparison) : M X unit :=
  try_catch (sendSupplyAlert c) (λ _, ret tt).

(** [.catch(() => 0n)] *)
Definition or_zero (c : M X Z) : M X Z := try_catch c (λ _, ret 0).

(** The callback of [chains.map]. *)
Definition audit_chain (chain : AuditChain) : M X (option BridgeSupplyAuditComparison) :=
  let contractId := str_or (default "" au_contract) (ac_chainId chain) in
  try_catch
    (supply <- or_zero (fetchSorobanTotalSupply contractId) ;;
     balance <- or_zero (fetchRemoteCollateralBalance chain) ;;
     x <- get ;;
     let comparison := evaluateBridgeSupply chain contractId supply balance (au_now x) in
     (if hasMismatch comparison then handleSupplyMismatch comparison else ret tt) ;;;
     ret (Some comparison))
    (λ _, ret None).

Fixpoint audit_chains (l : list AuditChain) : M X (list BridgeSupplyAuditComparison) :=
  match l with
  | [] => ret []
  | chain :: rest =>
      r <- audit_chain chain ;;
      rs <- audit_chains rest ;;
      ret (option_list r ++ rs)
  end.

Definition auditAllBridges : M X (list BridgeSupplyAuditComparison) :=
  try_catch
    (all <- find_chains ;;
     let chains := filter (λ c, ac_isActive c = true) all in
     if decide (chains = []) then ret [] else audit_chains chains)
    (λ _, ret []).

(** What the queries of a chain answer in a state, an error counting as nothing. *)
Definition figure (c : M X Z) (x : X) : Z :=
  match (c x).1 with Ok n => n | Throw _ => 0 end.

Lemma or_zero_run (c : M X Z) x : or_zero c x = (Ok (figure c x), (c x).2).
Proof. unfold or_zero, try_catch, figure. by destruct (c x) as [[n|e] x']. Qed.

Lemma handle_run c x : ∃ x', handleSupplyMismatch c x = (Ok tt, x').
Proof.
  unfold handleSupplyMismatch, try_catch.
  destruct (sendSupplyAlert c x) as [[[]|e] x']; by eexists.
Qed.

(** Every chain gets a comparison of its two figures. *)
Lemma audit_chain_run chain x :
  ∃ x', audit_chain chain x = (Ok (Some
    (let id := str_or (default "" au_contract) (ac_chainId chain) in
     let x1 := (fetchSorobanTotalSupply id x).2 in
     evaluateBridgeSupply chain id (figure (fetchSorobanTotalSupply id) x)
       (figure (fetchRemoteCollateralBalance chain) x1)
       (au_now (fetchRemoteCollateralBalance chain x1).2))), x').
Proof.
  unfold audit_chain, try_catch, bind, get. rewrite or_zero_run, or_zero_run.
  cbv zeta. destruct (hasMismatch _); [|by eexists].
  match goal with |- context [handleSupplyMismatch ?c ?x0] =>
    destruct (handle_run c x0) as [x' ->] end.
  by eexists.
Qed.

Lemma audit_chains_total l x :
  ∃ rs x', audit_chains l x = (Ok rs, x') ∧
    map bridgeChainId rs = map ac_id l ∧
    Forall (λ r, hasMismatch r = true ↔ sorobanSupply r ≠ remoteCollateralBalance r) rs.
Proof.
  revert x; induction l as [|chain l IH]; intros x; simpl; [by eexists _, _|].
  unfold bind. destruct (audit_chain_run chain x) as [x1 ->].
  destruct (IH x1) as (rs & x2 & -> & Hids & HF). eexists _, _. split; [done|]. simpl.
  split; [by rewrite Hids|]. constructor; [|done]. simpl.
  destruct (Z.eqb_spec (figure (fetchSorobanTotalSupply (str_or (default "" au_contract) (ac_chainId chain))) x
    - figure (fetchRemoteCollateralBalance chain)
        (fetchSorobanTotalSupply (str_or (default "" au_contract) (ac_chainId chain)) x).2) 0);
    simpl; intuition lia.
Qed.

(** The audit pass never throws and, when the chains can be listed, compares every
    active chain exactly once, in order, flagging exactly those whose figures differ. *)
Theorem audit_covers_active_chains x all x' :
  find_chains x = (Ok all, x') →
  ∃ rs x'', auditAllBridges x = (Ok rs, x'') ∧
    map bridgeChainId rs = map ac_id (filter (λ c, ac_isActive c = true) all) ∧
    Forall (λ r, hasMismatch r = true ↔ sorobanSupply r ≠ remoteCollateralBalance r) rs.
Proof.
  intros Hl. unfold auditAllBridges, try_catch, bind. rewrite Hl.
  case_decide as Hn.
  - rewrite Hn. eexists [], _. done.
  - destruct (audit_chains_total (filter (λ c, ac_isActive c = true) all) x') as (rs & x2 & -> & ?).
    eauto.
Qed.

(** An outage of both sides reads as agreement. *)
Lemma outage_reads_as_agreement chain x :
  (∀ id x, ∃ e, (getContractData id x).1 = Throw e) →
  (∀ x, ∃ e, (fetchRemoteCollateralBalance chain x).1 = Throw e) →
  ∃ r x', audit_chain chain x = (Ok (Some r), x') ∧ hasMismatch r = false.
Proof.
  intros Hs Hr. destruct (audit_chain_run chain x) as [x' ->]. eexists _, _. split; [done|]. simpl.
  set (id := str_or _ _). unfold figure.
  destruct (Hr (fetchSorobanTotalSupply id x).2) as [e ->].
  unfold fetchSorobanTotalSupply, bind. destruct (Hs id x) as [e' He].
  destruct (getContractData id x) as [[o|e2] x2]; [done|]. done.
Qed.
End audit.

(** ** Concrete runs *)

Definition eth : AuditChain := mkAuditChain 1 "1" "Ethereum" "EVM" (Some "http://rpc") (Some "0xb") true.
Definition old : AuditChain := mkAuditChain 2 "5" "Goerli" "EVM" None None false.

(** The supply is 100 and the vault holds 90; alerts are kept. *)
#[export] Instance ten_short : AuditWorld (list BridgeSupplyAuditComparison) := {|
  au_now _ := 0;
  au_contract := None;
  find_chains := ret [eth; old];
  getContractData _ := ret (Some 100);
  evm_totalSupply _ _ := ret 90;
  sendSupplyAlert c x := (Ok tt, x ++ [c]);
|}.

Example one_alert : delta <$> final auditAllBridges [] = [10].
Proof. by vm_compute. Qed.

Example audit_covers_active_chains_witness :
  ∃ rs x'', auditAllBridges [] = (Ok rs, x'') ∧
    map bridgeChainId rs = map ac_id (filter (λ c, ac_isActive c = true) [eth; old]) ∧
    Forall (λ r, hasMismatch r = true ↔ sorobanSupply r ≠ remoteCollateralBalance r) rs.
Proof. exact (audit_covers_active_chains [] [eth; old] [] eq_refl). Defined.
