(* ===== verification/GovernanceResult.v ===== *)
(** * Governance results ([services/governanceResultService.ts])

    The final tally of a proposal: weights are decimal texts, parsed to scaled integers,
    summed exactly at the widest scale, and printed back; the snapshot sorts the voters so
    that it does not depend on the order of the rows. Proved: printing and parsing weights
    are exact, the tally is the exact sum in total and per choice, and the snapshot is the
    same for every order of the votes. *)

From Stdlib Require Import Ascii QArith.
From stdpp Require Import pretty.
From S2P Require Import Prelude JsDate JsString JsDecimal JsDigits.

Local Open Scope Z_scope.

(** [/^[eE]([+-]?\d+)$/] *)
Definition match_exponent (l : list ascii) : option Z :=
  match l with
  | c :: r =>
      if decide (c = "e"%char ∨ c = "E"%char) then
        let '(neg, r') := match r with
                          | s :: r' => if decide (s = "+"%char) then (false, r')
                                       else if decide (s = minus_char) then (true, r') else (false, r)
                          | [] => (false, r)
                          end in
        match span_digits r' with
        | ([], _) => None
        | (d, []) => Some (if neg then - digits_value d else digits_value d)
        | _ => None
        end
      else None
  | [] => None
  end.

(** ** Weights *)

Definition sign_text (neg : bool) : list ascii := if neg then [minus_char] else [].

Definition expandExponential (l : list ascii) : list ascii :=
  let '(neg, body) := split_sign l in
  match match_decimal body with
  | Some (whole, fraction, rest) =>
      match match_exponent rest with
      | Some exponent =>
          let digits := whole ++ fraction in
          let pointPosition := Z.of_nat (length whole) + exponent in
          if pointPosition <=? 0 then
            sign_text neg ++ [zero_char; dot_char]
              ++ replicate (Z.to_nat (- pointPosition)) zero_char ++ digits
          else if Z.of_nat (length digits) <=? pointPosition then
            sign_text neg ++ digits
              ++ replicate (Z.to_nat pointPosition - length digits) zero_char
          else
            sign_text neg ++ take (Z.to_nat pointPosition) digits ++ [dot_char]
              ++ drop (Z.to_nat pointPosition) digits
      | None => l
      end
  | None => l
  end.

Record ScaledWeight := mkScaled { units : Z; scale : nat }.

(** [/^(-?)(\d+)(?:\.(\d+))?$/], the digits read as one integer. *)
Definition parse_plain (l : list ascii) : option ScaledWeight :=
  let '(neg, body) := split_sign l in
  match match_decimal body with
  | Some (whole, fraction, []) =>
      let n := digits_value (whole ++ fraction) in
      Some (mkScaled (if neg then - n else n) (length fraction))
  | _ => None
  end.

Definition toScaledWeight (value : string) : exc ScaledWeight :=
  let t := expandExponential (chars (trim value)) in
  match parse_plain t with
  | Some w => Ok w
  | None => Throw (Error ("Invalid vote weight: " +:+ text t))
  end.

Definition scaleUp (units : Z) (from to : nat) : Z :=
  if decide (from = to) then units else units * 10 ^ Z.of_nat (to - from).

Fixpoint drop_zeros (l : list ascii) : list ascii :=
  match l with
  | c :: l' => if decide (c = zero_char) then drop_zeros l' else l
  | [] => []
  end.
(** [fraction.replace(/0+$/, "")] *)
Definition strip_zeros (l : list ascii) : list ascii := rev (drop_zeros (rev l)).

Definition formatScaled (units : Z) (scale : nat) : string :=
  if decide (scale = O) then pretty units
  else
    let negative := units <? 0 in
    let digits := padStart (S scale) (chars (pretty (Z.abs units))) in
    let whole := take (length digits - scale) digits in
    let fraction := strip_zeros (drop (length digits - scale) digits) in
    let body := match fraction with [] => whole | _ => whole ++ [dot_char] ++ fraction end in
    text (if negative then minus_char :: body else body).

(** ** Tally *)

Record GovernanceVoteRecord := mkVote {
  vt_accountId : string;
  vt_choice : string;
  vt_weight : string;
  vt_votedAt : Z;
  vt_txHash : option string;
}.

Record ChoiceTally := mkChoice { ct_votes : nat; ct_weight : string }.

Record VoteTally := mkTally {
  totalVoters : nat;
  totalWeight : string;
  byChoice : list (string * ChoiceTally);
}.

(** [a < b] on strings: code units in order. *)
Fixpoint str_ltb (a b : string) : bool :=
  match a, b with
  | "", "" => false
  | "", _ => true
  | _, "" => false
  | String x a', String y b' =>
      if decide (x = y) then str_ltb a' b'
      else (nat_of_ascii x <? nat_of_ascii y)%nat
  end%string.
Definition str_le (a b : string) : Prop := str_ltb b a = false.
#[global] Instance str_le_dec a b : Decision (str_le a b).
Proof. unfold str_le. apply _. Defined.

(** The map from choices to their sums, in insertion order. *)
Record ChoiceSum := mkSum { cs_units : Z; cs_votes : nat }.

Fixpoint add_choice (m : list (string * ChoiceSum)) (choice : string) (u : Z)
    : list (string * ChoiceSum) :=
  match m with
  | [] => [(choice, mkSum u 1)]
  | (k, e) :: m' =>
      if decide (k = choice) then (k, mkSum (cs_units e + u) (S (cs_votes e))) :: m'
      else (k, e) :: add_choice m' choice u
  end.

Definition max_scale (l : list (string * ScaledWeight)) : nat :=
  fold_left (λ s v, if decide (s < scale v.2)%nat then scale v.2 else s) l O.

Definition scaled_units (sc : nat) (w : ScaledWeight) : Z := scaleUp (units w) (scale w) sc.

Definition sum_votes (sc : nat) (l : list (string * ScaledWeight))
    : Z * list (string * ChoiceSum) :=
  fold_left (λ acc v, (acc.1 + scaled_units sc v.2, add_choice acc.2 v.1 (scaled_units sc v.2)))
    l (0, []).

Definition sort_choices (m : list (string * ChoiceSum)) : list (string * ChoiceSum) :=
  merge_sort (λ a b, str_le a.1 b.1) m.

Definition computeVoteTally (votes : list GovernanceVoteRecord) : exc VoteTally :=
  scaledVotes ← mapM (λ v, w ← toScaledWeight (vt_weight v); Ok (vt_choice v, w)) votes;
  let sc := max_scale scaledVotes in
  let '(totalUnits, unitsByChoice) := sum_votes sc scaledVotes in
  Ok (mkTally (length votes) (formatScaled totalUnits sc)
        (map (λ e, (e.1, mkChoice (cs_votes e.2) (formatScaled (cs_units e.2) sc)))
             (sort_choices unitsByChoice))).

(** ** Snapshot *)

Record SnapshotProposal := mkProposalInput {
  sp_proposalId : string;
  sp_contractId : string;
  sp_title : option string;
  sp_actionType : option string;
  sp_status : string;
  sp_expiresAt : Z;
  sp_queuedAt : option Z;
  sp_executedAt : option Z;
  sp_cancelledAt : option Z;
  sp_transactionHash : option string;
}.

Record SnapshotVoter := mkVoter {
  sv_accountId : string;
  sv_choice : string;
  sv_weight : string;
  sv_votedAt : string;
  sv_txHash : option string;
}.

Record ProposalDoc := mkProposalDoc {
  pd_proposalId : string;
  pd_contractId : string;
  pd_title : option string;
  pd_actionType : option string;
  pd_status : string;
  pd_expiresAt : string;
  pd_queuedAt : option string;
  pd_executedAt : option string;
  pd_cancelledAt : option string;
  pd_transactionHash : option string;
}.

Record GovernanceResultSnapshot := mkSnapshot {
  gs_schema : string;
  gs_version : Z;
  gs_generatedAt : string;
  gs_proposal : ProposalDoc;
  gs_tally : VoteTally;
  gs_voters : list SnapshotVoter;
}.

Definition RESULT_SNAPSHOT_SCHEMA : string := "stellarflow.governance.proposal_result_snapshot".
Definition RESULT_SNAPSHOT_VERSION : Z := 1.

(** The order of the voters: account, then the ISO text of the time of the vote. *)
Definition vote_before (a b : GovernanceVoteRecord) : Prop :=
  if decide (vt_accountId a = vt_accountId b)
  then str_le (toISOString (vt_votedAt a)) (toISOString (vt_votedAt b))
  else str_le (vt_accountId a) (vt_accountId b).
#[global] Instance vote_before_dec a b : Decision (vote_before a b).
Proof. unfold vote_before. case_decide; apply _. Defined.

Definition normalizeVotes (votes : list GovernanceVoteRecord) : list SnapshotVoter :=
  map (λ v, mkVoter (vt_accountId v) (vt_choice v) (trim (vt_weight v))
              (toISOString (vt_votedAt v)) (vt_txHash v))
    (merge_sort vote_before votes).

Definition proposal_doc (p : SnapshotProposal) : ProposalDoc :=
  mkProposalDoc (sp_proposalId p) (sp_contractId p) (sp_title p) (sp_actionType p) (sp_status p)
    (toISOString (sp_expiresAt p)) (toISOString <$> sp_queuedAt p) (toISOString <$> sp_executedAt p)
    (toISOString <$> sp_cancelledAt p) (sp_transactionHash p).

Definition buildGovernanceResultSnapshot (p : SnapshotProposal) (votes : list GovernanceVoteRecord)
    (generatedAt : Z) : exc GovernanceResultSnapshot :=
  tally ← computeVoteTally votes;
  Ok (mkSnapshot RESULT_SNAPSHOT_SCHEMA RESULT_SNAPSHOT_VERSION (toISOString generatedAt)
        (proposal_doc p) tally (normalizeVotes votes)).

Example tally_mixed :
  computeVoteTally [mkVote "G1" "yes" "1.50" 0 None; mkVote "G2" "no" "2e-7" 0 None;
                    mkVote "G3" "yes" " 3 " 0 None]
  = Ok (mkTally 3 "4.5000002"
          [("no", mkChoice 1 "0.0000002"); ("yes", mkChoice 2 "4.5")]).
Proof. vm_compute. reflexivity. Qed.

(** ** Trailing zeros *)

Lemma drop_zeros_spec l : ∃ n, l = replicate n zero_char ++ drop_zeros l.
Proof.
  induction l as [|c l [n IH]]; simpl; [by exists O|].
  case_decide as Hc; [|by exists O]. exists (S n). simpl. by rewrite Hc, <-IH.
Qed.

Lemma rev_zeros n : rev (replicate n zero_char) = replicate n zero_char.
Proof. induction n as [|n IH]; [done|]. simpl. rewrite IH. symmetry. apply replicate_cons_app. Qed.

Lemma strip_zeros_spec l : ∃ n, l = strip_zeros l ++ replicate n zero_char.
Proof.
  unfold strip_zeros. destruct (drop_zeros_spec (rev l)) as [n Hn]. exists n.
  rewrite <-(rev_zeros n), <-rev_app_distr, <-Hn. symmetry. apply rev_involutive.
Qed.

(** ** Printing and parsing *)

Lemma parse_printed (neg : bool) whole fraction :
  all_digits whole → whole ≠ [] → all_digits fraction →
  toScaledWeight (text (if neg then minus_char :: decimal_body whole fraction
                        else decimal_body whole fraction))
  = Ok (mkScaled (let n := digits_value (whole ++ fraction) in if neg then - n else n)
          (length fraction)).
Proof.
  intros Hw Hn Hf. set (body := decimal_body whole fraction).
  set (l := if neg then minus_char :: body else body).
  destruct (decimal_body_last whole fraction Hw Hn Hf) as (pre & c & Hc & Hd). fold body in Hc.
  destruct whole as [|w whole]; [done|]. pose proof (Forall_inv Hw) as Hw1. simpl in Hw1.
  assert (∃ rest, body = w :: rest) as [rest Hb].
  { unfold body, decimal_body. destruct fraction; by eexists. }
  assert (chars (trim (text l)) = l) as Ht.
  { unfold l. destruct neg.
    - apply (trim_text _ minus_char c body); [done| |by right|done].
      exists (minus_char :: pre). by rewrite Hc.
    - apply (trim_text _ w c rest); [done|by exists pre|by left|done]. }
  assert (split_sign l = (neg, body)) as Hs.
  { apply split_sign_text; rewrite Hb; [done|]. by constructor. }
  assert (match_decimal body = Some (w :: whole, fraction, [])) as Hm
    by (by apply match_decimal_body).
  unfold toScaledWeight. rewrite Ht. unfold expandExponential. rewrite Hs, Hm. simpl.
  unfold parse_plain. by rewrite Hs, Hm.
Qed.

Lemma formatScaled_body u sc :
  ∃ whole fraction k,
    formatScaled u sc = text (if u <? 0 then minus_char :: decimal_body whole fraction
                              else decimal_body whole fraction) ∧
    all_digits whole ∧ whole ≠ [] ∧ all_digits fraction ∧ (length fraction + k = sc)%nat ∧
    digits_value (whole ++ fraction) * 10 ^ Z.of_nat k = Z.abs u.
Proof.
  destruct (pretty_nonneg (Z.abs u)) as (l & Hl & Hd & Hv & Hn); [lia|].
  unfold formatScaled. case_decide as Hsc.
  - exists l, [], O. subst sc. rewrite app_nil_r, Hv. split_and!; try done; [|constructor|lia].
    rewrite <-(text_chars (pretty u)). f_equal. simpl decimal_body.
    destruct u as [|p|p]; simpl in *; [done|done|].
    exact (f_equal (cons minus_char) Hl).
  - rewrite Hl. set (digits := padStart (S sc) l).
    assert (all_digits digits) as Hdd by (apply all_digits_app; split; [apply all_digits_zeros|done]).
    assert (digits_value digits = Z.abs u) as Hdv by (unfold digits, padStart; by rewrite digits_zeros_l).
    assert (S sc ≤ length digits)%nat as Hlen
      by (unfold digits, padStart; rewrite length_app, length_replicate; lia).
    set (cut := (length digits - sc)%nat).
    destruct (strip_zeros_spec (drop cut digits)) as [k Hk].
    exists (take cut digits), (strip_zeros (drop cut digits)), k.
    assert (all_digits (drop cut digits)) as Hdrop by by apply Forall_drop.
    rewrite Hk in Hdrop. apply all_digits_app in Hdrop as [Hf _].
    split_and!; [done|by apply Forall_take| |done| |].
    + intros E. apply (f_equal length) in E. rewrite length_take in E. simpl in E. unfold cut in E. lia.
    + apply (f_equal length) in Hk. rewrite length_drop, length_app, length_replicate in Hk.
      unfold cut in *. lia.
    + rewrite <-digits_zeros_r, <-app_assoc, <-Hk, take_drop. done.
Qed.

Lemma print_parse u sc :
  ∃ w, toScaledWeight (formatScaled u sc) = Ok w ∧ (scale w ≤ sc)%nat ∧ scaled_units sc w = u.
Proof.
  destruct (formatScaled_body u sc) as (whole & fraction & k & -> & Hw & Hn & Hf & Hk & Hv).
  rewrite parse_printed by done. eexists. split; [done|]. unfold scaled_units, scaleUp. simpl.
  split; [lia|]. assert (sc - length fraction = k)%nat as -> by lia.
  case_decide as Hs.
  - assert (k = O) as -> by lia. simpl in Hv. destruct (Z.ltb_spec u 0); lia.
  - destruct (Z.ltb_spec u 0); lia.
Qed.

(** Printing a weight loses nothing: [formatScaled units scale] always parses, to the
    same number with at most [scale] fraction digits. *)
Theorem weight_roundtrip u sc :
  ∃ w, toScaledWeight (formatScaled u sc) = Ok w ∧ (scale w ≤ sc)%nat ∧ scaled_units sc w = u.
Proof. apply print_parse. Qed.

(** ** The tally is the exact sum *)

Lemma max_scale_ge l : ∀ v, v ∈ l → (scale v.2 ≤ max_scale l)%nat.
Proof.
  assert (∀ s0, (s0 ≤ fold_left (λ s v, if decide (s < scale v.2)%nat then scale v.2 else s) l s0)%nat ∧
    ∀ v, v ∈ l → (scale v.2 ≤ fold_left (λ s (v : string * ScaledWeight),
                    if decide (s < scale v.2)%nat then scale v.2 else s) l s0)%nat) as H.
  { induction l as [|x l IH]; intros s0; simpl; [split; [done|by intros v ?%elem_of_nil]|].
    destruct (IH (if decide (s0 < scale x.2)%nat then scale x.2 else s0)) as [H1 H2].
    assert (s0 ≤ (if decide (s0 < scale x.2)%nat then scale x.2 else s0) ∧
            scale x.2 ≤ (if decide (s0 < scale x.2)%nat then scale x.2 else s0))%nat as [H3 H4]
      by (case_decide; lia).
    split; [lia|]. intros v [->|Hv]%elem_of_cons; [lia|by apply H2]. }
  apply (H O).
Qed.

Definition sum_units (sc : nat) (l : list (string * ScaledWeight)) : Z :=
  foldr (λ v acc, scaled_units sc v.2 + acc) 0 l.

Definition of_choice (c : string) (l : list (string * ScaledWeight)) :=
  filter (λ v, v.1 = c) l.

Definition sum_for (m : list (string * ChoiceSum)) (c : string) : ChoiceSum :=
  foldr (λ e acc, if decide (e.1 = c) then e.2 else acc) (mkSum 0 0) m.

Lemma sum_for_add m c u c' :
  sum_for (add_choice m c u) c'
  = if decide (c' = c) then mkSum (cs_units (sum_for m c) + u) (S (cs_votes (sum_for m c)))
    else sum_for m c'.
Proof.
  induction m as [|[k e] m IH]; simpl.
  - repeat (case_decide; simplify_eq/=); try done.
  - destruct (decide (k = c)) as [->|Hk]; simpl.
    + repeat (case_decide; simplify_eq/=); try done.
    + rewrite IH. repeat (case_decide; simplify_eq/=); try done.
Qed.

Lemma add_choice_keys m c u :
  (add_choice m c u).*1 = if decide (c ∈ m.*1) then m.*1 else m.*1 ++ [c].
Proof.
  induction m as [|[k e] m IH]; [done|]. cbn [add_choice].
  destruct (decide (k = c)) as [->|Hk].
  - rewrite decide_True; [done|]. simpl. set_solver.
  - rewrite !fmap_cons, IH. cbn [fst]. repeat case_decide; try done; set_solver.
Qed.

(** The loop over the votes, from the right. *)
Lemma sum_votes_spec sc l z m :
  let r := fold_left (λ acc v, (acc.1 + scaled_units sc v.2, add_choice acc.2 v.1 (scaled_units sc v.2)))
             l (z, m) in
  r.1 = z + sum_units sc l ∧
  (∀ c, sum_for r.2 c = mkSum (cs_units (sum_for m c) + sum_units sc (of_choice c l))
                          (cs_votes (sum_for m c) + length (of_choice c l))) ∧
  (NoDup m.*1 → NoDup r.2.*1) ∧ (∀ c, c ∈ r.2.*1 ↔ c ∈ m.*1 ∨ c ∈ l.*1).
Proof.
  revert z m; induction l as [|[c0 w] l IH]; intros z m; simpl.
  - split_and!; [lia| |done|set_solver]. intros c.
    destruct (sum_for m c) as [a b]; simpl. f_equal; lia.
  - destruct (IH (z + scaled_units sc w) (add_choice m c0 (scaled_units sc w))) as (H1 & H2 & H3 & H4).
    split_and!.
    + rewrite H1. lia.
    + intros c. rewrite H2, sum_for_add. unfold of_choice. rewrite filter_cons. simpl.
      destruct (decide (c = c0)) as [->|Hc].
      * rewrite decide_True by done. simpl. f_equal; lia.
      * by rewrite decide_False by congruence.
    + intros Hm. apply H3. rewrite add_choice_keys. case_decide; [done|].
      apply NoDup_app. split_and!; [done| |apply NoDup_singleton]. set_solver.
    + intros c. rewrite H4, add_choice_keys. case_decide; set_solver.
Qed.

(** ** The order of strings *)

Lemma str_ltb_irrefl a : str_ltb a a = false.
Proof. induction a as [|c a IH]; simpl; [done|]. by rewrite decide_True. Qed.

Lemma str_ltb_asym a b : str_ltb a b = true → str_ltb b a = false.
Proof.
  revert b; induction a as [|x a IH]; intros [|y b]; simpl; try done.
  destruct (decide (x = y)) as [->|Hne]; [rewrite decide_True by done; apply IH|].
  rewrite decide_False by done. intros H%Nat.ltb_lt. apply Nat.ltb_ge. lia.
Qed.

Lemma str_ltb_connex a b : str_ltb a b = false → str_ltb b a = false → a = b.
Proof.
  revert b; induction a as [|x a IH]; intros [|y b]; simpl; try done.
  destruct (decide (x = y)) as [->|Hne].
  - rewrite decide_True by done. intros H1 H2. by rewrite (IH b H1 H2).
  - rewrite decide_False by done. intros H1%Nat.ltb_ge H2%Nat.ltb_ge. exfalso. apply Hne.
    rewrite <-(ascii_nat_embedding x), <-(ascii_nat_embedding y). f_equal. lia.
Qed.

Lemma str_ltb_trans a b c : str_ltb a b = true → str_ltb b c = true → str_ltb a c = true.
Proof.
  revert b c; induction a as [|x a IH]; intros [|y b] [|z c]; simpl; try done.
  destruct (decide (x = y)) as [->|H1], (decide (y = z)) as [E|H2].
  - subst. rewrite ?decide_True by done. apply IH.
  - rewrite ?decide_False by done. intros _ H. exact H.
  - subst. rewrite ?decide_False by done. intros H _. exact H.
  - intros L1%Nat.ltb_lt L2%Nat.ltb_lt. rewrite decide_False by (intros ->; lia).
    apply Nat.ltb_lt. lia.
Qed.

#[global] Instance str_le_total : Total str_le.
Proof.
  intros a b. unfold str_le. destruct (str_ltb b a) eqn:E; [right|by left]. by apply str_ltb_asym.
Qed.
#[global] Instance str_le_trans : Transitive str_le.
Proof.
  intros a b c. unfold str_le. intros H1 H2. destruct (str_ltb c a) eqn:E; [|done].
  destruct (str_ltb a b) eqn:E1.
  - by rewrite (str_ltb_trans c a b E E1) in H2.
  - rewrite (str_ltb_connex a b E1 H1) in E. congruence.
Qed.
Lemma str_le_antisymm a b : str_le a b → str_le b a → a = b.
Proof. unfold str_le. intros H1 H2. by apply str_ltb_connex. Qed.

#[global] Instance vote_before_total : Total vote_before.
Proof.
  intros a b. unfold vote_before.
  destruct (decide (vt_accountId a = vt_accountId b)), (decide (vt_accountId b = vt_accountId a));
    try congruence; apply str_le_total.
Qed.
#[global] Instance vote_before_trans : Transitive vote_before.
Proof.
  intros a b c. unfold vote_before.
  destruct (decide (vt_accountId a = vt_accountId b)) as [E1|E1],
    (decide (vt_accountId b = vt_accountId c)) as [E2|E2].
  - rewrite decide_True by congruence. intros. by etrans.
  - rewrite decide_False, E1 by congruence. done.
  - rewrite decide_False, <-E2 by congruence. done.
  - intros H1 H2. case_decide as E3; [|by etrans].
    exfalso. apply E1. rewrite E3 in H1. rewrite E3. by apply str_le_antisymm.
Qed.

(** ** The choices in their map *)

Lemma sum_for_elem m c e : NoDup m.*1 → (c, e) ∈ m ↔ c ∈ m.*1 ∧ e = sum_for m c.
Proof.
  induction m as [|[k x] m IH]; intros Hm; simpl; [set_solver|].
  apply NoDup_cons in Hm as [Hk Hm]. rewrite !elem_of_cons, (IH Hm). case_decide as E; subst.
  - split; [intros [?|[Hc _]]; [by simplify_eq; split; [left|]|done]|intros [_ ->]; by left].
  - naive_solver.
Qed.

Lemma sum_votes_map sc l :
  (sum_votes sc l).1 = sum_units sc l ∧
  NoDup (sum_votes sc l).2.*1 ∧ (∀ c, c ∈ (sum_votes sc l).2.*1 ↔ c ∈ l.*1) ∧
  ∀ c e, (c, e) ∈ (sum_votes sc l).2 ↔
         c ∈ l.*1 ∧ e = mkSum (sum_units sc (of_choice c l)) (length (of_choice c l)).
Proof.
  destruct (sum_votes_spec sc l 0 []) as (H1 & H2 & H3 & H4). fold (sum_votes sc l) in *.
  assert (NoDup (sum_votes sc l).2.*1) as Hn by (apply H3; constructor).
  assert (∀ c, c ∈ (sum_votes sc l).2.*1 ↔ c ∈ l.*1) as Hk by (intros c; rewrite H4; set_solver).
  split_and!; [rewrite H1; lia|done|done|].
  intros c e. rewrite sum_for_elem, Hk, H2 by done. done.
Qed.

(** Keys in strictly increasing order: the order of [[...keys].sort()]. *)
#[global] Instance choice_le_total : Total (λ a b : string * ChoiceSum, str_le a.1 b.1).
Proof. intros a b. apply str_le_total. Qed.
#[global] Instance choice_le_trans : Transitive (λ a b : string * ChoiceSum, str_le a.1 b.1).
Proof. intros a b c. apply str_le_trans. Qed.

Lemma sort_choices_perm m1 m2 : NoDup m1.*1 → m1 ≡ₚ m2 → sort_choices m1 = sort_choices m2.
Proof.
  intros Hn Hp. unfold sort_choices.
  set (R := λ a b : string * ChoiceSum, str_le a.1 b.1).
  apply (StronglySorted_unique_strong R).
  - intros [c1 e1] [c2 e2] H1 H2 L1 L2.
    rewrite (merge_sort_Permutation R m1) in H1. rewrite (merge_sort_Permutation R m2), <-Hp in H2.
    assert (c1 = c2) as -> by by apply str_le_antisymm.
    apply sum_for_elem in H1 as [_ ->], H2 as [_ ->]; done.
  - apply (StronglySorted_merge_sort R).
  - apply (StronglySorted_merge_sort R).
  - by rewrite !merge_sort_Permutation.
Qed.

(** ** Rational values *)

Local Open Scope Q_scope.

Definition ratio (u : Z) (sc : nat) : Q := Qmake u (Z.to_pos (10 ^ Z.of_nat sc)).
Definition weight_value (s : string) : exc Q :=
  w ← toScaledWeight s; Ok (ratio (units w) (scale w)).

Lemma pow10_pos n : (0 < 10 ^ Z.of_nat n)%Z.
Proof. apply Z.pow_pos_nonneg; lia. Qed.

Lemma ratio_scaled sc w : (scale w ≤ sc)%nat → ratio (scaled_units sc w) sc == ratio (units w) (scale w).
Proof.
  intros H. unfold scaled_units, scaleUp, ratio. case_decide as E; [by rewrite E|].
  unfold Qeq. simpl. rewrite !Z2Pos.id by apply pow10_pos.
  rewrite <-Z.mul_assoc, <-Z.pow_add_r by lia. do 2 f_equal. lia.
Qed.

Lemma ratio_add u v sc : ratio (u + v) sc == ratio u sc + ratio v sc.
Proof. unfold ratio, Qeq, Qplus. simpl. lia. Qed.

Definition sum_Q (l : list Q) : Q := foldr Qplus 0 l.

Lemma sum_ratio sc (l : list (string * ScaledWeight)) :
  (∀ v, v ∈ l → (scale v.2 ≤ sc)%nat) →
  ratio (sum_units sc l) sc == sum_Q (map (λ v, ratio (units v.2) (scale v.2)) l).
Proof.
  induction l as [|v l IH]; intros H; [done|].
  change (ratio (scaled_units sc v.2 + sum_units sc l) sc
    == ratio (units v.2) (scale v.2) + sum_Q (map (λ v, ratio (units v.2) (scale v.2)) l)).
  rewrite ratio_add, ratio_scaled, IH; [done| |]; intros; apply H; by constructor.
Qed.

Lemma printed_value u sc : ∃ q, weight_value (formatScaled u sc) = Ok q ∧ q == ratio u sc.
Proof.
  destruct (print_parse u sc) as (w & Hw & Hs & <-). unfold weight_value. rewrite Hw. simpl.
  eexists. split; [done|]. by rewrite ratio_scaled.
Qed.

(** ** The votes and their parsed weights *)

Definition parsed_vote (v : GovernanceVoteRecord) (x : string * ScaledWeight) : Prop :=
  x.1 = vt_choice v ∧ toScaledWeight (vt_weight v) = Ok x.2.

Lemma computeVoteTally_Ok votes t :
  computeVoteTally votes = Ok t →
  ∃ l, Forall2 parsed_vote votes l ∧
    t = mkTally (length votes) (formatScaled (sum_units (max_scale l) l) (max_scale l))
          (map (λ e, (e.1, mkChoice (cs_votes e.2) (formatScaled (cs_units e.2) (max_scale l))))
             (sort_choices (sum_votes (max_scale l) l).2)).
Proof.
  unfold computeVoteTally. intros (l & Hl & Ht)%bind_Ok. exists l. split.
  - apply mapM_Ok in Hl. eapply Forall2_impl; [exact Hl|].
    intros v [c w] (w' & Hw & [= <- <-])%bind_Ok. done.
  - destruct (sum_votes_map (max_scale l) l) as [E _].
    destruct (sum_votes (max_scale l) l) as [z m]. simpl in *. subst z. by injection Ht as <-.
Qed.

(** The reference: values of the weights, in the order of the votes. *)
Definition vote_values (votes : list GovernanceVoteRecord) (values : list (string * Q)) : Prop :=
  Forall2 (λ v x, x.1 = vt_choice v ∧ weight_value (vt_weight v) = Ok x.2) votes values.

Definition value_of (x : string * ScaledWeight) : string * Q := (x.1, ratio (units x.2) (scale x.2)).

Lemma parsed_values votes l : Forall2 parsed_vote votes l → vote_values votes (map value_of l).
Proof.
  induction 1 as [|v x votes l [H1 H2] _ IH]; constructor; [|exact IH].
  split; [exact H1|]. unfold weight_value. by rewrite H2.
Qed.

Lemma parsed_choices votes l : Forall2 parsed_vote votes l → l.*1 = vt_choice <$> votes.
Proof. induction 1 as [|v x votes l [H1 H2] _ IH]; [done|]. rewrite !fmap_cons, IH. by f_equal. Qed.

Lemma value_of_choice c l :
  map value_of (of_choice c l) = filter (λ x, x.1 = c) (map value_of l).
Proof.
  unfold of_choice. induction l as [|x l IH]; [done|]. rewrite filter_cons. simpl map.
  rewrite filter_cons. simpl. case_decide; simpl; by rewrite IH.
Qed.

Lemma map_ratio l : map (λ v : string * ScaledWeight, ratio (units v.2) (scale v.2)) l = (map value_of l).*2.
Proof. induction l as [|x l IH]; [done|]. simpl. by f_equal. Qed.

(** C30. [computeVoteTally] is the exact tally, with no rounding at any scale: the total is
    the sum of the weights as rational numbers, the choices listed are the choices cast,
    each once, and each has its number of votes and the exact sum of their weights. *)
Theorem tally_exact votes t :
  computeVoteTally votes = Ok t →
  ∃ values, vote_values votes values ∧
    totalVoters t = length votes ∧
    (∃ q, weight_value (totalWeight t) = Ok q ∧ q == sum_Q values.*2) ∧
    NoDup (byChoice t).*1 ∧ (∀ c, c ∈ (byChoice t).*1 ↔ c ∈ vt_choice <$> votes) ∧
    ∀ c ct, (c, ct) ∈ byChoice t →
      ct_votes ct = length (filter (λ x, x.1 = c) values) ∧
      ∃ q, weight_value (ct_weight ct) = Ok q ∧ q == sum_Q (filter (λ x, x.1 = c) values).*2.
Proof.
  intros (l & Hl & ->)%computeVoteTally_Ok. set (sc := max_scale l).
  exists (map value_of l). cbn [totalVoters totalWeight byChoice].
  destruct (sum_votes_map sc l) as (_ & Hn & Hk & He).
  assert (Hp : sort_choices (sum_votes sc l).2 ≡ₚ (sum_votes sc l).2) by apply merge_sort_Permutation.
  set (pr := λ e : string * ChoiceSum, (e.1, mkChoice (cs_votes e.2) (formatScaled (cs_units e.2) sc))).
  assert (Hm : ∀ m, (map pr m).*1 = m.*1).
  { intros m. induction m as [|x m IH]; [done|]. simpl. by f_equal. }
  assert (Hs : ∀ l', l' ⊆ l → ∃ q, weight_value (formatScaled (sum_units sc l') sc) = Ok q ∧
                                   q == sum_Q (map value_of l').*2).
  { intros l' Hl'. destruct (printed_value (sum_units sc l') sc) as (q & Hq & E).
    exists q. split; [done|]. rewrite E, <-map_ratio. apply sum_ratio.
    intros v Hv. by apply max_scale_ge, Hl'. }
  split_and!; [by apply parsed_values|done|by apply Hs| | |].
  - by rewrite Hm, Hp.
  - intros c. by rewrite Hm, Hp, Hk, (parsed_choices _ _ Hl).
  - intros c ct Hc. apply list_elem_of_fmap in Hc as ([c' e] & [= -> ->] & Hc).
    rewrite Hp in Hc. apply He in Hc as [_ ->]. simpl. rewrite <-value_of_choice.
    split; [by rewrite length_map|]. apply Hs. intros x [_ Hx]%list_elem_of_filter. done.
Qed.

(** ** The snapshot does not depend on the order of the rows *)

Lemma parsed_perm votes votes' l :
  votes ≡ₚ votes' → Forall2 parsed_vote votes l → ∃ l', l ≡ₚ l' ∧ Forall2 parsed_vote votes' l'.
Proof.
  intros Hp Hl. destruct (Permutation_Forall2 Hp Hl) as (l' & H1 & H2). by exists l'.
Qed.

Lemma max_scale_perm l1 l2 : l1 ≡ₚ l2 → max_scale l1 = max_scale l2.
Proof.
  intros H. unfold max_scale. generalize O. induction H; intros s; simpl; auto.
  - f_equal. repeat case_decide; lia.
  - by rewrite IHPermutation1.
Qed.

Lemma sum_units_perm sc l1 l2 : l1 ≡ₚ l2 → sum_units sc l1 = sum_units sc l2.
Proof. unfold sum_units. induction 1; simpl; lia. Qed.

Lemma of_choice_perm c l1 l2 : l1 ≡ₚ l2 → of_choice c l1 ≡ₚ of_choice c l2.
Proof. apply filter_Permutation. Qed.

Lemma sum_votes_perm sc l1 l2 : l1 ≡ₚ l2 → (sum_votes sc l1).2 ≡ₚ (sum_votes sc l2).2.
Proof.
  intros Hp. destruct (sum_votes_map sc l1) as (_ & N1 & _ & E1), (sum_votes_map sc l2) as (_ & N2 & _ & E2).
  apply NoDup_Permutation; [by eapply NoDup_fmap_1..|]. intros [c e]. rewrite E1, E2.
  pose proof (of_choice_perm c _ _ Hp) as Hc.
  rewrite (sum_units_perm sc _ _ Hc), (Permutation_length Hc).
  by assert (c ∈ l1.*1 ↔ c ∈ l2.*1) as -> by by rewrite Hp.
Qed.

Lemma computeVoteTally_perm votes votes' t :
  votes ≡ₚ votes' → computeVoteTally votes = Ok t → computeVoteTally votes' = Ok t.
Proof.
  intros Hp (l & Hl & ->)%computeVoteTally_Ok.
  destruct (parsed_perm _ _ _ Hp Hl) as (l' & Hl' & H').
  assert (∃ t', computeVoteTally votes' = Ok t') as [t' Ht'].
  { unfold computeVoteTally. erewrite (proj2 (mapM_Ok _ _ l')); simpl.
    - destruct (sum_votes _ _) as [z m]. by eexists.
    - eapply Forall2_impl; [exact H'|]. intros v [c w] [E1 E2]. simpl in *. by rewrite E2, E1. }
  rewrite Ht'. apply computeVoteTally_Ok in Ht' as (l2 & H2 & ->).
  assert (l2 = l') as ->.
  { clear -H2 H'. revert l' H'. induction H2 as [|v [c w] votes l2 [E1 E2] _ IH];
      intros l' H'; inversion H' as [|? [c' w'] ? l2' [E1' E2']]; simplify_eq/=; [done|].
    f_equal; [congruence|by apply IH]. }
  assert (max_scale l' = max_scale l) as -> by by apply max_scale_perm.
  f_equal. f_equal.
  - by apply Permutation_length.
  - f_equal. by apply sum_units_perm.
  - f_equal. apply sort_choices_perm; [apply sum_votes_map|by apply sum_votes_perm].
Qed.

Definition vote_key (v : GovernanceVoteRecord) : string * string :=
  (vt_accountId v, toISOString (vt_votedAt v)).

Lemma normalizeVotes_perm votes votes' :
  NoDup (vote_key <$> votes) → votes ≡ₚ votes' → normalizeVotes votes = normalizeVotes votes'.
Proof.
  intros Hn Hp. unfold normalizeVotes. f_equal.
  apply (StronglySorted_unique_strong vote_before); [|apply StronglySorted_merge_sort; apply _..|].
  - intros a b Ha Hb. rewrite (merge_sort_Permutation vote_before) in Ha.
    rewrite (merge_sort_Permutation vote_before), <-Hp in Hb. unfold vote_before.
    assert (vote_key a = vote_key b → a = b) as Hab by (by apply (NoDup_key vote_key votes)).
    destruct (decide (vt_accountId a = vt_accountId b)) as [E|E].
    + rewrite decide_True by done. intros L1 L2. apply Hab. unfold vote_key.
      by rewrite E, (str_le_antisymm _ _ L1 L2).
    + rewrite decide_False by congruence. intros L1 L2. by destruct E; apply str_le_antisymm.
  - by rewrite !merge_sort_Permutation.
Qed.

(** The exported snapshot does not depend on the order in which the votes are read, as
    long as no account has two votes at the same time: the same rows in another order give
    the same document, tally and voters, hence the same bytes and the same hash. *)
Theorem snapshot_deterministic p votes votes' g s :
  NoDup (vote_key <$> votes) → votes ≡ₚ votes' →
  buildGovernanceResultSnapshot p votes g = Ok s →
  buildGovernanceResultSnapshot p votes' g = Ok s.
Proof.
  intros Hn Hp (t & Ht & Hs)%bind_Ok. unfold buildGovernanceResultSnapshot.
  by rewrite (computeVoteTally_perm _ _ _ Hp Ht), <-(normalizeVotes_perm _ _ Hn Hp).
Qed.

(** ** Witnesses *)

Definition demo_votes : list GovernanceVoteRecord :=
  [mkVote "G1" "yes" "1.50" 0 None; mkVote "G2" "no" "2e-7" 5 None; mkVote "G3" "yes" " 3 " 9 None].

Definition demo_tally : VoteTally :=
  mkTally 3 "4.5000002" [("no", mkChoice 1 "0.0000002"); ("yes", mkChoice 2 "4.5")].

Lemma tally_exact_witness :
  computeVoteTally demo_votes = Ok demo_tally ∧
  ∃ values, vote_values demo_votes values ∧
    totalVoters demo_tally = length demo_votes ∧
    (∃ q, weight_value (totalWeight demo_tally) = Ok q ∧ q == sum_Q values.*2) ∧
    NoDup (byChoice demo_tally).*1 ∧
    (∀ c, c ∈ (byChoice demo_tally).*1 ↔ c ∈ vt_choice <$> demo_votes) ∧
    ∀ c ct, (c, ct) ∈ byChoice demo_tally →
      ct_votes ct = length (filter (λ x, x.1 = c) values) ∧
      ∃ q, weight_value (ct_weight ct) = Ok q ∧ q == sum_Q (filter (λ x, x.1 = c) values).*2.
Proof.
  assert (computeVoteTally demo_votes = Ok demo_tally) as E by (by vm_compute).
  split; [exact E|]. exact (tally_exact demo_votes demo_tally E).
Defined.

Definition demo_proposal : SnapshotProposal :=
  mkProposalInput "P1" "C1" None None "EXECUTED" 0 None (Some 5%Z) None (Some "tx").
Definition demo_snapshot : GovernanceResultSnapshot :=
  mkSnapshot RESULT_SNAPSHOT_SCHEMA RESULT_SNAPSHOT_VERSION (toISOString 7)
    (proposal_doc demo_proposal) demo_tally (normalizeVotes demo_votes).

Lemma snapshot_deterministic_witness :
  buildGovernanceResultSnapshot demo_proposal (rev demo_votes) 7 = Ok demo_snapshot.
Proof.
  assert (NoDup (vote_key <$> demo_votes)) as N by (by apply (bool_decide_unpack _); vm_compute).
  assert (demo_votes ≡ₚ rev demo_votes) as P by (apply Permutation_rev).
  assert (buildGovernanceResultSnapshot demo_proposal demo_votes 7 = Ok demo_snapshot) as E
    by (vm_compute; reflexivity).
  exact (snapshot_deterministic demo_proposal demo_votes (rev demo_votes) 7 demo_snapshot N P E).
Defined.
