(* ===== verification/OrderFill.v ===== *)
(** * Order fills ([services/orderFillVerificationService.ts])

    The decoding of [OrderFilled] events and their application to open orders, in one
    transaction per event. The XDR codec of the Stellar SDK and the [Decimal] type of the
    client are the classes [XdrCodec] and [DecimalOps]. Proved: each event is credited
    exactly once however often it is delivered, an order's filled amount is the sum of the
    events credited to it, an event that precedes its order is never credited, and no
    event whose value is still XDR is ever credited. *)

From Stdlib Require Import SpecFloat.
From S2P Require Import Prelude JsNumber JsDecimal JsValue Prisma Service.

Local Open Scope Z_scope.

(** ** Decoding *)

Inductive sc_kind := ScText | ScInteger | ScMapKind | ScOtherKind.

(** [xdr.ScVal]: [fromXDR], the arm, [value().toString()], the entries of a map, and
    [String(v)] on the object itself. *)
Class XdrCodec := {
  ScVal : Type;
  fromXDR : string → exc ScVal;
  sc_switch : ScVal → sc_kind;
  sc_value_string : ScVal → string;
  sc_map : ScVal → list (ScVal * ScVal);
  sc_String : ScVal → string;
}.

Section decoding.
Context `{!XdrCodec}.

(** An [ScVal] as a JavaScript value: an object without properties the sources read. *)
Definition sc_object (v : ScVal) : jsval := JOther S754_nan (sc_String v).

(** The recursive calls on the keys and values of a map receive [ScVal] objects, which
    are not strings and come back as they are. *)
Definition decodeScVal (value : jsval) : jsval :=
  match value with
  | JStr s =>
      match fromXDR s with
      | Throw _ => value
      | Ok scVal =>
          match sc_switch scVal with
          | ScText | ScInteger => JStr (sc_value_string scVal)
          | ScMapKind =>
              JObj (map (λ entry, (String_val (sc_object entry.1), sc_object entry.2)) (sc_map scVal))
          | ScOtherKind => value
          end
      end
  | _ => value
  end.

Definition topicNames (topic : jsval) : list string :=
  match topic with
  | JStr _ => [String_val (decodeScVal topic)]
  | JArr l => omap (λ item, match decodeScVal item with JStr s => Some s | _ => None end) l
  | _ => []
  end.

Record SorobanOrderFilledEvent := mkFillEvent {
  fe_txHash : string;
  fe_ledger : Z;
  fe_index : Z;
  fe_topic : jsval;
  fe_value : jsval;
}.

Record OrderFilledData := mkFill { of_orderId : string; of_fillAmount : string }.

(** [a ?? b] *)
Definition nullish_or (a b : jsval) : jsval :=
  match a with JUndef | JNull => b | _ => a end.

Definition parseOrderFilledEvent (event : SorobanOrderFilledEvent) : option OrderFilledData :=
  if negb (bool_decide ("OrderFilled" ∈ topicNames (fe_topic event))) then None
  else
    let value := decodeScVal (fe_value event) in
    if negb (truthy value) then None
    else
      match prop value "orderId" with
      | JStr orderId =>
          let fillAmount := nullish_or (prop value "fillAmount") (prop value "amount") in
          match fillAmount with
          | JStr _ | JNum _ =>
              let parsed := Number_val fillAmount in
              if negb (isFinite parsed) || num_leb parsed num_zero then None
              else Some (mkFill orderId (String_val fillAmount))
          | _ => None
          end
      | _ => None
      end.
End decoding.

(** ** Application *)

(** Prisma's [Decimal]: the constructor, [add], [gte], and what a [Decimal(38, 18)] column
    keeps of a value, if it accepts it. *)
Class DecimalOps (Dec : Type) := {
  dec_of : string → exc Dec;
  dec_add : Dec → Dec → Dec;
  dec_gte : Dec → Dec → bool;
  dec_column : Dec → exc Dec;
}.

Record OrderFilledEvent (Dec : Type) := mkFilled {
  ofe_orderId : string;
  ofe_fillAmount : Dec;
  ofe_txHash : string;
  ofe_ledgerSeq : Z;
  ofe_eventIndex : Z;
}.
Arguments mkFilled {Dec} _ _ _ _ _.
Arguments ofe_orderId {Dec} _.
Arguments ofe_fillAmount {Dec} _.

Record OpenOrder (Dec : Type) := mkOrder {
  oo_orderId : string;
  oo_totalAmount : Dec;
  oo_filledAmount : Dec;
  oo_status : string;
}.
Arguments mkOrder {Dec} _ _ _ _.
Arguments oo_orderId {Dec} _.
Arguments oo_totalAmount {Dec} _.
Arguments oo_filledAmount {Dec} _.
Arguments oo_status {Dec} _.

Section fills.
Context `{!XdrCodec} {Dec : Type} `{!DecimalOps Dec}.
Context {TF TR : Type}.
Context `{!PrismaTable (string * Z) (OrderFilledEvent Dec) TF}.
Context `{!PrismaTable string (OpenOrder Dec) TR}.
Context `{!Transactional (TF * TR)}.

Notation run := (M (TF * TR)).

Definition fill_key (event : SorobanOrderFilledEvent) : string * Z := (fe_txHash event, fe_index event).

(** [orderFilledEvent.create]: the amount is written to its column as a decimal. *)
Definition create_filled (event : SorobanOrderFilledEvent) (fill : OrderFilledData) : run unit :=
  amount <- lift_exc (d ← dec_of (of_fillAmount fill); dec_column d) ;;
  on_fst (createUnique (fill_key event)
            (mkFilled (of_orderId fill) amount (fe_txHash event) (fe_ledger event) (fe_index event))) ;;;
  ret tt.

Definition with_fill (filledAmount : Dec) (status : string) (o : OpenOrder Dec) : OpenOrder Dec :=
  mkOrder (oo_orderId o) (oo_totalAmount o) filledAmount status.

Definition fill_body (event : SorobanOrderFilledEvent) (fill : OrderFilledData) : run unit :=
  indexed <- (λ d, (findUnique (fill_key event) d.1, d)) ;;
  match indexed with
  | Some _ => ret tt
  | None =>
      order <- (λ d, (findUnique (of_orderId fill) d.2, d)) ;;
      match order with
      | None => create_filled event fill
      | Some order =>
          amount <- lift_exc (dec_of (of_fillAmount fill)) ;;
          let filledAmount := dec_add (oo_filledAmount order) amount in
          let status := if dec_gte filledAmount (oo_totalAmount order)
                        then "filled" else "partially_filled" in
          create_filled event fill ;;;
          stored <- lift_exc (dec_column filledAmount) ;;
          on_snd (update (of_orderId fill) (with_fill stored status)) ;;;
          ret tt
      end
  end.

Definition verifyOrderFilledEvent (event : SorobanOrderFilledEvent) : run bool :=
  match parseOrderFilledEvent event with
  | None => ret false
  | Some fill => transaction (fill_body event fill) ;;; ret true
  end.

(** A sequence of deliveries, each of which may fail. *)
Definition deliveries (events : list SorobanOrderFilledEvent) (d : TF * TR) : TF * TR :=
  fold_left (λ d event, final (verifyOrderFilledEvent event) d) events d.

(** ** What one delivery does *)

Definition recorded (event : SorobanOrderFilledEvent) (d : TF * TR) : Prop :=
  is_Some (rows d.1 !! fill_key event).

(** The order after a fill of [amount]. *)
Definition filled_by (fill : OrderFilledData) (o o' : OpenOrder Dec) : Prop :=
  ∃ amount stored, dec_of (of_fillAmount fill) = Ok amount ∧
    dec_column (dec_add (oo_filledAmount o) amount) = Ok stored ∧
    o' = with_fill stored (if dec_gte (dec_add (oo_filledAmount o) amount) (oo_totalAmount o)
                           then "filled" else "partially_filled") o.

(** The effect of a first delivery on both tables. *)
Definition credited (event : SorobanOrderFilledEvent) (fill : OrderFilledData) (d d' : TF * TR) : Prop :=
  (∃ r, rows d'.1 = <[fill_key event := r]> (rows d.1)) ∧
  match rows d.2 !! of_orderId fill with
  | None => rows d'.2 = rows d.2
  | Some o => ∃ o', filled_by fill o o' ∧ rows d'.2 = <[of_orderId fill := o']> (rows d.2)
  end.

Lemma create_filled_inv event fill d u d' :
  create_filled event fill d = (Ok u, d') →
  (∃ r, rows d'.1 = <[fill_key event := r]> (rows d.1)) ∧ d'.2 = d.2.
Proof.
  unfold create_filled, lift_exc, bind, ret. destruct (_ ≫= _) as [amount|]; [|done].
  destruct (on_fst _ d) as [[r|] d1] eqn:E; [|done]. intros [= _ <-].
  apply on_fst_inv in E as [E H2]. apply createUnique_ok in E as (_ & _ & E). by eauto.
Qed.

Lemma fill_body_inv event fill d u d' :
  fill_body event fill d = (Ok u, d') →
  (recorded event d ∧ d' = d) ∨ (rows d.1 !! fill_key event = None ∧ credited event fill d d').
Proof.
  unfold fill_body, bind at 1. destruct (findUnique (fill_key event) d.1) as [[r|]|] eqn:E1; [| |done].
  - intros [= _ <-]. apply findUnique_ok in E1. left. split; [by exists r|done].
  - apply findUnique_ok in E1. unfold bind at 1.
    destruct (findUnique (of_orderId fill) d.2) as [[o|]|] eqn:E2; [| |done];
      apply findUnique_ok in E2; intros Hb; right; (split; [done|]); unfold credited; rewrite <-E2.
    + revert Hb. unfold bind at 1, lift_exc. destruct (dec_of _) as [amount|] eqn:Ea; [|done].
      unfold bind at 1. destruct (create_filled event fill d) as [[[]|] d1] eqn:Ec; [|done].
      apply create_filled_inv in Ec as [Hr Hd]. unfold bind at 1.
      destruct (dec_column _) as [stored|] eqn:Es; [|done]. unfold bind, ret.
      destruct (on_snd _ d1) as [[o'|] d2] eqn:Eu; [|done]. intros [= _ <-].
      apply on_snd_inv in Eu as [Eu H1]. apply update_ok in Eu as (o0 & Ho0 & Ho & Hu).
      rewrite H1; rewrite Hd in *. split; [done|]. rewrite <-E2 in Ho0. injection Ho0 as <-; subst o'.
      eexists. split; [|exact Hu]. exists amount, stored. by split_and!.
    + apply create_filled_inv in Hb as [Hr Hd]. by rewrite Hd.
Qed.

(** Every delivery either leaves the tables alone or credits an event not recorded yet. *)
Lemma delivery_inv event d :
  let d' := final (verifyOrderFilledEvent event) d in
  d' = d ∨ ∃ fill, parseOrderFilledEvent event = Some fill ∧
    rows d.1 !! fill_key event = None ∧ credited event fill d d'.
Proof.
  unfold final, verifyOrderFilledEvent. destruct (parseOrderFilledEvent event) as [fill|]; [|by left].
  unfold bind. destruct (transaction _ d) as [r d1] eqn:E.
  apply transaction_inv in E as [(a & -> & E)|[[e ->] ->]]; [|by left]. simpl.
  apply fill_body_inv in E as [[_ ->]|Hc]; [by left|]. right. by exists fill.
Qed.

Lemma delivery_recorded event event' d :
  recorded event d → recorded event (final (verifyOrderFilledEvent event') d).
Proof.
  intros Hr. destruct (delivery_inv event' d) as [->|(fill & _ & _ & [r Hrows] & _)]; [done|].
  unfold recorded. rewrite Hrows. destruct (decide (fill_key event = fill_key event')) as [->|Hne].
  - by rewrite lookup_insert_eq.
  - by rewrite lookup_insert_ne.
Qed.

Lemma deliveries_recorded event events d :
  recorded event d → recorded event (deliveries events d).
Proof. revert d; induction events as [|e l IH]; intros d Hr; simpl; [done|]. by apply IH, delivery_recorded. Qed.

(** A recorded event is not looked at again. *)
Lemma delivery_again event d :
  recorded event d → final (verifyOrderFilledEvent event) d = d.
Proof.
  intros [r Hr]. destruct (delivery_inv event d) as [->|(fill & _ & Hn & _)]; [done|congruence].
Qed.

Lemma delivery_completes event d :
  parseOrderFilledEvent event ≠ None → (verifyOrderFilledEvent event d).1 = Ok true →
  recorded event (final (verifyOrderFilledEvent event) d).
Proof.
  unfold final, verifyOrderFilledEvent. destruct (parseOrderFilledEvent event) as [fill|]; [|done].
  intros _. unfold bind. destruct (transaction _ d) as [r d1] eqn:E.
  apply transaction_inv in E as [(a & -> & E)|[[e ->] ->]]; [|done]. simpl. intros _.
  apply fill_body_inv in E as [[Hr ->]|[_ [[r Hr] _]]]; [done|].
  unfold recorded. by rewrite Hr, lookup_insert_eq.
Qed.

(** ** Theorems *)

(** The order after the fills of [l], in turn. *)
Fixpoint filled_through (l : list SorobanOrderFilledEvent) (o o' : OpenOrder Dec) : Prop :=
  match l with
  | [] => o' = o
  | event :: l' => ∃ fill o1, parseOrderFilledEvent event = Some fill ∧
      of_orderId fill = oo_orderId o ∧ filled_by fill o o1 ∧ filled_through l' o1 o'
  end.

Definition fills_order (oid : string) (event : SorobanOrderFilledEvent) : Prop :=
  ∃ fill, parseOrderFilledEvent event = Some fill ∧ of_orderId fill = oid.

Lemma filled_by_id fill o o' : filled_by fill o o' → oo_orderId o' = oo_orderId o.
Proof. by intros (? & ? & _ & _ & ->). Qed.

Lemma delivery_recorded_new event event' d :
  recorded event' (final (verifyOrderFilledEvent event) d) → ¬ recorded event' d →
  fill_key event' = fill_key event.
Proof.
  intros H1 H2. destruct (delivery_inv event d) as [E|(fill & _ & _ & [r Hr] & _)]; [by rewrite E in H1|].
  unfold recorded in H1. rewrite Hr in H1. destruct (decide (fill_key event' = fill_key event)); [done|].
  by rewrite lookup_insert_ne in H1.
Qed.

(** An event not delivered is not recorded. *)
Lemma deliveries_unrecorded e events d :
  (∀ x, x ∈ events → fill_key x ≠ fill_key e) → ¬ recorded e d → ¬ recorded e (deliveries events d).
Proof.
  revert d; induction events as [|x events IH]; intros d Hx H0; simpl; [done|].
  apply IH; [intros; apply Hx; by right|]. intros Hr. apply (Hx x); [by left|].
  symmetry. by eapply delivery_recorded_new.
Qed.

(** [l] is what the deliveries credited to the order [o], leaving [o']. *)
Definition credits (oid : string) (events : list SorobanOrderFilledEvent) (d : TF * TR)
    (o : OpenOrder Dec) (l : list SorobanOrderFilledEvent) (o' : OpenOrder Dec) : Prop :=
  l `sublist_of` events ∧ NoDup (fill_key <$> l) ∧
  rows (deliveries events d).2 !! oid = Some o' ∧ filled_through l o o' ∧
  ∀ e, e ∈ events →
    e ∈ l ↔ fills_order oid e ∧ recorded e (deliveries events d) ∧ ¬ recorded e d.

(** Keys identify the events of a sequence. *)
Definition keyed (events : list SorobanOrderFilledEvent) : Prop :=
  ∀ e1 e2, e1 ∈ events → e2 ∈ events → fill_key e1 = fill_key e2 → e1 = e2.

Section first_delivery.
Context (oid : string) (e : SorobanOrderFilledEvent) (events : list SorobanOrderFilledEvent) (d : TF * TR).
Context (Hk : keyed (e :: events)).
Notation d1 := (final (verifyOrderFilledEvent e) d).

Lemma keyed_tail : keyed events.
Proof. intros e1 e2 H1 H2. apply Hk; by right. Qed.

Lemma event_dec x : x ∈ e :: events → x = e ∨ x ≠ e.
Proof.
  intros Hx. destruct (decide (fill_key x = fill_key e)) as [Ek|Ek]; [|right; by intros ->].
  left. apply Hk; [done|by left|done].
Qed.

Lemma repeated_dec : e ∈ events ∨ e ∉ events.
Proof.
  destruct (decide (fill_key e ∈ fill_key <$> events)) as [(x & Ek & Hx)%list_elem_of_fmap|Hn].
  - left. by rewrite (Hk e x) by (done || by constructor).
  - right. intros Hx. apply Hn, list_elem_of_fmap. by exists e.
Qed.

Lemma newly_recorded x : x ∈ e :: events → recorded x d1 → ¬ recorded x d → x = e.
Proof. intros Hx H1 H2. apply Hk; [done|by left|]. by eapply delivery_recorded_new. Qed.

(** A delivery that did nothing. *)
Lemma credits_skip o l o' : d1 = d → credits oid events d o l o' → credits oid (e :: events) d o l o'.
Proof.
  unfold credits. simpl. intros -> (Hs & Hd & Hr & Hf & Hm).
  split_and!; [by constructor|done|done|done|].
  intros e' [->|He']%elem_of_cons; [|by apply Hm].
  destruct repeated_dec as [Hin|Hin]; [by apply Hm|]. split.
  - intros Hl. destruct Hin. by eapply sublist_subseteq.
  - intros (_ & H1 & H2). destruct (deliveries_unrecorded e events d); [|done|done].
    intros x Hx Ek. apply Hin. by rewrite <-(Hk x e) by (done || by constructor).
Qed.

(** A delivery that recorded an event of another order. *)
Lemma credits_other o l o' :
  ¬ fills_order oid e → credits oid events d1 o l o' → credits oid (e :: events) d o l o'.
Proof.
  unfold credits. simpl. intros Hfo (Hs & Hd & Hr & Hf & Hm).
  split_and!; [by constructor|done|done|done|].
  intros x Hx. destruct (event_dec x Hx) as [->|Hxe].
  - split; [|naive_solver]. intros Hl. exfalso.
    assert (He : e ∈ events) by by eapply sublist_subseteq. by apply (Hm e He) in Hl as [? _].
  - pose proof Hx as [->|Hx']%elem_of_cons; [done|]. rewrite (Hm x Hx').
    split; intros (H1 & H2 & H3); split_and!; try done.
    + intros ?. by apply H3, delivery_recorded.
    + intros H4. apply Hxe. by apply newly_recorded.
Qed.

(** A delivery that credited the order. *)
Lemma credits_first fill o o1 l o' :
  parseOrderFilledEvent e = Some fill → of_orderId fill = oid → oo_orderId o = oid →
  filled_by fill o o1 → recorded e d1 → ¬ recorded e d →
  credits oid events d1 o1 l o' → credits oid (e :: events) d o (e :: l) o'.
Proof.
  unfold credits. change (deliveries (e :: events) d) with (deliveries events d1).
  intros Hp Heq Hid Hf1 Hr1 Hnr (Hs & Hd & Hr & Hf & Hm).
  assert (Hl : ∀ x, x ∈ l → x ∈ events) by (intros; by eapply sublist_subseteq).
  split_and!; [by constructor| |done| |].
  - rewrite fmap_cons. apply NoDup_cons. split; [|done].
    intros (x & Ek & Hx)%list_elem_of_fmap. pose proof (Hl x Hx) as Hxe.
    apply (Hm x Hxe) in Hx as (_ & _ & Hx). destruct Hx. unfold recorded. by rewrite <-Ek.
  - cbn [filled_through]. exists fill, o1. split_and!; [done|by rewrite Heq|done|done].
  - intros x Hx. rewrite elem_of_cons. split.
    + intros [->|Hxl]; [split_and!; [by exists fill|by apply deliveries_recorded|done]|].
      apply (Hm x (Hl x Hxl)) in Hxl as (H1 & H2 & H3). split_and!; [done|done|].
      intros ?. by apply H3, delivery_recorded.
    + intros (H1 & H2 & H3). destruct (event_dec x Hx) as [->|Hxe]; [by left|right].
      pose proof Hx as [->|Hx']%elem_of_cons; [done|]. apply Hm; [done|]. split_and!; [done|done|].
      intros H4. apply Hxe. by apply newly_recorded.
Qed.
End first_delivery.

(** C38. Fills are credited exactly once. After any sequence of deliveries, with repeats and
    with any of them failing, the filled amount and status of an order that existed at
    the start come from applying, once each and in the order of delivery, exactly the
    events of that order that are now recorded and were not before. *)
Theorem fills_credited_once oid events d o :
  keyed events → rows d.2 !! oid = Some o → oo_orderId o = oid →
  ∃ l o', credits oid events d o l o'.
Proof.
  revert d o. induction events as [|e events IH]; intros d o Hk Ho Hid.
  { exists [], o. unfold credits. simpl.
    split_and!; [constructor|constructor|done|done|]. by intros e ?%elem_of_nil. }
  pose proof (keyed_tail e events Hk) as Hk'.
  destruct (delivery_inv e d) as [E|(fill & Hp & Hn & [r Hr] & Hc)].
  - destruct (IH d o Hk' Ho Hid) as (l & o' & Hl). exists l, o'. by apply credits_skip.
  - set (d1 := final (verifyOrderFilledEvent e) d) in *.
    destruct (decide (of_orderId fill = oid)) as [Heq|Hne].
    + rewrite Heq, Ho in Hc. destruct Hc as (o1 & Hf1 & Hrow).
      destruct (IH d1 o1 Hk') as (l & o' & Hl);
        [by rewrite Hrow, lookup_insert_eq|by rewrite (filled_by_id _ _ _ Hf1)|].
      exists (e :: l), o'. eapply credits_first; try done; fold d1.
      * unfold recorded. by rewrite Hr, lookup_insert_eq.
      * intros [? ?]. congruence.
    + assert (rows d1.2 !! oid = Some o) as Ho1.
      { destruct (rows d.2 !! of_orderId fill) as [o0|]; [|by rewrite Hc].
        destruct Hc as (o1 & _ & ->). by rewrite lookup_insert_ne. }
      destruct (IH d1 o Hk' Ho1 Hid) as (l & o' & Hl). exists l, o'.
      apply credits_other; [done| |done]. intros (f & Hf & Ef). congruence.
Qed.

(** An event that arrives before its order is recorded but never credited: once it has
    been delivered while the order is missing, no redelivery changes anything, whether or
    not the order has been created since. *)
Theorem early_fill_is_lost event fill d d1 :
  parseOrderFilledEvent event = Some fill → rows d.2 !! of_orderId fill = None →
  verifyOrderFilledEvent event d = (Ok true, d1) →
  rows d1.2 = rows d.2 ∧
  ∀ d2 n, rows d2.1 = rows d1.1 → deliveries (replicate n event) d2 = d2.
Proof.
  intros Hp Ho E.
  assert (Hr : recorded event (final (verifyOrderFilledEvent event) d)).
  { apply delivery_completes; [congruence|by rewrite E]. }
  split.
  - destruct (delivery_inv event d) as [E1|(fill' & Hp' & _ & _ & Hc)]; unfold final in *; rewrite E in *; simpl in *.
    + by rewrite E1.
    + rewrite Hp in Hp'. injection Hp' as <-. by rewrite Ho in Hc.
  - intros d2 n H2. unfold final in Hr. rewrite E in Hr. simpl in Hr.
    assert (recorded event d2) by (unfold recorded in *; by rewrite H2).
    induction n as [|n IH]; [done|]. simpl. by rewrite delivery_again.
Qed.
End fills.

(** Only events whose value is already a plain object are ever recognised. A value that is
    still XDR text decodes to text or to a map whose values stay undecoded (the recursive
    call receives an object, not text), and an SDK object has no property [orderId]. *)
Theorem undecoded_events_are_ignored `{!XdrCodec} event :
  (∀ fields, fe_value event ≠ JObj fields) → parseOrderFilledEvent event = None.
Proof.
  intros Hv. unfold parseOrderFilledEvent. destruct (negb _); [done|].
  assert (∀ s, prop (decodeScVal (fe_value event)) "orderId" ≠ JStr s) as Hn.
  { intros s. destruct (fe_value event) as [| | | |t|l|fields|] eqn:E; try done; [|by destruct (Hv fields)].
    simpl. destruct (fromXDR t) as [scVal|]; [|done]. destruct (sc_switch scVal); try done.
    cbn [prop]. induction (sc_map scVal) as [|[k v] m IH]; [done|]. cbn [map field fst snd].
    destruct (bool_decide _); [done|]. exact IH. }
  destruct (negb _); [done|]. destruct (prop _ _); try done. by destruct (Hn s).
Qed.

(** ** Witnesses *)

(** No text is XDR; amounts are integers. *)
#[export] Instance plain_xdr : XdrCodec := {|
  ScVal := string; fromXDR _ := Throw (Error "not XDR"); sc_switch _ := ScOtherKind;
  sc_value_string s := s; sc_map _ := []; sc_String s := s |}.
#[export] Instance integer_decimals : DecimalOps Z := {|
  dec_of s := match BigInt_str s with Some z => Ok z | None => Throw (Error "[DecimalError]") end;
  dec_add := Z.add; dec_gte a b := b <=? a; dec_column := Ok |}.
#[export] Instance always_commits D : Transactional D := {| commit _ := Ok tt |}.

Definition fill_event (tx : string) (orderId amount : string) : SorobanOrderFilledEvent :=
  mkFillEvent tx 100 0 (JArr [JStr "OrderFilled"])
    (JObj [("orderId", JStr orderId); ("fillAmount", JStr amount)]).

Notation demo_db := (gmap (string * Z) (OrderFilledEvent Z) * gmap string (OpenOrder Z))%type.
Definition demo_order : OpenOrder Z := mkOrder "o1" 10 0 "open".
Definition demo_fills : list SorobanOrderFilledEvent :=
  [fill_event "t1" "o1" "4"; fill_event "t2" "o2" "9"; fill_event "t1" "o1" "4"; fill_event "t3" "o1" "6"].
Definition demo_tables : demo_db := (∅, {["o1" := demo_order]}).

Example demo_filled :
  rows (deliveries demo_fills demo_tables).2 !! "o1" = Some (mkOrder "o1" 10 10 "filled").
Proof. vm_compute. reflexivity. Qed.

Lemma fills_credited_once_witness :
  ∃ l o', credits "o1" demo_fills demo_tables demo_order l o'.
Proof.
  assert (keyed demo_fills) as K.
  { intros e1 e2 H1 H2. unfold demo_fills in *. rewrite !elem_of_cons, elem_of_nil in H1, H2.
    destruct H1 as [->|[->|[->|[->|[]]]]], H2 as [->|[->|[->|[->|[]]]]]; vm_compute; congruence. }
  assert (rows demo_tables.2 !! "o1" = Some demo_order) as R by (by vm_compute).
  exact (fills_credited_once "o1" demo_fills demo_tables demo_order K R eq_refl).
Defined.

Definition early_event : SorobanOrderFilledEvent := fill_event "t2" "o2" "9".
Definition early_fill : OrderFilledData := mkFill "o2" "9".
Definition after_early : demo_db := final (verifyOrderFilledEvent early_event) demo_tables.
(** The order is created after its fill. *)
Definition late_order : demo_db := (after_early.1, <["o2" := mkOrder "o2" 9 0 "open"]> after_early.2).

Lemma early_fill_is_lost_witness :
  rows (deliveries (replicate 3 early_event) late_order).2 !! "o2" = Some (mkOrder "o2" 9 0 "open").
Proof.
  assert (parseOrderFilledEvent early_event = Some early_fill) as P by (by vm_compute).
  assert (rows demo_tables.2 !! of_orderId early_fill = None) as N by (by vm_compute).
  assert (verifyOrderFilledEvent early_event demo_tables = (Ok true, after_early)) as E
    by (vm_compute; reflexivity).
  destruct (early_fill_is_lost early_event early_fill demo_tables after_early P N E) as [_ H].
  rewrite (H late_order 3%nat eq_refl). by vm_compute.
Defined.

Lemma undecoded_events_are_ignored_witness :
  parseOrderFilledEvent (mkFillEvent "t" 1 0 (JArr [JStr "OrderFilled"]) (JStr "AAAA")) = None.
Proof. apply undecoded_events_are_ignored. intros fields. discriminate. Defined.
