(* ===== verification/VoterHistory.v ===== *)
(** * Governance votes ([services/voterHistoryService.ts])

    The ingestion of vote events, the paged history of an account and its delegation tree.
    The proposals are the table of [Timelock], whose steps are interleaved with the
    ingestion. Proved: every stored vote has its proposal and holds the data of the last
    event ingested for it; a proposal first seen through a vote never reaches the status
    the timelock acts on; and following [nextCursor] lists each vote of the account once,
    latest first. *)

From Stdlib Require Import SpecFloat.
From S2P Require Import Prelude JsNumber JsDate JsDecimal Prisma Service Timelock.

Local Open Scope Z_scope.

(** ** Ingestion *)

Record GovernanceVoteEventPayload := mkVotePayload {
  vp_accountId : string;
  vp_proposalId : string;
  vp_choice : string;
  vp_weight : string;
  vp_txHash : option string;
  vp_votedAt : Z;
}.

Record GovernanceVote := mkGovVote {
  gv_choice : string;
  gv_weight : string;
  gv_txHash : option string;
  gv_votedAt : Z;
}.

Section ingestion.
Context {DP DV : Type}.
Context `{!PrismaTable string GovernanceProposal DP}.
Context `{!PrismaTable (string * string) GovernanceVote DV}.
(** [process.env.GOVERNANCE_CONTRACT_ID ?? process.env.CONTRACT_ID ?? ""] *)
Context (contractId : string).

Definition stub_proposal (proposalId : string) (t : Z) : GovernanceProposal :=
  mkProposal proposalId contractId (t + 7 * 24 * 60 * 60 * 1000) "Pending"
    None None None None 0 None t.

Definition vote_data (payload : GovernanceVoteEventPayload) : GovernanceVote :=
  mkGovVote (vp_choice payload) (vp_weight payload) (vp_txHash payload) (vp_votedAt payload).

(** [t] is [Date.now()]. *)
Definition ingestGovernanceVoteEvent (t : Z) (payload : GovernanceVoteEventPayload) : M (DP * DV) unit :=
  on_fst (upsert (vp_proposalId payload) (stub_proposal (vp_proposalId payload) t) (λ p, p)) ;;;
  on_snd (upsert (vp_accountId payload, vp_proposalId payload) (vote_data payload)
            (λ _, vote_data payload)) ;;;
  ret tt.

(** The proposal exists afterwards; existing ones are as they were. *)
Lemma ingest_inv t payload d r d' :
  ingestGovernanceVoteEvent t payload d = (r, d') →
  (rows d'.1 = rows d.1 ∨
   rows d'.1 = <[vp_proposalId payload :=
                  default (stub_proposal (vp_proposalId payload) t) (rows d.1 !! vp_proposalId payload)]>
                 (rows d.1)) ∧
  (rows d'.2 = rows d.2 ∨
   (is_Some (rows d'.1 !! vp_proposalId payload) ∧
    rows d'.2 = <[(vp_accountId payload, vp_proposalId payload) := vote_data payload]> (rows d.2))) ∧
  (r = Ok tt → is_Some (rows d'.1 !! vp_proposalId payload) ∧
    rows d'.2 = <[(vp_accountId payload, vp_proposalId payload) := vote_data payload]> (rows d.2)).
Proof.
  unfold ingestGovernanceVoteEvent, bind, ret.
  destruct (on_fst _ d) as [[p|e] d1] eqn:E1; apply on_fst_inv in E1 as [E1 H1].
  - apply upsert_ok in E1 as [Hp Hr]. destruct (on_snd _ d1) as [[v|e] d2] eqn:E2;
      apply on_snd_inv in E2 as [E2 H2].
    + apply upsert_ok in E2 as [Hv Hr2]. intros [= <- <-]. rewrite H2, Hr2, H1, Hr, lookup_insert_eq.
      assert (v = vote_data payload) as -> by (by rewrite Hv; case_match).
      rewrite Hp. split_and!; [right; by destruct (_ !! _)|right; by eauto|by eauto].
    + apply upsert_err in E2. intros [= <- <-]. rewrite H2, E2, H1, Hr, Hp.
      split_and!; [right; by destruct (_ !! _)|by left|done].
  - apply upsert_err in E1. intros [= <- <-]. rewrite E1, H1. split_and!; [by left|by left|done].
Qed.

Definition ingest_all (events : list (Z * GovernanceVoteEventPayload)) (d : DP * DV) : DP * DV :=
  fold_left (λ d e, final (ingestGovernanceVoteEvent e.1 e.2) d) events d.

(** Every vote refers to a proposal, as the foreign key demands. *)
Definition votes_have_proposals (d : DP * DV) : Prop :=
  map_Forall (λ k _, is_Some (rows d.1 !! k.2)) (rows d.2).

Lemma ingest_keeps_reference t payload d :
  votes_have_proposals d → votes_have_proposals (final (ingestGovernanceVoteEvent t payload) d).
Proof.
  intros Hd. unfold final. destruct (ingestGovernanceVoteEvent t payload d) as [r d'] eqn:E.
  apply ingest_inv in E as (Hp & Hv & _). simpl.
  assert (∀ k, is_Some (rows d.1 !! k) → is_Some (rows d'.1 !! k)) as Hmono.
  { intros k Hk. destruct Hp as [->| ->]; [done|].
    destruct (decide (k = vp_proposalId payload)) as [->|]; [by rewrite lookup_insert_eq|].
    by rewrite lookup_insert_ne. }
  unfold votes_have_proposals. destruct Hv as [->|[Hs ->]].
  - intros k v Hk. by apply Hmono, (Hd k v).
  - intros k v [[<- <-]|[_ Hk]]%lookup_insert_Some; [done|]. by apply Hmono, (Hd k v).
Qed.

(** The last event of [events] for a vote. *)
Definition event_key (e : Z * GovernanceVoteEventPayload) : string * string :=
  (vp_accountId e.2, vp_proposalId e.2).
Definition last_event (k : string * string) (events : list (Z * GovernanceVoteEventPayload))
    : option GovernanceVote :=
  (λ e, vote_data e.2) <$> last (filter (λ e, event_key e = k) events).

Definition all_ingested (events : list (Z * GovernanceVoteEventPayload)) (d : DP * DV) : Prop :=
  ∀ pre e post, events = pre ++ e :: post →
    outcome (ingestGovernanceVoteEvent e.1 e.2) (ingest_all pre d) = Ok tt.

(** After ingesting a sequence of vote events, none of which failed, each vote holds the
    data of the last event for its account and proposal, and is the old one when there
    was none; every vote still refers to a stored proposal, and no proposal that existed
    before has changed. *)
Theorem ingest_last_event events d :
  votes_have_proposals d → all_ingested events d →
  let d' := ingest_all events d in
  (∀ k, rows d'.2 !! k = match last_event k events with Some v => Some v | None => rows d.2 !! k end) ∧
  votes_have_proposals d' ∧ rows d.1 ⊆ rows d'.1.
Proof.
  revert d. induction events as [|e events IH]; intros d Hd Ha; simpl; [done|].
  pose proof (ingest_keeps_reference e.1 e.2 d Hd) as Hd1.
  pose proof (Ha [] e events eq_refl) as Hok. unfold outcome in Hok. simpl in Hok.
  destruct (ingestGovernanceVoteEvent e.1 e.2 d) as [r d1] eqn:E. simpl in Hok. subst r.
  assert (final (ingestGovernanceVoteEvent e.1 e.2) d = d1) as Hf by (unfold final; by rewrite E).
  rewrite Hf in *. apply ingest_inv in E as (Hp & _ & Hv). destruct (Hv eq_refl) as [_ Hr].
  destruct (IH d1 Hd1) as (H1 & H2 & H3).
  { intros pre x post ->. pose proof (Ha (e :: pre) x post eq_refl) as Hx. simpl in Hx.
    unfold ingest_all in *. simpl in Hx. by rewrite Hf in Hx. }
  split_and!; [|exact H2|].
  - intros k. rewrite H1, Hr. unfold last_event. rewrite filter_cons. fold (event_key e).
    destruct (decide (event_key e = k)) as [<-|Hk].
    + rewrite last_cons. destruct (last _); [done|]. by rewrite lookup_insert_eq.
    + destruct (last _); [done|]. by rewrite lookup_insert_ne.
  - etrans; [|exact H3]. destruct Hp as [->| ->]; [done|].
    destruct (rows d.1 !! vp_proposalId e.2) as [p|] eqn:Ep; simpl.
    + by rewrite insert_id.
    + by apply insert_subseteq.
Qed.
End ingestion.

(** ** Votes and the timelock *)

Section stranded.
Context {DP DE DV H Sc : Type}.
Context `{!PrismaTable string GovernanceProposal DP}.
Context `{!PrismaTable (string * string * string) TimelockEvent DE} `{!TimelockWorld H Sc}.
Context `{!PrismaTable (string * string) GovernanceVote DV}.
Context (fromXDR : string → option Sc) (sc_name sc_value_string : Sc → string).
Context (sc_map : Sc → option (list (Sc * Sc))) (sc_String : Sc → string).
Context (sc_prop : Sc → string → js Sc).
Context (Number_of : string → number) (Date_of : string → date).
Context (JSON_stringify : js Sc → string).
Context (defaultGracePeriodMs : Z) (contractId : string).

Notation db := (DP * DE * Z)%type.
Notation timelock_run := (timelock_run fromXDR sc_name sc_value_string sc_map sc_String sc_prop
  Number_of Date_of JSON_stringify defaultGracePeriodMs).

(** The timelock service and the vote ingestion over one proposal table. *)
Inductive governance_op :=
| OpTimelock (op : timelock_op)
| OpVote (t : Z) (payload : GovernanceVoteEventPayload).

Definition governance_step (s : svc db H * DV) (op : governance_op) : svc db H * DV :=
  match op with
  | OpTimelock op => (timelock_run s.1 [op], s.2)
  | OpVote t payload =>
      let d' := final (ingestGovernanceVoteEvent contractId t payload) ((svc_db s.1).1.1, s.2) in
      (mkSvc (d'.1, (svc_db s.1).1.2, (svc_db s.1).2) (svc_env s.1), d'.2)
  end.
Definition governance_run : svc db H * DV → list governance_op → svc db H * DV := foldl governance_step.

(** A proposal the timelock does not act on. *)
Definition stranded (k : string) (m : gmap string GovernanceProposal) : Prop :=
  ∃ p, m !! k = Some p ∧ gp_status p ∈ ["Pending"; "Executed"].

Lemma stranded_keep k : statements_keep (H:=H) (λ d : db, stranded k (rows d.1.1)).
Proof.
  apply (rows_statements_keep fromXDR Number_of Date_of (stranded k)).
  - intros m id r0 (p & Hp & Hs) Hn _. exists p. by rewrite lookup_insert_ne by congruence.
  - intros m id r f (p & Hp & Hs) Hr Hf. destruct (decide (id = k)) as [->|].
    + exists (f r). rewrite lookup_insert_eq. split; [done|]. replace r with p in * by congruence.
      destruct Hf as [->| ->]; [done|set_solver].
    + exists p. by rewrite lookup_insert_ne.
  - intros m g (p & Hp & Hs) Hg. exists (g p). rewrite lookup_fmap, Hp. split; [done|].
    destruct (Hg p) as [->|[->|[Hq _]]]; [done|done|]. rewrite Hq in Hs. set_solver.
Qed.

Lemma stranded_step k s op : stranded k (proposal_rows s.1) → stranded k (proposal_rows (governance_step s op).1).
Proof.
  intros Hs. destruct op as [op|t payload]; simpl.
  - exact (timelock_run_keeps fromXDR sc_name sc_value_string sc_map sc_String sc_prop Number_of
      Date_of JSON_stringify defaultGracePeriodMs _ (stranded_keep k) [op] s.1 Hs).
  - unfold proposal_rows, final in *. simpl.
    destruct (ingestGovernanceVoteEvent _ _ _ _) as [r d'] eqn:E.
    apply ingest_inv in E as (Hp & _ & _). simpl in *. destruct Hp as [->| ->]; [done|].
    destruct Hs as (p & Hp & Hst). exists p. split; [|done].
    destruct (decide (k = vp_proposalId payload)) as [->|]; [|by rewrite lookup_insert_ne].
    by rewrite lookup_insert_eq, Hp.
Qed.

(** A proposal whose first vote is indexed before its [ProposalQueued] event is stranded.
    The vote creates it as [Pending]; whatever the timelock service and further votes do
    afterwards, in any order and with any failures, its status is [Pending] or, if the
    contract reports its execution, [Executed]: never [Queued], the only status the service
    notifies, executes and expires. *)
Theorem vote_first_strands_proposal t payload (s : svc db H * DV) ops :
  let k := vp_proposalId payload in
  proposal_rows s.1 !! k = None →
  is_Some (proposal_rows (governance_step s (OpVote t payload)).1 !! k) →
  stranded k (proposal_rows (governance_run (governance_step s (OpVote t payload)) ops).1).
Proof.
  intros k Hn Hs.
  assert (stranded k (proposal_rows (governance_step s (OpVote t payload)).1)) as H0.
  { revert Hs. unfold governance_step, proposal_rows, final in *. simpl.
    destruct (ingestGovernanceVoteEvent _ _ _ _) as [r d'] eqn:E.
    apply ingest_inv in E as (Hp & _ & _). simpl in *. intros [p Hp'].
    destruct Hp as [E|E]; rewrite E in *; [congruence|].
    unfold k in *. rewrite Hn in *. simpl. eexists. rewrite lookup_insert_eq. split; [done|].
    simpl. set_solver. }
  revert H0. generalize (governance_step s (OpVote t payload)). clear.
  induction ops as [|op ops IH]; intros s Hs; simpl; [done|]. by apply IH, stranded_step.
Qed.
End stranded.

(** ** History *)

Record VoteHistoryOptions := mkHistoryOptions {
  ho_from : option Z;
  ho_to : option Z;
  ho_limit : nat;
  ho_cursor : option Z;
}.

(** A vote with its row number and its proposal. *)
Record VoteRow := mkVoteRow {
  vr_id : Z;
  vr_accountId : string;
  vr_proposalId : string;
  vr_proposal : option (option string * string);
  vr_choice : string;
  vr_weight : string;
  vr_votedAt : Z;
  vr_txHash : option string;
}.

Record VoteRecord := mkVoteRecord {
  vrec_voteId : Z;
  vrec_proposalId : string;
  vrec_proposalTitle : option string;
  vrec_proposalStatus : string;
  vrec_choice : string;
  vrec_weight : string;
  vrec_votedAt : string;
  vrec_txHash : option string;
}.

Record VoteHistoryResult := mkHistory {
  hr_total : nat;
  hr_nextCursor : option Z;
  hr_items : list VoteRecord;
}.

Definition toVoteRecord (v : VoteRow) : VoteRecord :=
  mkVoteRecord (vr_id v) (vr_proposalId v) (vr_proposal v ≫= fst)
    (from_option snd "Unknown" (vr_proposal v)) (vr_choice v) (vr_weight v)
    (toISOString (vr_votedAt v)) (vr_txHash v).

Definition in_range (options : VoteHistoryOptions) (v : VoteRow) : bool :=
  from_option (λ from, from <=? vr_votedAt v) true (ho_from options) &&
  from_option (λ to, vr_votedAt v <=? to) true (ho_to options).

(** [if (cursor)]: a cursor of 0 is none. *)
Definition after_cursor (options : VoteHistoryOptions) (v : VoteRow) : bool :=
  match ho_cursor options with
  | Some cursor => (cursor =? 0) || (vr_id v <? cursor)
  | None => true
  end.

Definition history_where (accountId : string) (options : VoteHistoryOptions) (v : VoteRow) : bool :=
  bool_decide (vr_accountId v = accountId) && in_range options v && after_cursor options v.

(** [orderBy: { id: "desc" }] *)
Definition latest_first (a b : VoteRow) : Prop := vr_id b ≤ vr_id a.
#[global] Instance latest_first_dec a b : Decision (latest_first a b).
Proof. unfold latest_first. apply _. Defined.
#[global] Instance latest_first_total : Total latest_first.
Proof. intros a b. unfold latest_first. lia. Qed.
#[global] Instance latest_first_trans : Transitive latest_first.
Proof. intros a b c. unfold latest_first. lia. Qed.

Section history.
Context {DV : Type} `{!PrismaTable Z VoteRow DV}.

Definition getVoteHistory (accountId : string) (options : VoteHistoryOptions) (d : DV)
    : exc VoteHistoryResult :=
  total ← count (λ v, bool_decide (vr_accountId v = accountId)) d;
  found ← findAll d;
  let rows := take (ho_limit options + 1)
                (merge_sort latest_first (filter (λ v, history_where accountId options v = true) found)) in
  let hasNextPage := bool_decide (ho_limit options < length rows)%nat in
  let rows := if hasNextPage then take (length rows - 1) rows else rows in
  Ok (mkHistory total
        (if hasNextPage then vr_id <$> last rows else None)
        (map toVoteRecord rows)).

(** A client that follows [nextCursor] to the end; [None] when [fuel] pages were not enough. *)
Fixpoint follow (fuel : nat) (accountId : string) (options : VoteHistoryOptions) (d : DV)
    : exc (option (list VoteRecord)) :=
  match fuel with
  | O => Ok None
  | S fuel' =>
      page ← getVoteHistory accountId options d;
      match hr_nextCursor page with
      | None => Ok (Some (hr_items page))
      | Some cursor =>
          rest ← follow fuel' accountId
                   (mkHistoryOptions (ho_from options) (ho_to options) (ho_limit options) (Some cursor)) d;
          Ok (app (hr_items page) <$> rest)
      end
  end.

(** ** Following the pages *)

Definition with_cursor (options : VoteHistoryOptions) (cursor : Z) : VoteHistoryOptions :=
  mkHistoryOptions (ho_from options) (ho_to options) (ho_limit options) (Some cursor).

(** What remains to be listed at [options]. *)
Definition remaining (accountId : string) (options : VoteHistoryOptions) (found : list VoteRow)
    : list VoteRow :=
  merge_sort latest_first (filter (λ v, history_where accountId options v = true) found).

Section pages.
Context (accountId : string) (d : DV) (found : list VoteRow) (total : nat).
Context (Hfound : findAll d = Ok found).
Context (Htotal : count (λ v, bool_decide (vr_accountId v = accountId)) d = Ok total).
Context (Hids : NoDup (vr_id <$> found)) (Hpos : ∀ v, v ∈ found → 0 < vr_id v).

Lemma page_contents options :
  let L := remaining accountId options found in
  let l := ho_limit options in
  getVoteHistory accountId options d
  = Ok (mkHistory total (if bool_decide (l < length L)%nat then vr_id <$> last (take l L) else None)
          (map toVoteRecord (take l L))).
Proof.
  intros L l. unfold getVoteHistory. rewrite Htotal, Hfound. simpl. fold (remaining accountId options found).
  fold L l. rewrite length_take.
  destruct (decide (l < length L)%nat) as [Hlt|Hge].
  - rewrite (Nat.min_l (l + 1)) by lia. rewrite !bool_decide_true by lia.
    rewrite take_take. by replace ((l + 1 - 1) `min` (l + 1))%nat with l by lia.
  - rewrite (Nat.min_r (l + 1)) by lia. rewrite !bool_decide_false by lia.
    by rewrite !take_ge by lia.
Qed.

Lemma remaining_elem options v :
  v ∈ remaining accountId options found ↔ history_where accountId options v = true ∧ v ∈ found.
Proof. unfold remaining. by rewrite merge_sort_Permutation, list_elem_of_filter. Qed.

Lemma remaining_ids options : NoDup (vr_id <$> remaining accountId options found).
Proof.
  unfold remaining. rewrite merge_sort_Permutation.
  eapply sublist_NoDup; [exact Hids|]. apply fmap_sublist, sublist_filter.
Qed.

(** The condition of the next page. *)
Lemma next_where options z v :
  vr_id z ≠ 0 → history_where accountId options z = true →
  history_where accountId (with_cursor options (vr_id z)) v = true ∧ v ∈ found ↔
  (history_where accountId options v = true ∧ v ∈ found) ∧ vr_id v < vr_id z.
Proof.
  intros Hz Hw. unfold history_where, after_cursor, in_range, with_cursor in *. simpl.
  rewrite !andb_true_iff, !orb_true_iff in *. destruct Hw as [_ Hw].
  assert (vr_id z =? 0 = false) as -> by lia. destruct (ho_cursor options) as [c|]; [|naive_solver lia].
  rewrite orb_true_iff in *. rewrite !Z.ltb_lt in *. split.
  - intros [[Ha [|Hlt]] Hf]; [done|]. assert (c =? 0 = true ∨ vr_id v < c) by (destruct Hw; [by left|right; lia]).
    tauto.
  - intros [[[Ha _] Hf] Hlt]. tauto.
Qed.

(** The cursor of a page continues where the page ends. *)
Lemma remaining_next options A z B :
  remaining accountId options found = A ++ z :: B →
  remaining accountId (with_cursor options (vr_id z)) found = B.
Proof.
  intros E. pose proof (remaining_ids options) as Hn. rewrite E in Hn.
  assert (StronglySorted latest_first (A ++ z :: B)) as Hs.
  { rewrite <-E. apply StronglySorted_merge_sort; apply _. }
  apply StronglySorted_app in Hs as (HAB & _ & HzB). apply StronglySorted_cons in HzB as [HzB HB].
  rewrite Forall_forall in HzB. rewrite fmap_app, fmap_cons in Hn.
  apply NoDup_app in Hn as (_ & HAz & [Hz Hn]%NoDup_cons).
  assert (vr_id z ≠ 0) as Hz0.
  { assert (z ∈ found) as Hzf by (apply (remaining_elem options); rewrite E; set_solver).
    specialize (Hpos z Hzf). lia. }
  apply (StronglySorted_unique_strong latest_first).
  - intros a b Ha Hb H1 H2. unfold latest_first in *. apply remaining_elem in Ha as [_ Ha].
    assert (b ∈ found) as Hbf by (apply (remaining_elem options); rewrite E; set_solver).
    apply (NoDup_key vr_id found); [done|done|done|lia].
  - apply StronglySorted_merge_sort; apply _.
  - done.
  - apply NoDup_Permutation; [eapply NoDup_fmap_1, remaining_ids|by eapply NoDup_fmap_1|].
    intros v. rewrite remaining_elem.
    assert (history_where accountId (with_cursor options (vr_id z)) v = true ∧ v ∈ found ↔
            v ∈ A ++ z :: B ∧ vr_id v < vr_id z) as ->.
    { rewrite <-E, remaining_elem. apply next_where; [done|].
      assert (z ∈ remaining accountId options found) as Hz1 by (rewrite E; set_solver).
      by apply remaining_elem in Hz1 as [? _]. }
    split.
    + intros [[HvA|[->|Hv]%elem_of_cons]%elem_of_app Hlt]; [|lia|done].
      specialize (HAB v z HvA ltac:(by left)). unfold latest_first in HAB. lia.
    + intros Hv. split; [set_solver|]. pose proof (HzB v Hv) as Hle. unfold latest_first in Hle.
      assert (vr_id v ≠ vr_id z) as Hne; [|lia]. intros Ev. apply Hz. rewrite <-Ev.
      apply list_elem_of_fmap. by exists v.
Qed.

Lemma follow_all fuel options :
  (1 ≤ ho_limit options)%nat → (length (remaining accountId options found) < fuel)%nat →
  follow fuel accountId options d
  = Ok (Some (map toVoteRecord (remaining accountId options found))).
Proof.
  revert options; induction fuel as [|fuel IH]; intros options Hl Hf; [lia|].
  cbn [follow]. rewrite page_contents. set (L := remaining accountId options found) in *.
  set (l := ho_limit options) in *. simpl.
  destruct (decide (l < length L)%nat) as [Hlt|Hge].
  - rewrite bool_decide_true by done.
    destruct (exists_last (l := take l L)) as (A & z & Ez).
    { intros E. apply (f_equal length) in E. rewrite length_take in E. simpl in E. lia. }
    assert (L = A ++ z :: drop l L) as E.
    { rewrite <-(take_drop l L) at 1. rewrite Ez, <-app_assoc. done. }
    rewrite Ez, last_snoc. cbn [fmap option_fmap option_map].
    change (mkHistoryOptions _ _ _ _) with (with_cursor options (vr_id z)).
    pose proof (remaining_next options A z (drop l L) E) as En.
    rewrite (IH (with_cursor options (vr_id z))); [|done|].
    + rewrite En. simpl. rewrite <-Ez, <-map_app. by rewrite take_drop.
    + rewrite En, length_drop. lia.
  - rewrite bool_decide_false by done. simpl. by rewrite take_ge by lia.
Qed.
End pages.

(** Following [nextCursor] from the first page until it is null lists every vote of the
    account in the period, once, latest row first, in at most as many requests as there
    are votes plus one, as long as the table does not change; [total] counts all votes of
    the account on every page. *)
Theorem history_lists_all accountId options d found total :
  findAll d = Ok found →
  count (λ v, bool_decide (vr_accountId v = accountId)) d = Ok total →
  NoDup (vr_id <$> found) → (∀ v, v ∈ found → 0 < vr_id v) →
  (1 ≤ ho_limit options)%nat → ho_cursor options = None →
  ∃ votes, follow (S (length found)) accountId options d = Ok (Some (map toVoteRecord votes)) ∧
    StronglySorted latest_first votes ∧
    votes ≡ₚ filter (λ v, vr_accountId v = accountId ∧ in_range options v = true) found.
Proof.
  intros Hf Ht Hn Hp Hl Hc. exists (remaining accountId options found).
  split; [|split].
  - eapply follow_all; [done..|]. unfold remaining. rewrite merge_sort_Permutation.
    pose proof (length_filter (λ v, history_where accountId options v = true) found). lia.
  - apply StronglySorted_merge_sort; apply _.
  - unfold remaining. rewrite merge_sort_Permutation.
    assert (filter (λ v, history_where accountId options v = true) found
      = filter (λ v, vr_accountId v = accountId ∧ in_range options v = true) found) as ->; [|done].
    apply list_filter_iff. intros v. unfold history_where, after_cursor. rewrite Hc, andb_true_r.
    rewrite andb_true_iff, bool_decide_eq_true. done.
Qed.
End history.

(** ** The delegation tree *)

(** The rows of the recursive query. *)
Record RawRow := mkRaw {
  raw_outbound : bool;
  raw_delegator : string;
  raw_delegate : string;
  raw_weight : string;
  raw_depth : Z;
  raw_expires_at : option Z;
}.

Record DelegationNode := mkNode {
  dn_delegator : string;
  dn_delegate : string;
  dn_weight : string;
  dn_depth : Z;
  dn_expiresAt : option string;
}.

Record DelegationTreeResult := mkTree {
  dt_outbound : list DelegationNode;
  dt_inbound : list DelegationNode;
  dt_totalDelegatedInboundWeight : string;
}.

Definition toNode (row : RawRow) : DelegationNode :=
  mkNode (raw_delegator row) (raw_delegate row) (raw_weight row) (raw_depth row)
    (toISOString <$> raw_expires_at row).

(** The body of the loop over the rows. *)
Definition add_row (acc : list DelegationNode * list DelegationNode * number) (row : RawRow) :=
  let '(outbound, inbound, total) := acc in
  if raw_outbound row then (outbound ++ [toNode row], inbound, total)
  else (outbound, inbound ++ [toNode row],
        if raw_depth row =? 1 then num_add total (parseFloat (raw_weight row)) else total).

(** [getDelegationTree] on the answer of its query. *)
Definition getDelegationTree (answer : exc (list RawRow)) : exc DelegationTreeResult :=
  rows ← answer;
  let '(outbound, inbound, total) := fold_left add_row rows ([], [], num_zero) in
  Ok (mkTree outbound inbound (toFixed total 7)).

(** ** Witnesses *)

Definition demo_payload (account proposal choice : string) (t : Z) : GovernanceVoteEventPayload :=
  mkVotePayload account proposal choice "5" None t.
Notation vote_tables := (gmap string GovernanceProposal * gmap (string * string) GovernanceVote)%type.
Definition no_votes : vote_tables := (∅, ∅).
Definition demo_votes_in : list (Z * GovernanceVoteEventPayload) :=
  [(10, demo_payload "G1" "p1" "For" 1); (20, demo_payload "G1" "p1" "Against" 2)].

Lemma ingest_last_event_witness :
  (rows (ingest_all "C" demo_votes_in no_votes).2 !! ("G1", "p1")
   = Some (mkGovVote "Against" "5" None 2)) ∧
  votes_have_proposals (ingest_all "C" demo_votes_in no_votes).
Proof.
  assert (votes_have_proposals no_votes) as V
    by (intros k v Hk; change ((∅ : gmap (string * string) GovernanceVote) !! k = Some v) in Hk;
        by rewrite lookup_empty in Hk).
  assert (all_ingested "C" demo_votes_in no_votes) as A.
  { intros pre e post E. unfold demo_votes_in in E. destruct pre as [|x [|y pre]].
    - injection E as <- _. by vm_compute.
    - injection E as <- <- _. by vm_compute.
    - injection E as _ _ E. by destruct pre. }
  destruct (ingest_last_event "C" demo_votes_in no_votes V A) as (H1 & H2 & _).
  split; [|exact H2]. rewrite (H1 ("G1", "p1")). by vm_compute.
Defined.

Notation governance_world := (table_world * gmap (string * string) GovernanceVote)%type.
Definition demo_governance : governance_world := (mkSvc (∅, ∅, 3) 600000, ∅).
Notation demo_governance_run := (governance_run no_xdr no_string no_string no_entries no_string no_prop
  no_number no_date no_text 1000000 "C1").
Notation demo_governance_step := (governance_step no_xdr no_string no_string no_entries no_string no_prop
  no_number no_date no_text 1000000 "C1").

(** The vote on [p1], then two ticks that index its [ProposalQueued] event. *)
Definition first_vote : GovernanceVoteEventPayload := demo_payload "G1" "p1" "For" 1.
Definition later_ops : list governance_op := [OpTimelock (Tick (Some "C1")); OpTimelock (Tick (Some "C1"))].

Lemma vote_first_strands_proposal_witness :
  gp_status <$> proposal_rows (demo_governance_run demo_governance later_ops).1 !! "p1"
    = Some "Executed" ∧
  gp_status <$> proposal_rows
    (demo_governance_run (demo_governance_step demo_governance (OpVote 0 first_vote)) later_ops).1 !! "p1"
    = Some "Pending" ∧
  stranded "p1" (proposal_rows
    (demo_governance_run (demo_governance_step demo_governance (OpVote 0 first_vote)) later_ops).1).
Proof.
  split; [by vm_compute|]. split; [by vm_compute|].
  assert (proposal_rows demo_governance.1 !! vp_proposalId first_vote = None) as N by (by vm_compute).
  assert (is_Some (proposal_rows (demo_governance_step demo_governance (OpVote 0 first_vote)).1
            !! vp_proposalId first_vote)) as S1 by (by eexists; vm_compute).
  exact (vote_first_strands_proposal no_xdr no_string no_string no_entries no_string no_prop
    no_number no_date no_text 1000000 "C1" 0 first_vote demo_governance later_ops N S1).
Defined.

Definition history_row (id : Z) (account : string) : VoteRow :=
  mkVoteRow id account "p" None "For" "1" id None.
Definition history_table : gmap Z VoteRow :=
  {[1 := history_row 1 "G1"; 2 := history_row 2 "G1"; 3 := history_row 3 "G2"; 4 := history_row 4 "G1"]}.

Lemma history_lists_all_witness :
  ∃ votes, follow 5 "G1" (mkHistoryOptions None None 1 None) history_table
             = Ok (Some (map toVoteRecord votes)) ∧
    StronglySorted latest_first votes ∧
    votes ≡ₚ filter (λ v, vr_accountId v = "G1" ∧ in_range (mkHistoryOptions None None 1 None) v = true)
               (map_to_list history_table).*2.
Proof.
  assert (NoDup (vr_id <$> (map_to_list history_table).*2)) as N
    by (apply (bool_decide_unpack _); by vm_compute).
  assert (∀ v, v ∈ (map_to_list history_table).*2 → 0 < vr_id v) as P.
  { intros v Hv. assert (Forall (λ v, 0 < vr_id v) (map_to_list history_table).*2) as F
      by (apply (bool_decide_unpack _); by vm_compute).
    rewrite Forall_forall in F. by apply F. }
  exact (history_lists_all "G1" (mkHistoryOptions None None 1 None) history_table
    (map_to_list history_table).*2 3 eq_refl eq_refl N P (le_n 1) eq_refl).
Defined.
