(* ===== verification/VotingPower.v ===== *)
(** * Voting power checkpoints ([services/votingPowerCheckpointService.ts])

    Weights of accounts per ledger, stored by upserts and read at, or at or before, a
    ledger. Decimals and the local calendar are parameters. Proved: the reading at or
    before a ledger is the checkpoint of the greatest ledger up to it; a batch is stored
    whole or not at all; and the clean-up by age also removes the checkpoint in force. *)

From S2P Require Import Prelude Prisma Service.

Local Open Scope Z_scope.

Record CheckpointPayload := mkCheckpointPayload {
  cp_accountId : string;
  cp_ledgerSequence : Z;
  cp_votingWeight : string;
}.

Record VotingPowerCheckpoint (Dec : Type) := mkCheckpoint {
  vpc_accountId : string;
  vpc_ledgerSequence : Z;
  vpc_votingWeight : Dec;
  vpc_createdAt : Z;
}.
Arguments mkCheckpoint {Dec} _ _ _ _.
Arguments vpc_accountId {Dec} _.
Arguments vpc_ledgerSequence {Dec} _.
Arguments vpc_votingWeight {Dec} _.
Arguments vpc_createdAt {Dec} _.

Record VotingPowerCheckpointResult := mkCheckpointResult {
  res_accountId : string;
  res_ledgerSequence : Z;
  res_votingWeight : string;
  res_createdAt : Z;
}.

Section service.
Context {Dec D : Type} `{!PrismaTable (string * Z) (VotingPowerCheckpoint Dec) D} `{!Transactional D}.
(** The [Decimal(38, 18)] column: what it stores of a text, and [toString]. *)
Context (decimal : string → exc Dec) (decimal_text : Dec → string).
(** The database's order of account names. *)
Context (account_le : string → string → Prop) `{!RelDecision account_le}.
(** [date.setDate(date.getDate() - days)] in the local time zone. *)
Context (days_before : Z → Z → Z).

Notation checkpoint := (VotingPowerCheckpoint Dec).

(** ** Storing *)

Definition checkpoint_key (payload : CheckpointPayload) : string * Z :=
  (cp_accountId payload, cp_ledgerSequence payload).

Definition set_weight (w : Dec) (c : checkpoint) : checkpoint :=
  mkCheckpoint (vpc_accountId c) (vpc_ledgerSequence c) w (vpc_createdAt c).

(** [t] is the time of the database, the default of [createdAt]. *)
Definition storeVotingPowerCheckpoint (t : Z) (payload : CheckpointPayload) : M D unit :=
  weight <- lift_exc (decimal (cp_votingWeight payload)) ;;
  upsert (checkpoint_key payload)
    (mkCheckpoint (cp_accountId payload) (cp_ledgerSequence payload) weight t)
    (set_weight weight) ;;;
  ret tt.

Definition batchStoreVotingPowerCheckpoints (t : Z) (payloads : list CheckpointPayload) : M D unit :=
  match payloads with
  | [] => ret tt
  | _ => transaction (for_of payloads (storeVotingPowerCheckpoint t))
  end.

(** ** Querying *)

Definition to_result (c : checkpoint) : VotingPowerCheckpointResult :=
  mkCheckpointResult (vpc_accountId c) (vpc_ledgerSequence c) (decimal_text (vpc_votingWeight c))
    (vpc_createdAt c).

Definition getVotingPowerAtLedger (accountId : string) (ledgerSequence : Z) (d : D)
    : exc (option VotingPowerCheckpointResult) :=
  row ← findUnique (accountId, ledgerSequence) d;
  Ok (fmap (M:=option) to_result row).

(** [orderBy: { ledgerSequence: "desc" }] *)
Definition ledger_desc (a b : checkpoint) : Prop := vpc_ledgerSequence b ≤ vpc_ledgerSequence a.
#[local] Instance ledger_desc_dec a b : Decision (ledger_desc a b).
Proof. unfold ledger_desc. apply _. Defined.
#[local] Instance ledger_desc_total : Total ledger_desc.
Proof. intros a b. unfold ledger_desc. lia. Qed.
#[local] Instance ledger_desc_trans : Transitive ledger_desc.
Proof. intros a b c. unfold ledger_desc. lia. Qed.

Definition at_or_before (accountId : string) (ledger : Z) (c : checkpoint) : Prop :=
  vpc_accountId c = accountId ∧ vpc_ledgerSequence c ≤ ledger.
#[local] Instance at_or_before_dec a l c : Decision (at_or_before a l c).
Proof. unfold at_or_before. apply _. Defined.

Definition getVotingPowerAtOrBeforeLedger (accountId : string) (ledgerSequence : Z) (d : D)
    : exc (option VotingPowerCheckpointResult) :=
  found ← findAll d;
  Ok (to_result <$> head (merge_sort ledger_desc (filter (at_or_before accountId ledgerSequence) found))).

Definition account_asc (a b : checkpoint) : Prop := account_le (vpc_accountId a) (vpc_accountId b).
#[local] Instance account_asc_dec a b : Decision (account_asc a b).
Proof. unfold account_asc. apply _. Defined.

Definition getCheckpointsAtLedger (ledgerSequence : Z) (d : D)
    : exc (list VotingPowerCheckpointResult) :=
  found ← findAll d;
  Ok (map to_result (merge_sort account_asc (filter (λ c, vpc_ledgerSequence c = ledgerSequence) found))).

Definition in_ledgers (fromLedger toLedger : option Z) (c : checkpoint) : bool :=
  from_option (λ from, from <=? vpc_ledgerSequence c) true fromLedger &&
  from_option (λ to, vpc_ledgerSequence c <=? to) true toLedger.

Definition getAccountCheckpointHistory (accountId : string) (fromLedger toLedger : option Z)
    (limit : nat) (d : D) : exc (list VotingPowerCheckpointResult) :=
  found ← findAll d;
  Ok (map to_result (take limit (merge_sort ledger_desc
    (filter (λ c, vpc_accountId c = accountId ∧ in_ledgers fromLedger toLedger c = true) found)))).

(** ** Clean-up *)

Definition older_than (cutoffDate : Z) (c : checkpoint) : bool := vpc_createdAt c <? cutoffDate.

Definition deleteOldCheckpoints (t daysToKeep : Z) : M D nat :=
  deleteMany (older_than (days_before t daysToKeep)).

(** ** What the queries answer *)

(** The rows carry their own key. *)
Definition well_keyed (d : D) : Prop :=
  map_Forall (λ k c, k = (vpc_accountId c, vpc_ledgerSequence c)) (rows d).

(** [r] is the checkpoint of the greatest ledger up to [ledger] among the rows [m]. *)
Definition in_force (m : gmap (string * Z) checkpoint) (accountId : string) (ledger : Z)
    (r : option checkpoint) : Prop :=
  match r with
  | Some c => ∃ l, l ≤ ledger ∧ m !! (accountId, l) = Some c ∧
      ∀ l', l' ≤ ledger → is_Some (m !! (accountId, l')) → l' ≤ l
  | None => ∀ l, l ≤ ledger → m !! (accountId, l) = None
  end.

Lemma found_iff d found c :
  well_keyed d → findAll d = Ok found →
  c ∈ found ↔ rows d !! (vpc_accountId c, vpc_ledgerSequence c) = Some c.
Proof.
  intros Hk Hf%findAll_ok. rewrite Hf, list_elem_of_fmap. split.
  - intros ([k c'] & -> & Hc%elem_of_map_to_list). simpl. by rewrite <-(Hk _ _ Hc).
  - intros Hc. eexists. split; [|by apply elem_of_map_to_list]. done.
Qed.

Lemma head_in_force d found accountId ledger :
  well_keyed d → findAll d = Ok found →
  in_force (rows d) accountId ledger
    (head (merge_sort ledger_desc (filter (at_or_before accountId ledger) found))).
Proof.
  intros Hk Hf. set (l := merge_sort _ _).
  assert (∀ c, c ∈ l ↔ at_or_before accountId ledger c ∧
            rows d !! (vpc_accountId c, vpc_ledgerSequence c) = Some c) as Hl.
  { intros c. unfold l. by rewrite merge_sort_Permutation, list_elem_of_filter, (found_iff d found). }
  assert (∀ n c, rows d !! (accountId, n) = Some c → n ≤ ledger → vpc_ledgerSequence c = n ∧ c ∈ l) as Hrow.
  { intros n c Hc Hn. pose proof (Hk _ _ Hc) as E. injection E as E1 E2.
    split; [done|]. apply Hl. unfold at_or_before. rewrite <-E1, <-E2. done. }
  assert (StronglySorted ledger_desc l) as Hs by (apply StronglySorted_merge_sort; apply _).
  clearbody l. destruct l as [|c l]; simpl.
  - intros n Hn. destruct (rows d !! (accountId, n)) as [c|] eqn:E; [|done].
    destruct (Hrow n c E Hn) as [_ []%elem_of_nil].
  - destruct (proj1 (Hl c)) as [[Ha Hle] Hc]; [by left|]. rewrite Ha in Hc.
    exists (vpc_ledgerSequence c). split_and!; [done|done|]. intros n Hn [c' Hc'].
    destruct (Hrow n c' Hc' Hn) as [<- [->|Hin]%elem_of_cons]; [done|].
    apply StronglySorted_cons in Hs as [Hs _]. rewrite Forall_forall in Hs. by apply Hs.
Qed.

(** [getVotingPowerAtOrBeforeLedger] answers with the checkpoint in force: the one of
    the greatest ledger not after the ledger asked for, and null exactly when the account
    has none up to it. *)
Theorem at_or_before_is_in_force accountId ledger d r :
  well_keyed d → getVotingPowerAtOrBeforeLedger accountId ledger d = Ok r →
  ∃ c, in_force (rows d) accountId ledger c ∧ r = to_result <$> c.
Proof.
  intros Hk (found & Hf & [= <-])%bind_Ok. eexists. split; [by apply head_in_force|done].
Qed.

(** ** Batches *)

(** What storing one payload does to the rows. *)
Definition stored (t : Z) (m : gmap (string * Z) checkpoint) (payload : CheckpointPayload)
    (weight : Dec) : gmap (string * Z) checkpoint :=
  <[checkpoint_key payload :=
      match m !! checkpoint_key payload with
      | Some c => set_weight weight c
      | None => mkCheckpoint (cp_accountId payload) (cp_ledgerSequence payload) weight t
      end]> m.

Lemma store_inv t payload d u d' :
  storeVotingPowerCheckpoint t payload d = (Ok u, d') →
  ∃ weight, decimal (cp_votingWeight payload) = Ok weight ∧ rows d' = stored t (rows d) payload weight.
Proof.
  unfold storeVotingPowerCheckpoint, bind, lift_exc, ret.
  destruct (decimal _) as [weight|] eqn:Ew; [|done].
  destruct (upsert _ _ _ d) as [[r|e] d1] eqn:E; [|done]. intros [= _ <-].
  apply upsert_ok in E as [-> ->]. by exists weight.
Qed.

Lemma store_all_inv t payloads d u d' :
  for_of payloads (storeVotingPowerCheckpoint t) d = (Ok u, d') →
  ∃ weights, Forall2 (λ p w, decimal (cp_votingWeight p) = Ok w) payloads weights ∧
    rows d' = foldl (λ m pw, stored t m pw.1 pw.2) (rows d) (zip payloads weights).
Proof.
  revert d; induction payloads as [|p payloads IH]; intros d; simpl.
  - intros [= _ <-]. by exists [].
  - unfold bind. destruct (storeVotingPowerCheckpoint t p d) as [[[]|] d1] eqn:E; [|done].
    intros (ws & Hw & ->)%IH. apply store_inv in E as (w & Hp & ->).
    exists (w :: ws). split; [by constructor|done].
Qed.

Lemma stored_keyed t m p w :
  map_Forall (λ k c, k = (vpc_accountId c, vpc_ledgerSequence c)) m →
  map_Forall (λ k c, k = (vpc_accountId c, vpc_ledgerSequence c)) (stored t m p w).
Proof.
  unfold stored. intros Hm k c [[<- <-]|[_ Hk]]%lookup_insert_Some; [|by apply Hm].
  destruct (m !! _) as [c|] eqn:E; [|done]. by rewrite (Hm _ _ E).
Qed.

(** A batch is stored whole, each payload creating its checkpoint or replacing the
    weight of the existing one and later payloads overriding earlier ones, or it throws
    and leaves the table as it was; in both cases rows keep matching their keys. *)
Theorem batch_all_or_nothing t payloads d :
  let d' := final (batchStoreVotingPowerCheckpoints t payloads) d in
  match outcome (batchStoreVotingPowerCheckpoints t payloads) d with
  | Ok _ => ∃ weights, Forall2 (λ p w, decimal (cp_votingWeight p) = Ok w) payloads weights ∧
      rows d' = foldl (λ m pw, stored t m pw.1 pw.2) (rows d) (zip payloads weights)
  | Throw _ => rows d' = rows d
  end ∧ (well_keyed d → well_keyed d').
Proof.
  assert (∀ l m, map_Forall (λ k c, k = (vpc_accountId c, vpc_ledgerSequence c)) m →
    map_Forall (λ k c, k = (vpc_accountId c, vpc_ledgerSequence c))
      (foldl (λ m pw, stored t m pw.1 pw.2) m l)) as Hfold.
  { induction l as [|x l IH]; intros m Hm; [done|]. simpl. by apply IH, stored_keyed. }
  unfold outcome, final. destruct payloads as [|p payloads]; simpl; [split; [by exists []|done]|].
  destruct (transaction _ d) as [r d'] eqn:E. simpl.
  apply transaction_inv in E as [([] & -> & E)|[[e ->] ->]]; [|done].
  apply (store_all_inv t (p :: payloads)) in E as (ws & Hw & Hr).
  split; [by exists ws|]. unfold well_keyed. rewrite Hr. apply Hfold.
Qed.

(** ** What the clean-up forgets *)

(** The clean-up goes by the age of the row, not by what is still in force. After it, a
    query answers with the greatest checkpoint among the younger rows: an account whose
    checkpoints up to a ledger are all older than the cutoff has no voting power there any
    more, although its last weight was never replaced. *)
Theorem cleanup_forgets_power t days accountId ledger d n d' r :
  well_keyed d → deleteOldCheckpoints t days d = (Ok n, d') →
  getVotingPowerAtOrBeforeLedger accountId ledger d' = Ok r →
  (∃ c, in_force (filter (λ kc, days_before t days ≤ vpc_createdAt kc.2) (rows d)) accountId ledger c ∧
        r = to_result <$> c) ∧
  ((∀ l c, l ≤ ledger → rows d !! (accountId, l) = Some c → vpc_createdAt c < days_before t days) →
   r = None).
Proof.
  intros Hk Hd (found & Hf & [= <-])%bind_Ok. apply deleteMany_ok in Hd as [Hr _].
  assert (rows d' = filter (λ kc, days_before t days ≤ vpc_createdAt kc.2) (rows d)) as Hr'.
  { rewrite Hr. apply map_filter_ext. intros k c _. simpl. unfold older_than.
    rewrite Z.ltb_ge. done. }
  assert (well_keyed d') as Hk'.
  { intros k c Hc. rewrite Hr' in Hc. apply map_lookup_filter_Some in Hc as [Hc _]. by apply Hk. }
  pose proof (head_in_force d' found accountId ledger Hk' Hf) as Hi. rewrite Hr' in Hi.
  split; [by eexists|]. intros Hold. destruct (head _) as [c|]; [|done]. exfalso.
  destruct Hi as (l & Hl & Hc & _). apply map_lookup_filter_Some in Hc as [Hc Hy].
  specialize (Hold l c Hl Hc). simpl in Hy. lia.
Qed.
End service.

(** ** Witnesses: integer weights, days of 86400000 ms, one account *)

Definition z_decimal (s : string) : exc Z := if decide (s = "bad") then Throw (Error "Decimal") else Ok 7.
Definition z_text (z : Z) : string := "7".
Definition utc_days_before (t days : Z) : Z := t - days * 86400000.
#[export] Instance commits_checkpoints : Transactional (gmap (string * Z) (VotingPowerCheckpoint Z)) :=
  {| commit _ := Ok tt |}.
Definition one_checkpoint : gmap (string * Z) (VotingPowerCheckpoint Z) :=
  {[("G1", 50) := mkCheckpoint "G1" 50 7 1000]}.
Lemma one_checkpoint_keyed : well_keyed one_checkpoint.
Proof. apply (map_Forall_singleton (M:=gmap (string * Z))). done. Qed.

Lemma at_or_before_is_in_force_witness :
  ∃ c, in_force (rows one_checkpoint) "G1" 60 c ∧
    Some (mkCheckpointResult "G1" 50 "7" 1000) = to_result z_text <$> c.
Proof.
  exact (at_or_before_is_in_force z_text "G1" 60 one_checkpoint
    (Some (mkCheckpointResult "G1" 50 "7" 1000)) one_checkpoint_keyed eq_refl).
Defined.

(** A year and a day later. *)
Lemma cleanup_forgets_power_witness :
  getVotingPowerAtOrBeforeLedger z_text "G1" 60 one_checkpoint
    = Ok (Some (mkCheckpointResult "G1" 50 "7" 1000)) ∧
  getVotingPowerAtOrBeforeLedger z_text "G1" 60
    (deleteOldCheckpoints utc_days_before (366 * 86400000) 365 one_checkpoint).2 = Ok None.
Proof.
  split; [by vm_compute|].
  destruct (getVotingPowerAtOrBeforeLedger z_text "G1" 60
    (deleteOldCheckpoints utc_days_before (366 * 86400000) 365 one_checkpoint).2) as [r|] eqn:E.
  - destruct (cleanup_forgets_power z_text utc_days_before (366 * 86400000) 365 "G1" 60 one_checkpoint
      1%nat _ r one_checkpoint_keyed eq_refl E) as [_ H].
    f_equal. apply H. intros l c _ Hc.
    change (one_checkpoint !! ("G1", l) = Some c) in Hc. unfold one_checkpoint in Hc.
    apply lookup_singleton_Some in Hc as [_ <-]. reflexivity.
  - exfalso. revert E. by vm_compute.
Defined.
