(* ===== verification/EventListener.v ===== *)
(** * The Soroban event listener ([services/sorobanEventListener.ts])

    The poll of the listener: order fills ([OrderFill]), governance votes
    ([VoterHistory]), circuit-breaker and checkpoint events, then the price transactions
    of the oracle account, all moving one ledger cursor; and the worker that stores a
    queued price. The RPC and Horizon servers, the packet queue and the consumers of a
    price are the class [StellarEvents]. Proved: the cursor never moves back; a poll
    queues the prices of at most one transaction, and those of the other new ones are never
    queued; checkpoint and circuit-breaker events have no effect; and a rejected first
    query stops every later poll. *)

From Stdlib Require Import SpecFloat.
From S2P Require Import Prelude JsNumber JsString JsDecimal Prisma Service Timelock JsValue OrderFill VoterHistory.

Local Open Scope Z_scope.

(** ** What the servers return *)

(** An event of [getEvents]; absent fields are [None]. *)
Record rpc_event := mkRpcEvent {
  re_topic : list jsval;
  re_value : jsval;
  re_txHash : option string;
  re_id : option string;
  re_ledger : option Z;
  re_index : option Z;
  re_ledgerClosedAt : option string;
}.

Record ConfirmedPrice := mkPrice {
  cfp_currency : string;
  cfp_rate : number;
  cfp_txHash : string;
  cfp_memoId : option string;
  cfp_ledgerSeq : Z;
  cfp_confirmedAt : option Z;
}.

(** A Horizon transaction and its [manage_data] operations. *)
Record TransactionRecord := mkTx {
  tx_hash : string;
  tx_ledger_attr : Z;
  tx_memo_type : string;
  tx_memo : option string;
  tx_created_at : string;
}.
Record OperationRecord := mkOp { op_type : string; op_name : string; op_value : option string }.

(** The topic filters of the four queries. *)
Inductive event_filter := AllEvents | GovernanceVoted | PauseOrBreaker | CheckpointCreated.

Class StellarEvents (X : Type) := {
  rpc_events : Z → string → event_filter → M X (list rpc_event);
  (** [transactions().forAccount(key).order("desc").limit(50).call()] *)
  account_transactions : string → M X (list TransactionRecord);
  tx_operations : TransactionRecord → M X (list OperationRecord);
  reportFailure : js_error → X → X;
  el_now : X → Z;
  packet_enqueue : ConfirmedPrice → M X bool;
  (** the prices accepted by the queue, in order *)
  queued : X → list ConfirmedPrice;
  (** [broadcastToSessions], [getCacheInvalidationManager().onLedgerEvent], and the
      warming, snapshot and reserve checks started for the ledger of a price *)
  broadcast_price : ConfirmedPrice → M X unit;
  invalidate_caches : ConfirmedPrice → M X unit;
  start_ledger_work : Z → M X unit;

  rpc_events_queue n c f x : queued (rpc_events n c f x).2 = queued x;
  transactions_queue k x : queued (account_transactions k x).2 = queued x;
  operations_queue t x : queued (tx_operations t x).2 = queued x;
  report_queue e x : queued (reportFailure e x) = queued x;
  enqueue_queue p x :
    queued (packet_enqueue p x).2 =
      match (packet_enqueue p x).1 with Ok true => queued x ++ [p] | _ => queued x end;
}.

(** ** Strings *)

Definition ends_with (s suffix : string) : bool :=
  (String.length suffix <=? String.length s)%nat &&
  bool_decide (String.substring (String.length s - String.length suffix) (String.length suffix) s = suffix).

(** [s.replace(pat, "")], the first occurrence. *)
Definition remove_first (pat s : string) : string :=
  match String.index 0 pat s with
  | Some i => String.substring 0 i s +:+
              String.substring (i + String.length pat) (String.length s - (i + String.length pat)) s
  | None => s
  end.

(** ** The listener *)

(** The tables, and the cursor [lastProcessedLedger]. *)
Record el_db (TF TR DP DV DC : Type) := mkElDb {
  el_fills : TF * TR;
  el_votes : DP * DV;
  el_prices : DC;
  el_cursor : Z;
}.
Arguments mkElDb {TF TR DP DV DC} _ _ _ _.
Arguments el_fills {TF TR DP DV DC} _.
Arguments el_votes {TF TR DP DV DC} _.
Arguments el_prices {TF TR DP DV DC} _.
Arguments el_cursor {TF TR DP DV DC} _.

(** [OnChainPrice], by the columns written. *)
Record OnChainPrice := mkOnChain {
  ocp_currency : string;
  ocp_rate : number;
  ocp_txHash : string;
  ocp_memoId : option string;
  ocp_ledgerSeq : Z;
  ocp_confirmedAt : Z;
}.

Section listener.
Context `{!XdrCodec} {Dec : Type} `{!DecimalOps Dec}.
Context {TF TR DP DV DC X : Type}.
Context `{!PrismaTable (string * Z) (OrderFilledEvent Dec) TF}.
Context `{!PrismaTable string (OpenOrder Dec) TR} `{!Transactional (TF * TR)}.
Context `{!PrismaTable string GovernanceProposal DP}.
Context `{!PrismaTable (string * string) GovernanceVote DV}.
Context `{!PrismaTable (string * string) OnChainPrice DC} `{!StellarEvents X}.
(** [process.env.CONTRACT_ID], [process.env.GOVERNANCE_CONTRACT_ID], the oracle's key; date
    parsing and base64 decoding. *)
Context (CONTRACT_ID GOVERNANCE_CONTRACT_ID : option string) (oraclePublicKey : string).
Context (Date_of : string → option Z) (atob : string → exc string).

Notation db := (el_db TF TR DP DV DC).
Notation run := (M (svc db X)).

Definition cursor (w : svc db X) : Z := el_cursor (svc_db w).

Definition on_fills {A} (c : M (TF * TR) A) : run A := on_db (λ d,
  let '(r, f) := c (el_fills d) in (r, mkElDb f (el_votes d) (el_prices d) (el_cursor d))).
Definition on_votes {A} (c : M (DP * DV) A) : run A := on_db (λ d,
  let '(r, v) := c (el_votes d) in (r, mkElDb (el_fills d) v (el_prices d) (el_cursor d))).
Definition on_prices {A} (c : M DC A) : run A := on_db (λ d,
  let '(r, p) := c (el_prices d) in (r, mkElDb (el_fills d) (el_votes d) p (el_cursor d))).

(** [if (ledger > this.lastProcessedLedger) this.lastProcessedLedger = ledger] *)
Definition raise_cursor (ledger : Z) : run unit := λ w,
  let d := svc_db w in
  (Ok tt, if el_cursor d <? ledger
          then mkSvc (mkElDb (el_fills d) (el_votes d) (el_prices d) ledger) (svc_env w)
          else w).

(** [startLedger: Math.max(1, this.lastProcessedLedger)] *)
Definition get_events (contractId : string) (filter : event_filter) : run (list rpc_event) := λ w,
  on_env (rpc_events (Z.max 1 (cursor w)) contractId filter) w.

Definition validation_error : js_error := Error "Invalid prisma invocation: argument is missing".

(** [value?.trim()], and [if (!contractId) return] *)
Definition contract_id (value : option string) : option string :=
  match value with
  | Some s => if truthy_str (trim s) then Some (trim s) else None
  | None => None
  end.

(** ** Order fills *)

(** A fill without its transaction hash or index is rejected by the client. *)
Definition verify_event (event : rpc_event) : run bool :=
  let fill h i := mkFillEvent h (default 0 (re_ledger event)) i (JArr (re_topic event)) (re_value event) in
  match re_txHash event, re_index event with
  | Some h, Some i => on_fills (verifyOrderFilledEvent (fill h i))
  | _, _ => match parseOrderFilledEvent (fill "" 0) with
            | None => ret false
            | Some _ => throw validation_error
            end
  end.

Definition pollOrderFilledEvents : run unit :=
  match contract_id CONTRACT_ID with
  | None => ret tt
  | Some contractId =>
      events <- get_events contractId AllEvents ;;
      for_of events (λ event,
        verify_event event ;;; raise_cursor (default 0 (re_ledger event)))
  end.

(** ** Governance votes *)

(** [process.env.GOVERNANCE_CONTRACT_ID ?? process.env.CONTRACT_ID] *)
Definition governance_env : option string :=
  match GOVERNANCE_CONTRACT_ID with Some c => Some c | None => CONTRACT_ID end.
Definition governance_contract : option string := contract_id governance_env.

(** [event.value?.value ?? event.value ?? {}] *)
Definition data_of (event : rpc_event) : jsval :=
  nullish_or (prop (re_value event) "value") (nullish_or (re_value event) (JObj [])).

(** A value written to a text column. *)
Definition text_column (v : jsval) : exc string :=
  match v with JStr s => Ok s | _ => Throw validation_error end.

(** [event.ledgerClosedAt ? new Date(event.ledgerClosedAt) : new Date()]; writing an invalid
    date is rejected. *)
Definition closed_at (event : rpc_event) (t : Z) : exc Z :=
  if truthy_opt (re_ledgerClosedAt event) then
    match Date_of (default "" (re_ledgerClosedAt event)) with
    | Some d => Ok d
    | None => Throw validation_error
    end
  else Ok t.

Definition vote_payload (event : rpc_event) (t : Z) : exc GovernanceVoteEventPayload :=
  let dataVal := data_of event in
  accountId ← text_column (at_index (re_topic event) 1);
  proposalId ← text_column (at_index (re_topic event) 2);
  choice ← text_column (nullish_or (prop dataVal "choice") (JStr "Abstain"));
  weight ← text_column (nullish_or (prop dataVal "weight") (JStr "0"));
  votedAt ← closed_at event t;
  Ok (mkVotePayload accountId proposalId choice weight
        (match re_txHash event with Some h => Some h | None => re_id event end) votedAt).

Definition index_vote (event : rpc_event) : run unit :=
  try_catch
    (if negb (truthy (at_index (re_topic event) 1) && truthy (at_index (re_topic event) 2)) then ret tt
     else
       t <- (λ w, (Ok (el_now (svc_env w)), w)) ;;
       payload <- lift_exc (vote_payload event t) ;;
       on_votes (ingestGovernanceVoteEvent (default "" governance_env) t payload) ;;;
       raise_cursor (default 0 (re_ledger event)))
    (λ _, ret tt).

Definition poll_filtered (contractId : option string) (filter : event_filter)
    (body : rpc_event → run unit) : run unit :=
  match contractId with
  | None => ret tt
  | Some c =>
      events <- try_catch (l <- get_events c filter ;; ret (Some l)) (λ _, ret None) ;;
      match events with
      | None => ret tt
      | Some events => for_of events body
      end
  end.

Definition pollGovernanceVoteEvents : run unit :=
  poll_filtered governance_contract GovernanceVoted index_vote.

(** ** Circuit breaker and checkpoints

    [circuitBreakerWebhookService] and [storeVotingPowerCheckpoint] are neither declared
    nor imported in the file: evaluating the names throws. *)

Definition undeclared (name : string) : run unit := throw (Error (name +:+ " is not defined")).

Definition index_breaker (event : rpc_event) : run unit :=
  try_catch
    (match at_index (re_topic event) 0 with
     | JStr eventName =>
         if bool_decide (eventName ∈ ["Pause"; "CircuitBreakerTriggered"])
         then undeclared "circuitBreakerWebhookService" ;;;
              raise_cursor (default 0 (re_ledger event))
         else ret tt
     | _ => ret tt
     end)
    (λ _, ret tt).

Definition pollCircuitBreakerEvents : run unit :=
  poll_filtered (contract_id CONTRACT_ID) PauseOrBreaker index_breaker.

Definition index_checkpoint (event : rpc_event) : run unit :=
  try_catch
    (if negb (truthy (at_index (re_topic event) 1)) then ret tt
     else undeclared "storeVotingPowerCheckpoint" ;;;
          raise_cursor (default 0 (re_ledger event)))
    (λ _, ret tt).

Definition pollVotingPowerCheckpointEvents : run unit :=
  poll_filtered governance_contract CheckpointCreated index_checkpoint.

(** ** Prices *)

Definition extractMemoId (tx : TransactionRecord) : option string :=
  if decide (tx_memo_type tx = "text")
  then match tx_memo tx with Some m => if truthy_str m then Some m else None | None => None end
  else None.

(** One operation: a price, nothing, or a throw that ends the loop. *)
Definition parse_operation (tx : TransactionRecord) (memoId : string) (op : OperationRecord)
    : exc (option ConfirmedPrice) :=
  if decide (op_type op = "manage_data") then
    if ends_with (op_name op) "_PRICE" then
      match op_value op with
      | Some valueBase64 =>
          if truthy_str valueBase64 then
            text ← atob valueBase64;
            let rate := parseFloat text in
            if isNaN rate then Ok None
            else Ok (Some (mkPrice (remove_first "_PRICE" (op_name op)) rate (tx_hash tx) (Some memoId)
                             (tx_ledger_attr tx) (Date_of (tx_created_at tx))))
          else Ok None
      | None => Ok None
      end
    else Ok None
  else Ok None.

(** The prices found before the first throw. *)
Fixpoint parse_operations (tx : TransactionRecord) (memoId : string) (ops : list OperationRecord)
    : list ConfirmedPrice :=
  match ops with
  | [] => []
  | op :: ops' =>
      match parse_operation tx memoId op with
      | Throw _ => []
      | Ok None => parse_operations tx memoId ops'
      | Ok (Some p) => p :: parse_operations tx memoId ops'
      end
  end.

Definition parseOperations (tx : TransactionRecord) (memoId : string) : run (list ConfirmedPrice) :=
  try_catch (ops <- on_env (tx_operations tx) ;; ret (parse_operations tx memoId ops))
            (λ _, ret []).

Definition enqueue_price (price : ConfirmedPrice) : run unit :=
  accepted <- on_env (packet_enqueue price) ;;
  if accepted : bool then raise_cursor (cfp_ledgerSeq price) else ret tt.

Definition poll_transaction (tx : TransactionRecord) : run unit :=
  w <- get ;;
  if tx_ledger_attr tx <=? cursor w then ret tt
  else
    match extractMemoId tx with
    | Some memoId =>
        if String.prefix "SF-" memoId then
          prices <- parseOperations tx memoId ;;
          for_of prices enqueue_price
        else ret tt
    | None => ret tt
    end.

Definition poll_transactions : run unit :=
  transactions <- on_env (account_transactions oraclePublicKey) ;;
  for_of transactions poll_transaction.

Definition pollTransactions : run unit :=
  try_catch
    (pollOrderFilledEvents ;;;
     pollGovernanceVoteEvents ;;;
     pollCircuitBreakerEvents ;;;
     pollVotingPowerCheckpointEvents ;;;
     poll_transactions)
    (λ error,
       on_env (modify (reportFailure error)) ;;;
       if str_includes (err_message error) "status code 404" then ret tt else throw error).

(** ** The worker and the start *)

Definition process_price (price : ConfirmedPrice) : run unit :=
  try_catch
    (match cfp_confirmedAt price with
     | None => throw validation_error
     | Some confirmedAt =>
         on_prices (createUnique (cfp_txHash price, cfp_currency price)
           (mkOnChain (cfp_currency price) (cfp_rate price) (cfp_txHash price) (cfp_memoId price)
              (cfp_ledgerSeq price) confirmedAt)) ;;;
         on_env (broadcast_price price) ;;;
         try_catch (on_env (invalidate_caches price)) (λ _, ret tt) ;;;
         on_env (start_ledger_work (cfp_ledgerSeq price))
     end)
    (λ _, ret tt).

(** [start]: resume from the last stored price. *)
Definition start_cursor : run unit :=
  l <- query (λ d, findAll (el_prices d)) ;;
  match ocp_ledgerSeq <$> l with
  | [] => ret tt
  | n :: l' => λ w, let d := svc_db w in
      (Ok tt, mkSvc (mkElDb (el_fills d) (el_votes d) (el_prices d) (foldr Z.max n l')) (svc_env w))
  end.

Definition polls (n : nat) (w : svc db X) : svc db X := Nat.iter n (final pollTransactions) w.

(** ** The cursor only moves up *)

Notation above n := (preserves (λ w : svc db X, n ≤ cursor w)).

Lemma above_on_env {A} n (c : M X A) : above n (on_env c).
Proof. apply (preserves_on_env (λ d, n ≤ el_cursor d)). Qed.
Lemma above_raise n ledger : above n (raise_cursor ledger).
Proof.
  intros w Hw. unfold wp, raise_cursor, cursor in *.
  destruct (Z.ltb_spec (el_cursor (svc_db w)) ledger); simpl; lia.
Qed.
Lemma above_fills {A} n (c : M (TF * TR) A) : above n (on_fills c).
Proof.
  apply (preserves_on_db (λ d : db, n ≤ el_cursor d)). intros d r d' Hd.
  destruct (c (el_fills d)). by intros [= <- <-].
Qed.
Lemma above_votes {A} n (c : M (DP * DV) A) : above n (on_votes c).
Proof.
  apply (preserves_on_db (λ d : db, n ≤ el_cursor d)). intros d r d' Hd.
  destruct (c (el_votes d)). by intros [= <- <-].
Qed.
Lemma above_get_events n c f : above n (get_events c f).
Proof. intros w. apply (above_on_env n). Qed.
Lemma above_lift {A} n (r : exc A) : above n (lift_exc r).
Proof. intros w Hw. by destruct r. Qed.
Lemma above_now n : above n (λ w : svc db X, (Ok (el_now (svc_env w)), w)).
Proof. by intros w. Qed.
#[local] Hint Resolve above_on_env above_raise above_fills above_votes above_get_events above_lift
  above_now : sf.

Lemma above_orders n : above n pollOrderFilledEvents.
Proof. unfold pollOrderFilledEvents, verify_event. preserve. Qed.
Lemma above_index_vote n event : above n (index_vote event).
Proof. unfold index_vote. preserve. Qed.
Lemma above_filtered n c f body :
  (∀ event, above n (body event)) → above n (poll_filtered c f body).
Proof. intros Hb. unfold poll_filtered. preserve; apply Hb. Qed.
Lemma above_poll_transactions n : above n poll_transactions.
Proof. unfold poll_transactions, poll_transaction, parseOperations, enqueue_price. preserve. Qed.
#[local] Hint Resolve above_orders above_poll_transactions : sf.

Lemma above_poll n : above n pollTransactions.
Proof.
  unfold pollTransactions, pollGovernanceVoteEvents, pollCircuitBreakerEvents, pollVotingPowerCheckpointEvents.
  preserve; apply above_filtered; intros event;
    [apply above_index_vote|unfold index_breaker, undeclared; preserve|unfold index_checkpoint, undeclared; preserve].
Qed.

Lemma polls_above n w : cursor w ≤ cursor (polls n w).
Proof.
  induction n as [|n IH]; simpl; [lia|].
  apply (preserves_final (λ w', cursor w ≤ cursor w') pollTransactions); [apply above_poll|done].
Qed.

(** ** The queue of prices *)

Notation q w := (queued (svc_env w)).
Notation quiet l := (preserves (λ w : svc db X, q w = l)).

Lemma quiet_on_db {A} l (c : M db A) : quiet l (on_db c).
Proof. intros w Hw. by apply wp_on_db. Qed.
Lemma quiet_on_env {A} l (c : M X A) : (∀ x, queued (c x).2 = queued x) → quiet l (on_env c).
Proof.
  intros Hc w Hw. unfold wp, on_env. specialize (Hc (svc_env w)).
  destruct (c (svc_env w)) as [[a|e] x]; simpl in *; congruence.
Qed.
Lemma quiet_raise l ledger : quiet l (raise_cursor ledger).
Proof. intros w Hw. unfold wp, raise_cursor. by destruct (_ <? _). Qed.
Lemma quiet_get_events l c f : quiet l (get_events c f).
Proof. intros w. apply (quiet_on_env l). intros x. apply rpc_events_queue. Qed.
Lemma quiet_lift {A} l (r : exc A) : quiet l (lift_exc r).
Proof. intros w Hw. by destruct r. Qed.
Lemma quiet_now l : quiet l (λ w : svc db X, (Ok (el_now (svc_env w)), w)).
Proof. by intros w. Qed.
#[local] Hint Resolve quiet_on_db quiet_raise quiet_get_events quiet_lift quiet_now : sf.
#[local] Hint Unfold on_fills on_votes on_prices : sf.

Lemma quiet_orders l : quiet l pollOrderFilledEvents.
Proof. unfold pollOrderFilledEvents, verify_event, on_fills. preserve. Qed.
Lemma quiet_filtered l c f body :
  (∀ event, quiet l (body event)) → quiet l (poll_filtered c f body).
Proof. intros Hb. unfold poll_filtered. preserve; apply Hb. Qed.
Lemma quiet_vote l event : quiet l (index_vote event).
Proof. unfold index_vote, on_votes. preserve. Qed.
Lemma quiet_breaker l event : quiet l (index_breaker event).
Proof. unfold index_breaker, undeclared. preserve. Qed.
Lemma quiet_checkpoint l event : quiet l (index_checkpoint event).
Proof. unfold index_checkpoint, undeclared. preserve. Qed.
Lemma quiet_parse l tx memoId : quiet l (parseOperations tx memoId).
Proof.
  unfold parseOperations. preserve. apply quiet_on_env. intros x. apply operations_queue.
Qed.

(** What a transaction adds to the queue: a part of its own prices, with the cursor raised
    to its ledger when any was accepted. *)
Definition of_tx (tx : TransactionRecord) (p : ConfirmedPrice) : Prop :=
  cfp_txHash p = tx_hash tx ∧ cfp_ledgerSeq p = tx_ledger_attr tx.

Definition adds_from (tx : TransactionRecord) (w w' : svc db X) : Prop :=
  ∃ new, q w' = q w ++ new ∧ Forall (of_tx tx) new ∧ cursor w ≤ cursor w' ∧
    (new = [] ∨ tx_ledger_attr tx ≤ cursor w').

Lemma adds_none tx w w' : q w' = q w → cursor w ≤ cursor w' → adds_from tx w w'.
Proof. intros E Hc. exists []. rewrite E, app_nil_r. split_and!; [done|done|done|by left]. Qed.

Lemma adds_trans tx w1 w2 w3 : adds_from tx w1 w2 → adds_from tx w2 w3 → adds_from tx w1 w3.
Proof.
  intros (n1 & E1 & F1 & C1 & H1) (n2 & E2 & F2 & C2 & H2). exists (n1 ++ n2).
  split_and!; [by rewrite E2, E1, app_assoc|by apply Forall_app|lia|].
  destruct H1 as [->|H1]; [|right; lia]. destruct H2 as [->|H2]; [by left|by right].
Qed.

Lemma parse_operations_tx tx memoId ops : Forall (of_tx tx) (parse_operations tx memoId ops).
Proof.
  induction ops as [|op ops IH]; simpl; [constructor|].
  destruct (parse_operation tx memoId op) as [[p|]|] eqn:E; [|done|constructor].
  constructor; [|done]. revert E. unfold parse_operation.
  repeat (case_match; try done); intros E; try (injection E as <-; done).
  - apply bind_Ok in E as (t & _ & E). destruct (isNaN _); [done|]. injection E as <-. done.
Qed.

Lemma enqueue_adds tx p w :
  of_tx tx p → wp (enqueue_price p) (λ _, adds_from tx w) (λ _, adds_from tx w) w.
Proof.
  intros [Hh Hl]. unfold enqueue_price. apply wp_bind. unfold wp at 1, on_env.
  pose proof (enqueue_queue p (svc_env w)) as Hq.
  destruct (packet_enqueue p (svc_env w)) as [[[|]|e] x]; simpl in Hq.
  - unfold wp, raise_cursor, cursor. simpl. exists [p]. unfold cursor.
    destruct (Z.ltb_spec (el_cursor (svc_db w)) (cfp_ledgerSeq p)); simpl;
      (split_and!; [done|by repeat constructor|lia|right; lia]).
  - apply wp_ret. by apply adds_none.
  - by apply adds_none.
Qed.

Lemma enqueue_all_adds tx l w :
  Forall (of_tx tx) l → wp (for_of l enqueue_price) (λ _, adds_from tx w) (λ _, adds_from tx w) w.
Proof.
  intros Hl. revert w; induction Hl as [|p l Hp _ IH]; intros w; simpl.
  { apply wp_ret. by apply adds_none. }
  apply wp_bind. eapply wp_mono; [by apply enqueue_adds| |done].
  intros [] w1 H1. eapply wp_mono; [apply IH|..]; intros ? w2 H2; by eapply adds_trans.
Qed.

Lemma poll_transaction_adds tx w :
  wp (poll_transaction tx) (λ _, adds_from tx w) (λ _, adds_from tx w) w ∧
  (tx_ledger_attr tx ≤ cursor w → poll_transaction tx w = (Ok tt, w)).
Proof.
  unfold poll_transaction. split.
  - apply wp_bind. unfold get, wp at 1. destruct (_ <=? _); [apply wp_ret; by apply adds_none|].
    destruct (extractMemoId tx) as [memoId|]; [|apply wp_ret; by apply adds_none].
    destruct (String.prefix _ _); [|apply wp_ret; by apply adds_none].
    apply wp_bind. unfold parseOperations at 1. apply wp_try_catch, wp_bind.
    pose proof (operations_queue tx (svc_env w)) as Hq. unfold wp at 1, on_env at 1.
    destruct (tx_operations tx (svc_env w)) as [[ops|e] x]; simpl in Hq; apply wp_ret;
      (eapply wp_mono; [apply (enqueue_all_adds tx); [apply parse_operations_tx || constructor]|..]);
      intros ? w2 H2; (eapply adds_trans; [|exact H2]); by apply adds_none.
  - intros Hle. unfold bind, get. by rewrite (proj2 (Z.leb_le _ _)).
Qed.

(** Newest first, as the query asks. *)
Definition newest_first (a b : TransactionRecord) : Prop := tx_ledger_attr b ≤ tx_ledger_attr a.

Lemma poll_old_transactions l w :
  Forall (λ tx, tx_ledger_attr tx ≤ cursor w) l → for_of l poll_transaction w = (Ok tt, w).
Proof.
  induction 1 as [|tx l Htx _ IH]; simpl; [done|]. unfold bind.
  by rewrite (proj2 (poll_transaction_adds tx w)).
Qed.

(** At most one transaction of the list adds prices. *)
Definition adds_one (w w' : svc db X) : Prop :=
  ∃ new, q w' = q w ++ new ∧ cursor w ≤ cursor w' ∧
    (new = [] ∨ ∃ tx, Forall (of_tx tx) new ∧ cursor w < tx_ledger_attr tx ≤ cursor w').

Lemma poll_list_adds l w :
  StronglySorted newest_first l →
  wp (for_of l poll_transaction) (λ _, adds_one w) (λ _, adds_one w) w.
Proof.
  intros Hs. revert w; induction Hs as [|tx l _ IH Htx]; intros w; simpl.
  { apply wp_ret. exists []. rewrite app_nil_r. split_and!; [done|lia|by left]. }
  apply wp_bind. destruct (poll_transaction_adds tx w) as [Ha Hskip].
  destruct (decide (tx_ledger_attr tx ≤ cursor w)) as [Hle|Hgt].
  { unfold wp at 1. rewrite Hskip by done. apply IH. }
  assert (∀ w1, adds_from tx w w1 → adds_one w w1) as Hone.
  { intros w1 (new & E & F & C & Hn). exists new. split_and!; [done|done|].
    destruct Hn as [->|Hn]; [by left|]. right. exists tx. split; [done|lia]. }
  eapply wp_mono; [exact Ha| |intros e w1; apply Hone].
  intros [] w1 H1. pose proof H1 as (new & E & F & C & Hn). destruct Hn as [->|Hn].
  - rewrite app_nil_r in E. eapply wp_mono; [apply IH|..]; intros ? w2 (n2 & E2 & C2 & H2);
      exists n2; (split_and!; [by rewrite E2, E|lia|]);
      (destruct H2 as [->|(tx' & F' & C')]; [by left|]; right; exists tx'; split; [done|lia]).
  - unfold wp. rewrite poll_old_transactions; [by apply Hone|].
    eapply Forall_impl; [exact Htx|]. unfold newest_first. intros; lia.
Qed.

(** The polls of events keep the queue and do not lower the cursor. *)
Definition no_prices (w0 w : svc db X) : Prop := cursor w0 ≤ cursor w ∧ q w = q w0.

Lemma keeps_no_prices {A} w0 (c : run A) :
  above (cursor w0) c → quiet (q w0) c → preserves (no_prices w0) c.
Proof.
  intros Ha Hq w [H1 H2]. specialize (Ha w H1). specialize (Hq w H2).
  unfold wp, no_prices in *. by destruct (c w) as [[?|?] ?].
Qed.

Lemma orders_no_prices w0 : preserves (no_prices w0) pollOrderFilledEvents.
Proof. apply keeps_no_prices; [apply above_orders|apply quiet_orders]. Qed.
Lemma votes_no_prices w0 : preserves (no_prices w0) pollGovernanceVoteEvents.
Proof.
  apply keeps_no_prices; [apply above_filtered, above_index_vote|apply quiet_filtered, quiet_vote].
Qed.
Lemma breakers_no_prices w0 : preserves (no_prices w0) pollCircuitBreakerEvents.
Proof.
  apply keeps_no_prices; [|apply quiet_filtered, quiet_breaker].
  apply above_filtered; intros; unfold index_breaker, undeclared; preserve.
Qed.
Lemma checkpoints_no_prices w0 : preserves (no_prices w0) pollVotingPowerCheckpointEvents.
Proof.
  apply keeps_no_prices; [|apply quiet_filtered, quiet_checkpoint].
  apply above_filtered; intros; unfold index_checkpoint, undeclared; preserve.
Qed.

Lemma wp_after_events w0 (c k : run unit) Q E w :
  preserves (no_prices w0) c → no_prices w0 w →
  (∀ w', no_prices w0 w' → wp k Q E w') → (∀ e w', no_prices w0 w' → E e w') →
  wp (c ;;; k) Q E w.
Proof.
  intros Hc Hw Hk He. apply wp_bind. eapply wp_mono; [by apply Hc| |exact He].
  intros [] w'. apply Hk.
Qed.

Lemma adds_one_quiet w w1 w2 : no_prices w w1 → adds_one w1 w2 → adds_one w w2.
Proof.
  intros [Hc Hq] (new & E & C & Hn). exists new. split_and!; [by rewrite E, Hq|lia|].
  destruct Hn as [->|(tx & F & Ht)]; [by left|]. right. exists tx. split; [done|lia].
Qed.
Lemma adds_one_refl w : adds_one w w.
Proof. exists []. rewrite app_nil_r. split_and!; [done|lia|by left]. Qed.

Definition newest_first_server : Prop :=
  ∀ x l x', account_transactions oraclePublicKey x = (Ok l, x') → StronglySorted newest_first l.

Lemma poll_adds_one w : newest_first_server → adds_one w (final pollTransactions w).
Proof.
  intros Hs. apply wp_final. unfold pollTransactions. apply wp_try_catch.
  assert (Hcatch : ∀ e w', adds_one w w' →
    wp (on_env (modify (reportFailure e)) ;;;
        if str_includes (err_message e) "status code 404" then ret tt else throw e)
      (λ _, adds_one w) (λ _, adds_one w) w').
  { intros e w' (new & E & C & Hn). apply wp_bind. unfold wp at 1, on_env, modify. simpl.
    assert (adds_one w (mkSvc (svc_db w') (reportFailure e (svc_env w')))) as H'.
    { exists new. simpl. by rewrite report_queue. }
    by destruct (str_includes _ _). }
  assert (Hno : ∀ e w', no_prices w w' → _) by
    exact (λ e w' H, Hcatch e w' (adds_one_quiet w w' w' H (adds_one_refl w'))).
  apply (wp_after_events w); [apply orders_no_prices|split; [lia|done]| |exact Hno]. intros w1 H1.
  apply (wp_after_events w); [apply votes_no_prices|done| |exact Hno]. intros w2 H2.
  apply (wp_after_events w); [apply breakers_no_prices|done| |exact Hno]. intros w3 H3.
  apply (wp_after_events w); [apply checkpoints_no_prices|done| |exact Hno]. intros w4 H4.
  unfold poll_transactions. apply wp_bind.
  pose proof (transactions_queue oraclePublicKey (svc_env w4)) as Hq. unfold wp at 1, on_env at 1.
  destruct (account_transactions _ _) as [[l|e] x] eqn:E; simpl in Hq.
  - set (w5 := mkSvc (svc_db w4) x).
    assert (no_prices w w5) as H5 by (destruct H4 as [C4 Q4]; split; [done|by rewrite <-Q4]).
    eapply wp_mono; [apply (poll_list_adds l w5), (Hs _ _ _ E)|..].
    + intros u w6 H6. by eapply adds_one_quiet.
    + intros e w6 H6. apply Hcatch. by eapply adds_one_quiet.
  - apply Hno. destruct H4 as [C4 Q4]. split; [done|by rewrite <-Q4].
Qed.

Lemma polls_add n w :
  newest_first_server →
  ∃ new, q (polls n w) = q w ++ new ∧ Forall (λ p, cursor w < cfp_ledgerSeq p) new.
Proof.
  intros Hs. induction n as [|n (new & E & F)]; simpl.
  { exists []. rewrite app_nil_r. by split. }
  destruct (poll_adds_one (polls n w) Hs) as (more & E2 & _ & Hm). exists (new ++ more).
  fold (polls n w). split; [by rewrite E2, E, app_assoc|]. apply Forall_app. split; [done|].
  pose proof (polls_above n w) as Hc. destruct Hm as [->|(tx & Ht & Hl)]; [done|].
  eapply Forall_impl; [exact Ht|]. intros p [_ ->]. lia.
Qed.

(** ** Votes below the cursor *)

Definition voted (key : string * string) (w : svc db X) : option GovernanceVote :=
  rows (el_votes (svc_db w)).2 !! key.

Section behind.
Context (L : Z) (key : string * string).

(** The server returns events from the ledger asked for, and from ledger [L] on none that is
    a vote of [key]. *)
Definition serves_from : Prop := ∀ n c f x l x',
  rpc_events n c f x = (Ok l, x') → ∀ e, e ∈ l → n ≤ default 0 (re_ledger e).
Definition no_vote_from : Prop := ∀ n c x l x',
  rpc_events n c GovernanceVoted x = (Ok l, x') → ∀ e t p, e ∈ l → L ≤ default 0 (re_ledger e) →
  vote_payload e t = Ok p → (vp_accountId p, vp_proposalId p) ≠ key.

Definition past (v : option GovernanceVote) (w : svc db X) : Prop := L ≤ cursor w ∧ voted key w = v.

Lemma past_keeps {A} v (c : run A) :
  above L c → preserves (λ w, voted key w = v) c → preserves (past v) c.
Proof.
  intros Ha Hv w [H1 H2]. specialize (Ha w H1). specialize (Hv w H2).
  unfold wp, past in *. by destruct (c w) as [[?|?] ?].
Qed.

Notation votes_kept v := (preserves (λ w, voted key w = v)).
Lemma votes_kept_env {A} v (c : M X A) : votes_kept v (on_env c).
Proof. apply (preserves_on_env (λ d : db, rows (el_votes d).2 !! key = v)). Qed.
Lemma votes_kept_raise v ledger : votes_kept v (raise_cursor ledger).
Proof. intros w Hw. unfold wp, raise_cursor. by destruct (_ <? _). Qed.
Lemma votes_kept_fills {A} v (c : M (TF * TR) A) : votes_kept v (on_fills c).
Proof.
  apply (preserves_on_db (λ d : db, rows (el_votes d).2 !! key = v)). intros d r d' Hd.
  destruct (c (el_fills d)). by intros [= <- <-].
Qed.
Lemma votes_kept_get v c f : votes_kept v (get_events c f).
Proof. intros w. apply (votes_kept_env v). Qed.
Lemma votes_kept_now v : votes_kept v (λ w : svc db X, (Ok (el_now (svc_env w)), w)).
Proof. by intros w. Qed.
#[local] Hint Resolve votes_kept_env votes_kept_raise votes_kept_fills votes_kept_get votes_kept_now : sf.

Lemma votes_kept_orders v : votes_kept v pollOrderFilledEvents.
Proof. unfold pollOrderFilledEvents, verify_event. preserve. Qed.
Lemma votes_kept_breakers v : votes_kept v pollCircuitBreakerEvents.
Proof. unfold pollCircuitBreakerEvents, poll_filtered, index_breaker, undeclared. preserve. Qed.
Lemma votes_kept_checkpoints v : votes_kept v pollVotingPowerCheckpointEvents.
Proof. unfold pollVotingPowerCheckpointEvents, poll_filtered, index_checkpoint, undeclared. preserve. Qed.
Lemma votes_kept_prices v : votes_kept v poll_transactions.
Proof. unfold poll_transactions, poll_transaction, parseOperations, enqueue_price. preserve. Qed.

(** An event of another vote. *)
Lemma index_vote_other v event :
  (∀ t p, vote_payload event t = Ok p → (vp_accountId p, vp_proposalId p) ≠ key) →
  votes_kept v (index_vote event).
Proof.
  intros He. unfold index_vote. apply preserves_try_catch; [|intros; apply preserves_ret].
  destruct (negb _); [apply preserves_ret|]. apply preserves_bind; [apply votes_kept_now|].
  intros a w Hw. apply wp_bind. unfold wp at 1, lift_exc.
  destruct (vote_payload event a) as [p|] eqn:E; [|done].
  specialize (He _ _ E). apply wp_bind.
  assert (votes_kept v (on_votes (ingestGovernanceVoteEvent (default "" governance_env) a p))) as Hk.
  { apply (preserves_on_db (λ d : db, rows (el_votes d).2 !! key = v)). intros d r d' Hd.
    destruct (ingestGovernanceVoteEvent _ a p (el_votes d)) as [r1 d1] eqn:Ei. intros [= <- <-].
    apply ingest_inv in Ei as (_ & [E2|[_ E2]] & _); simpl; rewrite E2; [done|].
    by rewrite lookup_insert_ne. }
  eapply wp_mono; [by apply Hk| |done]. intros [] w' Hw'. by apply votes_kept_raise.
Qed.

Lemma past_votes v : serves_from → no_vote_from → preserves (past v) pollGovernanceVoteEvents.
Proof.
  intros Hfrom Hnot. unfold pollGovernanceVoteEvents, poll_filtered.
  destruct governance_contract as [c|]; [|apply preserves_ret].
  intros w [Hc Hv]. apply wp_bind, wp_try_catch, wp_bind. unfold wp at 1, get_events, on_env.
  destruct (rpc_events _ _ _ _) as [[l|e] x] eqn:E.
  - apply wp_ret. apply (preserves_for_of (past v)); [|by split].
    intros event He. apply past_keeps; [apply above_index_vote|]. apply index_vote_other.
    intros t p. eapply Hnot; [exact E|done|]. pose proof (Hfrom _ _ _ _ _ _ E event He). lia.
  - apply wp_ret, wp_ret. by split.
Qed.

(** A completed order poll has raised the cursor to every ledger it saw. *)
Lemma orders_raise (events : list rpc_event) w w1 :
  for_of events (λ event, verify_event event ;;; raise_cursor (default 0 (re_ledger event))) w = (Ok tt, w1) →
  cursor w ≤ cursor w1 ∧ ∀ e, e ∈ events → default 0 (re_ledger e) ≤ cursor w1.
Proof.
  revert w; induction events as [|e events IH]; intros w; simpl.
  { intros [= <-]. split; [lia|]. by intros e ?%elem_of_nil. }
  unfold bind. destruct (verify_event e w) as [[b|] w2] eqn:E; [|done].
  assert (cursor w ≤ cursor w2) as H2.
  { assert (above (cursor w) (verify_event e)) as Ha by (unfold verify_event; preserve).
    specialize (Ha w (Z.le_refl _)). unfold wp in Ha. by rewrite E in Ha. }
  unfold raise_cursor at 1. set (w3 := if el_cursor (svc_db w2) <? default 0 (re_ledger e) then _ else w2).
  assert (cursor w2 ≤ cursor w3 ∧ default 0 (re_ledger e) ≤ cursor w3) as [H3 H4].
  { unfold w3, cursor. destruct (Z.ltb_spec (el_cursor (svc_db w2)) (default 0 (re_ledger e))); simpl; lia. }
  intros (H5 & H6)%IH. split; [lia|]. intros x [->|Hx]%elem_of_cons; [lia|by apply H6].
Qed.

Lemma past_poll v w :
  serves_from → no_vote_from → wp pollOrderFilledEvents (λ _ : unit, past v) (λ _ : js_error, past v) w →
  past v (final pollTransactions w).
Proof.
  intros Hfrom Hnot Ho. apply wp_final. unfold pollTransactions. apply wp_try_catch.
  assert (∀ e : js_error, preserves (past v) (on_env (modify (reportFailure e)) ;;;
    if str_includes (err_message e) "status code 404" then ret tt else throw e)) as Hcatch.
  { intros e. apply past_keeps; preserve. }
  apply wp_bind. eapply wp_mono; [exact Ho| |by intros e w' H'; apply Hcatch]. intros [] w1 H1.
  assert (preserves (past v) (pollGovernanceVoteEvents ;;; pollCircuitBreakerEvents ;;;
    pollVotingPowerCheckpointEvents ;;; poll_transactions)) as Hrest.
  { apply preserves_bind; [by apply past_votes|intros _].
    apply preserves_bind; [apply past_keeps; [|apply votes_kept_breakers]|intros _].
    { apply above_filtered; intros; unfold index_breaker, undeclared; preserve. }
    apply preserves_bind; [apply past_keeps; [|apply votes_kept_checkpoints]|intros _].
    { apply above_filtered; intros; unfold index_checkpoint, undeclared; preserve. }
    apply past_keeps; [apply above_poll_transactions|apply votes_kept_prices]. }
  eapply wp_mono; [by apply Hrest|done|]. intros e w' H'. by apply Hcatch.
Qed.

Lemma past_polls v n w : serves_from → no_vote_from → past v w → past v (polls n w).
Proof.
  intros Hfrom Hnot Hw. induction n as [|n IH]; simpl; [done|]. fold (polls n w).
  apply past_poll; [done|done|]. apply past_keeps; [apply above_orders|apply votes_kept_orders|done].
Qed.
End behind.

(** ** Theorems *)

(** C5. A poll queues the prices of at most one price transaction, and everything queued by
    later polls comes from younger ledgers: of several new transactions found in one
    poll, the prices of all but the newest that has any accepted are never queued. *)
Theorem one_transaction_per_poll n w :
  newest_first_server →
  ∃ new later,
    queued (svc_env (final pollTransactions w)) = queued (svc_env w) ++ new ∧
    queued (svc_env (polls n (final pollTransactions w)))
      = queued (svc_env (final pollTransactions w)) ++ later ∧
    (new = [] ∨ ∃ tx, Forall (of_tx tx) new ∧ cursor w < tx_ledger_attr tx ∧
                      Forall (λ p, tx_ledger_attr tx < cfp_ledgerSeq p) later).
Proof.
  intros Hs. destruct (poll_adds_one w Hs) as (new & E & _ & Hn).
  destruct (polls_add n (final pollTransactions w) Hs) as (later & E2 & F2).
  exists new, later. split_and!; [done|done|]. destruct Hn as [->|(tx & F & Ht)]; [by left|].
  right. exists tx. split_and!; [done|lia|]. eapply Forall_impl; [exact F2|]. simpl. intros; lia.
Qed.

(** All polls share one cursor. When the first step of a poll has seen an event of the
    contract, of any kind, at ledger [L], a vote cast before [L] is never indexed: unless
    the same account votes again on the proposal at [L] or later, its vote stays what it
    was, whatever else happens in this poll and in any number of later ones. *)
Theorem votes_behind_are_missed L key contractId l x1 e0 n w :
  serves_from → no_vote_from L key →
  contract_id CONTRACT_ID = Some contractId →
  rpc_events (Z.max 1 (cursor w)) contractId AllEvents (svc_env w) = (Ok l, x1) →
  e0 ∈ l → L ≤ default 0 (re_ledger e0) →
  outcome pollOrderFilledEvents w = Ok tt →
  voted key (polls n (final pollTransactions w)) = voted key w.
Proof.
  intros Hfrom Hnot Hc Hl He HL Ho. apply (past_polls L key (voted key w) n); [done|done|].
  apply past_poll; [done|done|].
  pose proof (votes_kept_orders key (voted key w) w eq_refl) as Hv.
  unfold outcome, wp in *. destruct (pollOrderFilledEvents w) as [[[]|] w1] eqn:E; [|done].
  split; [|done]. revert E. unfold pollOrderFilledEvents. rewrite Hc. unfold bind, get_events, on_env.
  rewrite Hl. intros (_ & Hr)%orders_raise. specialize (Hr e0 He). lia.
Qed.

(** Circuit-breaker and checkpoint events have no effect: whatever the server returns,
    their polls complete and leave the tables, the cursor and the price queue as they
    were. *)
Theorem undeclared_services_do_nothing w :
  (outcome pollCircuitBreakerEvents w = Ok tt ∧
   svc_db (final pollCircuitBreakerEvents w) = svc_db w ∧
   queued (svc_env (final pollCircuitBreakerEvents w)) = queued (svc_env w)) ∧
  outcome pollVotingPowerCheckpointEvents w = Ok tt ∧
  svc_db (final pollVotingPowerCheckpointEvents w) = svc_db w ∧
  queued (svc_env (final pollVotingPowerCheckpointEvents w)) = queued (svc_env w).
Proof.
  assert (∀ (body : rpc_event → run unit) l w', (∀ e w', body e w' = (Ok tt, w')) →
            for_of l body w' = (Ok tt, w')) as Hfor.
  { intros body l w' Hb. induction l as [|e l IH]; simpl; [done|]. unfold bind. by rewrite Hb. }
  assert (∀ c f (body : rpc_event → run unit), (∀ e w', body e w' = (Ok tt, w')) →
            outcome (poll_filtered c f body) w = Ok tt ∧
            svc_db (final (poll_filtered c f body) w) = svc_db w ∧
            q (final (poll_filtered c f body) w) = q w) as Hp.
  { intros c f body Hb. unfold outcome, final, poll_filtered. destruct c as [c|]; [|done].
    unfold bind, try_catch, get_events, on_env, ret.
    pose proof (rpc_events_queue (Z.max 1 (cursor w)) c f (svc_env w)) as Hq.
    destruct (rpc_events _ _ _ _) as [[l|e] x]; simpl in *; [rewrite Hfor by done|]; done. }
  split; apply Hp.
  - intros e w'. unfold index_breaker. destruct (at_index _ _); try done. by case_bool_decide.
  - intros e w'. unfold index_checkpoint. by destruct (negb _).
Qed.

(** A listener that starts without stored prices asks for events from ledger 1. A server
    that rejects that (it keeps only recent ledgers) stops every poll at its first step:
    the tables, the cursor and the price queue never change. *)
Theorem rejected_start_stalls contractId n w :
  contract_id CONTRACT_ID = Some contractId → cursor w ≤ 1 →
  (∀ x, ∃ e x', rpc_events 1 contractId AllEvents x = (Throw e, x')) →
  svc_db (polls n w) = svc_db w ∧ queued (svc_env (polls n w)) = queued (svc_env w).
Proof.
  intros Hc Hw Hrej. induction n as [|n [IHd IHq]]; simpl; [done|]. fold (polls n w).
  assert (cursor (polls n w) ≤ 1) as Hw' by (unfold cursor in *; by rewrite IHd).
  rewrite <-IHd, <-IHq. revert Hw'. generalize (polls n w). clear -Hc Hrej. intros w Hw.
  destruct (Hrej (svc_env w)) as (e & x' & E).
  pose proof (rpc_events_queue 1 contractId AllEvents (svc_env w)) as Hq. rewrite E in Hq.
  assert (pollOrderFilledEvents w = (Throw e, mkSvc (svc_db w) x')) as Ho.
  { unfold pollOrderFilledEvents. rewrite Hc. unfold bind, get_events, on_env.
    by rewrite Z.max_l, E by done. }
  unfold final, pollTransactions, try_catch, bind. rewrite Ho. unfold on_env, modify.
  destruct (str_includes _ _); simpl; by rewrite report_queue.
Qed.

(** The cursor of the listener never moves back, in a poll or in any number of them. *)
Theorem listener_cursor_monotone n w : cursor w ≤ cursor (polls n w).
Proof. apply polls_above. Qed.

(** ** The worker *)

(** The worker stores a queued price at most once and never changes a stored one; a
    price it cannot store (an invalid date, a price of the transaction already stored for
    the currency, a failing database) is dropped without an error. *)
Theorem worker_only_adds price w :
  outcome (process_price price) w = Ok tt ∧
  (rows (el_prices (svc_db (final (process_price price) w))) = rows (el_prices (svc_db w)) ∨
   ∃ t, rows (el_prices (svc_db w)) !! (cfp_txHash price, cfp_currency price) = None ∧
     cfp_confirmedAt price = Some t ∧
     rows (el_prices (svc_db (final (process_price price) w))) =
       <[(cfp_txHash price, cfp_currency price) :=
           mkOnChain (cfp_currency price) (cfp_rate price) (cfp_txHash price) (cfp_memoId price)
             (cfp_ledgerSeq price) t]> (rows (el_prices (svc_db w)))) ∧
  cursor (final (process_price price) w) = cursor w.
Proof.
  unfold outcome, final, process_price, try_catch.
  destruct (cfp_confirmedAt price) as [t|]; [|by split_and!; [|left|]].
  unfold bind, on_prices, on_db, on_env, ret, cursor.
  destruct (createUnique _ _ _) as [[r|e] d] eqn:E; simpl.
  - apply createUnique_ok in E as (Hn & _ & Hr).
    destruct (broadcast_price _ _) as [[[]|] x1]; simpl;
      [destruct (invalidate_caches _ _) as [[[]|] x2]; simpl;
       destruct (start_ledger_work _ _) as [[[]|] x3]|]; simpl;
      (split_and!; [done|right; exists t; by split_and!|done]).
  - apply createUnique_err in E as [Hr _]. split_and!; [done|by left|done].
Qed.
End listener.

(** ** Witnesses

    A server with a fixed history that rejects queries before its first ledger; the queue
    accepts everything. *)

Definition matches (f : event_filter) (e : rpc_event) : bool :=
  match f, at_index (re_topic e) 0 with
  | AllEvents, _ => true
  | GovernanceVoted, JStr s => bool_decide (s = "GovernanceVoted")
  | PauseOrBreaker, JStr s => bool_decide (s ∈ ["Pause"; "CircuitBreakerTriggered"])
  | CheckpointCreated, JStr s => bool_decide (s = "checkpointCreated")
  | _, _ => false
  end.

Definition history_server (first : Z) (history : list rpc_event)
    (txs : list (TransactionRecord * list OperationRecord)) : StellarEvents (list ConfirmedPrice).
Proof.
  refine {|
    rpc_events n c f x :=
      (if n <? first then Throw (Error "startLedger must be within the ledger range")
       else Ok (filter (λ e, n ≤ default 0 (re_ledger e) ∧ matches f e = true) history), x);
    account_transactions k x := (Ok txs.*1, x);
    tx_operations t x :=
      (Ok (default [] (snd <$> List.find (λ p, bool_decide (tx_hash p.1 = tx_hash t)) txs)), x);
    reportFailure _ x := x;
    el_now _ := 0;
    packet_enqueue p x := (Ok true, x ++ [p]);
    queued x := x;
    broadcast_price _ := ret tt;
    invalidate_caches _ := ret tt;
    start_ledger_work _ := ret tt |}; try done.
Defined.

Lemma history_answers first history txs n c f x l x' :
  rpc_events (StellarEvents:=history_server first history txs) n c f x = (Ok l, x') →
  ∀ e, e ∈ l → (n ≤ default 0 (re_ledger e) ∧ matches f e = true) ∧ e ∈ history.
Proof.
  simpl. destruct (n <? first); [done|]. intros E. injection E as <- _.
  intros e He. by apply list_elem_of_filter in He.
Qed.

Notation demo_el := (el_db (gmap (string * Z) (OrderFilledEvent Z)) (gmap string (OpenOrder Z))
  (gmap string GovernanceProposal) (gmap (string * string) GovernanceVote)
  (gmap (string * string) OnChainPrice)).
Definition demo_listener (n : Z) : svc demo_el (list ConfirmedPrice) :=
  mkSvc (mkElDb (∅, ∅) (∅, ∅) ∅ n) [].
Definition any_date (s : string) : option Z := Some 0.
Definition plain_text (s : string) : exc string := Ok s.

Definition price_tx (hash : string) (ledger : Z) : TransactionRecord * list OperationRecord :=
  (mkTx hash ledger "text" (Some "SF-1") "2026", [mkOp "manage_data" "NGN_PRICE" (Some "750.5")]).
Definition two_prices : StellarEvents (list ConfirmedPrice) :=
  history_server 0 [] [price_tx "B" 20; price_tx "A" 18].

(** Two new transactions: only the prices of the newer one are queued, in any number of
    polls. *)
Example older_price_lost :
  cfp_txHash <$> svc_env (polls (StellarEvents0:=two_prices) None None "K" any_date plain_text 3 (demo_listener 5))
  = ["B"].
Proof. vm_compute. reflexivity. Qed.

Lemma two_prices_sorted : newest_first_server (StellarEvents0:=two_prices) "K".
Proof.
  intros x l x' [= <- _]. simpl. repeat constructor; unfold newest_first; simpl; lia.
Qed.

Lemma one_transaction_per_poll_witness :
  ∃ new later : list ConfirmedPrice,
    svc_env (final (pollTransactions (StellarEvents0:=two_prices) None None "K" any_date plain_text)
               (demo_listener 5)) = [] ++ new ∧
    svc_env (polls (StellarEvents0:=two_prices) None None "K" any_date plain_text 3
       (final (pollTransactions (StellarEvents0:=two_prices) None None "K" any_date plain_text) (demo_listener 5)))
    = svc_env (final (pollTransactions (StellarEvents0:=two_prices) None None "K" any_date plain_text)
                 (demo_listener 5)) ++ later ∧
    (new = [] ∨ ∃ tx, Forall (of_tx tx) new ∧ 5 < tx_ledger_attr tx ∧
                      Forall (λ p, tx_ledger_attr tx < cfp_ledgerSeq p) later).
Proof.
  exact (one_transaction_per_poll (StellarEvents0:=two_prices) None None "K" any_date plain_text 3
    (demo_listener 5) two_prices_sorted).
Defined.

Lemma rejected_start_stalls_witness :
  let recent := history_server 1000 [] [price_tx "A" 2000] in
  svc_db (polls (StellarEvents0:=recent) (Some "C") None "K" any_date plain_text 7 (demo_listener 0))
  = svc_db (demo_listener 0) ∧
  svc_env (polls (StellarEvents0:=recent) (Some "C") None "K" any_date plain_text 7 (demo_listener 0)) = [].
Proof.
  intros recent.
  assert (∀ x, ∃ e x', rpc_events (StellarEvents:=recent) 1 "C" AllEvents x = (Throw e, x')) as R
    by (intros x; by do 2 eexists).
  exact (rejected_start_stalls (StellarEvents0:=recent) (Some "C") None "K" any_date plain_text "C" 7
    (demo_listener 0) eq_refl ltac:(done) R).
Defined.

(** A vote at ledger 10 and another event of the contract at ledger 12, both new. *)
Definition vote_event : rpc_event :=
  mkRpcEvent [JStr "GovernanceVoted"; JStr "G1"; JStr "p1"]
    (JObj [("choice", JStr "For"); ("weight", JStr "5")]) (Some "t1") None (Some 10) (Some 0) None.
Definition other_event : rpc_event :=
  mkRpcEvent [JStr "Transfer"] JNull (Some "t2") None (Some 12) (Some 0) None.
Definition vote_then_other : StellarEvents (list ConfirmedPrice) :=
  history_server 0 [vote_event; other_event] [].

Example vote_alone_is_indexed :
  is_Some (voted ("G1", "p1") (polls (StellarEvents0:=history_server 0 [vote_event] [])
    (Some "C") None "K" any_date plain_text 1 (demo_listener 5))).
Proof. vm_compute. by eexists. Qed.

Lemma votes_behind_are_missed_witness :
  voted ("G1", "p1") (polls (StellarEvents0:=vote_then_other) (Some "C") None "K" any_date plain_text 4
    (final (pollTransactions (StellarEvents0:=vote_then_other) (Some "C") None "K" any_date plain_text)
       (demo_listener 5))) = None.
Proof.
  assert (serves_from (StellarEvents0:=vote_then_other)) as F.
  { intros n c f x l x' El e He. by apply (history_answers _ _ _ _ _ _ _ _ _ El) in He as [[? _] _]. }
  assert (no_vote_from (StellarEvents0:=vote_then_other) any_date 11 ("G1", "p1")) as N.
  { intros n c x l x' El e t p He Hl. apply (history_answers _ _ _ _ _ _ _ _ _ El) in He as [[_ Hm] He].
    apply elem_of_cons in He as [->|[->|[]%elem_of_nil]%elem_of_cons]; [|by vm_compute in Hm].
    by vm_compute in Hl. }
  exact (votes_behind_are_missed (StellarEvents0:=vote_then_other) (Some "C") None "K" any_date plain_text
    11 ("G1", "p1") "C" [vote_event; other_event] [] other_event 4 (demo_listener 5) F N eq_refl eq_refl
    (list_elem_of_further _ _ _ (list_elem_of_here _ _)) ltac:(done) eq_refl).
Defined.
