(* ===== verification/PriceFilter.v ===== *)
(** * Price filters ([logic/outlierFilter.ts], [logic/zScoreFilter.ts],
    [logic/crossPairArbitrageDetection.ts], and their use in [services/marketRate/])

    The interquartile filter and the choice of the rates of the NGN fetcher, the sliding
    z-score filter, and the cross-pair check of the market rate service, on binary64
    numbers. Proved: the filter returns valid input prices, at least two when there are
    three, whatever their order; the fetcher needs all its three sources and never drops
    one; the z-score window stays within ten prices, a flat window accepts no new price,
    and one NaN lets every price in; and the cross-pair check can never flag. *)

From Stdlib Require Import SpecFloat.
From stdpp Require Import pretty.
From S2P Require Import Prelude JsNumber.

Local Open Scope Z_scope.

(** [a !== b], [Math.abs], [Math.sqrt] *)
Definition num_eqb (a b : number) : bool := SFeqb a b.
Definition math_abs (a : number) : number := SFabs a.
Definition math_sqrt (a : number) : number := SFsqrt prec emax a.

Definition num_1_5 : number := num_div (num_of_Z 3) (num_of_Z 2).
Definition num_100 : number := num_of_Z 100.

(** ** Outliers *)

Definition ascending (a b : number) : number := num_sub a b.

(** [p > 0 && !isNaN(p)], and [isFinite(p)] *)
Definition positive_price (p : number) : bool := num_ltb num_zero p && negb (isNaN p).
Definition valid_price (p : number) : bool := positive_price p && isFinite p.

Definition quartile (sorted : list number) (index fallback : nat) : number :=
  match sorted !! index with
  | Some q => q
  | None => default num_zero (sorted !! fallback)
  end.

Definition within_fences (multiplier : number) (sorted : list number) (price : number) : bool :=
  let n := length sorted in
  let q1 := quartile sorted ((n + 1) / 4) 0 in
  let q3 := quartile sorted ((3 * (n + 1)) / 4) (n - 1) in
  let iqr := num_sub q3 q1 in
  let lowerFence := num_sub q1 (num_mul multiplier iqr) in
  let upperFence := num_add q3 (num_mul multiplier iqr) in
  num_leb lowerFence price && num_leb price upperFence.

Definition filterOutliers (prices : list number) (multiplier : number) : list number :=
  if decide (length prices < 3)%nat then filter (λ p, positive_price p = true) prices
  else
    let validPrices := filter (λ p, valid_price p = true) prices in
    if decide (length validPrices < 3)%nat then validPrices
    else
      let sorted := js_sort ascending validPrices in
      let filtered := filter (λ p, within_fences multiplier sorted p = true) sorted in
      if decide (2 ≤ length filtered)%nat then filtered else validPrices.

(** [l.includes(x)]: NaN equals NaN. *)
Definition includes_num (l : list number) (x : number) : bool :=
  existsb (λ y, num_eqb y x || (isNaN y && isNaN x)) l.

Definition isOutlier (price : number) (prices : list number) (multiplier : number) : bool :=
  negb (includes_num (filterOutliers prices multiplier) price).

Definition percentDeviation (price median : number) : number :=
  num_mul (math_abs (num_div (num_sub price median) median)) num_100.

(** [MedianPriceService.calculateMedian] *)
Definition calculateMedian (values : list number) : exc number :=
  if decide (length values < 3)%nat
  then Throw (Error "At least 3 values are required to calculate median")
  else
    let sorted := js_sort ascending values in
    Ok (default num_zero (sorted !! (length sorted / 2)%nat)).

(** [NGNRateFetcher.fetchRate] from the collected prices on: the rates used. *)
Definition ngn_prices_to_use (prices : list number) : exc (list number) :=
  match prices with
  | [] => Throw (Error "All NGN rate sources failed")
  | _ =>
      let rateValues := filter (λ rate, isFinite rate && num_ltb num_zero rate = true) prices in
      let filteredRateValues := filterOutliers rateValues num_1_5 in
      let filteredPrices := filter (λ p, includes_num filteredRateValues p = true) prices in
      let pricesToUse := if decide (3 ≤ length filteredPrices)%nat then filteredPrices else prices in
      if decide (length pricesToUse < 3)%nat
      then Throw (Error ("Need at least 3 price sources for median calculation, got " +:+
                         pretty (length pricesToUse)))
      else Ok pricesToUse
  end.

Definition ngn_rate (prices : list number) : exc number :=
  rates ← ngn_prices_to_use prices; calculateMedian rates.

(** The example in the comment of [filterOutliers] keeps 750 and 752 only; the code keeps all
    three. *)
Example documented_example :
  filterOutliers [num_of_Z 750; num_of_Z 752; num_of_Z 900] num_1_5
  = [num_of_Z 750; num_of_Z 752; num_of_Z 900].
Proof. vm_compute. reflexivity. Qed.

(** ** Z-scores *)

Definition maxWindowSize : nat := 10.
Definition z_threshold : number := num_of_Z 3.

Definition calculateMean (data : list number) : number :=
  num_div (num_sum data) (num_of_Z (Z.of_nat (length data))).
Definition calculateStdDev (data : list number) (mean : number) : number :=
  math_sqrt (calculateMean (map (λ value, num_mul (num_sub value mean) (num_sub value mean)) data)).

(** The windows per asset. *)
Notation price_windows := (gmap string (list number)).

Definition updateWindow (window : list number) (price : number) : list number :=
  window_push maxWindowSize window price.

(** Is the price taken into the window? *)
Definition accepts (window : list number) (price : number) : bool :=
  if decide (length window < 2)%nat then true
  else
    let mean := calculateMean window in
    let stdDev := calculateStdDev window mean in
    if num_eqb stdDev num_zero then num_eqb price mean
    else negb (num_ltb z_threshold (num_div (math_abs (num_sub price mean)) stdDev)).

Definition processPrice (asset : string) (price : number) (windows : price_windows)
    : bool * price_windows :=
  let window := default [] (windows !! asset) in
  if accepts window price then (true, <[asset := updateWindow window price]> windows)
  else (false, <[asset := window]> windows).

Fixpoint processPrices (asset : string) (prices : list number) (windows : price_windows)
    : list bool * price_windows :=
  match prices with
  | [] => ([], windows)
  | p :: rest =>
      let '(b, windows) := processPrice asset p windows in
      let '(bs, windows) := processPrices asset rest windows in (b :: bs, windows)
  end.

(** ** Cross pairs *)

Record CrossPairCheckResult := mkCross {
  impliedRate : number;
  directRate : number;
  deviation : number;
  deviationPercent : number;
  flagged : bool;
  cross_timestamp : Z;
}.

Definition calculateImpliedNgnUsd (ngnXlmRate xlmUsdRate : number) : number :=
  if num_leb ngnXlmRate num_zero || num_leb xlmUsdRate num_zero then num_zero
  else num_div ngnXlmRate xlmUsdRate.

Definition calculateDeviationPercent (rate1 rate2 : number) : number :=
  if num_leb rate2 num_zero then num_zero
  else num_mul (math_abs (num_div (num_sub rate1 rate2) rate2)) num_100.

Definition checkCrossPairConsistency (ngnXlmRate xlmUsdRate ngnUsdRate thresholdPercent : number)
    (now : Z) : CrossPairCheckResult :=
  if num_leb ngnXlmRate num_zero || num_leb xlmUsdRate num_zero || num_leb ngnUsdRate num_zero
  then mkCross num_zero num_zero num_zero num_zero false now
  else
    let implied := calculateImpliedNgnUsd ngnXlmRate xlmUsdRate in
    let percent := calculateDeviationPercent implied ngnUsdRate in
    mkCross implied ngnUsdRate (math_abs (num_sub implied ngnUsdRate)) percent
      (num_ltb thresholdPercent percent) now.

(** [MarketRateService.runCrossPairCheck], from the XLM/USD rate of the response on. *)
Definition runCrossPairCheck (ngnXlmRate xlmUsd : number) (now : Z) : option CrossPairCheckResult :=
  if num_leb xlmUsd num_zero then None
  else
    let ngnUsdReference := num_div ngnXlmRate xlmUsd in
    Some (checkCrossPairConsistency ngnXlmRate xlmUsd ngnUsdReference (num_of_Z 2) now).

(** ** The filter and the order of the prices *)

Lemma valid_price_finite p : valid_price p = true → isFinite p = true.
Proof. unfold valid_price. by intros [_ ?]%andb_true_iff. Qed.

Lemma filter_perm {A} (P : A → Prop) `{!∀ x, Decision (P x)} l1 l2 :
  l1 ≡ₚ l2 → filter P l1 ≡ₚ filter P l2.
Proof. by intros ->. Qed.

Definition machine (l : list number) : Prop := Forall valid_num l.

Lemma ascending_key l :
  machine l → Forall (λ p, isFinite p = true) l → cmp_key ascending num_val l.
Proof.
  unfold machine. rewrite !Forall_forall. intros Hv Hf x y Hx Hy. unfold ascending.
  rewrite (proj1 (num_sub_sign x y (Hv x Hx) (Hv y Hy) (Hf x Hx) (Hf y Hy))).
  by apply num_ltb_val; auto.
Qed.

(** Positive machine numbers of the same value are the same. *)
Lemma positive_val_inj a b :
  valid_num a → valid_num b → valid_price a = true → valid_price b = true →
  num_val a = num_val b → a = b.
Proof.
  intros Va Vb Pa Pb E. unfold valid_num in *.
  pose proof (valid_price_finite a Pa) as Fa. pose proof (valid_price_finite b Pb) as Fb.
  destruct a as [| | |[] m1 e1], b as [| | |[] m2 e2]; try discriminate.
  pose proof Va as Ba%bounded_emin. pose proof Vb as Bb%bounded_emin.
  cbn [num_val] in E. rewrite (aligned_shift false m1 e1 (Z.min e1 e2)), (aligned_shift false m2 e2 (Z.min e1 e2)) in E by lia.
  assert (0 < 2 ^ (Z.min e1 e2 - emin prec emax)) by (apply Z.pow_pos_nonneg; lia).
  apply Z.mul_reg_r in E; [|lia]. unfold aligned, cond_Zopp in E.
  destruct (Z.lt_trichotomy e1 e2) as [Hlt|[->|Hlt]].
  - pose proof (exp_lt_val m1 m2 e1 e2 Va Vb Hlt) as Hv. rewrite Z.min_l in E by lia.
    rewrite Z.sub_diag, Z.pow_0_r in E. lia.
  - rewrite Z.min_id, Z.sub_diag, Z.pow_0_r in E. f_equal. lia.
  - pose proof (exp_lt_val m2 m1 e2 e1 Vb Va Hlt) as Hv. rewrite Z.min_r in E by lia.
    rewrite Z.sub_diag, Z.pow_0_r in E. lia.
Qed.

(** One ascending arrangement. *)
Lemma sorted_prices_unique l1 l2 :
  machine l1 → Forall (λ p, valid_price p = true) l1 → l1 ≡ₚ l2 →
  js_sort ascending l1 = js_sort ascending l2.
Proof.
  intros Hm Hv Hp.
  assert (∀ l, l1 ≡ₚ l → StronglySorted (λ a b, num_val a ≤ num_val b) (js_sort ascending l)) as Hs.
  { intros l Hl. apply js_sort_sorted, ascending_key; unfold machine in *; rewrite <-Hl; [done|].
    eapply Forall_impl; [exact Hv|apply valid_price_finite]. }
  apply (StronglySorted_unique_strong (λ a b, num_val a ≤ num_val b)); [|by apply Hs..|].
  - intros a b Ha Hb H1 H2. rewrite js_sort_perm in Ha, Hb. rewrite <-Hp in Hb.
    unfold machine in Hm. rewrite Forall_forall in Hm, Hv.
    apply positive_val_inj; [by apply Hm|by apply Hm|by apply Hv|by apply Hv|lia].
  - by rewrite !js_sort_perm.
Qed.

Lemma filter_valid l : Forall (λ p, valid_price p = true) (filter (λ p, valid_price p = true) l).
Proof. apply Forall_forall. by intros p [? _]%list_elem_of_filter. Qed.

Lemma machine_filter P `{!∀ x, Decision (P x)} l : machine l → machine (filter P l).
Proof. unfold machine. rewrite !Forall_forall. intros Hl p [_ Hp]%list_elem_of_filter. by apply Hl. Qed.

(** [filterOutliers] returns prices of its input, all positive and none NaN; given three
    valid ones it returns at least two; and it does not depend on the order of the
    prices. *)
Theorem filterOutliers_sound prices prices' multiplier :
  let out := filterOutliers prices multiplier in
  out ⊆+ prices ∧ Forall (λ p, positive_price p = true) out ∧
  ((3 ≤ length (filter (λ p, valid_price p = true) prices))%nat → (2 ≤ length out)%nat) ∧
  (machine prices → prices ≡ₚ prices' → filterOutliers prices' multiplier ≡ₚ out).
Proof.
  intros out. unfold out, filterOutliers.
  set (valid := filter (λ p, valid_price p = true) prices).
  assert (valid ⊆+ prices) as Hsub by (apply sublist_submseteq, sublist_filter).
  assert (∀ l, l ⊆+ valid → Forall (λ p, positive_price p = true) l) as Hpos.
  { intros l Hl. apply Forall_forall. intros p Hp.
    assert (p ∈ valid) as [Hv _]%list_elem_of_filter by by eapply elem_of_submseteq.
    unfold valid_price in Hv. by apply andb_true_iff in Hv as [? _]. }
  set (sorted := js_sort ascending valid).
  set (kept := filter (λ p, within_fences multiplier sorted p = true) sorted).
  assert (kept ⊆+ valid) as Hk.
  { etrans; [apply sublist_submseteq, sublist_filter|]. unfold sorted. by rewrite js_sort_perm. }
  split_and!.
  - case_decide; [apply sublist_submseteq, sublist_filter|]. case_decide; [done|].
    case_decide; [by etrans|done].
  - case_decide; [apply Forall_forall; by intros p [? _]%list_elem_of_filter|].
    case_decide; [by apply Hpos|]. case_decide; by apply Hpos.
  - intros H3. pose proof (submseteq_length _ _ Hsub).
    repeat case_decide; lia.
  - intros Hm Hp. set (valid' := filter (λ p, valid_price p = true) prices').
    assert (valid ≡ₚ valid') as Hv by by apply filter_perm.
    rewrite <-(Permutation_length Hp), <-(Permutation_length Hv).
    case_decide; [by apply filter_perm|]. case_decide; [done|].
    assert (js_sort ascending valid' = sorted) as ->.
    { symmetry. apply sorted_prices_unique; [by apply machine_filter|apply filter_valid|done]. }
    fold kept. case_decide; [done|by symmetry].
Qed.

(** ** The NGN fetcher *)

Lemma sublist_full {A} (l1 l2 : list A) :
  l1 `sublist_of` l2 → (length l2 ≤ length l1)%nat → l1 = l2.
Proof.
  induction 1 as [|x l1 l2 _ IH|x l1 l2 Hs _]; intros Hl; simpl in *; [done|f_equal; apply IH; lia|].
  apply sublist_length in Hs. lia.
Qed.

(** The NGN fetcher pushes at most one price per source, of which there are three: with
    fewer than three it throws, and with three it uses them all, whatever the outlier
    filter says, so no outlier is ever left out of the median. *)
Theorem ngn_needs_every_source prices :
  (length prices ≤ 3)%nat →
  match ngn_prices_to_use prices with
  | Ok used => used = prices ∧ length prices = 3%nat
  | Throw _ => (length prices < 3)%nat
  end.
Proof.
  intros Hl. unfold ngn_prices_to_use. destruct prices as [|p prices]; [simpl; lia|].
  set (all := p :: prices) in *. set (kept := filter (λ p, includes_num _ p = true) all).
  assert (kept `sublist_of` all) as Hs by apply sublist_filter.
  destruct (decide (3 ≤ length kept)%nat) as [H3|H3].
  - pose proof (sublist_length _ _ Hs). case_decide; [lia|].
    split; [|lia]. apply sublist_full; [done|lia].
  - case_decide; [lia|]. split; [done|lia].
Qed.

(** ** The z-score filter *)

(** Every window stays within ten prices and holds only prices that were passed in. *)
Theorem windows_bounded asset prices (windows : price_windows) :
  map_Forall (λ _ w, (length w ≤ maxWindowSize)%nat) windows →
  map_Forall (λ _ w, (length w ≤ maxWindowSize)%nat) (processPrices asset prices windows).2 ∧
  ∀ p, p ∈ default [] ((processPrices asset prices windows).2 !! asset) →
       p ∈ default [] (windows !! asset) ∨ p ∈ prices.
Proof.
  revert windows; induction prices as [|p prices IH]; intros windows Hw; simpl.
  { split; [done|]. auto. }
  assert (map_Forall (λ _ w, (length w ≤ maxWindowSize)%nat) (processPrice asset p windows).2 ∧
    ∀ x, x ∈ default [] ((processPrice asset p windows).2 !! asset) →
         x ∈ default [] (windows !! asset) ∨ x = p) as [H1 H2].
  { assert (length (default [] (windows !! asset)) ≤ maxWindowSize)%nat as Hl.
    { destruct (windows !! asset) as [w|] eqn:E; simpl; [by apply (Hw _ _ E)|unfold maxWindowSize; lia]. }
    unfold processPrice. destruct (accepts _ p); cbn [snd].
    - split; [apply map_Forall_insert_2; [by apply (window_push_length maxWindowSize)|done]|].
      intros x. rewrite lookup_insert_eq. simpl. unfold updateWindow, window_push.
      assert (∀ l : list number, x ∈ tail l → x ∈ l) as Ht by (intros [|y l]; [done|by right]).
      case_decide; [intros Hx%Ht; revert Hx|]; rewrite elem_of_app, list_elem_of_singleton; auto.
    - split; [by apply map_Forall_insert_2|]. intros x. rewrite lookup_insert_eq. by left. }
  destruct (processPrice asset p windows) as [b w1]. simpl in *.
  destruct (IH w1 H1) as [H3 H4]. destruct (processPrices asset prices w1) as [bs w2]. simpl in *.
  split; [exact H3|]. intros x [Hx|Hx]%H4; [|right; by right].
  destruct (H2 x Hx) as [?| ->]; [by left|right; by left].
Qed.

Lemma processPrice_rejects asset p windows :
  accepts (default [] (windows !! asset)) p = false → is_Some (windows !! asset) →
  processPrice asset p windows = (false, windows).
Proof.
  intros Ha [w Hw]. unfold processPrice. rewrite Ha, Hw. simpl. by rewrite insert_id.
Qed.

(** A flat window is final. Once the window of an asset has at least two prices and a
    standard deviation of zero, every price other than its mean is rejected and changes
    nothing, however many come and however the market has moved. *)
Theorem flat_window_frozen asset window prices (windows : price_windows) :
  windows !! asset = Some window → (2 ≤ length window)%nat →
  num_eqb (calculateStdDev window (calculateMean window)) num_zero = true →
  Forall (λ p, num_eqb p (calculateMean window) = false) prices →
  processPrices asset prices windows = (replicate (length prices) false, windows).
Proof.
  intros Hw Hl Hs Hp. induction Hp as [|p prices Hp _ IH]; [done|]. cbn [processPrices].
  rewrite processPrice_rejects, IH; [done| |by eexists].
  rewrite Hw. unfold accepts. cbn [default from_option id]. rewrite decide_False by lia. by rewrite Hs.
Qed.

(** ** NaN in a window *)

Lemma num_add_nan_r a : num_add a S754_nan = S754_nan.
Proof. by destruct a. Qed.

Lemma num_sum_nan l : S754_nan ∈ l → num_sum l = S754_nan.
Proof.
  unfold num_sum. generalize num_zero. induction l as [|x l IH]; intros z; [by intros []%elem_of_nil|].
  simpl. intros [<-|Hl]%elem_of_cons; [|by apply IH].
  rewrite num_add_nan_r. clear. induction l as [|y l IH]; [done|]. exact IH.
Qed.

Lemma calculateMean_nan l : S754_nan ∈ l → calculateMean l = S754_nan.
Proof. intros Hl. unfold calculateMean. by rewrite num_sum_nan. Qed.

(** A NaN opens the filter: while a window holds one, every price is accepted, however
    far from the others. *)
Theorem nan_accepts_everything asset window price (windows : price_windows) :
  windows !! asset = Some window → S754_nan ∈ window →
  processPrice asset price windows = (true, <[asset := updateWindow window price]> windows).
Proof.
  intros Hw Hn. unfold processPrice. rewrite Hw. cbn [default from_option id].
  replace (accepts window price) with true; [done|]. symmetry. unfold accepts. case_decide; [done|].
  rewrite (calculateMean_nan window) by done.
  assert (calculateStdDev window S754_nan = S754_nan) as ->.
  { unfold calculateStdDev. rewrite calculateMean_nan; [done|].
    apply list_elem_of_fmap. exists S754_nan. done. }
  by destruct price.
Qed.

(** ** The cross-pair check *)

Lemma num_sub_self x :
  num_sub x x = num_zero ∨ num_sub x x = S754_nan.
Proof.
  unfold num_sub, SFsub. destruct x as [[]|[]| |s m e]; [by left|by left|by right|by right|by right|].
  left. cbv zeta. rewrite Z.sub_diag. done.
Qed.

(** The cross-pair check never flags anything: the market rate service computes its
    reference as the very quotient it is compared with. Whatever the rates, also
    infinite, negative or NaN ones, a result is never flagged. *)
Theorem cross_pair_never_flags ngnXlmRate xlmUsd now :
  match runCrossPairCheck ngnXlmRate xlmUsd now with
  | Some result => flagged result = false
  | None => num_leb xlmUsd num_zero = true
  end.
Proof.
  unfold runCrossPairCheck. destruct (num_leb xlmUsd num_zero) eqn:Ex; [done|].
  unfold checkCrossPairConsistency, calculateDeviationPercent, calculateImpliedNgnUsd. rewrite Ex.
  destruct (num_leb ngnXlmRate num_zero); simpl; [done|].
  set (r := num_div ngnXlmRate xlmUsd). destruct (num_leb r num_zero); [done|]. simpl.
  destruct (num_sub_self r) as [->| ->].
  - destruct r as [s|s| |s m e]; try done; by destruct s.
  - by destruct r.
Qed.

(** ** Witnesses *)

Definition n750 : number := num_of_Z 750.
Definition n751 : number := num_of_Z 751.

Lemma ngn_needs_every_source_witness :
  match ngn_prices_to_use [n750; n751] with
  | Ok used => used = [n750; n751] ∧ length [n750; n751] = 3%nat
  | Throw _ => (length [n750; n751] < 3)%nat
  end.
Proof. assert (length [n750; n751] ≤ 3)%nat as L by (simpl; lia). exact (ngn_needs_every_source _ L). Defined.

Lemma windows_bounded_witness :
  map_Forall (λ _ w, (length w ≤ maxWindowSize)%nat) (processPrices "NGN" (replicate 12 n750) ∅).2.
Proof.
  exact (proj1 (windows_bounded "NGN" (replicate 12 n750) ∅ (map_Forall_empty (M:=gmap string) _))).
Defined.

(** Two equal prices, then a move of less than a seventh of a percent. *)
Definition flat_windows : price_windows := {["NGN" := [n750; n750]]}.
Lemma flat_window_frozen_witness :
  processPrices "NGN" (replicate 20 n751) flat_windows = (replicate 20 false, flat_windows).
Proof.
  assert (num_eqb (calculateStdDev [n750; n750] (calculateMean [n750; n750])) num_zero = true) as Z0
    by (by vm_compute).
  assert (Forall (λ p, num_eqb p (calculateMean [n750; n750]) = false) (replicate 20 n751)) as F
    by (apply Forall_replicate; by vm_compute).
  exact (flat_window_frozen "NGN" [n750; n750] (replicate 20 n751) flat_windows
    (lookup_singleton_eq (M:=gmap string) _ _) (le_n 2) Z0 F).
Defined.

Lemma nan_accepts_everything_witness :
  processPrice "NGN" (num_of_Z 1000000) {["NGN" := [n750; n751; S754_nan]]}
  = (true, <["NGN" := updateWindow [n750; n751; S754_nan] (num_of_Z 1000000)]>
             {["NGN" := [n750; n751; S754_nan]]}).
Proof.
  assert (S754_nan ∈ [n750; n751; S754_nan]) as E by (right; right; by left).
  exact (nan_accepts_everything "NGN" [n750; n751; S754_nan] (num_of_Z 1000000)
    {["NGN" := [n750; n751; S754_nan]]} (lookup_singleton_eq (M:=gmap string) _ _) E).
Defined.
