(* ===== verification/Serialization.v ===== *)
(** * Parsing helpers ([serialization/helpers.ts], [utils/stroops.ts]) and UTC dates
    ([utils/timeUtils.ts])

    Numbers out of values of unknown shape, one by one and in batches, base64 text, stroops,
    and the normalisation of dates. Proved: a batch agrees with the single parser on every
    number, text and null, and not on an object that converts to a number, which it drops;
    what the parsers return; and the normalisation of a date is the identity except on the
    first century of the calendar. *)

From Stdlib Require Import SpecFloat Ascii.
From S2P Require Import Prelude JsNumber JsString JsDate JsDecimal JsValue.

Local Open Scope Z_scope.

(** ** Numbers *)

(** [Number.isFinite(x) ? x : null] *)
Definition finite_or_null (x : number) : option number := if isFinite x then Some x else None.

(** [x > 0 && Number.isFinite(x) ? x : null] *)
Definition positive_or_null (x : number) : option number :=
  if num_ltb num_zero x && isFinite x then Some x else None.

Definition is_nullish (v : jsval) : bool := match v with JUndef | JNull => true | _ => false end.

(** [Number.parseFloat(v)] converts its argument to text. *)
Definition parseFloat_val (v : jsval) : number := parseFloat (String_val v).

Definition parseToNumber (v : jsval) : option number :=
  match v with
  | JNum n => finite_or_null n
  | JUndef | JNull => None
  | _ => finite_or_null (parseFloat_val v)
  end.

Definition parseToPositiveNumber (v : jsval) : option number :=
  match v with
  | JNum n => positive_or_null n
  | JUndef | JNull => None
  | _ => positive_or_null (parseFloat_val v)
  end.

Definition max_safe : number := num_of_Z (2 ^ 53 - 1).

Definition isSafeInteger (x : number) : bool := isInteger x && num_leb (SFabs x) max_safe.

(** [Number.parseInt(s, 10)] as a number: the sign of a zero is that of the text. *)
Definition parseInt_num (s : string) : number :=
  match parseInt10 s with
  | None => S754_nan
  | Some 0 => S754_zero (String.prefix "-" (trim_start s))
  | Some z => num_of_Z z
  end.

Definition parseToNonNegativeInt (v : jsval) : option number :=
  match v with
  | JNum n => if num_leb num_zero n && isSafeInteger n then Some n else None
  | JUndef | JNull => None
  | _ => let parsed := parseInt_num (String_val v) in
         if num_leb num_zero parsed && negb (isNaN parsed) then Some parsed else None
  end.

(** The body of the loop of [parseBatchNumbers]. *)
Definition batch_field (value : jsval) : option number :=
  match value with
  | JNum n => finite_or_null n
  | JUndef | JNull => None
  | JStr s => finite_or_null (parseFloat s)
  | _ => None
  end.

(** The result object, by property; its properties are those asked for. *)
Definition parseBatchNumbers (obj : string → jsval) (fields : list string) :
    gmap string (option number) :=
  foldl (λ result field, <[field := batch_field (obj field)]> result) ∅ fields.

(** [parsed[field]] *)
Definition parsed_field (parsed : gmap string (option number)) (field : string) : option number :=
  default None (parsed !! field).

Definition isFiniteNumber (v : jsval) : bool := match v with JNum n => isFinite n | _ => false end.
Definition isPositiveNumber (v : jsval) : bool :=
  match v with JNum n => num_ltb num_zero n && isFinite n | _ => false end.

(** [obj.hasOwnProperty(key)] of a plain object. *)
Definition getNumber (fields : list (string * jsval)) (key : string) : option number :=
  if decide (key ∈ fields.*1) then parseToNumber (field fields key) else None.
Definition getPositiveNumber (fields : list (string * jsval)) (key : string) : option number :=
  if decide (key ∈ fields.*1) then parseToPositiveNumber (field fields key) else None.

(** ** Base64 *)

Definition base64_value (c : ascii) : option Z :=
  let n := Z.of_nat (nat_of_ascii c) in
  if (65 <=? n) && (n <=? 90) then Some (n - 65)
  else if (97 <=? n) && (n <=? 122) then Some (n - 71)
  else if (48 <=? n) && (n <=? 57) then Some (n + 4)
  else if n =? 43 then Some 62 else if n =? 47 then Some 63 else None.

Definition base64_space (c : ascii) : bool :=
  includes [9; 10; 12; 13; 32]%nat (nat_of_ascii c).

(** Every fourth character completes three bytes; [acc] holds the [bits] not yet written. *)
Fixpoint base64_bytes (l : list Z) (acc bits : Z) : list Z :=
  match l with
  | [] => []
  | v :: l' =>
      let acc := acc * 64 + v in let bits := bits + 6 in
      if 8 <=? bits then acc / 2 ^ (bits - 8) :: base64_bytes l' (acc mod 2 ^ (bits - 8)) (bits - 8)
      else base64_bytes l' acc bits
  end.

(** The padding is removed only when the length is a multiple of four. *)
Definition strip_padding (l : list ascii) : list ascii :=
  if decide (length l mod 4 = 0)%nat then
    match reverse l with
    | "="%char :: "="%char :: r => reverse r
    | "="%char :: r => reverse r
    | _ => l
    end
  else l.

(** [atob(text)], as a string of characters below 256; [None] is the exception. *)
Definition atob (text : string) : option string :=
  let l := strip_padding (filter (λ c, base64_space c = false) (String.list_ascii_of_string text)) in
  if decide (length l mod 4 = 1)%nat then None
  else (λ vs, String.string_of_list_ascii (map (λ b, ascii_of_nat (Z.to_nat b)) (base64_bytes vs 0 0)))
       <$> mapM base64_value l.

Definition parseBase64ToNumber (base64 : option string) : option number :=
  if negb (truthy_opt base64) then None
  else match atob (default "" base64) with
       | Some valueStr => finite_or_null (parseFloat valueStr)
       | None => None
       end.

Definition parseBase64ToPositiveNumber (base64 : option string) : option number :=
  if negb (truthy_opt base64) then None
  else match atob (default "" base64) with
       | Some valueStr => positive_or_null (parseFloat valueStr)
       | None => None
       end.

Example atob_price : atob "MS41" = Some "1.5".
Proof. reflexivity. Qed.
Example atob_padded : atob "MTA=" = Some "10" ∧ atob "MQ==" = Some "1" ∧ atob "MQ" = Some "1".
Proof. repeat split. Qed.
Example atob_rejects : atob "M" = None ∧ atob "MQ=" = None ∧ atob "M-_=" = None.
Proof. repeat split. Qed.

(** ** Stroops *)

(** [Math.round(x)]: the nearest integer, the larger of two, keeping the sign of a zero. *)
Definition math_round (x : number) : number :=
  match x with
  | S754_finite s m e =>
      if isInteger x then x
      else
        let den := 2 ^ (- e) in
        let r := (2 * cond_Zopp s (Zpos m) + den) / (2 * den) in
        if r =? 0 then S754_zero s else num_of_Z r
  | _ => x
  end.

Definition ten_million : number := num_of_Z 10000000.

Definition stroopsFromNumber (price : number) : number := math_round (num_mul price ten_million).
Definition stroopsFromString (price : string) : number :=
  math_round (num_mul (parseFloat price) ten_million).
Definition stroopsFromBase64 (base64 : string) : option number :=
  (λ parsed, math_round (num_mul parsed ten_million)) <$> parseBase64ToNumber (Some base64).

(** [toStroops]: the argument is a number or a text. *)
Definition toStroops (price : number + string) : number :=
  match price with inr s => stroopsFromString s | inl n => stroopsFromNumber n end.

Example stroops_of_text : stroopsFromBase64 "MS41" = Some (num_of_Z 15000000).
Proof. vm_compute. reflexivity. Qed.

(** ** Dates *)

(** The day of a civil date counted from 1970-01-01. *)
Definition days_of_civil (y m d : Z) : Z :=
  let y := if m <=? 2 then y - 1 else y in
  let era := y / 400 in
  let yoe := y - era * 400 in
  let doy := (153 * (if 2 <? m then m - 3 else m + 9) + 2) / 5 + d - 1 in
  let doe := yoe * 365 + yoe / 4 - yoe / 100 + doy in
  era * 146097 + doe - 719468.

(** A time value in range, [None] being an invalid date. *)
Definition max_time : Z := 8640000000000000.
Definition TimeClip (t : Z) : option Z := if Z.abs t <=? max_time then Some t else None.

(** [Date.UTC(y, m, d, ...)] of a date already split, the time of day in milliseconds: a year
    below 100 is one of the twentieth century. *)
Definition Date_UTC (y m d ms : Z) : option Z :=
  let y := if (0 <=? y) && (y <=? 99) then 1900 + y else y in
  TimeClip (days_of_civil y m d * 86400000 + ms).

(** What [new Date] is given: a date, a number of milliseconds or a text. *)
Inductive date_arg := ADate (t : option Z) | ANumber (n : number) | AText (s : string).

Section dates.
(** [Date.parse] *)
Context (Date_parse : string → option Z).

Definition new_Date_of (value : date_arg) : option Z :=
  match value with
  | ADate t => t
  | ANumber n => if isFinite n then TimeClip (trunc_Z n) else None
  | AText s => Date_parse s
  end.

(** [String(value)] in the message *)
Context (date_text : date_arg → string).

Definition hours (t : Z) : Z := t `mod` 86400000 / 3600000.
Definition minutes (t : Z) : Z := t `mod` 3600000 / 60000.
Definition seconds (t : Z) : Z := t `mod` 60000 / 1000.
Definition milliseconds (t : Z) : Z := t `mod` 1000.

Definition normalizeDateToUTC (value : date_arg) : exc (option Z) :=
  match new_Date_of value with
  | None => Throw (Error ("Invalid date value provided: " +:+ date_text value))
  | Some t =>
      let '(y, m, d) := civil_of_days (t / 86400000) in
      Ok (Date_UTC y m d (hours t * 3600000 + minutes t * 60000 + seconds t * 1000 + milliseconds t))
  end.

(** [date.toISOString()] throws on an invalid date. *)
Definition iso_or_throw (t : option Z) : exc string :=
  match t with Some t => Ok (toISOString t) | None => Throw (Error "Invalid time value") end.

Definition toUTCISOString (date : date_arg) : exc string :=
  normalized ← normalizeDateToUTC date; iso_or_throw normalized.

Definition parseUTCDate (isoString : string) : exc (option Z) :=
  match Date_parse isoString with
  | None => Throw (Error ("Invalid ISO date string: " +:+ isoString))
  | Some t => normalizeDateToUTC (ADate (Some t))
  end.

Definition nowUTC (now : Z) : exc (option Z) := normalizeDateToUTC (ADate (Some now)).

(** A value that is not a date at all is [None]. *)
Definition isValidUTCDate (date : option (option Z)) : bool :=
  match date with
  | Some (Some t) => bool_decide (Date_parse (toISOString t) = Some t)
  | _ => false
  end.
End dates.

(** ** Lemmas *)

(** The year of the era and the day of the year, counted from March. *)
Lemma year_of_era doe :
  0 <= doe <= 146096 →
  let yoe := (doe - doe / 1460 + doe / 36524 - doe / 146096) / 365 in
  0 <= yoe <= 399 ∧ 0 <= doe - (365 * yoe + yoe / 4 - yoe / 100) <= 365.
Proof. intros H yoe. unfold yoe. Z.div_mod_to_equations; lia. Qed.

Lemma month_of_year doy :
  0 <= doy <= 365 →
  let mp := (5 * doy + 2) / 153 in 0 <= mp <= 11 ∧ 1 <= doy - (153 * mp + 2) / 5 + 1 <= 31.
Proof. intros H mp. unfold mp. Z.div_mod_to_equations; lia. Qed.

(** The split of a day into a date loses nothing. *)
Lemma days_of_civil_of_days days :
  let '(y, m, d) := civil_of_days days in
  1 <= m <= 12 ∧ 1 <= d <= 31 ∧ days_of_civil y m d = days.
Proof.
  unfold civil_of_days. set (z := days + 719468). set (era := z / 146097).
  set (doe := z - era * 146097).
  assert (0 <= doe <= 146096) as Hdoe.
  { unfold doe, era. pose proof (Z.mod_pos_bound z 146097). rewrite Z.mod_eq in * by lia. lia. }
  destruct (year_of_era doe Hdoe) as [Hy Hdoy].
  set (yoe := (doe - doe / 1460 + doe / 36524 - doe / 146096) / 365) in *.
  set (doy := doe - (365 * yoe + yoe / 4 - yoe / 100)) in *.
  destruct (month_of_year doy Hdoy) as [Hm Hd]. set (mp := (5 * doy + 2) / 153) in *.
  set (m := if mp <? 10 then mp + 3 else mp - 9).
  assert (1 <= m <= 12) as Hm' by (unfold m; destruct (Z.ltb_spec mp 10); lia).
  split_and!; [lia|lia|lia|lia|].
  assert ((if 2 <? m then m - 3 else m + 9) = mp) as Emp.
  { unfold m. destruct (Z.ltb_spec mp 10).
    - destruct (Z.ltb_spec 2 (mp + 3)); lia.
    - destruct (Z.ltb_spec 2 (mp - 9)); lia. }
  unfold days_of_civil. rewrite Emp. clearbody m.
  assert ((if m <=? 2 then yoe + era * 400 + (if m <=? 2 then 1 else 0) - 1
           else yoe + era * 400 + (if m <=? 2 then 1 else 0)) = yoe + era * 400) as Ey
    by (destruct (m <=? 2); lia).
  rewrite Ey. assert ((yoe + era * 400) / 400 = era) as -> by (rewrite Z.div_add, Z.div_small; lia).
  replace (yoe + era * 400 - era * 400) with yoe by lia.
  unfold doe in *. clearbody yoe. unfold doy. lia.
Qed.

(** A date of the first century is before the same date of the twentieth, which is a date
    close to the epoch. *)
Lemma twentieth_century y m d :
  0 <= y <= 99 → 1 <= m <= 12 → 1 <= d <= 31 →
  days_of_civil y m d < days_of_civil (1900 + y) m d < 100000 ∧ -100000 < days_of_civil (1900 + y) m d.
Proof.
  intros Hy Hm Hd. unfold days_of_civil.
  set (mp := if 2 <? m then m - 3 else m + 9). assert (0 <= mp <= 11) as Hmp
    by (unfold mp; destruct (Z.ltb_spec 2 m); lia). clearbody mp.
  destruct (m <=? 2); Z.div_mod_to_equations; lia.
Qed.

Lemma time_of_day t :
  hours t * 3600000 + minutes t * 60000 + seconds t * 1000 + milliseconds t = t `mod` 86400000.
Proof. unfold hours, minutes, seconds, milliseconds. Z.div_mod_to_equations; lia. Qed.

(** ** Batches *)

(** The values the type of the helpers allows. *)
Definition parseable (v : jsval) : bool :=
  match v with JNum _ | JStr _ | JUndef | JNull => true | _ => false end.

Lemma parsed_batch obj fields f :
  f ∈ fields → parsed_field (parseBatchNumbers obj fields) f = batch_field (obj f).
Proof.
  unfold parseBatchNumbers, parsed_field. generalize (∅ : gmap string (option number)).
  induction fields as [|g fields IH] using rev_ind; intros m; [by intros []%elem_of_nil|].
  rewrite foldl_app. simpl. destruct (decide (f = g)) as [->|Hne].
  - by rewrite lookup_insert_eq.
  - rewrite elem_of_app, list_elem_of_singleton. intros [Hf|?]; [|done].
    rewrite lookup_insert_ne by done. by apply IH.
Qed.

Lemma batch_field_agrees v : parseable v = true → batch_field v = parseToNumber v.
Proof. by destruct v. Qed.

(** [parseBatchNumbers] gives each field asked for what [parseToNumber] gives its value, when
    the value is a number, a text, null or undefined. On an object whose text is a number
    (a [Decimal], say) the two differ: the batch drops it, the single parser reads it. *)
Theorem batch_equals_single obj fields f :
  f ∈ fields →
  (parseable (obj f) = true → parsed_field (parseBatchNumbers obj fields) f = parseToNumber (obj f)) ∧
  (∀ n s, obj f = JOther n s →
     parsed_field (parseBatchNumbers obj fields) f = None ∧
     parseToNumber (obj f) = finite_or_null (parseFloat s)).
Proof.
  intros Hf. rewrite parsed_batch by done. split; [apply batch_field_agrees|].
  by intros n s ->.
Qed.

(** ** The parsers return what they say *)

Lemma finite_or_null_Some x n : finite_or_null x = Some n ↔ isFinite n = true ∧ x = n.
Proof. unfold finite_or_null. destruct (isFinite x) eqn:E; naive_solver congruence. Qed.
Lemma positive_or_null_Some x n :
  positive_or_null x = Some n ↔ (num_ltb num_zero n = true ∧ isFinite n = true) ∧ x = n.
Proof.
  unfold positive_or_null. rewrite <-andb_true_iff.
  destruct (num_ltb num_zero x && isFinite x) eqn:E; naive_solver congruence.
Qed.

(** [parseToNumber] returns finite numbers only and [parseToPositiveNumber] exactly those of
    them that are positive; what [isFiniteNumber] and [isPositiveNumber] accept is returned
    unchanged. *)
Theorem parsers_sound v n :
  (parseToNumber v = Some n → isFinite n = true) ∧
  (parseToPositiveNumber v = Some n ↔
     parseToNumber v = Some n ∧ isPositiveNumber (JNum n) = true) ∧
  (isFiniteNumber v = true → JNum <$> parseToNumber v = Some v) ∧
  (isPositiveNumber v = true → JNum <$> parseToPositiveNumber v = Some v).
Proof.
  unfold isPositiveNumber. rewrite andb_true_iff. split_and!.
  - destruct v; simpl; try done; by intros [? _]%finite_or_null_Some.
  - destruct v; cbn [parseToPositiveNumber parseToNumber];
      [split; [done|by intros [? _]]|split; [done|by intros [? _]]|..];
      rewrite finite_or_null_Some, positive_or_null_Some; tauto.
  - destruct v as [| | |x| | | |]; try done. simpl. unfold finite_or_null. by intros ->.
  - destruct v as [| | |x| | | |]; try done. simpl. unfold positive_or_null. by intros ->.
Qed.

(** The helper says it rejects what is not an integer; a text is cut at its first
    non-digit instead. *)
Example fraction_text_accepted :
  parseToNonNegativeInt (JStr "1.5") = Some num_one ∧
  parseToNonNegativeInt (JNum (num_div (num_of_Z 3) (num_of_Z 2))) = None.
Proof. split; vm_compute; reflexivity. Qed.

(** ** Dates *)

Section theorems.
Context (Date_parse : string → option Z) (date_text : date_arg → string).
Notation normalize := (normalizeDateToUTC Date_parse date_text).

(** The year of a time value. *)
Definition utc_year (t : Z) : Z := (civil_of_days (t / 86400000)).1.1.

(** [normalizeDateToUTC] throws on an invalid date, and otherwise returns the instant it was
    given, unless that lies in the years 0 to 99: a date of those is moved by nineteen
    centuries, to a different instant. *)
Theorem normalize_identity value :
  match new_Date_of Date_parse value with
  | None => ∃ e, normalize value = Throw e
  | Some t => Z.abs t <= max_time →
      (¬ 0 <= utc_year t <= 99 → normalize value = Ok (Some t)) ∧
      (0 <= utc_year t <= 99 → ∃ t', normalize value = Ok (Some t') ∧ t < t')
  end.
Proof.
  unfold normalizeDateToUTC. destruct (new_Date_of Date_parse value) as [t|] eqn:E; [|by eexists].
  intros Ht. unfold utc_year. pose proof (days_of_civil_of_days (t / 86400000)) as Hd.
  destruct (civil_of_days (t / 86400000)) as [[y m] d]. cbn [fst].
  destruct Hd as (Hm & Hdd & Hd). rewrite time_of_day. unfold Date_UTC.
  assert (t / 86400000 * 86400000 + t `mod` 86400000 = t) as Et
    by (pose proof (Z.div_mod t 86400000); lia).
  split; intros Hy.
  - replace ((0 <=? y) && (y <=? 99)) with false by (symmetry; apply andb_false_iff; lia).
    rewrite Hd, Et. unfold TimeClip. by rewrite (proj2 (Z.leb_le _ _)).
  - replace ((0 <=? y) && (y <=? 99)) with true by (symmetry; apply andb_true_iff; lia).
    pose proof (twentieth_century y m d Hy Hm Hdd) as Hc. rewrite Hd in Hc.
    pose proof (Z.mod_pos_bound t 86400000).
    exists (days_of_civil (1900 + y) m d * 86400000 + t `mod` 86400000). split; [|lia].
    unfold TimeClip, max_time in *. rewrite (proj2 (Z.leb_le _ _)) by lia. done.
Qed.
End theorems.

(** ** Witnesses *)

Definition decimal_row (f : string) : jsval :=
  if decide (f = "rate") then JOther (num_of_Z 750) "750" else JStr "750".

Lemma batch_equals_single_witness :
  parsed_field (parseBatchNumbers decimal_row ["rate"; "baseline_rate"]) "baseline_rate"
    = Some (num_of_Z 750) ∧
  parsed_field (parseBatchNumbers decimal_row ["rate"; "baseline_rate"]) "rate" = None ∧
  parseToNumber (decimal_row "rate") = Some (num_of_Z 750).
Proof.
  assert ("rate" ∈ ["rate"; "baseline_rate"]) as H1 by (apply list_elem_of_here).
  assert ("baseline_rate" ∈ ["rate"; "baseline_rate"]) as H2
    by (apply list_elem_of_further, list_elem_of_here).
  pose proof (batch_equals_single decimal_row _ _ H1) as [_ W1].
  pose proof (batch_equals_single decimal_row _ _ H2) as [W2 _].
  destruct (W1 (num_of_Z 750) "750" eq_refl) as [W3 W4].
  split; [rewrite (W2 eq_refl); vm_compute; reflexivity|split; [exact W3|]].
  rewrite W4. vm_compute. reflexivity.
Defined.
