(* ===== verification/Webhook.v ===== *)
(** * Operator webhooks ([services/webhook.ts], [services/webhookRetryPublisher.ts])

    The messages to Slack or Discord for errors, manual reviews and priority alerts, their
    delivery, and the hand-over of a failed delivery to the retry queue over a broker
    channel that is opened once. The gas alerts, which have the same shape, are left out.
    Proved: a delivery completes whatever happens, publishes nothing after a success or a
    permanent failure, and once after a transient one unless publishing fails; and a
    broker that was unreachable once is never tried again. *)

From stdpp Require Import pretty.
From S2P Require Import Prelude JsNumber JsString JsDate JsDecimal JsValue Serialization.

Local Open Scope Z_scope.

Record ErrorDetails := mkErrorDetails {
  ed_errorType : string;
  ed_errorMessage : string;
  ed_attempts : nat;
  ed_service : string;
  ed_pricePair : string;
  ed_timestamp : option Z;
}.

Record ReviewDetails := mkReviewDetails {
  rd_reviewId : Z;
  rd_currency : string;
  rd_rate : number;
  rd_previousRate : number;
  rd_changePercent : number;
  rd_source : string;
  rd_timestamp : option Z;
  rd_reason : string;
}.

Record PriorityAlertDetails := mkPriority {
  pa_currency : string;
  pa_rate : number;
  pa_zScore : number;
  pa_mean : number;
  pa_stdDev : number;
  pa_timestamp : option Z;
}.

(** ** Messages *)

(** A field of a Discord embed, of a Slack section, and the blocks of a Slack message. *)
Definition embed_field (name value : string) (inline : bool) : jsval :=
  JObj ([("name", JStr name); ("value", JStr value)] ++ if inline then [("inline", JBool true)] else []).
Definition embed (title : string) (color : Z) (fields : list jsval) : jsval :=
  JObj [("embeds", JArr [JObj [("title", JStr title); ("color", JNum (num_of_Z color));
                               ("fields", JArr fields)]])].
Definition mrkdwn (text : string) : jsval := JObj [("type", JStr "mrkdwn"); ("text", JStr text)].
Definition header_block (text : string) : jsval :=
  JObj [("type", JStr "header"); ("text", JObj [("type", JStr "plain_text"); ("text", JStr text)])].
Definition fields_block (fields : list jsval) : jsval :=
  JObj [("type", JStr "section"); ("fields", JArr fields)].
Definition text_block (text : string) : jsval :=
  JObj [("type", JStr "section"); ("text", mrkdwn text)].
Definition context_block (text : string) : jsval :=
  JObj [("type", JStr "context"); ("elements", JArr [mrkdwn text])].

Definition lf : string := String (Ascii.ascii_of_nat 10) "".
(** [`*label*\nvalue`] *)
Definition labelled (label value : string) : jsval := mrkdwn ("*" +:+ label +:+ "*" +:+ lf +:+ value).

Definition formatErrorMessage (platform : string) (e : ErrorDetails) : exc jsval :=
  time ← iso_or_throw (ed_timestamp e);
  let short := slice_to 500 (ed_errorMessage e) in
  Ok (if decide (platform = "discord") then
        embed "Price Fetch Error" 16711680
          [embed_field "Service" (ed_service e) true; embed_field "Price Pair" (ed_pricePair e) true;
           embed_field "Failed Attempts" (pretty (ed_attempts e)) true;
           embed_field "Error" short false; embed_field "Time" time false]
      else
        JObj [("blocks", JArr
          [header_block "Price Fetch Error";
           fields_block [labelled "Service:" (ed_service e); labelled "Price Pair:" (ed_pricePair e);
                         labelled "Failed Attempts:" (pretty (ed_attempts e) +:+ "/3");
                         labelled "Time:" time];
           text_block ("*Error:*" +:+ lf +:+ "```" +:+ short +:+ "```")])]).

Definition formatReviewMessage (platform : string) (r : ReviewDetails) : exc jsval :=
  let change := toFixed (rd_changePercent r) 2 +:+ "%" in
  time ← iso_or_throw (rd_timestamp r);
  Ok (if decide (platform = "discord") then
        embed "Manual Price Review Required" 16753920
          [embed_field "Review ID" (pretty (rd_reviewId r)) true;
           embed_field "Currency" (rd_currency r) true; embed_field "Source" (rd_source r) true;
           embed_field "Current Rate" (String_num (rd_rate r)) true;
           embed_field "Previous Safe Rate" (String_num (rd_previousRate r)) true;
           embed_field "Change" change true;
           embed_field "Reason" (slice_to 500 (rd_reason r)) false; embed_field "Time" time false]
      else
        JObj [("blocks", JArr
          [header_block "Manual Price Review Required";
           fields_block [labelled "Review ID:" (pretty (rd_reviewId r));
                         labelled "Currency:" (rd_currency r); labelled "Source:" (rd_source r);
                         labelled "Current Rate:" (String_num (rd_rate r));
                         labelled "Previous Safe Rate:" (String_num (rd_previousRate r));
                         labelled "Change:" change];
           text_block ("*Reason:*" +:+ lf +:+ rd_reason r);
           context_block ("Detected at " +:+ time)])]).

Definition formatPriorityAlert (platform : string) (a : PriorityAlertDetails) : exc jsval :=
  time ← iso_or_throw (pa_timestamp a);
  let z := toFixed (pa_zScore a) 2 in
  let mean := toFixed (pa_mean a) 4 in
  let dev := toFixed (pa_stdDev a) 4 in
  Ok (if decide (platform = "discord") then
        embed "Priority Price Anomaly Alert" 16737792
          [embed_field "Currency" (pa_currency a) true; embed_field "Rate" (String_num (pa_rate a)) true;
           embed_field "Z-Score" z true; embed_field "Mean" mean true; embed_field "Std Dev" dev true;
           embed_field "Time" time true]
      else
        JObj [("blocks", JArr
          [header_block "Priority Price Anomaly Alert";
           fields_block [labelled "Currency:" (pa_currency a); labelled "Rate:" (String_num (pa_rate a));
                         labelled "Z-Score:" z; labelled "Mean:" mean; labelled "Std Dev:" dev;
                         labelled "Time:" time]])]).

(** ** Delivery *)

Class WebhookWorld (H : Type) := {
  (** [httpClient.post(url, message)]: the status of the response *)
  post_message : string → jsval → M H Z;
  (** connect to the broker, open a channel, declare and bind the queue *)
  open_channel : M H unit;
  (** [channel.publish(exchange, key, content)] on the open channel *)
  channel_publish : string → M H unit;
  randomUUID : M H string;
  (** the SHA-256 of a text, in hexadecimal *)
  sha256_hex : string → string;
  (** What the channel has accepted so far; nothing else publishes, and a publication that
      throws has not been accepted. *)
  published : H → list string;
  post_keeps u m h : published (final (post_message u m) h) = published h;
  open_keeps h : published (final open_channel h) = published h;
  uuid_keeps h : published (final randomUUID h) = published h;
  publish_ok c h h' : channel_publish c h = (Ok tt, h') → published h' = published h ++ [c];
  publish_err c h e h' : channel_publish c h = (Throw e, h') → published h' = published h;
}.

Record WebhookConfig := mkWebhookConfig { wc_webhookUrl : option string; wc_platform : string }.

(** The constructor, from the environment. *)
Definition webhook_constructor (SLACK_WEBHOOK_URL DISCORD_WEBHOOK_URL NOTIFICATION_PLATFORM : option string) :
    WebhookConfig := {|
  wc_webhookUrl := if truthy_opt SLACK_WEBHOOK_URL then SLACK_WEBHOOK_URL else DISCORD_WEBHOOK_URL;
  wc_platform := if truthy_opt NOTIFICATION_PLATFORM then default "" NOTIFICATION_PLATFORM else "slack";
|}.

(** The module's promise of a channel, [None] before the first publication, and the rest. *)
Record publisher (H : Type) := mkPublisher { pb_channel : option (exc unit); pb_out : H }.
Arguments mkPublisher {H} _ _.
Arguments pb_channel {H} _.
Arguments pb_out {H} _.

Section delivery.
Context {H : Type} `{!WebhookWorld H} (config : WebhookConfig).
Notation run := (M (publisher H)).

Definition pub_out {A} (c : M H A) : run A := λ w,
  let '(r, h) := c (pb_out w) in (r, mkPublisher (pb_channel w) h).

(** The promise is kept whatever becomes of it. *)
Definition getChannel : run unit := λ w,
  match pb_channel w with
  | Some r => (r, w)
  | None => let '(r, h) := open_channel (pb_out w) in (r, mkPublisher (Some r) h)
  end.

(** The handlers of [close] and [error], registered on a connection that was opened. *)
Definition on_connection_lost (w : publisher H) : publisher H :=
  match pb_channel w with
  | Some (Ok _) => mkPublisher None (pb_out w)
  | _ => w
  end.

Definition retry_message (endpointUrl event_id : string) (payload : jsval) : string :=
  default "" (JSON_stringify (JObj
    [("endpoint_id", JStr (slice_to 32 (sha256_hex endpointUrl))); ("endpoint_url", JStr endpointUrl);
     ("event_id", JStr event_id); ("payload", payload); ("attempt", JNum num_zero)])).

Definition publishWebhookRetry (endpointUrl : string) (payload : jsval) : run unit :=
  event_id <- pub_out randomUUID ;;
  getChannel ;;;
  pub_out (channel_publish (retry_message endpointUrl event_id payload)).

Definition transient_status (status : Z) : bool :=
  includes [408; 425; 429; 500; 502; 503; 504] status.

(** [error.response?.status] *)
Definition error_status (error : js_error) : option Z :=
  match err_axios error with Some (Some status) => Some status | _ => None end.

Definition postMessage (message : jsval) : run unit :=
  if negb (truthy_opt (wc_webhookUrl config)) then ret tt
  else
    let webhookUrl := default "" (wc_webhookUrl config) in
    try_catch
      (status <- pub_out (post_message webhookUrl message) ;;
       if (200 <=? status) && (status <? 300) then ret tt
       else if negb (transient_status status) then ret tt
       else publishWebhookRetry webhookUrl message)
      (λ error,
       let permanent := match error_status error with
                        | Some status => negb (status =? 0) && negb (transient_status status)
                        | None => false
                        end in
       if permanent then ret tt
       else try_catch (publishWebhookRetry webhookUrl message) (λ _, ret tt)).

(** Format and post, when there is a webhook. *)
Definition send (format : exc jsval) : run unit :=
  if negb (truthy_opt (wc_webhookUrl config)) then ret tt
  else message <- lift_exc format ;; postMessage message.

Definition sendErrorNotification (e : ErrorDetails) : run unit :=
  send (formatErrorMessage (wc_platform config) e).
Definition sendManualReviewNotification (r : ReviewDetails) : run unit :=
  send (formatReviewMessage (wc_platform config) r).
Definition sendPriorityAlert (a : PriorityAlertDetails) : run unit :=
  send (formatPriorityAlert (wc_platform config) a).
End delivery.

(** ** Lemmas *)

Section lemmas.
Context {H : Type} `{!WebhookWorld H} (config : WebhookConfig).
Implicit Types w : publisher H.

(** What reached the channel. *)
Definition queued w : list string := published (pb_out w).

Lemma wp_pub_out {A} (c : M H A) Q E w :
  (∀ a h, c (pb_out w) = (Ok a, h) → Q a (mkPublisher (pb_channel w) h)) →
  (∀ e h, c (pb_out w) = (Throw e, h) → E e (mkPublisher (pb_channel w) h)) →
  wp (pub_out c) Q E w.
Proof. unfold wp, pub_out. destruct (c (pb_out w)) as [[a|e] h]; eauto. Qed.

Lemma keeps_of {A} (c : M H A) w r h :
  published (final c (pb_out w)) = published (pb_out w) → c (pb_out w) = (r, h) →
  published h = queued w.
Proof. unfold final, queued. intros <- ->. done. Qed.

Lemma wp_getChannel w (Q : publisher H → Prop) (E : js_error → publisher H → Prop) :
  (∀ w', queued w' = queued w → pb_channel w' = Some (Ok tt) → Q w') →
  (∀ e w', queued w' = queued w → pb_channel w' = Some (Throw e) → E e w') →
  wp getChannel (λ _, Q) E w.
Proof.
  intros HQ HE. unfold wp, getChannel. destruct (pb_channel w) as [[[]|e]|] eqn:Ec.
  - by apply HQ.
  - by apply HE.
  - destruct (open_channel (pb_out w)) as [[[]|e] h] eqn:Eo.
    + apply HQ; [|done]. by apply (keeps_of open_channel w (Ok tt)); [apply open_keeps|].
    + apply HE; [|done]. by apply (keeps_of open_channel w (Throw e)); [apply open_keeps|].
Qed.

(** A publication adds the message exactly when it completes, and completes only on an
    open channel. *)
Lemma wp_publish url m w (Q : unit → publisher H → Prop) (E : js_error → publisher H → Prop) :
  (∀ id w', queued w' = queued w ++ [retry_message url id m] →
     pb_channel w' = Some (Ok tt) → Q tt w') →
  (∀ e w', queued w' = queued w → is_Some (pb_channel w') ∨ pb_channel w' = pb_channel w → E e w') →
  wp (publishWebhookRetry url m) Q E w.
Proof.
  intros HQ HE. unfold publishWebhookRetry. apply wp_bind, wp_pub_out.
  - intros id h Eu. set (w1 := mkPublisher (pb_channel w) h).
    assert (queued w1 = queued w) as Eq1.
    { apply (keeps_of randomUUID w (Ok id)); [apply uuid_keeps|done]. }
    apply wp_bind, wp_getChannel.
    + intros w2 Eq2 Ec2. apply wp_pub_out.
      * intros [] h2 Ep%publish_ok. apply (HQ id); [|done]. unfold queued in *; simpl. congruence.
      * intros e h2 Ep%publish_err. apply HE; [unfold queued in *; simpl; congruence|].
        left. simpl. rewrite Ec2. by eexists.
    + intros e w2 Eq2 Ec2. apply HE; [congruence|]. left. rewrite Ec2. by eexists.
  - intros e h Eu. apply HE; [|by right].
    apply (keeps_of randomUUID w (Throw e)); [apply uuid_keeps|done].
Qed.

(** Does this answer of the endpoint end the delivery? *)
Definition final_answer (r : exc Z) : bool :=
  match r with
  | Ok status => (200 <=? status) && (status <? 300) || negb (transient_status status)
  | Throw error => match error_status error with
                   | Some status => negb (status =? 0) && negb (transient_status status)
                   | None => false
                   end
  end.

(** What a delivery may have queued, given the answer of the endpoint. *)
Definition delivered (answered : bool) url m w w' : Prop :=
  (queued w' = queued w ∨ ∃ id, queued w' = queued w ++ [retry_message url id m]) ∧
  (answered = true → queued w' = queued w).

Lemma delivered_same b url m w w' : queued w' = queued w → delivered b url m w w'.
Proof. intros E. split; [by left|done]. Qed.

Lemma delivered_one url m id w w' :
  queued w' = queued w ++ [retry_message url id m] → delivered false url m w w'.
Proof. intros E. split; [right; by exists id|done]. Qed.

Lemma wp_retry url m w w1 :
  queued w1 = queued w →
  wp (try_catch (publishWebhookRetry url m) (λ _, ret tt))
    (λ _, delivered false url m w) (λ _ _, False) w1.
Proof.
  intros E1. apply wp_try_catch, wp_publish.
  - intros id w2 E2 _. apply (delivered_one _ _ id). congruence.
  - intros e w2 E2 _. apply wp_ret, delivered_same. congruence.
Qed.

Lemma wp_postMessage url m w :
  wc_webhookUrl config = Some url → url ≠ "" →
  wp (postMessage config m)
    (λ _, delivered (final_answer (outcome (post_message url m) (pb_out w))) url m w)
    (λ _ _, False) w.
Proof.
  intros Eu Hne. unfold postMessage. rewrite Eu.
  assert (truthy_opt (Some url) = true) as -> by (by apply bool_decide_true).
  cbn [negb default from_option id].
  assert (∀ r h, post_message url m (pb_out w) = (r, h) →
    outcome (post_message url m) (pb_out w) = r ∧ published h = queued w) as Hpost.
  { intros r h Ep. split; [unfold outcome; by rewrite Ep|].
    by apply (keeps_of (post_message url m) w r); [apply post_keeps|]. }
  apply wp_try_catch, wp_bind, wp_pub_out.
  - intros status h [Eo E1]%Hpost. rewrite Eo. unfold final_answer.
    destruct ((200 <=? status) && (status <? 300)); [by apply wp_ret, delivered_same|].
    destruct (transient_status status); [|by apply wp_ret, delivered_same].
    apply wp_publish; [intros id w2 E2 _; apply (delivered_one _ _ id); unfold queued in *; simpl in *; congruence|].
    intros e w2 E2 _. assert (queued w2 = queued w) by (unfold queued in *; simpl in *; congruence).
    destruct (match error_status e with Some s => _ | None => _ end);
      [by apply wp_ret, delivered_same|by apply wp_retry].
  - intros e h [Eo E1]%Hpost. rewrite Eo. unfold final_answer.
    destruct (match error_status e with Some s => _ | None => _ end);
      [by apply wp_ret, delivered_same|by apply wp_retry].
Qed.

(** The channel's promise failed, and nothing was queued since [w]. *)
Definition channel_dead (e : js_error) w w' : Prop :=
  pb_channel w' = Some (Throw e) ∧ queued w' = queued w.

Lemma dead_pub_out {A} (c : M H A) e w :
  (∀ h, published (final c h) = published h) → preserves (channel_dead e w) (pub_out c).
Proof.
  intros Hc w1 [E1 E2]. apply wp_pub_out; intros ? h Ep; (split; [done|]);
    unfold queued in *; simpl; specialize (Hc (pb_out w1)); unfold final in Hc;
    rewrite Ep in Hc; simpl in Hc; congruence.
Qed.

Lemma dead_post e w url m : preserves (channel_dead e w) (pub_out (post_message url m)).
Proof. apply dead_pub_out, post_keeps. Qed.

Lemma wp_publish_dead e url m w w1 :
  channel_dead e w w1 →
  wp (publishWebhookRetry url m) (λ _ _, False) (λ _, channel_dead e w) w1.
Proof.
  intros Hd. unfold publishWebhookRetry. apply wp_bind.
  pose proof (dead_pub_out randomUUID e w uuid_keeps w1 Hd) as Hu.
  eapply wp_mono; [exact Hu| |done]. intros id w2 [E2 E3]. apply wp_bind. unfold wp, getChannel. by rewrite E2.
Qed.

Lemma dead_publish e w url m : preserves (channel_dead e w) (publishWebhookRetry url m).
Proof.
  intros w1 Hd. eapply wp_mono; [by apply wp_publish_dead|done|done].
Qed.
End lemmas.

(** ** Theorems *)

Section theorems.
Context {H : Type} `{!WebhookWorld H} (config : WebhookConfig).
Implicit Types w : publisher H.

(** A delivery always completes. It queues nothing when the endpoint accepts the message or
    refuses it for good, and otherwise hands exactly the message over, once, unless
    publishing fails: then nothing is queued, and the alert is gone. *)
Theorem delivery_queued_at_most_once url m w :
  wc_webhookUrl config = Some url → url ≠ "" →
  let '(r, w') := postMessage config m w in
  r = Ok tt ∧
  (queued w' = queued w ∨ ∃ id, queued w' = queued w ++ [retry_message url id m]) ∧
  (final_answer (outcome (post_message url m) (pb_out w)) = true → queued w' = queued w).
Proof.
  intros Eu Hne. pose proof (wp_postMessage config url m w Eu Hne) as Hw. unfold wp in Hw.
  by destruct (postMessage config m w) as [[[]|e] w'].
Qed.

(** The notification of a review completes for every date that exists, whatever the endpoint
    and the broker do. *)
Lemma review_notification_completes r t w :
  rd_timestamp r = Some t → outcome (sendManualReviewNotification config r) w = Ok tt.
Proof.
  intros Et. unfold sendManualReviewNotification, send, outcome.
  destruct (wc_webhookUrl config) as [url|] eqn:Eu; [|done].
  destruct (decide (url = "")) as [->|Hne]; [done|].
  assert (truthy_opt (Some url) = true) as -> by (by apply bool_decide_true). cbn [negb].
  unfold formatReviewMessage, bind, lift_exc. rewrite Et. cbn [iso_or_throw mbind exc_bind].
  pose proof (wp_postMessage config url) as Hw. unfold wp in Hw.
  match goal with |- context [postMessage config ?m w] => specialize (Hw m w Eu Hne) end.
  by destruct (postMessage config _ w) as [[[]|e] w'].
Qed.

(** A broker that could not be reached once is never tried again: the failed promise of the
    channel is kept, no later connection event replaces it, and every later delivery that
    would need the queue is lost, even when the broker is back. *)
Theorem broker_failure_final e url m w :
  pb_channel w = Some (Throw e) →
  pb_channel (on_connection_lost w) = Some (Throw e) ∧
  outcome (publishWebhookRetry url m) w ≠ Ok tt ∧
  pb_channel (final (postMessage config m) w) = Some (Throw e) ∧
  queued (final (postMessage config m) w) = queued w.
Proof.
  intros Ec. assert (channel_dead e w w) as Hw by done.
  assert (preserves (channel_dead e w) (postMessage config m)) as Hd.
  { unfold postMessage. pose proof (dead_publish e w). pose proof (dead_post e w).
    destruct (negb _); preserve. }
  split_and!; [by unfold on_connection_lost; rewrite Ec| |by apply (preserves_final _ _ _ Hd)|
    by apply (preserves_final _ _ _ Hd)].
  intros Eo. pose proof (wp_publish_dead e url m w w Hw) as Hp. unfold wp, outcome in *.
  by destruct (publishWebhookRetry url m w) as [[[]|e'] w'].
Qed.
End theorems.

(** ** Witnesses *)

(** A world whose endpoint is overloaded and whose broker is down for the first attempts;
    the state counts the attempts left to fail, and lists what was published. *)
#[export] Instance flaky_world : WebhookWorld (nat * list string).
Proof.
  refine {|
    post_message _ _ := λ h, (Ok 503, h);
    open_channel := λ h, match h.1 with O => (Ok tt, h) | S n => (Throw (Error "connect ECONNREFUSED"), (n, h.2)) end;
    channel_publish c := λ h, (Ok tt, (h.1, h.2 ++ [c]));
    randomUUID := λ h, (Ok "6d1f", h);
    sha256_hex _ := "ab12";
    published h := h.2 |}.
  - done.
  - intros [[|n] l]; done.
  - done.
  - by intros c h h' [= <-].
  - done.
Defined.

Definition discord : WebhookConfig := mkWebhookConfig (Some "https://discord.test/hook") "discord".

Lemma delivery_queued_at_most_once_witness :
  let w : publisher (nat * list string) := mkPublisher None (0%nat, []) in
  let '(r, w') := postMessage discord (JStr "alert") w in
  r = Ok tt ∧
  (queued w' = queued w ∨ ∃ id, queued w' = queued w ++
     [retry_message (H := nat * list string) "https://discord.test/hook" id (JStr "alert")]) ∧
  (final_answer (outcome (post_message "https://discord.test/hook" (JStr "alert")) (pb_out w)) = true →
   queued w' = queued w).
Proof.
  assert ("https://discord.test/hook" ≠ "") as Hne by done.
  exact (delivery_queued_at_most_once discord "https://discord.test/hook" (JStr "alert")
    (mkPublisher None (0%nat, [])) eq_refl Hne).
Defined.

(** One refused connection, and then the broker is back. *)
Definition after_outage : publisher (nat * list string) :=
  final (postMessage discord (JStr "alert")) (mkPublisher None (1%nat, [])).

Lemma broker_failure_final_witness :
  pb_out after_outage = (0%nat, []) ∧
  queued (final (postMessage discord (JStr "alert")) after_outage) = [].
Proof.
  assert (pb_channel after_outage = Some (Throw (Error "connect ECONNREFUSED"))) as Ec
    by (vm_compute; reflexivity).
  split; [vm_compute; reflexivity|].
  exact (proj2 (proj2 (proj2 (broker_failure_final discord _ "https://discord.test/hook" (JStr "alert")
    after_outage Ec)))).
Defined.

(** On a broker that is up, the same alert is queued. *)
Example queued_when_up :
  length (queued (final (postMessage discord (JStr "alert"))
    (mkPublisher None (0%nat, []) : publisher (nat * list string)))) = 1%nat.
Proof. vm_compute. reflexivity. Qed.
