(* ===== verification/PriceReview.v ===== *)
(** * Price review ([services/priceReviewService.ts], [services/priceProtection.ts])

    Every fetched rate is recorded; one that moved by more than the threshold against the
    last submitted rate of the same currency waits for a reviewer. The records are a table
    under the laws of [PrismaTable]; the promise of the schema statement, which is made
    once, is part of the service's state. Proved: the statuses of a record agree with each
    other, unless the record was marked as submitted from outside its review, and only move
    forward; a review is resolved at most once; when a rate is held
    back; and what a failed schema statement does to everything after it. *)

From stdpp Require Import pretty.
From S2P Require Import Prelude JsNumber JsString JsDate Prisma Service JsDecimal JsValue PriceFilter Serialization Webhook.

Local Open Scope Z_scope.

Definition PRICE_REVIEW_WINDOW_MS : Z := 5 * 60 * 1000.
Definition PRICE_CHANGE_THRESHOLD : number := num_div (num_of_Z 15) num_100.

Record PriceMovementEvaluation := mkMovement {
  pm_isAnomalous : bool;
  pm_changePercent : number;
  pm_reason : option string;
}.

Definition evaluatePriceMovement (currentRate baselineRate : number) (currency : string)
    (threshold : option number) : PriceMovementEvaluation :=
  let threshold := default PRICE_CHANGE_THRESHOLD threshold in
  if num_leb baselineRate num_zero || num_leb currentRate num_zero
  then mkMovement false num_zero None
  else
    let changePercent :=
      num_mul (num_div (math_abs (num_sub currentRate baselineRate)) baselineRate) num_100 in
    let isAnomalous := num_ltb (num_mul threshold num_100) changePercent in
    mkMovement isAnomalous changePercent
      (if isAnomalous
       then Some (currency +:+ " moved " +:+ toFixed changePercent 2 +:+
              "% within 5 minutes, exceeding the 15% manual review threshold.")
       else None).

(** A tenth is fine, a sixth is not. *)
Example small_move :
  pm_isAnomalous (evaluatePriceMovement (num_of_Z 110) (num_of_Z 100) "NGN" None) = false.
Proof. vm_compute. reflexivity. Qed.
Example large_move :
  pm_reason (evaluatePriceMovement (num_of_Z 120) (num_of_Z 100) "NGN" None)
  = Some "NGN moved 20.00% within 5 minutes, exceeding the 15% manual review threshold.".
Proof. vm_compute. reflexivity. Qed.

Definition REVIEWABLE_CURRENCIES : list string := ["NGN"; "KES"; "GHS"].

Inductive ReviewStatus := AUTO_APPROVED | PENDING | APPROVED | REJECTED.
Inductive ContractStatus := NOT_SUBMITTED | SUBMITTED | SKIPPED.

#[global] Instance ReviewStatus_eq_dec : EqDecision ReviewStatus.
Proof. solve_decision. Defined.
#[global] Instance ContractStatus_eq_dec : EqDecision ContractStatus.
Proof. solve_decision. Defined.

(** A row, with its numeric columns as the client returns them. *)
Record RawReviewRow := mkReview {
  rv_id : Z;
  rv_currency : string;
  rv_rate : jsval;
  rv_source : string;
  rv_fetched_at : Z;
  rv_review_status : ReviewStatus;
  rv_contract_status : ContractStatus;
  rv_review_reason : option string;
  rv_review_notes : option string;
  rv_baseline_rate : jsval;
  rv_baseline_timestamp : option Z;
  rv_change_percent : jsval;
  rv_memo_id : option string;
  rv_stellar_tx_hash : option string;
  rv_reviewed_at : option Z;
  rv_reviewed_by : option string;
  rv_created_at : Z;
  rv_updated_at : Z;
}.

Record PendingPriceReview := mkPending {
  pr_id : Z;
  pr_currency : string;
  pr_rate : number;
  pr_source : string;
  pr_fetchedAt : Z;
  pr_reviewStatus : ReviewStatus;
  pr_contractStatus : ContractStatus;
  pr_reason : option string;
  pr_notes : option string;
  pr_baselineRate : option number;
  pr_baselineTimestamp : option Z;
  pr_changePercent : option number;
  pr_memoId : option string;
  pr_stellarTxHash : option string;
  pr_reviewedAt : option Z;
  pr_reviewedBy : option string;
  pr_createdAt : Z;
  pr_updatedAt : Z;
}.

Record PriceAssessment := mkAssessment {
  as_reviewRecordId : Z;
  as_manualReviewRequired : bool;
  as_reason : option string;
  as_changePercent : option number;
  as_comparisonRate : option number;
  as_comparisonTimestamp : option Z;
}.

(** [row[field]], for the numeric fields. *)
Definition row_number (row : RawReviewRow) (f : string) : jsval :=
  if decide (f = "rate") then rv_rate row
  else if decide (f = "baseline_rate") then rv_baseline_rate row
  else if decide (f = "change_percent") then rv_change_percent row else JUndef.

Definition mapReviewRow (row : RawReviewRow) : PendingPriceReview :=
  let parsed := parseBatchNumbers (row_number row) ["rate"; "baseline_rate"; "change_percent"] in {|
  pr_id := rv_id row;
  pr_currency := rv_currency row;
  pr_rate := default num_zero (parsed_field parsed "rate");
  pr_source := rv_source row;
  pr_fetchedAt := rv_fetched_at row;
  pr_reviewStatus := rv_review_status row;
  pr_contractStatus := rv_contract_status row;
  pr_reason := rv_review_reason row;
  pr_notes := rv_review_notes row;
  pr_baselineRate := parsed_field parsed "baseline_rate";
  pr_baselineTimestamp := rv_baseline_timestamp row;
  pr_changePercent := parsed_field parsed "change_percent";
  pr_memoId := rv_memo_id row;
  pr_stellarTxHash := rv_stellar_tx_hash row;
  pr_reviewedAt := rv_reviewed_at row;
  pr_reviewedBy := rv_reviewed_by row;
  pr_createdAt := rv_created_at row;
  pr_updatedAt := rv_updated_at row;
|}.

(** The fields of [MarketRate] a fetcher sets; a date is its time value. *)
Record MarketRate := mkRate {
  mr_currency : string;
  mr_rate : number;
  mr_timestamp : option Z;
  mr_source : string;
  mr_comparisonTimestamp : option (option Z);
}.

(** [normalizeDateToUTC] of a date; one in range has a result in range. *)
Definition utc (date : option Z) : exc Z :=
  normalized ← normalizeDateToUTC (λ _, None) (λ _, "Invalid Date") (ADate date);
  match normalized with Some t => Ok t | None => Throw (Error "Invalid time value") end.

Class ReviewWorld (H : Type) := {
  rw_now : H → Z;
  (** the [CREATE TABLE] and [CREATE INDEX] statements *)
  create_schema : M H unit;
  notify_review : ReviewDetails → M H unit;
}.

(** The service's own field, [schemaReadyPromise], and the outside. *)
Record review_env (H : Type) := mkReviewEnv { re_schema : option (exc unit); re_out : H }.
Arguments mkReviewEnv {H} _ _.
Arguments re_schema {H} _.
Arguments re_out {H} _.

(** ** The service *)

Section service.
Context {D H : Type} `{!PrismaTable Z RawReviewRow D} `{!ReviewWorld H}.
(** What a number stored in a [NUMERIC(20, 10)] or [NUMERIC(10, 4)] column is read back as. *)
Context (numeric_rate numeric_percent : number → jsval).

Notation run := (M (svc D (review_env H))).

Definition review_out {A} (c : M H A) : run A :=
  on_env (λ h, let '(r, o) := c (re_out h) in (r, mkReviewEnv (re_schema h) o)).

(** [CURRENT_TIMESTAMP] *)
Definition current_time : run Z := λ w, (Ok (rw_now (re_out (svc_env w))), w).

(** The statements run on the first call; every call awaits the same promise. *)
Definition ensureSchema : run unit :=
  on_env (λ h,
    match re_schema h with
    | Some r => (r, h)
    | None => let '(r, o) := create_schema (re_out h) in (r, mkReviewEnv (Some r) o)
    end).

(** [ORDER BY fetched_at DESC], [ORDER BY created_at DESC] *)
Definition newest_fetched (r1 r2 : RawReviewRow) : Prop := rv_fetched_at r2 <= rv_fetched_at r1.
Definition newest_created (r1 r2 : RawReviewRow) : Prop := rv_created_at r2 <= rv_created_at r1.
#[export] Instance newest_fetched_dec : RelDecision newest_fetched.
Proof. intros r1 r2. unfold newest_fetched. apply _. Defined.
#[export] Instance newest_created_dec : RelDecision newest_created.
Proof. intros r1 r2. unfold newest_created. apply _. Defined.

(** The [WHERE] of the baseline query. *)
Definition in_window (currency : string) (timestamp : Z) (row : RawReviewRow) : bool :=
  bool_decide (rv_currency row = currency) && bool_decide (rv_contract_status row = SUBMITTED) &&
  (timestamp - PRICE_REVIEW_WINDOW_MS <=? rv_fetched_at row) && (rv_fetched_at row <? timestamp).

(** The baseline a row gives, if its rate is a positive number. *)
Definition usable_baseline (row : RawReviewRow) : option (number * Z) :=
  rate ← parseToNumber (rv_rate row);
  if num_leb rate num_zero then None else Some (rate, rv_fetched_at row).

Definition getLatestSubmittedBaseline (currency : string) (timestamp : Z) : run (option (number * Z)) :=
  rows <- query findAll ;;
  ret (row ← head (merge_sort newest_fetched (filter (λ r, in_window currency timestamp r = true) rows));
       usable_baseline row).

(** The evaluation of a rate against its baseline, when it is held back for review. *)
Definition held_back (rate : number) (currency : string) (baseline : option (number * Z)) :
    option (PriceMovementEvaluation * (number * Z)) :=
  match baseline with
  | Some b =>
      let evaluation := evaluatePriceMovement rate b.1 currency None in
      if pm_isAnomalous evaluation then Some (evaluation, b) else None
  | None => None
  end.

(** The row the [INSERT] writes. *)
Definition assessed_row (rate : MarketRate) (currency : string) (timestamp : Z)
    (held : option (PriceMovementEvaluation * (number * Z))) (t id : Z) : RawReviewRow :=
  let column f (x : option number) := match x with Some x => f x | None => JNull end in
  mkReview id currency (numeric_rate (mr_rate rate)) (mr_source rate) timestamp
    (match held with Some _ => PENDING | None => AUTO_APPROVED end)
    (match held with Some _ => SKIPPED | None => NOT_SUBMITTED end)
    (h ← held; pm_reason h.1) None
    (column numeric_rate ((λ h, h.2.1) <$> held)) ((λ h, h.2.2) <$> held)
    (column numeric_percent ((λ h, pm_changePercent h.1) <$> held))
    None None None None t t.

Definition assessRate (rate : MarketRate) : run PriceAssessment :=
  ensureSchema ;;;
  timestamp <- lift_exc (utc (mr_timestamp rate)) ;;
  (match mr_comparisonTimestamp rate with
   | Some t => lift_exc (utc t) ;;; ret tt
   | None => ret tt
   end) ;;;
  let currency := toUpperCase (mr_currency rate) in
  let reviewable := includes REVIEWABLE_CURRENCIES currency in
  baseline <- (if reviewable then getLatestSubmittedBaseline currency timestamp else ret None) ;;
  let held := held_back (mr_rate rate) currency baseline in
  let reason := h ← held; pm_reason h.1 in
  t <- current_time ;;
  inserted <- on_db (create (assessed_row rate currency timestamp held t)) ;;
  (match held with
   | Some (evaluation, (comparisonRate, _)) =>
       if truthy_opt reason then
         review_out (notify_review (mkReviewDetails (rv_id inserted) currency (mr_rate rate)
           comparisonRate (pm_changePercent evaluation) (mr_source rate) (Some timestamp)
           (default "" reason)))
       else ret tt
   | None => ret tt
   end) ;;;
  ret (mkAssessment (rv_id inserted) (match held with Some _ => true | None => false end) reason
         ((λ h, pm_changePercent h.1) <$> held) ((λ h, h.2.1) <$> held) ((λ h, h.2.2) <$> held)).

Definition mark_submitted (memoId stellarTxHash : string) (t : Z) (row : RawReviewRow) : RawReviewRow :=
  mkReview (rv_id row) (rv_currency row) (rv_rate row) (rv_source row) (rv_fetched_at row)
    (rv_review_status row) SUBMITTED (rv_review_reason row) (rv_review_notes row)
    (rv_baseline_rate row) (rv_baseline_timestamp row) (rv_change_percent row) (Some memoId)
    (Some stellarTxHash) (rv_reviewed_at row) (rv_reviewed_by row) (rv_created_at row) t.

Definition has_id (id : Z) (row : RawReviewRow) : bool := bool_decide (rv_id row = id).
Definition is_pending (row : RawReviewRow) : bool := bool_decide (rv_review_status row = PENDING).
Definition pending_with_id (id : Z) (row : RawReviewRow) : bool := has_id id row && is_pending row.

Definition markContractSubmitted (reviewRecordId : Z) (memoId stellarTxHash : string) : run unit :=
  ensureSchema ;;;
  t <- current_time ;;
  on_db (updateMany (has_id reviewRecordId) (mark_submitted memoId stellarTxHash t)) ;;; ret tt.

Definition getPendingReviews : run (list PendingPriceReview) :=
  ensureSchema ;;;
  rows <- query findAll ;;
  ret (mapReviewRow <$> merge_sort newest_created (filter (λ r, is_pending r = true) rows)).

Definition getPendingReviewById (reviewId : Z) : run (option PendingPriceReview) :=
  ensureSchema ;;;
  rows <- query findAll ;;
  ret (mapReviewRow <$> head (filter (λ r, pending_with_id reviewId r = true) rows)).

(** What [approveReview] and [rejectReview] write; a rejection leaves the memo and the
    transaction as they are. *)
Definition resolve_row (status : ReviewStatus) (contract : ContractStatus)
    (reviewedBy reviewNotes : option string) (submission : option (string * string)) (t : Z)
    (row : RawReviewRow) : RawReviewRow :=
  mkReview (rv_id row) (rv_currency row) (rv_rate row) (rv_source row) (rv_fetched_at row)
    status contract (rv_review_reason row) reviewNotes (rv_baseline_rate row)
    (rv_baseline_timestamp row) (rv_change_percent row)
    (match submission with Some s => Some s.1 | None => rv_memo_id row end)
    (match submission with Some s => Some s.2 | None => rv_stellar_tx_hash row end)
    (Some t) (Some (default "manual-review" reviewedBy)) (rv_created_at row) t.

Definition resolveReview (reviewId : Z) (f : Z → RawReviewRow → RawReviewRow) : run PendingPriceReview :=
  ensureSchema ;;;
  t <- current_time ;;
  rows <- on_db (updateReturning (pending_with_id reviewId) (f t)) ;;
  match rows with
  | row :: _ => ret (mapReviewRow row)
  | [] => throw (Error ("Pending review " +:+ pretty reviewId +:+ " was not found"))
  end.

Definition approveReview (reviewId : Z) (reviewedBy reviewNotes : option string)
    (memoId stellarTxHash : string) : run PendingPriceReview :=
  resolveReview reviewId (resolve_row APPROVED SUBMITTED reviewedBy reviewNotes (Some (memoId, stellarTxHash))).

Definition rejectReview (reviewId : Z) (reviewedBy reviewNotes : option string) : run PendingPriceReview :=
  resolveReview reviewId (resolve_row REJECTED SKIPPED reviewedBy reviewNotes None).
End service.

(** ** The life of a record *)

(** The two statuses of a record agree. *)
Definition statuses_agree (row : RawReviewRow) : bool :=
  match rv_review_status row, rv_contract_status row with
  | AUTO_APPROVED, (NOT_SUBMITTED | SUBMITTED) => true
  | PENDING, SKIPPED => true
  | APPROVED, SUBMITTED => true
  | REJECTED, SKIPPED => true
  | _, _ => false
  end.

(** The steps of a review. *)
Definition status_step (s s' : ReviewStatus) : Prop :=
  s = s' ∨ (s = PENDING ∧ (s' = APPROVED ∨ s' = REJECTED)).

(** What is assessed stays as it was recorded; the status moves forward. *)
Definition evolves (r r' : RawReviewRow) : Prop :=
  rv_id r' = rv_id r ∧ rv_currency r' = rv_currency r ∧ rv_rate r' = rv_rate r ∧
  rv_fetched_at r' = rv_fetched_at r ∧ rv_baseline_rate r' = rv_baseline_rate r ∧
  status_step (rv_review_status r) (rv_review_status r').

#[export] Instance status_step_preorder : PreOrder status_step.
Proof.
  split; [by left|]. unfold status_step.
  intros s s' s'' [->|[-> [->| ->]]] [<-|[E [->| ->]]]; try discriminate; auto.
Qed.

#[export] Instance evolves_preorder : PreOrder evolves.
Proof.
  split; [by repeat split|]. intros r r' r'' (?&?&?&?&?&S1) (?&?&?&?&?&S2).
  split_and!; try congruence. by etrans.
Qed.

Section life.
Context {D H : Type} `{!PrismaTable Z RawReviewRow D} `{!ReviewWorld H}.
Context (numeric_rate numeric_percent : number → jsval).
Implicit Types (d : D) (w : svc D (review_env H)).

Notation assessRate := (assessRate numeric_rate numeric_percent).

(** What is asked of a record; its statuses agreeing is enough for it. *)
Context (good : RawReviewRow → bool) (agreeing_good : ∀ r, statuses_agree r = true → good r = true).

(** A table of such records, under their own keys. *)
Definition records_are d : Prop :=
  ∀ k r, rows d !! k = Some r → rv_id r = k ∧ good r = true.

(** From one table to the next: such records stay so, and each evolves. *)
Definition grows_as d d' : Prop :=
  (records_are d → records_are d') ∧
  ∀ k r, rows d !! k = Some r → ∃ r', rows d' !! k = Some r' ∧ evolves r r'.

Notation grows := grows_as.

#[export] Instance grows_preorder : PreOrder grows.
Proof.
  split; [split; [done|]; intros k r Hr; by exists r|].
  intros d d' d'' [I1 G1] [I2 G2]. split; [by auto|]. intros k r (r' & Hr' & E')%G1.
  destruct (G2 _ _ Hr') as (r'' & ? & ?). exists r''. split; [done|by etrans].
Qed.

Lemma grows_rows d d' : rows d' = rows d → grows d d'.
Proof.
  intros E. split; [intros I k r; rewrite E; apply I|]. intros k r Hr. rewrite E. by exists r.
Qed.

Lemma grows_create mk d d' r :
  create mk d = (r, d') →
  (∀ k, rv_id (mk k) = k ∧ good (mk k) = true) → grows d d'.
Proof.
  intros Hc Hmk. destruct r as [r|e].
  - apply create_ok in Hc as (k & Hn & -> & E). split.
    + intros I k' r'. rewrite E. intros [[<- <-]|[_ Hr']]%lookup_insert_Some; [apply Hmk|by apply I].
    + intros k' r' Hr'. exists r'. rewrite E, lookup_insert_ne by congruence. done.
  - by apply create_err, grows_rows in Hc.
Qed.

Lemma grows_updateMany p f d d' r :
  updateMany p f d = (r, d') →
  (∀ k r0, rows d !! k = Some r0 → p r0 = true →
     evolves r0 (f r0) ∧ (good r0 = true → good (f r0) = true)) →
  grows d d'.
Proof.
  intros Hu Hf. destruct r as [n|e]; [|by apply updateMany_err, grows_rows in Hu].
  apply updateMany_ok in Hu as [E _]. split.
  - intros I k r'. rewrite E, lookup_fmap. intros (r0 & Hr0 & ->)%fmap_Some.
    destruct (I _ _ Hr0) as [<- Hs]. destruct (p r0) eqn:Ep; [|done].
    destruct (Hf _ _ Hr0 Ep) as [(Hid & _) Ha]. auto.
  - intros k r0 Hr0. rewrite E, lookup_fmap, Hr0. simpl. eexists; split; [done|].
    destruct (p r0) eqn:Ep; [by apply (Hf _ _ Hr0 Ep)|done].
Qed.

(** Everything but an [INSERT] or an [UPDATE] leaves the table alone. *)
Lemma preserves_schema (P : D → Prop) : preserves (λ w, P (svc_db w)) (ensureSchema (D := D)).
Proof. apply preserves_on_env. Qed.
Lemma preserves_time (P : svc D (review_env H) → Prop) : preserves P current_time.
Proof. by intros w. Qed.
Lemma preserves_review_out (P : D → Prop) {A} (c : M H A) :
  preserves (λ w, P (svc_db w)) (review_out (D := D) c).
Proof. apply preserves_on_env. Qed.
Hint Resolve preserves_schema preserves_time preserves_review_out : sf.

Lemma assessed_row_ok rate currency timestamp held t k :
  let r := assessed_row numeric_rate numeric_percent rate currency timestamp held t k in
  rv_id r = k ∧ good r = true.
Proof. split; [done|]. apply agreeing_good. by destruct held. Qed.

Lemma assess_grows_as d0 rate : preserves (λ w, grows d0 (svc_db w)) (assessRate rate).
Proof.
  unfold PriceReview.assessRate. assert (∀ mk, (∀ k, rv_id (mk k) = k ∧ good (mk k) = true) →
    preserves (λ w, grows d0 (svc_db w)) (on_db (H := review_env H) (create mk))) as Hc.
  { intros mk Hmk. apply preserves_on_db. intros d r d' Hg Hc. etrans; [exact Hg|].
    by eapply grows_create. }
  pose proof (λ (c : string) t held tm, Hc _ (assessed_row_ok rate c t held tm)).
  unfold getLatestSubmittedBaseline. preserve.
Qed.

Lemma pending_with_id_spec id row :
  pending_with_id id row = true ↔ rv_id row = id ∧ rv_review_status row = PENDING.
Proof. unfold pending_with_id, has_id, is_pending. by rewrite andb_true_iff, !bool_decide_eq_true. Qed.

(** What the two resolutions write. *)
Definition resolution (f : Z → RawReviewRow → RawReviewRow) : Prop :=
  ∃ status contract by_ notes submission,
    f = resolve_row status contract by_ notes submission ∧
    ((status = APPROVED ∧ contract = SUBMITTED) ∨ (status = REJECTED ∧ contract = SKIPPED)).

Lemma resolution_row f t row :
  resolution f → rv_review_status row = PENDING →
  evolves row (f t row) ∧ statuses_agree (f t row) = true ∧ rv_review_status (f t row) ≠ PENDING.
Proof.
  intros (status & contract & ? & ? & ? & -> & Hs) Hp.
  destruct Hs as [[-> ->]|[-> ->]]; (split; [|done]); (split_and!; [done..|right; auto]).
Qed.

Lemma resolve_grows_as d0 id f :
  resolution f → preserves (λ w, grows d0 (svc_db w)) (resolveReview id f).
Proof.
  intros Hf. unfold resolveReview.
  assert (∀ t, preserves (λ w, grows d0 (svc_db w))
    (on_db (H := review_env H) (updateReturning (pending_with_id id) (f t)))) as Hu.
  { intros t. apply preserves_on_db. intros d r d' Hg Hc. etrans; [exact Hg|].
    pose proof (updateReturning_final (pending_with_id id) (f t) d) as E. rewrite Hc in E. simpl in E. subst d'.
    destruct (updateMany (pending_with_id id) (f t) d) as [n d'] eqn:Eu. eapply grows_updateMany; [exact Eu|].
    intros k r0 _ [_ Hp]%pending_with_id_spec. destruct (resolution_row f t r0 Hf Hp) as (? & ? & _). auto. }
  preserve.
Qed.

(** The [UPDATE] of a mark takes the record with that id, whatever its review status. *)
Lemma mark_grows_as d0 id memo tx :
  (∀ t r, rv_id r = id → good r = true → good (mark_submitted memo tx t r) = true) →
  preserves (λ w, grows d0 (svc_db w)) (markContractSubmitted id memo tx).
Proof.
  intros Hm. unfold markContractSubmitted.
  assert (∀ t, preserves (λ w, grows d0 (svc_db w))
    (on_db (H := review_env H) (updateMany (has_id id) (mark_submitted memo tx t)))) as Hu.
  { intros t. apply preserves_on_db. intros d r d' Hg Hc. etrans; [exact Hg|].
    eapply grows_updateMany; [exact Hc|]. intros k r0 _ Hid%bool_decide_eq_true.
    split; [split_and!; [done..|by left]|auto]. }
  preserve.
Qed.

End life.

(** Records whose two statuses agree. *)
Notation records_ok := (records_are statuses_agree).
Notation grows := (grows_as statuses_agree).

Section calls.
Context {D H : Type} `{!PrismaTable Z RawReviewRow D} `{!ReviewWorld H}.
Context (numeric_rate numeric_percent : number → jsval).
Implicit Types (d : D) (w : svc D (review_env H)).

Lemma assess_grows d0 rate :
  preserves (λ w, grows d0 (svc_db w)) (assessRate numeric_rate numeric_percent rate).
Proof. by apply assess_grows_as. Qed.

Lemma resolve_grows d0 id f :
  resolution f → preserves (λ w, grows d0 (svc_db w)) (resolveReview id f).
Proof. by apply resolve_grows_as. Qed.

(** A rate that was not held back is marked as submitted. *)
Lemma mark_grows id memo tx w :
  records_ok (svc_db w) →
  (∀ r, rows (svc_db w) !! id = Some r → rv_review_status r = AUTO_APPROVED) →
  grows (svc_db w) (svc_db (final (markContractSubmitted id memo tx) w)).
Proof.
  intros I Ha. unfold markContractSubmitted. apply (wp_final _ (λ w', grows (svc_db w) (svc_db w'))).
  apply wp_bind. pose proof (preserves_schema (λ d, d = svc_db w) w eq_refl) as Hs.
  eapply wp_mono; [exact Hs| |intros e w' E; by rewrite E].
  intros [] w1 E1. apply wp_bind. unfold wp at 1, current_time.
  apply wp_bind, wp_on_db.
  - intros n d E. apply wp_ret. simpl. rewrite E1 in E. eapply grows_updateMany; [exact E|].
    intros k r0 Hr0 Hid%bool_decide_eq_true. destruct (I _ _ Hr0) as [Hk Hs0].
    assert (rv_review_status r0 = AUTO_APPROVED) as Er by (apply Ha; congruence).
    split; [split_and!; [done..|by left]|]. intros _. unfold statuses_agree; simpl. by rewrite Er.
  - intros e d E. simpl. rewrite E1 in E. apply updateMany_err in E. by apply grows_rows.
Qed.

(** The calls of the service, with any arguments. *)
Inductive review_call :=
| CallAssess (rate : MarketRate)
| CallMark (id : Z) (memo tx : string)
| CallList
| CallGet (id : Z)
| CallApprove (id : Z) (by_ notes : option string) (memo tx : string)
| CallReject (id : Z) (by_ notes : option string).

Definition make_call (c : review_call) : M (svc D (review_env H)) unit :=
  match c with
  | CallAssess rate => assessRate numeric_rate numeric_percent rate ;;; ret tt
  | CallMark id memo tx => markContractSubmitted id memo tx
  | CallList => getPendingReviews ;;; ret tt
  | CallGet id => getPendingReviewById id ;;; ret tt
  | CallApprove id by_ notes memo tx => approveReview id by_ notes memo tx ;;; ret tt
  | CallReject id by_ notes => rejectReview id by_ notes ;;; ret tt
  end.

(** One call after the other; a call that throws has an effect too. *)
Definition review_calls (cs : list review_call) w : svc D (review_env H) :=
  fold_left (λ w c, final (make_call c) w) cs w.

(** Marked as submitted by a call, outside the course of a review. *)
Definition marked_by (cs : list review_call) (row : RawReviewRow) : bool :=
  bool_decide (rv_contract_status row = SUBMITTED) &&
  existsb (λ c, match c with CallMark id _ _ => bool_decide (id = rv_id row) | _ => false end) cs.

Definition agrees_or_marked (cs : list review_call) (row : RawReviewRow) : bool :=
  statuses_agree row || marked_by cs row.

Lemma approve_resolution by_ notes memo tx :
  resolution (resolve_row APPROVED SUBMITTED by_ notes (Some (memo, tx))).
Proof. do 5 eexists. eauto. Qed.
Lemma reject_resolution by_ notes : resolution (resolve_row REJECTED SKIPPED by_ notes None).
Proof. do 5 eexists. eauto. Qed.


Lemma agreeing_or_marked cs r : statuses_agree r = true → agrees_or_marked cs r = true.
Proof. unfold agrees_or_marked. by intros ->. Qed.

Lemma make_call_grows all c d0 :
  c ∈ all → preserves (λ w, grows_as (agrees_or_marked all) d0 (svc_db w)) (make_call c).
Proof.
  intros Hc. pose proof (agreeing_or_marked all) as Ha.
  assert (∀ by_ notes memo tx, resolution (resolve_row APPROVED SUBMITTED by_ notes (Some (memo, tx))))
    by (intros; apply approve_resolution).
  pose proof reject_resolution. pose proof (@preserves_schema D H) as Hsc.
  destruct c; unfold make_call, approveReview, rejectReview, getPendingReviews, getPendingReviewById.
  - pose proof (assess_grows_as numeric_rate numeric_percent _ Ha d0 rate). preserve.
  - apply mark_grows_as. intros t r Hr _. unfold agrees_or_marked, marked_by. simpl.
    apply orb_true_iff. right. apply existsb_exists. exists (CallMark id memo tx).
    split; [by apply list_elem_of_In|]. by apply bool_decide_eq_true.
  - preserve.
  - preserve.
  - pose proof (λ f, resolve_grows_as _ Ha d0 id f). preserve.
  - pose proof (λ f, resolve_grows_as _ Ha d0 id f). preserve.
Qed.

Lemma review_calls_grow_in all cs w :
  cs ⊆ all → grows_as (agrees_or_marked all) (svc_db w) (svc_db (review_calls cs w)).
Proof.
  revert w. induction cs as [|c cs IH]; intros w Hsub; [done|].
  etrans; [|apply IH; set_solver].
  apply (preserves_final (λ w', grows_as (agrees_or_marked all) (svc_db w) (svc_db w')) (make_call c) w); [|done].
  apply make_call_grows. set_solver.
Qed.

Lemma review_calls_grow cs w :
  grows_as (agrees_or_marked cs) (svc_db w) (svc_db (review_calls cs w)).
Proof. by apply review_calls_grow_in. Qed.

(** A resolution completes only on a pending record, and writes its resolution. *)
Lemma resolve_Ok {good} id f w a w' :
  records_are good (svc_db w) → resolveReview id f w = (Ok a, w') →
  ∃ t r, rows (svc_db w) !! id = Some r ∧ rv_review_status r = PENDING ∧
    (rv_id (f t r) = id → rows (svc_db w') !! id = Some (f t r)) ∧ a = mapReviewRow (f t r).
Proof.
  intros I. enough (wp (resolveReview id f) (λ a w', ∃ t r, rows (svc_db w) !! id = Some r ∧
    rv_review_status r = PENDING ∧ (rv_id (f t r) = id → rows (svc_db w') !! id = Some (f t r)) ∧
    a = mapReviewRow (f t r)) (λ _ _, True) w) as Hw by (unfold wp in Hw; by intros E; rewrite E in Hw).
  unfold resolveReview. apply wp_bind.
  pose proof (preserves_schema (λ d, d = svc_db w) w eq_refl) as Hs.
  eapply wp_mono; [exact Hs| |done]. intros [] w1 E1. apply wp_bind. unfold wp at 1, current_time.
  set (t := rw_now _). apply wp_bind, wp_on_db; [|done]. intros l d. rewrite E1. unfold updateReturning.
  destruct (updateMany (pending_with_id id) (f t) (svc_db w)) as [[n|e] d'] eqn:Eu; [|done].
  intros [= <- <-]. apply updateMany_ok in Eu as [Er _].
  destruct (filter _ _) as [|x l'] eqn:El; [done|]. simpl. apply wp_ret.
  assert (x ∈ filter (λ r, pending_with_id id r = true) (map_to_list (rows (svc_db w))).*2) as Hx
    by (rewrite El; apply list_elem_of_here).
  apply list_elem_of_filter in Hx as [Hp Hx].
  apply list_elem_of_fmap in Hx as ([k r] & -> & Hk%elem_of_map_to_list). simpl in *.
  pose proof Hp as Hp'. apply pending_with_id_spec in Hp as [Hid Hp].
  destruct (I _ _ Hk) as [Hkid _]. assert (k = id) as -> by congruence.
  exists t, r. split_and!; [done|done| |done]. intros _. rewrite Er, lookup_fmap, Hk; simpl. by rewrite Hp'.
Qed.

(** A pending review that is found is the record of that id. *)
Lemma wp_getPending {good} id w :
  records_are good (svc_db w) →
  wp (getPendingReviewById id) (λ o w', svc_db w' = svc_db w ∧ ∀ r, o = Some r →
    ∃ row, rows (svc_db w) !! id = Some row ∧ rv_review_status row = PENDING ∧ r = mapReviewRow row)
    (λ _ _, True) w.
Proof.
  intros I. unfold getPendingReviewById. apply wp_bind.
  pose proof (preserves_schema (λ d, d = svc_db w) w eq_refl) as Hs.
  eapply wp_mono; [exact Hs| |done]. intros [] w1 E1. apply wp_bind. unfold wp at 1, query.
  destruct (findAll (svc_db w1)) as [l|e] eqn:Ef; [|done]. apply findAll_ok in Ef. rewrite E1 in Ef.
  apply wp_ret. split; [done|]. intros r Hr.
  destruct (filter _ l) as [|x l'] eqn:El; [done|]. injection Hr as <-.
  assert (x ∈ filter (λ r, pending_with_id id r = true) l) as Hx by (rewrite El; apply list_elem_of_here).
  apply list_elem_of_filter in Hx as [[Hid Hp]%pending_with_id_spec Hx]. rewrite Ef in Hx.
  apply list_elem_of_fmap in Hx as ([k row] & -> & Hk%elem_of_map_to_list). simpl in *.
  destruct (I _ _ Hk) as [Hkid _]. assert (k = id) as -> by congruence. by exists row.
Qed.
End calls.

(** ** Which rates are held back *)

(** [row] is one of the last submitted records of the window. *)
Definition latest_submitted (m : gmap Z RawReviewRow) (currency : string) (timestamp : Z)
    (row : RawReviewRow) : Prop :=
  (∃ k, m !! k = Some row) ∧ in_window currency timestamp row = true ∧
  ∀ k r, m !! k = Some r → in_window currency timestamp r = true → rv_fetched_at r <= rv_fetched_at row.

(** The rate moved too far from this record. *)
Definition moved_from (rate : number) (currency : string) (row : RawReviewRow) : Prop :=
  ∃ b, usable_baseline row = Some b ∧
       pm_isAnomalous (evaluatePriceMovement rate b.1 currency None) = true.

(** What an assessment promises: from the records [m], with the assessment [a], to the
    records [m']. *)
Definition assessment_spec (numeric_rate : number → jsval) (rate : MarketRate) (timestamp : Z)
    (m : gmap Z RawReviewRow) (a : PriceAssessment) (m' : gmap Z RawReviewRow) : Prop :=
  let currency := toUpperCase (mr_currency rate) in
  (∃ row, m !! as_reviewRecordId a = None ∧ m' = <[as_reviewRecordId a := row]> m ∧
     rv_review_status row = (if as_manualReviewRequired a then PENDING else AUTO_APPROVED) ∧
     rv_rate row = numeric_rate (mr_rate rate)) ∧
  (as_manualReviewRequired a = true →
     currency ∈ REVIEWABLE_CURRENCIES ∧
     ∃ row, latest_submitted m currency timestamp row ∧ moved_from (mr_rate rate) currency row) ∧
  (currency ∈ REVIEWABLE_CURRENCIES →
   (∃ row, latest_submitted m currency timestamp row) →
   (∀ row, latest_submitted m currency timestamp row → moved_from (mr_rate rate) currency row) →
   as_manualReviewRequired a = true).

Section assess.
Context {D H : Type} `{!PrismaTable Z RawReviewRow D} `{!ReviewWorld H}.
Context (numeric_rate numeric_percent : number → jsval).
Implicit Types (d : D) (w : svc D (review_env H)).

Lemma newest_head (l : list RawReviewRow) row :
  head (merge_sort newest_fetched l) = Some row →
  row ∈ l ∧ ∀ r, r ∈ l → rv_fetched_at r <= rv_fetched_at row.
Proof.
  assert (Total newest_fetched) as Ht by (intros r1 r2; unfold newest_fetched; lia).
  assert (Transitive newest_fetched) as Htr by (intros r1 r2 r3; unfold newest_fetched; lia).
  pose proof (StronglySorted_merge_sort newest_fetched l) as Hs.
  pose proof (merge_sort_Permutation newest_fetched l) as Hp.
  destruct (merge_sort newest_fetched l) as [|x k]; [done|]. intros [= ->]. split.
  - rewrite <-Hp. apply list_elem_of_here.
  - intros r. rewrite <-Hp. intros [->|Hr]%elem_of_cons; [lia|].
    apply StronglySorted_inv in Hs as [_ Hf]. rewrite Forall_forall in Hf. by apply Hf.
Qed.

Lemma baseline_spec currency timestamp w o w' :
  getLatestSubmittedBaseline currency timestamp w = (Ok o, w') →
  w' = w ∧
  ((o = None ∧ ∀ k r, rows (svc_db w) !! k = Some r → in_window currency timestamp r = false) ∨
   ∃ row, latest_submitted (rows (svc_db w)) currency timestamp row ∧ o = usable_baseline row).
Proof.
  unfold getLatestSubmittedBaseline, bind, query, ret.
  destruct (findAll (svc_db w)) as [l|e] eqn:Ef; [|done]. intros [= <- <-]. split; [done|].
  apply findAll_ok in Ef.
  assert (∀ k r, rows (svc_db w) !! k = Some r → in_window currency timestamp r = true →
    r ∈ filter (λ r, in_window currency timestamp r = true) l) as Hin.
  { intros k r Hk Hw. apply list_elem_of_filter. split; [done|]. rewrite Ef.
    apply list_elem_of_fmap. exists (k, r). split; [done|]. by apply elem_of_map_to_list. }
  destruct (head _) as [row|] eqn:Eh; [right|left].
  - apply newest_head in Eh as [Hr Hmax]. exists row. split; [|done].
    apply list_elem_of_filter in Hr as [Hw Hr]. rewrite Ef in Hr.
    apply list_elem_of_fmap in Hr as ([k r] & -> & Hk%elem_of_map_to_list). split_and!; [by exists k|done|].
    intros k' r' Hk' Hw'. by apply Hmax, (Hin k').
  - split; [done|]. intros k r Hk. destruct (in_window currency timestamp r) eqn:Hw; [|done].
    pose proof (Hin k r Hk Hw) as Hi. rewrite <-(merge_sort_Permutation newest_fetched) in Hi.
    destruct (merge_sort _ _); [by apply elem_of_nil in Hi|done].
Qed.

Lemma held_back_spec rate currency o :
  (∃ h, held_back rate currency o = Some h) ↔
  ∃ b, o = Some b ∧ pm_isAnomalous (evaluatePriceMovement rate b.1 currency None) = true.
Proof.
  unfold held_back. split.
  - intros [h Hh]. destruct o as [b|]; [|done]. exists b. split; [done|]. by destruct (pm_isAnomalous _).
  - intros (b & -> & E). rewrite E. by eexists.
Qed.

Lemma wp_ensureSchema (Q : unit → svc D (review_env H) → Prop) w :
  (∀ w', svc_db w' = svc_db w → Q tt w') → wp ensureSchema Q (λ _ _, True) w.
Proof.
  intros HQ. pose proof (preserves_schema (λ d, d = svc_db w) w eq_refl) as Hs.
  eapply wp_mono; [exact Hs| |done]. intros [] w1. apply HQ.
Qed.

(** The rows of the table, and the reading of them, at the time of the call. *)
Lemma wp_baseline currency timestamp w (Q : option (number * Z) → svc D (review_env H) → Prop) :
  (∀ o, (o = None ∧ ∀ k r, rows (svc_db w) !! k = Some r → in_window currency timestamp r = false) ∨
        (∃ row, latest_submitted (rows (svc_db w)) currency timestamp row ∧ o = usable_baseline row) →
     Q o w) →
  wp (getLatestSubmittedBaseline currency timestamp) Q (λ _ _, True) w.
Proof.
  intros HQ. unfold wp. destruct (getLatestSubmittedBaseline currency timestamp w) as [[o|e] w'] eqn:E; [|done].
  apply baseline_spec in E as [-> Ho]. by apply HQ.
Qed.

(** The baseline of a rate, and what it decides. *)
Lemma wp_judge rate currency timestamp w :
  let m := rows (svc_db w) in
  wp (if includes REVIEWABLE_CURRENCIES currency then getLatestSubmittedBaseline currency timestamp
      else ret None)
    (λ o w', svc_db w' = svc_db w ∧
      ((∃ h, held_back rate currency o = Some h) →
         currency ∈ REVIEWABLE_CURRENCIES ∧
         ∃ row, latest_submitted m currency timestamp row ∧ moved_from rate currency row) ∧
      (currency ∈ REVIEWABLE_CURRENCIES → (∃ row, latest_submitted m currency timestamp row) →
       (∀ row, latest_submitted m currency timestamp row → moved_from rate currency row) →
       ∃ h, held_back rate currency o = Some h))
    (λ _ _, True) w.
Proof.
  intros m. unfold includes. destruct (bool_decide _) eqn:Er.
  - apply bool_decide_eq_true in Er. apply wp_baseline. fold m.
    intros o Ho. split; [done|]. rewrite held_back_spec. split.
    + intros (b & -> & Hb). split; [done|]. destruct Ho as [[? _]|(row & Hl & Hu)]; [done|].
      exists row. split; [done|]. by exists b.
    + intros _ (row0 & Hl0) Hall. destruct Ho as [[-> Hn]|(row & Hl & ->)].
      { destruct Hl0 as ((k & Hk) & Hw & _). rewrite (Hn k row0 Hk) in Hw. done. }
      destruct (Hall row Hl) as (b & Hb & Ha). by exists b.
  - apply bool_decide_eq_false in Er. apply wp_ret. split; [done|]. split; [by intros [h ?]|done].
Qed.

(** An [INSERT] and what follows it outside. *)
Lemma wp_record rate currency timestamp held t w (tail : RawReviewRow → M (svc D (review_env H)) unit)
    (a : Z → PriceAssessment) (Q : PriceAssessment → svc D (review_env H) → Prop) :
  (∀ r (P : D → Prop), preserves (λ w, P (svc_db w)) (tail r)) →
  (∀ k w', rows (svc_db w) !! k = None →
     rows (svc_db w') = <[k := assessed_row numeric_rate numeric_percent rate currency timestamp held t k]>
       (rows (svc_db w)) → Q (a k) w') →
  wp (inserted <- on_db (create (assessed_row numeric_rate numeric_percent rate currency timestamp held t)) ;;
      tail inserted ;;; ret (a (rv_id inserted))) Q (λ _ _, True) w.
Proof.
  intros Ht HQ. apply wp_bind, wp_on_db; [|done].
  intros row d (k & Hn & -> & E)%create_ok. apply wp_bind.
  eapply wp_mono; [apply (Ht _ (λ d', rows d' = rows d)); done| |done].
  intros [] w' Ew. apply wp_ret, HQ; [done|]. simpl in Ew. by rewrite Ew, E.
Qed.
(** The assessment of a rate, to its specification. *)
Lemma wp_assessRate rate w :
  wp (assessRate numeric_rate numeric_percent rate)
    (λ a w', ∃ timestamp, utc (mr_timestamp rate) = Ok timestamp ∧
       assessment_spec numeric_rate rate timestamp (rows (svc_db w)) a (rows (svc_db w')))
    (λ _ _, True) w.
Proof.
  set (currency := toUpperCase (mr_currency rate)). set (m := rows (svc_db w)).
  unfold assessRate. apply wp_bind, wp_ensureSchema. intros w1 E1.
  apply wp_bind. unfold wp at 1, lift_exc. destruct (utc (mr_timestamp rate)) as [timestamp|e] eqn:Ht; [|done].
  apply wp_bind.
  eapply (wp_mono _ (λ _ w2, svc_db w2 = svc_db w) _ (λ _ _, True)); [| |done].
  { destruct (mr_comparisonTimestamp rate); [|done]. apply wp_bind. unfold wp, lift_exc. by destruct (utc o). }
  intros [] w2 E2. fold currency. apply wp_bind.
  eapply wp_mono; [apply (wp_judge (mr_rate rate))|intros o w3 (E3 & H1 & H2); cbv beta|done].
  rewrite E2 in E3, H1, H2. fold m in H1, H2.
  apply wp_bind. unfold wp at 1, current_time.
  set (t := rw_now _). set (held := held_back _ _ _) in *.
  pose (answer := λ k, mkAssessment k (match held with Some _ => true | None => false end)
    (h ← held; pm_reason h.1) ((λ h, pm_changePercent h.1) <$> held) ((λ h, h.2.1) <$> held)
    ((λ h, h.2.2) <$> held)).
  apply (wp_record rate currency timestamp held t w3 (λ inserted, _) answer).
  - intros r Q. pose proof (@preserves_review_out D H Q). preserve.
  - intros k w4 Hn Er. rewrite E3 in Hn, Er. fold m in Hn, Er. exists timestamp. split; [done|]. split_and!.
    + eexists. split_and!; [exact Hn|exact Er|by destruct held|done].
    + intros Hh. apply H1. simpl in Hh. destruct held as [h|]; [by exists h|done].
    + intros X Y Z. destruct (H2 X Y Z) as [h E]. simpl. by rewrite E.
Qed.
End assess.

(** ** Theorems *)

Section theorems.
Context {D H : Type} `{!PrismaTable Z RawReviewRow D} `{!ReviewWorld H}.
Context (numeric_rate numeric_percent : number → jsval).
Implicit Types w : svc D (review_env H).

Notation calls := (review_calls numeric_rate numeric_percent).


(** A review is resolved at most once: after an approval or a rejection that completed, no
    later approval or rejection of the same record completes. *)
Theorem resolved_once id f g a b cs w w1 w3 :
  records_ok (svc_db w) → resolution f →
  resolveReview id f w = (Ok a, w1) → resolveReview id g (calls cs w1) ≠ (Ok b, w3).
Proof.
  intros I Hf Ef Eg.
  destruct (resolve_Ok id f w a w1 I Ef) as (t & r0 & Hr0 & Hp0 & Hr & _).
  destruct (resolution_row f t r0 Hf Hp0) as ((Hid & _) & _ & Hne).
  assert (rv_id (f t r0) = id) as Hid' by (rewrite Hid; by apply (I _ _ Hr0)). specialize (Hr Hid').
  assert (records_ok (svc_db w1)) as I1.
  { pose proof (resolve_grows (svc_db w) id f Hf w (reflexivity _)) as G. unfold wp in G.
    rewrite Ef in G. by apply G. }
  destruct (review_calls_grow numeric_rate numeric_percent cs w1) as [I2 G].
  destruct (G _ _ Hr) as (r2 & Hr2 & (_ & _ & _ & _ & _ & Hst)).
  destruct (resolve_Ok id g _ b w3 (I2 (λ k r Hk, conj (proj1 (I1 k r Hk)) (agreeing_or_marked cs r (proj2 (I1 k r Hk))))) Eg)
    as (t3 & r3 & Hr3 & Hp & _).
  rewrite Hr2 in Hr3. injection Hr3 as <-. destruct Hst as [E|[E _]]; congruence.
Qed.

(** An assessment that completes has recorded the rate under a fresh id and touched nothing
    else. The rate is held back only when its currency is reviewable and it moved too far
    from a latest record submitted in the five minutes before it; and it is held back when
    there is such a record and it moved too far from all of them (several only when they
    carry the same time). *)
Theorem assess_holds_back rate w a w' timestamp :
  utc (mr_timestamp rate) = Ok timestamp →
  assessRate numeric_rate numeric_percent rate w = (Ok a, w') →
  assessment_spec numeric_rate rate timestamp (rows (svc_db w)) a (rows (svc_db w')).
Proof.
  intros Ht E. pose proof (wp_assessRate numeric_rate numeric_percent rate w) as Hw. unfold wp in Hw.
  rewrite E in Hw. destruct Hw as (t & Ht' & Hs). congruence.
Qed.

(** The schema statements are run once. If they fail, every later call fails with the same
    error and nothing is recorded, assessed or resolved any more, also when the database is
    back. *)
Theorem schema_failure_final e cs w :
  re_schema (svc_env w) = Some (Throw e) →
  calls cs w = w ∧
  (∀ rate, assessRate numeric_rate numeric_percent rate w = (Throw e, w)) ∧
  (∀ id memo tx, markContractSubmitted id memo tx w = (Throw e, w)) ∧
  (∀ id f, resolveReview id f w = (Throw e, w)) ∧
  getPendingReviews w = (Throw e, w).
Proof.
  intros He.
  assert (∀ A (k : unit → M (svc D (review_env H)) A), bind ensureSchema k w = (Throw e, w)) as Hk.
  { intros A k. unfold bind, ensureSchema, on_env. destruct w as [d h]. simpl in *. by rewrite He. }
  split_and!; [|intros; apply Hk..|apply Hk].
  induction cs as [|c cs IH]; [done|]. simpl.
  assert (final (make_call numeric_rate numeric_percent c) w = w) as ->; [|exact IH].
  assert (∀ A (m : M (svc D (review_env H)) A), m w = (Throw e, w) → final (m ;;; ret tt) w = w) as Hf
    by (intros A m Em; unfold final, bind; by rewrite Em).
  destruct c; unfold make_call; try (apply Hf, Hk). unfold final, markContractSubmitted. by rewrite Hk.
Qed.
End theorems.

(** ** The service over the webhooks *)

(** The outside of the service, from a clock, the schema statements and the webhooks. *)
#[export] Instance webhook_review {H} `{!WebhookWorld H} (config : WebhookConfig) (clock : H → Z)
    (schema : M H unit) : ReviewWorld (publisher H) | 10 := {|
  rw_now w := clock (pb_out w);
  create_schema := pub_out schema;
  notify_review := sendManualReviewNotification config;
|}.

(** ** Witnesses *)

(** The client returns a [NUMERIC] as an object that prints as the number. *)
Definition decimal_object (x : number) : jsval := JOther x (String_num x).

(** A world without webhooks, which is its time. *)
Definition quiet_review : ReviewWorld Z := {|
  rw_now t := t;
  create_schema := ret tt;
  notify_review _ := ret tt;
|}.

Definition review_time : Z := 1700000000000.

(** 750 for a naira, submitted a minute ago. *)
Definition submitted_750 : RawReviewRow :=
  mkReview 1 "NGN" (decimal_object (num_of_Z 750)) "median" (review_time - 60000) AUTO_APPROVED
    SUBMITTED None None JNull None JNull (Some "SF-NGN-1") (Some "ab12") None None 0 0.

Definition review_store : svc (gmap Z RawReviewRow) (review_env Z) :=
  mkSvc {[1 := submitted_750]} (mkReviewEnv None review_time).

Definition rate_900 : MarketRate := mkRate "ngn" (num_of_Z 900) (Some review_time) "median" None.

Definition sample_assess : M (svc (gmap Z RawReviewRow) (review_env Z)) PriceAssessment :=
  assessRate (ReviewWorld0 := quiet_review) decimal_object decimal_object rate_900.

Definition held_store : svc (gmap Z RawReviewRow) (review_env Z) := final sample_assess review_store.

Lemma review_store_ok : records_ok (svc_db review_store).
Proof.
  intros k r Hr. change (({[1 := submitted_750]} : gmap Z RawReviewRow) !! k = Some r) in Hr.
  by apply lookup_singleton_Some in Hr as [<- <-].
Qed.

Lemma assess_holds_back_witness :
  ∃ a, sample_assess review_store = (Ok a, held_store) ∧ as_manualReviewRequired a = true ∧
    assessment_spec decimal_object rate_900 review_time (rows (svc_db review_store)) a
      (rows (svc_db held_store)).
Proof.
  assert (utc (mr_timestamp rate_900) = Ok review_time) as Ht by (vm_compute; reflexivity).
  pose (out := sample_assess review_store).
  assert (match out.1 with Ok a => as_manualReviewRequired a | Throw _ => false end = true) as Hm
    by (vm_compute; reflexivity).
  destruct out as [[a|e] w'] eqn:E; [|discriminate Hm]. exists a.
  assert (sample_assess review_store = (Ok a, held_store)) as E'.
  { unfold held_store, final. fold out. rewrite E. reflexivity. }
  split; [exact E'|split; [exact Hm|]]. unfold sample_assess in E'.
  exact (assess_holds_back (ReviewWorld0 := quiet_review) decimal_object decimal_object rate_900
    review_store a held_store review_time Ht E').
Defined.


(** The statement of a mark names the record only: a rate held back for review is marked as
    submitted while it waits, and a rejection makes it skipped again; one that is rejected
    stays rejected and becomes submitted. *)
Example marked_while_pending :
  (λ cs, (λ r, (rv_review_status r, rv_contract_status r)) <$>
     (svc_db (review_calls (ReviewWorld0 := quiet_review) decimal_object decimal_object cs review_store) !! 2))
    <$> [[CallAssess rate_900; CallMark 2 "SF-NGN-2" "cd34"];
         [CallAssess rate_900; CallMark 2 "SF-NGN-2" "cd34"; CallReject 2 None None];
         [CallAssess rate_900; CallReject 2 None None; CallMark 2 "SF-NGN-2" "cd34"]]
  = [Some (PENDING, SUBMITTED); Some (REJECTED, SKIPPED); Some (REJECTED, SUBMITTED)].
Proof. vm_compute. reflexivity. Qed.

Lemma held_store_ok : records_ok (svc_db held_store).
Proof.
  assert (grows (svc_db review_store) (svc_db held_store)) as [G _]; [|by apply G, review_store_ok].
  by apply (preserves_final (λ w, grows (svc_db review_store) (svc_db w)) _ review_store (assess_grows (ReviewWorld0 := quiet_review)
    decimal_object decimal_object (svc_db review_store) rate_900)).
Qed.

(** Reject the held rate, then try to approve it. *)
Definition sample_reject : M (svc (gmap Z RawReviewRow) (review_env Z)) PendingPriceReview :=
  resolveReview (ReviewWorld0 := quiet_review) 2 (resolve_row REJECTED SKIPPED None None None).
Definition rejected_store : svc (gmap Z RawReviewRow) (review_env Z) := final sample_reject held_store.

Lemma resolved_once_witness :
  is_ok (outcome sample_reject held_store) = true ∧
  ∀ b w3, approveReview (ReviewWorld0 := quiet_review) 2 None None "SF-NGN-2" "cd34" rejected_store
          ≠ (Ok b, w3).
Proof.
  assert (is_ok (outcome sample_reject held_store) = true) as Ho by (vm_compute; reflexivity).
  split; [exact Ho|]. intros b w3.
  pose (out := sample_reject held_store).
  assert (is_ok out.1 = true) as Ho' by exact Ho.
  destruct out as [[a|e] w1] eqn:E; [|discriminate Ho'].
  assert (resolveReview (ReviewWorld0 := quiet_review) 2 (resolve_row REJECTED SKIPPED None None None)
    held_store = (Ok a, rejected_store)) as E'.
  { unfold rejected_store, final. change (sample_reject held_store = (Ok a, (sample_reject held_store).2)).
    fold out. rewrite E. reflexivity. }
  exact (resolved_once (ReviewWorld0 := quiet_review) decimal_object decimal_object 2 _ _ a b
    [] held_store rejected_store w3 held_store_ok (reject_resolution None None) E').
Defined.

(** The database was down when the service started. *)
Definition broken_store : svc (gmap Z RawReviewRow) (review_env Z) :=
  mkSvc {[1 := submitted_750]} (mkReviewEnv (Some (Throw (Error "Can't reach database server"))) review_time).

Lemma schema_failure_final_witness :
  assessRate (ReviewWorld0 := quiet_review) decimal_object decimal_object rate_900 broken_store
  = (Throw (Error "Can't reach database server"), broken_store).
Proof.
  exact (proj1 (proj2 (schema_failure_final (ReviewWorld0 := quiet_review) decimal_object decimal_object
    (Error "Can't reach database server") [] broken_store eq_refl)) rate_900).
Defined.

(** The rate that was held back is read as zero by the reviewer: the batch parser drops the
    object the client returned. *)
Example held_rate_reads_zero :
  (λ r, (pr_rate r, pr_baselineRate r)) <$>
    match outcome (getPendingReviewById (ReviewWorld0 := quiet_review) 2) held_store with
    | Ok r => r | Throw _ => None end
  = Some (num_zero, None).
Proof. vm_compute. reflexivity. Qed.

