(* ===== verification/Lockdown.v ===== *)
(** * Lockdown ([state/appState.ts])

    The flag that stops the signing of transactions: a copy in memory and one in Redis,
    read through whenever Redis is connected. Proved: what was set is read back, when Redis
    takes it and keeps it; a signature is allowed exactly when the state read is not
    locked; and a lockdown set while Redis is away is undone by the older state that Redis
    still holds. *)

From S2P Require Import Prelude JsNumber JsString JsDate JsDecimal JsValue.

Local Open Scope Z_scope.

Definition LOCKDOWN_REDIS_KEY : string := "stellarflow:lockdown:v1".
Definition LOCKDOWN_MESSAGE : string :=
  "Backend lockdown is enabled. Transaction signing is disabled.".

Record LockdownState := mkLockdown {
  ld_isLocked : bool;
  ld_reason : option string;
  ld_updatedAt : option string;
}.

Definition defaultLockdownState : LockdownState := mkLockdown false None None.

(** A reason of any shape; [JUndef] and [JNull] stand for none. *)
Definition normalizeReason (reason : jsval) : option string :=
  match reason with
  | JStr s => let trimmedReason := trim s in
              if decide (0 < String.length trimmedReason)%nat then Some trimmedReason else None
  | _ => None
  end.

Definition normalizeLockdownState (value : jsval) : LockdownState :=
  if negb (truthy value) || negb (is_object value) then defaultLockdownState
  else
    mkLockdown (match prop value "isLocked" with JBool b => b | _ => false end)
      (normalizeReason (prop value "reason"))
      (match prop value "updatedAt" with
       | JStr s => if decide (0 < String.length s)%nat then Some s else None
       | _ => None
       end).

(** [JSON.stringify(state)] *)
Definition state_value (state : LockdownState) : jsval :=
  let nullable x := match x with Some s => JStr s | None => JNull end in
  JObj [("isLocked", JBool (ld_isLocked state)); ("reason", nullable (ld_reason state));
        ("updatedAt", nullable (ld_updatedAt state))].
Definition state_text (state : LockdownState) : string := default "" (JSON_stringify (state_value state)).

(** The Redis client: a key that is read is what was last written, and a call that fails
    writes nothing that was not asked for. *)
Class LockdownRedis (R : Type) := {
  lr_ready : R → bool;
  lr_get : string → M R (option string);
  lr_set : string → string → M R unit;
  lr_kv : R → gmap string string;
  lr_get_ok k r o r' : lr_get k r = (Ok o, r') → o = lr_kv r !! k ∧ lr_kv r' = lr_kv r;
  lr_get_err k r e r' : lr_get k r = (Throw e, r') → lr_kv r' = lr_kv r;
  lr_set_ok k v r r' : lr_set k v r = (Ok tt, r') → lr_kv r' = <[k := v]> (lr_kv r);
}.

(** The module's variable and the client. *)
Record app_state (R : Type) := mkApp { ap_memory : LockdownState; ap_redis : R }.
Arguments mkApp {R} _ _.
Arguments ap_memory {R} _.
Arguments ap_redis {R} _.

Section state.
Context {R : Type} `{!LockdownRedis R} (JSON_parse : string → exc jsval).
Notation run := (M (app_state R)).

Definition at_redis {A} (c : M R A) : run A := λ s,
  let '(r, rd) := c (ap_redis s) in (r, mkApp (ap_memory s) rd).
Definition set_memory (state : LockdownState) : run unit := modify (λ s, mkApp state (ap_redis s)).

Definition persistLockdownState (state : LockdownState) : run unit :=
  set_memory state ;;;
  s <- get ;;
  if negb (lr_ready (ap_redis s)) then ret tt
  else at_redis (lr_set LOCKDOWN_REDIS_KEY (state_text state)).

Definition getLockdownState : run LockdownState :=
  s <- get ;;
  if negb (lr_ready (ap_redis s)) then ret (ap_memory s)
  else
    try_catch
      (cachedState <- at_redis (lr_get LOCKDOWN_REDIS_KEY) ;;
       if negb (truthy_opt cachedState) then s <- get ;; ret (ap_memory s)
       else
         v <- lift_exc (JSON_parse (default "" cachedState)) ;;
         let parsedState := normalizeLockdownState v in
         set_memory parsedState ;;; ret parsedState)
      (λ _, s <- get ;; ret (ap_memory s)).

Definition isLockdownEnabled : run bool := state <- getLockdownState ;; ret (ld_isLocked state).

(** [reason] is [options?.reason]; [now] is the time of [new Date()]. *)
Definition next_state (isLocked : bool) (reason : jsval) (now : Z) : LockdownState :=
  mkLockdown isLocked (if isLocked then normalizeReason reason else None) (Some (toISOString now)).

Definition setLockdownState (isLocked : bool) (reason : jsval) (now : Z) : run LockdownState :=
  let nextState := next_state isLocked reason now in
  persistLockdownState nextState ;;; ret nextState.

Definition nullish_or (v : jsval) (fallback : option string) : jsval :=
  match v with
  | JUndef | JNull => match fallback with Some s => JStr s | None => JNull end
  | _ => v
  end.

Definition toggleLockdownState (reason : jsval) (now : Z) : run LockdownState :=
  currentState <- getLockdownState ;;
  setLockdownState (negb (ld_isLocked currentState)) (nullish_or reason (ld_reason currentState)) now.

Definition LockdownError (reason : option string) : js_error :=
  Error (if truthy_opt reason then LOCKDOWN_MESSAGE +:+ " Reason: " +:+ default "" reason
         else LOCKDOWN_MESSAGE).

Definition assertSigningAllowed : run unit :=
  lockdownState <- getLockdownState ;;
  if ld_isLocked lockdownState then throw (LockdownError (ld_reason lockdownState)) else ret tt.
End state.

(** ** Trimming *)

(** The text does not start with a space. *)
Definition no_lead (s : string) : Prop := trim_start s = s.

Lemma trim_start_no_lead s : no_lead (trim_start s).
Proof.
  unfold no_lead. induction s as [|c s IH]; [done|]. cbn [trim_start].
  destruct (_ || _)%nat eqn:E; [done|]. cbn [trim_start]. by rewrite E.
Qed.

Lemma rev_string_spec s acc :
  String.list_ascii_of_string (rev_string s acc)
  = rev (String.list_ascii_of_string s) ++ String.list_ascii_of_string acc.
Proof.
  revert acc; induction s as [|c s IH]; intros acc; [done|]. simpl. rewrite IH. simpl.
  by rewrite <-(assoc_L (++)).
Qed.

Lemma rev_string_involutive s : rev_string (rev_string s "") "" = s.
Proof.
  rewrite <-(String.string_of_list_ascii_of_string (rev_string _ _)).
  rewrite rev_string_spec, rev_string_spec. simpl. rewrite !app_nil_r, rev_involutive.
  apply String.string_of_list_ascii_of_string.
Qed.

(** What a trimmed start leaves is the end of the text. *)
Lemma trim_start_suffix s :
  ∃ l, String.list_ascii_of_string s = l ++ String.list_ascii_of_string (trim_start s).
Proof.
  induction s as [|c s [l IH]]; [by exists []|]. cbn [trim_start].
  destruct (_ || _)%nat; [exists (c :: l); simpl; by rewrite IH|by exists []].
Qed.

Lemma trim_idempotent s : trim (trim s) = trim s.
Proof.
  unfold trim. set (u := trim_start s). set (v := rev_string (trim_start (rev_string u "")) "").
  assert (no_lead v) as Hv.
  { destruct (trim_start_suffix (rev_string u "")) as [l Hl].
    assert (String.list_ascii_of_string u = String.list_ascii_of_string v ++ rev l) as Hu.
    { rewrite rev_string_spec in Hl. simpl in Hl. rewrite app_nil_r in Hl.
      unfold v. rewrite rev_string_spec. simpl. rewrite app_nil_r.
      rewrite <-(rev_involutive (String.list_ascii_of_string u)), Hl, rev_app_distr. done. }
    pose proof (trim_start_no_lead s) as Hn. fold u in Hn. unfold no_lead in *.
    destruct v as [|c v']; [done|]. destruct u as [|d u']; [done|].
    simpl in Hu. injection Hu as -> _. cbn [trim_start] in *.
    destruct (_ || _)%nat eqn:E; [|done].
    exfalso. assert (∀ t, (String.length (trim_start t) ≤ String.length t)%nat) as Hlen.
    { clear. induction t as [|c t IH]; [done|]. cbn [trim_start].
      destruct (_ || _)%nat; simpl; lia. }
    specialize (Hlen u'). rewrite Hn in Hlen. simpl in Hlen. lia. }
  rewrite Hv. unfold v. rewrite rev_string_involutive. by rewrite trim_start_no_lead.
Qed.

Section state_facts.
Context {R : Type} `{!LockdownRedis R} (JSON_parse : string → exc jsval).
Implicit Types s : app_state R.

(** A state that was set is not changed by being normalised again. *)
Lemma normalize_next_state b reason now :
  normalizeLockdownState (state_value (next_state b reason now)) = next_state b reason now.
Proof.
  unfold normalizeLockdownState, state_value, next_state.
  cbn [truthy is_object negb orb ld_isLocked ld_reason ld_updatedAt].
  change (prop _ "updatedAt") with (JStr (toISOString now)). change (prop _ "isLocked") with (JBool b).
  change (prop _ "reason") with (match (if b then normalizeReason reason else None) with
                                 | Some s => JStr s | None => JNull end).
  assert ((0 < String.length (toISOString now))%nat) as Hl.
  { unfold toISOString. destruct (civil_of_days _) as [[y m] d]. destruct (iso_year y); simpl; lia. }
  cbv iota beta. rewrite decide_True by done.
  f_equal. destruct b; [|done]. unfold normalizeReason.
  destruct reason as [| | | |r| | |]; try done. case_decide as Hr; [|done].
  rewrite trim_idempotent. by rewrite decide_True.
Qed.

Lemma catch_total {W A} (c : M W A) (f : W → A) w :
  ∃ a, (try_catch c (λ _, s <- get ;; ret (f s)) w).1 = Ok a.
Proof. unfold try_catch. destruct (c w) as [[a|e] w']; by eexists. Qed.

(** Reading never throws. *)
Lemma getLockdownState_total s : ∃ st, outcome (getLockdownState JSON_parse) s = Ok st.
Proof.
  unfold getLockdownState, outcome, bind at 1, get at 1. destruct (negb _); [by eexists|].
  apply catch_total.
Qed.

Lemma persist_spec st s s1 :
  persistLockdownState st s = (Ok tt, s1) →
  ap_memory s1 = st ∧
  (lr_ready (ap_redis s) = true → lr_kv (ap_redis s1) !! LOCKDOWN_REDIS_KEY = Some (state_text st)) ∧
  (lr_ready (ap_redis s) = false → ap_redis s1 = ap_redis s).
Proof.
  unfold persistLockdownState, set_memory, modify, bind, get, at_redis. simpl.
  destruct (lr_ready (ap_redis s)) eqn:Er; simpl.
  - destruct (lr_set _ _ _) as [[[]|e] r] eqn:Es; [|done]. intros [= <-]. simpl.
    apply lr_set_ok in Es. split_and!; [done| |done]. intros _. by rewrite Es, lookup_insert_eq.
  - intros [= <-]. done.
Qed.

(** What a read makes of the text in Redis. *)
Lemma get_ready txt v s :
  lr_ready (ap_redis s) = true → lr_kv (ap_redis s) !! LOCKDOWN_REDIS_KEY = Some txt → txt ≠ "" →
  JSON_parse txt = Ok v →
  match lr_get LOCKDOWN_REDIS_KEY (ap_redis s) with
  | (Ok _, r) => getLockdownState JSON_parse s = (Ok (normalizeLockdownState v),
                                                  mkApp (normalizeLockdownState v) r)
  | (Throw _, r) => getLockdownState JSON_parse s = (Ok (ap_memory s), mkApp (ap_memory s) r)
  end.
Proof.
  intros Hr Hk Hne Hp. unfold getLockdownState, bind, get, at_redis, try_catch. rewrite Hr. simpl.
  destruct (lr_get _ _) as [[o|e] r] eqn:Eg; [|done]. apply lr_get_ok in Eg as [-> _].
  rewrite Hk. simpl. unfold truthy_str. rewrite bool_decide_true by done. simpl.
  unfold lift_exc. by rewrite Hp.
Qed.

(** The state is locked, and so is whatever Redis may return instead. *)
Definition locked_for_good s : Prop :=
  ld_isLocked (ap_memory s) = true ∧
  ∀ txt v, lr_kv (ap_redis s) !! LOCKDOWN_REDIS_KEY = Some txt → JSON_parse txt = Ok v →
    ld_isLocked (normalizeLockdownState v) = true.

(** Reading a lasting lockdown returns it, and leaves it. *)
Lemma wp_locked s (E : js_error → app_state R → Prop) :
  locked_for_good s →
  wp (getLockdownState JSON_parse) (λ st s', ld_isLocked st = true ∧ locked_for_good s') E s.
Proof.
  intros HL. unfold getLockdownState. apply wp_bind. unfold wp at 1, get.
  destruct (negb (lr_ready (ap_redis s))); [by apply wp_ret; split; [apply HL|]|].
  assert (∀ s', locked_for_good s' →
    wp (s <- get ;; ret (ap_memory s)) (λ st s', ld_isLocked st = true ∧ locked_for_good s') E s') as Hm.
  { intros s' HL'. apply wp_bind. unfold wp at 1, get. apply wp_ret. split; [apply HL'|done]. }
  apply wp_try_catch, wp_bind. unfold wp at 1, at_redis.
  destruct (lr_get LOCKDOWN_REDIS_KEY (ap_redis s)) as [[o|e] r] eqn:Eg.
  - apply lr_get_ok in Eg as [-> Ekv].
    assert (∀ mem, ld_isLocked mem = true → locked_for_good (mkApp mem r)) as HL1.
    { intros mem Hmem. split; [done|]. simpl. rewrite Ekv. apply HL. }
    assert (locked_for_good (mkApp (ap_memory s) r)) as HL2 by apply HL1, HL.
    destruct (lr_kv (ap_redis s) !! LOCKDOWN_REDIS_KEY) as [txt|] eqn:Ek; [|by apply Hm].
    destruct (negb _); [by apply Hm|].
    apply wp_bind. unfold wp at 1, lift_exc. simpl.
    destruct (JSON_parse txt) as [v|e] eqn:Ep; [|by apply Hm].
    assert (ld_isLocked (normalizeLockdownState v) = true) as Hv by by eapply (proj2 HL).
    unfold set_memory. apply wp_bind. unfold wp at 1, modify. apply wp_ret. split; [done|by apply HL1].
  - apply lr_get_err in Eg. apply Hm. split; [apply HL|]. simpl. rewrite Eg. apply HL.
Qed.
End state_facts.

(** ** Theorems *)

Section theorems.
Context {R : Type} `{!LockdownRedis R} (JSON_parse : string → exc jsval).
Implicit Types s : app_state R.

(** The gate never fails on its own: it answers in every state, whatever Redis does, and a
    signature is refused, with the lockdown error, exactly when the state is locked. *)
Theorem signing_gate s :
  ∃ locked, outcome (isLockdownEnabled JSON_parse) s = Ok locked ∧
    (locked = false → outcome (assertSigningAllowed JSON_parse) s = Ok tt) ∧
    (locked = true → ∃ reason, outcome (assertSigningAllowed JSON_parse) s = Throw (LockdownError reason)).
Proof.
  destruct (getLockdownState_total JSON_parse s) as [st Hst].
  exists (ld_isLocked st). unfold isLockdownEnabled, assertSigningAllowed, outcome, bind in *.
  destruct (getLockdownState JSON_parse s) as [r s']. simpl in Hst. subst r.
  split; [done|]. destruct (ld_isLocked st); (split; [try done|try done]). intros _. by eexists.
Qed.

(** A state that was set while Redis is connected is read back from then on, connected or
    not, until something else writes the key or the memory. *)
Theorem lockdown_read_back locked reason now s st s1 s2 :
  lr_ready (ap_redis s) = true →
  setLockdownState locked reason now s = (Ok st, s1) →
  JSON_parse (state_text st) = Ok (state_value st) →
  ap_memory s2 = ap_memory s1 →
  lr_kv (ap_redis s2) !! LOCKDOWN_REDIS_KEY = lr_kv (ap_redis s1) !! LOCKDOWN_REDIS_KEY →
  st = next_state locked reason now ∧ outcome (getLockdownState JSON_parse) s2 = Ok st ∧
  ap_memory (final (getLockdownState JSON_parse) s2) = st.
Proof.
  intros Hr Hs Hp Hm Hk. unfold setLockdownState, bind in Hs.
  destruct (persistLockdownState _ s) as [[[]|e] s0] eqn:Ep; [|done]. injection Hs as <- ->.
  apply persist_spec in Ep as (Em & Ekv & _). rewrite Em in Hm. rewrite (Ekv Hr) in Hk. split; [done|].
  destruct (lr_ready (ap_redis s2)) eqn:Er.
  - pose proof (get_ready JSON_parse _ _ s2 Er Hk ltac:(done) Hp) as Hg.
    unfold outcome, final. rewrite normalize_next_state in Hg.
    destruct (lr_get _ _) as [[o|e] r]; rewrite Hg; [done|]. simpl. by rewrite Hm.
  - unfold outcome, final, getLockdownState, bind, get. rewrite Er. simpl. by rewrite Hm.
Qed.

(** A lockdown set while Redis is away does not last: as soon as Redis is connected again
    and can be read, an older unlocked state it still holds replaces the lockdown in memory,
    and signing is allowed. *)
Theorem lockdown_undone reason now s st s1 s2 txt v o r :
  lr_ready (ap_redis s) = false →
  setLockdownState true reason now s = (Ok st, s1) →
  ap_memory s2 = ap_memory s1 → lr_ready (ap_redis s2) = true →
  lr_kv (ap_redis s2) !! LOCKDOWN_REDIS_KEY = Some txt → txt ≠ "" → JSON_parse txt = Ok v →
  ld_isLocked (normalizeLockdownState v) = false →
  lr_get LOCKDOWN_REDIS_KEY (ap_redis s2) = (Ok o, r) →
  ld_isLocked st = true ∧ ap_memory s2 = st ∧
  outcome (assertSigningAllowed JSON_parse) s2 = Ok tt ∧
  ld_isLocked (ap_memory (final (assertSigningAllowed JSON_parse) s2)) = false.
Proof.
  intros Hr Hs Hm Hr2 Hk Hne Hp Hu Hg. unfold setLockdownState, bind in Hs.
  destruct (persistLockdownState _ s) as [[[]|e] s0] eqn:Ep; [|done]. injection Hs as <- ->.
  apply persist_spec in Ep as (Em & _). split; [done|]. split; [congruence|].
  pose proof (get_ready JSON_parse txt v s2 Hr2 Hk Hne Hp) as Hget. rewrite Hg in Hget.
  unfold outcome, final, assertSigningAllowed, bind. rewrite Hget. rewrite Hu. done.
Qed.
End theorems.

(** ** Witnesses *)

(** A Redis server in memory, with its connection. *)
#[export] Instance mem_lockdown_redis : LockdownRedis (bool * gmap string string).
Proof.
  refine {|
    lr_ready r := r.1;
    lr_get k := λ r, (Ok (r.2 !! k), r);
    lr_set k v := λ r, (Ok tt, (r.1, <[k := v]> r.2));
    lr_kv r := r.2 |}.
  - by intros k r o r' [= <- <-].
  - done.
  - by intros k v r r' [= <-].
Defined.

(** The lockdown of an operator, and the unlocked state of the day before; the parser reads
    back these two. *)
Definition locked_state : LockdownState := next_state true (JStr " key leak ") 1700000000000.
Definition unlocked_state : LockdownState := next_state false JUndef 1600000000000.
Definition parse_two (t : string) : exc jsval :=
  if decide (t = state_text locked_state) then Ok (state_value locked_state)
  else Ok (state_value unlocked_state).

Definition app (connected : bool) (memory stored : LockdownState) : app_state (bool * gmap string string) :=
  mkApp memory (connected, {[LOCKDOWN_REDIS_KEY := state_text stored]}).

Lemma lockdown_read_back_witness :
  outcome (getLockdownState parse_two) (app false locked_state locked_state) = Ok locked_state ∧
  ld_reason locked_state = Some "key leak".
Proof.
  assert (lr_ready (ap_redis (app true unlocked_state unlocked_state)) = true) as Hr by (vm_compute; reflexivity).
  assert (setLockdownState true (JStr " key leak ") 1700000000000 (app true unlocked_state unlocked_state)
    = (Ok locked_state, app true locked_state locked_state)) as Hs by (vm_compute; reflexivity).
  assert (parse_two (state_text locked_state) = Ok (state_value locked_state)) as Hp by (vm_compute; reflexivity).
  split; [|vm_compute; reflexivity].
  exact (proj1 (proj2 (lockdown_read_back parse_two true (JStr " key leak ") 1700000000000 _ _ _
    (app false locked_state locked_state) Hr Hs Hp eq_refl eq_refl))).
Defined.

Lemma lockdown_undone_witness :
  outcome (assertSigningAllowed parse_two) (app true locked_state unlocked_state) = Ok tt.
Proof.
  assert (setLockdownState true (JStr " key leak ") 1700000000000 (app false unlocked_state unlocked_state)
    = (Ok locked_state, app false locked_state unlocked_state)) as Hs by (vm_compute; reflexivity).
  assert (lr_kv (ap_redis (app true locked_state unlocked_state)) !! LOCKDOWN_REDIS_KEY
    = Some (state_text unlocked_state)) as Hk by (vm_compute; reflexivity).
  assert (state_text unlocked_state ≠ "") as Hne by (vm_compute; discriminate).
  assert (parse_two (state_text unlocked_state) = Ok (state_value unlocked_state)) as Hp by (vm_compute; reflexivity).
  assert (ld_isLocked (normalizeLockdownState (state_value unlocked_state)) = false) as Hu by (vm_compute; reflexivity).
  exact (proj1 (proj2 (proj2 (lockdown_undone parse_two (JStr " key leak ") 1700000000000
    (app false unlocked_state unlocked_state) _ _ (app true locked_state unlocked_state) _ _ _ _ eq_refl Hs eq_refl eq_refl Hk Hne Hp Hu eq_refl)))).
Defined.
