(* ===== verification/MarketSources.v ===== *)
(** * Where market rates come from and what they are compared with
    ([services/marketRate/kesFetcher.ts], [ghsFetcher.ts], [ngnFetcher.ts];
    [services/anomalyDetection.ts], [services/sanityCheckService.ts])

    Everything the rate services do outside is a [market_call], performed by a world of the
    class [MarketWorld] that also knows what was sent to the network. On it: the three
    fetchers with their retries, the comparison with the stored history and the comparison
    with external prices. Proved: what a fetched rate is; that the naira rate cannot be
    fetched without VTpass; that the comparisons never stop a rate, send nothing to the
    network, and when they speak up. *)

From Stdlib Require Import SpecFloat Ascii.
From stdpp Require Import pretty.
From S2P Require Import Prelude JsNumber JsString JsDate Prisma Service Retry JsDecimal JsValue PriceFilter Serialization Webhook PriceReview.

Local Open Scope Z_scope.

Record RawApiResponse := mkRaw {
  ra_provider : string;
  ra_endpoint : option string;
  ra_payload : jsval;
  ra_receivedAt : option Z;
}.

(** A row of [rawData.createMany]. *)
Record RawDataRow := mkRawRow {
  rr_currency : string;
  rr_provider : string;
  rr_endpoint : option string;
  rr_payload : option string;
  rr_fetchedAt : Z;
}.

(** What the rate services ask of the outside. *)
Inductive market_call : Type → Type :=
| Clock : market_call Z
| Sleep (ms : Z) : market_call unit
| HttpGet (url : string) (params headers : list (string * string)) : market_call jsval
| PriceAnomalyAlert (currency : string) (rate expectedRate deviationPercent : number)
    (source correlationId : string) : market_call unit
| NotifyReview (r : ReviewDetails) : market_call unit
| CreateReviewSchema : market_call unit
| CreateRawData (data : list RawDataRow) : market_call unit
| CreateErrorLog (currency errorMessage : string) : market_call unit
| RandomBelow1000 : market_call Z
| SubmitManageData (name value memo : string) : market_call string
| CreateMultiSigRequest (reviewId : Z) (currency : string) (rate : number) (source memo : string) :
    market_call Z
| SignMultiSigPrice (id : Z) : market_call unit
| RequestRemoteSignature (id : Z) (serverUrl : string) : market_call unit
| Broadcast (event : string) (payload : jsval) : market_call unit.

(** The price updates a call submits to the network. *)
Definition submission {A} (c : market_call A) : option (string * string * string) :=
  match c with SubmitManageData n v m => Some (n, v, m) | _ => None end.

Class MarketWorld (H : Type) := {
  perform : ∀ {A}, market_call A → M H A;
  mw_now : H → Z;
  (** the milliseconds between two readings of the clock in one synchronous call *)
  mw_elapsed : H → Z;
  (** The price updates handed to the submission loop of [StellarService], which is modelled
      on its own. Only a submission adds one; one that fails may have failed before. *)
  sent : H → list (string * string * string);
  perform_sent {A} (c : market_call A) h : submission c = None → sent (final (perform c) h) = sent h;
  submit_ok n v m h r h' : perform (SubmitManageData n v m) h = (Ok r, h') →
    sent h' = sent h ++ [(n, v, m)];
  submit_err n v m h e h' : perform (SubmitManageData n v m) h = (Throw e, h') →
    sent h' = sent h ∨ sent h' = sent h ++ [(n, v, m)];
}.

(** The price review service, in such a world. *)
#[export] Instance market_review {H} `{!MarketWorld H} : ReviewWorld H | 5 := {|
  rw_now := mw_now;
  create_schema := perform CreateReviewSchema;
  notify_review r := perform (NotifyReview r);
|}.

(** ** JavaScript *)

(** [v.name] on a value that may be null or undefined *)
Definition access (v : jsval) (name : string) : exc jsval :=
  if is_nullish v then Throw (Error ("Cannot read properties of undefined (reading '" +:+ name +:+ "')"))
  else Ok (prop v name).

(** [typeof v === "number" && v > 0] *)
Definition positive_number (v : jsval) : option number :=
  match v with JNum n => if num_ltb num_zero n then Some n else None | _ => None end.

(** [new Date(v * 1000)] *)
Definition date_of_seconds (v : jsval) : option Z :=
  let ms := num_mul (Number_val v) (num_of_Z 1000) in
  if isFinite ms then TimeClip (trunc_Z ms) else None.

(** [a > b] of dates *)
Definition date_gt (a b : option Z) : bool :=
  match a, b with Some a, Some b => b <? a | _, _ => false end.

Fixpoint strip_commas (s : string) : string :=
  match s with
  | "" => ""
  | String c s' => if decide (c = ","%char) then strip_commas s' else String c (strip_commas s')
  end%string.

(** [s.replace(/\/$/, "")] *)
Definition strip_slash (s : string) : string :=
  let n := String.length s in
  if decide (String.substring (n - 1) 1 s = "/") then slice_to (n - 1) s else s.

Section sources.
Context {H : Type} `{!MarketWorld H}.

Definition fetch_retry (retries : nat) : RetryConfig :=
  mkRetryConfig retries 1000 (exponentialBackoff DEFAULT_RETRY_CONFIG)
    (retryableStatusCodes DEFAULT_RETRY_CONFIG) None.

(** [withRetry(() => httpClient.get(url, ...), { maxRetries, retryDelay: 1000 })] *)
Definition get_json (retries : nat) (url : string) (params headers : list (string * string)) : M H jsval :=
  withRetry (fetch_retry retries) (perform (HttpGet url params headers)) (λ _ _ ms, perform (Sleep ms)).

Definition clock_date : M H (option Z) := t <- perform Clock ;; ret (Some t).

(** [v ? new Date(v * 1000) : new Date()] *)
Definition date_or_now (v : jsval) : M H (option Z) :=
  if truthy v then ret (date_of_seconds v) else clock_date.

(** ** The KES and GHS fetchers, which differ in their texts only *)

Definition coingecko_url (currencies : string) : string :=
  "https://api.coingecko.com/api/v3/simple/price?ids=stellar&vs_currencies=" +:+ currencies +:+
  "&include_last_updated_at=true".

Definition simple_fetchRate (code field_name : string) : M H (MarketRate * list RawApiResponse) :=
  let coinGeckoUrl := coingecko_url field_name in
  data <- get_json 3 coinGeckoUrl [] [] ;;
  stellarPrice <- lift_exc (access data "stellar") ;;
  match (if truthy stellarPrice then positive_number (prop stellarPrice field_name) else None) with
  | Some rate =>
      receivedAt <- clock_date ;;
      lastUpdatedAt <- date_or_now (prop stellarPrice "last_updated_at") ;;
      ret (mkRate code rate lastUpdatedAt ("CoinGecko (" +:+ code +:+ ")") None,
           [mkRaw "CoinGecko" (Some coinGeckoUrl) data receivedAt])
  | None => throw (Error ("Invalid response from CoinGecko for " +:+ code))
  end.

Definition kes_fetchRate : M H (MarketRate * list RawApiResponse) := simple_fetchRate "KES" "kes".
Definition ghs_fetchRate : M H (MarketRate * list RawApiResponse) := simple_fetchRate "GHS" "ghs".

(** [isHealthy] of the three fetchers *)
Definition isHealthy (fetchRate : M H (MarketRate * list RawApiResponse)) : M H bool :=
  try_catch (r <- fetchRate ;; ret (num_ltb num_zero (mr_rate r.1))) (λ _, ret false).

(** ** The NGN fetcher *)

Record NGNPriceCandidate := mkCandidate {
  nc_rate : number;
  nc_timestamp : option Z;
  nc_source : string;
}.

(** The environment variables it reads. *)
Record NgnEnv := mkNgnEnv {
  VTPASS_API_BASE_URL : option string;
  VTPASS_API_KEY : option string;
  VTPASS_PUBLIC_KEY : option string;
  VTPASS_NGN_SERVICE_ID : option string;
  VTPASS_NGN_VARIATION_CODE : option string;
}.

Definition parseAmount (value : jsval) : option number :=
  if is_nullish value then None
  else let n := parseFloat (strip_commas (String_val value)) in
       if negb (isFinite n) || num_leb n num_zero then None else Some n.

Context (env : NgnEnv).

Definition vtpassBase : string :=
  strip_slash (default "https://vtpass.com/api" (VTPASS_API_BASE_URL env)).

Definition vtpassHeaders : option (list (string * string)) :=
  if truthy_opt (VTPASS_API_KEY env) && truthy_opt (VTPASS_PUBLIC_KEY env) then
    Some [("api-key", default "" (VTPASS_API_KEY env)); ("public-key", default "" (VTPASS_PUBLIC_KEY env))]
  else None.

(** [variations.find((v) => v.variation_code === variationCode)] *)
Fixpoint find_variation (code : string) (l : list jsval) : exc jsval :=
  match l with
  | [] => Ok JUndef
  | v :: l' =>
      c ← access v "variation_code";
      if match c with JStr s => bool_decide (s = code) | _ => false end then Ok v
      else find_variation code l'
  end.

Definition fetchNgnPerUsdFromVtpass : M H (option (number * option Z * jsval)) :=
  let serviceId := trim <$> VTPASS_NGN_SERVICE_ID env in
  let variationCode := trim <$> VTPASS_NGN_VARIATION_CODE env in
  if negb (truthy_opt serviceId) || negb (truthy_opt variationCode) then ret None
  else match vtpassHeaders with
  | None => ret None
  | Some headers =>
      data <- get_json 3 (vtpassBase +:+ "/service-variations")
                [("serviceID", default "" serviceId)] headers ;;
      description <- lift_exc (access data "response_description") ;;
      if negb (match description with JStr s => bool_decide (s = "000") | _ => false end) then ret None
      else
        let variations := prop (prop data "content") "variations" in
        found <- lift_exc (match variations with
                           | JArr l => find_variation (default "" variationCode) l
                           | JUndef | JNull => Ok JUndef
                           | _ => Throw (Error "variations.find is not a function")
                           end) ;;
        if negb (truthy found) then ret None
        else
          let rateFromField := parseAmount (prop found "variation_rate") in
          let amount := parseAmount (prop found "variation_amount") in
          match (match rateFromField with Some r => Some r | None => amount end) with
          | None => ret None
          | Some ngnPerUsd => t <- clock_date ;; ret (Some (ngnPerUsd, t, data))
          end
  end.

(** The two arrays [fetchRate] fills, in front of the outside. *)
Record ngn_acc := mkAcc {
  na_out : H;
  na_prices : list NGNPriceCandidate;
  na_raw : list RawApiResponse;
}.
Notation acc_run := (M ngn_acc).

Definition acc_io {A} (c : M H A) : acc_run A := λ a,
  let '(r, h) := c (na_out a) in (r, mkAcc h (na_prices a) (na_raw a)).
Definition push_price (p : NGNPriceCandidate) : acc_run unit :=
  modify (λ a, mkAcc (na_out a) (na_prices a ++ [p]) (na_raw a)).
Definition push_raw (provider endpoint : string) (payload : jsval) : acc_run unit :=
  t <- acc_io clock_date ;;
  modify (λ a, mkAcc (na_out a) (na_prices a) (na_raw a ++ [mkRaw provider (Some endpoint) payload t])).

Definition ngn_coinGeckoUrl : string := coingecko_url "ngn,usd".
Definition usdToNgnUrl : string := "https://open.er-api.com/v6/latest/USD".

(** The CoinGecko request of each of the three sources, recorded. *)
Definition ngn_coingecko : acc_run jsval :=
  data <- acc_io (get_json 3 ngn_coinGeckoUrl [] []) ;;
  push_raw "CoinGecko" ngn_coinGeckoUrl data ;;;
  ret data.

(** [try { ... } catch (error) { log }] *)
Definition attempt_source (c : acc_run unit) : acc_run unit := try_catch c (λ _, ret tt).

Definition later (a b : option Z) : option Z := if date_gt a b then a else b.

Definition source_vtpass : acc_run unit := attempt_source (
  vt <- acc_io fetchNgnPerUsdFromVtpass ;;
  match vt with
  | None => ret tt
  | Some (ngnPerUsd, vt_timestamp, rawResponse) =>
      push_raw "VTpass" (vtpassBase +:+ "/service-variations") rawResponse ;;;
      data <- ngn_coingecko ;;
      stellar <- lift_exc (access data "stellar") ;;
      match positive_number (prop stellar "usd") with
      | None => ret tt
      | Some usd =>
          lastUpdatedAt <- acc_io (date_or_now (prop stellar "last_updated_at")) ;;
          push_price (mkCandidate (num_mul usd ngnPerUsd) (later vt_timestamp lastUpdatedAt)
                        "VTpass variation + CoinGecko (XLM/USD)")
      end
  end).

Definition source_direct : acc_run unit := attempt_source (
  data <- ngn_coingecko ;;
  stellarPrice <- lift_exc (access data "stellar") ;;
  match (if truthy stellarPrice then positive_number (prop stellarPrice "ngn") else None) with
  | None => ret tt
  | Some ngn =>
      lastUpdatedAt <- acc_io (date_or_now (prop stellarPrice "last_updated_at")) ;;
      push_price (mkCandidate ngn lastUpdatedAt "CoinGecko (direct NGN)")
  end).

Definition source_exchange : acc_run unit := attempt_source (
  data <- ngn_coingecko ;;
  stellarPrice <- lift_exc (access data "stellar") ;;
  match (if truthy stellarPrice then positive_number (prop stellarPrice "usd") else None) with
  | None => ret tt
  | Some usd =>
      fx <- acc_io (get_json 3 usdToNgnUrl [] []) ;;
      push_raw "ExchangeRate API" usdToNgnUrl fx ;;;
      rates <- lift_exc (access fx "rates") ;;
      match positive_number (prop rates "NGN") with
      | Some usdToNgn =>
          if match prop fx "result" with JStr s => bool_decide (s = "success") | _ => false end then
            fxTimestamp <- acc_io (date_or_now (prop fx "time_last_update_unix")) ;;
            lastUpdatedAt <- acc_io (date_or_now (prop stellarPrice "last_updated_at")) ;;
            push_price (mkCandidate (num_mul usd usdToNgn) (later fxTimestamp lastUpdatedAt)
                          "CoinGecko + ExchangeRate API (USD->NGN)")
          else ret tt
      | None => ret tt
      end
  end).

(** From the collected prices on, as [PriceFilter.ngn_prices_to_use] on their rates. *)
Definition candidates_to_use (prices : list NGNPriceCandidate) : exc (list NGNPriceCandidate) :=
  match prices with
  | [] => Throw (Error "All NGN rate sources failed")
  | _ =>
      let rateValues := filter (λ rate, isFinite rate && num_ltb num_zero rate = true) (map nc_rate prices) in
      let filteredRateValues := filterOutliers rateValues num_1_5 in
      let filteredPrices := filter (λ p, includes_num filteredRateValues (nc_rate p) = true) prices in
      let pricesToUse := if decide (3 ≤ length filteredPrices)%nat then filteredPrices else prices in
      if decide (length pricesToUse < 3)%nat
      then Throw (Error ("Need at least 3 price sources for median calculation, got " +:+
                         pretty (length pricesToUse)))
      else Ok pricesToUse
  end.

Definition mostRecentTimestamp (prices : list NGNPriceCandidate) : option Z :=
  foldl (λ latest p, if date_gt (nc_timestamp p) latest then nc_timestamp p else latest)
    (match prices with p :: _ => nc_timestamp p | [] => None end) prices.

Definition ngn_fetchRate : M H (MarketRate * list RawApiResponse) := λ h,
  let '(r, a) := (source_vtpass ;;; source_direct ;;; source_exchange ;;;
                  acc <- get ;;
                  pricesToUse <- lift_exc (candidates_to_use (na_prices acc)) ;;
                  medianRate <- lift_exc (calculateMedian (map nc_rate pricesToUse)) ;;
                  ret (mkRate "NGN" medianRate (mostRecentTimestamp pricesToUse)
                         ("Weighted average of " +:+ pretty (length pricesToUse) +:+
                          " sources (outliers filtered)") None, na_raw acc)) (mkAcc h [] []) in
  (r, na_out a).
End sources.

(** ** Against the stored history *)

Record PriceHistoryRow := mkHistory {
  ph_currency : string;
  ph_rate : jsval;
  ph_source : string;
  ph_timestamp : Z;
}.

(** [@@unique([currency, source, timestamp])] *)
Definition history_key : Type := string * string * Z.
#[export] Instance history_key_eq_dec : EqDecision history_key := _.
#[export] Instance history_key_countable : Countable history_key := _.

Record AnomalyCheckResult := mkAnomaly {
  ac_isAnomalous : bool;
  ac_zScore : number;
  ac_mean : number;
  ac_stdDev : number;
  ac_sampleSize : nat;
}.

Definition HISTORY_LIMIT : nat := 50.
Definition MIN_SAMPLE_SIZE : nat := 10.
Definition Z_SCORE_THRESHOLD : number := num_of_Z 3.

Definition newest_price (r1 r2 : PriceHistoryRow) : Prop := ph_timestamp r2 <= ph_timestamp r1.
#[export] Instance newest_price_dec : RelDecision newest_price.
Proof. intros r1 r2. unfold newest_price. apply _. Defined.

(** The rates of [findMany] with its [where], [orderBy] and [take]. *)
Definition recent_rates (currency : string) (rows : list PriceHistoryRow) : list number :=
  (λ r, Number_val (ph_rate r)) <$>
    take HISTORY_LIMIT (merge_sort newest_price (filter (λ r, ph_currency r = toUpperCase currency) rows)).

(** [checkAnomaly] from the rates on. *)
Definition judge_rate (rates : list number) (currentRate : number) : AnomalyCheckResult :=
  let n := length rates in
  if decide (n < MIN_SAMPLE_SIZE)%nat then mkAnomaly false num_zero num_zero num_zero n
  else
    let mean := num_div (num_sum rates) (num_of_Z (Z.of_nat n)) in
    let variance := num_div (num_sum (map (λ b, num_mul (num_sub b mean) (num_sub b mean)) rates))
                      (num_of_Z (Z.of_nat n - 1)) in
    let stdDev := math_sqrt variance in
    if num_eqb stdDev num_zero then
      let isAnomalous := num_ltb num_zero (math_abs (num_sub currentRate mean)) in
      mkAnomaly isAnomalous (if isAnomalous then S754_infinity false else num_zero) mean stdDev n
    else
      let zScore := num_div (num_sub currentRate mean) stdDev in
      mkAnomaly (num_ltb Z_SCORE_THRESHOLD (math_abs zScore)) zScore mean stdDev n.

Definition checkAnomaly {DH} `{!PrismaTable history_key PriceHistoryRow DH} (currency : string)
    (currentRate : number) (d : DH) : exc AnomalyCheckResult :=
  rows ← findAll d; Ok (judge_rate (recent_rates currency rows) currentRate).

(** ** Against external prices *)

Record SanityCheckResult := mkSanity {
  sc_currency : string;
  sc_oraclePrice : number;
  sc_externalPrice : number;
  sc_deviation : number;
  sc_deviationPercent : number;
  sc_passed : bool;
  sc_source : string;
  sc_timestamp : Z;
}.

Section sanity.
Context {H : Type} `{!MarketWorld H}.

Definition DEVIATION_THRESHOLD : number := num_of_Z 2.

Definition currencyMap (currency : string) : option string :=
  if decide (currency = "NGN") then Some "ngn"
  else if decide (currency = "KES") then Some "kes"
  else if decide (currency = "GHS") then Some "ghs" else None.

Definition fetchFromCoinGecko (currency : string) : M H (option number) :=
  try_catch
    (match currencyMap (toUpperCase currency) with
     | None => ret None
     | Some vsCurrency =>
         data <- get_json 2 ("https://api.coingecko.com/api/v3/simple/price?ids=stellar&vs_currencies=" +:+
                             vsCurrency) [] [] ;;
         ret (positive_number (prop (prop data "stellar") vsCurrency))
     end)
    (λ _, ret None).

Definition fetchFromExchangeRateAPI (currency : string) : M H (option number) :=
  try_catch
    (xlm <- get_json 2 "https://api.coingecko.com/api/v3/simple/price?ids=stellar&vs_currencies=usd" [] [] ;;
     match positive_number (prop (prop xlm "stellar") "usd") with
     | None => ret None
     | Some xlmUsd =>
         fx <- get_json 2 usdToNgnUrl [] [] ;;
         match positive_number (prop (prop fx "rates") (toUpperCase currency)) with
         | Some rate =>
             if match prop fx "result" with JStr s => bool_decide (s = "success") | _ => false end
             then ret (Some (num_mul xlmUsd rate)) else ret None
         | None => ret None
         end
     end)
    (λ _, ret None).

Definition externalSources : list (string * (string → M H (option number))) :=
  [("CoinGecko", fetchFromCoinGecko); ("ExchangeRate-API", fetchFromExchangeRateAPI)].

Definition calculateDeviation (price1 price2 : number) : number :=
  math_abs (num_mul (num_div (num_sub price1 price2) price2) num_100).

Definition sendAlert (result : SanityCheckResult) : M H unit :=
  try_catch
    (t <- perform Clock ;;
     perform (PriceAnomalyAlert (sc_currency result) (sc_oraclePrice result) (sc_externalPrice result)
       (sc_deviationPercent result) (sc_source result)
       ("sanity_" +:+ sc_currency result +:+ "_" +:+ pretty t)))
    (λ _, ret tt).

(** The result for an external price. *)
Definition compare_price (currency : string) (oraclePrice externalPrice : number) (source : string) (t : Z) :
    SanityCheckResult :=
  let deviationPercent := Number_str (toFixed (calculateDeviation oraclePrice externalPrice) 2) in
  mkSanity currency oraclePrice externalPrice (math_abs (num_sub oraclePrice externalPrice))
    deviationPercent (num_leb deviationPercent DEVIATION_THRESHOLD) source t.

(** The body of the loop: a result, or on to the next source. *)
Definition try_source (currency : string) (oraclePrice : number)
    (source : string * (string → M H (option number))) : M H (option SanityCheckResult) :=
  try_catch
    (externalPrice <- source.2 currency ;;
     match externalPrice with
     | None => ret None
     | Some p =>
         if num_leb p num_zero then ret None
         else
           t <- perform Clock ;;
           let result := compare_price currency oraclePrice p source.1 t in
           (if sc_passed result then ret tt else sendAlert result) ;;;
           ret (Some result)
     end)
    (λ _, ret None).

Fixpoint first_result (currency : string) (oraclePrice : number)
    (sources : list (string * (string → M H (option number)))) : M H (option SanityCheckResult) :=
  match sources with
  | [] => ret None
  | source :: rest =>
      r <- try_source currency oraclePrice source ;;
      match r with Some result => ret (Some result) | None => first_result currency oraclePrice rest end
  end.

Definition checkPrice (currency : string) (oraclePrice : number) : M H (option SanityCheckResult) :=
  first_result (toUpperCase currency) oraclePrice externalSources.

Fixpoint checkPrices (prices : list (string * number)) : M H (list SanityCheckResult) :=
  match prices with
  | [] => ret []
  | (currency, price) :: rest =>
      result <- checkPrice currency price ;;
      results <- checkPrices rest ;;
      ret (match result with Some r => r :: results | None => results end)
  end.
End sanity.

(** ** Nothing of this submits a price *)

Section quiet.
Context {H : Type} `{!MarketWorld H} (s : list (string * string * string)).

(** What was sent is [s]. *)
Definition sent_is (h : H) : Prop := sent h = s.
Notation quiet c := (preserves sent_is c).

Lemma quiet_perform {A} (c : market_call A) : submission c = None → quiet (perform c).
Proof.
  intros Hc. apply preserves_of_final. intros h Hh. unfold sent_is. by rewrite perform_sent.
Qed.
Hint Extern 1 (preserves sent_is (perform _)) => apply quiet_perform; reflexivity : sf.

Lemma quiet_get_json n url ps hs : quiet (get_json n url ps hs).
Proof. unfold get_json. apply preserves_withRetry; auto with sf. Qed.
Hint Resolve quiet_get_json : sf.

Lemma quiet_date_or_now v : quiet (date_or_now v).
Proof. unfold date_or_now, clock_date. preserve. Qed.
Lemma quiet_clock_date : quiet clock_date.
Proof. unfold clock_date. preserve. Qed.
Hint Resolve quiet_date_or_now quiet_clock_date : sf.

Lemma quiet_simple code f : quiet (simple_fetchRate code f).
Proof. unfold simple_fetchRate. preserve. Qed.

Lemma quiet_vtpass env : quiet (fetchNgnPerUsdFromVtpass env).
Proof. unfold fetchNgnPerUsdFromVtpass. preserve. Qed.

Lemma quiet_sendAlert r : quiet (sendAlert r).
Proof. unfold sendAlert. preserve. Qed.
Lemma quiet_external source : source ∈ externalSources → ∀ c, quiet (source.2 c).
Proof.
  intros Hs c. unfold externalSources in Hs.
  apply elem_of_cons in Hs as [->|[->|[]%elem_of_nil]%elem_of_cons]; simpl;
    unfold fetchFromCoinGecko, fetchFromExchangeRateAPI; preserve.
Qed.
Hint Resolve quiet_sendAlert : sf.

Lemma quiet_checkPrice currency price : quiet (checkPrice currency price).
Proof.
  unfold checkPrice. pose proof quiet_external as Hs. revert Hs.
  generalize (externalSources (H := H)). intros l. generalize (toUpperCase currency). intros c.
  induction l as [|source rest IH]; intros Hs; [apply preserves_ret|]. simpl.
  assert (quiet (try_source c price source)).
  { assert (∀ c, quiet (source.2 c)) by (apply Hs, list_elem_of_here). unfold try_source. preserve. }
  assert (quiet (first_result c price rest)).
  { apply IH. intros x Hx. by apply Hs, list_elem_of_further. }
  preserve.
Qed.

(** The fetcher of the naira rate, over its arrays. *)
Lemma quiet_acc_io {A} (c : M H A) : quiet c → preserves (λ a, sent_is (na_out a)) (acc_io c).
Proof.
  intros Hc a Ha. specialize (Hc _ Ha). unfold wp, acc_io in *. by destruct (c (na_out a)) as [[x|e] h].
Qed.

Lemma quiet_acc_modify (f : ngn_acc → ngn_acc) :
  (∀ a, na_out (f a) = na_out a) → preserves (λ a, sent_is (na_out a)) (modify f).
Proof. intros Hf a Ha. unfold wp, modify. by rewrite Hf. Qed.

Lemma quiet_ngn env : quiet (ngn_fetchRate env).
Proof.
  apply preserves_of_final. intros h Hh. unfold final, ngn_fetchRate.
  pose proof (quiet_vtpass env). pose proof (λ v, quiet_acc_io _ (quiet_date_or_now v)).
  pose proof (quiet_acc_io _ (quiet_vtpass env)). pose proof (quiet_acc_io _ quiet_clock_date).
  pose proof (λ n u p h, quiet_acc_io _ (quiet_get_json n u p h)).
  assert (∀ p, preserves (λ a, sent_is (na_out a)) (push_price p)) by (intros; by apply quiet_acc_modify).
  assert (∀ p e v, preserves (λ a, sent_is (na_out a)) (push_raw p e v)).
  { intros. unfold push_raw. apply preserves_bind; [done|]. intros t. by apply quiet_acc_modify. }
  assert (preserves (λ a, sent_is (na_out a)) ngn_coingecko) by (unfold ngn_coingecko; preserve).
  match goal with |- context [(?c) (mkAcc h [] [])] =>
    assert (preserves (λ a, sent_is (na_out a)) c) as Hc end.
  { unfold source_vtpass, source_direct, source_exchange, attempt_source. preserve. }
  pose proof (preserves_final _ _ (mkAcc h [] []) Hc Hh) as Hf. unfold final in Hf.
  destruct (bind _ _ _) as [r a]. exact Hf.
Qed.
End quiet.

(** ** How many prices the naira fetcher collects *)

Section counting.
Context {H : Type} `{!MarketWorld H} (env : NgnEnv).
Notation acc_run := (M (ngn_acc (H := H))).

Definition at_most (k : nat) (a : ngn_acc (H := H)) : Prop := (length (na_prices a) ≤ k)%nat.

(** The computation adds at most one price. *)
Definition adds_one {A} (c : acc_run A) : Prop :=
  ∀ k a, at_most k a → wp c (λ _, at_most (S k)) (λ _, at_most (S k)) a.

Lemma adds_one_keep {A} (c : acc_run A) : (∀ k, preserves (at_most k) c) → adds_one c.
Proof.
  intros Hc k a Ha. eapply wp_mono; [by apply Hc|intros ? ? Hk|intros ? ? Hk];
    unfold at_most in *; lia.
Qed.
Lemma adds_one_bind {A B} (c : acc_run A) (f : A → acc_run B) :
  (∀ k, preserves (at_most k) c) → (∀ x, adds_one (f x)) → adds_one (bind c f).
Proof.
  intros Hc Hf k a Ha. apply wp_bind. eapply wp_mono; [by apply Hc|intros x a' Ha'; by apply Hf|].
  intros e a' Hk. unfold at_most in *. lia.
Qed.
Lemma adds_one_attempt (c : acc_run unit) : adds_one c → adds_one (attempt_source c).
Proof.
  intros Hc k a Ha. unfold attempt_source. apply wp_try_catch. eapply wp_mono; [by apply Hc|done|].
  intros e a' Ha'. by apply wp_ret.
Qed.

Lemma keep_io {A} (c : M H A) k : preserves (at_most k) (acc_io c).
Proof. intros a Ha. unfold wp, acc_io. by destruct (c (na_out a)) as [[x|e] h]. Qed.
Lemma keep_raw p e v k : preserves (at_most k) (push_raw (H := H) p e v).
Proof. unfold push_raw. apply preserves_bind; [apply keep_io|]. by intros t a Ha. Qed.
Hint Resolve keep_io keep_raw : sf.
Lemma keep_coingecko k : preserves (at_most k) (ngn_coingecko (H := H)).
Proof. unfold ngn_coingecko. preserve. Qed.
Hint Resolve keep_coingecko : sf.

Lemma adds_one_push p : adds_one (push_price (H := H) p).
Proof. intros k a Ha. unfold wp, push_price, modify, at_most in *. simpl. rewrite length_app. simpl. lia. Qed.

Ltac counts :=
  repeat match goal with
  | |- ∀ _, _ => intros ?
  | |- adds_one (push_price _) => apply adds_one_push
  | |- adds_one (bind _ _) => apply adds_one_bind; [auto with sf|]
  | |- adds_one (match _ with _ => _ end) => case_match
  | |- adds_one _ => apply adds_one_keep; auto with sf
  end.

Lemma one_vtpass : adds_one (source_vtpass (H := H) env).
Proof. apply adds_one_attempt. counts. Qed.
Lemma one_direct : adds_one (source_direct (H := H)).
Proof. apply adds_one_attempt. counts. Qed.
Lemma one_exchange : adds_one (source_exchange (H := H)).
Proof. apply adds_one_attempt. counts. Qed.

(** VTpass needs three settings. *)
Definition vtpass_configured : bool :=
  truthy_opt (trim <$> VTPASS_NGN_SERVICE_ID env) && truthy_opt (trim <$> VTPASS_NGN_VARIATION_CODE env) &&
  (truthy_opt (VTPASS_API_KEY env) && truthy_opt (VTPASS_PUBLIC_KEY env)).

Lemma vtpass_unconfigured k :
  vtpass_configured = false → preserves (at_most k) (source_vtpass (H := H) env).
Proof.
  intros Hv a Ha. unfold source_vtpass, attempt_source. apply wp_try_catch, wp_bind.
  assert (∀ h, fetchNgnPerUsdFromVtpass (H := H) env h = (Ok None, h)) as E.
  { intros h. unfold fetchNgnPerUsdFromVtpass, vtpassHeaders, vtpass_configured in *.
    destruct (truthy_opt (trim <$> _)); [|done]. simpl in *.
    destruct (truthy_opt (trim <$> _)); [|done]. simpl in *. by rewrite Hv. }
  unfold wp at 1, acc_io. rewrite E. by apply wp_ret.
Qed.

Lemma candidates_three prices used :
  (length prices ≤ 3)%nat → candidates_to_use prices = Ok used → used = prices ∧ length prices = 3%nat.
Proof.
  intros Hl. unfold candidates_to_use. destruct prices as [|p prices]; [done|].
  set (all := p :: prices) in *. set (kept := filter (λ p, includes_num _ _ = true) all).
  assert (kept `sublist_of` all) as Hs by apply sublist_filter.
  destruct (decide (3 ≤ length kept)%nat) as [H3|H3].
  - pose proof (sublist_length _ _ Hs). case_decide; [done|]. intros [= <-].
    split; [|lia]. apply sublist_full; [done|lia].
  - case_decide; [done|]. intros [= <-]. split; [done|lia].
Qed.

(** Where the three sources leave the prices, and what follows. *)
Lemma ngn_fetch_shape k h rate raws h' :
  (k ≤ 1)%nat →
  (∀ a, at_most 0 a → wp (source_vtpass (H := H) env) (λ _, at_most k) (λ _, at_most k) a) →
  ngn_fetchRate env h = (Ok (rate, raws), h') →
  ∃ prices, (length prices ≤ S (S k))%nat ∧ length prices = 3%nat ∧
    calculateMedian (map nc_rate prices) = Ok (mr_rate rate) ∧
    mr_source rate = "Weighted average of 3 sources (outliers filtered)".
Proof.
  intros Hk Hv. unfold ngn_fetchRate.
  match goal with |- context [(?c) (mkAcc h [] [])] =>
    assert (wp c (λ r _, ∃ prices, (length prices ≤ S (S k))%nat ∧ length prices = 3%nat ∧
      calculateMedian (map nc_rate prices) = Ok (mr_rate r.1) ∧
      mr_source r.1 = "Weighted average of 3 sources (outliers filtered)")
      (λ _ _, True) (mkAcc h [] [])) as Hw end.
  { apply wp_bind. eapply wp_mono; [apply Hv; unfold at_most; simpl; lia| |done]. intros [] a1 H1.
    apply wp_bind. eapply wp_mono; [by apply one_direct| |done]. intros [] a2 H2.
    apply wp_bind. eapply wp_mono; [by apply one_exchange| |done]. intros [] a3 H3.
    apply wp_bind. unfold wp at 1, get. apply wp_bind. unfold wp at 1, lift_exc.
    destruct (candidates_to_use (na_prices a3)) as [used|e] eqn:Ec; [|done].
    unfold at_most in H3. apply candidates_three in Ec as [E3' E3]; [|lia]. rewrite E3'.
    apply wp_bind. unfold wp at 1, lift_exc.
    destruct (calculateMedian (map nc_rate (na_prices a3))) as [m|e] eqn:Em; [|done].
    apply wp_ret. exists (na_prices a3). split_and!; [done|done|done|]. simpl. by rewrite E3. }
  unfold wp in Hw. destruct (bind _ _ (mkAcc h [] [])) as [[x|e] a]; [|done].
  intros [= -> <-]. exact Hw.
Qed.
End counting.

(** ** Theorems *)

Section theorems.
Context {H : Type} `{!MarketWorld H}.

(** A rate of the KES or GHS fetcher is the number the provider quoted under its code: it
    is positive, and the response that carries it is kept with it. Without such a number
    the fetcher throws. *)
Theorem simple_rate_is_quoted code f h rate raws h' :
  simple_fetchRate code f h = (Ok (rate, raws), h') →
  ∃ data t, raws = [mkRaw "CoinGecko" (Some (coingecko_url f)) data t] ∧
    prop (prop data "stellar") f = JNum (mr_rate rate) ∧ num_ltb num_zero (mr_rate rate) = true ∧
    mr_currency rate = code.
Proof.
  enough (wp (simple_fetchRate code f) (λ r _, ∃ data t,
    r.2 = [mkRaw "CoinGecko" (Some (coingecko_url f)) data t] ∧
    prop (prop data "stellar") f = JNum (mr_rate r.1) ∧ num_ltb num_zero (mr_rate r.1) = true ∧
    mr_currency r.1 = code) (λ _ _, True) h) as Hw.
  { unfold wp in Hw. intros E. rewrite E in Hw. exact Hw. }
  assert (∀ A (c : M H A) Q w, (∀ a w', Q a w') → wp c Q (λ _ _, True) w) as Hany.
  { intros A c Q w HQ. unfold wp. destruct (c w) as [[a|e] w']; eauto. }
  unfold simple_fetchRate. apply wp_bind, Hany. intros data h1. apply wp_bind.
  unfold wp at 1, lift_exc, access. destruct (is_nullish data); [done|].
  destruct (truthy (prop data "stellar")); [|done].
  unfold positive_number. destruct (prop (prop data "stellar") f) as [| | |n| | | |] eqn:En; try done.
  destruct (num_ltb num_zero n) eqn:Ep; [|done].
  apply wp_bind, Hany. intros t h2. apply wp_bind, Hany. intros lu h3. apply wp_ret.
  exists data, t. by split_and!.
Qed.

(** The naira rate needs VTpass: whatever the providers answer, without the three settings
    the fetcher throws, although its other two sources are described as fall-backs. With
    them, a rate it returns is the median of exactly three prices. *)
Theorem ngn_needs_vtpass env h :
  match ngn_fetchRate env h with
  | (Ok (rate, _), _) =>
      vtpass_configured env = true ∧
      ∃ prices, length prices = 3%nat ∧ calculateMedian (map nc_rate prices) = Ok (mr_rate rate)
  | (Throw _, _) => True
  end.
Proof.
  destruct (ngn_fetchRate env h) as [[[rate raws]|e] h'] eqn:E; [|done].
  destruct (vtpass_configured env) eqn:Ev; [split; [done|]|exfalso].
  - destruct (ngn_fetch_shape env 1 h rate raws h') as (prices & _ & H3 & Hm & _); [lia| |done|by exists prices].
    intros a Ha. by apply one_vtpass.
  - destruct (ngn_fetch_shape env 0 h rate raws h') as (prices & Hl & H3 & _); [lia| |done|lia].
    intros a Ha. by apply vtpass_unconfigured.
Qed.

(** The comparison with external prices always completes and sends nothing to the network.
    A result is that of a positive external price, and passes exactly when the deviation,
    rounded to two decimals, is at most two percent. *)
Theorem sanity_check_harmless currency price h :
  let '(r, h') := checkPrice currency price h in
  sent h' = sent h ∧
  ∃ o, r = Ok o ∧
    ∀ res, o = Some res →
      num_leb (sc_externalPrice res) num_zero = false ∧ sc_oraclePrice res = price ∧
      sc_currency res = toUpperCase currency ∧
      sc_deviationPercent res
        = Number_str (toFixed (calculateDeviation price (sc_externalPrice res)) 2) ∧
      sc_passed res = num_leb (sc_deviationPercent res) DEVIATION_THRESHOLD.
Proof.
  pose proof (preserves_final _ _ h (quiet_checkPrice (sent h) currency price) eq_refl) as Hs.
  unfold final, sent_is in Hs. enough (wp (checkPrice currency price) (λ o _, ∀ res, o = Some res →
      num_leb (sc_externalPrice res) num_zero = false ∧ sc_oraclePrice res = price ∧
      sc_currency res = toUpperCase currency ∧
      sc_deviationPercent res = Number_str (toFixed (calculateDeviation price (sc_externalPrice res)) 2) ∧
      sc_passed res = num_leb (sc_deviationPercent res) DEVIATION_THRESHOLD) (λ _ _, False) h) as Hw.
  { unfold wp in Hw. destruct (checkPrice currency price h) as [[o|e] h']; [|done]. split; [done|].
    exists o. split; [done|exact Hw]. }
  unfold checkPrice. generalize (toUpperCase currency). intros c. clear Hs. revert h.
  induction (externalSources (H := H)) as [|source rest IH]; intros h; [by apply wp_ret|]. simpl.
  apply wp_bind. unfold try_source. apply wp_try_catch.
  apply wp_bind. unfold wp at 1. destruct (source.2 c h) as [[[p|]|e] h1]; [|by apply wp_ret, IH..].
  destruct (num_leb p num_zero) eqn:Ep; [by apply wp_ret, IH|].
  apply wp_bind. unfold wp at 1. destruct (perform Clock h1) as [[t|e] h2]; [|by apply wp_ret, IH].
  set (res := compare_price c price p source.1 t). apply wp_bind. unfold wp at 1.
  destruct ((if sc_passed res then ret tt else sendAlert res) h2) as [[[]|e] h3]; [|by apply wp_ret, IH].
  apply wp_ret, wp_ret. intros res' [= <-]. done.
Qed.

(** A rate is compared with the fifty newest of its currency at most, and never called
    anomalous on fewer than ten, nor when it is NaN. *)
Theorem anomaly_needs_history {DH} `{!PrismaTable history_key PriceHistoryRow DH}
    currency rate (d : DH) result :
  checkAnomaly currency rate d = Ok result →
  (ac_sampleSize result ≤ HISTORY_LIMIT)%nat ∧
  (ac_isAnomalous result = true → (MIN_SAMPLE_SIZE ≤ ac_sampleSize result)%nat ∧ isNaN rate = false) ∧
  (ac_sampleSize result ≤ length (filter (λ r, ph_currency r = toUpperCase currency)
                                   (map_to_list (rows d)).*2))%nat.
Proof.
  unfold checkAnomaly. intros (rs & Hr & [= <-])%bind_Ok. apply findAll_ok in Hr.
  set (rates := recent_rates currency rs).
  assert (ac_sampleSize (judge_rate rates rate) = length rates) as ->.
  { unfold judge_rate. case_decide; [done|]. by destruct (num_eqb _ _). }
  assert (length rates ≤ HISTORY_LIMIT ∧
    length rates ≤ length (filter (λ r, ph_currency r = toUpperCase currency) rs))%nat as [H1 H2].
  { unfold rates, recent_rates. rewrite length_fmap, length_take.
    rewrite (Permutation_length (merge_sort_Permutation newest_price _)). lia. }
  split; [done|]. split; [|by rewrite <-Hr].
  unfold judge_rate. case_decide; [done|]. intros Ha. split; [lia|].
  destruct (isNaN rate) eqn:En; [|done]. destruct rate; try done. exfalso. revert Ha.
  assert (∀ x, num_sub S754_nan x = S754_nan) as Hsub by done.
  assert (∀ x, num_div S754_nan x = S754_nan) as Hdiv by done.
  rewrite Hsub. destruct (num_eqb _ _); cbn [ac_isAnomalous]; [done|]. by rewrite Hdiv.
Qed.
End theorems.

(** ** Witnesses *)

(** A world with one answer to every request, whose state is the time and what was sent. *)
Definition desk : Type := Z * list (string * string * string).

Definition desk_perform (answer : jsval) {A} (c : market_call A) : M desk A :=
  match c in market_call A return M desk A with
  | Clock => λ h, (Ok h.1, h)
  | Sleep ms => λ h, (Ok tt, (h.1 + ms, h.2))
  | HttpGet _ _ _ => ret answer
  | PriceAnomalyAlert _ _ _ _ _ _ => ret tt
  | NotifyReview _ => ret tt
  | CreateReviewSchema => ret tt
  | CreateRawData _ => ret tt
  | CreateErrorLog _ _ => ret tt
  | RandomBelow1000 => ret 7
  | SubmitManageData n v m => λ h, (Ok "ab12", (h.1, h.2 ++ [(n, v, m)]))
  | CreateMultiSigRequest _ _ _ _ _ => ret 1
  | SignMultiSigPrice _ => ret tt
  | RequestRemoteSignature _ _ => ret tt
  | Broadcast _ _ => ret tt
  end.

Definition desk_world (answer : jsval) : MarketWorld desk.
Proof.
  refine {| perform A c := desk_perform answer c; mw_now h := h.1; mw_elapsed _ := 0; sent h := h.2 |}.
  - intros A c h. by destruct c.
  - by intros n v m h r h' [= <- <-].
  - by intros n v m h e h' ?.
Defined.

(** A response of the provider: one XLM is 14 shillings and a fifth of a dollar. *)
Definition quote : jsval :=
  JObj [("stellar", JObj [("kes", JNum (num_of_Z 14)); ("usd", JNum (num_div num_one (num_of_Z 5)))])].

Definition kes_run : exc (MarketRate * list RawApiResponse) * desk :=
  kes_fetchRate (MarketWorld0 := desk_world quote) (1700000000000, []).

Lemma simple_rate_is_quoted_witness :
  ∃ rate raws, kes_run.1 = Ok (rate, raws) ∧ mr_rate rate = num_of_Z 14 ∧
    ∃ data t, raws = [mkRaw "CoinGecko" (Some (coingecko_url "kes")) data t] ∧
      prop (prop data "stellar") "kes" = JNum (mr_rate rate) ∧ num_ltb num_zero (mr_rate rate) = true ∧
      mr_currency rate = "KES".
Proof.
  assert (match kes_run.1 with Ok (r, _) => bool_decide (mr_rate r = num_of_Z 14) | _ => false end = true)
    as Hr by (vm_compute; reflexivity).
  destruct kes_run as [[[rate raws]|e] h'] eqn:E; [|discriminate Hr].
  exists rate, raws. split; [reflexivity|]. split; [exact (bool_decide_eq_true_1 _ Hr)|].
  unfold kes_run in E.
  exact (simple_rate_is_quoted (MarketWorld0 := desk_world quote) "KES" "kes" _ rate raws h' E).
Defined.

(** Ten equal prices. *)
Definition flat_history : gmap history_key PriceHistoryRow :=
  list_to_map ((λ i, (("KES", "desk", Z.of_nat i), mkHistory "KES" (JNum (num_of_Z 14)) "desk" (Z.of_nat i)))
               <$> seq 0 10).

Lemma anomaly_needs_history_witness :
  ∃ result, checkAnomaly "kes" (num_of_Z 15) flat_history = Ok result ∧ ac_isAnomalous result = true ∧
    (MIN_SAMPLE_SIZE ≤ ac_sampleSize result)%nat.
Proof.
  assert (match checkAnomaly "kes" (num_of_Z 15) flat_history with
          | Ok r => ac_isAnomalous r | Throw _ => false end = true) as Hr by (vm_compute; reflexivity).
  destruct (checkAnomaly "kes" (num_of_Z 15) flat_history) as [r|e] eqn:E; [|discriminate Hr].
  exists r. split; [reflexivity|]. split; [exact Hr|].
  exact (proj1 (proj1 (proj2 (anomaly_needs_history "kes" (num_of_Z 15) flat_history r E)) Hr)).
Defined.

(** With VTpass out of the picture the naira fetcher fails on a perfect answer of the
    provider. *)
Example ngn_without_vtpass :
  (ngn_fetchRate (MarketWorld0 := desk_world (JObj [("stellar",
      JObj [("ngn", JNum (num_of_Z 750)); ("usd", JNum num_one)])]))
    (mkNgnEnv None None None None None) (1700000000000, [])).1
  = Throw (Error "Need at least 3 price sources for median calculation, got 1").
Proof. vm_compute. reflexivity. Qed.
