(* ===== verification/MarketRate.v ===== *)
(** * The market rate service ([services/marketRate/marketRateService.ts])

    [getRate] from the cache to the broadcast, and the review of held back rates, over the
    components it calls: the fetchers and checks of [MarketSources], the review records of
    [PriceReview], the lockdown of [Lockdown] and the packet queue of [Backpressure]. The
    state of the service is the record [market]. Proved: [getRate] always answers; a cached
    rate costs nothing; the packet queue is left as it was found; a call submits at most one
    price, none that is held back and none under lockdown; the records of every call stay
    well-formed; and what goes wrong between the steps of an approval. *)

From stdpp Require Import pretty.
From S2P Require Import Prelude JsNumber JsString JsDate Prisma Service Retry Backpressure JsDecimal JsValue PriceFilter Serialization Webhook PriceReview Lockdown MarketSources.

Local Open Scope Z_scope.

(** A [MarketRate] with the fields the service adds. *)
Record EnrichedRate := mkEnriched {
  er_rate : MarketRate;
  er_rawResponses : list RawApiResponse;
  er_assessment : PriceAssessment;
  er_contractSubmissionSkipped : bool;
  er_pendingMultiSig : bool;
  er_multiSigPriceId : option Z;
}.

Inductive FetcherResponse :=
| Fetched (data : EnrichedRate)
| FetchFailed (error : string).

Record MarketConfig := mkMarketConfig {
  multiSigEnabled : bool;
  remoteOracleServers : list string;
  CACHE_DURATION_MS : Z;
  ngn_env : NgnEnv;
}.

Record market (DR DH R H : Type) := mkMarket {
  mk_review : svc DR (review_env H);
  mk_history : DH;
  mk_lock : app_state R;
  mk_cache : gmap string (EnrichedRate * Z);
  mk_bp : BackpressureManager;
  mk_pending : list (string * number * Z);
  mk_batchTimeout : bool;
}.
Arguments mkMarket {DR DH R H} _ _ _ _ _ _ _.
Arguments mk_review {DR DH R H} _.
Arguments mk_history {DR DH R H} _.
Arguments mk_lock {DR DH R H} _.
Arguments mk_cache {DR DH R H} _.
Arguments mk_bp {DR DH R H} _.
Arguments mk_pending {DR DH R H} _.
Arguments mk_batchTimeout {DR DH R H} _.

(** The manager the constructor makes. *)
Definition market_bp_config : BackpressureConfig := mkBC 1000 num_0_9 num_0_7 (num_of_Z 100) true.

(** [JSON.stringify(payload)], [undefined] staying undefined. *)
Definition serializeRawPayload (payload : jsval) : option string := JSON_stringify payload.

Definition raw_row (currency : string) (raw : RawApiResponse) : exc RawDataRow :=
  fetchedAt ← utc (ra_receivedAt raw);
  Ok (mkRawRow currency (ra_provider raw) (ra_endpoint raw) (serializeRawPayload (ra_payload raw)) fetchedAt).

(** [fetchedRate.timestamp] and [comparisonTimestamp] normalised *)
Definition normalize_rate (rate : MarketRate) : exc MarketRate :=
  timestamp ← utc (mr_timestamp rate);
  comparison ← match mr_comparisonTimestamp rate with
               | Some t => c ← utc t; Ok (Some (Some c))
               | None => Ok None
               end;
  Ok (mkRate (mr_currency rate) (mr_rate rate) (Some timestamp) (mr_source rate) comparison).

Section service.
Context {DR DH R H : Type} `{!PrismaTable Z RawReviewRow DR}
  `{!PrismaTable history_key PriceHistoryRow DH} `{!LockdownRedis R} `{!MarketWorld H}.
Context (numeric_rate numeric_percent : number → jsval) (JSON_parse : string → exc jsval).
Context (config : MarketConfig).

Notation state := (market DR DH R H).
Notation run := (M state).

(** ** The parts of the state *)

Definition at_review {A} (c : M (svc DR (review_env H)) A) : run A := λ m,
  let '(r, s) := c (mk_review m) in
  (r, mkMarket s (mk_history m) (mk_lock m) (mk_cache m) (mk_bp m) (mk_pending m) (mk_batchTimeout m)).
Definition at_out {A} (c : M H A) : run A := at_review (review_out c).
Definition at_lock {A} (c : M (app_state R) A) : run A := λ m,
  let '(r, l) := c (mk_lock m) in
  (r, mkMarket (mk_review m) (mk_history m) l (mk_cache m) (mk_bp m) (mk_pending m) (mk_batchTimeout m)).
Definition at_history {A} (c : M DH A) : run A := λ m,
  let '(r, d) := c (mk_history m) in
  (r, mkMarket (mk_review m) d (mk_lock m) (mk_cache m) (mk_bp m) (mk_pending m) (mk_batchTimeout m)).
Definition at_bp {A} (c : BackpressureManager → A * BackpressureManager) : run A := λ m,
  let '(a, b) := c (mk_bp m) in
  (Ok a, mkMarket (mk_review m) (mk_history m) (mk_lock m) (mk_cache m) b (mk_pending m) (mk_batchTimeout m)).
Definition set_cache (f : gmap string (EnrichedRate * Z) → gmap string (EnrichedRate * Z)) : run unit :=
  modify (λ m, mkMarket (mk_review m) (mk_history m) (mk_lock m) (f (mk_cache m)) (mk_bp m)
                 (mk_pending m) (mk_batchTimeout m)).
Definition set_batch (pending : list (string * number * Z)) (timeout : bool) : run unit :=
  modify (λ m, mkMarket (mk_review m) (mk_history m) (mk_lock m) (mk_cache m) (mk_bp m) pending timeout).

Definition market_out (m : state) : H := re_out (svc_env (mk_review m)).
Definition market_now (m : state) : Z := mw_now (market_out m).
Definition now_ms : run Z := λ m, (Ok (market_now m), m).

(** [try { ... } catch { log }] around a statement *)
Definition best_effort (c : run unit) : run unit := try_catch c (λ _, ret tt).

(** ** Submission *)

Definition generateMemoId (currency : string) : run string :=
  t <- now_ms ;;
  random <- at_out (perform RandomBelow1000) ;;
  ret (slice_to 28 ("SF-" +:+ currency +:+ "-" +:+ pretty (t / 1000) +:+ "-" +:+ padded 3 random)).

(** [StellarService.submitPriceUpdate], as far as the transaction it builds. *)
Definition submitPriceUpdate (currency : string) (price : number) (memoId : string) : run string :=
  at_lock (assertSigningAllowed JSON_parse) ;;;
  at_out (perform (SubmitManageData (currency +:+ "_PRICE") (String_num price) memoId)).

(** The body of the [try] that submits a rate; the result replaces the enriched rate. *)
Definition submit_rate (currency : string) (rate : MarketRate) (reviewId : Z) (enriched : EnrichedRate) :
    run EnrichedRate :=
  memoId <- generateMemoId currency ;;
  if multiSigEnabled config then
    id <- at_out (perform (CreateMultiSigRequest reviewId currency (mr_rate rate) (mr_source rate) memoId)) ;;
    best_effort (at_out (perform (SignMultiSigPrice id))) ;;;
    for_of (remoteOracleServers config)
      (λ serverUrl, best_effort (at_out (perform (RequestRemoteSignature id serverUrl)))) ;;;
    ret (mkEnriched (er_rate enriched) (er_rawResponses enriched) (er_assessment enriched)
           false true (Some id))
  else
    txHash <- submitPriceUpdate currency (mr_rate rate) memoId ;;
    at_review (markContractSubmitted reviewId memoId txHash) ;;;
    m <- get ;;
    set_batch (mk_pending m ++ [(currency, mr_rate rate, reviewId)]) true ;;;
    ret enriched.

(** ** [getRate] *)

Definition fetcher (currency : string) : option (M H (MarketRate * list RawApiResponse)) :=
  if decide (currency = "KES") then Some kes_fetchRate
  else if decide (currency = "GHS") then Some ghs_fetchRate
  else if decide (currency = "NGN") then Some (ngn_fetchRate (ngn_env config)) else None.

Definition getSupportedCurrencies : list string := ["KES"; "GHS"; "NGN"].

Definition persistRawResponses (currency : string) (raws : list RawApiResponse) : run unit :=
  match raws with
  | [] => ret tt
  | _ => data <- lift_exc (mapM (raw_row currency) raws) ;; at_out (perform (CreateRawData data))
  end.

(** [enqueue] of a standard packet: the ticket of a parked producer is not needed. *)
Definition enqueue_fetch (t : Z) : run bool :=
  r <- at_bp (bp_enqueue 0 (mkPacket STANDARD 0 t)) ;;
  ret (match r with Enqueued => true | Dropped | Parked => false end).

Definition tryDequeue : run unit :=
  m <- get ;; at_bp (bp_tryDequeue (mw_elapsed (market_out m))) ;;; ret tt.

(** The anomaly check, and its alert. *)
Definition alert_anomaly (currency : string) (rate : MarketRate) : run unit :=
  check <- at_history (λ d, (checkAnomaly currency (mr_rate rate) d, d)) ;;
  if ac_isAnomalous check then
    let reason := "Anomaly detected: Z-Score " +:+ toFixed (ac_zScore check) 2 +:+ "σ" in
    at_out (perform (NotifyReview (mkReviewDetails 0 currency (mr_rate rate) (ac_mean check)
      (math_abs (num_mul (ac_zScore check) num_100)) (mr_source rate) (mr_timestamp rate) reason)))
  else ret tt.

(** [void this.runCrossPairCheck(rate)]: one request, and its result in the log. *)
Definition start_cross_pair_check (currency : string) : run unit :=
  if decide (currency = "NGN") then
    best_effort (at_out (perform (HttpGet
      "https://api.coingecko.com/api/v3/simple/price?ids=stellar&vs_currencies=usd" [] [])) ;;; ret tt)
  else ret tt.

Definition skip_submission (e : EnrichedRate) : EnrichedRate :=
  mkEnriched (er_rate e) (er_rawResponses e) (er_assessment e) true (er_pendingMultiSig e)
    (er_multiSigPriceId e).

(** [if (!reviewAssessment.manualReviewRequired) { ... }] *)
Definition submission_workflow (currency : string) (rate : MarketRate) (enriched : EnrichedRate) :
    run EnrichedRate :=
  let assessment := er_assessment enriched in
  if as_manualReviewRequired assessment then ret enriched
  else
    best_effort (at_out (checkPrice currency (mr_rate rate)) ;;; ret tt) ;;;
    locked <- at_lock (isLockdownEnabled JSON_parse) ;;
    if locked : bool then ret (skip_submission enriched)
    else try_catch (submit_rate currency rate (as_reviewRecordId assessment) enriched) (λ _, ret enriched).

(** The row of [prisma.priceHistory.upsert]. *)
Definition record_history (currency : string) (enriched : EnrichedRate) : run unit :=
  best_effort
    (timestamp <- lift_exc (utc (mr_timestamp (er_rate enriched))) ;;
     let code := toUpperCase currency in
     let source := mr_source (er_rate enriched) in
     at_history (upsert (code, source, timestamp)
       (mkHistory code (numeric_rate (mr_rate (er_rate enriched))) source timestamp) id) ;;; ret tt).

Definition optional_str (x : option string) : jsval := match x with Some s => JStr s | None => JUndef end.
Definition date_json (t : option Z) : jsval :=
  match t with Some t => JOther (num_of_Z t) (toISOString t) | None => JNull end.

Definition announce (currency : string) (enriched : EnrichedRate) : run unit :=
  let rate := er_rate enriched in
  let assessment := er_assessment enriched in
  best_effort (at_out (perform (
    if as_manualReviewRequired assessment then
      Broadcast "price:review_required" (JObj [("currency", JStr currency); ("rate", JNum (mr_rate rate));
        ("reviewId", JNum (num_of_Z (as_reviewRecordId assessment)));
        ("reason", optional_str (as_reason assessment))])
    else
      Broadcast "price:update" (JObj [("currency", JStr currency); ("rate", JNum (mr_rate rate));
        ("source", JStr (mr_source rate)); ("timestamp", date_json (mr_timestamp rate))])))).

(** From the assessment of a fetched rate on. *)
Definition process_rate (currency : string) (rate : MarketRate) (raws : list RawApiResponse) :
    run FetcherResponse :=
  let code := toUpperCase currency in
  best_effort (persistRawResponses code raws) ;;;
  normalizedRate <- lift_exc (normalize_rate rate) ;;
  assessment <- at_review (assessRate numeric_rate numeric_percent normalizedRate) ;;
  let enriched := mkEnriched normalizedRate raws assessment (as_manualReviewRequired assessment) false None in
  alert_anomaly code rate ;;;
  start_cross_pair_check code ;;;
  enriched <- submission_workflow code rate enriched ;;
  t <- now_ms ;;
  set_cache <[code := (enriched, t + CACHE_DURATION_MS config)]> ;;;
  record_history currency enriched ;;;
  announce code enriched ;;;
  ret (Fetched enriched).

Definition fetch_and_process (currency code : string) (fetch : M H (MarketRate * list RawApiResponse)) :
    run FetcherResponse :=
  fetched <- attempt (at_out fetch) ;;
  tryDequeue ;;;
  match fetched with
  | Throw fetchError =>
      best_effort (at_out (perform (CreateErrorLog (code +:+ "RateFetcher") (err_message fetchError)))) ;;;
      ret (FetchFailed (err_message fetchError))
  | Ok (rate, raws) => process_rate currency rate raws
  end.

(** The cached rate, while it lasts. *)
Definition cached_rate (code : string) (m : state) : option EnrichedRate :=
  match mk_cache m !! code with
  | Some (rate, expiry) => if market_now m <? expiry then Some rate else None
  | None => None
  end.

Definition getRate (currency : string) : run FetcherResponse :=
  try_catch
    (let code := toUpperCase currency in
     match fetcher code with
     | None => ret (FetchFailed ("No fetcher available for currency: " +:+ currency))
     | Some fetch =>
         m <- get ;;
         match cached_rate code m with
         | Some rate => ret (Fetched rate)
         | None =>
             enqueued <- enqueue_fetch (market_now m) ;;
             if negb enqueued
             then ret (FetchFailed ("Rate fetch for " +:+ code +:+ " dropped due to backpressure"))
             else fetch_and_process currency code fetch
         end
     end)
    (λ error, ret (FetchFailed (err_message error))).

(** [Promise.allSettled] over the fetchers; each call is one step. *)
Fixpoint get_rates (currencies : list string) : run (list FetcherResponse) :=
  match currencies with
  | [] => ret []
  | c :: rest => r <- getRate c ;; rs <- get_rates rest ;; ret (r :: rs)
  end.
Definition getAllRates : run (list FetcherResponse) := get_rates getSupportedCurrencies.

(** The timer of the batch window. *)
Definition flushBatchSubmissions : run unit := set_batch [] false.

(** ** Reviews *)

Definition review_status_text (s : ReviewStatus) : string :=
  match s with
  | AUTO_APPROVED => "AUTO_APPROVED" | PENDING => "PENDING" | APPROVED => "APPROVED" | REJECTED => "REJECTED"
  end.
Definition contract_status_text (s : ContractStatus) : string :=
  match s with NOT_SUBMITTED => "NOT_SUBMITTED" | SUBMITTED => "SUBMITTED" | SKIPPED => "SKIPPED" end.

Definition nullable {A} (f : A → jsval) (x : option A) : jsval :=
  match x with Some a => f a | None => JNull end.

(** A review as the sockets send it. *)
Definition review_json (r : PendingPriceReview) : jsval :=
  let date t := JOther (num_of_Z t) (toISOString t) in
  JObj [("id", JNum (num_of_Z (pr_id r))); ("currency", JStr (pr_currency r)); ("rate", JNum (pr_rate r));
    ("source", JStr (pr_source r)); ("fetchedAt", date (pr_fetchedAt r));
    ("reviewStatus", JStr (review_status_text (pr_reviewStatus r)));
    ("contractStatus", JStr (contract_status_text (pr_contractStatus r)));
    ("reason", nullable JStr (pr_reason r)); ("notes", nullable JStr (pr_notes r));
    ("baselineRate", nullable JNum (pr_baselineRate r));
    ("baselineTimestamp", nullable date (pr_baselineTimestamp r));
    ("changePercent", nullable JNum (pr_changePercent r)); ("memoId", nullable JStr (pr_memoId r));
    ("stellarTxHash", nullable JStr (pr_stellarTxHash r)); ("reviewedAt", nullable date (pr_reviewedAt r));
    ("reviewedBy", nullable JStr (pr_reviewedBy r)); ("createdAt", date (pr_createdAt r));
    ("updatedAt", date (pr_updatedAt r))].

Definition broadcast_resolved (action : string) (review : PendingPriceReview) : run unit :=
  best_effort (at_out (perform (Broadcast "price:review_resolved" (JObj
    [("action", JStr action); ("review", review_json review)])))).

(** The three statements of an approval that others can come between. *)
Definition approve_read (reviewId : Z) : run PendingPriceReview :=
  pendingReview <- at_review (getPendingReviewById reviewId) ;;
  match pendingReview with
  | None => throw (Error ("Pending review " +:+ pretty reviewId +:+ " was not found"))
  | Some r => ret r
  end.
Definition approve_submit (pendingReview : PendingPriceReview) : run (string * string) :=
  memoId <- generateMemoId (pr_currency pendingReview) ;;
  txHash <- submitPriceUpdate (pr_currency pendingReview) (pr_rate pendingReview) memoId ;;
  ret (memoId, txHash).
Definition approve_record (reviewId : Z) (reviewedBy reviewNotes : option string)
    (pendingReview : PendingPriceReview) (submitted : string * string) : run PendingPriceReview :=
  approvedReview <- at_review (approveReview reviewId reviewedBy reviewNotes submitted.1 submitted.2) ;;
  set_cache (delete (toUpperCase (pr_currency pendingReview))) ;;;
  broadcast_resolved "approved" approvedReview ;;;
  ret approvedReview.

Definition approvePendingReview (reviewId : Z) (reviewedBy reviewNotes : option string) :
    run PendingPriceReview :=
  pendingReview <- approve_read reviewId ;;
  submitted <- approve_submit pendingReview ;;
  approve_record reviewId reviewedBy reviewNotes pendingReview submitted.

Definition rejectPendingReview (reviewId : Z) (reviewedBy reviewNotes : option string) :
    run PendingPriceReview :=
  rejectedReview <- at_review (rejectReview reviewId reviewedBy reviewNotes) ;;
  set_cache (delete (toUpperCase (pr_currency rejectedReview))) ;;;
  broadcast_resolved "rejected" rejectedReview ;;;
  ret rejectedReview.

(** For each supported currency: is there a cached rate, and until when? *)
Definition getCacheStatus (m : state) : list (string * option Z) :=
  (λ currency, (currency,
    match mk_cache m !! currency with
    | Some (_, expiry) => if market_now m <? expiry then Some expiry else None
    | None => None
    end)) <$> getSupportedCurrencies.

Definition getBackpressureMetrics : run BackpressureMetrics := at_bp bp_getMetrics.
Definition resetBackpressureMetrics : run unit := at_bp (λ s, (tt, bp_resetMetrics s)).
End service.

(** ** Lemmas: which part of the state a statement can change *)

Section frames.
Context {DR DH R H : Type} `{!PrismaTable Z RawReviewRow DR}
  `{!PrismaTable history_key PriceHistoryRow DH} `{!LockdownRedis R} `{!MarketWorld H}.
Notation state := (market DR DH R H).
Implicit Types (m : state).

(** A property of the review side and the lockdown state. *)
Definition side (P : svc DR (review_env H) → app_state R → Prop) m : Prop := P (mk_review m) (mk_lock m).
Definition bp_is (P : BackpressureManager → Prop) m : Prop := P (mk_bp m).

Lemma side_at_review {A} P (c : M (svc DR (review_env H)) A) :
  (∀ l, preserves (λ s, P s l) c) → preserves (side P) (at_review c).
Proof.
  intros Hc m Hm. specialize (Hc (mk_lock m) (mk_review m) Hm). unfold wp, at_review in *.
  by destruct (c (mk_review m)) as [[a|e] s].
Qed.
Lemma side_at_lock {A} P (c : M (app_state R) A) :
  (∀ s, preserves (P s) c) → preserves (side P) (at_lock c).
Proof.
  intros Hc m Hm. specialize (Hc (mk_review m) (mk_lock m) Hm). unfold wp, at_lock in *.
  by destruct (c (mk_lock m)) as [[a|e] l].
Qed.
Lemma side_at_history {A} P (c : M DH A) : preserves (side P) (at_history c).
Proof. intros m Hm. unfold wp, at_history. by destruct (c (mk_history m)) as [[a|e] d]. Qed.
Lemma side_at_bp {A} P (c : BackpressureManager → A * BackpressureManager) : preserves (side P) (at_bp c).
Proof. intros m Hm. unfold wp, at_bp. by destruct (c (mk_bp m)). Qed.
Lemma side_set_cache P f : preserves (side P) (set_cache f).
Proof. by intros m Hm. Qed.
Lemma side_set_batch P l b : preserves (side P) (set_batch l b).
Proof. by intros m Hm. Qed.
Lemma side_now P : preserves (side P) now_ms.
Proof. by intros m Hm. Qed.

Lemma bp_at_review {A} P (c : M (svc DR (review_env H)) A) : preserves (bp_is P) (at_review c).
Proof. intros m Hm. unfold wp, at_review. by destruct (c (mk_review m)) as [[a|e] s]. Qed.
Lemma bp_at_lock {A} P (c : M (app_state R) A) : preserves (bp_is P) (at_lock c).
Proof. intros m Hm. unfold wp, at_lock. by destruct (c (mk_lock m)) as [[a|e] l]. Qed.
Lemma bp_at_history {A} P (c : M DH A) : preserves (bp_is P) (at_history c).
Proof. intros m Hm. unfold wp, at_history. by destruct (c (mk_history m)) as [[a|e] d]. Qed.
Lemma bp_set_cache P f : preserves (bp_is P) (set_cache f).
Proof. by intros m Hm. Qed.
Lemma bp_set_batch P l b : preserves (bp_is P) (set_batch l b).
Proof. by intros m Hm. Qed.
Lemma bp_now P : preserves (bp_is P) now_ms.
Proof. by intros m Hm. Qed.

(** An attempt never throws. *)
Lemma wp_attempt_keeps {A} (P : state → Prop) (c : M state A) m :
  preserves P c → P m → wp (attempt c) (λ _, P) (λ _ _, False) m.
Proof. intros Hc Hm. specialize (Hc m Hm). unfold wp, attempt in *. by destruct (c m) as [[a|e] m']. Qed.
Lemma preserves_best_effort (P : state → Prop) (c : M state unit) :
  preserves P c → preserves P (best_effort c).
Proof. intros Hc. unfold best_effort. preserve. Qed.
End frames.

#[export] Hint Resolve side_at_history side_at_bp side_set_cache side_set_batch side_now
  bp_at_review bp_at_lock bp_at_history bp_set_cache bp_set_batch bp_now
  preserves_attempt preserves_best_effort : sf.

(** ** The packet queue *)

Section queue.
Context {DR DH R H : Type} `{!PrismaTable Z RawReviewRow DR}
  `{!PrismaTable history_key PriceHistoryRow DH} `{!LockdownRedis R} `{!MarketWorld H}.
Context (numeric_rate numeric_percent : number → jsval) (JSON_parse : string → exc jsval).
Context (config : MarketConfig).
Notation state := (market DR DH R H).
Implicit Types (m : state).

(** The queue of the manager holds these packets, has room for one more, and nobody waits. *)
Definition holds (packets : list IngestionPacket) (b : BackpressureManager) : Prop :=
  let q := mg_queue b in
  aq_queue q = packets ∧ aq_waitingConsumers q = [] ∧ aq_waitingProducers q = [] ∧ aq_closed q = false ∧
  (0 < aq_maxSize q)%nat.

Lemma enqueue_holds ticket packet b :
  p_priority packet = STANDARD → holds [] b →
  ∃ b', bp_enqueue ticket packet b = (Enqueued, b') ∧ holds [packet] b'.
Proof.
  intros Hp (Hq & Hc & Hw & Ho & Hs). unfold bp_enqueue.
  assert (mg_queue (enqueue_start b).2 = mg_queue b) as Hst.
  { unfold enqueue_start, applySlowDown. by repeat case_match; simplify_eq/=. }
  destruct (enqueue_start b) as [[sat del] b1]. simpl in Hst.
  unfold enqueue_finish. rewrite Hp. rewrite (bool_decide_eq_false_2 (STANDARD = METRIC)) by done.
  rewrite andb_false_r. unfold aq_tryPut. rewrite Hst, Ho, Hq. simpl.
  rewrite bool_decide_eq_false_2 by lia. simpl. eexists. split; [done|].
  unfold holds, notifyConsumer; simpl. rewrite Hc; simpl. rewrite Hq. by split_and!.
Qed.

Lemma dequeue_holds elapsed packet b :
  holds [packet] b → holds [] (bp_tryDequeue elapsed b).2.
Proof.
  intros (Hq & Hc & Hw & Ho & Hs). unfold bp_tryDequeue, aq_tryGet. rewrite Hq.
  unfold notifyProducer. simpl. rewrite Hw. unfold holds; simpl.
  by split_and!.
Qed.

Lemma try_ret_total {W A} (c : M W A) f w : ∃ a, (try_catch c (λ e, ret (f e)) w).1 = Ok a.
Proof. unfold try_catch. destruct (c w) as [[a|e] w']; by eexists. Qed.

Lemma bp_process P currency rate raws :
  preserves (bp_is (DR := DR) (DH := DH) (R := R) (H := H) P)
    (process_rate numeric_rate numeric_percent JSON_parse config currency rate raws).
Proof.
  unfold process_rate, persistRawResponses, alert_anomaly, start_cross_pair_check, submission_workflow,
    submit_rate, generateMemoId, submitPriceUpdate, record_history, announce, at_out, best_effort. preserve.
Qed.
End queue.

(** ** What is sent to the network *)

Section sending.
Context {DR DH R H : Type} `{!PrismaTable Z RawReviewRow DR}
  `{!PrismaTable history_key PriceHistoryRow DH} `{!LockdownRedis R} `{!MarketWorld H}.
Context (numeric_rate numeric_percent : number → jsval) (JSON_parse : string → exc jsval).
Context (config : MarketConfig).
Notation state := (market DR DH R H).
Implicit Types (m : state).

(** What the network has accepted is [x], and the lockdown state satisfies [L]. *)
Notation sent_side x L :=
  (side (DR := DR) (DH := DH) (R := R) (H := H) (λ s l, sent_is x (re_out (svc_env s)) ∧ L l)).

Section frame.
Context (x : list (string * string * string)) (L : app_state R → Prop).
Notation ok := (sent_side x L).
Notation review_ok l := (λ s : svc DR (review_env H), sent_is x (re_out (svc_env s)) ∧ L l).

Lemma sent_review_out {A} l (c : M H A) : preserves (sent_is x) c → preserves (review_ok l) (review_out c).
Proof.
  intros Hc s [Hs Hl]. specialize (Hc _ Hs). unfold wp, review_out, on_env in *.
  by destruct (c (re_out (svc_env s))) as [[a|e] h].
Qed.
Lemma sent_schema l : preserves (review_ok l) (ensureSchema (D := DR)).
Proof.
  intros s [Hs Hl]. unfold wp, ensureSchema, on_env. destruct (re_schema (svc_env s)) as [[[]|e]|]; [done..|].
  pose proof (quiet_perform x CreateReviewSchema eq_refl _ Hs) as Hq. unfold wp in Hq. simpl.
  by destruct (perform CreateReviewSchema (re_out (svc_env s))) as [[[]|e] h].
Qed.
Lemma sent_query {A} l (q : DR → exc A) : preserves (review_ok l) (query q).
Proof. apply preserves_query. Qed.
Lemma sent_on_db {A} l (c : M DR A) : preserves (review_ok l) (on_db c).
Proof. intros s Hs. unfold wp, on_db. by destruct (c (svc_db s)) as [[a|e] d]. Qed.
Lemma sent_time l : preserves (review_ok l) current_time.
Proof. by intros s Hs. Qed.
Hint Resolve sent_review_out sent_schema sent_query sent_on_db sent_time : sf.

Lemma sent_notify l r : preserves (review_ok l) (review_out (D := DR) (notify_review r)).
Proof. apply sent_review_out. by apply (quiet_perform x (NotifyReview r)). Qed.
Hint Resolve sent_notify : sf.

Lemma sent_assess rate : preserves ok (at_review (assessRate numeric_rate numeric_percent rate)).
Proof. apply side_at_review. intros l. unfold assessRate, getLatestSubmittedBaseline. preserve. Qed.
Lemma sent_mark id memo tx : preserves ok (at_review (markContractSubmitted id memo tx)).
Proof. apply side_at_review. intros l. unfold markContractSubmitted. preserve. Qed.
Lemma sent_resolve id f : preserves ok (at_review (resolveReview id f)).
Proof. apply side_at_review. intros l. unfold resolveReview. preserve. Qed.
Lemma sent_get id : preserves ok (at_review (getPendingReviewById id)).
Proof. apply side_at_review. intros l. unfold getPendingReviewById. preserve. Qed.

Lemma sent_out {A} (c : M H A) : preserves (sent_is x) c → preserves ok (at_out c).
Proof. intros Hc. apply side_at_review. intros l. by apply sent_review_out. Qed.
Lemma sent_perform {A} (c : market_call A) : submission c = None → preserves ok (at_out (perform c)).
Proof. intros Hc. by apply sent_out, quiet_perform. Qed.
Lemma sent_fetch code fetch : fetcher config code = Some fetch → preserves ok (at_out fetch).
Proof.
  intros Hf. apply sent_out. unfold fetcher, kes_fetchRate, ghs_fetchRate in Hf.
  repeat case_decide; simplify_eq; [apply quiet_simple..|apply quiet_ngn].
Qed.
Lemma sent_checkPrice c p : preserves ok (at_out (checkPrice c p)).
Proof. apply sent_out, quiet_checkPrice. Qed.
End frame.
Hint Resolve sent_assess sent_mark sent_resolve sent_get sent_checkPrice : sf.
Hint Extern 1 (preserves _ (at_out (perform _))) => apply sent_perform; reflexivity : sf.

Lemma sent_memo x L c : preserves (sent_side x L) (generateMemoId (DR := DR) (DH := DH) (R := R) c).
Proof. unfold generateMemoId. preserve. Qed.
Hint Resolve sent_memo : sf.

(** A property of the lockdown state that reading it keeps. *)
Definition stays (L : app_state R → Prop) : Prop := preserves L (getLockdownState JSON_parse).

Lemma sent_lockdown x L : stays L → preserves (sent_side x L) (at_lock (isLockdownEnabled JSON_parse)).
Proof.
  intros HL. apply side_at_lock. intros s l [Hs Hl]. unfold isLockdownEnabled. apply wp_bind.
  eapply wp_mono; [by apply HL|..]; intros; [by apply wp_ret|done].
Qed.

Lemma sent_assert x L : stays L → preserves (sent_side x L) (at_lock (assertSigningAllowed JSON_parse)).
Proof.
  intros HL. apply side_at_lock. intros s l [Hs Hl]. unfold assertSigningAllowed. apply wp_bind.
  eapply wp_mono; [by apply HL|..]; intros; [|done]. cbv beta. by destruct (ld_isLocked a).
Qed.

Lemma stays_true : stays (λ _, True).
Proof. intros l _. unfold wp. by destruct (getLockdownState JSON_parse l) as [[a|e] l']. Qed.

Lemma stays_locked : stays (locked_for_good JSON_parse).
Proof. intros l Hl. eapply wp_mono; [by apply (wp_locked JSON_parse l (λ _, locked_for_good JSON_parse))|..]; naive_solver. Qed.

(** Nothing can be submitted while the lockdown lasts. *)
Lemma submit_locked x currency price memo :
  preserves (sent_side x (locked_for_good JSON_parse))
    (submitPriceUpdate (DR := DR) (DH := DH) JSON_parse currency price memo).
Proof.
  intros m Hm. unfold submitPriceUpdate. apply wp_bind.
  unfold wp at 1, at_lock, assertSigningAllowed.
  pose proof (wp_locked JSON_parse (mk_lock m) (λ _ _, False) (proj2 Hm)) as Hw. unfold wp in Hw.
  unfold bind at 1. destruct (getLockdownState JSON_parse (mk_lock m)) as [[st|e] l]; [|done].
  destruct Hw as [-> Hl]. split; [apply Hm|done].
Qed.

(** At most one submission, for this currency. *)
Definition submitted_once (x : list (string * string * string)) (code : string) m : Prop :=
  sent (market_out m) = x ∨
  ∃ price memo, sent (market_out m) = x ++ [(code +:+ "_PRICE", String_num price, memo)].

Lemma once_same x code m : sent_side x (λ _, True) m → submitted_once x code m.
Proof. intros [Hs _]. by left. Qed.

Lemma wp_submit_price x code price memo m :
  sent_side x (λ _, True) m →
  wp (submitPriceUpdate JSON_parse code price memo) (λ _, submitted_once x code)
    (λ _, submitted_once x code) m.
Proof.
  intros Hm. unfold submitPriceUpdate. apply wp_bind.
  eapply wp_mono; [by apply (sent_assert x _ stays_true)| |intros; by apply once_same].
  intros [] m1 [Hs _]. unfold wp, at_out, at_review, review_out, on_env, submitted_once.
  destruct (perform _ (re_out (svc_env (mk_review m1)))) as [[r|e] h] eqn:Ep;
    unfold market_out; simpl; unfold sent_is in Hs; rewrite <-Hs.
  - apply submit_ok in Ep. right. by exists price, memo.
  - destruct (submit_err _ _ _ _ _ _ Ep) as [->| ->]; [by left|right; by exists price, memo].
Qed.

(** After a submission, everything else keeps what was sent. *)
Lemma once_keeps {A} x code (c : M state A) :
  (∀ y, preserves (sent_side y (λ _, True)) c) → preserves (submitted_once x code) c.
Proof.
  intros Hc m Hm. pose proof (Hc (sent (market_out m)) m (conj eq_refl I)) as Hw.
  eapply wp_mono; [exact Hw|..]; intros ? m' [Hs _]; unfold submitted_once, sent_is, market_out in *;
    rewrite Hs; exact Hm.
Qed.

Hint Extern 2 (preserves _ (at_out _)) => eapply sent_fetch; eassumption : sf.

Section parts.
Context (x : list (string * string * string)) (L : app_state R → Prop).
Notation keeps c := (preserves (sent_side x L) (c : M state _)).

Lemma sent_raws code raws : keeps (persistRawResponses code raws).
Proof. unfold persistRawResponses. preserve. Qed.
Lemma sent_alert code rate : keeps (alert_anomaly code rate).
Proof. unfold alert_anomaly. preserve. Qed.
Lemma sent_cross code : keeps (start_cross_pair_check code).
Proof. unfold start_cross_pair_check, best_effort. preserve. Qed.
Lemma sent_history currency e : keeps (record_history numeric_rate currency e).
Proof. unfold record_history, best_effort. preserve. Qed.
Lemma sent_announce code e : keeps (announce code e).
Proof. unfold announce. case_match; preserve. Qed.
Lemma sent_resolved action r : keeps (broadcast_resolved action r).
Proof. unfold broadcast_resolved. preserve. Qed.
Lemma sent_enqueue t : keeps (enqueue_fetch t).
Proof. unfold enqueue_fetch. preserve. Qed.
Lemma sent_dequeue : keeps tryDequeue.
Proof. unfold tryDequeue. preserve. Qed.
Lemma sent_approve_read id : keeps (approve_read id).
Proof. unfold approve_read. preserve. Qed.
Lemma sent_approve_record id by_ notes r s : keeps (approve_record id by_ notes r s).
Proof. unfold approve_record, approveReview. pose proof sent_resolved. preserve. Qed.
Lemma sent_reject id by_ notes : keeps (rejectPendingReview id by_ notes).
Proof. unfold rejectPendingReview, rejectReview. pose proof sent_resolved. preserve. Qed.
End parts.
Hint Resolve sent_raws sent_alert sent_cross sent_history sent_announce sent_resolved sent_enqueue
  sent_dequeue sent_approve_read sent_approve_record sent_reject : sf.

(** With a submission that sends nothing, nothing is sent. *)
Lemma getRate_sent x L currency :
  stays L →
  (∀ c p memo, preserves (sent_side x L) (submitPriceUpdate (DR := DR) (DH := DH) JSON_parse c p memo)) →
  preserves (sent_side x L) (getRate numeric_rate numeric_percent JSON_parse config currency : M state _).
Proof.
  intros HL Hsub. pose proof (sent_lockdown x L HL).
  assert (∀ code rate id e, preserves (sent_side x L) (submit_rate JSON_parse config code rate id e : M state _))
    by (intros; unfold submit_rate, best_effort; preserve).
  assert (∀ code rate e, preserves (sent_side x L)
    (submission_workflow JSON_parse config code rate e : M state _)) by (intros; unfold submission_workflow, best_effort; preserve).
  assert (∀ c rate raws, preserves (sent_side x L)
    (process_rate numeric_rate numeric_percent JSON_parse config c rate raws : M state _))
    by (intros; unfold process_rate; preserve).
  unfold getRate, fetch_and_process. preserve.
Qed.

(** ** One submission per call *)

Notation quiet_at x := (sent_side x (λ _ : app_state R, True)).

(** Continue a run, from a state in which nothing was sent yet, or with at most one
    submission made. *)
Lemma wp_bind_quiet {A B} x code (c : M state A) (k : A → M state B) (Q : B → state → Prop) m :
  preserves (quiet_at x) c → quiet_at x m →
  (∀ a m', quiet_at x m' → wp (k a) Q (λ _, submitted_once x code) m') →
  wp (bind c k) Q (λ _, submitted_once x code) m.
Proof.
  intros Hc Hm Hk. apply wp_bind. eapply wp_mono; [by apply Hc|intros a m' Hm'; by apply Hk|].
  intros e m' Hm'. by apply once_same.
Qed.

Lemma submit_rate_once x code rate id e m :
  quiet_at x m →
  wp (submit_rate JSON_parse config code rate id e)
    (λ e' m', er_assessment e' = er_assessment e ∧ submitted_once x code m') (λ _, submitted_once x code) m.
Proof.
  intros Hm. unfold submit_rate. apply (wp_bind_quiet x); [auto with sf|done|]. intros memo m1 H1.
  destruct (multiSigEnabled config).
  - apply (wp_bind_quiet x); [auto with sf|done|]. intros n m2 H2.
    apply (wp_bind_quiet x); [auto with sf|done|]. intros [] m3 H3.
    apply (wp_bind_quiet x); [unfold best_effort; preserve|done|]. intros [] m4 H4.
    apply wp_ret. split; [done|by apply once_same].
  - apply wp_bind. eapply wp_mono; [by apply wp_submit_price| |done]. intros tx m2 H2.
    apply wp_bind. eapply wp_mono; [apply once_keeps; [intros; apply sent_mark|exact H2]| |done].
    intros [] m3 H3. apply wp_bind. unfold wp at 1, get. apply wp_bind. unfold wp at 1.
    apply wp_ret. split; [done|exact H3].
Qed.

Lemma workflow_once x code rate e m :
  quiet_at x m →
  wp (submission_workflow JSON_parse config code rate e)
    (λ e' m', er_assessment e' = er_assessment e ∧ submitted_once x code m' ∧
       (as_manualReviewRequired (er_assessment e) = true → quiet_at x m'))
    (λ _, submitted_once x code) m.
Proof.
  intros Hm. unfold submission_workflow. destruct (as_manualReviewRequired (er_assessment e));
    [by apply wp_ret; split_and!; [|apply once_same|]|].
  apply (wp_bind_quiet x); [unfold best_effort; preserve|done|]. intros [] m1 H1.
  apply (wp_bind_quiet x); [apply sent_lockdown, stays_true|done|]. intros [] m2 H2;
    [by apply wp_ret; split_and!; [|apply once_same|]|].
  apply wp_try_catch. eapply wp_mono; [by apply submit_rate_once| |].
  - by intros e' m3 [-> ?].
  - intros err m3 H3. apply wp_ret. by split_and!.
Qed.

Lemma process_once x currency rate raws m :
  quiet_at x m →
  wp (process_rate numeric_rate numeric_percent JSON_parse config currency rate raws)
    (λ r m', submitted_once x (toUpperCase currency) m' ∧
       ∀ e, r = Fetched e → as_manualReviewRequired (er_assessment e) = true → sent (market_out m') = x)
    (λ _, submitted_once x (toUpperCase currency)) m.
Proof.
  intros Hm. unfold process_rate. set (code := toUpperCase currency).
  apply (wp_bind_quiet x); [auto with sf|done|]. intros [] m1 H1.
  apply (wp_bind_quiet x); [auto with sf|done|]. intros nrate m2 H2.
  apply (wp_bind_quiet x); [auto with sf|done|]. intros assessment m3 H3.
  apply (wp_bind_quiet x); [auto with sf|done|]. intros [] m4 H4.
  apply (wp_bind_quiet x); [auto with sf|done|]. intros [] m5 H5.
  apply wp_bind. eapply wp_mono; [by apply workflow_once| |done].
  intros e m6 (Ea & H6 & Hq). simpl in Ea, Hq.
  set (tail := t <- now_ms ;; _). assert (∀ y, preserves (quiet_at y) tail) as Ht
    by (intros y; unfold tail; preserve).
  assert (wp tail (λ r _, r = Fetched e) (λ _ _, True) m6) as Hr.
  { unfold tail. repeat (apply wp_bind; unfold wp at 1; case_match; case_match; [|done]). done. }
  pose proof (once_keeps x code tail Ht m6 H6) as Hk. pose proof (λ H, Ht x m6 (Hq H)) as Hs.
  unfold wp in Hr, Hk, Hs |- *. destruct (tail m6) as [[r|err] m7]; [|done].
  split; [done|]. subst r. intros e' [= <-]. rewrite Ea. intros Hman. by destruct (Hs Hman).
Qed.
End sending.

(** ** What happens to the records *)

Section records.
Context {DR DH R H : Type} `{!PrismaTable Z RawReviewRow DR}
  `{!PrismaTable history_key PriceHistoryRow DH} `{!LockdownRedis R} `{!MarketWorld H}.
Context (numeric_rate numeric_percent : number → jsval) (JSON_parse : string → exc jsval).
Context (config : MarketConfig).
Notation state := (market DR DH R H).
Implicit Types (m : state) (d : DR).

Definition records m : DR := svc_db (mk_review m).
(** The records are those of [d]. *)
Notation db_at d := (side (DR := DR) (DH := DH) (R := R) (H := H) (λ s _, svc_db s = d)).
(** The records have grown from [d]. *)
Definition grown d m : Prop := grows d (records m).

Lemma db_out {A} d (c : M H A) : preserves (db_at d) (at_out c : M state A).
Proof. apply side_at_review. intros _. apply (preserves_review_out (λ d', d' = d)). Qed.
Lemma db_lock {A} d (c : M (app_state R) A) : preserves (db_at d) (at_lock c : M state A).
Proof. apply side_at_lock. intros s l Hs. unfold wp. by destruct (c l) as [[a|e] l']. Qed.
Lemma db_get d id : preserves (db_at d) (at_review (getPendingReviewById id) : M state _).
Proof.
  apply side_at_review. intros _. unfold getPendingReviewById.
  apply preserves_bind; [apply (preserves_schema (λ d', d' = d))|]. intros [].
  apply preserves_bind; [apply preserves_query|]. intros l. apply preserves_ret.
Qed.
Hint Resolve db_out db_lock db_get : sf.

(** Statements that leave the records alone let them have grown. *)
Lemma grown_keep {A} d (c : M state A) :
  (∀ d', preserves (db_at d') c) → preserves (grown d) c.
Proof.
  intros Hc m Hm. eapply wp_mono; [by apply (Hc (records m))|..];
    intros ? m' Hr; unfold grown, records, side in *; by rewrite Hr.
Qed.

Lemma wp_bind_db {A B} d (c : M state A) (k : A → M state B) (Q : B → state → Prop) d0 m :
  preserves (db_at d) c → db_at d m → grows d0 d →
  (∀ a m', db_at d m' → wp (k a) Q (λ _, grown d0) m') →
  wp (bind c k) Q (λ _, grown d0) m.
Proof.
  intros Hc Hm Hg Hk. apply wp_bind. eapply wp_mono; [by apply Hc|intros a m' Hm'; by apply Hk|].
  intros e m' Hm'. unfold grown, records, side in *. by rewrite Hm'.
Qed.

(** The record [id] is one that was not held back. *)
Definition auto_record d (id : Z) : Prop :=
  records_ok d ∧ ∀ r, rows d !! id = Some r → rv_review_status r = AUTO_APPROVED.

Lemma submit_rate_grown d0 d code rate id e m :
  db_at d m → grows d0 d → auto_record d id →
  wp (submit_rate JSON_parse config code rate id e) (λ e' m', grown d0 m') (λ _, grown d0) m.
Proof.
  intros Hm Hg [Hok Ha]. assert (∀ m', db_at d m' → grown d0 m') as Hd.
  { intros m' E. unfold grown, records, side in *. by rewrite E. }
  unfold submit_rate. apply (wp_bind_db d); [unfold generateMemoId; preserve|done|done|]. intros memo m1 H1.
  destruct (multiSigEnabled config).
  - apply (wp_bind_db d); [auto with sf|done|done|]. intros n m2 H2.
    apply (wp_bind_db d); [auto with sf|done|done|]. intros [] m3 H3.
    apply (wp_bind_db d); [unfold best_effort; preserve|done|done|]. intros [] m4 H4. by apply wp_ret, Hd.
  - apply (wp_bind_db d); [unfold submitPriceUpdate; preserve|done|done|]. intros tx m2 H2.
    apply wp_bind. unfold wp at 1, at_review.
    pose proof (mark_grows (ReviewWorld0 := market_review) id memo tx (mk_review m2)) as Hmark. unfold side in H2.
    rewrite H2 in Hmark. specialize (Hmark Hok Ha). unfold final in Hmark.
    destruct (markContractSubmitted id memo tx (mk_review m2)) as [[[]|err] s]; simpl in Hmark;
      [|unfold grown, records; simpl; by etrans].
    apply wp_bind. unfold wp at 1, get. apply wp_bind. unfold wp at 1, set_batch, modify.
    apply wp_ret. unfold grown, records; simpl. by etrans.
Qed.

Lemma process_grown d0 currency rate raws m :
  records_ok d0 → db_at d0 m →
  wp (process_rate numeric_rate numeric_percent JSON_parse config currency rate raws)
    (λ _, grown d0) (λ _, grown d0) m.
Proof.
  intros Hok Hm. unfold process_rate. set (code := toUpperCase currency).
  apply (wp_bind_db d0); [unfold best_effort, persistRawResponses; preserve|done|done|]. intros [] m1 H1.
  apply (wp_bind_db d0); [auto with sf|done|done|]. intros nrate m2 H2. unfold side in H2.
  apply wp_bind. unfold wp at 1, at_review.
  pose proof (wp_assessRate numeric_rate numeric_percent nrate (mk_review m2)) as Hs.
  pose proof (assess_grows numeric_rate numeric_percent d0 nrate (mk_review m2)) as Hg.
  assert (grows d0 (svc_db (mk_review m2))) as Hg0 by (by rewrite H2). specialize (Hg Hg0).
  rewrite H2 in Hs. unfold wp in Hs, Hg.
  destruct (assessRate numeric_rate numeric_percent nrate (mk_review m2)) as [[a|err] s]; [|exact Hg].
  set (m3 := mkMarket s _ _ _ _ _ _). assert (db_at (svc_db s) m3) as H3 by done.
  assert (as_manualReviewRequired a = false → auto_record (svc_db s) (as_reviewRecordId a)) as Hauto.
  { intros Ea. destruct Hs as (t & _ & (row & Hn & Er & Hst & _) & _). split; [by apply Hg|].
    intros r. rewrite Er, lookup_insert_eq. intros [= <-]. by rewrite Hst, Ea. }
  apply (wp_bind_db (svc_db s)); [unfold alert_anomaly; preserve|done|done|]. intros [] m4 H4.
  apply (wp_bind_db (svc_db s)); [unfold start_cross_pair_check, best_effort; preserve|done|done|]. intros [] m5 H5.
  assert (∀ m', db_at (svc_db s) m' → grown d0 m') as Hd.
  { intros m' E. unfold grown, records, side in *. by rewrite E. }
  apply wp_bind. eapply (wp_mono _ (λ _, grown d0) _ (λ _, grown d0)); [| |done].
  - unfold submission_workflow. cbn [er_assessment]. destruct (as_manualReviewRequired a) eqn:Ea; [by apply wp_ret, Hd|].
    apply (wp_bind_db (svc_db s)); [unfold best_effort; preserve|done|done|]. intros [] m6 H6.
    apply (wp_bind_db (svc_db s)); [auto with sf|done|done|]. intros [] m7 H7; [by apply wp_ret, Hd|].
    apply wp_try_catch. eapply wp_mono; [by eapply submit_rate_grown; eauto|done|]. done.
  - intros e m6 H6. match goal with |- wp ?c _ _ _ => assert (preserves (grown d0) c) as Hp end.
    { apply grown_keep. intros d'. unfold record_history, announce, best_effort. preserve. }
    by apply Hp.
Qed.

Lemma getRate_grown currency m :
  records_ok (records m) →
  wp (getRate numeric_rate numeric_percent JSON_parse config currency)
    (λ _, grown (records m)) (λ _, grown (records m)) m.
Proof.
  intros Hok. set (d := records m) in *. assert (db_at d m) as Hm by done.
  assert (∀ m', db_at d m' → grown d m') as Hd.
  { intros m' E. unfold grown, records, side in *. by rewrite E. }
  unfold getRate. apply wp_try_catch.
  apply (wp_mono _ (λ _, grown d) _ (λ _, grown d)); [|done|intros err m1 H1; by apply wp_ret].
  destruct (fetcher config _) as [fetch|]; [|by apply wp_ret, Hd].
  apply wp_bind. unfold wp at 1, get. destruct (cached_rate _ m); [by apply wp_ret, Hd|].
  apply (wp_bind_db d); [unfold enqueue_fetch; preserve|done|done|]. intros b m1 H1.
  destruct (negb b); [by apply wp_ret, Hd|].
  unfold fetch_and_process. apply (wp_bind_db d); [apply preserves_attempt, db_out|done|done|].
  intros fetched m2 H2. apply (wp_bind_db d); [unfold tryDequeue; preserve|done|done|]. intros [] m3 H3.
  destruct fetched as [[rate raws]|err]; [by apply process_grown|].
  apply (wp_bind_db d); [auto with sf|done|done|]. intros [] m4 H4. by apply wp_ret, Hd.
Qed.

Lemma grown_approve_read d id : preserves (grown d) (approve_read id : M state _).
Proof. apply grown_keep. intros d'. unfold approve_read. preserve. Qed.

Lemma db_approve_submit d r : preserves (db_at d) (approve_submit JSON_parse r : M state _).
Proof. unfold approve_submit, generateMemoId, submitPriceUpdate. preserve. Qed.

Lemma grown_resolve d id f : resolution f → preserves (grown d) (at_review (resolveReview id f) : M state _).
Proof.
  intros Hf m Hm. pose proof (resolve_grows (H := H) d id f Hf (mk_review m) Hm) as Hw.
  unfold wp, at_review in *. by destruct (resolveReview id f (mk_review m)) as [[a|e] s].
Qed.

Lemma db_resolved d action r : preserves (db_at d) (broadcast_resolved action r : M state _).
Proof. unfold broadcast_resolved, best_effort. preserve. Qed.
Lemma grown_resolved d action r : preserves (grown d) (broadcast_resolved action r : M state _).
Proof. apply grown_keep. intros d'. apply db_resolved. Qed.
Lemma grown_set_cache d f : preserves (grown d) (set_cache f : M state _).
Proof. apply grown_keep. intros d'. auto with sf. Qed.

Lemma grown_approve_record d id by_ notes r s : preserves (grown d) (approve_record id by_ notes r s : M state _).
Proof.
  unfold approve_record, approveReview.
  pose proof (grown_resolve d id _ (approve_resolution by_ notes s.1 s.2)).
  pose proof (grown_resolved d). pose proof (grown_set_cache d). preserve.
Qed.
Lemma grown_reject d id by_ notes : preserves (grown d) (rejectPendingReview id by_ notes : M state _).
Proof.
  unfold rejectPendingReview, rejectReview.
  pose proof (grown_resolve d id _ (reject_resolution by_ notes)).
  pose proof (grown_resolved d). pose proof (grown_set_cache d). preserve.
Qed.

(** What an approval reads: the pending record, whose rate is zero if the client returned an
    object. *)
Lemma wp_approve_read x d id m :
  records_ok (records m) → records m = d → sent (market_out m) = x →
  wp (approve_read id) (λ r m', (sent (market_out m') = x ∧ True) ∧ ∀ row, rows d !! id = Some row →
      pr_currency r = rv_currency row ∧ ∀ n s, rv_rate row = JOther n s → pr_rate r = num_zero)
    (λ _ _, True) m.
Proof.
  intros Hok Ed Hx. subst d.
  pose proof (sent_approve_read x (λ _, True) id m (conj Hx I)) as Hs.
  enough (wp (approve_read id) (λ r m', ∀ row, rows (records m) !! id = Some row →
    pr_currency r = rv_currency row ∧ ∀ n s, rv_rate row = JOther n s → pr_rate r = num_zero)
    (λ _ _, True) m) as Hw.
  { unfold wp in *. destruct (approve_read id m) as [[r|e] m']; [|done]. by split. }
  clear Hs. unfold approve_read. apply wp_bind. unfold wp at 1, at_review.
  pose proof (wp_getPending id (mk_review m) Hok) as Hg. unfold wp in Hg.
  destruct (getPendingReviewById id (mk_review m)) as [[o|e] s]; [|done]. destruct Hg as [_ Hg].
  destruct o as [r|]; [|done]. apply wp_ret. intros row Hrow.
  destruct (Hg r eq_refl) as (row' & Hrow' & _ & ->). assert (row' = row) as -> by (unfold records in *; congruence).
  split; [done|]. intros n st Hr. unfold mapReviewRow. cbn [pr_rate].
  rewrite parsed_batch by apply list_elem_of_here. unfold row_number. simpl. by rewrite Hr.
Qed.

Lemma wp_submit_Ok x code price memo m :
  sent (market_out m) = x ∧ True →
  wp (submitPriceUpdate JSON_parse code price memo)
    (λ _ m', sent (market_out m') = x ++ [(code +:+ "_PRICE", String_num price, memo)]) (λ _ _, True) m.
Proof.
  intros Hm. unfold submitPriceUpdate. apply wp_bind.
  eapply wp_mono; [apply (sent_assert JSON_parse x _ (stays_true JSON_parse)); exact Hm| |done].
  intros [] m1 [Hs _]. unfold wp, at_out, at_review, review_out, on_env.
  destruct (perform _ (re_out (svc_env (mk_review m1)))) as [[r|e] h] eqn:Ep; [|done].
  apply submit_ok in Ep. unfold market_out; simpl. rewrite Ep. unfold sent_is in Hs. by rewrite Hs.
Qed.

Lemma db_approve_read d id : preserves (db_at d) (approve_read id : M state _).
Proof. unfold approve_read. preserve. Qed.

Lemma wp_approve_submit x r m :
  sent (market_out m) = x ∧ True →
  wp (approve_submit JSON_parse r)
    (λ s m', sent (market_out m') = x ++ [(pr_currency r +:+ "_PRICE", String_num (pr_rate r), s.1)])
    (λ _ _, True) m.
Proof.
  intros Hm. unfold approve_submit. apply wp_bind.
  eapply wp_mono; [apply (sent_memo x (λ _, True)); exact Hm| |done]. intros memo m2 H2.
  apply wp_bind. eapply wp_mono; [by apply (wp_submit_Ok x)| |done]. intros tx m3 H3. apply wp_ret. exact H3.
Qed.

(** A rejection that completes leaves its record rejected. *)
Lemma reject_resolves id by_ notes m a m' :
  records_ok (records m) → rejectPendingReview id by_ notes m = (Ok a, m') →
  records_ok (records m') ∧ ∃ row, rows (records m') !! id = Some row ∧
    rv_review_status row = REJECTED ∧ rv_contract_status row = SKIPPED.
Proof.
  intros Hok E. pose proof (grown_reject (records m) id by_ notes m) as Hg.
  assert (grown (records m) m) as Hm by (unfold grown; reflexivity). specialize (Hg Hm).
  unfold wp in Hg. rewrite E in Hg. split; [by apply Hg|]. clear Hg.
  enough (wp (rejectPendingReview id by_ notes) (λ _ m', ∃ row, rows (records m') !! id = Some row ∧
    rv_review_status row = REJECTED ∧ rv_contract_status row = SKIPPED) (λ _ _, True) m) as Hw.
  { unfold wp in Hw. by rewrite E in Hw. }
  unfold rejectPendingReview. apply wp_bind. unfold wp at 1, at_review.
  destruct (rejectReview id by_ notes (mk_review m)) as [[r|e] s] eqn:Er; [|done].
  apply (resolve_Ok id _ _ _ _ Hok) in Er as (t & r0 & Hr0 & _ & Hr & _).
  assert (rows (svc_db s) !! id = Some (resolve_row REJECTED SKIPPED by_ notes None t r0)) as Hrow
    by (apply Hr; by apply (Hok _ _ Hr0)).
  apply wp_bind. unfold wp at 1, set_cache, modify. apply wp_bind.
  eapply wp_mono; [apply (db_resolved (svc_db s)); done| |done]. intros [] m2 H2. apply wp_ret.
  unfold side in H2. unfold records. rewrite H2. by eexists.
Qed.

(** An approval is recorded only on a pending record. *)
Lemma approve_record_pending id by_ notes review sub m a m' row :
  records_ok (records m) → approve_record id by_ notes review sub m = (Ok a, m') →
  rows (records m) !! id = Some row → rv_review_status row = REJECTED → False.
Proof.
  intros Hok E Hrow Hst. unfold approve_record, bind at 1, at_review in E.
  destruct (approveReview id by_ notes sub.1 sub.2 (mk_review m)) as [[r|e] s] eqn:Er; [|done].
  apply (resolve_Ok id _ _ _ _ Hok) in Er as (t & r0 & Hr0 & Hp & _). unfold records in Hrow. congruence.
Qed.
End records.

(** ** Theorems *)

Section theorems.
Context {DR DH R H : Type} `{!PrismaTable Z RawReviewRow DR}
  `{!PrismaTable history_key PriceHistoryRow DH} `{!LockdownRedis R} `{!MarketWorld H}.
Context (numeric_rate numeric_percent : number → jsval) (JSON_parse : string → exc jsval).
Context (config : MarketConfig).
Notation state := (market DR DH R H).
Implicit Types (m : state).

Notation getRate := (getRate numeric_rate numeric_percent JSON_parse config).
Notation approve := (approvePendingReview JSON_parse).
Notation reject := (rejectPendingReview (DR := DR) (DH := DH) (R := R) (H := H)).

(** C33. [getRate] always answers, whatever fails inside, and leaves the packet queue as it found
    it: on an idle queue its packet is accepted, and taken out again on every path. *)
Theorem getRate_answers currency m :
  holds [] (mk_bp m) →
  (∃ response, outcome (getRate currency) m = Ok response) ∧ holds [] (mk_bp (final (getRate currency) m)).
Proof.
  intros Hb. split; [apply try_ret_total|].
  apply (wp_final _ (bp_is (holds []))). unfold MarketRate.getRate.
  apply wp_try_catch. apply (wp_mono _ (λ _, bp_is (holds [])) _ (λ _, bp_is (holds []))); [|done|].
  - destruct (fetcher config _) as [fetch|]; [|by apply wp_ret].
    apply wp_bind. unfold wp at 1, get. destruct (cached_rate _ m); [by apply wp_ret|].
    apply wp_bind. unfold enqueue_fetch. apply wp_bind. unfold wp at 1, at_bp.
    destruct (enqueue_holds 0 (mkPacket STANDARD 0 (market_now m)) (mk_bp m) eq_refl Hb) as (b & -> & Hb').
    apply wp_ret. unfold fetch_and_process. apply wp_bind.
    set (p := mkPacket _ _ _) in *.
    eapply wp_mono; [apply (wp_attempt_keeps (bp_is (holds [p]))); [apply bp_at_review|exact Hb']| |done].
    intros fetched m1 H1. apply wp_bind.
    unfold tryDequeue. apply wp_bind. unfold wp at 1, get. apply wp_bind. unfold wp at 1, at_bp.
    pose proof (dequeue_holds (mw_elapsed (market_out m1)) p (mk_bp m1) H1) as H2.
    destruct (bp_tryDequeue _ (mk_bp m1)) as [o b2]. apply wp_ret.
    destruct fetched as [[rate raws]|err]; [by apply bp_process|].
    apply wp_bind.
    eapply wp_mono; [apply (preserves_best_effort (bp_is (holds []))); [apply bp_at_review|exact H2]| |done].
    intros [] m3 H3. by apply wp_ret.
  - intros err m' Hm'. by apply wp_ret.
Qed.

(** While the cached rate of a currency lasts, [getRate] returns it and does nothing else: no
    request, no record, no submission. *)
Theorem cached_rate_is_free currency m enriched :
  is_Some (fetcher (H := H) config (toUpperCase currency)) →
  cached_rate (toUpperCase currency) m = Some enriched →
  getRate currency m = (Ok (Fetched enriched), m).
Proof.
  intros [fetch Hf] Hc. unfold MarketRate.getRate, try_catch, bind, get. by rewrite Hf, Hc.
Qed.

(** C20. A call of [getRate] submits at most one price update, for its own currency; none when
    the rate is held back for review. *)
Theorem getRate_submits_once currency m :
  let m' := final (getRate currency) m in
  (sent (market_out m') = sent (market_out m) ∨
   ∃ price memo, sent (market_out m') = sent (market_out m) ++
     [(toUpperCase currency +:+ "_PRICE", String_num price, memo)]) ∧
  ∀ enriched, outcome (getRate currency) m = Ok (Fetched enriched) →
    as_manualReviewRequired (er_assessment enriched) = true →
    sent (market_out m') = sent (market_out m).
Proof.
  cbv zeta. set (x := sent (market_out m)). set (code := toUpperCase currency).
  enough (wp (getRate currency) (λ r m', submitted_once x code m' ∧
    ∀ e, r = Fetched e → as_manualReviewRequired (er_assessment e) = true → sent (market_out m') = x)
    (λ _ _, False) m) as Hw.
  { unfold wp, final, outcome in *. destruct (getRate currency m) as [[r|e] m']; [|done].
    destruct Hw as [H1 H2]. split; [exact H1|]. intros enriched [= ->]. by apply H2. }
  unfold MarketRate.getRate. fold code. apply wp_try_catch.
  assert (∀ m1, submitted_once x code m1 → ∀ err, wp (ret (FetchFailed err)) (λ r m', submitted_once x code m' ∧
    ∀ e, r = Fetched e → as_manualReviewRequired (er_assessment e) = true → sent (market_out m') = x)
    (λ _ _, False) m1) as Hfail by (intros m1 H1 err; apply wp_ret; split; done).
  apply (wp_mono _ (λ r m', submitted_once x code m' ∧
    ∀ e, r = Fetched e → as_manualReviewRequired (er_assessment e) = true → sent (market_out m') = x) _
    (λ _, submitted_once x code)); [|done|intros err m1 H1; exact (Hfail m1 H1 _)].
  assert (sent (market_out m) = x ∧ True) as Hm by done.
  destruct (fetcher config code) as [fetch|] eqn:Ef; [|by apply wp_ret; split; [left|]].
  apply wp_bind. unfold wp at 1, get. destruct (cached_rate code m); [apply wp_ret; split; [by left|done]|].
  apply (wp_bind_quiet x); [apply sent_enqueue|exact Hm|]. intros b m1 H1.
  destruct (negb b); [apply wp_ret; split; [by apply once_same|done]|].
  unfold fetch_and_process. apply (wp_bind_quiet x); [|done|].
  { apply preserves_attempt. by eapply sent_fetch. }
  intros fetched m2 H2. apply (wp_bind_quiet x); [apply sent_dequeue|done|]. intros [] m3 H3.
  destruct fetched as [[rate raws]|err].
  - by apply process_once.
  - apply (wp_bind_quiet x); [by apply preserves_best_effort, sent_perform|done|]. intros [] m4 H4.
    apply wp_ret. split; [by apply once_same|done].
Qed.

(** C19. Lockdown holds: while the state is locked, in memory and in whatever Redis may answer,
    neither fetching a rate nor resolving a review submits anything. *)
Theorem lockdown_stops_submissions m (c : M state unit) :
  locked_for_good JSON_parse (mk_lock m) →
  (∃ currency, c = (getRate currency ;;; ret tt)) ∨
  (∃ id by_ notes, c = (approve id by_ notes ;;; ret tt)) ∨
  (∃ id by_ notes, c = (reject id by_ notes ;;; ret tt)) →
  sent (market_out (final c m)) = sent (market_out m) ∧ locked_for_good JSON_parse (mk_lock (final c m)).
Proof.
  intros Hl Hc. set (x := sent (market_out m)).
  enough (preserves (side (λ (s : svc DR (review_env H)) l,
    sent_is x (re_out (svc_env s)) ∧ locked_for_good JSON_parse l)) c) as Hp.
  { by apply (preserves_final _ c m Hp). }
  pose proof (stays_locked JSON_parse) as Hs. pose proof (submit_locked (H := H) (DR := DR) (DH := DH) JSON_parse x) as Hsub.
  destruct Hc as [(currency & ->)|[(id & by_ & notes & ->)|(id & by_ & notes & ->)]];
    (apply preserves_bind; [|intros ?; apply preserves_ret]).
  - by apply getRate_sent.
  - unfold approvePendingReview. apply preserves_bind; [apply sent_approve_read|]. intros r.
    apply preserves_bind; [|intros s; apply sent_approve_record].
    unfold approve_submit. apply preserves_bind; [apply sent_memo|]. intros memo.
    apply preserves_bind; [apply Hsub|intros tx; apply preserves_ret].
  - apply sent_reject.
Qed.

(** C24. The records of every call stay well-formed: whatever [getRate], an approval or a
    rejection does, in any state, a record's two statuses agree, what was assessed is
    unchanged, and its review status only moves forward. In particular the submission that
    [getRate] records is always that of a rate that was not held back. *)
Theorem market_records_well_formed m (c : M state unit) :
  records_ok (records m) →
  (∃ currency, c = (getRate currency ;;; ret tt)) ∨
  (∃ id by_ notes, c = (approve id by_ notes ;;; ret tt)) ∨
  (∃ id by_ notes, c = (reject id by_ notes ;;; ret tt)) →
  records_ok (records (final c m)) ∧
  ∀ id r, rows (records m) !! id = Some r →
    ∃ r', rows (records (final c m)) !! id = Some r' ∧ evolves r r'.
Proof.
  intros Hok Hc. enough (grown (records m) (final c m)) as [G1 G2] by auto.
  assert (grown (records m) m) as Hm by (unfold grown; reflexivity).
  destruct Hc as [(currency & ->)|[(id & by_ & notes & ->)|(id & by_ & notes & ->)]].
  - apply (wp_final _ (grown (records m))), wp_bind.
    apply (wp_mono _ (λ _, grown (records m)) _ (λ _, grown (records m))); [by apply getRate_grown|done|done].
  - apply (preserves_final (grown (records m))); [|exact Hm]. apply preserves_bind; [|intros; apply preserves_ret].
    unfold approvePendingReview. apply preserves_bind; [apply grown_approve_read|]. intros r.
    apply preserves_bind; [apply grown_keep; intros d; apply db_approve_submit|]. intros s.
    apply grown_approve_record.
  - apply (preserves_final (grown (records m))); [|exact Hm]. apply preserves_bind; [|intros; apply preserves_ret].
    apply grown_reject.
Qed.

(** The client returns the rate of a record as an object that prints as the number; the
    reader of pending reviews drops it, so an approval submits the price zero, whatever the
    rate that was held back. *)
Theorem approval_submits_zero id by_ notes m m' review row n s :
  records_ok (records m) → rows (records m) !! id = Some row → rv_rate row = JOther n s →
  approve id by_ notes m = (Ok review, m') →
  ∃ memo, sent (market_out m') = sent (market_out m) ++ [(rv_currency row +:+ "_PRICE", "0", memo)].
Proof.
  intros Hok Hrow Hrate E. set (x := sent (market_out m)).
  enough (wp (approve id by_ notes) (λ _ m', ∃ memo, sent (market_out m') =
    x ++ [(rv_currency row +:+ "_PRICE", "0", memo)]) (λ _ _, True) m) as Hw.
  { unfold wp in Hw. by rewrite E in Hw. }
  clear E. unfold approvePendingReview. apply wp_bind.
  eapply wp_mono; [by apply (wp_approve_read x (records m) id m)| |done].
  intros r m1 (H1 & Hr). destruct (Hr row Hrow) as (Hcur & Hzero).
  apply wp_bind. unfold approve_submit. apply wp_bind.
  eapply wp_mono; [apply (sent_memo x (λ _, True)); exact H1| |done]. intros memo m2 H2.
  apply wp_bind. eapply wp_mono; [by apply (wp_submit_Ok JSON_parse x)| |done]. intros tx m3 H3. apply wp_ret.
  rewrite Hcur, (Hzero n s Hrate) in H3. simpl in H3.
  pose proof (sent_approve_record (sent (market_out m3)) (λ _, True) id by_ notes r (memo, tx) m3 (conj eq_refl I)) as H4.
  eapply wp_mono; [exact H4| |done]. intros a m4 [H5 _]. exists memo. by rewrite <-H3.
Qed.

(** Nothing holds a review between the moment it is read for approval and the moment the
    approval is recorded, and the price is submitted in between: when a rejection completes
    in the gap, the approval fails and the record says rejected and skipped, but the network
    has the price. *)
Theorem rejected_price_submitted id by_ notes by_' notes' review sub rejected m m1 m2 m3 :
  records_ok (records m) →
  approve_read id m = (Ok review, m1) →
  approve_submit JSON_parse review m1 = (Ok sub, m2) →
  reject id by_' notes' m2 = (Ok rejected, m3) →
  let '(r, m4) := approve_record id by_ notes review sub m3 in
  is_ok r = false ∧
  sent (market_out m4) = sent (market_out m) ++
    [(pr_currency review +:+ "_PRICE", String_num (pr_rate review), sub.1)] ∧
  ∃ row, rows (records m4) !! id = Some row ∧ rv_review_status row = REJECTED ∧
    rv_contract_status row = SKIPPED.
Proof.
  intros Hok Er Es Ej. set (x := sent (market_out m)).
  (* the read and the submission leave the records alone *)
  assert (records m1 = records m ∧ sent (market_out m1) = x) as [Er1 Ex1].
  { pose proof (db_approve_read (records m) id m eq_refl) as H1.
    pose proof (sent_approve_read x (λ _, True) id m (conj eq_refl I)) as H2.
    unfold wp in H1, H2. rewrite Er in H1, H2. by destruct H2. }
  assert (records m2 = records m ∧ sent (market_out m2) =
    x ++ [(pr_currency review +:+ "_PRICE", String_num (pr_rate review), sub.1)]) as [Er2 Ex2].
  { pose proof (db_approve_submit JSON_parse (records m) review m1 Er1) as H1.
    pose proof (wp_approve_submit JSON_parse x review m1 (conj Ex1 I)) as H2.
    unfold wp in H1, H2. by rewrite Es in H1, H2. }
  assert (sent (market_out m3) = sent (market_out m2)) as Ex3.
  { pose proof (sent_reject (sent (market_out m2)) (λ _, True) id by_' notes' m2 (conj eq_refl I)) as H1.
    unfold wp in H1. rewrite Ej in H1. by destruct H1. }
  destruct (reject_resolves id by_' notes' m2 rejected m3) as (Hok3 & row & Hrow & Hst & Hct);
    [by rewrite Er2|done|].
  destruct (approve_record id by_ notes review sub m3) as [r m4] eqn:E4.
  pose proof (sent_approve_record (sent (market_out m3)) (λ _, True) id by_ notes review sub m3 (conj eq_refl I)) as H4.
  pose proof (grown_approve_record (records m3) id by_ notes review sub m3) as G4.
  assert (grown (records m3) m3) as Hg by (unfold grown; reflexivity). specialize (G4 Hg).
  unfold wp in H4, G4. rewrite E4 in H4, G4.
  assert (sent (market_out m4) = sent (market_out m3) ∧ grown (records m3) m4) as [Ex4 [G1 G2]]
    by (by destruct r; destruct H4).
  split_and!.
  - destruct r as [a|e]; [|done]. exfalso. by eapply (approve_record_pending id by_ notes review sub m3 a m4 row).
  - by rewrite Ex4, Ex3, Ex2.
  - destruct (G2 _ _ Hrow) as (row' & Hrow' & _ & _ & _ & _ & _ & Hs').
    exists row'. split; [done|]. assert (rv_review_status row' = REJECTED) as Hrej
      by (destruct Hs' as [<-|[? _]]; congruence). split; [done|].
    destruct (G1 Hok3 _ _ Hrow') as [_ Ha]. unfold statuses_agree in Ha. rewrite Hrej in Ha.
    by destruct (rv_contract_status row').
Qed.
End theorems.

(** ** Witnesses *)

(** Ten shillings submitted a minute ago; the provider now quotes fourteen. *)
Definition submitted_10 : RawReviewRow :=
  mkReview 1 "KES" (decimal_object (num_of_Z 10)) "CoinGecko (KES)" (review_time - 60000) AUTO_APPROVED
    SUBMITTED None None JNull None JNull (Some "SF-KES-1") (Some "ab12") None None 0 0.

#[local] Instance desk_quote : MarketWorld desk := desk_world quote.

Notation desk_market := (market (gmap Z RawReviewRow) (gmap history_key PriceHistoryRow)
  (bool * gmap string string) desk).

Definition market_at (lock : app_state (bool * gmap string string)) : desk_market :=
  mkMarket (mkSvc {[1 := submitted_10]} (mkReviewEnv None (review_time, []))) ∅ lock ∅
    (bp_constructor market_bp_config) [] false.

Definition desk_config : MarketConfig :=
  mkMarketConfig false [] 30000 (mkNgnEnv None None None None None).

Notation desk_getRate := (getRate (H := desk) decimal_object decimal_object parse_two desk_config).

Definition market0 : desk_market := market_at (app false unlocked_state unlocked_state).

(** After the call that holds the new rate back, under the id 2. *)
Definition market_held : desk_market := final (desk_getRate "kes") market0.

Lemma market0_ok : records_ok (records market0).
Proof.
  intros k r Hr. change (({[1 := submitted_10]} : gmap Z RawReviewRow) !! k = Some r) in Hr.
  by apply lookup_singleton_Some in Hr as [<- <-].
Qed.

Lemma getRate_answers_witness :
  (∃ response, outcome (desk_getRate "kes") market0 = Ok response) ∧ holds [] (mk_bp market_held).
Proof.
  assert (holds [] (mk_bp market0)) as Hb by (vm_compute; split_and!; (reflexivity || lia)).
  exact (getRate_answers decimal_object decimal_object parse_two desk_config "kes" market0 Hb).
Defined.

Lemma cached_rate_is_free_witness :
  ∃ e, desk_getRate "KES" market_held = (Ok (Fetched e), market_held) ∧
    as_manualReviewRequired (er_assessment e) = true.
Proof.
  assert (is_Some (fetcher (H := desk) desk_config (toUpperCase "KES"))) as Hf by (eexists; reflexivity).
  assert (match cached_rate (toUpperCase "KES") market_held with
          | Some e => as_manualReviewRequired (er_assessment e) | None => false end = true) as Hc
    by (vm_compute; reflexivity).
  destruct (cached_rate (toUpperCase "KES") market_held) as [e|] eqn:E; [|discriminate Hc].
  exists e. split; [|exact Hc].
  exact (cached_rate_is_free decimal_object decimal_object parse_two desk_config "KES" market_held e Hf E).
Defined.

(** A first rate of the cedi would be submitted; under lockdown it is not. *)
Lemma lockdown_stops_submissions_witness :
  sent (market_out (final (desk_getRate "kes" ;;; ret tt) (market_at (app true locked_state locked_state)))) = [].
Proof.
  assert (locked_for_good parse_two (mk_lock (market_at (app true locked_state locked_state)))) as Hl.
  { split; [vm_compute; reflexivity|]. intros txt v Hk Hp.
    change (({[LOCKDOWN_REDIS_KEY := state_text locked_state]} : gmap string string) !! LOCKDOWN_REDIS_KEY = Some txt) in Hk.
    rewrite lookup_singleton_eq in Hk. injection Hk as <-. unfold parse_two in Hp.
    rewrite decide_True in Hp by reflexivity. injection Hp as <-. vm_compute. reflexivity. }
  exact (proj1 (lockdown_stops_submissions decimal_object decimal_object parse_two desk_config
    (market_at (app true locked_state locked_state)) _ Hl
    (or_introl (ex_intro _ "kes" eq_refl)))).
Defined.

Lemma market_records_well_formed_witness :
  records_ok (records (final (desk_getRate "kes" ;;; ret tt) market0)).
Proof.
  exact (proj1 (market_records_well_formed decimal_object decimal_object parse_two desk_config market0 _
    market0_ok (or_introl (ex_intro _ "kes" eq_refl)))).
Defined.

(** The held back rate is fourteen; approving it submits zero. *)
Definition held_row : option RawReviewRow := (svc_db (mk_review market_held) : gmap Z RawReviewRow) !! 2.

Lemma approval_submits_zero_witness :
  rv_rate <$> held_row = Some (JOther (num_of_Z 14) "14") ∧
  ∃ memo, sent (market_out (final (approvePendingReview parse_two 2 None None) market_held))
    = [("KES_PRICE", "0", memo)].
Proof.
  assert (rv_rate <$> held_row = Some (JOther (num_of_Z 14) "14")) as Hr by (vm_compute; reflexivity).
  split; [exact Hr|]. assert (rv_currency <$> held_row = Some "KES") as Hcur by (vm_compute; reflexivity).
  assert (sent (market_out market_held) = []) as Hs by (vm_compute; reflexivity).
  assert (records_ok (records market_held)) as Hok.
  { pose proof (getRate_grown decimal_object decimal_object parse_two desk_config "kes" market0 market0_ok) as Hg.
    apply (wp_final _ (grown (records market0))) in Hg. exact (proj1 Hg market0_ok). }
  destruct held_row as [row|] eqn:Erow; [|discriminate Hr].
  injection Hr as Hr. injection Hcur as Hcur.
  assert (is_ok (outcome (approvePendingReview parse_two 2 None None) market_held) = true) as Ho
    by (vm_compute; reflexivity).
  unfold outcome, final in *.
  destruct (approvePendingReview parse_two 2 None None market_held) as [[review|e] m'] eqn:E; [|discriminate Ho].
  pose proof (approval_submits_zero parse_two 2 None None market_held m' review row _ _ Hok Erow Hr E) as A.
  rewrite Hs, Hcur in A. exact A.
Defined.

(** An approval, a rejection between its submission and its record. *)
Lemma rejected_price_submitted_witness :
  ∃ review sub (m3 : desk_market),
    let '(r, m4) := approve_record 2 None None review sub m3 in
    is_ok r = false ∧ sent (market_out m4) = [("KES_PRICE", "0", sub.1)] ∧
    ∃ row, rows (records m4) !! 2 = Some row ∧ rv_review_status row = REJECTED ∧
      rv_contract_status row = SKIPPED.
Proof.
  assert (match approve_read 2 market_held with
          | (Ok review, m1) =>
              match approve_submit parse_two review m1 with
              | (Ok sub, m2) => is_ok (outcome (rejectPendingReview 2 None None) m2) &&
                  bool_decide (pr_rate review = num_zero) && bool_decide (pr_currency review = "KES")
              | _ => false
              end
          | _ => false
          end = true) as Ho by (vm_compute; reflexivity).
  assert (records_ok (records market_held)) as Hok.
  { pose proof (getRate_grown decimal_object decimal_object parse_two desk_config "kes" market0 market0_ok) as Hg.
    apply (wp_final _ (grown (records market0))) in Hg. exact (proj1 Hg market0_ok). }
  assert (sent (market_out market_held) = []) as Hs by (vm_compute; reflexivity).
  destruct (approve_read 2 market_held) as [[review|e] m1] eqn:E1; [|discriminate Ho].
  destruct (approve_submit parse_two review m1) as [[sub|e] m2] eqn:E2; [|discriminate Ho].
  apply andb_true_iff in Ho as [Ho Hcur%bool_decide_eq_true]. apply andb_true_iff in Ho as [Ho Hz%bool_decide_eq_true].
  unfold outcome in Ho.
  destruct (rejectPendingReview 2 None None m2) as [[rejected|e] m3] eqn:E3; [|discriminate Ho].
  exists review, sub, m3.
  pose proof (rejected_price_submitted parse_two 2 None None None None review sub rejected
    market_held m1 m2 m3 Hok E1 E2 E3) as A.
  rewrite Hs, Hcur, Hz in A. exact A.
Defined.
