(* ===== verification/StellarProvider.v ===== *)
(** * Nodes of the Stellar network ([lib/rpcLoadBalancer.ts], [lib/stellarProvider.ts],
    [lib/stellarNetwork.ts])

    The weighted round robin over RPC nodes and the failover between Horizon nodes. A
    server object is the URL it was made for; [wrapServer], which reports every failed call
    to the provider, is [wrapped] below. Times are milliseconds, weights integers; [None]
    stands for [NaN] in a setting read with [parseInt]. Proved: the round robin is fair and
    prefers nodes that answer; a failed node returns after its cooldown; what one failure
    reported twice does to the choice of a node. *)

From Stdlib Require Import Ascii.
From S2P Require Import Prelude JsString JsDecimal.

Local Open Scope Z_scope.

(** ** [lib/rpcLoadBalancer.ts] *)

Record RpcEndpointState := mkEndpoint {
  ep_url : string;
  ep_weight : Z;
  ep_healthy : bool;
  ep_latencyMs : option Z;
  ep_lastFailureAt : option Z;
}.

Record RpcLoadBalancer := mkBalancer {
  lb_endpoints : list RpcEndpointState;
  lb_cursor : Z;
  lb_cooldownMs : option Z;
  lb_latencyThresholdMs : option Z;
}.

Definition balancer_constructor (configs : list (string * Z)) (cooldownMs latencyThresholdMs : option Z) :
    RpcLoadBalancer :=
  mkBalancer ((λ c, mkEndpoint c.1 (Z.max 1 c.2) true None None) <$> configs) 0 cooldownMs latencyThresholdMs.

Definition isAvailable (lb : RpcLoadBalancer) (now : Z) (endpoint : RpcEndpointState) : bool :=
  ep_healthy endpoint ||
  match ep_lastFailureAt endpoint with
  | None => true
  | Some failed => match lb_cooldownMs lb with Some c => c <=? now - failed | None => false end
  end.

Definition candidates (lb : RpcLoadBalancer) (now : Z) : list RpcEndpointState :=
  match filter (λ e, isAvailable lb now e = true) (lb_endpoints lb) with
  | [] => lb_endpoints lb
  | healthy => healthy
  end.

Definition totalWeight (l : list RpcEndpointState) : Z := sum_list_Z (ep_weight <$> l).

(** The loop of [next]: the endpoint whose share of the tickets holds [ticket]. *)
Fixpoint pick (ticket : Z) (l : list RpcEndpointState) : option RpcEndpointState :=
  match l with
  | [] => None
  | endpoint :: rest =>
      if ticket <? ep_weight endpoint then Some endpoint else pick (ticket - ep_weight endpoint) rest
  end.

Definition set_cursor (lb : RpcLoadBalancer) (cursor : Z) : RpcLoadBalancer :=
  mkBalancer (lb_endpoints lb) cursor (lb_cooldownMs lb) (lb_latencyThresholdMs lb).

Definition next (now : Z) (lb : RpcLoadBalancer) : option RpcEndpointState * RpcLoadBalancer :=
  match candidates lb now with
  | [] => (None, lb)
  | cs =>
      (match pick (lb_cursor lb `mod` totalWeight cs) cs with Some e => Some e | None => last cs end,
       set_cursor lb (lb_cursor lb + 1))
  end.

(** Change the first endpoint with this URL. *)
Fixpoint update_endpoint (url : string) (f : RpcEndpointState → RpcEndpointState)
    (l : list RpcEndpointState) : list RpcEndpointState :=
  match l with
  | [] => []
  | e :: rest => if decide (ep_url e = url) then f e :: rest else e :: update_endpoint url f rest
  end.
Definition with_endpoint (url : string) (f : RpcEndpointState → RpcEndpointState) (lb : RpcLoadBalancer) :
    RpcLoadBalancer :=
  mkBalancer (update_endpoint url f (lb_endpoints lb)) (lb_cursor lb) (lb_cooldownMs lb)
    (lb_latencyThresholdMs lb).

Definition recordSuccess (url : string) (latencyMs : Z) : RpcLoadBalancer → RpcLoadBalancer :=
  with_endpoint url (λ e, mkEndpoint (ep_url e) (ep_weight e) true (Some latencyMs) None).
Definition recordFailure (url : string) (latencyMs : option Z) (now : Z) : RpcLoadBalancer → RpcLoadBalancer :=
  with_endpoint url (λ e, mkEndpoint (ep_url e) (ep_weight e) false latencyMs (Some now)).

Definition snapshot (lb : RpcLoadBalancer) : list RpcEndpointState := lb_endpoints lb.
Definition isLatencySpike (lb : RpcLoadBalancer) (latencyMs : Z) : bool :=
  match lb_latencyThresholdMs lb with Some t => t <=? latencyMs | None => false end.

(** ** [lib/stellarNetwork.ts] *)

Inductive Network := PUBLIC | TESTNET.

Definition named_network (s : string) : option Network :=
  if decide (s = "PUBLIC") then Some PUBLIC else if decide (s = "TESTNET") then Some TESTNET else None.
Definition read_network (v : option string) : option Network :=
  v ≫= λ s, named_network (toUpperCase (trim s)).

(** [STELLAR_NETWORK] and [STELLAR_NETWORK_PASSPHRASE] *)
Definition getStellarNetwork (network passphrase : option string) : Network :=
  match read_network network with
  | Some n => n
  | None => default TESTNET (read_network passphrase)
  end.

(** The passphrases of the SDK. *)
Definition network_passphrase (Networks : Network → string) (network passphrase : option string) : string :=
  let provided := default "" (trim <$> passphrase) in
  if truthy_str provided then
    match named_network (toUpperCase provided) with
    | Some n => Networks n
    | None => provided
    end
  else Networks (getStellarNetwork network passphrase).

(** ** [lib/stellarProvider.ts] *)

Definition NETWORK_CODES : list string :=
  ["ECONNREFUSED"; "ECONNRESET"; "ETIMEDOUT"; "ECONNABORTED"; "ENETUNREACH"; "EHOSTUNREACH"].

Definition isFailoverError (error : js_error) : bool :=
  match err_axios error with Some (Some status) => 500 <=? status | _ => false end ||
  match err_code error with Some code => includes NETWORK_CODES code | None => false end ||
  (let msg := toLowerCase (err_message error) in
   str_includes msg "timeout" || str_includes msg "network error" ||
   str_includes msg "econnrefused" || str_includes msg "fetch failed").

(** [HORIZON_URL], [RPC_URL] and [FALLBACK_RPC_URLS] *)
Definition trimmed (v : option string) : option string :=
  match trim <$> v with Some u => if truthy_str u then Some u else None | None => None end.

Definition buildHorizonUrls (network : Network) (customUrl : option string) : list string :=
  option_list (trimmed customUrl) ++
  match network with
  | PUBLIC => ["https://horizon.stellar.org"; "https://horizon.publicnode.org"]
  | TESTNET => ["https://horizon-testnet.stellar.org"; "https://horizon-testnet.publicnode.org"]
  end.

Definition buildRpcUrls (network : Network) (customUrl fallbacks : option string) : list string :=
  let sdfUrl := match network with
                | PUBLIC => "https://rpc.mainnet.stellar.org"
                | TESTNET => "https://rpc.testnet.stellar.org"
                end in
  let urls := option_list (trimmed customUrl) ++
    match trimmed fallbacks with
    | Some l => filter (λ u, truthy_str u = true) (trim <$> split_on ","%char l "")
    | None => []
    end in
  if includes urls sdfUrl then urls else urls ++ [sdfUrl].

(** The indices are those of the node in use; [-1] is what [indexOf] returns for no node. *)
Record provider := mkProvider {
  pv_urls : list string;
  pv_currentIndex : nat;
  pv_rpcUrls : list string;
  pv_rpcCurrentIndex : Z;
  pv_rpcBalancer : RpcLoadBalancer;
}.

(** [RPC_WEIGHTS], [RPC_FAILURE_COOLDOWN_MS] and [RPC_LATENCY_THRESHOLD_MS] *)
Definition provider_constructor (urls rpcUrls : list string) (RPC_WEIGHTS cooldownMs latencyMs : option string) :
    provider :=
  let weights := parseInt10 <$> (trim <$> split_on ","%char (default "" RPC_WEIGHTS) "") in
  mkProvider urls 0 rpcUrls 0
    (balancer_constructor (imap (λ i url, (url, default 1 (mjoin (weights !! i)))) rpcUrls)
       (parseInt10 (default "30000" cooldownMs)) (parseInt10 (default "2000" latencyMs))).

Definition getCurrentUrl (p : provider) : option string := pv_urls p !! pv_currentIndex p.
Definition getCurrentRpcUrl (p : provider) : option string :=
  if pv_rpcCurrentIndex p <? 0 then None else pv_rpcUrls p !! Z.to_nat (pv_rpcCurrentIndex p).

Definition set_horizon (p : provider) (i : nat) : provider :=
  mkProvider (pv_urls p) i (pv_rpcUrls p) (pv_rpcCurrentIndex p) (pv_rpcBalancer p).
Definition set_rpc (p : provider) (i : Z) (b : RpcLoadBalancer) : provider :=
  mkProvider (pv_urls p) (pv_currentIndex p) (pv_rpcUrls p) i b.

Definition reportFailure (error : js_error) (p : provider) : bool * provider :=
  if negb (isFailoverError error) then (false, p)
  else
    let nextIndex := ((pv_currentIndex p + 1) mod length (pv_urls p))%nat in
    if decide (nextIndex = pv_currentIndex p) then (false, p) else (true, set_horizon p nextIndex).

Definition indexOf (l : list string) (s : string) : Z :=
  match list_find (λ x, x = s) l with Some (i, _) => Z.of_nat i | None => -1 end.

Definition recorded (url : option string) (f : string → RpcLoadBalancer → RpcLoadBalancer)
    (b : RpcLoadBalancer) : RpcLoadBalancer :=
  match url with Some u => f u b | None => b end.

(** Go over to the node the balancer names, if it names another one. *)
Definition switch_rpc (now : Z) (p : provider) : bool * provider :=
  let '(chosen, b) := next now (pv_rpcBalancer p) in
  match chosen with
  | Some e =>
      if decide (Some (ep_url e) = getCurrentRpcUrl p) then (false, set_rpc p (pv_rpcCurrentIndex p) b)
      else (true, set_rpc p (indexOf (pv_rpcUrls p) (ep_url e)) b)
  | None => (false, set_rpc p (pv_rpcCurrentIndex p) b)
  end.

Definition reportRpcFailure (error : js_error) (latencyMs : option Z) (now : Z) (p : provider) :
    bool * provider :=
  if negb (isFailoverError error) then (false, p)
  else
    switch_rpc now (set_rpc p (pv_rpcCurrentIndex p)
      (recorded (getCurrentRpcUrl p) (λ u, recordFailure u latencyMs now) (pv_rpcBalancer p))).

(** [getRpcServer]: the node is chosen anew on every call. *)
Definition getRpcServer (now : Z) (p : provider) : option string * provider :=
  let p' := (switch_rpc now p).2 in (getCurrentRpcUrl p', p').

Definition getRpcEndpointHealth (p : provider) : list RpcEndpointState := snapshot (pv_rpcBalancer p).

(** ** [wrapServer]

    A call of a method of a server, in a state that holds the provider. A failed call is
    reported to the provider, whichever node is in use by then, and fails. *)
Section wrapped.
Context {W : Type} (update : (provider → provider) → W → W) (now : W → Z).

Definition horizon {A} (call : M W A) : M W A :=
  try_catch call (λ e, modify (update (λ p, (reportFailure e p).2)) ;;; throw e).

Definition rpc {A} (call : M W A) : M W A := λ w,
  let start := now w in
  match call w with
  | (Ok a, w') =>
      (Ok a, update (λ p, set_rpc p (pv_rpcCurrentIndex p)
        (recorded (getCurrentRpcUrl p) (λ u, recordSuccess u (now w' - start)) (pv_rpcBalancer p))) w')
  | (Throw e, w') =>
      (Throw e, update (λ p, (reportRpcFailure e (Some (now w' - start)) (now w') p).2) w')
  end.
End wrapped.

(** ** Lemmas: the round robin *)

#[export] Instance RpcEndpointState_eq_dec : EqDecision RpcEndpointState.
Proof. solve_decision. Defined.

(** What the constructor makes and every operation keeps. *)
Definition weights_ok (l : list RpcEndpointState) : Prop := Forall (λ e, 1 <= ep_weight e) l.
Definition balancer_ok (lb : RpcLoadBalancer) : Prop :=
  weights_ok (lb_endpoints lb) ∧ NoDup (ep_url <$> lb_endpoints lb).

Lemma totalWeight_cons e l : totalWeight (e :: l) = ep_weight e + totalWeight l.
Proof. done. Qed.
Lemma totalWeight_nonneg l : weights_ok l → 0 <= totalWeight l.
Proof. induction 1; [done|]. rewrite totalWeight_cons. lia. Qed.

Lemma pick_total ticket l : weights_ok l → 0 <= ticket < totalWeight l → is_Some (pick ticket l).
Proof.
  intros Hl. revert ticket. induction Hl as [|e l He Hl IH]; intros ticket Ht; [by unfold totalWeight in Ht; simpl in Ht; lia|].
  rewrite totalWeight_cons in Ht. simpl. destruct (Z.ltb_spec ticket (ep_weight e)); [by eexists|]. apply IH. lia.
Qed.

Lemma pick_in ticket l e : pick ticket l = Some e → e ∈ l.
Proof.
  revert ticket. induction l as [|e' l IH]; intros ticket; simpl; [done|].
  destruct (ticket <? ep_weight e'); [intros [= ->]; left|intros H; right; eauto].
Qed.

(** Of the tickets of one round, an endpoint gets as many as its weight. *)
Lemma pick_count l e o :
  weights_ok l → NoDup (ep_url <$> l) →
  length (filter (λ t, pick (t - o) l = Some e) (seqZ o (totalWeight l)))
    = if decide (e ∈ l) then Z.to_nat (ep_weight e) else 0%nat.
Proof.
  intros Hl. revert o. induction Hl as [|e1 l He Hl IH]; intros o Hn; [by rewrite decide_False by set_solver|].
  apply NoDup_cons in Hn as [Hu Hn]. pose proof (totalWeight_nonneg l Hl).
  rewrite totalWeight_cons, seqZ_app by lia. rewrite filter_app, length_app.
  rewrite (filter_ext_in _ (λ _, e1 = e) (seqZ o (ep_weight e1))).
  2: { intros t Ht%elem_of_seqZ. simpl. destruct (Z.ltb_spec (t - o) (ep_weight e1)); [naive_solver|lia]. }
  rewrite (filter_ext_in _ (λ t, pick (t - (o + ep_weight e1)) l = Some e) (seqZ (o + ep_weight e1) _)).
  2: { intros t Ht%elem_of_seqZ. simpl. destruct (Z.ltb_spec (t - o) (ep_weight e1)); [lia|].
       by replace (t - o - ep_weight e1) with (t - (o + ep_weight e1)) by lia. }
  rewrite length_filter_const, IH, length_seqZ by done.
  destruct (decide (e1 = e)) as [<-|Hne].
  - rewrite (decide_False (P:=e1 ∈ l)) by (intros Hin; by apply Hu, list_elem_of_fmap_2).
    rewrite decide_True by left. lia.
  - destruct (decide (e ∈ l)); [rewrite decide_True by by right|rewrite decide_False by set_solver]; lia.
Qed.

(** A full turn of the cursor visits every ticket once. *)
Lemma round_permutation k n : 0 < n → (λ i, i `mod` n) <$> seqZ k n ≡ₚ seqZ 0 n.
Proof.
  intros Hn. apply NoDup_Permutation; [|apply NoDup_seqZ|].
  - apply NoDup_fmap_2_strong; [|apply NoDup_seqZ]. intros x y Hx%elem_of_seqZ Hy%elem_of_seqZ E.
    destruct (Z.lt_trichotomy x y) as [Hlt|[?|Hlt]]; [|done|];
      exfalso; (eapply mod_window_ne; [exact Hn|exact Hlt|lia|by rewrite E]).
  - intros t. rewrite list_elem_of_fmap, elem_of_seqZ. split.
    + intros (i & -> & _). pose proof (Z.mod_pos_bound i n Hn). lia.
    + intros Ht. exists (k + (t - k) `mod` n). rewrite elem_of_seqZ.
      pose proof (Z.mod_pos_bound (t - k) n Hn). split; [|lia].
      rewrite Zplus_mod_idemp_r. replace (k + (t - k)) with t by lia. symmetry. apply Z.mod_small. lia.
Qed.

(** The endpoints that successive calls of [next] return, each at its time. *)
Fixpoint next_calls (nows : list Z) (lb : RpcLoadBalancer) : list (option RpcEndpointState) :=
  match nows with
  | [] => []
  | now :: nows' => let '(e, lb') := next now lb in e :: next_calls nows' lb'
  end.

Lemma next_calls_picks nows lb cs :
  cs ≠ [] → weights_ok cs → (∀ now, now ∈ nows → candidates lb now = cs) →
  next_calls nows lb =
    (λ t, pick (t `mod` totalWeight cs) cs) <$> seqZ (lb_cursor lb) (Z.of_nat (length nows)).
Proof.
  intros Hne Hw. assert (0 < totalWeight cs) as Hpos.
  { destruct cs as [|e cs]; [done|]. apply Forall_cons in Hw as [? Hw]. pose proof (totalWeight_nonneg cs Hw).
    rewrite totalWeight_cons. lia. }
  revert lb. induction nows as [|now nows IH]; intros lb Hc; [done|].
  simpl. unfold next. rewrite (Hc now) by left. destruct cs as [|e0 cs0] eqn:Ecs; [done|]. rewrite <-Ecs in *.
  rewrite (seqZ_cons _ (Z.of_nat (S (length nows)))) by lia. rewrite fmap_cons.
  replace (Z.pred (Z.of_nat (S (length nows)))) with (Z.of_nat (length nows)) by lia.
  destruct (pick_total (lb_cursor lb `mod` totalWeight cs) cs Hw) as [e He]; [by apply Z.mod_pos_bound|].
  rewrite He. f_equal. rewrite IH; [|intros n Hn; apply Hc; by right]. simpl.
  by replace (Z.succ (lb_cursor lb)) with (lb_cursor lb + 1) by lia.
Qed.

Lemma candidates_sublist lb now : sublist (candidates lb now) (lb_endpoints lb).
Proof.
  unfold candidates. pose proof (sublist_filter (λ e, isAvailable lb now e = true) (lb_endpoints lb)) as Hs.
  destruct (filter _ _); [done|exact Hs].
Qed.
Lemma candidates_ok lb now :
  balancer_ok lb → weights_ok (candidates lb now) ∧ NoDup (ep_url <$> candidates lb now).
Proof.
  intros [Hw Hn]. pose proof (candidates_sublist lb now) as Hs. split.
  - apply Forall_forall. intros e He. unfold weights_ok in Hw. rewrite Forall_forall in Hw.
    apply Hw. by eapply elem_of_sublist.
  - eapply sublist_NoDup; [exact Hn|]. by apply fmap_sublist.
Qed.

Lemma candidates_nonempty lb now : lb_endpoints lb ≠ [] → candidates lb now ≠ [].
Proof. unfold candidates. by destruct (filter _ _) eqn:E. Qed.

(** With a node available, the candidates are the available nodes. *)
Lemma elem_of_candidates lb now e0 e :
  e0 ∈ lb_endpoints lb → isAvailable lb now e0 = true →
  e ∈ candidates lb now ↔ e ∈ lb_endpoints lb ∧ isAvailable lb now e = true.
Proof.
  intros H0 Ha. unfold candidates.
  assert (e0 ∈ filter (λ e, isAvailable lb now e = true) (lb_endpoints lb)) as Hin by (by apply list_elem_of_filter).
  destruct (filter _ _) as [|e1 l] eqn:E; [by apply elem_of_nil in Hin|].
  rewrite <-E, list_elem_of_filter. tauto.
Qed.

Lemma next_candidate now lb e lb' : next now lb = (Some e, lb') → e ∈ candidates lb now.
Proof.
  unfold next. destruct (candidates lb now) as [|e0 l]; [done|]. set (cs := e0 :: l).
  intros [Hp _]%pair_equal_spec. destruct (pick (lb_cursor lb `mod` totalWeight cs) cs) as [e'|] eqn:Ep.
  - injection Hp as <-. by eapply pick_in.
  - by apply last_Some_elem_of in Hp.
Qed.

Lemma update_endpoint_url url f l :
  (∀ e, ep_url (f e) = ep_url e) → ep_url <$> update_endpoint url f l = ep_url <$> l.
Proof. intros Hf. induction l as [|e l IH]; simpl; [done|]. case_decide; simpl; [by rewrite Hf|by f_equal]. Qed.

Lemma elem_of_update_endpoint url f l e :
  NoDup (ep_url <$> l) → (∀ e, ep_url (f e) = ep_url e) →
  e ∈ update_endpoint url f l ↔ (e ∈ l ∧ ep_url e ≠ url) ∨ (∃ e', e' ∈ l ∧ ep_url e' = url ∧ e = f e').
Proof.
  intros Hn Hf. induction l as [|e1 l IH]; simpl; [set_solver|].
  apply NoDup_cons in Hn as [Hu Hn]. specialize (IH Hn).
  assert (∀ e', e' ∈ l → ep_url e' ≠ ep_url e1) as Hl.
  { intros e' He' E. apply Hu. rewrite <-E. by apply list_elem_of_fmap_2. }
  case_decide as Hd; rewrite elem_of_cons.
  - split.
    + intros [->|He]; [right; exists e1; set_solver|left; split; [set_solver|]]. intros <-. by apply (Hl e).
    + intros [[[->|He]%elem_of_cons Hne]|(e' & [->|He']%elem_of_cons & E & ->)]; [done|by right|by left|].
      exfalso. apply (Hl e'); congruence.
  - rewrite IH. set_solver.
Qed.

(** A provider that is asked about one failure twice. *)
Lemma reported_twice error p n :
  length (pv_urls p) = n → (2 ≤ n)%nat → (pv_currentIndex p < n)%nat → isFailoverError error = true →
  (reportFailure error (reportFailure error p).2).2 = set_horizon p ((pv_currentIndex p + 2) mod n).
Proof.
  intros Hl Hn Hi He. unfold reportFailure at 2. rewrite He, Hl. simpl.
  assert (∀ i : nat, (i < n)%nat → (i + 1) mod n ≠ i)%nat as Hstep.
  { intros i Hlt. destruct (decide (i + 1 = n)%nat) as [E|]; [rewrite E, Nat.Div0.mod_same; lia|].
    rewrite Nat.mod_small; lia. }
  rewrite decide_False by (by apply Hstep). simpl. unfold reportFailure. rewrite He. simpl. rewrite Hl.
  rewrite decide_False by (apply Hstep, Nat.mod_upper_bound; lia). simpl. unfold set_horizon. simpl. f_equal.
  rewrite Nat.Div0.add_mod_idemp_l. f_equal. lia.
Qed.

(** ** Theorems *)

(** The round robin is fair: while the same nodes are candidates, a round of as many calls as
    they have weight in total returns each of them exactly as often as its weight. *)
Theorem next_fair lb nows cs :
  balancer_ok lb → nows ≠ [] → (∀ now, now ∈ nows → candidates lb now = cs) →
  Z.of_nat (length nows) = totalWeight cs →
  ∀ e, e ∈ cs → length (filter (λ r, r = Some e) (next_calls nows lb)) = Z.to_nat (ep_weight e).
Proof.
  intros Hok Hne Hc Hlen e He. destruct nows as [|now nows'] eqn:En; [done|]. rewrite <-En in *.
  assert (weights_ok cs ∧ NoDup (ep_url <$> cs)) as [Hw Hn].
  { rewrite <-(Hc now) by (subst; left). by apply candidates_ok. }
  assert (cs ≠ []) as Hcs by (intros ->; by apply elem_of_nil in He).
  rewrite (next_calls_picks nows lb cs Hcs Hw Hc), Hlen.
  pose proof (totalWeight_nonneg cs Hw) as Hpos.
  assert (0 < totalWeight cs) as Hlt by (rewrite <-Hlen, En; simpl; lia).
  rewrite (list_fmap_compose (λ t, t `mod` totalWeight cs) (λ t, pick t cs)).
  rewrite (round_permutation (lb_cursor lb) (totalWeight cs) Hlt), length_filter_fmap.
  rewrite (filter_ext_in _ (λ t, pick (t - 0) cs = Some e)).
  - by rewrite pick_count, decide_True.
  - intros t _. by rewrite Z.sub_0_r.
Qed.

(** A node whose failure was recorded is not chosen before its cooldown is over while another
    node is available, and is a candidate again from then on. With a cooldown that is not a
    number it stays out for good. *)
Theorem failed_node_quarantined lb url latencyMs now :
  balancer_ok lb → url ∈ ep_url <$> lb_endpoints lb →
  let lb' := recordFailure url latencyMs now lb in
  (∀ t e lb'', (∃ e', e' ∈ lb_endpoints lb' ∧ ep_url e' ≠ url ∧ isAvailable lb' t e' = true) →
     (∀ c, lb_cooldownMs lb = Some c → t - now < c) → next t lb' = (Some e, lb'') → ep_url e ≠ url) ∧
  (∀ t c, lb_cooldownMs lb = Some c → c <= t - now → url ∈ ep_url <$> candidates lb' t).
Proof.
  intros [Hw Hn] Hin lb'.
  assert (∀ e, e ∈ lb_endpoints lb' ↔ (e ∈ lb_endpoints lb ∧ ep_url e ≠ url) ∨
    ∃ e0, e0 ∈ lb_endpoints lb ∧ ep_url e0 = url ∧ e = mkEndpoint (ep_url e0) (ep_weight e0) false latencyMs (Some now))
    as Hel by (intros e; by apply elem_of_update_endpoint). split.
  - intros t e lb'' (e1 & He1 & _ & Ha1) Hc Hnext%next_candidate Eu.
    apply (elem_of_candidates lb' t e1 e He1 Ha1) in Hnext as [[[_ ?]|(e0 & _ & _ & ->)]%Hel Ha]; [done|].
    unfold isAvailable in Ha. simpl in Ha. destruct (lb_cooldownMs lb) as [c|]; [|done].
    apply Z.leb_le in Ha. specialize (Hc c eq_refl). lia.
  - intros t c Hc Ht. apply list_elem_of_fmap in Hin as (e0 & -> & He0).
    set (e1 := mkEndpoint (ep_url e0) (ep_weight e0) false latencyMs (Some now)).
    apply list_elem_of_fmap. exists e1. split; [done|].
    assert (e1 ∈ lb_endpoints lb') as Hin1 by (apply Hel; right; by exists e0).
    assert (isAvailable lb' t e1 = true) as Ha1.
    { unfold isAvailable. simpl. rewrite Hc. by apply Z.leb_le. }
    by apply (elem_of_candidates lb' t e1 e1).
Qed.

(** The passphrase is that of the network whose nodes are used when at most one of the two
    settings is given and it is a name. A passphrase written out in full selects no network:
    without [STELLAR_NETWORK] its transactions go to the test network. *)
Theorem passphrase_follows_network Networks network passphrase :
  let n := getStellarNetwork network passphrase in
  (truthy_opt (trim <$> passphrase) = false → network_passphrase Networks network passphrase = Networks n) ∧
  (∀ m, read_network passphrase = Some m →
     network_passphrase Networks network passphrase = Networks m ∧ (read_network network = None → n = m)) ∧
  (truthy_opt (trim <$> passphrase) = true → read_network passphrase = None → read_network network = None →
     Some (network_passphrase Networks network passphrase) = trim <$> passphrase ∧ n = TESTNET).
Proof.
  intros n. unfold n, network_passphrase, getStellarNetwork, read_network.
  destruct passphrase as [s|]; simpl; split_and!; try done.
  - intros E. by rewrite E.
  - intros m Hm. rewrite Hm. destruct (truthy_str (trim s)) eqn:E; [|].
    + split; [done|]. by intros ->.
    + unfold truthy_str in E. apply bool_decide_eq_false in E. apply dec_stable in E. by rewrite E in Hm.
  - intros E Hn Hnet. by rewrite E, Hn, Hnet.
Qed.

(** ** Witnesses *)

Definition two_rpc_nodes : RpcLoadBalancer :=
  balancer_constructor [("https://a.test", 2); ("https://b.test", 1)] (Some 30000) (Some 2000).
Definition node_a : RpcEndpointState := mkEndpoint "https://a.test" 2 true None None.

Lemma two_rpc_nodes_ok : balancer_ok two_rpc_nodes.
Proof.
  split; [by repeat constructor|]. apply (bool_decide_unpack _). vm_compute. done.
Qed.

Lemma next_fair_witness :
  length (filter (λ r, r = Some node_a) (next_calls [1; 2; 3] two_rpc_nodes)) = 2%nat.
Proof.
  apply (next_fair two_rpc_nodes [1; 2; 3] (lb_endpoints two_rpc_nodes)).
  - exact two_rpc_nodes_ok.
  - done.
  - intros now _. reflexivity.
  - reflexivity.
  - left.
Defined.

Lemma failed_node_quarantined_witness :
  ep_url <$> (next 5000 (recordFailure "https://a.test" None 1000 two_rpc_nodes)).1 = Some "https://b.test" ∧
  "https://a.test" ∈ ep_url <$> candidates (recordFailure "https://a.test" None 1000 two_rpc_nodes) 31000.
Proof.
  pose proof (failed_node_quarantined two_rpc_nodes "https://a.test" None 1000 two_rpc_nodes_ok
    ltac:(left)) as [_ H]. split; [reflexivity|]. by apply (H 31000 30000).
Defined.
