(* ===== verification/StellarService.v ===== *)
(** * Submission of transactions ([services/stellarService.ts])

    The service over the provider of [StellarProvider], the account numbers of
    [SequenceManager] and the lockdown of [Lockdown]. The SDK is the class [StellarSdk], the
    nodes and the signer the class [StellarWorld]; a node's answer to a submission may come
    before or after the service's own timer. Proved: what one rejected transaction does to
    the number of the account and to every later submission; how often a price can reach
    the ledger; that a node that fails is asked again; that nothing is signed under
    lockdown; and that no pending entry is left behind. *)

From stdpp Require Import pretty.
From Stdlib Require Import Ascii.
From S2P Require Import Prelude JsNumber JsString JsDecimal JsValue SequenceManager Lockdown StellarProvider.

Local Open Scope Z_scope.

Definition LOCAL_TIMEOUT_CODE : string := "LOCAL_TX_TIME_BOUND_EXPIRED".
Definition LocalTransactionTimeoutError (hash : string) : js_error :=
  mk_error ("Transaction " +:+ hash +:+ " exceeded local time-bound and was recycled")
    (Some LOCAL_TIMEOUT_CODE) None.

Definition MAX_RETRIES : nat := 3.
Definition RETRY_DELAY_MS : Z := 2000.
Definition TRANSACTION_TIME_BOUND_SECONDS : Z := 15.

Record PendingTimeBoundTransaction := mkPendingTx {
  pt_hash : string;
  pt_publicKey : string;
  pt_createdAtMs : Z;
  pt_expiresAtMs : Z;
}.

(** The builder and the transactions of the SDK. [build] is a new [TransactionBuilder] on a
    new [Account(publicKey, sequence)] with [manageData] operations, a text memo and
    [setTimeout], built at the time given in milliseconds: it uses the number after that of
    the account. [build_call] is the same for one contract call. *)
Class StellarSdk := {
  Tx : Type;
  build : string → Z → string → list (string * string) → string → Z → Z → exc Tx;
  build_call : string → Z → string → string → string → Z → Z → exc Tx;
  (** [assembleTransaction(transaction, simulation).build()] *)
  assemble : Tx → jsval → exc Tx;
  tx_sequence : Tx → Z;
  tx_maxTime : Tx → option Z;
  tx_hash : Tx → string;
  (** push a signature of a key; the key is not valid if [Keypair.fromPublicKey] throws *)
  tx_push : Tx → string → string → Tx;
  valid_key : string → bool;
  build_sequence pk n fee ops memo timeout now tx :
    build pk n fee ops memo timeout now = Ok tx → tx_sequence tx = n + 1;
  build_call_sequence pk n fee contract proposal timeout now tx :
    build_call pk n fee contract proposal timeout now = Ok tx → tx_sequence tx = n + 1;
  assemble_sequence tx simulation tx' : assemble tx simulation = Ok tx' → tx_sequence tx' = tx_sequence tx;
  build_maxTime pk n fee ops memo timeout now tx :
    build pk n fee ops memo timeout now = Ok tx → tx_maxTime tx = Some (now / 1000 + timeout);
  push_sequence tx pk s : tx_sequence (tx_push tx pk s) = tx_sequence tx;
  push_hash tx pk s : tx_hash (tx_push tx pk s) = tx_hash tx;
}.

(** Clock, signer, Horizon and RPC nodes. [sw_submit] returns whether the timer of the given
    milliseconds fired before the answer, and the answer; [result_code] reads
    [error.response?.data?.extras?.result_codes?.transaction]. *)
Class StellarWorld (X : Type) `{!StellarSdk} := {
  sw_now : X → Z;
  sw_sleep : Z → M X unit;
  sw_publicKey : M X string;
  sw_sign : string → M X string;
  sw_feeStats : string → M X string;
  sw_loadAccount : string → string → M X Z;
  sw_submit : string → Tx → Z → X → (bool * exc string) * X;
  sw_simulate : string → Tx → M X jsval;
  sw_send : string → Tx → M X string;
  sw_getTransaction : string → string → M X string;
  result_code : js_error → option string;
}.

(** [Buffer.from(s, "hex")] *)
Fixpoint hex_bytes (s : string) : string :=
  match s with
  | String a (String b s') =>
      match hex_value a, hex_value b with
      | Some x, Some y => String (ascii_of_nat (Z.to_nat (16 * x + y))) (hex_bytes s')
      | _, _ => ""
      end
  | _ => ""
  end%string.

Record stellar (R X : Type) := mkStellar {
  st_provider : provider;
  st_sequences : gmap string Z;
  st_lock : app_state R;
  (** the node of [this.server] *)
  st_server : string;
  st_pending : gmap string PendingTimeBoundTransaction;
  st_world : X;
}.
Arguments mkStellar {R X} _ _ _ _ _ _.
Arguments st_provider {R X} _.
Arguments st_sequences {R X} _.
Arguments st_lock {R X} _.
Arguments st_server {R X} _.
Arguments st_pending {R X} _.
Arguments st_world {R X} _.

Section service.
Context {R X : Type} `{!LockdownRedis R} `{!StellarSdk} `{!StellarWorld X}.
Context (JSON_parse : string → exc jsval).
Notation state := (stellar R X).
Notation run := (M state).

(** ** The parts of the state *)

Definition update_provider (f : provider → provider) (s : state) : state :=
  mkStellar (f (st_provider s)) (st_sequences s) (st_lock s) (st_server s) (st_pending s) (st_world s).
Definition at_sequences {A} (c : M (gmap string Z) A) : run A := λ s,
  let '(r, q) := c (st_sequences s) in
  (r, mkStellar (st_provider s) q (st_lock s) (st_server s) (st_pending s) (st_world s)).
Definition at_lockdown {A} (c : M (app_state R) A) : run A := λ s,
  let '(r, l) := c (st_lock s) in
  (r, mkStellar (st_provider s) (st_sequences s) l (st_server s) (st_pending s) (st_world s)).
Definition at_world {A} (c : M X A) : run A := λ s,
  let '(r, x) := c (st_world s) in
  (r, mkStellar (st_provider s) (st_sequences s) (st_lock s) (st_server s) (st_pending s) x).
Definition set_pending (f : gmap string PendingTimeBoundTransaction → gmap string PendingTimeBoundTransaction) :
    run unit :=
  modify (λ s, mkStellar (st_provider s) (st_sequences s) (st_lock s) (st_server s) (f (st_pending s))
                 (st_world s)).
Definition current_node (s : state) : string := default "" (getCurrentUrl (st_provider s)).
(** [this.server = stellarProvider.getServer()] *)
Definition use_current_server : run unit :=
  modify (λ s, mkStellar (st_provider s) (st_sequences s) (st_lock s) (current_node s) (st_pending s)
                 (st_world s)).
Definition world_now (s : state) : Z := sw_now (st_world s).

Definition horizon_call {A} (call : M X A) : run A := horizon update_provider (at_world call).
Definition rpc_call {A} (call : M X A) : run A := rpc update_provider world_now (at_world call).
(** [stellarProvider.reportFailure(error)] *)
Definition report (error : js_error) : run unit := modify (update_provider (λ p, (reportFailure error p).2)).

Definition getPublicKey : run string := at_world sw_publicKey.

(** [sequenceManager.syncSequence] and [getNextSequence], which asks Horizon for an account
    it does not know *)
Definition load_account (address : string) : run Z :=
  s <- get ;; horizon_call (sw_loadAccount (current_node s) address).
Definition sync_sequence (address : string) : run Z :=
  answer <- attempt (load_account address) ;; at_sequences (syncSequence address answer).
Definition next_sequence (address : string) : run Z :=
  s <- get ;;
  answer <- match st_sequences s !! address with
            | Some n => ret (Ok n)
            | None => attempt (load_account address)
            end ;;
  at_sequences (getNextSequence address answer).

(** ** Errors *)

Definition isLocalTimeoutError (error : js_error) : bool :=
  bool_decide (err_code error = Some LOCAL_TIMEOUT_CODE).
Definition isStuckError (error : js_error) : bool :=
  isLocalTimeoutError error ||
  bool_decide (result_code error = Some "tx_too_late") ||
  bool_decide (result_code error = Some "tx_insufficient_fee") ||
  bool_decide (result_code error = Some "tx_bad_seq") ||
  str_includes (err_message error) "timeout" ||
  bool_decide (err_code error = Some "ECONNABORTED").
Definition shouldRecycleImmediately (error : js_error) : bool :=
  isLocalTimeoutError error || bool_decide (result_code error = Some "tx_too_late").

(** ** Fees *)

Definition getRecommendedFee : run string :=
  s <- get ;;
  p50 <- horizon_call (sw_feeStats (st_server s)) ;;
  ret (match parseInt10 p50 with Some fee => pretty (Z.max fee 100) | None => "NaN" end).

(** [Math.floor(baseFee * (1 + 0.5 * attempt))], printed; [None] is [NaN]. *)
Definition escalated_fee (baseFee : Z) (attempt : nat) : Z := baseFee * (2 + Z.of_nat attempt) / 2.
Definition fee_text (baseFee : option Z) (attempt : nat) : string :=
  match baseFee with Some fee => pretty (escalated_fee fee attempt) | None => "NaN" end.

(** ** One attempt *)

Definition assertStrictTimeBounds (transaction : Tx) : run unit :=
  s <- get ;;
  let nowSeconds := world_now s / 1000 in
  let strict := match tx_maxTime transaction with
                | Some maxTime => negb ((maxTime <=? nowSeconds) ||
                    (TRANSACTION_TIME_BOUND_SECONDS <? maxTime - nowSeconds))
                | None => false
                end in
  if strict then ret tt
  else throw (Error "Transaction envelope must include strict time_bounds of 15s or less").

(** [Keypair.fromPublicKey(key)], then a decorated signature pushed *)
Definition decorate (transaction : Tx) (key signature : string) : exc Tx :=
  if valid_key key then Ok (tx_push transaction key signature) else Throw (Error "invalid encoded string").

Definition registerPendingTimeBoundTransaction (transaction : Tx) (publicKey : string) :
    run PendingTimeBoundTransaction :=
  s <- get ;;
  let createdAtMs := world_now s in
  let pending := mkPendingTx (tx_hash transaction) publicKey createdAtMs
                   (createdAtMs + TRANSACTION_TIME_BOUND_SECONDS * 1000) in
  set_pending <[tx_hash transaction := pending]> ;;; ret pending.
Definition clearPendingTimeBoundTransaction (hash : string) : run unit := set_pending (delete hash).

(** The race between the answer and the timer. A timer that finds its entry gone does
    nothing, and the race is left to the answer. A rejection reaches the provider whichever
    of the two was first. *)
Definition race (transaction : Tx) (pending : PendingTimeBoundTransaction) : run string :=
  s <- get ;;
  answered <- at_world (λ x, let '(a, x') := sw_submit (st_server s) transaction
                                 (Z.max (pt_expiresAtMs pending - world_now s) 0) x in (Ok a, x')) ;;
  let '(late, answer) := answered in
  match answer with Throw error => report error | Ok _ => ret tt end ;;;
  s <- get ;;
  if late && bool_decide (is_Some (st_pending s !! pt_hash pending)) then
    set_pending (delete (pt_hash pending)) ;;;
    throw (LocalTransactionTimeoutError (pt_hash pending))
  else lift_exc answer.

Definition submitWithTimeoutListener (transaction : Tx) (publicKey : string) : run string :=
  pending <- registerPendingTimeBoundTransaction transaction publicKey ;;
  result <- attempt (race transaction pending) ;;
  clearPendingTimeBoundTransaction (pt_hash pending) ;;;
  lift_exc result.

(** The body of the [try]. [builderFn] makes the transaction of an account number and a fee;
    [countersign] adds further signatures. *)
Definition submission_attempt (builderFn : string → Z → string → run Tx)
    (countersign : string → Tx → Tx) (baseFee : option Z) (attempt : nat) : run string :=
  use_current_server ;;;
  publicKey <- getPublicKey ;;
  nextSequence <- next_sequence publicKey ;;
  transaction <- builderFn publicKey nextSequence (fee_text baseFee attempt) ;;
  assertStrictTimeBounds transaction ;;;
  at_lockdown (assertSigningAllowed JSON_parse) ;;;
  signature <- at_world (sw_sign (tx_hash transaction)) ;;
  signed <- lift_exc (decorate transaction publicKey signature) ;;
  submitWithTimeoutListener (countersign publicKey signed) publicKey.

(** The [catch] up to its decision. *)
Definition after_failure (error : js_error) : run unit :=
  (if bool_decide (result_code error = Some "tx_bad_seq") || isLocalTimeoutError error then
     publicKey <- getPublicKey ;; sync_sequence publicKey ;;; ret tt
   else ret tt) ;;;
  (if isLocalTimeoutError error then ret tt else report error).

(** The loop, with [remaining] attempts after this one. *)
Fixpoint submit_loop (builderFn : string → Z → string → run Tx) (countersign : string → Tx → Tx)
    (baseFee : option Z) (remaining attempt : nat) : run string :=
  try_catch (submission_attempt builderFn countersign baseFee attempt) (λ error,
    after_failure error ;;;
    match remaining with
    | S remaining' =>
        if isStuckError error then
          (if shouldRecycleImmediately error then ret tt else at_world (sw_sleep RETRY_DELAY_MS)) ;;;
          submit_loop builderFn countersign baseFee remaining' (S attempt)
        else throw error
    | O => throw error
    end).

Definition submitTransactionWithRetries (builderFn : string → Z → string → run Tx) (maxRetries : nat)
    (baseFee : option Z) : run string :=
  submit_loop builderFn (λ _ tx, tx) baseFee maxRetries 0.

(** The signatures of the other signers; one that cannot be decorated is skipped. *)
Definition add_signature (publicKey : string) (transaction : Tx) (sig : string * string) : Tx :=
  if decide (sig.1 = publicKey) then transaction
  else match decorate transaction sig.1 (hex_bytes sig.2) with Ok tx => tx | Throw _ => transaction end.
Definition add_signatures (signatures : list (string * string)) (publicKey : string) (transaction : Tx) : Tx :=
  foldl (add_signature publicKey) transaction signatures.
Definition submitMultiSignedTransaction (builderFn : string → Z → string → run Tx)
    (signatures : list (string * string)) (maxRetries : nat) (baseFee : option Z) : run string :=
  submit_loop builderFn (add_signatures signatures) baseFee maxRetries 0.

(** ** The public methods *)

Definition data_entry (update : string * number) : string * string :=
  (update.1 +:+ "_PRICE", String_num update.2).
Definition build_prices (updates : list (string * number)) (memoId : string)
    (publicKey : string) (sequence : Z) (fee : string) : run Tx :=
  s <- get ;;
  lift_exc (build publicKey sequence fee (data_entry <$> updates) memoId TRANSACTION_TIME_BOUND_SECONDS
              (world_now s)).

Definition base_fee : run (option Z) := fee <- getRecommendedFee ;; ret (parseInt10 fee).

Definition submitPriceUpdate (currency : string) (price : number) (memoId : string) : run string :=
  at_lockdown (assertSigningAllowed JSON_parse) ;;;
  baseFee <- base_fee ;;
  submitTransactionWithRetries (build_prices [(currency, price)] memoId) MAX_RETRIES baseFee.

Definition submitBatchedPriceUpdates (updates : list (string * number)) (memoId : string) : run string :=
  if decide (updates = []) then throw (Error "Cannot submit empty batch of price updates")
  else
    at_lockdown (assertSigningAllowed JSON_parse) ;;;
    baseFee <- base_fee ;;
    submitTransactionWithRetries (build_prices updates memoId) MAX_RETRIES baseFee.

Definition submitMultiSignedPriceUpdate (currency : string) (price : number) (memoId : string)
    (signatures : list (string * string)) : run string :=
  at_lockdown (assertSigningAllowed JSON_parse) ;;;
  baseFee <- base_fee ;;
  submitMultiSignedTransaction (build_prices [(currency, price)] memoId) signatures MAX_RETRIES baseFee.

(** The node [stellarProvider.getRpcServer()] chooses. *)
Definition get_rpc_server : run string := λ s,
  let '(url, p) := getRpcServer (world_now s) (st_provider s) in
  (Ok (default "" url), update_provider (λ _, p) s).

Fixpoint confirm_proposal (server hash proposalId : string) (attempts : nat) : run string :=
  match attempts with
  | O => throw (Error ("Governance proposal " +:+ proposalId +:+ " confirmation timed out"))
  | S attempts' =>
      status <- rpc_call (sw_getTransaction server hash) ;;
      if decide (status = "SUCCESS") then ret hash
      else if decide (status = "FAILED") then
        throw (Error ("Governance proposal " +:+ proposalId +:+ " failed"))
      else at_world (sw_sleep 1000) ;;; confirm_proposal server hash proposalId attempts'
  end.

Definition executeGovernanceProposal (contractId proposalId : string) : run string :=
  at_lockdown (assertSigningAllowed JSON_parse) ;;;
  publicKey <- getPublicKey ;;
  sequence <- next_sequence publicKey ;;
  fee <- getRecommendedFee ;;
  s <- get ;;
  transaction <- lift_exc (build_call publicKey sequence fee contractId proposalId
                             TRANSACTION_TIME_BOUND_SECONDS (world_now s)) ;;
  server <- get_rpc_server ;;
  simulation <- rpc_call (sw_simulate server transaction) ;;
  prepared <- lift_exc (assemble transaction simulation) ;;
  signature <- at_world (sw_sign (tx_hash prepared)) ;;
  signed <- lift_exc (decorate prepared publicKey signature) ;;
  hash <- rpc_call (sw_send server signed) ;;
  confirm_proposal server hash proposalId 30.
End service.

(** ** The account on the ledger

    The number of an account on the ledger, as far as the service relies on the network: a
    transaction changes it only when it is applied, which takes the next number; a node that
    answers with a hash has applied the transaction; one that answers with an error, or too
    late, may have applied it. Nobody else uses the account of the signer. *)
Class AccountLedger (X : Type) `{!StellarSdk, !StellarWorld X} (source : string) := {
  ledger : X → Z;
  ledger_key x : ledger (final sw_publicKey x) = ledger x ∧
    ∀ k, outcome sw_publicKey x = Ok k → k = source;
  ledger_load url x : ledger (final (sw_loadAccount url source) x) = ledger x ∧
    ∀ n, outcome (sw_loadAccount url source) x = Ok n → n = ledger x;
  ledger_sign h x : ledger (final (sw_sign h) x) = ledger x;
  ledger_sleep ms x : ledger (final (sw_sleep ms) x) = ledger x;
  ledger_fee url x : ledger (final (sw_feeStats url) x) = ledger x;
  ledger_simulate url tx x : ledger (final (sw_simulate url tx) x) = ledger x;
  ledger_status url h x : ledger (final (sw_getTransaction url h) x) = ledger x;
  ledger_submit url tx ms x :
    ledger (sw_submit url tx ms x).2 = ledger x + 1 ∧ tx_sequence tx = ledger x + 1 ∨
    ledger (sw_submit url tx ms x).2 = ledger x ∧ is_ok (sw_submit url tx ms x).1.2 = false;
  ledger_send url tx x :
    ledger (final (sw_send url tx) x) = ledger x ∨
    ledger (final (sw_send url tx) x) = ledger x + 1 ∧ tx_sequence tx = ledger x + 1;
}.

Section numbers.
Context {R X : Type} `{!LockdownRedis R} `{!StellarSdk} `{!StellarWorld X}.
Context (JSON_parse : string → exc jsval) (source : string) `{!AccountLedger X source}.
Notation state := (stellar R X).
Notation run := (M state).
Implicit Types (s : state) (n : option Z) (L : Z).

(** The cached number of the account and that of the ledger. *)
Definition numbers n L s : Prop :=
  st_sequences s !! source = n ∧ ledger (source := source) (st_world s) = L.

(** A cached number is one below the ledger's before a request takes it; from a number that
    is not below, every further one is too high. *)
Definition in_step n L : Prop := n = None ∨ n = Some (L - 1).
Definition stranded n L : Prop := ∃ k, n = Some k ∧ L <= k.

Lemma numbers_world {A} (c : M X A) n L :
  (∀ x, ledger (source := source) (final c x) = ledger (source := source) x) →
  preserves (numbers n L) (at_world (R := R) c).
Proof.
  intros Hc s [Hn HL]. specialize (Hc (st_world s)). unfold wp, at_world, final, numbers in *.
  destruct (c (st_world s)) as [[a|e] x]; simpl in *; split; congruence.
Qed.
Lemma numbers_lockdown {A} (c : M (app_state R) A) n L : preserves (numbers n L) (at_lockdown c).
Proof. intros s Hs. unfold wp, at_lockdown. by destruct (c (st_lock s)) as [[a|e] l]. Qed.
Lemma numbers_pending f n L : preserves (numbers n L) (set_pending f).
Proof. by intros s Hs. Qed.
Lemma numbers_server n L : preserves (numbers n L) use_current_server.
Proof. by intros s Hs. Qed.
Lemma numbers_provider f n L : preserves (numbers n L) (modify (update_provider f)).
Proof. by intros s Hs. Qed.
Lemma numbers_rpc_server n L : preserves (numbers n L) get_rpc_server.
Proof. intros s Hs. unfold wp, get_rpc_server. by destruct (getRpcServer _ _). Qed.
#[local] Hint Resolve numbers_lockdown numbers_pending numbers_server numbers_provider numbers_rpc_server : sf.

Lemma numbers_horizon {A} (c : M X A) n L :
  (∀ x, ledger (source := source) (final c x) = ledger (source := source) x) →
  preserves (numbers n L) (horizon_call (R := R) c).
Proof. intros Hc. pose proof (numbers_world c n L Hc). unfold horizon_call, horizon. preserve. Qed.
Lemma numbers_rpc {A} (c : M X A) n L :
  (∀ x, ledger (source := source) (final c x) = ledger (source := source) x) →
  preserves (numbers n L) (rpc_call (R := R) c).
Proof.
  intros Hc s Hs. pose proof (numbers_world c n L Hc s Hs) as Hw.
  unfold wp, rpc_call, rpc in *. by destruct (at_world c s) as [[a|e] s'].
Qed.

Lemma numbers_key n L s : numbers n L s →
  wp getPublicKey (λ k s', k = source ∧ numbers n L s') (λ _, numbers n L) s.
Proof.
  intros [Hn HL]. destruct (ledger_key (source := source) (st_world s)) as [Hk Hs].
  unfold wp, getPublicKey, at_world, outcome, final, numbers in *.
  destruct (sw_publicKey (st_world s)) as [[k|e] x]; simpl in *; split_and!; eauto; congruence.
Qed.

Lemma load_answer n L s : numbers n L s →
  wp (load_account source) (λ k s', k = L ∧ numbers n L s') (λ _, numbers n L) s.
Proof.
  intros Hs. unfold load_account. apply wp_bind, wp_get. unfold horizon_call, horizon.
  apply wp_try_catch. destruct Hs as [Hn HL].
  destruct (ledger_load (source := source) (current_node s) (st_world s)) as [Hl Hk].
  unfold wp at 1. unfold at_world, outcome, final in *.
  destruct (sw_loadAccount _ _ _) as [[k|e] x]; simpl in *.
  - split; [rewrite (Hk k eq_refl); done|]. split; [done|]. simpl. congruence.
  - apply wp_bind, wp_modify, wp_throw. split; [done|]. simpl. congruence.
Qed.

(** The number a request is given, and what is cached then. *)
Definition drawn n L : Z := match n with Some k => k + 1 | None => L end.

Lemma numbers_next n L s : numbers n L s →
  wp (next_sequence source) (λ k s', k = drawn n L ∧ numbers (Some k) L s') (λ _, numbers n L) s.
Proof.
  intros Hs. unfold next_sequence. apply wp_bind, wp_get, wp_bind. pose proof Hs as [Hn _]. rewrite Hn.
  destruct n as [k|]; simpl.
  - apply wp_ret. unfold wp, at_sequences, getNextSequence, try_catch. rewrite Hn. simpl.
    split; [done|]. split; [by apply lookup_insert_eq|apply Hs].
  - apply wp_attempt. eapply wp_mono; [exact (load_answer None L s Hs)| |]; simpl.
    + intros k s' [-> [Hn' HL']]. unfold wp, at_sequences, getNextSequence, try_catch. rewrite Hn'.
      split; [done|]. split; [by apply lookup_insert_eq|done].
    + intros e s' [Hn' HL']. unfold wp, at_sequences, getNextSequence, try_catch. rewrite Hn'.
      split; [by apply lookup_delete_eq|done].
Qed.

Lemma numbers_sync n L s : numbers n L s →
  wp (sync_sequence source) (λ _, numbers (Some L) L) (λ _, numbers n L) s.
Proof.
  intros Hs. unfold sync_sequence. apply wp_bind, wp_attempt.
  eapply wp_mono; [exact (load_answer n L s Hs)| |]; simpl.
  - intros k s' [-> [Hn' HL']]. unfold wp, at_sequences, syncSequence. split; [by apply lookup_insert_eq|done].
  - intros e s' [Hn' HL']. by unfold wp, at_sequences, syncSequence.
Qed.

(** The race: an applied transaction had the next number. *)
Lemma numbers_race tx pending n L s : numbers n L s →
  wp (race tx pending)
    (λ _ s', tx_sequence tx = L + 1 ∧ numbers n (L + 1) s')
    (λ _ s', numbers n L s' ∨ tx_sequence tx = L + 1 ∧ numbers n (L + 1) s') s.
Proof.
  intros [Hn HL]. unfold race. apply wp_bind, wp_get, wp_bind. unfold wp at 1, at_world.
  set (ms := Z.max _ _). pose proof (ledger_submit (source := source) (st_server s) tx ms (st_world s)) as Hsub.
  destruct (sw_submit (st_server s) tx ms (st_world s)) as [[late answer] x]. simpl in Hsub |- *.
  set (s1 := mkStellar _ _ _ _ _ _). apply wp_bind.
  assert (tx_sequence tx = L + 1 ∧ numbers n (L + 1) s1 ∨ numbers n L s1 ∧ is_ok answer = false) as Hs1.
  { unfold numbers, s1. simpl. rewrite HL in Hsub. destruct Hsub as [[-> ->]|[-> Ha]]; auto. }
  apply (wp_mono _ (λ _ s', tx_sequence tx = L + 1 ∧ numbers n (L + 1) s' ∨ numbers n L s' ∧ is_ok answer = false)
    _ (λ _ _, False)); [by destruct answer|..|done].
  intros [] s2 Hs2. apply wp_bind, wp_get. destruct (late && _).
  - apply wp_bind, wp_modify, wp_throw. destruct Hs2 as [[Ht [? ?]]|[[? ?] _]]; [right|left]; by repeat split.
  - apply wp_lift_exc; intros a ->; simpl in Hs2; destruct Hs2 as [[? ?]|[? ?]]; eauto; done.
Qed.

Lemma numbers_submit tx pk n L s : numbers n L s →
  wp (submitWithTimeoutListener tx pk)
    (λ _ s', tx_sequence tx = L + 1 ∧ numbers n (L + 1) s')
    (λ _ s', numbers n L s' ∨ tx_sequence tx = L + 1 ∧ numbers n (L + 1) s') s.
Proof.
  intros Hs. unfold submitWithTimeoutListener, registerPendingTimeBoundTransaction.
  apply wp_bind, wp_bind, wp_get, wp_bind, wp_modify, wp_ret, wp_bind, wp_attempt.
  eapply wp_mono; [apply (numbers_race _ _ n L); exact Hs| |]; simpl.
  - intros h s' Hs'. by apply wp_bind, wp_modify, wp_lift_exc; intros ? [= <-].
  - intros e s' Hs'. apply wp_bind, wp_modify, wp_lift_exc; intros ? [= <-].
    destruct Hs' as [[? ?]|[? [? ?]]]; [left|right]; by repeat split.
Qed.

(** What the loop asks of the builder and of the further signatures. *)
Definition builder_ok (builderFn : string → Z → string → run Tx) : Prop := ∀ n L pk k fee s,
  numbers n L s →
  wp (builderFn pk k fee) (λ tx s', tx_sequence tx = k + 1 ∧ numbers n L s') (λ _, numbers n L) s.
Definition countersign_ok (countersign : string → Tx → Tx) : Prop :=
  ∀ pk tx, tx_sequence (countersign pk tx) = tx_sequence tx.

Lemma build_prices_ok updates memo : builder_ok (build_prices updates memo).
Proof.
  intros n L pk k fee s Hs. apply wp_bind, wp_get, wp_lift_exc; [|done].
  intros tx Htx. split; [by eapply build_sequence|done].
Qed.
Lemma add_signatures_ok sigs : countersign_ok (add_signatures sigs).
Proof.
  intros pk tx. unfold add_signatures. revert tx. induction sigs as [|sig sigs IH]; intros tx; [done|].
  simpl. rewrite IH. unfold add_signature, decorate. case_decide; [done|].
  destruct (valid_key _); [by rewrite push_sequence|done].
Qed.
Lemma plain_ok : countersign_ok (λ _ tx, tx).
Proof. done. Qed.

Lemma numbers_time_bounds tx n L : preserves (numbers n L) (assertStrictTimeBounds (R := R) tx).
Proof. unfold assertStrictTimeBounds. preserve. Qed.
Lemma numbers_after n L (e : js_error) s : numbers n L s →
  wp (after_failure e) (λ _ s', numbers n L s' ∨ numbers (Some L) L s')
    (λ _ s', numbers n L s' ∨ numbers (Some L) L s') s.
Proof.
  intros Hs. unfold after_failure. apply wp_bind.
  apply (wp_mono _ (λ _ s', numbers n L s' ∨ numbers (Some L) L s') _
    (λ _ s', numbers n L s' ∨ numbers (Some L) L s')); [|intros _ s1 Hs1|done].
  - case_match; [|by left].
    apply wp_bind. eapply wp_mono; [exact (numbers_key n L s Hs)| |]; [|by left].
    intros k s1 [-> Hs1]. apply wp_bind. eapply wp_mono; [exact (numbers_sync n L s1 Hs1)| |]; [|by left].
    intros ? s2 Hs2. by right.
  - case_match; [done|]. by destruct Hs1 as [[? ?]|[? ?]]; [left|right].
Qed.

(** What an attempt that fails leaves: the number may have been drawn, and the transaction
    may have been applied all the same. *)
Definition consumed n L s : Prop :=
  numbers n L s ∨ numbers (Some (drawn n L)) L s ∨ drawn n L = L ∧ numbers (Some L) (L + 1) s.

Lemma stranded_drawn n L : stranded n L → L < drawn n L.
Proof. intros (j & -> & ?). simpl. lia. Qed.
Lemma in_step_drawn n L : in_step n L → drawn n L = L.
Proof. intros [->| ->]; simpl; lia. Qed.

Lemma consumed_stranded n L s : stranded n L → consumed n L s → ∃ n', numbers n' L s ∧ stranded n' L.
Proof.
  intros Hst. pose proof (stranded_drawn n L Hst). intros [Hs'|[Hs'|[E _]]]; [by exists n| |lia].
  exists (Some (drawn n L)). split; [done|]. eexists. split; [done|lia].
Qed.
Lemma consumed_in_step n L s : in_step n L → consumed n L s →
  ∃ n' L', numbers n' L' s ∧ L <= L' <= L + 1 ∧ (in_step n' L' ∨ stranded n' L').
Proof.
  intros Hst. unfold consumed. rewrite (in_step_drawn n L Hst). intros [Hs'|[Hs'|[_ Hs']]].
  - exists n, L. split_and!; [done|lia..|by left].
  - exists (Some L), L. split_and!; [done|lia..|]. right. exists L. split; [done|lia].
  - exists (Some L), (L + 1). split_and!; [done|lia..|]. left. right. f_equal. lia.
Qed.

Section loop.
Context (builderFn : string → Z → string → run Tx) (countersign : string → Tx → Tx) (baseFee : option Z).
Context (Hb : builder_ok builderFn) (Hc : countersign_ok countersign).

Lemma numbers_attempt k n L s : numbers n L s →
  wp (submission_attempt JSON_parse builderFn countersign baseFee k)
    (λ _ s', drawn n L = L ∧ numbers (Some L) (L + 1) s')
    (λ _, consumed n L) s.
Proof.
  intros Hs. unfold submission_attempt. apply wp_bind. eapply wp_mono; [exact (numbers_server n L s Hs)| |by intros; left].
  intros ? s1 Hs1. apply wp_bind. eapply wp_mono; [exact (numbers_key n L s1 Hs1)| |by intros; left].
  intros pk s2 [-> Hs2]. apply wp_bind. eapply wp_mono; [exact (numbers_next n L s2 Hs2)| |by intros; left].
  intros m s3 [Em Hs3]. subst m. apply wp_bind.
  eapply wp_mono; [exact (Hb (Some (drawn n L)) L source _ _ s3 Hs3)| |by intros; right; left].
  intros tx s4 [Htx Hs4]. apply wp_bind.
  eapply wp_mono; [exact (numbers_time_bounds tx _ _ s4 Hs4)| |by intros; right; left].
  intros ? s5 Hs5. apply wp_bind.
  eapply wp_mono; [exact (numbers_lockdown _ _ _ s5 Hs5)| |by intros; right; left].
  intros ? s6 Hs6. apply wp_bind.
  eapply wp_mono; [exact (numbers_world _ _ _ (ledger_sign _) s6 Hs6)| |by intros; right; left].
  intros sig s7 Hs7. apply wp_bind, wp_lift_exc; [|by intros; right; left].
  intros tx' Htx'. unfold decorate in Htx'. destruct (valid_key source); [|done]. injection Htx' as <-.
  eapply wp_mono; [exact (numbers_submit _ _ _ _ s7 Hs7)| |];
    rewrite Hc, push_sequence, Htx.
  - intros h s8 [E Hs8]. replace (drawn n L) with L in Hs8 by lia. split; [lia|done].
  - intros e s8 [Hs8|[E Hs8]]; [by right; left|]. right; right.
    replace (drawn n L) with L in Hs8 by lia. split; [lia|done].
Qed.

(** A number that is not below the ledger's never becomes one that is. *)
Lemma stranded_attempt k n L s : numbers n L s → stranded n L →
  wp (submission_attempt JSON_parse builderFn countersign baseFee k)
    (λ _ _, False) (λ _ s', ∃ n', numbers n' L s' ∧ stranded n' L) s.
Proof.
  intros Hs Hst. pose proof (stranded_drawn n L Hst).
  eapply wp_mono; [exact (numbers_attempt k n L s Hs)|intros h s' [E _]; lia|].
  intros e s'. by apply consumed_stranded.
Qed.
Lemma stranded_after e n L s : numbers n L s → stranded n L →
  wp (after_failure e) (λ _ s', ∃ n', numbers n' L s' ∧ stranded n' L)
    (λ _ s', ∃ n', numbers n' L s' ∧ stranded n' L) s.
Proof.
  intros Hs Hst. assert (∀ s', numbers n L s' ∨ numbers (Some L) L s' → ∃ n', numbers n' L s' ∧ stranded n' L).
  { intros s' [?|?]; [by exists n|]. exists (Some L). split; [done|]. exists L. split; [done|lia]. }
  eapply wp_mono; [exact (numbers_after n L e s Hs)|eauto..].
Qed.
Lemma numbers_pause e n L :
  preserves (numbers n L)
    (if shouldRecycleImmediately (X := X) e then ret tt else at_world (sw_sleep RETRY_DELAY_MS)).
Proof. case_match; [auto with sf|]. apply numbers_world, ledger_sleep. Qed.

(** The handler of the loop, on the remaining attempts. *)
Lemma stranded_handler remaining k e n L s : numbers n L s → stranded n L →
  (∀ r n s, remaining = S r → numbers n L s → stranded n L →
     wp (submit_loop JSON_parse builderFn countersign baseFee r (S k))
       (λ _ _, False) (λ _ s', ∃ n', numbers n' L s' ∧ stranded n' L) s) →
  wp (after_failure e ;;;
      match remaining with
      | S remaining' =>
          if isStuckError e then
            (if shouldRecycleImmediately e then ret tt else at_world (sw_sleep RETRY_DELAY_MS)) ;;;
            submit_loop JSON_parse builderFn countersign baseFee remaining' (S k)
          else throw e
      | O => throw e
      end) (λ _ _, False) (λ _ s', ∃ n', numbers n' L s' ∧ stranded n' L) s.
Proof.
  intros Hs Hst IH. apply wp_bind.
  eapply wp_mono; [exact (stranded_after e n L s Hs Hst)| |done].
  intros ? s2 (n2 & Hn2 & Hst2). destruct remaining as [|r]; [apply wp_throw; eauto|].
  case_match; [|apply wp_throw; eauto]. apply wp_bind.
  eapply wp_mono; [exact (numbers_pause e n2 L s2 Hn2)| |intros ? s3 Hs3; by exists n2].
  intros ? s3 Hs3. by apply (IH r n2).
Qed.
Lemma stranded_loop remaining k n L s : numbers n L s → stranded n L →
  wp (submit_loop JSON_parse builderFn countersign baseFee remaining k)
    (λ _ _, False) (λ _ s', ∃ n', numbers n' L s' ∧ stranded n' L) s.
Proof.
  revert k n s. induction remaining as [|remaining IH]; intros k n s Hs Hst; apply wp_try_catch;
    (eapply wp_mono; [exact (stranded_attempt k n L s Hs Hst)|done|]);
    intros e s1 (n1 & Hn1 & Hst1);
    [apply (stranded_handler O k e n1)|apply (stranded_handler (S remaining) k e n1)]; try done.
  intros r n2 s2 [= <-]. apply IH.
Qed.

(** From a number in step, at most one transaction per attempt is applied; after a call that
    completes the number is in step again, after one that fails it may be stranded. *)
Definition answered attempts L s : Prop :=
  ∃ n L', numbers n L' s ∧ L < L' <= L + attempts ∧ in_step n L'.
Definition failed attempts L s : Prop :=
  ∃ n L', numbers n L' s ∧ L <= L' <= L + attempts ∧ (in_step n L' ∨ stranded n L').

Lemma answered_mono m m' L L' s : L <= L' → L' + m <= L + m' → answered m L' s → answered m' L s.
Proof. intros ?? (n & L1 & Hn & HL & Hr). exists n, L1. split_and!; [done|lia..|done]. Qed.
Lemma failed_mono m m' L L' s : L <= L' → L' + m <= L + m' → failed m L' s → failed m' L s.
Proof. intros ?? (n & L1 & Hn & HL & Hr). exists n, L1. split_and!; [done|lia..|done]. Qed.

Lemma bounded_attempt k n L s : numbers n L s → in_step n L →
  wp (submission_attempt JSON_parse builderFn countersign baseFee k) (λ _, answered 1 L) (λ _, failed 1 L) s.
Proof.
  intros Hs Hst. eapply wp_mono; [exact (numbers_attempt k n L s Hs)| |].
  - intros h s' [_ Hs']. exists (Some L), (L + 1). split_and!; [done|lia..|]. right. f_equal. lia.
  - intros e s'. by apply consumed_in_step.
Qed.
Lemma bounded_after e m L s : failed m L s → wp (after_failure e) (λ _, failed m L) (λ _, failed m L) s.
Proof.
  intros (n & L' & Hn & HL & Hr).
  assert (∀ s', numbers n L' s' ∨ numbers (Some L') L' s' → failed m L s') as Hf.
  { intros s' [?|?]; [by exists n, L'|]. exists (Some L'), L'. split_and!; [done|lia..|].
    right. exists L'. split; [done|lia]. }
  eapply wp_mono; [exact (numbers_after n L' e s Hn)|eauto..].
Qed.

Lemma bounded_loop remaining k n L s : numbers n L s → in_step n L →
  wp (submit_loop JSON_parse builderFn countersign baseFee remaining k)
    (λ _, answered (Z.of_nat remaining + 1) L) (λ _, failed (Z.of_nat remaining + 1) L) s.
Proof.
  revert k n L s. induction remaining as [|remaining IH]; intros k n L s Hs Hst; simpl submit_loop;
    apply wp_try_catch;
    (eapply wp_mono; [exact (bounded_attempt k n L s Hs Hst)|intros ? s'; apply answered_mono; lia|]);
    intros e s1 Hs1; apply wp_bind;
    (eapply wp_mono; [exact (bounded_after e 1 L s1 Hs1)| |intros ? s'; apply failed_mono; lia]);
    intros ? s2 Hs2; [apply wp_throw; exact Hs2|].
  case_match; [|apply wp_throw; eapply failed_mono; [| |exact Hs2]; lia].
  destruct Hs2 as (n2 & L2 & Hn2 & HL2 & H2). apply wp_bind.
  eapply wp_mono; [exact (numbers_pause e n2 L2 s2 Hn2)| |].
  - intros ? s3 Hs3. destruct H2 as [H2|H2].
    + eapply wp_mono; [exact (IH (S k) n2 L2 s3 Hs3 H2)| |]; intros ? s4;
        [apply answered_mono|apply failed_mono]; lia.
    + eapply wp_mono; [exact (stranded_loop remaining (S k) n2 L2 s3 Hs3 H2)|done|].
      intros ? s4 (n4 & Hn4 & H4). exists n4, L2. split_and!; [done|lia..|by right].
  - intros ? s3 Hs3. exists n2, L2. split_and!; [done|lia..|done].
Qed.
End loop.

(** ** The public methods *)

Inductive stellar_op :=
| PriceUpdate (currency : string) (price : number) (memoId : string)
| BatchedPriceUpdates (updates : list (string * number)) (memoId : string)
| MultiSignedPriceUpdate (currency : string) (price : number) (memoId : string)
    (signatures : list (string * string))
| GovernanceProposal (contractId proposalId : string).

Definition run_op (op : stellar_op) : run string :=
  match op with
  | PriceUpdate c p m => submitPriceUpdate JSON_parse c p m
  | BatchedPriceUpdates u m => submitBatchedPriceUpdates JSON_parse u m
  | MultiSignedPriceUpdate c p m sigs => submitMultiSignedPriceUpdate JSON_parse c p m sigs
  | GovernanceProposal c p => executeGovernanceProposal JSON_parse c p
  end.
Definition is_price (op : stellar_op) : bool := match op with GovernanceProposal _ _ => false | _ => true end.

(** The answers to a sequence of calls, and the state they leave. *)
Fixpoint run_ops (ops : list stellar_op) s : list (stellar_op * exc string) * state :=
  match ops with
  | [] => ([], s)
  | op :: ops' => let '(r, s1) := run_op op s in let '(rs, s2) := run_ops ops' s1 in ((op, r) :: rs, s2)
  end.

Lemma numbers_fee n L : preserves (numbers n L) (getRecommendedFee (R := R)).
Proof.
  unfold getRecommendedFee. apply preserves_bind; [auto with sf|]. intros s.
  apply preserves_bind; [|auto with sf]. apply numbers_horizon, ledger_fee.
Qed.
Lemma numbers_base_fee n L : preserves (numbers n L) (base_fee (R := R)).
Proof. unfold base_fee. apply preserves_bind; [apply numbers_fee|auto with sf]. Qed.

(** What holds of the loop holds of the price methods, which check and read the fee first. *)
Lemma wp_price_op op n L s (Q : string → state → Prop) (E : js_error → state → Prop) :
  is_price op = true → numbers n L s → (∀ e s', numbers n L s' → E e s') →
  (∀ updates memo countersign fee s', countersign_ok countersign → numbers n L s' →
     wp (submit_loop JSON_parse (build_prices updates memo) countersign fee MAX_RETRIES 0) Q E s') →
  wp (run_op op) Q E s.
Proof.
  intros Hop Hs HE Hloop.
  assert (∀ updates memo countersign, countersign_ok countersign →
    wp (at_lockdown (assertSigningAllowed JSON_parse) ;;; fee <- base_fee ;;
        submit_loop JSON_parse (build_prices updates memo) countersign fee MAX_RETRIES 0) Q E s) as Hm.
  { intros updates memo countersign Hc. apply wp_bind.
    eapply wp_mono; [exact (numbers_lockdown _ n L s Hs)| |done]. intros ? s1 Hs1. apply wp_bind.
    eapply wp_mono; [exact (numbers_base_fee n L s1 Hs1)| |done]. intros fee s2 Hs2. by apply Hloop. }
  destruct op as [c p m|u m|c p m sigs|]; [..|done]; cbn [run_op].
  - apply (Hm [(c, p)] m _ plain_ok).
  - unfold submitBatchedPriceUpdates. case_decide; [by apply wp_throw, HE|]. apply (Hm u m _ plain_ok).
  - apply (Hm [(c, p)] m _ (add_signatures_ok sigs)).
Qed.

Lemma numbers_confirm server hash proposal k n L :
  preserves (numbers n L) (confirm_proposal (R := R) server hash proposal k).
Proof.
  induction k as [|k IH]; simpl; [auto with sf|].
  apply preserves_bind; [apply numbers_rpc, ledger_status|]. intros status.
  repeat case_decide; [auto with sf..|]. apply preserves_bind; [apply numbers_world, ledger_sleep|done].
Qed.

Lemma numbers_send server tx n L s : numbers n L s →
  wp (rpc_call (sw_send server tx))
    (λ _ s', numbers n L s' ∨ tx_sequence tx = L + 1 ∧ numbers n (L + 1) s')
    (λ _ s', numbers n L s' ∨ tx_sequence tx = L + 1 ∧ numbers n (L + 1) s') s.
Proof.
  intros [Hn HL]. unfold wp, rpc_call, rpc, at_world.
  pose proof (ledger_send (source := source) server tx (st_world s)) as Hsend. unfold final in Hsend.
  destruct (sw_send server tx (st_world s)) as [[hash|e] x]; simpl in *; rewrite HL in Hsend;
    (destruct Hsend as [Hx|[Hx Htx]]; [left|right]; repeat split; done).
Qed.

Lemma numbers_governance contract proposal n L s : numbers n L s →
  wp (executeGovernanceProposal JSON_parse contract proposal) (λ _, consumed n L) (λ _, consumed n L) s.
Proof.
  intros Hs. unfold executeGovernanceProposal. apply wp_bind.
  eapply wp_mono; [exact (numbers_lockdown _ n L s Hs)| |by intros; left]. intros ? s1 Hs1. apply wp_bind.
  eapply wp_mono; [exact (numbers_key n L s1 Hs1)| |by intros; left]. intros pk s2 [-> Hs2]. apply wp_bind.
  eapply wp_mono; [exact (numbers_next n L s2 Hs2)| |by intros; left]. intros m s3 [Em Hs3]. apply wp_bind.
  rewrite Em in Hs3. eapply wp_mono; [exact (numbers_fee _ _ s3 Hs3)| |by intros; right; left].
  intros fee s4 Hs4. apply wp_bind, wp_get, wp_bind, wp_lift_exc; [|by intros; right; left].
  intros tx Htx%build_call_sequence. apply wp_bind.
  eapply wp_mono; [exact (numbers_rpc_server _ _ s4 Hs4)| |by intros; right; left]. intros server s5 Hs5.
  apply wp_bind. eapply wp_mono; [exact (numbers_rpc _ _ _ (ledger_simulate _ _) s5 Hs5)| |by intros; right; left].
  intros simulation s6 Hs6. apply wp_bind, wp_lift_exc; [|by intros; right; left].
  intros prepared Hp%assemble_sequence. apply wp_bind.
  eapply wp_mono; [exact (numbers_world _ _ _ (ledger_sign _) s6 Hs6)| |by intros; right; left].
  intros sig s7 Hs7. apply wp_bind, wp_lift_exc; [|by intros; right; left].
  intros signed Hsigned. unfold decorate in Hsigned. destruct (valid_key source); [|done]. injection Hsigned as <-.
  set (signed := tx_push prepared source sig).
  assert (tx_sequence signed = drawn n L + 1) as Hseq by (unfold signed; rewrite push_sequence; congruence).
  apply wp_bind. eapply wp_mono; [exact (numbers_send server signed _ L s7 Hs7)| |].
  - intros hash s8 Hs8. unfold consumed. destruct Hs8 as [Hs8|[E Hs8]].
    + eapply wp_mono; [exact (numbers_confirm server hash proposal 30 _ _ s8 Hs8)|eauto..].
    + replace (drawn n L) with L in Hs8 by lia. assert (drawn n L = L) by lia.
      eapply wp_mono; [exact (numbers_confirm server hash proposal 30 _ _ s8 Hs8)|eauto..].
  - intros e s8 [Hs8|[E Hs8]]; [by right; left|]. right; right.
    replace (drawn n L) with L in Hs8 by lia. split; [lia|done].
Qed.

(** Every call keeps a number that is in step or stranded in one of the two. *)
Definition sound s : Prop :=
  ∃ n L, numbers n L s ∧ (in_step n L ∨ stranded n L).

Lemma op_stranded op n L s : numbers n L s → stranded n L →
  (is_price op = true → is_ok (outcome (run_op op) s) = false) ∧
  ∃ n', numbers n' L (final (run_op op) s) ∧ stranded n' L.
Proof.
  intros Hs Hst. destruct (is_price op) eqn:Hop.
  - assert (wp (run_op op) (λ _ _, False) (λ _ s', ∃ n', numbers n' L s' ∧ stranded n' L) s) as Hw.
    { eapply wp_price_op; [done|done|by intros; exists n|].
      intros updates memo countersign fee s' Hc Hs'.
      by apply (stranded_loop _ countersign fee (build_prices_ok updates memo) Hc MAX_RETRIES 0 n). }
    unfold wp, outcome, final in *. by destruct (run_op op s) as [[h|e] s'].
  - split; [done|]. apply (wp_final _ (λ s', ∃ n', numbers n' L s' ∧ stranded n' L)).
    destruct op; try discriminate. eapply wp_mono; [exact (numbers_governance _ _ n L s Hs)| |];
      intros ? s'; by apply consumed_stranded.
Qed.

Lemma op_in_step op n L s : numbers n L s → in_step n L → sound (final (run_op op) s).
Proof.
  intros Hs Hst. apply (wp_final _ sound). destruct (is_price op) eqn:Hop.
  - eapply wp_price_op; [done|done|intros ? s' Hs'; exists n, L; by auto|].
    intros updates memo countersign fee s' Hc Hs'.
    eapply wp_mono; [exact (bounded_loop _ countersign fee (build_prices_ok updates memo) Hc MAX_RETRIES 0 n L s' Hs' Hst)| |];
      intros ? s2 (n2 & L2 & Hn2 & _ & H2); exists n2, L2; by auto.
  - destruct op; try discriminate. eapply wp_mono; [exact (numbers_governance _ _ n L s Hs)| |];
      intros ? s' (n2 & L2 & Hn2 & _ & H2)%consumed_in_step; try done; by exists n2, L2.
Qed.

Lemma run_ops_stranded ops n L s : numbers n L s → stranded n L →
  Forall (λ a, is_price a.1 = true → is_ok a.2 = false) (run_ops ops s).1.
Proof.
  revert n s. induction ops as [|op ops IH]; intros n s Hs Hst; simpl; [constructor|].
  destruct (op_stranded op n L s Hs Hst) as [Hr (n' & Hn' & Hst')]. unfold outcome, final in *.
  destruct (run_op op s) as [r s1]. specialize (IH n' s1 Hn' Hst').
  destruct (run_ops ops s1) as [rs s2]. constructor; [exact Hr|exact IH].
Qed.

(** ** Theorems: account numbers *)

(** C18. One rejected transaction disables the service. When the first attempt of a submission
    has drawn its number and is not applied, none of its retries can succeed, whatever the
    network answers, and from then on no price update of any kind succeeds, in any sequence
    of calls: a retry takes the next number although the last one is unused, and the
    resynchronisation stores the number of the ledger as one already given out, so that
    every later transaction is one too high. Only [invalidate], which nothing calls, or a
    restart ends it. *)
Theorem rejected_once_stranded builderFn fee maxRetries e n L s s1 :
  numbers n L s → in_step n L → builder_ok builderFn →
  submission_attempt JSON_parse builderFn (λ _ tx, tx) fee 0 s = (Throw e, s1) →
  numbers (Some L) L s1 →
  let '(r, s') := submitTransactionWithRetries JSON_parse builderFn maxRetries fee s in
  is_ok r = false ∧ ∀ ops, Forall (λ a, is_price a.1 = true → is_ok a.2 = false) (run_ops ops s').1.
Proof.
  intros Hs Hst Hb Hatt Hs1.
  assert (stranded (Some L) L) as Hst1 by (exists L; split; [done|lia]).
  assert (wp (submitTransactionWithRetries JSON_parse builderFn maxRetries fee)
    (λ _ _, False) (λ _ s', ∃ n', numbers n' L s' ∧ stranded n' L) s) as Hw.
  { unfold submitTransactionWithRetries. destruct maxRetries as [|r]; simpl; apply wp_try_catch;
      unfold wp at 1; rewrite Hatt;
      [apply (stranded_handler builderFn (λ _ tx, tx) fee O 0 e _ L s1 Hs1 Hst1)
      |apply (stranded_handler builderFn (λ _ tx, tx) fee (S r) 0 e _ L s1 Hs1 Hst1)]; [done|].
    intros r' n' s' _ Hs' Hst'. by apply (stranded_loop builderFn _ fee Hb plain_ok r' 1 n'). }
  unfold wp in Hw. destruct (submitTransactionWithRetries _ _ _ _ s) as [[h|e'] s']; [done|].
  destruct Hw as (n' & Hn' & Hst'). split; [done|]. intros ops. by eapply run_ops_stranded.
Qed.

(** C6. A price update applies at most four transactions. One that answers with a hash has
    applied at least one, and leaves the number in step; one that fails may have applied
    some all the same. *)
Theorem price_applied_at_most_four_times op n L s :
  is_price op = true → numbers n L s → in_step n L →
  let '(r, s') := run_op op s in
  L <= ledger (source := source) (st_world s') <= L + 4 ∧
  (is_ok r = true → L < ledger (source := source) (st_world s') ∧
     in_step (st_sequences s' !! source) (ledger (source := source) (st_world s'))).
Proof.
  intros Hop Hs Hst. apply (wp_run (run_op op)).
  eapply wp_price_op; [done|done|intros ? s' [? ->]; split; [lia|done]|].
  intros updates memo countersign fee s' Hc Hs'.
  eapply wp_mono; [exact (bounded_loop _ countersign fee (build_prices_ok updates memo) Hc MAX_RETRIES 0 n L s' Hs' Hst)| |];
    intros ? s2 (n2 & L2 & [Hn2 HL2] & ? & H2); rewrite ?Hn2, HL2; unfold MAX_RETRIES in *; simpl in *;
    (split; [lia|]); [intros _; split; [lia|done]|done].
Qed.

(** C11. Whatever is called, in whatever order, and whatever the network answers: the cached
    number of the account stays in step with the ledger or becomes too high. *)
Theorem account_number_sound ops s : sound s → sound (run_ops ops s).2.
Proof.
  revert s. induction ops as [|op ops IH]; intros s Hs; [done|]. simpl.
  assert (sound (final (run_op op) s)) as H1.
  { destruct Hs as (n & L & Hn & [Hst|Hst]); [by eapply op_in_step|].
    destruct (op_stranded op n L s Hn Hst) as [_ (n' & Hn' & Hst')]. exists n', L. by auto. }
  unfold final in H1. destruct (run_op op s) as [r s1]. specialize (IH s1 H1). by destruct (run_ops ops s1).
Qed.
End numbers.

(** ** Failover *)
Section failover.
Context {R X : Type} `{!LockdownRedis R} `{!StellarSdk} `{!StellarWorld X}.
Notation state := (stellar R X).
Implicit Types s : state.

(** A submission that a node rejects with an error of the node is reported to the provider
    twice, by the wrapper of the server and by the handler of the loop: the provider moves on
    by two nodes. With two nodes, as without a [HORIZON_URL], it is back at the node that
    failed, and the retry goes there. *)
Theorem failed_submission_moves_two_nodes tx pk e x s :
  sw_submit (st_server s) tx (Z.max (TRANSACTION_TIME_BOUND_SECONDS * 1000) 0) (st_world s)
    = ((false, Throw e), x) →
  isFailoverError e = true → isLocalTimeoutError e = false → result_code (X := X) e ≠ Some "tx_bad_seq" →
  let urls := length (pv_urls (st_provider s)) in
  (2 ≤ urls)%nat → (pv_currentIndex (st_provider s) < urls)%nat →
  let '(r, s') := try_catch (submitWithTimeoutListener tx pk) (λ e, after_failure e ;;; throw e) s in
  r = Throw e ∧
  st_provider s' = set_horizon (st_provider s) ((pv_currentIndex (st_provider s) + 2) mod urls) ∧
  (urls = 2%nat → current_node s' = current_node s).
Proof.
  intros Hsub He Hl Hc urls Hn Hi.
  assert (world_now s + TRANSACTION_TIME_BOUND_SECONDS * 1000 - world_now s
    = TRANSACTION_TIME_BOUND_SECONDS * 1000) as Ems by lia.
  pose proof (reported_twice e (st_provider s) urls eq_refl Hn Hi He) as Htwice.
  set (s1 := update_provider (λ p, (reportFailure e (reportFailure e p).2).2)
    (mkStellar (st_provider s) (st_sequences s) (st_lock s) (st_server s)
       (delete (tx_hash tx) (<[tx_hash tx := mkPendingTx (tx_hash tx) pk (world_now s)
          (world_now s + TRANSACTION_TIME_BOUND_SECONDS * 1000)]> (st_pending s))) x)).
  assert (try_catch (submitWithTimeoutListener tx pk) (λ e, after_failure e ;;; throw e) s = (Throw e, s1)) as ->.
  { unfold try_catch, submitWithTimeoutListener, registerPendingTimeBoundTransaction, race,
      clearPendingTimeBoundTransaction, attempt, set_pending, at_world, lift_exc, report, bind, get, modify, ret.
    cbn -[TRANSACTION_TIME_BOUND_SECONDS reportFailure].
    change (world_now (mkStellar _ _ _ _ _ (st_world s))) with (world_now s). rewrite Ems, Hsub.
    cbn -[TRANSACTION_TIME_BOUND_SECONDS reportFailure after_failure].
    unfold after_failure. rewrite Hl, bool_decide_false by done. done. }
  split_and!; [done|exact Htwice|]. intros E2. unfold current_node, getCurrentUrl, s1, update_provider.
  cbn [st_provider]. rewrite Htwice, E2. cbn [set_horizon pv_urls pv_currentIndex].
  f_equal. f_equal. replace (pv_currentIndex (st_provider s) + 2)%nat with (pv_currentIndex (st_provider s) + 1 * 2)%nat by lia.
  rewrite Nat.Div0.mod_add. apply Nat.mod_small. lia.
Qed.
End failover.

(** ** Properties that do not speak of the provider, the numbers or the server *)
Section frames.
Context {R X : Type} `{!LockdownRedis R} `{!StellarSdk} `{!StellarWorld X}.
Context (JSON_parse : string → exc jsval).
Notation state := (stellar R X).
Notation run := (M state).
Implicit Types s : state.

(** ... and that every call of the world but the signer keeps. *)
Record frame (P : state → Prop) : Prop := mkFrame {
  fr_key : preserves P (at_world sw_publicKey);
  fr_load url a : preserves P (at_world (sw_loadAccount url a));
  fr_sleep ms : preserves P (at_world (sw_sleep ms));
  fr_fee url : preserves P (at_world (sw_feeStats url));
  fr_simulate url tx : preserves P (at_world (sw_simulate url tx));
  fr_send url tx : preserves P (at_world (sw_send url tx));
  fr_status url h : preserves P (at_world (sw_getTransaction url h));
  fr_submit url tx ms :
    preserves P (at_world (λ x, let '(a, x') := sw_submit url tx ms x in (Ok a, x')));
  fr_delete h : preserves P (set_pending (delete h));
  fr_local s p q srv : P s → P (mkStellar p q (st_lock s) srv (st_pending s) (st_world s));
}.

Section frame.
Context (P : state → Prop) (Hf : frame P).

Lemma frame_provider f : preserves P (modify (update_provider f)).
Proof. intros s Hs. by apply (fr_local P Hf). Qed.
Lemma frame_server : preserves P use_current_server.
Proof. intros s Hs. by apply (fr_local P Hf). Qed.
Lemma frame_sequences {A} (c : M (gmap string Z) A) : preserves P (at_sequences c).
Proof.
  intros s Hs. unfold wp, at_sequences. destruct (c (st_sequences s)) as [[a|e] q]; by apply (fr_local P Hf).
Qed.
Lemma frame_rpc_server : preserves P get_rpc_server.
Proof. intros s Hs. unfold wp, get_rpc_server. destruct (getRpcServer _ _). by apply (fr_local P Hf). Qed.
#[local] Hint Resolve frame_provider frame_server frame_sequences frame_rpc_server fr_key fr_sleep fr_delete
  fr_submit : sf.

Lemma frame_horizon {A} (c : M X A) : preserves P (at_world (R := R) c) → preserves P (horizon_call c).
Proof. intros Hc. unfold horizon_call, horizon. preserve. Qed.
Lemma frame_rpc {A} (c : M X A) : preserves P (at_world (R := R) c) → preserves P (rpc_call c).
Proof.
  intros Hc s Hs. specialize (Hc s Hs). unfold wp, rpc_call, rpc in *.
  destruct (at_world c s) as [[a|e] s']; by apply (fr_local P Hf).
Qed.
Lemma frame_load a : preserves P (load_account a).
Proof.
  unfold load_account. apply preserves_bind; [auto with sf|]. intros s. apply frame_horizon, (fr_load P Hf).
Qed.
#[local] Hint Resolve frame_load : sf.
Lemma frame_next a : preserves P (next_sequence a).
Proof. unfold next_sequence. preserve. Qed.
Lemma frame_fee : preserves P getRecommendedFee.
Proof.
  unfold getRecommendedFee. apply preserves_bind; [auto with sf|]. intros s.
  apply preserves_bind; [apply frame_horizon, (fr_fee P Hf)|auto with sf].
Qed.
#[local] Hint Resolve frame_next frame_fee : sf.
Lemma frame_base_fee : preserves P base_fee.
Proof. unfold base_fee. preserve. Qed.
Lemma frame_time_bounds tx : preserves P (assertStrictTimeBounds tx).
Proof. unfold assertStrictTimeBounds. preserve. Qed.
Lemma frame_build updates memo pk k fee : preserves P (build_prices updates memo pk k fee).
Proof. unfold build_prices. preserve. Qed.
Lemma frame_after e : preserves P (after_failure e).
Proof. unfold after_failure, getPublicKey, sync_sequence, report. preserve. Qed.
Lemma frame_pause e :
  preserves P (if shouldRecycleImmediately (X := X) e then ret tt else at_world (sw_sleep RETRY_DELAY_MS)).
Proof. preserve. Qed.
Lemma frame_race tx pending : preserves P (race tx pending).
Proof.
  unfold race. apply preserves_bind; [auto with sf|]. intros s.
  apply preserves_bind; [apply (fr_submit P Hf)|]. intros [late answer]. unfold report. preserve.
Qed.
Lemma frame_confirm server h proposal k : preserves P (confirm_proposal server h proposal k).
Proof.
  induction k as [|k IH]; simpl; [auto with sf|].
  apply preserves_bind; [apply frame_rpc, (fr_status P Hf)|]. preserve.
Qed.
End frame.

(** ** Nothing is signed under lockdown *)
Section locked.
Context (P : state → Prop) (Hf : frame P).
Context (Hlock : ∀ s, P s → wp (at_lockdown (assertSigningAllowed JSON_parse)) (λ _ _, False) (λ _, P) s).

Lemma locked_loop updates memo countersign fee remaining k s : P s →
  wp (submit_loop JSON_parse (build_prices updates memo) countersign fee remaining k)
    (λ _ _, False) (λ _, P) s.
Proof.
  assert (∀ k s, P s →
    wp (submission_attempt JSON_parse (build_prices updates memo) countersign fee k) (λ _ _, False) (λ _, P) s) as Ha.
  { intros j s1 Hs1. unfold submission_attempt, getPublicKey.
    apply wp_bind. eapply wp_mono; [exact (frame_server P Hf s1 Hs1)| |done]. intros ? s2 Hs2.
    apply wp_bind. eapply wp_mono; [exact (fr_key P Hf s2 Hs2)| |done]. intros pk s3 Hs3.
    apply wp_bind. eapply wp_mono; [exact (frame_next P Hf pk s3 Hs3)| |done]. intros m s4 Hs4.
    apply wp_bind. eapply wp_mono; [exact (frame_build P updates memo pk m _ s4 Hs4)| |done]. intros tx s5 Hs5.
    apply wp_bind. eapply wp_mono; [exact (frame_time_bounds P tx s5 Hs5)| |done]. intros ? s6 Hs6.
    apply wp_bind. by eapply wp_mono; [exact (Hlock s6 Hs6)|done|done]. }
  revert k s. induction remaining as [|remaining IH]; intros k s Hs; simpl; apply wp_try_catch;
    (eapply wp_mono; [exact (Ha k s Hs)|done|]); intros e s1 Hs1; apply wp_bind;
    (eapply wp_mono; [exact (frame_after P Hf e s1 Hs1)| |done]); intros ? s2 Hs2; [by apply wp_throw|].
  case_match; [|by apply wp_throw]. apply wp_bind.
  eapply wp_mono; [exact (frame_pause P Hf e s2 Hs2)| |done]. intros ? s3 Hs3. by apply IH.
Qed.

Lemma locked_op op s : P s → wp (run_op JSON_parse op) (λ _ _, False) (λ _, P) s.
Proof.
  intros Hs. destruct op as [c p m|u m|c p m sigs|c p]; cbn [run_op];
    unfold submitPriceUpdate, submitBatchedPriceUpdates, submitMultiSignedPriceUpdate, executeGovernanceProposal;
    try (case_decide; [by apply wp_throw|]); apply wp_bind; by eapply wp_mono; [exact (Hlock s Hs)|done|done].
Qed.
End locked.
End frames.

(** The hashes the signer was asked to sign. *)
Class SignatureLog (X : Type) `{!StellarSdk, !StellarWorld X} := {
  asked : X → list string;
  asked_key x : asked (final sw_publicKey x) = asked x;
  asked_load url a x : asked (final (sw_loadAccount url a) x) = asked x;
  asked_sleep ms x : asked (final (sw_sleep ms) x) = asked x;
  asked_fee url x : asked (final (sw_feeStats url) x) = asked x;
  asked_simulate url tx x : asked (final (sw_simulate url tx) x) = asked x;
  asked_send url tx x : asked (final (sw_send url tx) x) = asked x;
  asked_status url h x : asked (final (sw_getTransaction url h) x) = asked x;
  asked_submit url tx ms x : asked (sw_submit url tx ms x).2 = asked x;
}.

Section signing.
Context {R X : Type} `{!LockdownRedis R} `{!StellarSdk} `{!StellarWorld X} `{!SignatureLog X}.
Context (JSON_parse : string → exc jsval).
Notation state := (stellar R X).
Implicit Types s : state.

Definition locked_quiet (l : list string) s : Prop :=
  asked (st_world s) = l ∧ locked_for_good JSON_parse (st_lock s).

Lemma locked_world {A} (c : M X A) l :
  (∀ x, asked (final c x) = asked x) → preserves (locked_quiet l) (at_world c).
Proof.
  intros Hc s [Ha Hl]. specialize (Hc (st_world s)). unfold wp, at_world, final, locked_quiet in *.
  destruct (c (st_world s)) as [[a|e] x]; simpl in *; split; congruence || done.
Qed.
Lemma locked_frame l : frame (locked_quiet l).
Proof.
  split; intros; try (apply locked_world; auto using asked_key, asked_load, asked_sleep, asked_fee,
    asked_simulate, asked_send, asked_status); [|by intros s Hs|done].
  intros x. pose proof (asked_submit url tx ms x) as Hx. unfold final. by destruct (sw_submit _ _ _ x).
Qed.
Lemma locked_gate l s : locked_quiet l s →
  wp (at_lockdown (assertSigningAllowed JSON_parse)) (λ _ _, False) (λ _, locked_quiet l) s.
Proof.
  intros [Ha Hl]. pose proof (wp_locked JSON_parse (st_lock s) (λ _ _, False) Hl) as Hw.
  unfold wp, at_lockdown, assertSigningAllowed, bind in *.
  destruct (getLockdownState JSON_parse (st_lock s)) as [[st|e] k]; [|done].
  destruct Hw as [-> Hk]. simpl. by split.
Qed.

(** C17. Under lockdown nothing is signed: no call asks the signer for a signature or succeeds,
    and neither does a submission whose retries are under way when the lockdown begins. *)
Theorem nothing_signed_under_lockdown s :
  locked_for_good JSON_parse (st_lock s) →
  (∀ op, is_ok (outcome (run_op JSON_parse op) s) = false ∧
     asked (st_world (final (run_op JSON_parse op) s)) = asked (st_world s)) ∧
  (∀ updates memo countersign fee remaining k,
     let '(r, s') := submit_loop JSON_parse (build_prices updates memo) countersign fee remaining k s in
     is_ok r = false ∧ asked (st_world s') = asked (st_world s)).
Proof.
  intros Hl. assert (locked_quiet (asked (st_world s)) s) as Hs by done. split.
  - intros op. pose proof (locked_op JSON_parse _ (locked_gate _) op s Hs) as Hw.
    unfold wp, outcome, final in *. destruct (run_op JSON_parse op s) as [[h|e] s']; [done|].
    split; [done|apply Hw].
  - intros updates memo countersign fee remaining k.
    pose proof (locked_loop JSON_parse _ (locked_frame _) (locked_gate _) updates memo countersign fee remaining k s Hs) as Hw.
    unfold wp in Hw. destruct (submit_loop _ _ _ _ _ _ s) as [[h|e] s']; [done|]. split; [done|apply Hw].
Qed.
End signing.

(** ** Pending transactions *)
Section pending.
Context {R X : Type} `{!LockdownRedis R} `{!StellarSdk} `{!StellarWorld X}.
Context (JSON_parse : string → exc jsval).
Notation state := (stellar R X).
Implicit Types s : state.

(** All entries but that of [skip] are among [m]. *)
Definition pending_in (skip : option string) (m : gmap string PendingTimeBoundTransaction) s : Prop :=
  match skip with
  | Some h => delete h (st_pending s) ⊆ m
  | None => st_pending s ⊆ m
  end.

Lemma pending_world {A} (c : M X A) skip m : preserves (pending_in skip m) (at_world (R := R) c).
Proof. intros s Hs. unfold wp, at_world. by destruct (c (st_world s)) as [[a|e] x]. Qed.
Lemma pending_frame skip m : frame (R := R) (pending_in skip m).
Proof.
  split; intros; try apply pending_world; [|done].
  intros s Hs. apply wp_modify. unfold pending_in in *. destruct skip as [h'|]; simpl.
  - rewrite delete_delete. etrans; [apply delete_subseteq|done].
  - etrans; [apply delete_subseteq|done].
Qed.
Lemma pending_lockdown {A} (c : M (app_state R) A) skip m : preserves (pending_in skip m) (at_lockdown (X := X) c).
Proof. intros s Hs. unfold wp, at_lockdown. by destruct (c (st_lock s)) as [[a|e] l]. Qed.

#[local] Hint Resolve pending_world pending_lockdown : sf.

Lemma pending_submit tx pk m : preserves (pending_in None m) (submitWithTimeoutListener (R := R) tx pk).
Proof.
  intros s Hs. unfold submitWithTimeoutListener, registerPendingTimeBoundTransaction.
  apply wp_bind, wp_bind, wp_get, wp_bind, wp_modify, wp_ret, wp_bind, wp_attempt.
  set (pending := mkPendingTx _ _ _ _). set (s1 := mkStellar _ _ _ _ _ _).
  assert (pending_in (Some (tx_hash tx)) m s1) as Hs1.
  { unfold pending_in, s1. simpl. rewrite delete_insert_eq. etrans; [apply delete_subseteq|exact Hs]. }
  eapply wp_mono; [exact (frame_race _ (pending_frame _ _) tx pending s1 Hs1)| |]; simpl;
    intros ? s2 Hs2; apply wp_bind, wp_modify, wp_lift_exc; intros ? _; exact Hs2.
Qed.

Lemma pending_loop updates memo countersign fee remaining k m :
  preserves (pending_in None m) (submit_loop JSON_parse (build_prices updates memo) countersign fee remaining k).
Proof.
  pose proof (pending_frame None m) as Hf.
  assert (∀ k, preserves (pending_in None m)
    (submission_attempt JSON_parse (build_prices updates memo) countersign fee k)) as Ha.
  { intros j. unfold submission_attempt, getPublicKey.
    repeat (apply preserves_bind; [first [apply (frame_server _ Hf)|apply pending_world|apply (frame_next _ Hf)
      |apply frame_build|apply frame_time_bounds|apply pending_lockdown|apply preserves_lift_exc]|intros ?]).
    apply pending_submit. }
  revert k. induction remaining as [|remaining IH]; intros k; simpl; (apply preserves_try_catch; [apply Ha|]);
    intros e; (apply preserves_bind; [apply (frame_after _ Hf)|intros _]); [auto with sf|].
  case_match; [|auto with sf]. apply preserves_bind; [apply (frame_pause _ Hf)|intros _; apply IH].
Qed.

#[local] Hint Resolve pending_loop : sf.

(** No call leaves an entry of its own behind in the map of pending transactions, whether it
    completes, fails or loses the race against its timer. *)
Theorem no_pending_left op s : st_pending (final (run_op JSON_parse op) s) ⊆ st_pending s.
Proof.
  pose proof (pending_frame None (st_pending s)) as Hf.
  apply (preserves_final (pending_in None (st_pending s))); [|unfold pending_in; reflexivity].
  pose proof (frame_base_fee _ Hf). pose proof (frame_next _ Hf). pose proof (frame_fee _ Hf).
  pose proof (frame_rpc_server _ Hf). pose proof (frame_confirm _ Hf).
  assert (∀ A (c : M X A), preserves (pending_in None (st_pending s)) (rpc_call c)) by
    (intros A c; apply (frame_rpc _ Hf), pending_world).
  destruct op as [c p m|u m|c p m sigs|c p]; cbn [run_op];
    unfold submitPriceUpdate, submitBatchedPriceUpdates, submitMultiSignedPriceUpdate, executeGovernanceProposal,
      submitTransactionWithRetries, submitMultiSignedTransaction, getPublicKey; preserve.
Qed.
End pending.

(** ** A network for the witnesses *)

Record sample_tx := mkSampleTx {
  sx_sequence : Z;
  sx_maxTime : Z;
  sx_entries : list (string * string);
  sx_signatures : list (string * string);
}.

#[export] Program Instance sample_sdk : StellarSdk := {|
  Tx := sample_tx;
  build _ n _ ops _ timeout now := Ok (mkSampleTx (n + 1) (now / 1000 + timeout) ops []);
  build_call _ n _ contract proposal timeout now :=
    Ok (mkSampleTx (n + 1) (now / 1000 + timeout) [(contract, proposal)] []);
  assemble tx _ := Ok tx;
  tx_sequence := sx_sequence;
  tx_maxTime tx := Some (sx_maxTime tx);
  tx_hash tx := "tx-" +:+ pretty (sx_sequence tx);
  tx_push tx k s := mkSampleTx (sx_sequence tx) (sx_maxTime tx) (sx_entries tx) (sx_signatures tx ++ [(k, s)]);
  valid_key _ := true;
|}.
Next Obligation. by intros ????????[= <-]. Qed.
Next Obligation. by intros ????????[= <-]. Qed.
Next Obligation. by intros ???[= <-]. Qed.
Next Obligation. by intros ????????[= <-]. Qed.
Next Obligation. done. Qed.
Next Obligation. done. Qed.

(** What the node does with the next transaction: apply it if it has the next number; refuse
    it with a code; apply it but lose the answer; not answer in time. *)
Inductive reply := Accept | Refuse (code : string) | LoseAnswer | NoAnswer | Unreachable.

Record net := mkNet {
  nt_ledger : Z;
  nt_replies : list reply;
  nt_asked : list string;
}.

Definition refusal (code : string) : js_error :=
  mk_error "Request failed with status code 400" (Some code) (Some (Some 400)).
Definition aborted : js_error := mk_error "timeout of 60000ms exceeded" (Some "ECONNABORTED") (Some None).
Definition refused_connection : js_error := mk_error "connect ECONNREFUSED" (Some "ECONNREFUSED") (Some None).

Definition net_submit (tx : sample_tx) (x : net) : (bool * exc string) * net :=
  let hash := "tx-" +:+ pretty (sx_sequence tx) in
  let matches := bool_decide (sx_sequence tx = nt_ledger x + 1) in
  let rest := tail (nt_replies x) in
  let applied := mkNet (nt_ledger x + 1) rest (nt_asked x) in
  let ignored := mkNet (nt_ledger x) rest (nt_asked x) in
  match default Accept (head (nt_replies x)) with
  | Accept => if matches then ((false, Ok hash), applied) else ((false, Throw (refusal "tx_bad_seq")), ignored)
  | Refuse code => ((false, Throw (refusal code)), ignored)
  | LoseAnswer => if matches then ((false, Throw aborted), applied) else ((false, Throw aborted), ignored)
  | NoAnswer => ((true, Throw aborted), ignored)
  | Unreachable => ((false, Throw refused_connection), ignored)
  end.

#[export] Instance net_world : StellarWorld net := {|
  sw_now _ := 1700000000000;
  sw_sleep _ := ret tt;
  sw_publicKey := ret "GSOURCE";
  sw_sign h := λ x, (Ok "signature", mkNet (nt_ledger x) (nt_replies x) (nt_asked x ++ [h]));
  sw_feeStats _ := ret "150";
  sw_loadAccount _ _ := λ x, (Ok (nt_ledger x), x);
  sw_submit _ tx _ := net_submit tx;
  sw_simulate _ _ := ret JNull;
  sw_send _ tx := λ x, (Ok "hash", if bool_decide (sx_sequence tx = nt_ledger x + 1)
                                   then mkNet (nt_ledger x + 1) (nt_replies x) (nt_asked x) else x);
  sw_getTransaction _ _ := ret "SUCCESS";
  result_code e := match err_axios e with Some (Some _) => err_code e | _ => None end;
|}.

#[export] Program Instance net_ledger : AccountLedger net "GSOURCE" := {| ledger := nt_ledger |}.
Next Obligation. split; [done|]. by intros k [= <-]. Qed.
Next Obligation. split; [done|]. by intros n [= <-]. Qed.
Next Obligation. done. Qed.
Next Obligation. done. Qed.
Next Obligation. done. Qed.
Next Obligation. done. Qed.
Next Obligation. done. Qed.
Next Obligation.
  intros ? tx ? x. simpl. unfold net_submit.
  destruct (default Accept (head (nt_replies x))); try (right; done);
    case_bool_decide; (left; by split) || (right; by split).
Qed.
Next Obligation. intros ? tx x. unfold final. simpl. case_bool_decide; [right|left]; done. Qed.

#[export] Program Instance net_log : SignatureLog net := {| asked := nt_asked |}.
Solve Obligations with done.
Next Obligation. intros ? tx x. unfold final. simpl. by case_bool_decide. Qed.
Next Obligation.
  intros ? tx ? x. simpl. unfold net_submit. destruct (default Accept (head (nt_replies x))); simpl; by try case_bool_decide.
Qed.

Definition sample_stellar (locked : LockdownState) (sequences : gmap string Z) (ledger : Z) (replies : list reply) :
    stellar (bool * gmap string string) net :=
  mkStellar (provider_constructor (buildHorizonUrls TESTNET None) (buildRpcUrls TESTNET None None) None None None)
    sequences (app false locked locked) "https://horizon-testnet.stellar.org" ∅ (mkNet ledger replies []).
Definition kes_update : stellar_op := PriceUpdate "KES" (num_of_Z 129) "SF-KES-1700000000-001".
Definition kes_builder := build_prices (R := bool * gmap string string) (X := net) [("KES", num_of_Z 129)] "memo".

(** The fee of the first transaction is too low. *)
Definition fee_too_low : stellar (bool * gmap string string) net :=
  sample_stellar unlocked_state {["GSOURCE" := 40]} 41 [Refuse "tx_insufficient_fee"].

Lemma rejected_once_stranded_witness :
  is_ok (outcome (submitTransactionWithRetries parse_two kes_builder 3 (Some 150)) fee_too_low) = false ∧
  Forall (λ a, is_price a.1 = true → is_ok a.2 = false)
    (run_ops parse_two [kes_update; kes_update]
       (final (submitTransactionWithRetries parse_two kes_builder 3 (Some 150)) fee_too_low)).1.
Proof.
  assert (is_ok (outcome (submission_attempt parse_two kes_builder (λ _ tx, tx) (Some 150) 0) fee_too_low) = false)
    as Hr by (vm_compute; reflexivity).
  assert (st_sequences (final (submission_attempt parse_two kes_builder (λ _ tx, tx) (Some 150) 0) fee_too_low)
    !! "GSOURCE" = Some 41) as Hn by (vm_compute; reflexivity).
  assert (nt_ledger (st_world (final (submission_attempt parse_two kes_builder (λ _ tx, tx) (Some 150) 0) fee_too_low))
    = 41) as HL by (vm_compute; reflexivity).
  unfold outcome, final in *.
  destruct (submission_attempt parse_two kes_builder (λ _ tx, tx) (Some 150) 0 fee_too_low) as [[h|e] s1] eqn:Ea;
    [discriminate Hr|].
  pose proof (rejected_once_stranded parse_two "GSOURCE" kes_builder (Some 150) 3 e (Some 40) 41 fee_too_low s1
    (conj eq_refl eq_refl) (or_intror eq_refl) (build_prices_ok "GSOURCE" _ _) Ea (conj Hn HL)) as A.
  destruct (submitTransactionWithRetries parse_two kes_builder 3 (Some 150) fee_too_low) as [r s'].
  destruct A as [A1 A2]. exact (conj A1 (A2 [kes_update; kes_update])).
Defined.

(** The answer to the first transaction is lost: the retry applies the price a second time. *)
Definition answer_lost : stellar (bool * gmap string string) net :=
  sample_stellar unlocked_state {["GSOURCE" := 40]} 41 [LoseAnswer].

Lemma price_applied_at_most_four_times_witness :
  is_ok (outcome (run_op parse_two kes_update) answer_lost) = true ∧
  nt_ledger (st_world (final (run_op parse_two kes_update) answer_lost)) = 43 ∧
  in_step (st_sequences (final (run_op parse_two kes_update) answer_lost) !! "GSOURCE") 43.
Proof.
  assert (is_ok (outcome (run_op parse_two kes_update) answer_lost) = true) as Hr by (vm_compute; reflexivity).
  assert (nt_ledger (st_world (final (run_op parse_two kes_update) answer_lost)) = 43) as HL
    by (vm_compute; reflexivity).
  split; [exact Hr|]. split; [exact HL|]. rewrite <-HL.
  pose proof (price_applied_at_most_four_times parse_two "GSOURCE" kes_update (Some 40) 41 answer_lost
    eq_refl (conj eq_refl eq_refl) (or_intror eq_refl)) as A.
  unfold outcome, final in *. destruct (run_op parse_two kes_update answer_lost) as [r s'].
  exact (proj2 (proj2 A Hr)).
Defined.

Lemma account_number_sound_witness :
  sound "GSOURCE" (run_ops parse_two [kes_update; GovernanceProposal "C" "7"] answer_lost).2.
Proof.
  apply (account_number_sound parse_two "GSOURCE" [kes_update; GovernanceProposal "C" "7"]).
  exists (Some 40), 41. split; [split; reflexivity|left; right; reflexivity].
Defined.

(** With the two nodes of the test network. *)
Definition node_down : stellar (bool * gmap string string) net :=
  sample_stellar unlocked_state {["GSOURCE" := 40]} 41 [Unreachable].

Lemma failed_submission_moves_two_nodes_witness :
  current_node (final (try_catch (submitWithTimeoutListener (mkSampleTx 42 1700000015 [] []) "GSOURCE")
    (λ e, after_failure e ;;; throw e)) node_down) = "https://horizon-testnet.stellar.org".
Proof.
  assert (result_code (X := net) refused_connection ≠ Some "tx_bad_seq") as Hc by (vm_compute; discriminate).
  pose proof (failed_submission_moves_two_nodes (mkSampleTx 42 1700000015 [] []) "GSOURCE" refused_connection
    (mkNet 41 [] []) node_down eq_refl eq_refl eq_refl Hc (le_n 2) (le_S 1 1 (le_n 1))) as A.
  unfold final. destruct (try_catch _ _ node_down) as [r s']. exact (proj2 (proj2 A) eq_refl).
Defined.

Lemma nothing_signed_under_lockdown_witness :
  nt_asked (st_world (final (run_op parse_two kes_update) (sample_stellar locked_state ∅ 41 []))) = [].
Proof.
  assert (locked_for_good parse_two (st_lock (sample_stellar locked_state ∅ 41 []))) as Hl.
  { split; [reflexivity|]. intros txt v Hk Hp. simpl in Hk.
    rewrite lookup_singleton_eq in Hk. injection Hk as <-. unfold parse_two in Hp.
    rewrite decide_True in Hp by reflexivity. injection Hp as <-. vm_compute. reflexivity. }
  exact (proj2 (proj1 (nothing_signed_under_lockdown parse_two _ Hl) kes_update)).
Defined.
