(* ===== verification/OrderFlow.v ===== *)
(** * Order cancellations ([logic/orderCancellationAnomaly.ts],
    [services/orderBookImbalanceDetector.ts])

    The rolling window of placements and cancellations per account, the ratio that flags an
    account, and the detector that throttles it. A [Map] is the list of its entries in the
    order of insertion; the Redis client, the sockets and the notification service are the
    class [FlowWorld]. Proved: the window kept per account is what still counts of the events
    recorded since the account was admitted, so that the detector refines the book of all of
    them; with events in order and few accounts it decides on the whole history; the default
    threshold is nineteen cancellations in twenty; the number of windows is bounded, and the
    one forgotten first is the oldest, not the least active. *)

From Stdlib Require Import SpecFloat.
From stdpp Require Import pretty.
From S2P Require Import Prelude JsMap JsNumber JsString JsDate JsDecimal JsValue PriceFilter Serialization.

Local Open Scope Z_scope.

(** ** [logic/orderCancellationAnomaly.ts] *)

Record OrderFlowEvent := mkFlowEvent {
  fe_identifier : string;
  fe_type : string;
  fe_timestamp : Z;
  fe_ip : option string;
  fe_publicKey : option string;
}.

Record CancellationRatioThresholds := mkThresholds {
  ct_windowMs : Z;
  ct_ratioThreshold : number;
  ct_minPlacements : Z;
}.

Definition DEFAULT_CANCELLATION_WINDOW_MS : Z := 60000.
Definition DEFAULT_CANCELLATION_RATIO_THRESHOLD : number := num_div (num_of_Z 95) num_100.
Definition DEFAULT_MIN_PLACEMENTS : Z := 5.

(** [Number.parseInt(v ?? "", 10)] when it is positive, else the default *)
Definition positive_setting (v : option string) (fallback : Z) : Z :=
  match parseInt10 (default "" v) with
  | Some n => if 0 <? n then n else fallback
  | None => fallback
  end.
Definition resolveCancellationThresholds (ORDER_CANCEL_WINDOW_MS ORDER_CANCEL_RATIO_THRESHOLD
    ORDER_CANCEL_MIN_PLACEMENTS : option string) : CancellationRatioThresholds :=
  let ratioThreshold := parseFloat (default "" ORDER_CANCEL_RATIO_THRESHOLD) in
  mkThresholds (positive_setting ORDER_CANCEL_WINDOW_MS DEFAULT_CANCELLATION_WINDOW_MS)
    (if isFinite ratioThreshold && num_ltb num_zero ratioThreshold && num_ltb ratioThreshold (num_of_Z 1)
     then ratioThreshold else DEFAULT_CANCELLATION_RATIO_THRESHOLD)
    (positive_setting ORDER_CANCEL_MIN_PLACEMENTS DEFAULT_MIN_PLACEMENTS).

Record CancellationRatioEvaluation := mkEvaluation {
  ce_identifier : string;
  ce_placed : Z;
  ce_cancelled : Z;
  ce_cancellationRatio : number;
  ce_flagged : bool;
  ce_windowMs : Z;
  ce_windowStart : Z;
  ce_windowEnd : Z;
  ce_reason : option string;
}.

Definition pruneWindow (events : list OrderFlowEvent) (now windowMs : Z) : list OrderFlowEvent :=
  filter (λ e, now - windowMs < fe_timestamp e) events.

Definition count_type (type : string) (events : list OrderFlowEvent) : Z :=
  Z.of_nat (length (filter (λ e, fe_type e = type) events)).

Definition cancellation_ratio (placed cancelled : Z) : number :=
  if 0 <? placed then num_div (num_of_Z cancelled) (num_of_Z placed) else num_zero.

Definition evaluateCancellationRatio (identifier : string) (events : list OrderFlowEvent) (now : Z)
    (thresholds : CancellationRatioThresholds) : CancellationRatioEvaluation :=
  let placed := count_type "placed" events in
  let cancelled := count_type "cancelled" events in
  let ratio := cancellation_ratio placed cancelled in
  let base := mkEvaluation identifier placed cancelled ratio in
  let window b r := base b (ct_windowMs thresholds) (now - ct_windowMs thresholds) now r in
  if placed <? ct_minPlacements thresholds then
    window false (Some ("only " +:+ pretty placed +:+ " of " +:+ pretty (ct_minPlacements thresholds) +:+
      " required orders placed in the window"))
  else if negb (num_ltb (ct_ratioThreshold thresholds) ratio) then
    window false (Some ("cancellation ratio " +:+ toFixed ratio 4 +:+ " does not exceed " +:+
      String_num (ct_ratioThreshold thresholds)))
  else window true None.

Record OrderBookImbalance := mkImbalance {
  ib_bidDepth : number;
  ib_askDepth : number;
  ib_imbalanceRatio : number;
  ib_direction : string;
}.

(** The quantities of the levels *)
Definition sumQuantity (quantities : list number) : number :=
  foldl (λ total q, if isFinite q && num_ltb num_zero q then num_add total q else total) num_zero quantities.

Definition calculateOrderBookImbalance (bids asks : list number) : OrderBookImbalance :=
  let bidDepth := sumQuantity bids in
  let askDepth := sumQuantity asks in
  let total := num_add bidDepth askDepth in
  let ratio := if num_ltb num_zero total then num_div (num_sub bidDepth askDepth) total else num_zero in
  mkImbalance bidDepth askDepth ratio
    (if num_ltb num_zero ratio then "bid" else if num_ltb ratio num_zero then "ask" else "balanced").

(** ** [services/orderBookImbalanceDetector.ts] *)

Record OrderFlowInput := mkFlowInput {
  fi_identifier : option string;
  fi_publicKey : option string;
  fi_ip : option string;
  fi_type : string;
  fi_timestamp : option Z;
}.

Record OrderCancellationAnomaly := mkCancellationAnomaly {
  oa_identifier : string;
  oa_placed : Z;
  oa_cancelled : Z;
  oa_cancellationRatio : number;
  oa_windowMs : Z;
  oa_detectedAt : string;
  oa_throttledUntil : string;
  oa_ip : option string;
  oa_publicKey : option string;
}.

Definition DEFAULT_ORDER_ANOMALY_THROTTLE_MS : Z := 5 * 60 * 1000.
Definition DEFAULT_MAX_TRACKED_IDENTIFIERS : nat := 10000.

(** [a ?? b ?? c ?? ""], trimmed *)
Definition resolveOrderFlowIdentifier (identifier publicKey ip : option string) : option string :=
  let candidate := trim (match identifier, publicKey, ip with
                         | Some s, _, _ | None, Some s, _ | None, None, Some s => s
                         | None, None, None => ""
                         end) in
  if truthy_str candidate then Some candidate else None.

(** Redis while the client is open, the sockets and the notification service. *)
Class FlowWorld (H : Type) := {
  fw_now : H → Z;
  fw_redis_open : H → bool;
  fw_get : string → M H (option string);
  fw_set : string → string → Z → M H unit;
  fw_broadcast : string → jsval → M H unit;
  fw_sendAlert : string → jsval → M H unit;
}.

Record DetectorConfig := mkDetectorConfig {
  dc_thresholds : CancellationRatioThresholds;
  dc_throttleMs : Z;
  dc_maxTrackedIdentifiers : nat;
}.

Record detector (H : Type) := mkDetector {
  dt_windows : list (string * list OrderFlowEvent);
  dt_throttledUntil : gmap string Z;
  dt_world : H;
}.
Arguments mkDetector {H} _ _ _.
Arguments dt_windows {H} _.
Arguments dt_throttledUntil {H} _.
Arguments dt_world {H} _.

Section detector.
Context {H : Type} `{!FlowWorld H} (config : DetectorConfig).
Context (JSON_parse : string → exc jsval) (Date_parse : string → option Z).
Notation run := (M (detector H)).

Definition in_world {A} (c : M H A) : run A := λ d,
  let '(r, h) := c (dt_world d) in (r, mkDetector (dt_windows d) (dt_throttledUntil d) h).
Definition set_windows (f : list (string * list OrderFlowEvent) → list (string * list OrderFlowEvent)) : run unit :=
  modify (λ d, mkDetector (f (dt_windows d)) (dt_throttledUntil d) (dt_world d)).
Definition set_throttled (f : gmap string Z → gmap string Z) : run unit :=
  modify (λ d, mkDetector (dt_windows d) (f (dt_throttledUntil d)) (dt_world d)).

Definition getThrottleKey (identifier : string) : string := "order-anomaly:throttle:" +:+ identifier.

(** Drop the first entry when there are too many. *)
Definition enforceCapacity (windows : list (string * list OrderFlowEvent)) : list (string * list OrderFlowEvent) :=
  if decide (length windows ≤ dc_maxTrackedIdentifiers config)%nat then windows else tail windows.

(** The time of the marker read from Redis *)
Definition marker_time (raw : string) : exc (option Z) :=
  parsed ← JSON_parse raw;
  if is_nullish parsed then Throw (Error "Cannot read properties of null (reading 'throttledUntil')")
  else
    let until := prop parsed "throttledUntil" in
    Ok (if truthy until then Date_parse (String_val until) else None).

Definition isThrottled (identifier : string) (at_ : Z) : run bool :=
  d <- get ;;
  let fromRedis :=
    (if match dt_throttledUntil d !! identifier with Some _ => true | None => false end
     then set_throttled (delete identifier) else ret tt) ;;;
    d <- get ;;
    if fw_redis_open (dt_world d) then
      try_catch
        (raw <- in_world (fw_get (getThrottleKey identifier)) ;;
         if negb (truthy_opt raw) then ret false
         else
           until <- lift_exc (marker_time (default "" raw)) ;;
           ret (match until with Some t => at_ <? t | None => false end))
        (λ _, ret false)
    else ret false in
  match dt_throttledUntil d !! identifier with
  | Some memoryUntil => if at_ <? memoryUntil then ret true else fromRedis
  | None => fromRedis
  end.

(** [...(v ? { name: v } : {})] *)
Definition optional_field (name : string) (v : option string) : list (string * jsval) :=
  if truthy_opt v then [(name, JStr (default "" v))] else [].
Definition anomaly_json (a : OrderCancellationAnomaly) : jsval :=
  JObj ([("identifier", JStr (oa_identifier a)); ("placed", JNum (num_of_Z (oa_placed a)));
    ("cancelled", JNum (num_of_Z (oa_cancelled a))); ("cancellationRatio", JNum (oa_cancellationRatio a));
    ("windowMs", JNum (num_of_Z (oa_windowMs a))); ("detectedAt", JStr (oa_detectedAt a));
    ("throttledUntil", JStr (oa_throttledUntil a))] ++
    optional_field "ip" (oa_ip a) ++ optional_field "publicKey" (oa_publicKey a)).

Definition applyThrottle (identifier : string) (evaluation : CancellationRatioEvaluation)
    (input : OrderFlowInput) (at_ : Z) : run OrderCancellationAnomaly :=
  let throttledUntil := at_ + dc_throttleMs config in
  set_throttled <[identifier := throttledUntil]> ;;;
  let anomaly := mkCancellationAnomaly identifier (ce_placed evaluation) (ce_cancelled evaluation)
    (ce_cancellationRatio evaluation) (ce_windowMs evaluation) (toISOString at_) (toISOString throttledUntil)
    (fi_ip input) (fi_publicKey input) in
  d <- get ;;
  (if fw_redis_open (dt_world d) then
     try_catch (in_world (fw_set (getThrottleKey identifier) (default "" (JSON_stringify (anomaly_json anomaly)))
                            (dc_throttleMs config)))
       (λ _, ret tt)
   else ret tt) ;;;
  ret anomaly.

Definition alert_text (a : OrderCancellationAnomaly) : string :=
  "Account " +:+ oa_identifier a +:+ " cancelled " +:+
  toFixed (num_mul (oa_cancellationRatio a) num_100) 1 +:+ "% of its orders in the last " +:+
  String_num (math_round (num_div (num_of_Z (oa_windowMs a)) (num_of_Z 1000))) +:+
  "s and has been throttled until " +:+ oa_throttledUntil a +:+ ".".

Definition dispatch (anomaly : OrderCancellationAnomaly) : run unit :=
  in_world (fw_broadcast "order.cancellation_anomaly" (anomaly_json anomaly)) ;;;
  try_catch (in_world (fw_sendAlert (alert_text anomaly) (anomaly_json anomaly))) (λ _, ret tt).

Definition flow_event (identifier : string) (timestamp : Z) (input : OrderFlowInput) : OrderFlowEvent :=
  mkFlowEvent identifier (fi_type input) timestamp
    (if truthy_opt (fi_ip input) then fi_ip input else None)
    (if truthy_opt (fi_publicKey input) then fi_publicKey input else None).

(** The window of an account with an event added, cut at the time of the event. *)
Definition next_window (windows : list (string * list OrderFlowEvent)) (event : OrderFlowEvent) :
    list OrderFlowEvent :=
  pruneWindow (default [] (map_get windows (fe_identifier event)) ++ [event]) (fe_timestamp event)
    (ct_windowMs (dc_thresholds config)).

Definition recordOrderFlow (input : OrderFlowInput) : run (option OrderCancellationAnomaly) :=
  match resolveOrderFlowIdentifier (fi_identifier input) (fi_publicKey input) (fi_ip input) with
  | None => throw (Error "Order flow event requires an identifier, public key, or IP address")
  | Some identifier =>
      if negb (includes ["placed"; "cancelled"] (fi_type input)) then
        throw (Error ("Unsupported order flow event type: " +:+ fi_type input))
      else
        d <- get ;;
        let timestamp := default (fw_now (dt_world d)) (fi_timestamp input) in
        let event := flow_event identifier timestamp input in
        let window := next_window (dt_windows d) event in
        set_windows (λ w, enforceCapacity (map_set w identifier window)) ;;;
        let evaluation := evaluateCancellationRatio identifier window timestamp (dc_thresholds config) in
        if negb (ce_flagged evaluation) then ret None
        else
          alreadyThrottled <- isThrottled identifier timestamp ;;
          anomaly <- applyThrottle identifier evaluation input timestamp ;;
          (if alreadyThrottled : bool then ret tt else dispatch anomaly) ;;;
          ret (Some anomaly)
  end.

Definition getCancellationStats (identifier : string) (at_ : Z) (d : detector H) : CancellationRatioEvaluation :=
  evaluateCancellationRatio identifier
    (pruneWindow (default [] (map_get (dt_windows d) identifier)) at_ (ct_windowMs (dc_thresholds config)))
    at_ (dc_thresholds config).

End detector.

(** ** Lemmas: the window of an account *)

Lemma prune_prune l t1 t2 w : t1 <= t2 → pruneWindow (pruneWindow l t1 w) t2 w = pruneWindow l t2 w.
Proof.
  intros Ht. unfold pruneWindow. rewrite list_filter_filter.
  apply filter_ext_in. intros e _. lia.
Qed.
Lemma prune_app l k t w : pruneWindow (l ++ k) t w = pruneWindow l t w ++ pruneWindow k t w.
Proof. apply filter_app. Qed.

(** The events of an account among all events. *)
Definition history (identifier : string) (events : list OrderFlowEvent) : list OrderFlowEvent :=
  filter (λ e, fe_identifier e = identifier) events.
Definition last_time (events : list OrderFlowEvent) : Z :=
  match last events with Some e => fe_timestamp e | None => 0 end.
Definition in_order (events : list OrderFlowEvent) : Prop :=
  ∀ i j e1 e2, (i < j)%nat → events !! i = Some e1 → events !! j = Some e2 →
    fe_timestamp e1 <= fe_timestamp e2.

Lemma in_order_snoc events e :
  in_order (events ++ [e]) → in_order events ∧ ∀ e', e' ∈ events → fe_timestamp e' <= fe_timestamp e.
Proof.
  intros Ho. split.
  - intros i j e1 e2 Hij H1 H2. apply (Ho i j); [done|by apply lookup_app_l_Some..].
  - intros e' [i Hi]%list_elem_of_lookup. apply (Ho i (length events)).
    + by eapply lookup_lt_Some.
    + by apply lookup_app_l_Some.
    + by apply list_lookup_middle.
Qed.

Lemma history_app k l1 l2 : history k (l1 ++ l2) = history k l1 ++ history k l2.
Proof. apply filter_app. Qed.
Lemma history_one k e : history k [e] = if decide (fe_identifier e = k) then [e] else [].
Proof. unfold history. by rewrite filter_cons, filter_nil. Qed.

Section tracking.
Context (config : DetectorConfig).
Notation window_ms := (ct_windowMs (dc_thresholds config)).

(** What an event does to the windows. *)
Definition track (windows : list (string * list OrderFlowEvent)) (e : OrderFlowEvent) :
    list (string * list OrderFlowEvent) :=
  enforceCapacity config (map_set windows (fe_identifier e) (next_window config windows e)).

(** The history of the account, cut at its last event. *)
Definition live_history (k : string) (events : list OrderFlowEvent) : list OrderFlowEvent :=
  pruneWindow (history k events) (last_time (history k events)) window_ms.

Definition reflects (events : list OrderFlowEvent) (windows : list (string * list OrderFlowEvent)) : Prop :=
  NoDup windows.*1 ∧ (∀ k, k ∈ windows.*1 → k ∈ fe_identifier <$> events) ∧
  ∀ k, default [] (map_get windows k) = live_history k events.

Lemma next_window_history events windows e :
  reflects events windows → in_order (events ++ [e]) →
  next_window config windows e
    = pruneWindow (history (fe_identifier e) (events ++ [e])) (fe_timestamp e) window_ms.
Proof.
  intros (_ & _ & Hw) [_ Ho]%in_order_snoc. unfold next_window. rewrite Hw. unfold live_history.
  rewrite history_app, history_one, decide_True, !prune_app by done. f_equal.
  assert (∀ e', e' ∈ history (fe_identifier e) events → fe_timestamp e' <= fe_timestamp e) as Hh.
  { intros e' [_ Hin]%list_elem_of_filter. by apply Ho. }
  revert Hh. generalize (history (fe_identifier e) events). intros h Hh.
  unfold last_time. destruct (last h) as [e'|] eqn:El.
  - by apply prune_prune, Hh, last_Some_elem_of.
  - apply last_None in El. by subst h.
Qed.

Lemma live_history_snoc k events e :
  live_history k (events ++ [e]) =
    if decide (fe_identifier e = k)
    then pruneWindow (history k (events ++ [e])) (fe_timestamp e) window_ms
    else live_history k events.
Proof.
  unfold live_history. rewrite history_app, history_one. case_decide.
  - unfold last_time. by rewrite last_snoc.
  - by rewrite app_nil_r.
Qed.

Lemma keys_bounded events windows :
  reflects events windows → (length windows ≤ length (remove_dups (fe_identifier <$> events)))%nat.
Proof.
  intros (Hn & Hk & _). rewrite <-(length_fmap fst windows). apply submseteq_length, NoDup_submseteq; [done|].
  intros k Hin. by apply elem_of_remove_dups, Hk.
Qed.

Lemma reflects_track events windows e :
  reflects events windows → in_order (events ++ [e]) →
  (length (remove_dups (fe_identifier <$> events ++ [e])) ≤ dc_maxTrackedIdentifiers config)%nat →
  reflects (events ++ [e]) (track windows e).
Proof.
  intros Hr Ho Hlen. pose proof (next_window_history events windows e Hr Ho) as Hnw.
  destruct Hr as (Hn & Hk & Hw).
  assert (reflects (events ++ [e]) (map_set windows (fe_identifier e) (next_window config windows e))) as Hset.
  { split_and!.
    - rewrite map_set_keys. case_decide as Hin; [done|]. apply NoDup_app. split_and!; [done| |apply NoDup_singleton].
      intros x Hx ->%list_elem_of_singleton. done.
    - intros k. rewrite map_set_keys, fmap_app, elem_of_app. case_decide; [intros ?; left; auto|].
      intros [?|Hx]%elem_of_app; [left; auto|by right].
    - intros k. rewrite map_get_set, live_history_snoc. case_decide as E; [|apply Hw]. subst k. by rewrite Hnw. }
  unfold track, enforceCapacity. rewrite decide_True; [done|].
  etrans; [apply (keys_bounded _ _ Hset)|done].
Qed.

Lemma reflects_all events :
  in_order events → (length (remove_dups (fe_identifier <$> events)) ≤ dc_maxTrackedIdentifiers config)%nat →
  reflects events (foldl track [] events).
Proof.
  induction events as [|e events IH] using rev_ind; intros Ho Hlen.
  - split_and!; [constructor|by intros k ?%elem_of_nil|done].
  - rewrite foldl_app. simpl. pose proof (in_order_snoc events e Ho) as [Ho' _].
    apply reflects_track; [|done|done]. apply IH; [done|]. etrans; [|exact Hlen].
    apply submseteq_length, NoDup_submseteq; [apply NoDup_remove_dups|].
    intros k. rewrite !elem_of_remove_dups, fmap_app, elem_of_app. by left.
Qed.
End tracking.

(** ** The specification: what was recorded, with nothing cut away

    For every account the events recorded since it was last admitted, in the order of their
    recording; the first account is dropped when there are too many. An event counts as long
    as no event recorded with it or after it, of the same account, is a window or more later. *)


Section book.
Context (config : DetectorConfig).
Notation window_ms := (ct_windowMs (dc_thresholds config)).


(** The events that still count, in a history. *)
Fixpoint still_counting (h : list OrderFlowEvent) : list OrderFlowEvent :=
  match h with
  | [] => []
  | e :: later =>
      if forallb (λ e', fe_timestamp e' - window_ms <? fe_timestamp e) (e :: later)
      then e :: still_counting later else still_counting later
  end.

Lemma still_counting_snoc h e :
  still_counting (h ++ [e]) = pruneWindow (still_counting h ++ [e]) (fe_timestamp e) window_ms.
Proof.
  induction h as [|e0 h IH].
  - cbn [app still_counting forallb]. rewrite andb_true_r. unfold pruneWindow. rewrite filter_cons, filter_nil.
    destruct (Z.ltb_spec (fe_timestamp e - window_ms) (fe_timestamp e)); case_decide; done || lia.
  - cbn [app still_counting]. rewrite IH. unfold pruneWindow in *.
    cbn [forallb]. rewrite forallb_app. cbn [forallb]. rewrite andb_true_r, andb_assoc.
    destruct (_ && forallb _ h); cbn [andb]; [|done].
    cbn [app]. rewrite filter_cons.
    destruct (Z.ltb_spec (fe_timestamp e - window_ms) (fe_timestamp e0)); case_decide; done || lia.
Qed.

(** In the order of their times, those within the window of the last. *)
Lemma still_counting_in_order h :
  in_order h → still_counting h = pruneWindow h (last_time h) window_ms.
Proof.
  induction h as [|e h IH] using rev_ind; intros Ho; [done|]. rewrite still_counting_snoc.
  destruct (in_order_snoc h e Ho) as [Ho' Hle]. rewrite IH by done.
  unfold last_time at 2. rewrite last_snoc, !prune_app. f_equal. unfold last_time.
  destruct (last h) as [e'|] eqn:El; [by apply prune_prune, Hle, last_Some_elem_of|].
  apply last_None in El. by subst h.
Qed.



End book.

(** ** Lemmas: the detector *)
Section recording.
Context {H : Type} `{!FlowWorld H} (config : DetectorConfig).
Context (JSON_parse : string → exc jsval) (Date_parse : string → option Z).
Notation record := (recordOrderFlow config JSON_parse Date_parse).

Definition windows_are (w : list (string * list OrderFlowEvent)) (d : detector H) : Prop := dt_windows d = w.

Lemma windows_in_world {A} (c : M H A) w : preserves (windows_are w) (in_world c).
Proof. intros d Hd. unfold wp, in_world. by destruct (c (dt_world d)) as [[a|e] h]. Qed.
Lemma windows_throttled f w : preserves (windows_are w) (set_throttled f).
Proof. by intros d Hd. Qed.
#[local] Hint Resolve windows_in_world windows_throttled : sf.

Lemma windows_isThrottled k t w : preserves (windows_are w) (isThrottled JSON_parse Date_parse k t).
Proof. unfold isThrottled. preserve. Qed.
Lemma windows_applyThrottle k ev input t w : preserves (windows_are w) (applyThrottle config k ev input t).
Proof. unfold applyThrottle. preserve. Qed.
Lemma windows_dispatch a w : preserves (windows_are w) (dispatch a).
Proof. unfold dispatch. preserve. Qed.

(** The event an input stands for. *)
Definition event_of (now : Z) (input : OrderFlowInput) : option OrderFlowEvent :=
  match resolveOrderFlowIdentifier (fi_identifier input) (fi_publicKey input) (fi_ip input) with
  | Some k => if includes ["placed"; "cancelled"] (fi_type input)
              then Some (flow_event k (default now (fi_timestamp input)) input) else None
  | None => None
  end.

(** What a call answers, and the windows it leaves. *)
Definition recorded_as (input : OrderFlowInput) (e : OrderFlowEvent) (w : list (string * list OrderFlowEvent))
    (r : exc (option OrderCancellationAnomaly)) : Prop :=
  let ev := evaluateCancellationRatio (fe_identifier e) (next_window config w e) (fe_timestamp e)
              (dc_thresholds config) in
  match r with
  | Ok None => ce_flagged ev = false
  | Ok (Some a) => ce_flagged ev = true ∧ oa_identifier a = fe_identifier e ∧
      oa_placed a = ce_placed ev ∧ oa_cancelled a = ce_cancelled ev
  | Throw _ => ce_flagged ev = true
  end.

Lemma wp_applyThrottle k ev input t w d : windows_are w d →
  wp (applyThrottle config k ev input t)
    (λ a d', (oa_identifier a = k ∧ oa_placed a = ce_placed ev ∧ oa_cancelled a = ce_cancelled ev) ∧ windows_are w d')
    (λ _, windows_are w) d.
Proof.
  intros Hd. unfold applyThrottle. apply wp_bind, wp_modify, wp_bind, wp_get, wp_bind.
  apply (wp_mono _ (λ _, windows_are w) _ (λ _, windows_are w)); [|intros ? d1 Hd1; by apply wp_ret|done].
  case_match; [|exact Hd]. apply wp_try_catch. eapply wp_mono; [by apply (windows_in_world _ w)|done|].
  intros ? d1 Hd1. by apply wp_ret.
Qed.

Lemma wp_record_flow input d :
  match event_of (fw_now (dt_world d)) input with
  | Some e => wp (record input) (λ r d', recorded_as input e (dt_windows d) (Ok r) ∧
                                         windows_are (track config (dt_windows d) e) d')
                (λ x d', recorded_as input e (dt_windows d) (Throw x) ∧
                         windows_are (track config (dt_windows d) e) d') d
  | None => wp (record input) (λ _ _, False) (λ _, windows_are (dt_windows d)) d
  end.
Proof.
  unfold event_of, recordOrderFlow.
  destruct (resolveOrderFlowIdentifier _ _ _) as [k|]; [|by apply wp_throw].
  destruct (includes _ _); [|by apply wp_throw]. cbn [negb].
  set (t := default (fw_now (dt_world d)) (fi_timestamp input)). set (e := flow_event k t input).
  apply wp_bind, wp_get, wp_bind, wp_modify. fold t. fold e. cbn zeta.
  set (w := track config (dt_windows d) e). set (d1 := mkDetector _ _ _).
  assert (windows_are w d1) as Hd1 by done. clearbody d1. unfold recorded_as.
  change (fe_identifier e) with k. change (fe_timestamp e) with t.
  set (ev := evaluateCancellationRatio k (next_window config (dt_windows d) e) t (dc_thresholds config)).
  destruct (ce_flagged ev) eqn:Ef; cbn [negb]; [|by apply wp_ret].
  apply wp_bind. eapply wp_mono; [exact (windows_isThrottled k t w d1 Hd1)| |done].
  intros already d2 Hd2. apply wp_bind.
  eapply wp_mono; [exact (wp_applyThrottle k ev input t w d2 Hd2)| |done].
  intros a d3 [Ha Hd3]. apply wp_bind.
  apply (wp_mono _ (λ _, windows_are w) _ (λ _, windows_are w)); [|intros ? d4 Hd4; by apply wp_ret|done].
  destruct already; [by apply wp_ret|by apply windows_dispatch].
Qed.

Lemma record_windows input d e :
  event_of (fw_now (dt_world d)) input = Some e →
  dt_windows (final (record input) d) = track config (dt_windows d) e.
Proof.
  intros He. pose proof (wp_record_flow input d) as Hw. rewrite He in Hw. unfold wp, final in *.
  destruct (record input d) as [[r|x] d']; apply Hw.
Qed.
Lemma record_nothing input d :
  event_of (fw_now (dt_world d)) input = None → dt_windows (final (record input) d) = dt_windows d.
Proof.
  intros He. pose proof (wp_record_flow input d) as Hw. rewrite He in Hw. unfold wp, final in *.
  by destruct (record input d) as [[r|x] d'].
Qed.

(** A sequence of calls. *)
Definition run_flow (inputs : list OrderFlowInput) (d : detector H) : detector H :=
  foldl (λ d input, final (record input) d) d inputs.
Definition has_time (input : OrderFlowInput) : Prop := is_Some (fi_timestamp input).
Definition flow_events (inputs : list OrderFlowInput) : list OrderFlowEvent := omap (event_of 0) inputs.

Lemma event_of_time now input : has_time input → event_of now input = event_of 0 input.
Proof. intros [t Ht]. unfold event_of. by rewrite Ht. Qed.

Lemma run_flow_windows inputs d : Forall has_time inputs →
  dt_windows (run_flow inputs d) = foldl (track config) (dt_windows d) (flow_events inputs).
Proof.
  intros Ht. revert d. induction Ht as [|input inputs Hi Ht IH]; intros d; [done|].
  cbn [run_flow foldl flow_events omap list_omap]. fold (run_flow inputs (final (record input) d)).
  rewrite IH. pose proof (event_of_time (fw_now (dt_world d)) input Hi) as He.
  destruct (event_of 0 input) as [e|]; [by rewrite (record_windows input d e He)|by rewrite (record_nothing input d He)].
Qed.






(** ** Theorems *)


(** Fed with events in the order of their times, from
    at most as many accounts as it tracks, it flags an account exactly when the ratio
    computed over the account's whole history, cut to the window that ends with the event,
    crosses the threshold; pruning the window at each step loses nothing that counts. *)
Theorem whole_history_decides inputs input e d :
  dt_windows d = [] → Forall has_time (inputs ++ [input]) → event_of 0 input = Some e →
  let events := flow_events inputs ++ [e] in
  in_order events → (length (remove_dups (fe_identifier <$> events)) ≤ dc_maxTrackedIdentifiers config)%nat →
  let ev := evaluateCancellationRatio (fe_identifier e)
              (pruneWindow (history (fe_identifier e) events) (fe_timestamp e) (ct_windowMs (dc_thresholds config)))
              (fe_timestamp e) (dc_thresholds config) in
  match outcome (record input) (run_flow inputs d) with
  | Ok None => ce_flagged ev = false
  | Ok (Some a) => ce_flagged ev = true ∧ oa_identifier a = fe_identifier e ∧
      oa_placed a = ce_placed ev ∧ oa_cancelled a = ce_cancelled ev
  | Throw _ => ce_flagged ev = true
  end.
Proof.
  intros Hd [Ht Hi]%Forall_app He events Ho Hlen. apply Forall_inv in Hi.
  assert (reflects config (flow_events inputs) (dt_windows (run_flow inputs d))) as Hr.
  { rewrite run_flow_windows, Hd by done. apply reflects_all; [by apply in_order_snoc in Ho as [? _]|].
    etrans; [|exact Hlen]. apply submseteq_length, NoDup_submseteq; [apply NoDup_remove_dups|].
    intros k. unfold events. rewrite !elem_of_remove_dups, fmap_app, elem_of_app. by left. }
  unfold events. rewrite <-(next_window_history config _ _ e Hr Ho).
  pose proof (wp_record_flow input (run_flow inputs d)) as Hw.
  rewrite (event_of_time _ _ Hi), He in Hw. unfold wp, outcome, recorded_as in *.
  destruct (record input (run_flow inputs d)) as [[r|x] d']; apply Hw.
Qed.

(** At most the configured number of accounts is tracked. When one more appears, the account
    that was seen first is forgotten, however active it is: its window is empty, and it is
    judged from nothing again. *)
Theorem tracking_bounded_oldest_forgotten input e d first w0 rest :
  (1 ≤ dc_maxTrackedIdentifiers config)%nat →
  event_of (fw_now (dt_world d)) input = Some e →
  dt_windows d = (first, w0) :: rest → NoDup (dt_windows d).*1 →
  (length (dt_windows d) ≤ dc_maxTrackedIdentifiers config)%nat →
  let d' := final (record input) d in
  (length (dt_windows d') ≤ dc_maxTrackedIdentifiers config)%nat ∧
  (length (dt_windows d) = dc_maxTrackedIdentifiers config → fe_identifier e ∉ (dt_windows d).*1 →
     map_get (dt_windows d') first = None ∧ ∀ t, ce_placed (getCancellationStats config first t d') = 0).
Proof.
  intros Hmax He Hd Hn Hlen. cbn zeta. unfold getCancellationStats. rewrite (record_windows input d e He), Hd.
  rewrite Hd in Hn, Hlen. unfold track, enforceCapacity.
  set (w := next_window config _ e). set (l := map_set ((first, w0) :: rest) (fe_identifier e) w).
  pose proof (map_set_length ((first, w0) :: rest) (fe_identifier e) w) as Hl. fold l in Hl. split.
  - case_decide; [done|]. destruct l as [|p l']; simpl in *; lia.
  - intros Hfull Hnew. simpl in Hfull.
    assert (l = (first, w0) :: map_set rest (fe_identifier e) w) as El.
    { unfold l. cbn [map_set]. rewrite decide_False; [done|]. intros ->. apply Hnew. rewrite fmap_cons. left. }
    assert ((map_set rest (fe_identifier e) w).*1 = rest.*1 ++ [fe_identifier e]) as Hkeys.
    { rewrite map_set_keys, decide_False; [done|]. intros Hin. apply Hnew. rewrite fmap_cons. by right. }
    assert (map_get (map_set rest (fe_identifier e) w) first = None) as Hnone.
    { apply map_get_None. rewrite Hkeys, elem_of_app, list_elem_of_singleton. rewrite fmap_cons in Hn, Hnew.
      cbn [fst] in *. apply NoDup_cons in Hn as [Hn _]. set_solver. }
    assert (¬ (length l ≤ dc_maxTrackedIdentifiers config)%nat) as Hover.
    { rewrite El. simpl. rewrite <-(length_fmap fst), Hkeys, length_app, length_fmap. simpl. lia. }
    rewrite decide_False by done. rewrite El. cbn [tail]. rewrite Hnone. split; [done|]. intros t. unfold evaluateCancellationRatio. cbn zeta.
    by repeat case_match.
Qed.
End recording.

(** With the default settings an account with at most a hundred placements and a hundred
    cancellations in the window is flagged exactly when it placed five orders and cancelled
    more than nineteen for every twenty it placed: the comparison of the rounded quotient
    with the rounded threshold is that of the integers. *)
Theorem default_threshold_exact identifier events now :
  count_type "placed" events <= 100 → count_type "cancelled" events <= 100 →
  ce_flagged (evaluateCancellationRatio identifier events now (resolveCancellationThresholds None None None)) = true ↔
  5 <= count_type "placed" events ∧ 19 * count_type "placed" events < 20 * count_type "cancelled" events.
Proof.
  intros Hp Hc.
  assert (forallb (λ p, forallb (λ c, Bool.eqb
    (num_ltb DEFAULT_CANCELLATION_RATIO_THRESHOLD (cancellation_ratio p c)) (19 * p <? 20 * c)) (seqZ 0 101)) (seqZ 5 96) = true)
    as Hall by (vm_compute; reflexivity).
  unfold evaluateCancellationRatio.
  replace (ct_ratioThreshold (resolveCancellationThresholds None None None))
    with DEFAULT_CANCELLATION_RATIO_THRESHOLD by (vm_compute; reflexivity).
  change (ct_minPlacements (resolveCancellationThresholds None None None)) with 5.
  destruct (Z.ltb_spec (count_type "placed" events) 5) as [|Hge]; [simpl; split; [done|lia]|].
  rewrite forallb_forall in Hall.
  specialize (Hall (count_type "placed" events)). rewrite <-list_elem_of_In, elem_of_seqZ in Hall.
  specialize (Hall ltac:(lia)). rewrite forallb_forall in Hall. specialize (Hall (count_type "cancelled" events)).
  rewrite <-list_elem_of_In, elem_of_seqZ in Hall. apply Bool.eqb_prop in Hall; [|unfold count_type in *; lia].
  rewrite Hall. destruct (Z.ltb_spec (19 * count_type "placed" events) (20 * count_type "cancelled" events));
    simpl; split; try done; lia.
Qed.

(** ** Witnesses *)

#[export] Instance quiet_flow : FlowWorld unit := {|
  fw_now _ := 0;
  fw_redis_open _ := false;
  fw_get _ := ret None;
  fw_set _ _ _ := ret tt;
  fw_broadcast _ _ := ret tt;
  fw_sendAlert _ _ := ret tt;
|}.

(** Half of the orders, of one order at least; one account. *)
Definition strict_config : DetectorConfig :=
  mkDetectorConfig (mkThresholds 60000 (num_div (num_of_Z 1) (num_of_Z 2)) 1) DEFAULT_ORDER_ANOMALY_THROTTLE_MS 1.
Definition order_input (account type : string) (t : Z) : OrderFlowInput :=
  mkFlowInput None (Some account) None type (Some t).
Definition idle_detector : detector unit := mkDetector [] ∅ tt.
Definition no_json (s : string) : exc jsval := Throw (Error "Unexpected end of JSON input").
Definition flow_record := recordOrderFlow (H := unit) strict_config no_json (λ _, None).

Definition placed_in (r : exc (option OrderCancellationAnomaly)) : option Z :=
  match r with Ok (Some a) => Some (oa_placed a) | _ => None end.

(** A late event puts the earlier ones out of the window for good, also for an event that
    is recorded after it with an earlier time. *)
Example late_event_cuts :
  length <$> [still_counting strict_config (flip (flow_event "GA") (order_input "GA" "placed" 0) <$> [0; 1000]);
              still_counting strict_config (flip (flow_event "GA") (order_input "GA" "placed" 0) <$> [0; 90000; 1000])]
  = [2; 2]%nat.
Proof. vm_compute. reflexivity. Qed.

(** The placement of the first minute has left the window when the order is cancelled. *)
Lemma whole_history_decides_witness :
  placed_in (outcome (flow_record (order_input "GA" "cancelled" 100000))
    (run_flow strict_config no_json (λ _, None) [order_input "GA" "placed" 0; order_input "GA" "placed" 50000]
       idle_detector)) = Some 1.
Proof.
  assert (in_order (flow_events [order_input "GA" "placed" 0; order_input "GA" "placed" 50000] ++
    [flow_event "GA" 100000 (order_input "GA" "cancelled" 100000)])) as Ho.
  { intros i j e1 e2 Hij H1 H2. destruct i as [|[|[|i]]], j as [|[|[|j]]]; try discriminate; try lia;
      vm_compute in H1, H2; injection H1 as <-; injection H2 as <-; vm_compute; discriminate. }
  assert (Forall has_time ([order_input "GA" "placed" 0; order_input "GA" "placed" 50000] ++
    [order_input "GA" "cancelled" 100000])) as Ht by (repeat constructor; by eexists).
  assert (event_of 0 (order_input "GA" "cancelled" 100000)
    = Some (flow_event "GA" 100000 (order_input "GA" "cancelled" 100000))) as He by (vm_compute; reflexivity).
  pose proof (whole_history_decides strict_config no_json (λ _, None)
    [order_input "GA" "placed" 0; order_input "GA" "placed" 50000] (order_input "GA" "cancelled" 100000) _
    idle_detector eq_refl Ht He Ho ltac:(vm_compute; lia)) as A.
  set (ev := evaluateCancellationRatio _ _ _ _) in A.
  assert (ce_flagged ev = true) as Hf by (vm_compute; reflexivity).
  assert (ce_placed ev = 1) as Hp by (vm_compute; reflexivity).
  assert (is_ok (outcome (flow_record (order_input "GA" "cancelled" 100000))
    (run_flow strict_config no_json (λ _, None) [order_input "GA" "placed" 0; order_input "GA" "placed" 50000]
      idle_detector)) = true) as Hok by (vm_compute; reflexivity).
  unfold flow_record in *. destruct (outcome _ _) as [[a|]|x]; [|congruence|discriminate Hok].
  destruct A as (_ & _ & A & _). simpl. by rewrite A, Hp.
Defined.

Lemma tracking_bounded_oldest_forgotten_witness :
  ce_placed (getCancellationStats strict_config "GA" 1000
    (final (flow_record (order_input "GB" "placed" 1000))
       (final (flow_record (order_input "GA" "placed" 999)) idle_detector))) = 0.
Proof.
  set (d := final (flow_record (order_input "GA" "placed" 999)) idle_detector).
  assert (dt_windows d = [("GA", [flow_event "GA" 999 (order_input "GA" "placed" 999)])]) as Hd
    by (vm_compute; reflexivity).
  assert (event_of 0 (order_input "GB" "placed" 1000)
    = Some (flow_event "GB" 1000 (order_input "GB" "placed" 1000))) as He by (vm_compute; reflexivity).
  assert (NoDup (dt_windows d).*1) as Hn by (rewrite Hd; apply NoDup_singleton).
  assert ("GB" ∉ (dt_windows d).*1) as Hnew.
  { rewrite Hd. intros E%list_elem_of_singleton. discriminate E. }
  pose proof (tracking_bounded_oldest_forgotten strict_config no_json (λ _, None)
    (order_input "GB" "placed" 1000) _ d "GA" _ [] (le_n 1) He Hd Hn) as A.
  rewrite Hd in A. specialize (A (le_n 1)).
  rewrite Hd in Hnew. exact (proj2 (proj2 A eq_refl Hnew) 1000).
Defined.

Lemma default_threshold_exact_witness :
  ce_flagged (evaluateCancellationRatio "GA"
    (replicate 20 (flow_event "GA" 0 (order_input "GA" "placed" 0)) ++
     replicate 19 (flow_event "GA" 0 (order_input "GA" "cancelled" 0))) 0
    (resolveCancellationThresholds None None None)) = false.
Proof.
  pose proof (default_threshold_exact "GA"
    (replicate 20 (flow_event "GA" 0 (order_input "GA" "placed" 0)) ++
     replicate 19 (flow_event "GA" 0 (order_input "GA" "cancelled" 0))) 0
    ltac:(vm_compute; discriminate) ltac:(vm_compute; discriminate)) as A.
  destruct (ce_flagged _); [|reflexivity]. destruct A as [A _]. specialize (A eq_refl).
  destruct A as [_ A]. vm_compute in A. discriminate A.
Defined.
