(* ===== verification/JsRounding.v ===== *)
(** * Signs and bounds of rounded numbers

    What the components need to know of quotients, products and [Math.round] without
    computing them: their sign, and how a number that equals an integer compares with
    another integer. *)

From Stdlib Require Import SpecFloat.
From S2P Require Import Prelude JsNumber JsDecimal PriceFilter Serialization.

Local Open Scope Z_scope.

(** Positive integers below 2^53 keep their value and their order. *)
Lemma num_of_pos_val (p : positive) :
  Zpos p < 2 ^ 53 → valid_num (num_of_Z (Zpos p)) ∧ isFinite (num_of_Z (Zpos p)) = true ∧
    num_val (num_of_Z (Zpos p)) = Zpos p * 2 ^ (- emin prec emax).
Proof.
  intros Hp. destruct (num_of_pos_exact p Hp) as (m & e & -> & He & Hm & Hd & Hl). split_and!; [|done|].
  - unfold valid_num, valid_binary, bounded, canonical_mantissa. rewrite Hd. apply andb_true_intro. split.
    + apply Z.eqb_eq. unfold fexp, emin, prec, emax. lia.
    + apply Z.leb_le. unfold emax, prec. lia.
  - unfold num_val, aligned, cond_Zopp. rewrite Hm, <-Z.mul_assoc, <-Z.pow_add_r by (unfold emin, prec, emax; lia).
    do 2 f_equal. lia.
Qed.

Lemma num_ltb_of_pos (p q : positive) :
  Zpos p < 2 ^ 53 → Zpos q < 2 ^ 53 → num_ltb (num_of_Z (Zpos p)) (num_of_Z (Zpos q)) = bool_decide (Zpos p < Zpos q).
Proof.
  intros Hp Hq. destruct (num_of_pos_val p Hp) as (V1 & F1 & E1), (num_of_pos_val q Hq) as (V2 & F2 & E2).
  rewrite num_ltb_val by done. apply bool_decide_ext. rewrite E1, E2.
  assert (0 < 2 ^ (- emin prec emax)) by (apply Z.pow_pos_nonneg; unfold emin, prec, emax; lia).
  split; nia.
Qed.

(** The sign of a result, if it has one. *)
Definition signed (s : bool) (x : number) : Prop :=
  match x with S754_zero s' | S754_infinity s' | S754_finite s' _ _ => s' = s | S754_nan => True end.

Lemma binary_round_aux_signed s mx ex lx : signed s (binary_round_aux prec emax s mx ex lx).
Proof.
  unfold binary_round_aux. destruct (shr_fexp prec emax mx ex lx) as [r e].
  destruct (shr_fexp prec emax (round_nearest_even _ _) e loc_Exact) as [r' e'].
  destruct (shr_m r'); simpl; try done. by case_match.
Qed.
Lemma num_div_signed s1 s2 a b : signed s1 a → signed s2 b → signed (xorb s1 s2) (num_div a b).
Proof.
  unfold num_div, SFdiv. destruct a, b; intros Ha Hb; simpl in *; subst; try done;
  destruct (SFdiv_core_binary _ _ _ _ _ _) as [[mz ez] lz]; apply binary_round_aux_signed.
Qed.
Lemma num_mul_signed s1 s2 a b : signed s1 a → signed s2 b → signed (xorb s1 s2) (num_mul a b).
Proof.
  unfold num_mul, SFmul. destruct a, b; intros Ha Hb; simpl in *; subst; try done; apply binary_round_aux_signed.
Qed.
Lemma num_of_Z_signed z : z ≠ 0 → signed (z <? 0) (num_of_Z z).
Proof. 
  intros Hz. unfold num_of_Z. destruct z as [|p|p]; [done| |]; simpl; unfold binary_round;
  destruct (shl_align _ _ _); apply binary_round_aux_signed.
Qed.
Lemma math_round_signed s x : signed s x → signed s (math_round x).
Proof.
  destruct x as [| | |s' m e]; try done. cbn [signed math_round]. intros ->. destruct (isInteger _) eqn:Ei; [done|].
  simpl in Ei. apply orb_false_iff in Ei as [He _]. apply Z.leb_gt in He.
  assert (0 < 2 ^ (- e)) by (apply Z.pow_pos_nonneg; lia).
  set (den := 2 ^ (- e)) in *. set (r := (2 * cond_Zopp s (Zpos m) + den) / (2 * den)). cbn zeta.
  destruct (Z.eqb_spec r 0) as [|Hr]; [done|].
  pose proof (num_of_Z_signed r Hr) as G. enough ((r <? 0) = s) as E by (rewrite E in G; exact G).
  destruct s; unfold cond_Zopp in r.
  - apply Z.ltb_lt. enough (r < 1) by lia. apply Z.div_lt_upper_bound; lia.
  - apply Z.ltb_ge, Z.div_pos; lia.
Qed.
Lemma num_of_Z_zero z : num_eqb num_zero (num_of_Z z) = true → z = 0.
Proof.
  intros Hz. destruct (decide (z = 0)) as [|Hne]; [done|]. exfalso. revert Hz.
  unfold num_of_Z, num_eqb, SFeqb. destruct z as [|p|p]; [done| |]; cbn [binary_normalize];
    [destruct (binary_round_sign false p 0 ltac:(done)) as [(?&?&->)| ->]; done
    |destruct (binary_round_sign true p 0 ltac:(done)) as [(?&?&->)| ->]; done].
Qed.
Lemma num_ltb_signed p x : signed true x → num_ltb (num_of_Z (Zpos p)) x = false.
Proof.
  unfold num_ltb, SFltb, num_of_Z, binary_normalize.
  destruct (binary_round_sign false p 0 ltac:(done)) as [(?&?&->)| ->]; destruct x; simpl; try done; by intros ->.
Qed.
(** A number equal to an integer, below a bound. *)
Lemma num_le_of_Z p x z :
  num_eqb x (num_of_Z z) = true → Z.abs z < 2 ^ 53 → Zpos p < 2 ^ 53 →
  num_ltb (num_of_Z (Zpos p)) x = false → z <= Zpos p.
Proof.
  intros Hx Hz Hp Hl. destruct z as [|q|q]; [lia| |lia].
  enough (num_ltb (num_of_Z (Zpos p)) (num_of_Z (Zpos q)) = false) as E.
  { rewrite num_ltb_of_pos in E by lia. apply bool_decide_eq_false in E. lia. }
  destruct (num_of_pos_exact q ltac:(lia)) as (m & e & Em & _). rewrite Em in *.
  enough (x = S754_finite false m e) as <- by exact Hl. clear Hl. unfold num_eqb, SFeqb in Hx.
  destruct x as [s|s| |s m' e']; try (by destruct s); try done. destruct s; [done|]. simpl in Hx.
  destruct (Z.compare_spec e' e) as [->| |]; try done. destruct (Pos.compare_cont Eq m' m) eqn:E; try done.
  apply Pos.compare_eq in E. by subst.
Qed.
