(* ===== verification/FxConversion.v ===== *)
(** * Payment routes and FX quotes ([services/paymentRoutingService.ts],
    [services/derivedAssetService.ts], [services/fxConversionService.ts])

    A route fixes a rate and a fee between two currencies; a quote holds an amount at the
    rate of a route for a while, and is locked after a comparison with the live rates of the
    market rate service. The calls are programs of [Async]: every [await] is a point where
    other calls may run. The market rate service is the class [RateFeed], of which the service
    of [MarketRate] is an instance. Proved, for every interleaving of any number of calls:
    the terms of a quote never change, and its deviation from a live rate, as the source
    computes it, was within the tolerance when it was made and when it was locked; for calls
    one after the other: the life of a
    quote. Between two statements of a lock, however, a quote can expire or be executed, and
    is locked all the same. *)

From Stdlib Require Import SpecFloat.
From stdpp Require Import pretty.
From S2P Require Import Prelude JsNumber JsString Prisma Service Async Backpressure JsDecimal JsValue PriceFilter Serialization PriceReview Lockdown MarketSources MarketRate JsRounding.

Local Open Scope Z_scope.

(** ** Tables *)

(** The columns read and written; [Dec] is Prisma's [Decimal]. *)
Record PaymentRoute (Dec : Type) := mkRoute {
  rt_id : string;
  rt_senderCurrency : string;
  rt_receiverCurrency : string;
  rt_sourceAsset : string;
  rt_targetRail : string;
  rt_provider : string;
  rt_rate : Dec;
  rt_fee : Dec;
  rt_estimatedAmount : Dec;
  rt_slippageBps : Z;
  rt_liquidityPoolId : option string;
  rt_priority : Z;
  rt_status : string;
}.
Arguments mkRoute {Dec} _ _ _ _ _ _ _ _ _ _ _ _ _.
Arguments rt_id {Dec} _.
Arguments rt_senderCurrency {Dec} _.
Arguments rt_receiverCurrency {Dec} _.
Arguments rt_sourceAsset {Dec} _.
Arguments rt_targetRail {Dec} _.
Arguments rt_provider {Dec} _.
Arguments rt_rate {Dec} _.
Arguments rt_fee {Dec} _.
Arguments rt_estimatedAmount {Dec} _.
Arguments rt_slippageBps {Dec} _.
Arguments rt_liquidityPoolId {Dec} _.
Arguments rt_priority {Dec} _.
Arguments rt_status {Dec} _.

Record FxQuote (Dec : Type) := mkQuote {
  fq_id : string;
  fq_paymentRouteId : string;
  fq_userAddress : option string;
  fq_senderCurrency : string;
  fq_receiverCurrency : string;
  fq_inputAmount : Dec;
  fq_outputAmount : Dec;
  fq_rate : Dec;
  fq_fee : Dec;
  fq_slippageBps : Z;
  fq_liveFeedRate : Dec;
  fq_feedSource : string;
  fq_feedTimestamp : Z;
  fq_rateDeviationBps : Z;
  fq_status : string;
  fq_expiresAt : Z;
  fq_lockedAt : option Z;
  fq_executedAt : option Z;
  fq_createdAt : Z;
}.
Arguments mkQuote {Dec} _ _ _ _ _ _ _ _ _ _ _ _ _ _ _ _ _ _ _.
Arguments fq_id {Dec} _.
Arguments fq_paymentRouteId {Dec} _.
Arguments fq_userAddress {Dec} _.
Arguments fq_senderCurrency {Dec} _.
Arguments fq_receiverCurrency {Dec} _.
Arguments fq_inputAmount {Dec} _.
Arguments fq_outputAmount {Dec} _.
Arguments fq_rate {Dec} _.
Arguments fq_fee {Dec} _.
Arguments fq_slippageBps {Dec} _.
Arguments fq_liveFeedRate {Dec} _.
Arguments fq_feedSource {Dec} _.
Arguments fq_feedTimestamp {Dec} _.
Arguments fq_rateDeviationBps {Dec} _.
Arguments fq_status {Dec} _.
Arguments fq_expiresAt {Dec} _.
Arguments fq_lockedAt {Dec} _.
Arguments fq_executedAt {Dec} _.
Arguments fq_createdAt {Dec} _.

(** What the columns accept and give back: a number written to a [Decimal(30, 12)] column, a
    decimal as a number, the order of decimals, and a number written to an [Int] column, which keeps its value. *)
Class MoneyColumns (Dec : Type) := {
  decimal_column : number → exc Dec;
  decimal_number : Dec → number;
  int_column : number → exc Z;
  decimal_ge : Dec → Dec → bool;
  int_column_value x z : int_column x = Ok z → num_eqb x (num_of_Z z) = true ∧ Z.abs z < 2 ^ 31;
}.

(** A date written to a column; an invalid one is refused. *)
Definition date_column (t : option Z) : exc Z :=
  match t with Some t => Ok t | None => Throw (Error "Invalid value for argument: Provided Date object is invalid") end.

(** [marketRateService.getRate] and the clock *)
Class RateFeed (S : Type) := {
  feed_getRate : string → M S FetcherResponse;
  feed_now : S → Z;
}.

Record fx (TR TQ S : Type) := mkFx { fx_routes : TR; fx_quotes : TQ; fx_market : S }.
Arguments mkFx {TR TQ S} _ _ _.
Arguments fx_routes {TR TQ S} _.
Arguments fx_quotes {TR TQ S} _.
Arguments fx_market {TR TQ S} _.

Record LiveFeed := mkFeed { lf_rate : number; lf_source : string; lf_timestamp : option Z }.

Record DerivedRate := mkDerived {
  dr_currency : string;
  dr_baseCurrency : string;
  dr_quoteCurrency : string;
  dr_rate : number;
  dr_timestamp : Z;
  dr_source : string;
  dr_calculationMethod : string;
}.

Record RouteCandidate := mkRouteCandidate {
  rc_id : string;
  rc_senderCurrency : string;
  rc_receiverCurrency : string;
  rc_sourceAsset : string;
  rc_targetRail : string;
  rc_provider : string;
  rc_rate : number;
  rc_fee : number;
  rc_estimatedAmount : number;
  rc_slippageBps : Z;
  rc_liquidityPoolId : option string;
  rc_priority : Z;
}.

Record FxQuoteResult := mkFxResult {
  fr_success : bool;
  fr_quoteId : option string;
  fr_routeId : string;
  fr_senderCurrency : string;
  fr_receiverCurrency : string;
  fr_inputAmount : number;
  fr_outputAmount : number;
  fr_rate : number;
  fr_fee : number;
  fr_slippageBps : Z;
  fr_liveFeedRate : number;
  fr_feedSource : string;
  fr_feedTimestamp : option Z;
  fr_rateDeviationBps : number;
  fr_status : string;
  fr_expiresAt : option Z;
  fr_error : option string;
}.

Record QuoteStatus := mkQuoteStatus {
  qs_id : string;
  qs_routeId : string;
  qs_senderCurrency : string;
  qs_receiverCurrency : string;
  qs_inputAmount : number;
  qs_outputAmount : number;
  qs_rate : number;
  qs_fee : number;
  qs_slippageBps : Z;
  qs_liveFeedRate : number;
  qs_feedSource : string;
  qs_rateDeviationBps : Z;
  qs_status : string;
  qs_expiresAt : Z;
  qs_lockedAt : option Z;
  qs_executedAt : option Z;
  qs_createdAt : Z;
}.

(** ** Numbers *)

Definition MAX_DEVIATION_BPS : number := num_of_Z 50.
Definition DEFAULT_QUOTE_TTL_MS : number := num_of_Z (5 * 60 * 1000).
Definition ten_thousand : number := num_of_Z 10000.

Definition calculateDeviationBps (lockedRate feedRate : number) : number :=
  if num_eqb feedRate num_zero then num_zero
  else math_round (num_mul (num_div (math_abs (num_sub lockedRate feedRate)) feedRate) ten_thousand).
Definition calculateOutputAmount (inputAmount rate fee : number) : number :=
  math_max num_zero (num_sub (num_mul inputAmount rate) fee).

(** [new Date(t + ms)] *)
Definition date_after (t : Z) (ms : number) : option Z :=
  new_Date_of (λ _, None) (ANumber (num_add (num_of_Z t) ms)).

Definition scoreRoute (route : RouteCandidate) (inputAmount : number) : number :=
  let effectiveRate := num_sub (rc_rate route) (num_div (rc_fee route) inputAmount) in
  let slippagePenalty := num_div (num_of_Z (rc_slippageBps route)) ten_thousand in
  num_add (num_mul effectiveRate (num_sub num_one slippagePenalty))
    (num_mul (num_of_Z (rc_priority route)) (num_div num_one (num_of_Z 1000))).

(** ** The services *)

Section services.
Context {Dec TR TQ S : Type} `{!MoneyColumns Dec}.
Context `{!PrismaTable string (PaymentRoute Dec) TR} `{!PrismaTable string (FxQuote Dec) TQ} `{!RateFeed S}.
Notation state := (fx TR TQ S).
Notation call := (prog state).

Definition at_routes {A} (c : M TR A) : call A := await (λ w,
  let '(r, d) := c (fx_routes w) in (r, mkFx d (fx_quotes w) (fx_market w))).
Definition at_quotes {A} (c : M TQ A) : call A := await (λ w,
  let '(r, d) := c (fx_quotes w) in (r, mkFx (fx_routes w) d (fx_market w))).
Definition at_market {A} (c : M S A) : call A := await (λ w,
  let '(r, s) := c (fx_market w) in (r, mkFx (fx_routes w) (fx_quotes w) s)).
Definition read {A} (q : state → exc A) : call A := await (λ w, (q w, w)).
(** [new Date()]: a step of its own *)
Definition clock : call Z := read (λ w, Ok (feed_now (fx_market w))).

(** *** [DerivedAssetService] *)

Definition timestamp_older (a b : option Z) : option Z := if date_gt b a then a else b.

Definition getDerivedRate (baseCurrency quoteCurrency : string) : call (exc DerivedRate) :=
  pcatch
    (let base := toUpperCase baseCurrency in
     let quote := toUpperCase quoteCurrency in
     baseResponse <~ at_market (feed_getRate base) ;;
     match baseResponse with
     | FetchFailed error => pret (Throw (Error ("Failed to fetch base rate for " +:+ base +:+ ": " +:+ error)))
     | Fetched baseData =>
         quoteResponse <~ at_market (feed_getRate quote) ;;
         match quoteResponse with
         | FetchFailed error => pret (Throw (Error ("Failed to fetch quote rate for " +:+ quote +:+ ": " +:+ error)))
         | Fetched quoteData =>
             let baseRateValue := mr_rate (er_rate baseData) in
             let quoteRateValue := mr_rate (er_rate quoteData) in
             if num_eqb quoteRateValue num_zero then
               pret (Throw (Error ("Invalid rate for " +:+ quote +:+ " (rate is 0)")))
             else
               let timestamp := timestamp_older (mr_timestamp (er_rate baseData)) (mr_timestamp (er_rate quoteData)) in
               t <~ Done (utc timestamp) ;;
               pret (Ok (mkDerived (base +:+ "/" +:+ quote) base quote (num_div baseRateValue quoteRateValue) t
                 "Synthetic (Derived from XLM rates)" ("(" +:+ base +:+ "/XLM) / (" +:+ quote +:+ "/XLM)")))
         end
     end)
    (λ error, pret (Throw (Error (err_message error)))).

Definition getNGNGHSRate : call (exc DerivedRate) := getDerivedRate "NGN" "GHS".

(** *** [FxConversionService] *)

Definition getLiveFeedRate (senderCurrency receiverCurrency : string) : call (option LiveFeed) :=
  let base := toUpperCase senderCurrency in
  let quote := toUpperCase receiverCurrency in
  derived <~ getDerivedRate base quote ;;
  match derived with
  | Ok d => pret (Some (mkFeed (dr_rate d) (dr_source d) (Some (dr_timestamp d))))
  | Throw _ =>
      primary <~ at_market (feed_getRate base) ;;
      match primary with
      | FetchFailed _ => pret None
      | Fetched p =>
          secondary <~ at_market (feed_getRate quote) ;;
          match secondary with
          | FetchFailed _ => pret None
          | Fetched s =>
              if num_eqb (mr_rate (er_rate s)) num_zero then pret None
              else pret (Some (mkFeed (num_div (mr_rate (er_rate p)) (mr_rate (er_rate s)))
                ("Synthetic (" +:+ mr_source (er_rate p) +:+ " / " +:+ mr_source (er_rate s) +:+ ")")
                (timestamp_older (mr_timestamp (er_rate p)) (mr_timestamp (er_rate s)))))
          end
      end
  end.

(** A refused_quote, with the amounts left at zero *)
Definition refused_quote (quoteId : option string) (routeId senderCurrency receiverCurrency : string)
    (inputAmount : number) (error : string) : call FxQuoteResult :=
  feedTimestamp <~ clock ;;
  expiresAt <~ clock ;;
  pret (mkFxResult false quoteId routeId senderCurrency receiverCurrency inputAmount num_zero num_zero num_zero 0
    num_zero "" (Some feedTimestamp) num_zero "FAILED" (Some expiresAt) (Some error)).
Definition failedResult (quoteId senderCurrency : string) (inputAmount : number) (error : string) :
    call FxQuoteResult :=
  refused_quote (Some quoteId) "" senderCurrency "" inputAmount error.

(** The row of a new quote. *)
Definition quote_data (route : PaymentRoute Dec) (routeId : string) (userAddress : option string)
    (inputAmount outputAmount routeRate routeFee : number) (feed : LiveFeed) (deviationBps : number)
    (expiresAt : option Z) (createdAt : Z) : exc (string → FxQuote Dec) :=
  input ← decimal_column inputAmount;
  output ← decimal_column outputAmount;
  rate ← decimal_column routeRate;
  fee ← decimal_column routeFee;
  live ← decimal_column (lf_rate feed);
  feedTimestamp ← date_column (lf_timestamp feed);
  deviation ← int_column deviationBps;
  expires ← date_column expiresAt;
  Ok (λ id, mkQuote id routeId (if truthy_opt userAddress then userAddress else None)
    (rt_senderCurrency route) (rt_receiverCurrency route) input output rate fee (rt_slippageBps route)
    live (lf_source feed) feedTimestamp deviation "PENDING" expires None None createdAt).

Definition quote_route (routeId : string) (route : PaymentRoute Dec) (inputAmount : number)
    (quoteTtlMs : option number) (userAddress : option string) : call FxQuoteResult :=
  feed <~ getLiveFeedRate (rt_senderCurrency route) (rt_receiverCurrency route) ;;
  match feed with
  | None => refused_quote None routeId (rt_senderCurrency route) (rt_receiverCurrency route) inputAmount
              "Unable to fetch live FX feed rate"
  | Some feed =>
      let routeRate := decimal_number (rt_rate route) in
      let routeFee := decimal_number (rt_fee route) in
      let deviationBps := calculateDeviationBps routeRate (lf_rate feed) in
      if num_ltb MAX_DEVIATION_BPS deviationBps then
        expiresAt <~ clock ;;
        pret (mkFxResult false None routeId (rt_senderCurrency route) (rt_receiverCurrency route) inputAmount
          num_zero routeRate routeFee (rt_slippageBps route) (lf_rate feed) (lf_source feed) (lf_timestamp feed)
          deviationBps "FAILED" (Some expiresAt)
          (Some ("Rate deviation " +:+ String_num deviationBps +:+ " bps exceeds maximum " +:+
                 String_num MAX_DEVIATION_BPS +:+ " bps")))
      else
        let outputAmount := calculateOutputAmount inputAmount routeRate routeFee in
        t <~ clock ;;
        let expiresAt := date_after t (default DEFAULT_QUOTE_TTL_MS quoteTtlMs) in
        createdAt <~ clock ;;
        data <~ Done (quote_data route routeId userAddress inputAmount outputAmount routeRate routeFee feed
                        deviationBps expiresAt createdAt) ;;
        quote <~ at_quotes (create data) ;;
        pret (mkFxResult true (Some (fq_id quote)) routeId (rt_senderCurrency route) (rt_receiverCurrency route)
          inputAmount outputAmount routeRate routeFee (rt_slippageBps route) (lf_rate feed) (lf_source feed)
          (lf_timestamp feed) deviationBps "PENDING" expiresAt None)
  end.

Definition requestQuote (routeId : string) (inputAmount : number) (quoteTtlMs : option number)
    (userAddress : option string) : call FxQuoteResult :=
  pcatch
    (if num_leb inputAmount num_zero then
       refused_quote None routeId "" "" inputAmount "Input amount must be positive"
     else
       route <~ read (λ w, findUnique routeId (fx_routes w)) ;;
       match route with
       | None => refused_quote None routeId "" "" inputAmount "Payment route not found"
       | Some route =>
           if decide (rt_status route = "ACTIVE") then quote_route routeId route inputAmount quoteTtlMs userAddress
           else refused_quote None routeId (rt_senderCurrency route) (rt_receiverCurrency route) inputAmount
                  "Payment route is not active"
       end)
    (λ error, refused_quote None routeId "" "" inputAmount (err_message error)).

Definition quote_with_status (status : string) (q : FxQuote Dec) : FxQuote Dec :=
  mkQuote (fq_id q) (fq_paymentRouteId q) (fq_userAddress q) (fq_senderCurrency q) (fq_receiverCurrency q)
    (fq_inputAmount q) (fq_outputAmount q) (fq_rate q) (fq_fee q) (fq_slippageBps q) (fq_liveFeedRate q)
    (fq_feedSource q) (fq_feedTimestamp q) (fq_rateDeviationBps q) status (fq_expiresAt q) (fq_lockedAt q)
    (fq_executedAt q) (fq_createdAt q).
Definition quote_locked (lockedAt : Z) (live : Dec) (source : string) (timestamp deviation : Z) (q : FxQuote Dec) :
    FxQuote Dec :=
  mkQuote (fq_id q) (fq_paymentRouteId q) (fq_userAddress q) (fq_senderCurrency q) (fq_receiverCurrency q)
    (fq_inputAmount q) (fq_outputAmount q) (fq_rate q) (fq_fee q) (fq_slippageBps q) live source timestamp
    deviation "LOCKED" (fq_expiresAt q) (Some lockedAt) (fq_executedAt q) (fq_createdAt q).
Definition quote_executed (executedAt : Z) (q : FxQuote Dec) : FxQuote Dec :=
  mkQuote (fq_id q) (fq_paymentRouteId q) (fq_userAddress q) (fq_senderCurrency q) (fq_receiverCurrency q)
    (fq_inputAmount q) (fq_outputAmount q) (fq_rate q) (fq_fee q) (fq_slippageBps q) (fq_liveFeedRate q)
    (fq_feedSource q) (fq_feedTimestamp q) (fq_rateDeviationBps q) "EXECUTED" (fq_expiresAt q) (fq_lockedAt q)
    (Some executedAt) (fq_createdAt q).

(** The data of the update that locks a quote. *)
Definition lock_data (feed : LiveFeed) (deviationBps : number) (lockedAt : Z) : exc (FxQuote Dec → FxQuote Dec) :=
  live ← decimal_column (lf_rate feed);
  timestamp ← date_column (lf_timestamp feed);
  deviation ← int_column deviationBps;
  Ok (quote_locked lockedAt live (lf_source feed) timestamp deviation).

(** What follows the check of the expiry. *)
Definition lock_verified (quoteId : string) (quote : FxQuote Dec) : call FxQuoteResult :=
  let inputAmount := decimal_number (fq_inputAmount quote) in
  feed <~ getLiveFeedRate (fq_senderCurrency quote) (fq_receiverCurrency quote) ;;
  match feed with
  | None => failedResult quoteId (fq_senderCurrency quote) inputAmount "Unable to verify rate against live feed"
  | Some feed =>
      let currentDeviation := calculateDeviationBps (decimal_number (fq_rate quote)) (lf_rate feed) in
      if num_ltb MAX_DEVIATION_BPS currentDeviation then
        failedResult quoteId (fq_senderCurrency quote) inputAmount
          ("Live rate deviation " +:+ String_num currentDeviation +:+ " bps exceeds threshold")
      else
        lockedAt <~ clock ;;
        data <~ Done (lock_data feed currentDeviation lockedAt) ;;
        updated <~ at_quotes (update quoteId data) ;;
        pret (mkFxResult true (Some (fq_id updated)) (fq_paymentRouteId updated) (fq_senderCurrency updated)
          (fq_receiverCurrency updated) (decimal_number (fq_inputAmount updated))
          (decimal_number (fq_outputAmount updated)) (decimal_number (fq_rate updated))
          (decimal_number (fq_fee updated)) (fq_slippageBps updated) (lf_rate feed) (lf_source feed)
          (lf_timestamp feed) currentDeviation "LOCKED" (Some (fq_expiresAt updated)) None)
  end.

Definition lockQuote (quoteId : string) : call FxQuoteResult :=
  pcatch
    (quote <~ read (λ w, findUnique quoteId (fx_quotes w)) ;;
     match quote with
     | None => failedResult quoteId "" num_zero "Quote not found"
     | Some quote =>
         let inputAmount := decimal_number (fq_inputAmount quote) in
         if decide (fq_status quote = "PENDING") then
           t <~ clock ;;
           if fq_expiresAt quote <? t then
             at_quotes (update quoteId (quote_with_status "EXPIRED")) ;~
             failedResult quoteId (fq_senderCurrency quote) inputAmount "Quote has expired"
           else lock_verified quoteId quote
         else failedResult quoteId (fq_senderCurrency quote) inputAmount
                ("Quote is " +:+ fq_status quote +:+ ", cannot lock")
     end)
    (λ error, failedResult quoteId "" num_zero (err_message error)).

Definition toQuoteStatus (q : FxQuote Dec) : QuoteStatus :=
  mkQuoteStatus (fq_id q) (fq_paymentRouteId q) (fq_senderCurrency q) (fq_receiverCurrency q)
    (decimal_number (fq_inputAmount q)) (decimal_number (fq_outputAmount q)) (decimal_number (fq_rate q))
    (decimal_number (fq_fee q)) (fq_slippageBps q) (decimal_number (fq_liveFeedRate q)) (fq_feedSource q)
    (fq_rateDeviationBps q) (fq_status q) (fq_expiresAt q) (fq_lockedAt q) (fq_executedAt q) (fq_createdAt q).

Definition markExecuted (quoteId : string) : call QuoteStatus :=
  t <~ clock ;;
  updated <~ at_quotes (update quoteId (quote_executed t)) ;;
  pret (toQuoteStatus updated).

Definition getQuoteStatus (quoteId : string) : call (option QuoteStatus) :=
  quote <~ read (λ w, findUnique quoteId (fx_quotes w)) ;;
  match quote with
  | None => pret None
  | Some quote =>
      t <~ clock ;;
      if bool_decide (fq_status quote = "PENDING") && (fq_expiresAt quote <? t) then
        at_quotes (update quoteId (quote_with_status "EXPIRED")) ;~
        pret (Some (toQuoteStatus (quote_with_status "EXPIRED" quote)))
      else pret (Some (toQuoteStatus quote))
  end.

Definition is_stale (t : Z) (q : FxQuote Dec) : bool := bool_decide (fq_status q = "PENDING") && (fq_expiresAt q <? t).
Definition expireStaleQuotes : call nat :=
  t <~ clock ;;
  at_quotes (updateMany (is_stale t) (quote_with_status "EXPIRED")).

(** *** [PaymentRoutingService] *)

Record RoutingResult := mkRouting {
  rr_success : bool;
  rr_routes : list RouteCandidate;
  rr_inputAmount : number;
  rr_senderCurrency : string;
  rr_receiverCurrency : string;
  rr_error : option string;
}.

Definition candidate_of (r : PaymentRoute Dec) : RouteCandidate :=
  mkRouteCandidate (rt_id r) (rt_senderCurrency r) (rt_receiverCurrency r) (rt_sourceAsset r) (rt_targetRail r)
    (rt_provider r) (decimal_number (rt_rate r)) (decimal_number (rt_fee r)) (decimal_number (rt_estimatedAmount r))
    (rt_slippageBps r) (rt_liquidityPoolId r) (rt_priority r).

(** [orderBy: [{ priority: "desc" }, { rate: "desc" }]] *)
Definition ranks_before (r1 r2 : PaymentRoute Dec) : Prop :=
  rt_priority r2 < rt_priority r1 ∨
  (rt_priority r1 = rt_priority r2 ∧ decimal_ge (rt_rate r1) (rt_rate r2) = true).
#[export] Instance ranks_before_dec r1 r2 : Decision (ranks_before r1 r2) := ltac:(unfold ranks_before; apply _).

(** [v ? column === v.toUpperCase() : true] *)
Definition matches_upper (v : option string) (column : string) : bool :=
  if truthy_opt v then bool_decide (column = toUpperCase (default "" v)) else true.

Definition find_routes (where_ : PaymentRoute Dec → bool) : call (list (PaymentRoute Dec)) :=
  read (λ w, match findAll (fx_routes w) with
             | Ok l => Ok (merge_sort ranks_before (filter (λ r, where_ r = true) l))
             | Throw e => Throw e
             end).

Definition optimal_where (senderCurrency receiverCurrency : string) (targetRail : option string)
    (r : PaymentRoute Dec) : bool :=
  bool_decide (rt_senderCurrency r = senderCurrency) && bool_decide (rt_receiverCurrency r = receiverCurrency) &&
  bool_decide (rt_status r = "ACTIVE") && matches_upper targetRail (rt_targetRail r).

Definition by_score (inputAmount : number) (a b : RouteCandidate) : number :=
  num_sub (scoreRoute b inputAmount) (scoreRoute a inputAmount).

Definition findOptimalRoutes (sender receiver : string) (inputAmount : number) (targetRail : option string) :
    call RoutingResult :=
  let senderCurrency := toUpperCase sender in
  let receiverCurrency := toUpperCase receiver in
  let refused error := pret (mkRouting false [] inputAmount senderCurrency receiverCurrency (Some error)) in
  pcatch
    (if decide (senderCurrency = receiverCurrency) then refused "Sender and receiver currencies must differ"
     else if num_leb inputAmount num_zero then refused "Input amount must be positive"
     else
       dbRoutes <~ find_routes (optimal_where senderCurrency receiverCurrency targetRail) ;;
       if decide (dbRoutes = []) then refused "No active routes found for this currency pair"
       else
         let candidates := js_sort (by_score inputAmount) (candidate_of <$> dbRoutes) in
         pret (mkRouting true candidates inputAmount senderCurrency receiverCurrency None))
    (λ error, refused (err_message error)).

Record RouteCreateParams := mkRouteParams {
  cp_senderCurrency : string;
  cp_receiverCurrency : string;
  cp_sourceAsset : string;
  cp_targetRail : string;
  cp_provider : string;
  cp_rate : number;
  cp_fee : number;
  cp_estimatedAmount : number;
  cp_slippageBps : option number;
  cp_liquidityPoolId : option string;
  cp_priority : option number;
}.

Definition route_data (params : RouteCreateParams) : exc (string → PaymentRoute Dec) :=
  rate ← decimal_column (cp_rate params);
  fee ← decimal_column (cp_fee params);
  estimatedAmount ← decimal_column (cp_estimatedAmount params);
  slippageBps ← int_column (default num_zero (cp_slippageBps params));
  priority ← int_column (default num_zero (cp_priority params));
  Ok (λ id, mkRoute id (toUpperCase (cp_senderCurrency params)) (toUpperCase (cp_receiverCurrency params))
    (cp_sourceAsset params) (toUpperCase (cp_targetRail params)) (cp_provider params) rate fee estimatedAmount
    slippageBps (cp_liquidityPoolId params) priority "ACTIVE").

Definition createRoute (params : RouteCreateParams) : call RouteCandidate :=
  data <~ Done (route_data params) ;;
  route <~ at_routes (create data) ;;
  pret (candidate_of route).

Definition getRouteById (routeId : string) : call (option RouteCandidate) :=
  route <~ read (λ w, findUnique routeId (fx_routes w)) ;;
  pret (candidate_of <$> route).

Definition set_route_status (status : string) (r : PaymentRoute Dec) : PaymentRoute Dec :=
  mkRoute (rt_id r) (rt_senderCurrency r) (rt_receiverCurrency r) (rt_sourceAsset r) (rt_targetRail r)
    (rt_provider r) (rt_rate r) (rt_fee r) (rt_estimatedAmount r) (rt_slippageBps r) (rt_liquidityPoolId r)
    (rt_priority r) status.
Definition updateRouteStatus (routeId status : string) : call RouteCandidate :=
  route <~ at_routes (update routeId (set_route_status status)) ;;
  pret (candidate_of route).

Definition list_where (sender receiver targetRail status : option string) (r : PaymentRoute Dec) : bool :=
  matches_upper sender (rt_senderCurrency r) && matches_upper receiver (rt_receiverCurrency r) &&
  matches_upper targetRail (rt_targetRail r) &&
  bool_decide (rt_status r = if truthy_opt status then toUpperCase (default "" status) else "ACTIVE").
Definition listRoutes (sender receiver targetRail status : option string) : call (list RouteCandidate) :=
  dbRoutes <~ find_routes (list_where sender receiver targetRail status) ;;
  pret (candidate_of <$> dbRoutes).

(** The calls of the two services. *)
Inductive fx_call : call unit → Prop :=
| call_requestQuote routeId amount ttl user : fx_call (forget (requestQuote routeId amount ttl user))
| call_lockQuote id : fx_call (forget (lockQuote id))
| call_markExecuted id : fx_call (forget (markExecuted id))
| call_getQuoteStatus id : fx_call (forget (getQuoteStatus id))
| call_expireStaleQuotes : fx_call (forget expireStaleQuotes)
| call_findOptimalRoutes s r a t : fx_call (forget (findOptimalRoutes s r a t))
| call_createRoute params : fx_call (forget (createRoute params))
| call_getRouteById id : fx_call (forget (getRouteById id))
| call_updateRouteStatus id status : fx_call (forget (updateRouteStatus id status))
| call_listRoutes s r t st : fx_call (forget (listRoutes s r t st))
| call_getDerivedRate b q : fx_call (forget (getDerivedRate b q)).

(** Other users of the market rate service, and time. *)
Definition market_moves (w w' : state) : Prop := fx_routes w' = fx_routes w ∧ fx_quotes w' = fx_quotes w.
End services.

(** ** Every interleaving *)
Section interleaving.
Context {Dec TR TQ S : Type} `{!MoneyColumns Dec}.
Context `{!PrismaTable string (PaymentRoute Dec) TR} `{!PrismaTable string (FxQuote Dec) TQ} `{!RateFeed S}.
Notation state := (fx TR TQ S).
Implicit Types (q : FxQuote Dec) (w : state).

(** What was agreed *)
Definition same_terms q q' : Prop :=
  fq_id q' = fq_id q ∧ fq_paymentRouteId q' = fq_paymentRouteId q ∧ fq_userAddress q' = fq_userAddress q ∧
  fq_senderCurrency q' = fq_senderCurrency q ∧ fq_receiverCurrency q' = fq_receiverCurrency q ∧
  fq_inputAmount q' = fq_inputAmount q ∧ fq_outputAmount q' = fq_outputAmount q ∧ fq_rate q' = fq_rate q ∧
  fq_fee q' = fq_fee q ∧ fq_slippageBps q' = fq_slippageBps q ∧ fq_expiresAt q' = fq_expiresAt q ∧
  fq_createdAt q' = fq_createdAt q.
#[export] Instance same_terms_preorder : PreOrder same_terms.
Proof.
  split; [by intros q; repeat split|].
  intros q q' q'' (?&?&?&?&?&?&?&?&?&?&?&?) (?&?&?&?&?&?&?&?&?&?&?&?). repeat split; congruence.
Qed.

(** The recorded deviation is that of the rate from the recorded live rate, which the check
    let pass. *)
Definition checked q : Prop := ∃ rate feed,
  (rate = decimal_number (fq_rate q) ∨ decimal_column rate = Ok (fq_rate q)) ∧
  decimal_column feed = Ok (fq_liveFeedRate q) ∧
  num_ltb MAX_DEVIATION_BPS (calculateDeviationBps rate feed) = false ∧
  int_column (calculateDeviationBps rate feed) = Ok (fq_rateDeviationBps q).
(** The recorded output is that of the recorded input at the recorded rate and fee. *)
Definition priced q : Prop := ∃ amount rate fee,
  num_leb amount num_zero = false ∧ decimal_column amount = Ok (fq_inputAmount q) ∧
  decimal_column rate = Ok (fq_rate q) ∧ decimal_column fee = Ok (fq_fee q) ∧
  decimal_column (calculateOutputAmount amount rate fee) = Ok (fq_outputAmount q).
Definition quote_statuses : list string := ["PENDING"; "LOCKED"; "EXPIRED"; "EXECUTED"].

Definition quote_ok q : Prop :=
  checked q ∧ priced q ∧ fq_status q ∈ quote_statuses ∧ (fq_status q = "LOCKED" → is_Some (fq_lockedAt q)).

Definition quotes_ok w : Prop := ∀ k q, rows (fx_quotes w) !! k = Some q → fq_id q = k ∧ quote_ok q.
Definition quotes_kept w w' : Prop :=
  ∀ k q, rows (fx_quotes w) !! k = Some q → ∃ q', rows (fx_quotes w') !! k = Some q' ∧ same_terms q q'.
#[export] Instance quotes_kept_preorder : PreOrder quotes_kept.
Proof.
  split; [by intros w k q Hq; exists q|]. intros w w' w'' H1 H2 k q Hq.
  destruct (H1 k q Hq) as (q' & Hq' & T1). destruct (H2 k q' Hq') as (q'' & Hq'' & T2).
  exists q''. split; [done|by etrans].
Qed.

Lemma checked_bound q : checked q → fq_rateDeviationBps q <= 50.
Proof.
  intros (rate & feed & _ & _ & Hl & Hi). destruct (int_column_value _ _ Hi) as [Hv Hz].
  apply (num_le_of_Z 50 (calculateDeviationBps rate feed)); [done|lia|lia|done].
Qed.

Notation fine := (well_behaved quotes_ok quotes_kept).

Lemma quotes_same w w' : rows (fx_quotes w') = rows (fx_quotes w) → quotes_ok w → quotes_ok w' ∧ quotes_kept w w'.
Proof. unfold quotes_ok, quotes_kept. intros -> HI. split; [done|]. intros k q Hq. by exists q. Qed.

Lemma fine_read {A} (f : state → exc A) : fine (read f).
Proof. apply well_behaved_await. intros w HI. by apply quotes_same. Qed.
Lemma fine_routes {A} (c : M TR A) : fine (at_routes (TQ := TQ) (S := S) c).
Proof. apply well_behaved_await. intros w HI. apply quotes_same; [|done]. unfold final. by destruct (c _). Qed.
Lemma fine_market {A} (c : M S A) : fine (at_market (TR := TR) (TQ := TQ) c).
Proof. apply well_behaved_await. intros w HI. apply quotes_same; [|done]. unfold final. by destruct (c _). Qed.
Lemma fine_done {A} (r : exc A) : fine (Done r).
Proof. done. Qed.
#[local] Hint Resolve fine_read fine_routes fine_market fine_done : sf.
Lemma fine_clock : fine clock.
Proof. apply fine_read. Qed.
#[local] Hint Resolve fine_clock : sf.

Lemma fine_live a b : fine (getLiveFeedRate a b).
Proof. unfold getLiveFeedRate, getDerivedRate. behave. Qed.
Lemma fine_refused id r a b n e : fine (refused_quote id r a b n e).
Proof. unfold refused_quote. behave. Qed.
#[local] Hint Resolve fine_live fine_refused : sf.

(** The state after a statement on the quotes *)
Definition with_quotes w (d : TQ) : state := mkFx (fx_routes w) d (fx_market w).

Lemma update_quote id f w d r :
  quotes_ok w → (∀ q, rows (fx_quotes w) !! id = Some q → quote_ok (f q) ∧ same_terms q (f q)) →
  update id f (fx_quotes w) = (r, d) → quotes_ok (with_quotes w d) ∧ quotes_kept w (with_quotes w d).
Proof.
  intros HI Hf Hu. destruct r as [q1|e]; [|apply update_err in Hu].
  - apply update_ok in Hu as (q0 & Hq0 & -> & Hd). destruct (Hf q0 Hq0) as [Hok Ht]. split.
    + intros k q. simpl. rewrite Hd. intros [[<- <-]|[_ Hq]]%lookup_insert_Some; [|by apply HI].
      split; [|done]. destruct Ht as [-> _]. by apply (HI _ _ Hq0).
    + intros k q Hq. simpl. rewrite Hd. destruct (decide (k = id)) as [->|Hne].
      * rewrite lookup_insert_eq. exists (f q0). split; [done|]. congruence.
      * rewrite lookup_insert_ne by done. by exists q.
  - by apply quotes_same.
Qed.

Lemma quote_with_status_ok q : quote_ok q → quote_ok (quote_with_status "EXPIRED" q) ∧ same_terms q (quote_with_status "EXPIRED" q).
Proof.
  intros (Hc & Hp & _ & _). split; [|by repeat split]. split_and!; [exact Hc|exact Hp|set_solver|done].
Qed.
Lemma quote_executed_ok t q : quote_ok q → quote_ok (quote_executed t q) ∧ same_terms q (quote_executed t q).
Proof.
  intros (Hc & Hp & _ & _). split; [|by repeat split]. split_and!; [exact Hc|exact Hp|set_solver|done].
Qed.

Lemma fine_update id f : (∀ q, quote_ok q → quote_ok (f q) ∧ same_terms q (f q)) →
  fine (at_quotes (TR := TR) (S := S) (update id f)).
Proof.
  intros Hf. apply well_behaved_await. intros w HI. unfold final.
  destruct (update id f (fx_quotes w)) as [r d] eqn:Hu. simpl. eapply update_quote; [done| |exact Hu].
  intros q Hq. by apply Hf, (HI _ _ Hq).
Qed.
Lemma fine_expire id : fine (at_quotes (TR := TR) (S := S) (update id (quote_with_status "EXPIRED"))).
Proof. apply fine_update, quote_with_status_ok. Qed.
#[local] Hint Resolve fine_expire : sf.

Lemma fine_expire_many p : fine (at_quotes (TR := TR) (S := S) (updateMany p (quote_with_status "EXPIRED"))).
Proof.
  apply well_behaved_await. intros w HI. unfold final.
  destruct (updateMany p (quote_with_status "EXPIRED") (fx_quotes w)) as [[n|e] d] eqn:Hu; simpl.
  - apply updateMany_ok in Hu as [Hd _]. unfold quotes_ok, quotes_kept. simpl. rewrite Hd. split.
    + intros k q. rewrite lookup_fmap. intros (q0 & Hq0 & ->)%fmap_Some. destruct (HI _ _ Hq0) as [Hid Hok].
      destruct (p q0); [|done]. split; [done|]. by apply quote_with_status_ok.
    + intros k q Hq. rewrite lookup_fmap, Hq. eexists. split; [done|]. simpl. destruct (p q); [|done].
      by repeat split.
  - apply quotes_same; [|done]. by apply updateMany_err in Hu.
Qed.
#[local] Hint Resolve fine_expire_many : sf.

Lemma fine_create mk : (∀ id, fq_id (mk id) = id ∧ quote_ok (mk id)) → fine (at_quotes (TR := TR) (S := S) (create mk)).
Proof.
  intros Hmk. apply well_behaved_await. intros w HI. unfold final.
  destruct (create mk (fx_quotes w)) as [[q|e] d] eqn:Hc; simpl.
  - apply create_ok in Hc as (id & Hn & -> & Hd). unfold quotes_ok, quotes_kept. simpl. rewrite Hd. split.
    + intros k q. intros [[<- <-]|[_ Hq]]%lookup_insert_Some; [apply Hmk|by apply HI].
    + intros k q Hq. exists q. rewrite lookup_insert_ne by congruence. done.
  - apply quotes_same; [|done]. by apply create_err in Hc.
Qed.
Lemma quote_data_ok route routeId user amount feed ttl t data :
  num_leb amount num_zero = false →
  num_ltb MAX_DEVIATION_BPS (calculateDeviationBps (decimal_number (rt_rate route)) (lf_rate feed)) = false →
  quote_data route routeId user amount (calculateOutputAmount amount (decimal_number (rt_rate route))
    (decimal_number (rt_fee route))) (decimal_number (rt_rate route)) (decimal_number (rt_fee route)) feed
    (calculateDeviationBps (decimal_number (rt_rate route)) (lf_rate feed)) ttl t = Ok data →
  ∀ id, fq_id (data id) = id ∧ quote_ok (data id).
Proof.
  intros Ha Hl. unfold quote_data.
  do 8 (intros (? & ? & Hd)%bind_Ok; revert Hd). intros [= <-] id. split; [done|].
  split_and!; [by eexists _, _; eauto|by eexists _, _, _; eauto 6|set_solver|done].
Qed.

Lemma fine_request routeId amount ttl user : fine (requestQuote routeId amount ttl user).
Proof.
  unfold requestQuote, quote_route. apply well_behaved_catch; [apply _| |intros; auto with sf].
  destruct (num_leb amount num_zero) eqn:Ha; [auto with sf|]. behave.
  eapply fine_create, quote_data_ok; done.
Qed.

(** The quote a lock read is still there, with its terms. *)
Definition still_there id q w : Prop := ∃ q', rows (fx_quotes w) !! id = Some q' ∧ same_terms q q'.
Lemma still_there_kept id q w w' : still_there id q w → quotes_kept w w' → still_there id q w'.
Proof.
  intros (q' & Hq' & Ht) Hk. destruct (Hk _ _ Hq') as (q'' & Hq'' & Ht'). exists q''. split; [done|by etrans].
Qed.

Lemma lock_data_ok q q' feed deviation t data :
  deviation = calculateDeviationBps (decimal_number (fq_rate q)) (lf_rate feed) →
  num_ltb MAX_DEVIATION_BPS deviation = false → lock_data feed deviation t = Ok data →
  same_terms q q' → quote_ok q' → quote_ok (data q') ∧ same_terms q' (data q').
Proof.
  intros -> Hl Hd Ht (_ & Hp & _ & _). unfold lock_data in Hd.
  apply bind_Ok in Hd as (live & Hlive & (ts & _ & (dev & Hdev & [= <-])%bind_Ok)%bind_Ok).
  destruct Ht as (_&_&_&_&_&_&_&Hrate&_). split; [|by repeat split].
  split_and!; [|exact Hp|set_solver|by eexists].
  exists (decimal_number (fq_rate q)), (lf_rate feed). simpl. rewrite Hrate. split_and!; [by left|done..].
Qed.

Lemma guarantee_lock id q : guarantee quotes_ok quotes_kept (still_there id q) (lock_verified id q) (λ _ _, True).
Proof.
  unfold lock_verified. apply guarantee_stable; [apply still_there_kept|auto with sf| |done].
  intros [feed|]; [|by apply guarantee_fine, fine_refused].
  destruct (num_ltb MAX_DEVIATION_BPS _) eqn:Hl; [by apply guarantee_fine, fine_refused|].
  apply guarantee_stable; [apply still_there_kept|auto with sf| |done]. intros t.
  apply guarantee_sync; [|done]. intros data Hd.
  apply guarantee_bind; [apply _|]. apply guarantee_await. intros w HI (q' & Hq' & Ht). unfold final, outcome.
  destruct (update id data (fx_quotes w)) as [r d] eqn:Hu. simpl.
  destruct (update_quote id data w d r HI) as [HI' HR]; [|exact Hu|].
  - intros q0 Hq0. assert (q0 = q') as -> by congruence. eapply lock_data_ok; [done..|by apply (HI _ _ Hq')].
  - split_and!; [done..|]. by destruct r.
Qed.

Lemma fine_lock id : fine (lockQuote id).
Proof.
  unfold lockQuote. apply well_behaved_catch; [apply _| |intros; apply fine_refused].
  apply guarantee_bind; [apply _|]. apply guarantee_read; [apply _|done|]. intros w w' HI _ HR HI'. cbv [outcome fst].
  destruct (findUnique id (fx_quotes w)) as [[q|]|e] eqn:Hf; [|by apply guarantee_fine, fine_refused|done].
  assert (still_there id q w') as Hs by (eapply still_there_kept; [|exact HR]; apply findUnique_ok in Hf; by exists q).
  eapply guarantee_pre; [|intros w'' _ Hw''; by eapply still_there_kept].
  case_decide; [|by apply guarantee_fine, fine_refused].
  apply guarantee_stable; [apply still_there_kept|auto with sf| |done]. intros t.
  case_match; [|apply guarantee_lock]. apply guarantee_fine. unfold failedResult. behave.
Qed.

Lemma fine_call p : fx_call p → fine p.
Proof.
  assert (∀ A (c : prog state A), fine c → fine (forget c)) as Hforget.
  { intros A c Hc. apply well_behaved_bind; [apply _|done|by intros]. }
  intros Hp. destruct Hp; apply Hforget.
  - apply fine_request.
  - apply fine_lock.
  - apply well_behaved_bind; [apply _|apply fine_clock|]. intros t. apply well_behaved_bind; [apply _| |by intros].
    apply fine_update. intros q. apply quote_executed_ok.
  - unfold getQuoteStatus. behave.
  - unfold expireStaleQuotes. behave.
  - unfold findOptimalRoutes, find_routes. behave.
  - unfold createRoute. behave.
  - unfold getRouteById. behave.
  - unfold updateRouteStatus. behave.
  - unfold listRoutes, find_routes. behave.
  - unfold getDerivedRate. behave.
Qed.

(** C12. However the calls of the two services interleave, and whatever fails: the terms of a
    quote never change, and every quote was checked: its recorded deviation is what
    [calculateDeviationBps] gives for its rate and the live rate recorded with it, at most
    50, and its output amount is that of its input at its rate and fee. The deviation is
    rounded to whole basis points, and is zero for a live rate of zero and not positive for
    a negative one ([check_needs_positive_rate]): the rate itself may be further from the
    live rate than that. *)
Theorem quotes_keep_terms_and_checks w ps w' :
  quotes_ok w → rtc (step fx_call market_moves) ([], w) (ps, w') →
  (∀ k q, rows (fx_quotes w) !! k = Some q → ∃ q', rows (fx_quotes w') !! k = Some q' ∧ same_terms q q') ∧
  (∀ k q, rows (fx_quotes w') !! k = Some q → checked q ∧ priced q ∧ fq_rateDeviationBps q <= 50).
Proof.
  intros HI Hr. destruct (interleaved_fresh quotes_ok quotes_kept fx_call market_moves fine_call) with (2 := HI) (3 := Hr)
    as [HI' HR].
  { intros w1 w2 H1 [_ Hm]. apply quotes_same; [|done]. by rewrite Hm. }
  split; [exact HR|]. intros k q Hq. destruct (HI' _ _ Hq) as [_ (Hc & Hp & _)].
  split_and!; [done..|]. by apply checked_bound.
Qed.
End interleaving.

(** ** One call after the other *)
Section serial.
Context {Dec TR TQ S : Type} `{!MoneyColumns Dec}.
Context `{!PrismaTable string (PaymentRoute Dec) TR} `{!PrismaTable string (FxQuote Dec) TQ} `{!RateFeed S}.
Notation state := (fx TR TQ S).
Implicit Types (q : FxQuote Dec) (w : state).

Definition status_step (s s' : string) : Prop :=
  s' = s ∨ (s = "PENDING" ∧ (s' = "LOCKED" ∨ s' = "EXPIRED")) ∨ s' = "EXECUTED".
#[export] Instance status_step_preorder : PreOrder status_step.
Proof.
  split; [by left|]. unfold status_step.
  intros s s' s'' [->|[[-> [-> | ->]]| ->]] [->|[[E [-> | ->]]| ->]]; try discriminate E; auto.
Qed.

Definition lives w w' : Prop := ∀ k q, rows (fx_quotes w) !! k = Some q →
  ∃ q', rows (fx_quotes w') !! k = Some q' ∧ status_step (fq_status q) (fq_status q').
#[export] Instance lives_preorder : PreOrder lives.
Proof.
  split; [by intros w k q Hq; exists q|]. intros w w' w'' H1 H2 k q Hq.
  destruct (H1 k q Hq) as (q' & Hq' & T1). destruct (H2 k q' Hq') as (q'' & Hq'' & T2).
  exists q''. split; [done|by etrans].
Qed.
Lemma lives_same w w' : rows (fx_quotes w') = rows (fx_quotes w) → lives w w'.
Proof. intros Hr k q Hq. exists q. rewrite Hr. by split. Qed.

Lemma lives_update id f w d r :
  (∀ q, rows (fx_quotes w) !! id = Some q → status_step (fq_status q) (fq_status (f q))) →
  update id f (fx_quotes w) = (r, d) → lives w (with_quotes w d).
Proof.
  intros Hf Hu k q Hq. pose proof (update_at id f (fx_quotes w)) as Ha. pose proof (update_other id k f (fx_quotes w)) as Ho.
  rewrite Hu in *. simpl in *. destruct (decide (k = id)) as [->|Hne].
  - destruct (Ha q Hq) as [->| ->]; eexists; (split; [done|]); [done|by apply Hf].
  - rewrite Ho by done. by exists q.
Qed.

Notation mild := (well_behaved (λ _, True) lives).

Lemma mild_same {A} (c : M state A) : (∀ w, rows (fx_quotes (final c w)) = rows (fx_quotes w)) → mild (await c).
Proof. intros Hc. apply well_behaved_await. intros w _. split; [done|]. by apply lives_same. Qed.
Lemma mild_read {A} (f : state → exc A) : mild (read f).
Proof. by apply mild_same. Qed.
Lemma mild_routes {A} (c : M TR A) : mild (at_routes (TQ := TQ) (S := S) c).
Proof. apply mild_same. intros w. unfold final. by destruct (c _). Qed.
Lemma mild_market {A} (c : M S A) : mild (at_market (TR := TR) (TQ := TQ) c).
Proof. apply mild_same. intros w. unfold final. by destruct (c _). Qed.
Lemma mild_done {A} (r : exc A) : mild (Done r).
Proof. done. Qed.
Lemma mild_clock : mild clock.
Proof. apply mild_read. Qed.
#[local] Hint Resolve mild_read mild_routes mild_market mild_done mild_clock : sf.

Lemma mild_refused id r a b n e : mild (refused_quote id r a b n e).
Proof. unfold refused_quote. behave. Qed.
Lemma mild_create mk : mild (at_quotes (TR := TR) (S := S) (create mk)).
Proof.
  apply well_behaved_await. intros w _. split; [done|]. intros k q Hq. exists q. split; [|done].
  pose proof (create_keeps mk (fx_quotes w) k q Hq) as Hk. unfold final. by destruct (create mk (fx_quotes w)).
Qed.
Lemma mild_execute id t : mild (at_quotes (TR := TR) (S := S) (update id (quote_executed t))).
Proof.
  apply well_behaved_await. intros w _. split; [done|]. unfold final.
  destruct (update id (quote_executed t) (fx_quotes w)) as [r d] eqn:Hu. eapply lives_update; [|exact Hu].
  intros q _. by right; right.
Qed.
Lemma mild_expire_many t : mild (at_quotes (TR := TR) (S := S) (updateMany (is_stale t) (quote_with_status "EXPIRED"))).
Proof.
  apply well_behaved_await. intros w _. split; [done|]. intros k q Hq. unfold final.
  pose proof (updateMany_at (is_stale t) (quote_with_status "EXPIRED") (fx_quotes w) k q Hq) as Ha.
  destruct (updateMany _ _ (fx_quotes w)) as [r d]. simpl in *.
  destruct Ha as [->|[[Hs%bool_decide_eq_true _]%andb_true_iff ->]]; eexists; (split; [done|]); [done|].
  right. left. split; [done|by right].
Qed.
#[local] Hint Resolve mild_refused mild_create mild_execute mild_expire_many : sf.

(** A part of a call that leaves the quotes alone. *)
Definition untouched w w' : Prop := rows (fx_quotes w') = rows (fx_quotes w).
#[export] Instance untouched_preorder : PreOrder untouched.
Proof. split; [done|]. unfold untouched. intros w w' w'' H1 H2. congruence. Qed.
Lemma untouched_live a b : well_behaved (λ _, True) untouched (getLiveFeedRate (TR := TR) (TQ := TQ) a b).
Proof.
  assert (∀ A (c : M S A), well_behaved (λ _, True) untouched (at_market (TR := TR) (TQ := TQ) c)) as Hm.
  { intros A c. apply well_behaved_await. intros w _. split; [done|]. unfold untouched, final. by destruct (c _). }
  unfold getLiveFeedRate, getDerivedRate. behave.
Qed.
Lemma mild_live a b : mild (getLiveFeedRate a b).
Proof. unfold getLiveFeedRate, getDerivedRate. behave. Qed.
#[local] Hint Resolve mild_live : sf.

(** A fine part at the end of a call. *)
Lemma wp_mild {A} (p : prog state A) w0 w :
  mild p → lives w0 w → wp (run p) (λ _, lives w0) (λ _, lives w0) w.
Proof.
  intros Hp Hw. eapply wp_mono; [apply (guarantee_run (λ _, True) lives (λ _, True) p (λ _ _, True)); done| |];
    intros ? w' (_ & Hl & _); by etrans.
Qed.

(** Writing the status of a quote read a moment ago. *)
Lemma wp_update_pending {A} id f q w (k : FxQuote Dec → prog state A) :
  rows (fx_quotes w) !! id = Some q → fq_status q = "PENDING" →
  (fq_status (f q) = "LOCKED" ∨ fq_status (f q) = "EXPIRED") → (∀ q, mild (k q)) →
  wp (run (x <~ at_quotes (update id f) ;; k x)) (λ _, lives w) (λ _, lives w) w.
Proof.
  intros Hq Hs Hf Hk. apply wp_pbind, wp_await. unfold wp.
  destruct (update id f (fx_quotes w)) as [r d] eqn:Hu.
  assert (lives w (with_quotes w d)) as Hl.
  { eapply lives_update; [|exact Hu]. intros q' Hq'. assert (q' = q) as -> by congruence. right. left. done. }
  destruct r as [q1|e]; [|done]. by apply wp_mild.
Qed.

Lemma serial_lock id w : wp (run (lockQuote id)) (λ _, lives w) (λ _, lives w) w.
Proof.
  unfold lockQuote. apply wp_pcatch, (wp_mono _ (λ _, lives w) _ (λ _, lives w)); [|done|intros e w' Hw'; by apply wp_mild; [apply mild_refused|]].
  apply wp_pbind, wp_await. unfold wp at 1.
  destruct (findUnique id (fx_quotes w)) as [[q|]|e] eqn:Hf; [|by apply wp_mild; [apply mild_refused|]|done].
  apply findUnique_ok in Hf. case_decide as Hs; [|by apply wp_mild; [apply mild_refused|]].
  apply wp_pbind, wp_await. unfold wp at 1. case_match.
  - apply (wp_update_pending id _ q); [done|done|by right|]. intros _. apply mild_refused.
  - unfold lock_verified. apply wp_pbind.
    eapply wp_mono; [by apply (guarantee_run (λ _, True) untouched (λ _, True) _ (λ _ _, True) w (untouched_live _ _))| |].
    + intros feed w1 (_ & Hu & _). unfold untouched in Hu. rewrite <-Hu in Hf.
      assert (lives w w1) as Hl by by apply lives_same.
      assert (∀ e, wp (run (failedResult id (fq_senderCurrency q) (decimal_number (fq_inputAmount q)) e))
        (λ _, lives w) (λ _, lives w) w1) as Hfail by (intros e; by apply wp_mild; [apply mild_refused|]).
      destruct feed as [feed|]; [|apply Hfail]. case_match; [apply Hfail|].
      apply wp_pbind, wp_await. unfold wp at 1. apply wp_sync; [|done]. intros data Hd.
      eapply wp_mono; [apply (wp_update_pending id data q)| |]; [done|done| |done|intros ? w2 ?; by etrans..].
      left. unfold lock_data in Hd. by apply bind_Ok in Hd as (? & _ & (? & _ & (? & _ & [= <-])%bind_Ok)%bind_Ok).
    + intros e w1 (_ & Hu & _). by apply lives_same.
Qed.

Lemma serial_status id w : wp (run (getQuoteStatus id)) (λ _, lives w) (λ _, lives w) w.
Proof.
  unfold getQuoteStatus. apply wp_pbind, wp_await. unfold wp at 1.
  destruct (findUnique id (fx_quotes w)) as [[q|]|e] eqn:Hf; [|exact (reflexivity w)..].
  apply findUnique_ok in Hf. apply wp_pbind, wp_await. unfold wp at 1.
  case_match eqn:Hs; [|exact (reflexivity w)]. apply andb_true_iff in Hs as [Hs%bool_decide_eq_true _].
  apply (wp_update_pending id _ q); [done|done|by right|done].
Qed.

(** One call, or something else happening between two calls. *)
Inductive serial_step w : state → Prop :=
| serial_call p : fx_call p → serial_step w (final (run p) w)
| serial_market w' : market_moves w w' → serial_step w w'.

Lemma serial_lives w w' : serial_step w w' → lives w w'.
Proof.
  assert (∀ A (c : prog state A), wp (run c) (λ _, lives w) (λ _, lives w) w → lives w (final (run (forget c)) w)) as Hforget.
  { intros A c Hc. apply (wp_final _ (lives w)). apply wp_pbind. eapply wp_mono; [exact Hc|done|done]. }
  assert (∀ A (c : prog state A), mild c → lives w (final (run (forget c)) w)) as Hmild.
  { intros A c Hc. by apply Hforget, wp_mild. }
  intros [p Hp|w1 [_ Hm]]; [|apply lives_same; by rewrite Hm].
  destruct Hp; [apply Hmild|apply Hforget, serial_lock|apply Hmild|apply Hforget, serial_status|apply Hmild..].
  - unfold requestQuote, quote_route. behave.
  - unfold markExecuted. behave.
  - unfold expireStaleQuotes. behave.
  - unfold findOptimalRoutes, find_routes. behave.
  - unfold createRoute. behave.
  - unfold getRouteById. behave.
  - unfold updateRouteStatus. behave.
  - unfold listRoutes, find_routes. behave.
  - unfold getDerivedRate. behave.
Qed.

(** Calls made one after the other: a pending quote is locked or expires, and then stays so
    until it is executed, which any quote can be at any time; a locked quote does not expire,
    an expired one is not locked. *)
Theorem quote_lifecycle w w' id q :
  rtc serial_step w w' → rows (fx_quotes w) !! id = Some q →
  ∃ q', rows (fx_quotes w') !! id = Some q' ∧ status_step (fq_status q) (fq_status q').
Proof.
  intros Hs. assert (lives w w') as Hl; [|by apply Hl].
  induction Hs as [|w w1 w2 H1 _ IH]; [done|]. etrans; [by apply serial_lives|done].
Qed.
End serial.

(** ** The check and the ranking *)
Section numbers.
Context {Dec TR TQ S : Type} `{!MoneyColumns Dec}.
Context `{!PrismaTable string (PaymentRoute Dec) TR} `{!PrismaTable string (FxQuote Dec) TQ} `{!RateFeed S}.
Notation state := (fx TR TQ S).

(** The check compares with the live rate only when that is positive: a live rate that is
    zero, negative or not a number lets every rate of a route pass. *)
Theorem check_needs_positive_rate (rate feed : number) :
  num_eqb feed num_zero = true ∨ isNaN feed = true ∨ signed true feed →
  num_ltb MAX_DEVIATION_BPS (calculateDeviationBps rate feed) = false.
Proof.
  intros Hfeed. unfold calculateDeviationBps. destruct (num_eqb feed num_zero) eqn:Hz; [by vm_compute|].
  destruct Hfeed as [[=]|[Hn|Hs]].
  - destruct feed; try done. assert (∀ x, num_div x S754_nan = S754_nan) as -> by (by intros []). by vm_compute.
  - apply num_ltb_signed, math_round_signed.
    apply (num_mul_signed true false); [|by vm_compute]. apply (num_div_signed false true); [|done].
    unfold math_abs. by destruct (num_sub rate feed).
Qed.

(** The routes offered are the active ones of the pair, best score first. *)
Theorem routes_best_first sender receiver (amount : number) rail (w w' : state) res :
  run (findOptimalRoutes sender receiver amount rail) w = (Ok res, w') → rr_success res = true →
  w' = w ∧
  rr_routes res ≡ₚ candidate_of <$> filter (λ r, optimal_where (toUpperCase sender) (toUpperCase receiver) rail r = true)
                                      (map_to_list (rows (fx_routes w))).*2 ∧
  (Forall (λ r, valid_num (scoreRoute r amount) ∧ isFinite (scoreRoute r amount) = true) (rr_routes res) →
   StronglySorted (λ a b, num_val (scoreRoute b amount) ≤ num_val (scoreRoute a amount)) (rr_routes res)).
Proof.
  intros Hrun Hs. pose proof Hrun as Hw. revert Hw. unfold findOptimalRoutes. rewrite run_pcatch.
  unfold try_catch. case_decide; [by intros [= <- _]|]. destruct (num_leb amount num_zero); [by intros [= <- _]|].
  rewrite run_pbind. unfold find_routes, read, bind. rewrite run_await.
  destruct (findAll (fx_routes w)) as [l|e] eqn:Hl; [|by intros [= <- _]].
  apply findAll_ok in Hl. case_decide; [by intros [= <- _]|]. intros [= <- <-]. split; [done|]. simpl. split.
  - rewrite js_sort_perm, merge_sort_Permutation, Hl. done.
  - intros HF. set (cs := candidate_of <$> _) in *.
    assert (StronglySorted (λ a b, (- num_val (scoreRoute a amount) ≤ - num_val (scoreRoute b amount))%Z)
      (js_sort (by_score amount) cs)) as Hsort.
    { apply (js_sort_sorted _ (λ r, - num_val (scoreRoute r amount))%Z). intros x y Hx Hy.
      rewrite Forall_forall in HF.
      destruct (HF x) as [Vx Fx]; [by rewrite js_sort_perm|]. destruct (HF y) as [Vy Fy]; [by rewrite js_sort_perm|].
      unfold by_score. rewrite (proj1 (num_sub_sign _ _ Vy Vx Fy Fx)), num_ltb_val by done. apply bool_decide_ext. lia. }
    revert Hsort. clear. generalize (js_sort (by_score amount) cs). intros k Hsort.
    induction Hsort as [|x k' Hs' IH Hf]; [constructor|]. constructor; [done|].
    eapply Forall_impl; [exact Hf|]. simpl. lia.
Qed.
End numbers.

(** ** Between the statements of a lock *)
Section race.
Context {Dec TR S : Type} `{!MoneyColumns Dec} `{!PrismaTable string (PaymentRoute Dec) TR} `{!RateFeed S}.
Notation quotes := (gmap string (FxQuote Dec)).
Notation state := (fx TR quotes S).
Implicit Types (w : state).

Definition status_of (id : string) w : option string := fq_status <$> fx_quotes w !! id.

(** C25. A lock that has begun while its quote was pending completes although the quote has
    expired meanwhile, and another call has recorded that: the quote goes from expired to
    locked, at a time after its expiry. *)
Theorem expired_quote_is_locked (routes : TR) (qs : quotes) id q (s0 s1 : S) feed live ts deviation :
  qs !! id = Some q → fq_status q = "PENDING" → feed_now s0 <= fq_expiresAt q → fq_expiresAt q < feed_now s1 →
  (∀ qs', run (getLiveFeedRate (TR := TR) (TQ := quotes) (fq_senderCurrency q) (fq_receiverCurrency q)) (mkFx routes qs' s1)
           = (Ok (Some feed), mkFx routes qs' s1)) →
  num_ltb MAX_DEVIATION_BPS (calculateDeviationBps (decimal_number (fq_rate q)) (lf_rate feed)) = false →
  decimal_column (lf_rate feed) = Ok live → lf_timestamp feed = Some ts →
  int_column (calculateDeviationBps (decimal_number (fq_rate q)) (lf_rate feed)) = Ok deviation →
  ∃ ps w1 ps' w2,
    rtc (step fx_call market_moves) ([], mkFx routes qs s0) (ps, w1) ∧ status_of id w1 = Some "EXPIRED" ∧
    rtc (step fx_call market_moves) (ps, w1) (ps', w2) ∧ status_of id w2 = Some "LOCKED" ∧
    fq_lockedAt <$> fx_quotes w2 !! id = Some (Some (feed_now s1)).
Proof.
  intros Hq Hp H0 H1 Hfeed Hdev Hlive Hts Hdeviation.
  set (w0 := mkFx routes qs s0). set (w0' := mkFx routes qs s1).
  set (rest := forget (pcatch (lock_verified id q) (λ error, failedResult id "" num_zero (err_message error))) : prog state unit).
  set (qs1 := (λ q, if is_stale (feed_now s1) q then quote_with_status "EXPIRED" q else q) <$> qs).
  set (w1 := mkFx routes qs1 s1).
  assert (qs1 !! id = Some (quote_with_status "EXPIRED" q)) as Hq1.
  { unfold qs1. rewrite lookup_fmap, Hq. simpl. unfold is_stale. rewrite bool_decide_true by done.
    by rewrite (proj2 (Z.ltb_lt _ _)). }
  assert (rtc (step fx_call market_moves) ([], w0) ([rest], w0)) as S1.
  { eapply rtc_l; [apply step_call, (call_lockQuote id)|]. simpl.
    match goal with |- rtc _ ([?p], _) _ => pose proof (schedule_steps fx_call market_moves [0; 0]%nat [p] w0) as Hs end.
    etrans; [exact Hs|]. clear Hs. cbn [schedule lookup list_lookup]. unfold outcome, final. cbn -[lock_verified failedResult].
    rewrite Hq. cbn -[lock_verified failedResult]. rewrite decide_True by done. cbn -[lock_verified failedResult].
    rewrite (proj2 (Z.ltb_ge _ _)) by done. done. }
  assert (rtc (step fx_call market_moves) ([rest], w0) ([rest; Done (Ok tt)], w1)) as S2.
  { eapply rtc_l; [by apply (step_env _ _ _ _ w0')|]. eapply rtc_l; [apply step_call, call_expireStaleQuotes|].
    match goal with |- rtc _ (?ps, _) _ => pose proof (schedule_steps fx_call market_moves [1; 1]%nat ps w0') as Hs end.
    exact Hs. }
  assert (final (run rest) w1 = mkFx routes (<[id := quote_locked (feed_now s1) live (lf_source feed) ts deviation
    (quote_with_status "EXPIRED" q)]> qs1) s1) as Hlocked.
  { unfold final, rest, forget, pmap. rewrite run_pbind. unfold bind at 1. rewrite run_pcatch. unfold try_catch.
    unfold lock_verified. rewrite run_pbind. unfold bind at 1. unfold w1. rewrite Hfeed, Hdev.
    unfold lock_data. rewrite Hlive, Hts. cbn [date_column mbind exc_bind]. rewrite Hdeviation.
    cbn. unfold mem_update. unfold outcome, final. simpl. rewrite Hq1. done. }
  exists [rest; Done (Ok tt)], w1.
  pose proof (schedule_steps fx_call market_moves (replicate (steps_alone rest w1) 0%nat) [rest; Done (Ok tt)] w1) as S3.
  rewrite (schedule_alone 0 [rest; Done (Ok tt)] rest w1 eq_refl) in S3.
  eexists _, _. split; [by etrans|]. split; [unfold status_of; simpl; by rewrite Hq1|]. split; [exact S3|].
  rewrite Hlocked. unfold status_of. simpl. by rewrite lookup_insert_eq.
Qed.
End race.

(** ** The market rate service as the source of live rates *)

Definition market_rate_feed {DR DH R H : Type} `{!PrismaTable Z RawReviewRow DR}
    `{!PrismaTable history_key PriceHistoryRow DH} `{!LockdownRedis R} `{!MarketWorld H}
    (numeric_rate numeric_percent : number → jsval) (JSON_parse : string → exc jsval) (config : MarketConfig) :
    RateFeed (market DR DH R H) := {|
  feed_getRate := getRate numeric_rate numeric_percent JSON_parse config;
  feed_now := market_now;
|}.

(** ** Witnesses *)

#[export] Program Instance number_columns : MoneyColumns number := {|
  decimal_column x := if isFinite x then Ok x else Throw (Error "Invalid value");
  decimal_number x := x;
  decimal_ge a b := negb (num_ltb a b);
  int_column x := let z := trunc_Z x in
    if num_eqb x (num_of_Z z) && (Z.abs z <? 2 ^ 31) then Ok z else Throw (Error "Invalid value");
|}.
Next Obligation.
  simpl. intros x z. destruct (num_eqb x (num_of_Z (trunc_Z x))) eqn:He; [|done].
  destruct (Z.ltb_spec (Z.abs (trunc_Z x)) (2 ^ 31)); [|done]. by intros [= <-].
Qed.

(** Twelve shillings for a cedi, at any time. *)
Definition desk_rate (code : string) (t : Z) : EnrichedRate :=
  mkEnriched (mkRate code (if decide (code = "KES") then num_of_Z 12 else num_of_Z 1) (Some t) "desk" None) []
    (mkAssessment 0 false None None None None) false false None.
#[export] Instance desk_feed : RateFeed Z := {|
  feed_getRate code := λ t, (Ok (Fetched (desk_rate code t)), t);
  feed_now t := t;
|}.

Notation desk_state := (fx (gmap string (PaymentRoute number)) (gmap string (FxQuote number)) Z).
Definition kes_route : PaymentRoute number :=
  mkRoute "r1" "KES" "GHS" "XLM" "BANK" "desk" (num_of_Z 12) (num_of_Z 1) (num_of_Z 1199) 0 None 1 "ACTIVE".
Definition desk0 : desk_state := mkFx {["r1" := kes_route]} ∅ 0.
Definition ask_quote : prog desk_state unit := forget (requestQuote "r1" (num_of_Z 100) None None).
Definition kes_quote : FxQuote number :=
  mkQuote "q1" "r1" None "KES" "GHS" (num_of_Z 100) (num_of_Z 1199) (num_of_Z 12) (num_of_Z 1) 0 (num_of_Z 12)
    "desk" 0 0 "PENDING" 300000 None None 0.

Lemma quotes_keep_terms_and_checks_witness :
  size (fx_quotes (final (run ask_quote) desk0)) = 1%nat ∧
  map_Forall (λ _ q, fq_rateDeviationBps q <= 50) (fx_quotes (final (run ask_quote) desk0)).
Proof.
  split; [vm_compute; reflexivity|]. intros k q Hq.
  assert (quotes_ok desk0) as HI by (intros k' q' Hq'; discriminate Hq').
  exact (proj2 (proj2 (proj2 (quotes_keep_terms_and_checks desk0 _ _ HI
    (run_reachable fx_call market_moves ask_quote desk0 (call_requestQuote _ _ _ _))) k q Hq))).
Defined.

Definition desk1 : desk_state := mkFx {["r1" := kes_route]} {["q1" := kes_quote]} 1000.
Lemma quote_lifecycle_witness :
  ∃ q', rows (fx_quotes (final (run (forget (lockQuote "q1"))) desk1)) !! "q1" = Some q' ∧
    status_step (fq_status kes_quote) (fq_status q').
Proof.
  assert (rtc serial_step desk1 (final (run (forget (lockQuote "q1"))) desk1)) as Hs
    by (apply rtc_once, serial_call, call_lockQuote).
  assert (rows (fx_quotes desk1) !! "q1" = Some kes_quote) as Hq by reflexivity.
  exact (quote_lifecycle desk1 _ "q1" kes_quote Hs Hq).
Defined.

Lemma check_needs_positive_rate_witness :
  num_ltb MAX_DEVIATION_BPS (calculateDeviationBps (num_of_Z 1000000) num_zero) = false.
Proof. apply check_needs_positive_rate. left. vm_compute. reflexivity. Defined.

Definition routes_found : exc RoutingResult :=
  outcome (run (findOptimalRoutes "kes" "ghs" (num_of_Z 100) None)) desk0.
Lemma routes_best_first_witness :
  match routes_found with Ok res => rr_routes res ≡ₚ [candidate_of kes_route] | Throw _ => False end.
Proof.
  assert (run (findOptimalRoutes "kes" "ghs" (num_of_Z 100) None) desk0
    = (Ok (mkRouting true [candidate_of kes_route] (num_of_Z 100) "KES" "GHS" None), desk0)) as Hrun
    by (vm_compute; reflexivity).
  unfold routes_found, outcome. pose proof (routes_best_first _ _ _ _ _ _ _ Hrun eq_refl) as A.
  rewrite Hrun. exact (proj1 (proj2 A)).
Defined.

(** The quote of the route expires at five minutes; the lock that began a minute before
    completes a minute after. *)
Lemma expired_quote_is_locked_witness :
  ∃ ps w1 ps' w2,
    rtc (step fx_call market_moves) ([], mkFx {["r1" := kes_route]} {["q1" := kes_quote]} 240000) (ps, w1) ∧
    status_of "q1" w1 = Some "EXPIRED" ∧
    rtc (step fx_call market_moves) (ps, w1) (ps', w2) ∧ status_of "q1" w2 = Some "LOCKED" ∧
    fq_lockedAt <$> fx_quotes w2 !! "q1" = Some (Some 360000).
Proof.
  pose proof (expired_quote_is_locked (TR := gmap string (PaymentRoute number)) (S := Z) {["r1" := kes_route]}
    {["q1" := kes_quote]} "q1" kes_quote 240000 360000
    (mkFeed (num_of_Z 12) "Synthetic (Derived from XLM rates)" (Some 360000)) (num_of_Z 12) 360000 0) as A.
  apply A; try (vm_compute; reflexivity); try (vm_compute; discriminate).
Defined.
