(* ===== verification/MultiSigSubmission.v ===== *)
(** * The poller that submits approved prices ([services/multiSigSubmissionService.ts])

    Every thirty seconds the poller looks for approved requests of [MultiSig] that were not
    submitted, and hands each with its stored signatures to the Stellar submission. Polls
    are programs of [Async]: several may be under way at once, among any calls of the
    multi-signature service. The state is that of [MultiSig] with the fields of the poller
    and the timers of the process. Proved: in every interleaving an envelope carries the
    signatures of as many distinct signers as its price requires, each as it was stored;
    but two polls that overlap submit the same price twice, and a poller stopped during its
    first poll goes on polling. *)

From stdpp Require Import pretty.
From S2P Require Import Prelude JsNumber JsString Prisma Service Async Timers MultiSig.

Local Open Scope Z_scope.

(** [isLockdownEnabled()] of the state module *)
Class LockdownSwitch (H : Type) := { isLockdownEnabled : M H bool }.

Record poller (D H : Type) := mkPoller {
  pl_svc : svc D H;
  pl_pollIntervalMs : Z;
  pl_isRunning : bool;
  pl_pollTimer : option nat;
  pl_timers : timers;
}.
Arguments mkPoller {D H} _ _ _ _ _.
Arguments pl_svc {D H} _.
Arguments pl_pollIntervalMs {D H} _.
Arguments pl_isRunning {D H} _.
Arguments pl_pollTimer {D H} _.
Arguments pl_timers {D H} _.

Section service.
Context {DP DS H Dec : Type}.
Context `{!PrismaTable Z (MultiSigPrice Dec) DP}.
Context `{!PrismaTable (Z * string) MultiSigSignature DS} `{!SigningWorld H} `{!LockdownSwitch H}.
Context (dec_toNumber : Dec → number).
Notation state := (poller (DP * DS) H).
Notation call := (prog state).

Definition with_svc (p : state) (w : svc (DP * DS) H) : state :=
  mkPoller w (pl_pollIntervalMs p) (pl_isRunning p) (pl_pollTimer p) (pl_timers p).
Definition at_svc {A} (c : M (svc (DP * DS) H) A) : call A := await (λ p,
  let '(r, w) := c (pl_svc p) in (r, with_svc p w)).

Definition clear_timer (p : state) : state :=
  mkPoller (pl_svc p) (pl_pollIntervalMs p) (pl_isRunning p) (pl_pollTimer p)
    (clearInterval (pl_pollTimer p) (pl_timers p)).
Definition set_timer (p : state) : state :=
  let '(id, timers) := setInterval (pl_pollIntervalMs p) (pl_timers p) in
  mkPoller (pl_svc p) (pl_pollIntervalMs p) (pl_isRunning p) (Some id) timers.

(** [findMany] with its [include]: two queries *)
Definition is_unsubmitted (p : MultiSigPrice Dec) : bool :=
  bool_decide (mp_status p = "APPROVED") && bool_decide (mp_submittedAt p = None).
Definition find_approved : call (list (MultiSigPrice Dec * list MultiSigSignature)) :=
  prices <~ at_svc (query (λ d, findAll d.1)) ;;
  let approved := filter (λ p, is_unsubmitted p = true) prices in
  sigs <~ at_svc (query (λ d, findAll d.2)) ;;
  pret ((λ p, (p, filter (λ s, ms_multiSigPriceId s = mp_id p) sigs)) <$> approved).

Definition memo_of (p : MultiSigPrice Dec) : string :=
  if truthy_opt (mp_memoId p) then default "" (mp_memoId p) else "MS-" +:+ id_str (mp_id p).

Definition submitApprovedPrice (price : MultiSigPrice Dec * list MultiSigSignature) : call unit :=
  let '(p, sigs) := price in
  let signatures := (λ s, (ms_signerPublicKey s, ms_signature s)) <$> sigs in
  if decide (signatures = []) then pret tt
  else
    let memoId := memo_of p in
    txHash <~ at_svc (on_env (submitMultiSignedPriceUpdate (mp_currency p) (dec_toNumber (mp_rate p)) memoId
                        signatures)) ;;
    at_svc (recordSubmission (mp_id p) memoId txHash None None) ;~
    at_svc (on_env (markContractSubmitted (mp_priceReviewId p) memoId txHash)).

Definition checkAndSubmitApprovedPrices : call unit :=
  pcatch
    (locked <~ at_svc (on_env isLockdownEnabled) ;;
     if locked : bool then pret tt
     else
       approvedPrices <~ find_approved ;;
       pfor approvedPrices (λ p, pcatch (submitApprovedPrice p) (λ _, pret tt)))
    (λ _, pret tt).

(** Up to the first [await] of [start]: is it running already? *)
Definition begin_start : call bool := await (λ p,
  (Ok (pl_isRunning p),
   mkPoller (pl_svc p) (pl_pollIntervalMs p) true (pl_pollTimer p) (pl_timers p))).
Definition start : call unit :=
  running <~ begin_start ;;
  if running : bool then pret tt
  else checkAndSubmitApprovedPrices ;~ await (modify set_timer).

Definition stop : call unit := await (modify (λ p,
  mkPoller (pl_svc p) (pl_pollIntervalMs p) false None (pl_timers (clear_timer p)))).

Definition restart (newIntervalMs : Z) : call unit := await (modify (λ p,
  if negb (pl_isRunning p) || (newIntervalMs =? pl_pollIntervalMs p) then p
  else
    let p := clear_timer p in
    set_timer (mkPoller (pl_svc p) newIntervalMs (pl_isRunning p) (pl_pollTimer p) (pl_timers p)))).

Definition cleanupExpired : call nat :=
  pcatch (at_svc cleanupExpiredRequests) (λ _, pret 0%nat).

Definition poller_status : call (bool * Z) := await (λ p, (Ok (pl_isRunning p, pl_pollIntervalMs p), p)).
End service.

(** ** All calls *)
Section calls.
Context {DP DS H Dec : Type}.
Context `{!PrismaTable Z (MultiSigPrice Dec) DP}.
Context `{!PrismaTable (Z * string) MultiSigSignature DS} `{!SigningWorld H} `{!LockdownSwitch H}.
Context (dec_of_number : number → Dec) (dec_toString : Dec → string) (dec_toNumber : Dec → number).
Context (self : MultiSigService).
Notation state := (poller (DP * DS) H).

Definition multisig_op_call (op : multisig_op) : M (svc (DP * DS) H) unit := λ w,
  (Ok tt, multisig_step dec_of_number dec_toString dec_toNumber self w op).

(** The calls of the poller, those a timer makes among them, and of the service. *)
Inductive poller_call : prog state unit → Prop :=
| call_poll : poller_call (checkAndSubmitApprovedPrices dec_toNumber)
| call_start : poller_call (start dec_toNumber)
| call_stop : poller_call stop
| call_restart ms : poller_call (restart ms)
| call_cleanup : poller_call (forget cleanupExpired)
| call_service op : poller_call (at_svc (multisig_op_call op)).
End calls.

(** ** What an envelope carries *)

Record Envelope := mkEnvelope {
  en_currency : string;
  en_rate : number;
  en_memoId : string;
  en_signatures : list (string * string);
}.

(** The envelopes handed to the submission so far, which only a submission adds to. *)
Class SubmissionLog (H : Type) `{!SigningWorld H} `{!LockdownSwitch H} := {
  envelopes : H → list Envelope;
  log_locked h : envelopes (final isLockdownEnabled h) = envelopes h;
  log_allowed h : envelopes (final assertSigningAllowed h) = envelopes h;
  log_sign m h : envelopes (final (signer_sign m) h) = envelopes h;
  log_post url token payload h : envelopes (final (axios_post_sign url token payload) h) = envelopes h;
  log_mark id memo tx h : envelopes (final (markContractSubmitted id memo tx) h) = envelopes h;
  log_observe m h : envelopes (observe m h) = envelopes h;
  log_submit currency rate memo sigs h :
    let h' := final (submitMultiSignedPriceUpdate currency rate memo sigs) h in
    envelopes h' = envelopes h ∨ envelopes h' = envelopes h ++ [mkEnvelope currency rate memo sigs];
}.

(** What else may happen: anything that neither writes the tables nor submits. *)
Definition outside_moves {D H} `{!SigningWorld H} `{!LockdownSwitch H} `{!SubmissionLog H} (s s' : poller D H) : Prop :=
  svc_db (pl_svc s') = svc_db (pl_svc s) ∧ envelopes (svc_env (pl_svc s')) = envelopes (svc_env (pl_svc s)).

Section quorum.
Context {DP DS H Dec : Type}.
Context `{!PrismaTable Z (MultiSigPrice Dec) DP}.
Context `{!PrismaTable (Z * string) MultiSigSignature DS} `{!SigningWorld H} `{!LockdownSwitch H} `{!SubmissionLog H}.
Context (dec_of_number : number → Dec) (dec_toString : Dec → string) (dec_toNumber : Dec → number).
Context (self : MultiSigService) (Hself : 1 <= REQUIRED_SIGNATURES self).
Notation db := (DP * DS)%type.
Notation world := (svc db H).
Implicit Types (d : db) (w : world) (p : MultiSigPrice Dec).

(** What never changes of a price *)
Definition same_price p p' : Prop :=
  mp_id p' = mp_id p ∧ mp_priceReviewId p' = mp_priceReviewId p ∧ mp_currency p' = mp_currency p ∧
  mp_rate p' = mp_rate p ∧ mp_requiredSignatures p' = mp_requiredSignatures p.
#[export] Instance same_price_preorder : PreOrder same_price.
Proof.
  split; [by intros p; repeat split|].
  intros p p' p'' (?&?&?&?&?) (?&?&?&?&?). repeat split; congruence.
Qed.

(** Prices and signatures are under their own keys. *)
Definition keyed d : Prop :=
  (∀ id p, rows d.1 !! id = Some p → mp_id p = id) ∧
  (∀ id key s, rows d.2 !! (id, key) = Some s → ms_multiSigPriceId s = id ∧ ms_signerPublicKey s = key).
(** Prices keep their terms, and signatures stay as they were stored. *)
Definition kept d d' : Prop :=
  (∀ id p, rows d.1 !! id = Some p → ∃ p', rows d'.1 !! id = Some p' ∧ same_price p p') ∧
  (∀ k s, rows d.2 !! k = Some s → rows d'.2 !! k = Some s).
#[export] Instance kept_preorder : PreOrder kept.
Proof.
  split; [split; [intros id p Hp; by exists p|done]|].
  intros d d' d'' [A1 B1] [A2 B2]. split; [|by eauto]. intros id p (p' & Hp' & T)%A1.
  destruct (A2 _ _ Hp') as (p'' & Hp'' & T'). exists p''. split; [done|by etrans].
Qed.
Lemma kept_same d d' : rows d'.1 = rows d.1 → rows d'.2 = rows d.2 → kept d d'.
Proof. intros E1 E2. unfold kept. rewrite E1, E2. split; [intros id p Hp; by exists p|done]. Qed.

Definition distinct_signers (sigs : list (string * string)) : gset string := list_to_set sigs.*1.

(** A price with the given signatures, as many signers among them as it requires, each
    signature as it is stored for the price. *)
Definition backed_by d (id : Z) (sigs : list (string * string)) p : Prop :=
  rows d.1 !! id = Some p ∧ mp_requiredSignatures p <= Z.of_nat (size (distinct_signers sigs)) ∧
  Forall (λ s, ms_signature <$> rows d.2 !! (id, s.1) = Some s.2) sigs.
Definition backed d (e : Envelope) : Prop := ∃ id p,
  backed_by d id (en_signatures e) p ∧ mp_currency p = en_currency e ∧ dec_toNumber (mp_rate p) = en_rate e.

Lemma backed_by_kept d d' id sigs p :
  backed_by d id sigs p → kept d d' → ∃ p', backed_by d' id sigs p' ∧ same_price p p'.
Proof.
  intros (Hp & Hq & Hs) [K1 K2]. destruct (K1 _ _ Hp) as (p' & Hp' & T). exists p'. split; [|done].
  pose proof T as (_&_&_&_&Hreq). split_and!; [done|by rewrite Hreq|]. eapply Forall_impl; [exact Hs|].
  intros s (r & Hr & Hs')%fmap_Some. simpl. rewrite (K2 _ _ Hr). by rewrite Hs'.
Qed.
Lemma backed_kept d d' e : backed d e → kept d d' → backed d' e.
Proof.
  intros (id & p & Hb & Hc & Hr) K. destruct (backed_by_kept _ _ _ _ _ Hb K) as (p' & Hb' & (_&_&Ec&Er&_)).
  exists id, p'. split_and!; [done|congruence..].
Qed.

(** From [d0] on, with every envelope backed. *)
Definition logged w : Prop := Forall (backed (svc_db w)) (envelopes (svc_env w)).
Definition safe_since d0 w : Prop := keyed (svc_db w) ∧ kept d0 (svc_db w) ∧ logged w.

(** Every signature stored for a price, as a list. *)
Lemma stored_quorum d id p l sigs :
  keyed d → l ≡ₚ (map_to_list (rows d.2)).*2 →
  sigs = (λ s, (ms_signerPublicKey s, ms_signature s)) <$> filter (λ s, ms_multiSigPriceId s = id) l →
  rows d.1 !! id = Some p → mp_requiredSignatures p <= signer_count d id → backed_by d id sigs p.
Proof.
  intros [_ K] Hl -> Hp Hreq.
  assert (∀ s, s ∈ filter (λ s, ms_multiSigPriceId s = id) l ↔
    ∃ key, rows d.2 !! (id, key) = Some s) as Hin.
  { intros s. rewrite list_elem_of_filter, Hl, list_elem_of_fmap. split.
    - intros (Hid & [[i key] s'] & -> & Hs%elem_of_map_to_list). simpl in *. destruct (K _ _ _ Hs) as [E _].
      exists key. congruence.
    - intros [key Hs]. split; [by apply (K _ _ _ Hs)|]. exists ((id, key), s). split; [done|].
      by apply elem_of_map_to_list. }
  split_and!; [done| |].
  - etrans; [exact Hreq|]. unfold signer_count. apply inj_le, subseteq_size. intros key Hkey.
    apply elem_of_signers in Hkey as [s Hs]. unfold distinct_signers. rewrite elem_of_list_to_set, <-list_fmap_compose.
    apply list_elem_of_fmap. exists s. split; [by destruct (K _ _ _ Hs)|]. apply Hin. by exists key.
  - apply Forall_forall. intros x Hx. apply list_elem_of_fmap in Hx as (s & -> & Hs).
    apply Hin in Hs as [key Hs]. simpl. destruct (K _ _ _ Hs) as [_ ->]. by rewrite Hs.
Qed.

(** ** Statements of the service *)

(** A statement that writes the database and leaves the log alone. *)
Lemma safe_db d0 d h w :
  safe_since d0 w → keyed d → kept (svc_db w) d → envelopes h = envelopes (svc_env w) →
  safe_since d0 (mkSvc d h).
Proof.
  intros (_ & K0 & HL) HK K He. split_and!; [done|by etrans|]. unfold logged in *. simpl. rewrite He.
  eapply Forall_impl; [exact HL|]. intros e Hb. by eapply backed_kept.
Qed.

Lemma safe_env {A} (c : M H A) d0 :
  (∀ h, envelopes (final c h) = envelopes h) → preserves (safe_since d0) (on_env (D := db) c).
Proof.
  intros Hc. apply preserves_of_final. intros w Hw. pose proof (Hc (svc_env w)) as E. unfold final, on_env in *.
  destruct (c (svc_env w)) as [r h]. simpl in *. destruct Hw as (K1 & K2 & HL). split_and!; [done..|].
  unfold logged. simpl. by rewrite E.
Qed.
Lemma safe_note m d0 : preserves (safe_since d0) (note (DP := DP) (DS := DS) m).
Proof. apply safe_env. intros h. apply log_observe. Qed.

Lemma safe_update id f d0 :
  (∀ p, same_price p (f p)) → preserves (safe_since d0) (update_price (DS := DS) (H := H) id f).
Proof.
  intros Hf. apply preserves_of_final. intros w Hw. unfold final, update_price, on_db.
  destruct (on_fst (update id f) (svc_db w)) as [r d] eqn:E. simpl. apply on_fst_inv in E as [E E2].
  pose proof Hw as ([K1 K2] & _ & _). destruct r as [p'|e].
  - apply update_ok in E as (p & Hp & -> & Hd). eapply safe_db; [exact Hw| | |done].
    + split; [|by rewrite E2]. intros i q. rewrite Hd. intros [[<- <-]|[_ Hq]]%lookup_insert_Some; [|by apply K1].
      destruct (Hf p) as [-> _]. by apply K1.
    + split; [|by rewrite E2]. intros i q Hq. rewrite Hd. destruct (decide (i = id)) as [->|Hne].
      * rewrite lookup_insert_eq. exists (f p). split; [done|]. assert (q = p) as -> by congruence. apply Hf.
      * rewrite lookup_insert_ne by done. by exists q.
  - apply update_err in E. eapply safe_db; [exact Hw| |by apply kept_same; [|by rewrite E2]|done].
    unfold keyed. by rewrite E, E2.
Qed.

Lemma safe_store id key name signature d0 :
  preserves (safe_since d0) (store_signature (DP := DP) (H := H) id key name signature).
Proof.
  unfold store_signature. apply preserves_try_catch; [|intros e; case_decide; auto with sf].
  apply preserves_bind; [|auto with sf]. apply preserves_of_final. intros w Hw. unfold final, on_db.
  destruct (on_snd _ (svc_db w)) as [r d] eqn:E. simpl. apply on_snd_inv in E as [E E1].
  pose proof Hw as ([K1 K2] & _ & _). destruct r as [s|e].
  - apply createUnique_ok in E as (Hn & -> & Hd). eapply safe_db; [exact Hw| | |done].
    + split; [by rewrite E1|]. intros i k s. rewrite Hd.
      intros [[[= <- <-] <-]|[_ Hs]]%lookup_insert_Some; [done|by apply K2].
    + split; [rewrite E1; intros i q Hq; by exists q|]. intros k s Hs. rewrite Hd, lookup_insert_ne; [done|]. congruence.
  - apply createUnique_err in E as [E _]. eapply safe_db; [exact Hw| |by apply kept_same; [rewrite E1|]|done].
    unfold keyed. by rewrite E, E1.
Qed.

#[local] Hint Resolve safe_note safe_store preserves_query : sf.
#[local] Hint Extern 2 (preserves _ (update_price _ _)) => apply safe_update; by repeat split : sf.
Lemma safe_date d0 : preserves (safe_since d0) (ms_new_Date (DP := DP) (DS := DS) (H := H)).
Proof. by intros w Hw. Qed.
Lemma safe_find id d0 : preserves (safe_since d0) (find_price (DS := DS) (H := H) id).
Proof. apply preserves_query. Qed.
#[local] Hint Resolve safe_date safe_find : sf.

Lemma safe_expiry id p d0 : preserves (safe_since d0) (check_expiry (DS := DS) (H := H) id p).
Proof. unfold check_expiry. preserve. Qed.
Lemma safe_count id d0 : preserves (safe_since d0) (count_signature (DS := DS) (H := H) id).
Proof. unfold count_signature, approveMultiSigPrice. preserve. Qed.
Lemma safe_allowed d0 : preserves (safe_since d0) (on_env (D := db) assertSigningAllowed).
Proof. apply safe_env, log_allowed. Qed.
Lemma safe_sign m d0 : preserves (safe_since d0) (on_env (D := db) (signer_sign m)).
Proof. apply safe_env. intros h. apply log_sign. Qed.
Lemma safe_post url token payload d0 : preserves (safe_since d0) (on_env (D := db) (axios_post_sign url token payload)).
Proof. apply safe_env. intros h. apply log_post. Qed.
Lemma safe_mark id memo tx d0 : preserves (safe_since d0) (on_env (D := db) (markContractSubmitted id memo tx)).
Proof. apply safe_env. intros h. apply log_mark. Qed.
#[local] Hint Resolve safe_expiry safe_count safe_allowed safe_sign safe_post safe_mark : sf.

Lemma safe_record id memo tx asset fee d0 :
  preserves (safe_since d0) (recordSubmission (DS := DS) (H := H) id memo tx asset fee).
Proof. unfold recordSubmission, resolveCurrency. preserve. Qed.
#[local] Hint Resolve safe_record : sf.

Lemma safe_since_trans d0 w w' : safe_since d0 w → safe_since (svc_db w) w' → safe_since d0 w'.
Proof. intros (_ & K & _) (? & K' & ?). split_and!; [done|by etrans|done]. Qed.

Lemma signer_count_kept d d' id : kept d d' → signer_count d id <= signer_count d' id.
Proof.
  intros [_ K]. unfold signer_count. apply inj_le, subseteq_size. intros key.
  rewrite !elem_of_signers. intros [s Hs]. exists s. by apply K.
Qed.

(** A submission of a backed envelope. *)
Lemma safe_submit d0 id p memo sigs w :
  safe_since d0 w → backed_by (svc_db w) id sigs p →
  safe_since d0 (final (on_env (submitMultiSignedPriceUpdate (mp_currency p) (dec_toNumber (mp_rate p)) memo sigs)) w).
Proof.
  intros (K1 & K2 & HL) Hb.
  pose proof (log_submit (mp_currency p) (dec_toNumber (mp_rate p)) memo sigs (svc_env w)) as E.
  unfold final, on_env in *.
  destruct (submitMultiSignedPriceUpdate _ _ _ _ (svc_env w)) as [r h]. simpl in *. split_and!; [done..|].
  unfold logged. simpl. destruct E as [-> | ->]; [done|]. apply Forall_app. split; [done|]. constructor; [|done].
  exists id, p. by split_and!.
Qed.

Lemma wp_broadcast id p d0 w :
  ms_inv w → safe_since d0 w → rows (svc_db w).1 !! id = Some p → mp_requiredSignatures p <= mp_collectedSignatures p →
  wp (broadcast_price dec_toNumber id p) (λ _, safe_since d0) (λ _, safe_since d0) w.
Proof.
  intros HI Hs Hp Hreq.
  assert (mp_requiredSignatures p <= signer_count (svc_db w) id) as Hq by (destruct (HI _ _ Hp); lia).
  assert (safe_since (svc_db w) w) as Hs0 by (destruct Hs as (?&_&?); by split_and!).
  assert (∀ w', safe_since (svc_db w) w' → safe_since d0 w') as Htrans by (intros w'; by apply safe_since_trans).
  eapply wp_mono; [|by intros ? w'; apply Htrans..]. clear Hs Htrans.
  unfold broadcast_price. apply wp_bind.
  assert (preserves (safe_since (svc_db w)) (approveMultiSigPrice (DS := DS) (H := H) id)) as Ha
    by (unfold approveMultiSigPrice; preserve).
  eapply wp_mono; [by apply Ha| |done]. intros u w1 Hs1. apply wp_bind, wp_bind, wp_query; [|done].
  intros l Hl%findAll_ok. apply wp_ret. cbv zeta. apply wp_bind.
  set (sigs := (λ s, (ms_signerPublicKey s, ms_signature s)) <$> _).
  pose proof Hs1 as (K1 & K & _). destruct (proj1 K _ _ Hp) as (p1 & Hp1 & T).
  pose proof T as (_ & _ & Tc & Tr & Tq).
  assert (backed_by (svc_db w1) id sigs p1) as Hb.
  { apply (stored_quorum _ _ _ l); [done..|]. rewrite Tq. etrans; [exact Hq|]. by apply signer_count_kept. }
  rewrite <-Tc, <-Tr. unfold wp at 1. set (memo := if truthy_opt _ then _ else _).
  pose proof (safe_submit _ id p1 memo sigs w1 Hs1 Hb) as Hs2. unfold final in Hs2.
  destruct (on_env _ w1) as [[tx|e] w2]; simpl in Hs2; [|done].
  assert (preserves (safe_since (svc_db w))
    (recordSubmission (Dec := Dec) (DS := DS) (H := H) id memo tx None None ;;;
     on_env (markContractSubmitted (mp_priceReviewId p) memo tx) ;;; ret tx)) as Hrest by preserve.
  by apply Hrest.
Qed.

Lemma safe_collect id signature key name d0 w :
  ms_inv w → safe_since d0 w →
  wp (collectSignature dec_toNumber id signature key name) (λ _, safe_since d0) (λ _, safe_since d0) w.
Proof.
  intros HI Hs. unfold collectSignature. destruct (negb _); [done|]. destruct (negb _); [done|].
  apply wp_bind, wp_find; [|done]. intros [p|] Hp; [|done]. destruct (decide _); [|done].
  apply wp_bind. eapply wp_mono; [apply wp_conj; [by apply wp_check_expiry|by apply safe_expiry]| |by intros ? ? []].
  intros [] w0 [[-> _] _].
  apply wp_bind. eapply wp_mono; [apply wp_conj; [by apply wp_store|by apply safe_store]| |by intros ? ? []].
  intros created w1 [[H1 Hr] Hs1]. apply wp_bind.
  eapply (wp_mono _ (λ u w', (ms_inv w' ∧ rows (svc_db w').1 !! id = Some u) ∧ safe_since d0 w') _ (λ _, safe_since d0));
    [| |done].
  { destruct created.
    - eapply wp_mono; [apply wp_conj; [apply (wp_update_price id increment_collected 1 0); [lia|done|]|
        apply (safe_update id increment_collected d0); [by repeat split|done]]| |by intros ? ? []].
      + intros q Hq [? ? ? Ha]. constructor; simpl; [done|lia|done|]. intros Hst. specialize (Ha Hst). lia.
      + intros u w2 [[Hsl Hu] Hs2]. split; [|done]. split; [by apply (slack_inv id 0)|done].
    - apply wp_ret. split; [|done]. split; [by apply (slack_inv id 0)|]. by rewrite Hr. }
  intros u w2 [[H2 Hu] Hs2]. apply wp_bind.
  destruct (Z.leb_spec (mp_requiredSignatures u) (mp_collectedSignatures u)); [|by apply wp_ret, wp_ret].
  apply wp_bind. eapply wp_mono; [by apply wp_broadcast| |done]. intros tx w3 H3. by apply wp_ret, wp_ret.
Qed.

Lemma safe_cleanup d0 : preserves (safe_since d0) (cleanupExpiredRequests (DP := DP) (DS := DS) (H := H) (Dec := Dec)).
Proof.
  unfold cleanupExpiredRequests. apply preserves_bind; [auto with sf|]. intros t. apply preserves_of_final.
  intros w Hw. unfold final, on_db. destruct (on_fst _ (svc_db w)) as [r d] eqn:E. simpl.
  apply on_fst_inv in E as [E E2]. pose proof Hw as ([K1 K2] & _ & _). destruct r as [n|e].
  - apply updateMany_ok in E as [Hd _]. eapply safe_db; [exact Hw| | |done].
    + split; [|by rewrite E2]. intros i q. rewrite Hd, lookup_fmap. intros (q0 & Hq0 & ->)%fmap_Some.
      destruct (bool_decide _ && _); exact (K1 _ _ Hq0).
    + split; [|by rewrite E2]. intros i q Hq. rewrite Hd, lookup_fmap, Hq. eexists. split; [done|]. simpl. destruct (bool_decide _ && _); by repeat split.
  - apply updateMany_err in E. eapply safe_db; [exact Hw| |by apply kept_same; [|by rewrite E2]|done].
    unfold keyed. by rewrite E, E2.
Qed.

Lemma safe_create rid currency rate source memo d0 :
  preserves (safe_since d0) (createMultiSigRequest (DS := DS) (H := H) dec_of_number self rid currency rate source memo).
Proof.
  unfold createMultiSigRequest. apply preserves_bind; [auto with sf|]. intros t. apply preserves_bind; [|auto with sf].
  apply preserves_of_final. intros w Hw. unfold final, on_db. destruct (on_fst _ (svc_db w)) as [r d] eqn:E. simpl.
  apply on_fst_inv in E as [E E2]. pose proof Hw as ([K1 K2] & _ & _). destruct r as [q|e].
  - apply create_ok in E as (k & Hn & -> & Hd). eapply safe_db; [exact Hw| | |done].
    + split; [|by rewrite E2]. intros i q. rewrite Hd. intros [[<- <-]|[_ Hq]]%lookup_insert_Some; [done|by apply K1].
    + split; [|by rewrite E2]. intros i q Hq. exists q. rewrite Hd, lookup_insert_ne by congruence. done.
  - apply create_err in E. eapply safe_db; [exact Hw| |by apply kept_same; [|by rewrite E2]|done].
    unfold keyed. by rewrite E, E2.
Qed.

(** One call of the service. *)
Lemma safe_op op d0 w :
  ms_inv w → safe_since d0 w →
  let w' := multisig_step dec_of_number dec_toString dec_toNumber self w op in ms_inv w' ∧ safe_since d0 w'.
Proof.
  intros HI Hs. split; [by apply multisig_step_keeps|].
  destruct op; simpl; [by apply preserves_final; [apply safe_create|]| | | |by apply preserves_final; [apply safe_cleanup|]
    |by apply preserves_final; [apply safe_record|]].
  - apply (preserves_final (safe_since d0)); [|done]. unfold signMultiSigPrice. preserve.
  - apply (preserves_final (safe_since d0)); [|done]. unfold requestRemoteSignature. preserve.
  - apply (wp_final _ (safe_since d0)). by apply safe_collect.
Qed.

(** ** The poller *)

Notation state := (poller db H).

Definition good (p : state) : Prop :=
  ms_inv (pl_svc p) ∧ keyed (svc_db (pl_svc p)) ∧ logged (pl_svc p).
Definition goes_on (p p' : state) : Prop := kept (svc_db (pl_svc p)) (svc_db (pl_svc p')).
#[export] Instance goes_on_preorder : PreOrder goes_on.
Proof. split; [intros p; exact (reflexivity (svc_db (pl_svc p)))|]. intros p p' p'' K1 K2. unfold goes_on in *. by etrans. Qed.

Notation fine := (well_behaved good goes_on).
Notation guaranteed := (guarantee good goes_on).

Lemma good_since w : ms_inv w → keyed (svc_db w) → logged w → safe_since (svc_db w) w.
Proof. intros ? ? ?. by split_and!. Qed.

(** A statement of a call on the service. *)
Lemma good_step {A} (c : M world A) (p : state) :
  good p → ms_inv (final c (pl_svc p)) → safe_since (svc_db (pl_svc p)) (final c (pl_svc p)) →
  let p' := with_svc p (final c (pl_svc p)) in good p' ∧ goes_on p p'.
Proof. intros _ HI (K & K' & HL). split; [by split_and!|exact K']. Qed.
Lemma fine_svc {A} (c : M world A) :
  (∀ w, ms_inv w → wp c (λ _, ms_inv) (λ _, ms_inv) w) → (∀ d0, preserves (safe_since d0) c) → fine (at_svc c).
Proof.
  intros Hi Hs. apply well_behaved_await. intros p Hp. pose proof Hp as (HI & HK & HL).
  pose proof (good_step c p Hp (wp_final _ ms_inv _ (Hi _ HI)) (preserves_final _ _ _ (Hs _) (good_since _ HI HK HL))) as G.
  unfold final in *. destruct (c (pl_svc p)) as [r w]. exact G.
Qed.
Lemma fine_fields (f : state → state) {A} (r : state → exc A) :
  (∀ s, pl_svc (f s) = pl_svc s) → fine (await (λ s, (r s, f s))).
Proof.
  intros Hf. apply well_behaved_await. intros p (HI & HK & HL). unfold good, goes_on, final. simpl. rewrite Hf.
  by split_and!.
Qed.

(** What a poll knows of a price it has read, alone and with its signatures. *)
Definition approved_price p (s : state) : Prop := ∃ p', let d := svc_db (pl_svc s) in
  rows d.1 !! mp_id p = Some p' ∧ same_price p p' ∧ mp_requiredSignatures p <= signer_count d (mp_id p).
Definition ready (ps : MultiSigPrice Dec * list MultiSigSignature) (s : state) : Prop := ∃ p',
  backed_by (svc_db (pl_svc s)) (mp_id ps.1) ((λ s, (ms_signerPublicKey s, ms_signature s)) <$> ps.2) p' ∧
  same_price ps.1 p'.
Lemma approved_price_kept p s s' : approved_price p s → goes_on s s' → approved_price p s'.
Proof.
  intros (p' & Hp' & T & Hq) K. destruct (proj1 K _ _ Hp') as (p'' & Hp'' & T'). exists p''.
  split_and!; [done|by etrans|]. etrans; [exact Hq|]. by apply signer_count_kept.
Qed.
Lemma ready_kept ps s s' : ready ps s → goes_on s s' → ready ps s'.
Proof.
  intros (p' & Hb & T) K. destruct (backed_by_kept _ _ _ _ _ Hb K) as (p'' & Hb' & T'). exists p''.
  split; [done|by etrans].
Qed.

Lemma guarantee_find : guaranteed (λ _, True) find_approved
  (λ r s, match r with Ok l => Forall (λ ps, ready ps s) l | Throw _ => True end).
Proof.
  unfold find_approved. apply guarantee_bind; [apply _|]. apply guarantee_await.
  intros s Hs _. pose proof Hs as (HI & HK & _). unfold final, outcome, query. simpl.
  replace (with_svc s (pl_svc s)) with s by by destruct s. split; [done|]. split; [by intros|]. intros s1 Hs1 K1.
  destruct (findAll (svc_db (pl_svc s)).1) as [l|e] eqn:Hl; [|done]. apply findAll_ok in Hl.
  cbv beta iota zeta. set (approved := filter _ l).
  assert (Forall (λ p, approved_price p s) approved) as Hok.
  { apply Forall_forall. intros p Hp. apply list_elem_of_filter in Hp as [[Ha%bool_decide_eq_true _]%andb_true_iff Hp].
    rewrite Hl in Hp. apply list_elem_of_fmap in Hp as ([id p'] & -> & Hp%elem_of_map_to_list). simpl in *.
    pose proof (proj1 HK _ _ Hp) as Hid. rewrite <-Hid in Hp. exists p'. split_and!; [done..|].
    destruct (HI _ _ Hp) as [? ? ? Hc]. specialize (Hc Ha). lia. }
  intros s2 Hs2 K2. pose proof Hs2 as (_ & HK2 & _). unfold final, outcome. simpl.
  replace (with_svc s2 (pl_svc s2)) with s2 by by destruct s2. split; [done|]. split; [by unfold goes_on|].
  destruct (findAll (svc_db (pl_svc s2)).2) as [sigs|e] eqn:Hsigs; [|done]. apply findAll_ok in Hsigs.
  intros s3 _ K3. apply Forall_fmap. eapply Forall_impl; [exact Hok|]. intros p Hp.
  apply (approved_price_kept _ _ s1), (approved_price_kept _ _ s2) in Hp; [|done..].
  apply (ready_kept _ s2); [|done].
  destruct Hp as (p' & Hp' & T & Hq). exists p'. split; [|done]. simpl. pose proof T as (_&_&_&_&Tq).
  eapply stored_quorum; [done|exact Hsigs|done|done|by rewrite Tq].
Qed.

Lemma guarantee_submit ps : guaranteed (ready ps) (submitApprovedPrice dec_toNumber ps) (λ _ _, True).
Proof.
  destruct ps as [p sigs]. unfold submitApprovedPrice. case_decide; [done|].
  apply guarantee_bind; [apply _|]. apply guarantee_await. intros s (HI & HK & HL) (p' & Hb & T).
  pose proof T as (Tid & _ & Tc & Tr & _). cbn [fst snd] in *.
  set (keys := (λ s, (ms_signerPublicKey s, ms_signature s)) <$> sigs) in *.
  pose proof (safe_submit _ _ _ (memo_of p) keys _ (good_since _ HI HK HL) Hb) as Hsafe.
  rewrite Tc, Tr in Hsafe.
  assert (ms_inv (final (on_env (submitMultiSignedPriceUpdate (mp_currency p) (dec_toNumber (mp_rate p)) (memo_of p) keys))
    (pl_svc s))) as HI'.
  { apply (wp_final _ ms_inv). by apply (wp_outside _ ms_inv). }
  pose proof (good_step _ s (conj HI (conj HK HL)) HI' Hsafe) as [G K]. unfold final, outcome in *.
  destruct (on_env _ (pl_svc s)) as [[tx|e] w]; cbv beta iota delta [fst snd] in *;
    (split; [exact G|]; split; [exact K|]); [|done].
  intros s' _ _. apply guarantee_fine. apply well_behaved_bind; [apply _| |intros _].
  - apply fine_svc; [intros w' HI''; by apply record_keeps|intros d0; apply safe_record].
  - apply fine_svc; [intros w' HI''; by apply (wp_outside _ ms_inv)|intros d0; apply safe_mark].
Qed.

Lemma fine_poll : fine (checkAndSubmitApprovedPrices dec_toNumber).
Proof.
  unfold checkAndSubmitApprovedPrices. apply well_behaved_catch; [apply _| |done].
  apply well_behaved_bind; [apply _| |].
  - apply fine_svc; [intros w HI; by apply (wp_outside _ ms_inv)|intros d0; apply safe_env, log_locked].
  - intros []; [done|]. apply guarantee_bind; [apply _|]. eapply guarantee_post; [apply guarantee_find|].
    intros [l|e] s _ Hl; [|done]. eapply guarantee_pre; [apply (guarantee_for _ _ ready)|].
    + intros ps s1 s2. apply ready_kept.
    + intros ps _. apply guarantee_catch; [apply _|]. eapply guarantee_post; [apply guarantee_submit|].
      intros [u|e] s1 _ _; [done|]. by apply guarantee_ret.
    + intros s' _ K. eapply Forall_impl; [exact Hl|]. intros ps Hps. exact (ready_kept _ _ _ Hps K).
Qed.

Lemma fine_poller_call c : poller_call dec_of_number dec_toString dec_toNumber self c → fine c.
Proof.
  intros [].
  - apply fine_poll.
  - unfold start. apply well_behaved_bind; [apply _|by apply (fine_fields _)|]. intros []; [done|].
    apply well_behaved_bind; [apply _|apply fine_poll|intros _]. by apply (fine_fields set_timer).
  - by apply (fine_fields _).
  - apply (fine_fields _). intros p. by case_match.
  - apply well_behaved_bind; [apply _| |done]. apply well_behaved_catch; [apply _| |done].
    apply fine_svc; [apply cleanup_keeps|apply safe_cleanup].
  - apply well_behaved_await. intros p Hp. pose proof Hp as (HI & HK & HL).
    destruct (safe_op op _ _ HI (good_since _ HI HK HL)) as [HI' Hs'].
    exact (good_step (multisig_op_call dec_of_number dec_toString dec_toNumber self op) p Hp HI' Hs').
Qed.

(** C2. In every interleaving of any number of polls with the calls of the multi-signature
    service, from empty tables: every envelope that is submitted, by a poll or when the last
    signature arrives, is for a price as it was requested, and carries the signatures of at
    least as many distinct signers as the price requires, each as it is stored. *)
Theorem submitted_with_quorum (s s' : state) ps e :
  rows (svc_db (pl_svc s)).1 = ∅ → rows (svc_db (pl_svc s)).2 = ∅ → envelopes (svc_env (pl_svc s)) = [] →
  rtc (step (poller_call dec_of_number dec_toString dec_toNumber self) outside_moves) ([], s) (ps, s') →
  e ∈ envelopes (svc_env (pl_svc s')) →
  ∃ id p, rows (svc_db (pl_svc s')).1 !! id = Some p ∧
    mp_currency p = en_currency e ∧ dec_toNumber (mp_rate p) = en_rate e ∧
    1 <= mp_requiredSignatures p <= Z.of_nat (size (distinct_signers (en_signatures e))) ∧
    Forall (λ sig, ms_signature <$> rows (svc_db (pl_svc s')).2 !! (id, sig.1) = Some sig.2) (en_signatures e).
Proof.
  intros H1 H2 H3 Hr He. assert (good s) as Hs.
  { split_and!.
    - intros id p. by rewrite H1.
    - split; [intros id p; by rewrite H1|intros id key sig; by rewrite H2].
    - unfold logged. by rewrite H3. }
  assert (∀ s s' : state, good s → outside_moves s s' → good s' ∧ goes_on s s') as Henv.
  { intros s1 s2 (HI & HK & HL) [Hd He']. unfold good, goes_on, logged, ms_inv in *. rewrite Hd, He'.
    split; [by split_and!|reflexivity]. }
  destruct (interleaved_fresh good goes_on _ _ fine_poller_call Henv s _ Hs Hr) as [(HI & _ & HL) _].
  simpl in *. unfold logged in HL. rewrite Forall_forall in HL. destruct (HL e He) as (id & p & (Hp & Hq & Hf) & Hc & Hrate).
  exists id, p. destruct (HI _ _ Hp). by split_and!.
Qed.
End quorum.

(** ** Polls that overlap *)
Section overlap.
Context {H Dec : Type} `{!SigningWorld H} `{!LockdownSwitch H} `{!SubmissionLog H}.
Context (dec_of_number : number → Dec) (dec_toString : Dec → string) (dec_toNumber : Dec → number).
Context (self : MultiSigService).
Notation prices := (gmap Z (MultiSigPrice Dec)).
Notation signatures := (gmap (Z * string) MultiSigSignature).
Notation state := (poller (prices * signatures) H).
Notation polls := (step (poller_call dec_of_number dec_toString dec_toNumber self) outside_moves).
Notation poll := (checkAndSubmitApprovedPrices (DP := prices) (DS := signatures) dec_toNumber).

(** What a poll hands over for the only price there is. *)
Definition envelope_of (p : MultiSigPrice Dec) (sigs : signatures) : Envelope :=
  mkEnvelope (mp_currency p) (dec_toNumber (mp_rate p)) (memo_of p)
    ((λ s, (ms_signerPublicKey s, ms_signature s)) <$>
       filter (λ s, ms_multiSigPriceId s = mp_id p) (map_to_list sigs).*2).

Context (id : Z) (p : MultiSigPrice Dec) (sigs : signatures).
Context (Hp : is_unsubmitted p = true) (Hsigs : en_signatures (envelope_of p sigs) ≠ []).
Context (Hlock : ∀ h : H, isLockdownEnabled h = (Ok false, h)).
Context (Hsubmit : ∀ currency rate memo l (h : H), ∃ tx h',
  submitMultiSignedPriceUpdate currency rate memo l h = (Ok tx, h') ∧
  envelopes h' = envelopes h ++ [mkEnvelope currency rate memo l]).

(** After three steps a poll is about to submit. *)
Lemma poll_about_to_submit (ps : list (prog state unit)) (i : nat) (s : state) :
  svc_db (pl_svc s) = ({[id := p]}, sigs) → ps !! i = Some poll →
  ∃ k, schedule [i; i; i] ps s = (<[i := Await (λ s : state,
    let '(r, w) := on_env (submitMultiSignedPriceUpdate (en_currency (envelope_of p sigs)) (en_rate (envelope_of p sigs))
      (en_memoId (envelope_of p sigs)) (en_signatures (envelope_of p sigs))) (pl_svc s) in (r, with_svc s w)) k]> ps, s).
Proof.
  intros Hdb Hi. assert (i < length ps)%nat as Hlt by by eapply lookup_lt_Some.
  destruct s as [[d h] ms b t ts]. simpl in Hdb. subst d.
  assert (filter (λ p, is_unsubmitted p = true) (map_to_list ({[id := p]} : prices)).*2 = [p]) as Hf.
  { rewrite map_to_list_singleton. simpl. rewrite filter_cons_True by done. done. }
  cbn [schedule]. rewrite Hi. unfold checkAndSubmitApprovedPrices at 1. cbn. unfold outcome, final. cbn. unfold on_env. cbn.
  rewrite Hlock. cbn. rewrite list_lookup_insert_eq by done. cbn. unfold outcome, final. cbn.
  rewrite list_lookup_insert_eq by (by rewrite length_insert). cbn. unfold outcome, final. cbn.
  rewrite Hf. cbn. rewrite decide_False by exact Hsigs. cbn.
  rewrite !list_insert_insert_eq. eexists. reflexivity.
Qed.

(** C21. Two polls under way at the same time hand over the same price twice. *)
Theorem overlapping_polls_submit_twice (s : state) :
  svc_db (pl_svc s) = ({[id := p]}, sigs) →
  ∃ ps s', rtc polls ([], s) (ps, s') ∧
    envelopes (svc_env (pl_svc s')) = envelopes (svc_env (pl_svc s)) ++ [envelope_of p sigs; envelope_of p sigs].
Proof.
  intros Hdb.
  destruct (poll_about_to_submit [poll; poll] 0 s Hdb eq_refl) as [k0 E0].
  match type of E0 with _ = (?ps1, _) => destruct (poll_about_to_submit ps1 1 s Hdb eq_refl) as [k1 E1] end.
  assert (rtc polls ([], s) ([poll; poll], s)) as S0
    by (eapply rtc_l; [exact (step_call _ _ [] s poll (call_poll _ _ _ _))|]; apply rtc_once;
      exact (step_call _ _ [poll] s poll (call_poll _ _ _ _))).
  pose proof (schedule_steps (poller_call dec_of_number dec_toString dec_toNumber self) outside_moves [0; 0; 0]%nat [poll; poll] s) as S1.
  pose proof (schedule_steps (poller_call dec_of_number dec_toString dec_toNumber self) outside_moves [1; 1; 1]%nat (schedule [0; 0; 0]%nat [poll; poll] s).1 s) as S2.
  rewrite E0 in S1, S2. cbn [fst] in S2. rewrite E1 in S2. cbn [insert list_insert] in S1, S2.
  assert (rtc polls ([], s) ([Await _ k0; Await _ k1], s)) as S by (etrans; [exact S0|]; etrans; [exact S1|exact S2]). clear S0 S1 S2 E0 E1.
  set (c := λ s : state, let '(r, w) := on_env _ (pl_svc s) in (r, with_svc s w)) in S.
  assert (∀ s : state, envelopes (svc_env (pl_svc (final c s))) = envelopes (svc_env (pl_svc s)) ++ [envelope_of p sigs]) as Hc.
  { intros s1. unfold final, c, on_env.
    destruct (Hsubmit (en_currency (envelope_of p sigs)) (en_rate (envelope_of p sigs)) (en_memoId (envelope_of p sigs))
      (en_signatures (envelope_of p sigs)) (svc_env (pl_svc s1))) as (tx & h' & -> & Eh). exact Eh. }
  eexists _, (final c (final c s)). split.
  - etrans; [exact S|]. eapply rtc_l; [by apply (step_resume _ _ _ _ 0)|].
    apply rtc_once. by apply (step_resume _ _ _ _ 1).
  - rewrite !Hc, <-app_assoc. done.
Qed.
End overlap.

(** ** Starting and stopping *)
Section lifecycle.
Context {DP DS H Dec : Type}.
Context `{!PrismaTable Z (MultiSigPrice Dec) DP}.
Context `{!PrismaTable (Z * string) MultiSigSignature DS} `{!SigningWorld H} `{!LockdownSwitch H} `{!SubmissionLog H}.
Context (dec_of_number : number → Dec) (dec_toString : Dec → string) (dec_toNumber : Dec → number).
Context (self : MultiSigService).
Notation state := (poller (DP * DS) H).
Notation polls := (step (poller_call dec_of_number dec_toString dec_toNumber self) outside_moves).
Notation poll := (checkAndSubmitApprovedPrices (DP := DP) (DS := DS) (H := H) dec_toNumber).
Implicit Types s : state.

(** The fields of the poller, which a poll leaves alone. *)
Definition fields s : Z * bool * option nat * timers :=
  (pl_pollIntervalMs s, pl_isRunning s, pl_pollTimer s, pl_timers s).
Definition same_fields s s' : Prop := fields s' = fields s.
#[export] Instance same_fields_preorder : PreOrder same_fields.
Proof. split; [done|]. unfold same_fields. intros s s' s'' E1 E2. congruence. Qed.

(** A call that runs to its end and leaves the given fields. *)
Definition ends (c : prog state unit) s (f : Z * bool * option nat * timers) : Prop :=
  ∃ s', run c s = (Ok tt, s') ∧ fields s' = f.

Lemma poll_ends s : ends poll s (fields s).
Proof.
  assert (∀ A (c : M (svc (DP * DS) H) A), well_behaved (λ _, True) same_fields (at_svc c)) as Hsvc.
  { intros A c. apply well_behaved_await. intros s0 _. split; [done|]. unfold same_fields, final.
    by destruct (c (pl_svc s0)). }
  assert (well_behaved (λ _, True) same_fields poll) as Hpoll.
  { unfold checkAndSubmitApprovedPrices, find_approved, submitApprovedPrice.
    repeat (behave; try apply Hsvc). }
  pose proof (guarantee_run (λ _, True) same_fields _ _ _ s Hpoll I I) as Hw. unfold wp in Hw.
  unfold ends. destruct (run poll s) as [r s'] eqn:E. exists s'. split.
  - revert E. unfold checkAndSubmitApprovedPrices. rewrite run_pcatch. unfold try_catch.
    by destruct (run _ s) as [[[]|e] s0]; intros [= <- <-].
  - destruct r; apply Hw.
Qed.

(** The rest of [start] once it has found the poller idle: the poll, then the timer. *)
Notation rest := (poll ;~ await (modify set_timer)).
Lemma rest_ends s ms b t ts : fields s = (ms, b, t, ts) →
  ends rest s (ms, b, Some (tm_next ts), (setInterval ms ts).2).
Proof.
  intros Hs. destruct (poll_ends s) as (s' & Ho & Hf). rewrite Hs in Hf. eexists. split.
  - rewrite run_pbind. unfold bind. rewrite Ho. reflexivity.
  - destruct s' as [w ms' b' t' ts']. cbv in Hf. by injection Hf as -> -> -> ->.
Qed.
Lemma start_ends s ms t ts : fields s = (ms, false, t, ts) →
  ends (start dec_toNumber) s (ms, true, Some (tm_next ts), (setInterval ms ts).2).
Proof.
  intros Hs. destruct s as [w ms' b' t' ts']. cbv in Hs. injection Hs as -> -> -> ->.
  exact (rest_ends (mkPoller w ms true t ts) ms true t ts eq_refl).
Qed.
Lemma stop_ends s ms b t ts : fields s = (ms, b, t, ts) → ends stop s (ms, false, None, clearInterval t ts).
Proof.
  intros Hs. destruct s as [w ms' b' t' ts']. cbv in Hs. injection Hs as -> -> -> ->.
  eexists. split; reflexivity.
Qed.

(** Stopped during its first poll, started again and stopped again, the poller has an
    interval that it has forgotten and that [stop] will not clear. *)
Theorem stopped_poller_goes_on s :
  pl_isRunning s = false → pl_pollTimer s = None →
  timers_fresh (pl_timers s) →
  ∃ ps s', rtc polls ([], s) (ps, s') ∧ Forall (λ p, p = Done (Ok tt)) ps ∧
    pl_isRunning s' = false ∧ pl_pollTimer s' = None ∧
    tm_active (pl_timers s') = <[tm_next (pl_timers s) := pl_pollIntervalMs s]> (tm_active (pl_timers s)).
Proof.
  destruct s as [w ms b t ts]. simpl. intros -> -> Hfresh. set (s0 := mkPoller w ms false None ts).
  set (s1 := mkPoller w ms true None ts).
  assert (rtc polls ([], s0) ([rest], s1)) as S1.
  { eapply rtc_l; [exact (step_call _ _ [] _ _ (call_start _ _ _ _))|].
    apply rtc_once. exact (step_resume _ _ [_] s0 0 _ _ _ eq_refl). }
  destruct (stop_ends s1 ms true None ts eq_refl) as (s2 & R2 & F2).
  destruct (start_ends s2 _ _ _ F2) as (s3 & R3 & F3).
  destruct (rest_ends s3 _ _ _ _ F3) as (s4 & R4 & F4).
  destruct (stop_ends s4 _ _ _ _ F4) as (s5 & R5 & F5).
  exists [Done (Ok tt); Done (Ok tt); Done (Ok tt); Done (Ok tt)], s5. split; [|split].
  - etrans; [exact S1|].
    etrans; [exact (call_alone _ _ [rest] _ _ _ _ (call_stop _ _ _ _) R2)|].
    etrans; [exact (call_alone _ _ [rest; Done (Ok tt)] _ _ _ _ (call_start _ _ _ _) R3)|].
    etrans; [exact (finish_alone _ _ [] rest [Done (Ok tt); Done (Ok tt)] _ _ _ R4)|].
    exact (call_alone _ _ [Done (Ok tt); Done (Ok tt); Done (Ok tt)] _ _ _ _ (call_stop _ _ _ _) R5).
  - by repeat constructor.
  - unfold fields in F5. injection F5 as _ -> -> ->. split_and!; [done..|].
    by apply (clear_set ms (setInterval ms ts).2), setInterval_fresh.
Qed.
End lifecycle.

(** ** Concrete runs *)

(** The submission succeeds and is logged; the state is the clock and the log. *)
#[export] Instance logging_world : SigningWorld (Z * list Envelope) := {|
  sw_now := fst;
  assertSigningAllowed := ret tt;
  signer_sign m := ret m;
  axios_post_sign _ _ _ := ret sample_response;
  submitMultiSignedPriceUpdate currency rate memo sigs := λ '(t, es), (Ok "tx", (t, es ++ [mkEnvelope currency rate memo sigs]));
  markContractSubmitted _ _ _ := ret tt;
  observe _ h := h;
  String_of e := "Error: " +:+ err_message e;
|}.
#[export] Instance unlocked : LockdownSwitch (Z * list Envelope) := {| isLockdownEnabled := ret false |}.
#[export] Program Instance kept_log : SubmissionLog (Z * list Envelope) := {| envelopes := snd |}.
Solve Obligations with naive_solver.
Next Obligation. intros currency rate memo sigs [t es]. by right. Qed.

Definition approved_sample : MultiSigPrice number :=
  mkPrice 0 7 "NGN" (num_of_Z 15) "CoinGecko" "APPROVED" 2 2 (Some "memo") None None 0 5000.
Definition sigs_sample : gmap (Z * string) MultiSigSignature :=
  {[(0, "KEY1") := mkSignature 0 "KEY1" "oracle-server" "bb"; (0, "KEY2") := mkSignature 0 "KEY2" "oracle-2" "aa"]}.
Definition idle_poller (prices : gmap Z (MultiSigPrice number)) (sigs : gmap (Z * string) MultiSigSignature) :=
  mkPoller (mkSvc (prices, sigs) (1000, [] : list Envelope)) 30000 false None no_timers.

Lemma overlapping_polls_submit_twice_witness :
  ∃ ps s', rtc (step (poller_call id (λ _, "15") id sample_self) outside_moves)
      ([], idle_poller {[0 := approved_sample]} sigs_sample) (ps, s') ∧
    envelopes (svc_env (pl_svc s')) = [envelope_of id approved_sample sigs_sample; envelope_of id approved_sample sigs_sample].
Proof.
  refine (overlapping_polls_submit_twice (H := Z * list Envelope) id (λ _, "15") id sample_self 0
    approved_sample sigs_sample eq_refl _ _ _ (idle_poller {[0 := approved_sample]} sigs_sample) eq_refl);
    [by vm_compute|done|].
  intros currency rate memo l [t es]. by eexists _, _.
Defined.

Lemma stopped_poller_goes_on_witness :
  ∃ ps s', rtc (step (poller_call id (λ _, "15") id sample_self) outside_moves)
      ([], idle_poller {[0 := approved_sample]} sigs_sample) (ps, s') ∧
    Forall (λ p, p = Done (Ok tt)) ps ∧ pl_isRunning s' = false ∧ pl_pollTimer s' = None ∧
    tm_active (pl_timers s') = {[0%nat := 30000]}.
Proof.
  apply (stopped_poller_goes_on id (λ _, "15") id sample_self (idle_poller {[0 := approved_sample]} sigs_sample)); done.
Defined.

(** The service's calls up to the quorum, then a poll. *)
Definition quorum_calls : list (prog (poller (gmap Z (MultiSigPrice number) * gmap (Z * string) MultiSigSignature) (Z * list Envelope)) unit) :=
  ((λ op, at_svc (multisig_op_call id (λ _, "15") id sample_self op)) <$> sample_calls) ++
  [checkAndSubmitApprovedPrices id].
Definition after_quorum := run_in_turn quorum_calls (idle_poller ∅ ∅).
Definition quorum_envelope : Envelope :=
  mkEnvelope "NGN" (num_of_Z 15) "memo" [("KEY1", "SF-PRICE-NGN-15-CoinGecko"); ("KEY2", "aa")].

Example one_envelope : envelopes (svc_env (pl_svc after_quorum.2)) = [quorum_envelope].
Proof. by vm_compute. Qed.

Lemma submitted_with_quorum_witness :
  ∃ id p, rows (svc_db (pl_svc after_quorum.2)).1 !! id = Some p ∧
    mp_currency p = "NGN" ∧ mp_rate p = num_of_Z 15 ∧ 1 <= mp_requiredSignatures p <= 2 ∧
    Forall (λ sig, ms_signature <$> rows (svc_db (pl_svc after_quorum.2)).2 !! (id, sig.1) = Some sig.2)
      (en_signatures quorum_envelope).
Proof.
  apply (submitted_with_quorum id (λ _, "15") id sample_self ltac:(done) (idle_poller ∅ ∅) after_quorum.2
    after_quorum.1 quorum_envelope); [done..| |by vm_compute; left].
  apply (run_in_turn_steps _ _ quorum_calls []). repeat constructor.
Defined.
