(* ===== verification/WebhookBroadcaster.v ===== *)
(** * Governance webhooks ([services/governanceWebhookBroadcaster.ts])

    Endpoints that subscribe to proposal events, and the deliveries made to them: a
    broadcast inserts one signed delivery per endpoint, event and proposal, and a worker
    posts the due ones, with retries, under a flag that keeps two runs apart. The calls are
    programs of [Async]; SQL statements work on the two tables, the endpoints under their
    unique [url] and the deliveries under their unique endpoint, event and proposal, and
    may fail. The [ensureTables] promise is one statement. Proved: in every interleaving an
    attempt is counted once, no delivery has more attempts than its maximum, and what is
    settled stays; an endpoint registered again after it was disabled is disabled by its
    first failure, and a start that fails once never succeeds. *)

From Stdlib Require Import Ascii.
From stdpp Require Import pretty.
From S2P Require Import Prelude JsNumber JsString JsDate JsDecimal JsValue Prisma Service Async Mutex Timers.

Local Open Scope Z_scope.

Definition GOVERNANCE_WEBHOOK_SIGNATURE_PREFIX : string := "sha256=".
Definition GOVERNANCE_WEBHOOK_MAX_ATTEMPTS : Z := 5.
Definition GOVERNANCE_WEBHOOK_INITIAL_RETRY_MS : Z := 1000.
Definition GOVERNANCE_WEBHOOK_MAX_RETRY_MS : Z := 60000.
Definition GOVERNANCE_WEBHOOK_DISABLE_AFTER_FAILURES : Z := 10.

Definition GOVERNANCE_WEBHOOK_EVENT_TYPES : list string :=
  ["proposal.executed"; "proposal.cancelled"; "proposal.expired"].

(** A row of [governance_webhook_endpoints]. *)
Record DbEndpointRow := mkEndpoint {
  we_id : string;
  we_name : option string;
  we_url : string;
  we_secret : string;
  we_events : jsval;
  we_active : bool;
  we_failure_count : Z;
  we_last_delivery_at : option Z;
  we_last_status_code : option Z;
  we_disabled_at : option Z;
  we_created_at : Z;
  we_updated_at : Z;
}.

(** A row of [governance_webhook_deliveries]; [payload] is [raw_body] as JSON. *)
Record DbDeliveryRow := mkDelivery {
  wd_id : string;
  wd_endpoint_id : string;
  wd_endpoint_url : string;
  wd_event_type : string;
  wd_proposal_id : string;
  wd_contract_id : option string;
  wd_event_id : string;
  wd_event_timestamp : string;
  wd_raw_body : string;
  wd_signature : string;
  wd_status : string;
  wd_attempts : Z;
  wd_max_attempts : Z;
  wd_response_status : option Z;
  wd_response_body : option string;
  wd_error_message : option string;
  wd_next_attempt_at : Z;
  wd_delivered_at : option Z;
  wd_created_at : Z;
  wd_updated_at : Z;
}.

Record GovernanceWebhookEndpoint := mkWebhookEndpoint {
  gw_id : string;
  gw_name : option string;
  gw_url : string;
  gw_secret : string;
  gw_events : list string;
  gw_active : bool;
  gw_createdAt : Z;
  gw_updatedAt : Z;
}.

Record RegisterGovernanceWebhookInput := mkRegister {
  rg_url : string;
  rg_secret : option string;
  rg_name : option string;
  rg_events : option (list string);
  rg_active : option bool;
}.

Record hook_headers := mkHeaders {
  hh_signature : string;
  hh_event : string;
  hh_event_id : string;
  hh_timestamp : string;
}.
Record hook_response := mkResponse { hr_status : Z; hr_data : jsval }.

(** The clocks of the process and of the database, random values, and the network. *)
Class HookWorld (H : Type) := {
  hw_now : H → Z;
  db_now : H → Z;
  create_tables : M H unit;
  random_uuid : M H string;
  (** [randomBytes(32).toString("hex")] *)
  random_secret : M H string;
  (** the HMAC of a body under a secret, in hexadecimal *)
  hmac_sha256 : string → string → string;
  hook_post : string → string → hook_headers → M H hook_response;
}.

(** The variables [GOVERNANCE_WEBHOOK_URL], [..._SECRET], [..._EVENTS] and [..._NAME]. *)
Record HookEnvironment := mkHookEnv {
  env_url : option string;
  env_secret : option string;
  env_events : option string;
  env_name : option string;
}.

(** ** Events, signatures and secrets *)

Definition normalizeEventType (value : string) : option string :=
  let normalized := toLowerCase (trim value) in
  if decide (normalized ∈ ["proposal.executed"; "executed"; "execute"]) then Some "proposal.executed"
  else if decide (normalized ∈ ["proposal.cancelled"; "proposal.canceled"; "cancelled"; "canceled"]) then
    Some "proposal.cancelled"
  else if decide (normalized ∈ ["proposal.expired"; "expired"; "expire"]) then Some "proposal.expired"
  else None.

(** [seen.add(normalized)]: a [Set] keeps the order of first insertion. *)
Definition set_add (x : string) (seen : list string) : list string :=
  if decide (x ∈ seen) then seen else seen ++ [x].
Definition normalizeGovernanceWebhookEvents (values : option (list string)) : list string :=
  match default [] values with
  | [] => GOVERNANCE_WEBHOOK_EVENT_TYPES
  | values =>
      let seen := foldl (λ seen value, match normalizeEventType value with
                                       | Some e => set_add e seen
                                       | None => seen
                                       end) [] values in
      match seen with [] => GOVERNANCE_WEBHOOK_EVENT_TYPES | _ => seen end
  end.

(** [value.trim()] throws on what is not a text. *)
Definition text_values (l : list jsval) : exc (list string) :=
  mapM (λ v, match v with JStr s => Ok s | _ => Throw (Error "value.trim is not a function") end) l.

(** The tables and the world, the fields of the service and the timers of the process; the
    last field counts the runs of the queue a broadcast has asked for. *)
Record broadcaster (D H : Type) := mkBroadcaster {
  gb_svc : svc D H;
  gb_timer : option nat;
  gb_timers : timers;
  gb_running : bool;
  gb_processing : bool;
  gb_tablesReady : bool;
  gb_dispatches : nat;
}.
Arguments mkBroadcaster {D H} _ _ _ _ _ _ _.
Arguments gb_svc {D H} _.
Arguments gb_timer {D H} _.
Arguments gb_timers {D H} _.
Arguments gb_running {D H} _.
Arguments gb_processing {D H} _.
Arguments gb_tablesReady {D H} _.
Arguments gb_dispatches {D H} _.

Section hooks.
Context {DE DD H : Type} `{!HookWorld H}.
Context `{!PrismaTable string DbEndpointRow DE} `{!PrismaTable (string * string * string) DbDeliveryRow DD}.
(** The parser and the environment, and the constructor's arguments. *)
Context (JSON_parse : string → exc jsval) (env : HookEnvironment) (pollIntervalMs maxAttempts : Z).

Definition parseStoredEvents (value : jsval) : exc (list string) :=
  match value with
  | JArr l => events ← text_values l; Ok (normalizeGovernanceWebhookEvents (Some events))
  | JStr s =>
      Ok match JSON_parse s with
         | Ok (JArr l) => match text_values l with
                          | Ok events => normalizeGovernanceWebhookEvents (Some events)
                          | Throw _ => GOVERNANCE_WEBHOOK_EVENT_TYPES
                          end
         | _ => GOVERNANCE_WEBHOOK_EVENT_TYPES
         end
  | _ => Ok GOVERNANCE_WEBHOOK_EVENT_TYPES
  end.

Definition signGovernanceWebhookPayload (body secret : string) : string :=
  GOVERNANCE_WEBHOOK_SIGNATURE_PREFIX +:+ hmac_sha256 secret body.

Definition verifyGovernanceWebhookSignature (body : string) (signature : option string) (secret : string) : bool :=
  if negb (truthy_opt signature) || negb (truthy_str secret) then false
  else
    let signature := default "" signature in
    let expected := signGovernanceWebhookPayload body secret in
    let provided := if String.prefix GOVERNANCE_WEBHOOK_SIGNATURE_PREFIX signature then signature
                    else GOVERNANCE_WEBHOOK_SIGNATURE_PREFIX +:+ signature in
    if negb (String.length expected =? String.length provided)%nat then false
    else bool_decide (expected = provided).

Definition maskGovernanceWebhookSecret (secret : string) : string :=
  if (String.length secret <=? 8)%nat then "********"
  else String.substring 0 4 secret +:+ "****" +:+ String.substring (String.length secret - 4) 4 secret.

Definition mapEndpoint (row : DbEndpointRow) : exc GovernanceWebhookEndpoint :=
  events ← parseStoredEvents (we_events row);
  Ok (mkWebhookEndpoint (we_id row) (we_name row) (we_url row) (we_secret row) events (we_active row)
    (we_created_at row) (we_updated_at row)).

(** ** The service *)

Notation state := (broadcaster (DE * DD) H).
Notation call := (prog state).

Definition with_svc (s : state) (w : svc (DE * DD) H) : state :=
  mkBroadcaster w (gb_timer s) (gb_timers s) (gb_running s)
    (gb_processing s) (gb_tablesReady s) (gb_dispatches s).
Definition hooks_running (b : bool) (s : state) : state :=
  mkBroadcaster (gb_svc s) (gb_timer s) (gb_timers s) b
    (gb_processing s) (gb_tablesReady s) (gb_dispatches s).
Definition set_processing (b : bool) (s : state) : state :=
  mkBroadcaster (gb_svc s) (gb_timer s) (gb_timers s) (gb_running s)
    b (gb_tablesReady s) (gb_dispatches s).
Definition set_tablesReady (b : bool) (s : state) : state :=
  mkBroadcaster (gb_svc s) (gb_timer s) (gb_timers s) (gb_running s)
    (gb_processing s) b (gb_dispatches s).
Definition set_timers (timer : option nat) (t : timers) (s : state) : state :=
  mkBroadcaster (gb_svc s) timer t (gb_running s)
    (gb_processing s) (gb_tablesReady s) (gb_dispatches s).
Definition set_dispatches (n : nat) (s : state) : state :=
  mkBroadcaster (gb_svc s) (gb_timer s) (gb_timers s) (gb_running s)
    (gb_processing s) (gb_tablesReady s) n.

Definition at_svc {A} (c : M (svc (DE * DD) H) A) : call A := await (λ s,
  let '(r, w) := c (gb_svc s) in (r, with_svc s w)).
Definition outside {A} (c : M H A) : call A := at_svc (on_env c).
(** An SQL statement, which reads [NOW()]. *)
Definition sql {A} (c : Z → M (DE * DD) A) : call A := at_svc (λ w, on_db (c (db_now (svc_env w))) w).
Definition sql_query {A} (q : Z → DE * DD → exc A) : call A := sql (λ t d, (q t d, d)).
Definition process_now : call Z := await (λ s, (Ok (hw_now (svc_env (gb_svc s))), s)).

Definition ensureTables : call unit := await (λ s,
  if gb_tablesReady s then (Ok tt, s)
  else
    let '(r, w) := on_env create_tables (gb_svc s) in
    (r, with_svc (match r with Ok _ => set_tablesReady true s | Throw _ => s end) w)).

(** [INSERT ... ON CONFLICT (url) DO UPDATE ... RETURNING]; the primary key is the id. *)
Definition insert_endpoint (row : DbEndpointRow) (change : DbEndpointRow → DbEndpointRow) :
    M (DE * DD) DbEndpointRow := λ d,
  if bool_decide (rows d.1 !! we_url row = None) &&
     existsb (λ e, bool_decide (we_id e = we_id row)) (map_to_list (rows d.1)).*2 then
    (Throw (Error "duplicate key value violates unique constraint"), d)
  else on_fst (upsert (we_url row) row change) d.

Definition registered_again (name : option string) (secret : string) (events : jsval) (active : bool) (t : Z)
    (e : DbEndpointRow) : DbEndpointRow :=
  mkEndpoint (we_id e) name (we_url e) secret events active (we_failure_count e) (we_last_delivery_at e)
    (we_last_status_code e) None (we_created_at e) t.

Definition registerEndpoint (input : RegisterGovernanceWebhookInput) : call GovernanceWebhookEndpoint :=
  ensureTables ;~
  id <~ outside random_uuid ;;
  let given := default "" (trim <$> rg_secret input) in
  secret <~ (if truthy_str given then pret given else outside random_secret) ;;
  let events := JArr (JStr <$> normalizeGovernanceWebhookEvents (rg_events input)) in
  let active := default true (rg_active input) in
  row <~ sql (λ t, insert_endpoint
    (mkEndpoint id (rg_name input) (rg_url input) secret events active 0 None None None t t)
    (registered_again (rg_name input) secret events active t)) ;;
  Done (mapEndpoint row).

(** [ORDER BY created_at] *)
Definition endpoint_before (a b : DbEndpointRow) : Prop := we_created_at a ≤ we_created_at b.
#[export] Instance endpoint_before_dec : RelDecision endpoint_before.
Proof. intros a b. unfold endpoint_before. apply _. Defined.
Definition newest_endpoint (a b : DbEndpointRow) : Prop := endpoint_before b a.
#[export] Instance newest_endpoint_dec : RelDecision newest_endpoint.
Proof. intros a b. unfold newest_endpoint. apply _. Defined.

Definition listEndpoints (includeInactive : bool) : call (list GovernanceWebhookEndpoint) :=
  ensureTables ;~
  found <~ sql_query (λ _ d, findAll d.1) ;;
  let listed := merge_sort newest_endpoint (filter (λ e, includeInactive || we_active e = true) found) in
  endpoints <~ Done (mapM mapEndpoint listed) ;;
  pret ((λ e, mkWebhookEndpoint (gw_id e) (gw_name e) (gw_url e) (maskGovernanceWebhookSecret (gw_secret e))
                (gw_events e) (gw_active e) (gw_createdAt e) (gw_updatedAt e)) <$> endpoints).

Definition endpoint_has_id (id : string) (e : DbEndpointRow) : bool := bool_decide (we_id e = id).
Definition getEndpointById (id : string) : call (option GovernanceWebhookEndpoint) :=
  ensureTables ;~
  found <~ sql_query (λ _ d, findAll d.1) ;;
  match filter (λ e, endpoint_has_id id e = true) found with
  | row :: _ => endpoint <~ Done (mapEndpoint row) ;; pret (Some endpoint)
  | [] => pret None
  end.

Definition deactivated (t : Z) (e : DbEndpointRow) : DbEndpointRow :=
  mkEndpoint (we_id e) (we_name e) (we_url e) (we_secret e) (we_events e) false (we_failure_count e)
    (we_last_delivery_at e) (we_last_status_code e) (Some t) (we_created_at e) t.
Definition deactivateEndpoint (id : string) : call bool :=
  ensureTables ;~
  affected <~ sql (λ t, on_fst (updateMany (λ e, endpoint_has_id id e && we_active e) (deactivated t))) ;;
  pret (0 <? affected)%nat.

(** [registerEndpoint] of the environment's endpoint *)
Definition seed_input : option RegisterGovernanceWebhookInput :=
  let url := default "" (trim <$> env_url env) in
  if truthy_str url then
    let secret := default "" (trim <$> env_secret env) in
    let rawEvents := default "" (trim <$> env_events env) in
    let name := default "" (trim <$> env_name env) in
    Some (mkRegister url (if truthy_str secret then Some secret else None)
      (Some (if truthy_str name then name else "environment"))
      (Some (normalizeGovernanceWebhookEvents
        (if truthy_str rawEvents then Some (trim <$> split_on ","%char rawEvents "") else None))) None)
  else None.
Definition seedFromEnvironment : call unit :=
  match seed_input with
  | Some input => pcatch (forget (registerEndpoint input)) (λ _, pret tt)
  | None => pret tt
  end.

(** ** Broadcasts *)

(** [events = '[]' OR events @> '["..."]'] *)
Definition subscribes (eventType : string) (events : jsval) : bool :=
  match events with
  | JArr [] => true
  | JArr l => existsb (λ v, match v with JStr s => bool_decide (s = eventType) | _ => false end) l
  | _ => false
  end.
Definition listActiveEndpointsForEvent (eventType : string) : call (list GovernanceWebhookEndpoint) :=
  found <~ sql_query (λ _ d, findAll d.1) ;;
  Done (mapM mapEndpoint (merge_sort endpoint_before
    (filter (λ e, we_active e && subscribes eventType (we_events e) = true) found))).

Definition delivery_key (w : DbDeliveryRow) : string * string * string :=
  (wd_endpoint_id w, wd_event_type w, wd_proposal_id w).
Definition delivery_id_taken (id : string) (d : DE * DD) : bool :=
  existsb (λ w, bool_decide (wd_id w = id)) (map_to_list (rows d.2)).*2.

(** [INSERT ... ON CONFLICT (endpoint_id, event_type, proposal_id) DO NOTHING]: was a row
    inserted? Its endpoint must exist, and its id be new. *)
Definition insert_delivery (w : DbDeliveryRow) : M (DE * DD) bool := λ d,
  if negb (existsb (endpoint_has_id (wd_endpoint_id w)) (map_to_list (rows d.1)).*2) then
    (Throw (Error "insert violates foreign key constraint"), d)
  else if bool_decide (rows d.2 !! delivery_key w = None) && delivery_id_taken (wd_id w) d then
    (Throw (Error "duplicate key value violates unique constraint"), d)
  else
    try_catch (_ <- on_snd (createUnique (delivery_key w) w) ;; ret true)
      (λ error, if decide (err_code error = Some P2002) then ret false else throw error) d.

Definition data_proposal (data : list (string * jsval)) : string := String_val (field data "proposalId").
Definition data_contract (data : list (string * jsval)) : option string :=
  match field data "contractId" with JStr s => Some s | _ => None end.
Definition buildPayload (eventType : string) (data : list (string * jsval)) (eventId timestamp : string) : jsval :=
  JObj [("event", JStr eventType); ("eventId", JStr eventId); ("timestamp", JStr timestamp); ("data", JObj data)].

Definition createDelivery (endpoint : GovernanceWebhookEndpoint) (eventType : string)
    (data : list (string * jsval)) : call (option string) :=
  eventId <~ outside random_uuid ;;
  now <~ process_now ;;
  let timestamp := toISOString now in
  let rawBody := default "" (JSON_stringify (buildPayload eventType data eventId timestamp)) in
  let signature := signGovernanceWebhookPayload rawBody (gw_secret endpoint) in
  id <~ outside random_uuid ;;
  affected <~ sql (λ t, insert_delivery
    (mkDelivery id (gw_id endpoint) (gw_url endpoint) eventType (data_proposal data) (data_contract data)
      eventId timestamp rawBody signature "pending" 0 maxAttempts None None None t None t t)) ;;
  pret (if affected : bool then Some id else None).

Fixpoint create_deliveries (endpoints : list GovernanceWebhookEndpoint) (eventType : string)
    (data : list (string * jsval)) : call (list string) :=
  match endpoints with
  | [] => pret []
  | endpoint :: endpoints' =>
      deliveryId <~ createDelivery endpoint eventType data ;;
      deliveryIds <~ create_deliveries endpoints' eventType data ;;
      pret (option_list deliveryId ++ deliveryIds)
  end.

Definition broadcast (eventType : string) (data : list (string * jsval)) : call (list string) :=
  pcatch
    (ensureTables ;~
     endpoints <~ listActiveEndpointsForEvent eventType ;;
     deliveryIds <~ create_deliveries endpoints eventType data ;;
     await (modify (λ s, match deliveryIds with
                         | _ :: _ => if gb_running s then set_dispatches (S (gb_dispatches s)) s else s
                         | [] => s
                         end)) ;~
     pret deliveryIds)
    (λ _, pret []).

(** [{ ...data, status: data.status || status }] *)
Fixpoint set_field (name : string) (v : jsval) (data : list (string * jsval)) : list (string * jsval) :=
  match data with
  | [] => [(name, v)]
  | (k, u) :: data' => if decide (k = name) then (k, v) :: data' else (k, u) :: set_field name v data'
  end.
Definition with_status (status : string) (data : list (string * jsval)) : list (string * jsval) :=
  let given := field data "status" in set_field "status" (if truthy given then given else JStr status) data.
Definition broadcastProposalExecuted data : call (list string) :=
  broadcast "proposal.executed" (with_status "Executed" data).
Definition broadcastProposalCancelled data : call (list string) :=
  broadcast "proposal.cancelled" (with_status "Cancelled" data).
Definition broadcastProposalExpired data : call (list string) :=
  broadcast "proposal.expired" (with_status "Queued" data).

(** ** The worker *)

Definition getRetryDelayMs (attemptNumber : Z) : Z :=
  Z.min (GOVERNANCE_WEBHOOK_INITIAL_RETRY_MS * 2 ^ Z.max 0 (attemptNumber - 1)) GOVERNANCE_WEBHOOK_MAX_RETRY_MS.

Definition delivery_is (id : string) (w : DbDeliveryRow) : bool := bool_decide (wd_id w = id).
(** The endpoint of a delivery, for [UPDATE ... FROM governance_webhook_deliveries d]. *)
Definition endpoint_of (deliveryId : string) (d : DE * DD) (e : DbEndpointRow) : bool :=
  existsb (λ w, delivery_is deliveryId w && endpoint_has_id (wd_endpoint_id w) e) (map_to_list (rows d.2)).*2.

Definition endpoint_healthy (statusCode : option Z) (t : Z) (e : DbEndpointRow) : DbEndpointRow :=
  mkEndpoint (we_id e) (we_name e) (we_url e) (we_secret e) (we_events e) (we_active e) 0 (Some t) statusCode
    (we_disabled_at e) (we_created_at e) t.
Definition endpoint_failed (statusCode : option Z) (t : Z) (e : DbEndpointRow) : DbEndpointRow :=
  let failures := we_failure_count e + 1 in
  let disabled := GOVERNANCE_WEBHOOK_DISABLE_AFTER_FAILURES <=? failures in
  mkEndpoint (we_id e) (we_name e) (we_url e) (we_secret e) (we_events e)
    (if disabled then false else we_active e) failures (Some t) statusCode
    (if disabled then Some t else we_disabled_at e) (we_created_at e) t.
Definition updateEndpointHealth (deliveryId : string) (statusCode : option Z) (success : bool) : call unit :=
  pcatch
    (forget (sql (λ t d, on_fst (updateMany (endpoint_of deliveryId d)
       (if success then endpoint_healthy statusCode t else endpoint_failed statusCode t)) d)))
    (λ _, pret tt).

Definition delivery_retrying (attempts : Z) (responseStatus : option Z) (responseBody errorMessage : option string)
    (nextAttemptAt t : Z) (w : DbDeliveryRow) : DbDeliveryRow :=
  mkDelivery (wd_id w) (wd_endpoint_id w) (wd_endpoint_url w) (wd_event_type w) (wd_proposal_id w)
    (wd_contract_id w) (wd_event_id w) (wd_event_timestamp w) (wd_raw_body w) (wd_signature w) "retrying"
    attempts (wd_max_attempts w) responseStatus responseBody errorMessage nextAttemptAt (wd_delivered_at w)
    (wd_created_at w) t.
Definition delivery_settled (status : string) (attempts : Z) (responseStatus : option Z)
    (responseBody errorMessage : option string) (t : Z) (w : DbDeliveryRow) : DbDeliveryRow :=
  mkDelivery (wd_id w) (wd_endpoint_id w) (wd_endpoint_url w) (wd_event_type w) (wd_proposal_id w)
    (wd_contract_id w) (wd_event_id w) (wd_event_timestamp w) (wd_raw_body w) (wd_signature w) status
    attempts (wd_max_attempts w) responseStatus responseBody errorMessage (wd_next_attempt_at w)
    (if decide (status = "delivered") then Some t else wd_delivered_at w) (wd_created_at w) t.

Definition scheduleRetry (id : string) (attempts : Z) (responseStatus : option Z)
    (responseBody errorMessage : option string) : call unit :=
  now <~ process_now ;;
  sql (λ t, on_snd (updateMany (delivery_is id)
    (delivery_retrying attempts responseStatus responseBody errorMessage (now + getRetryDelayMs attempts) t))) ;~
  updateEndpointHealth id responseStatus false.
Definition finalizeDelivery (id status : string) (attempts : Z) (responseStatus : option Z)
    (responseBody errorMessage : option string) : call unit :=
  sql (λ t, on_snd (updateMany (delivery_is id)
    (delivery_settled status attempts responseStatus responseBody errorMessage t))) ;~
  updateEndpointHealth id responseStatus (bool_decide (status = "delivered")).

(** [typeof data === "string" ? data : JSON.stringify(data ?? null)] *)
Definition response_body (response : hook_response) : string :=
  match hr_data response with
  | JStr s => s
  | v => default "null" (JSON_stringify v)
  end.
Definition http_message (statusCode : Z) : string := "HTTP " +:+ pretty statusCode.

Definition dispatchDelivery (row : DbDeliveryRow) : call unit :=
  let attemptNumber := wd_attempts row + 1 in
  let maxAttempts := if wd_max_attempts row =? 0 then maxAttempts else wd_max_attempts row in
  if maxAttempts <? attemptNumber then
    finalizeDelivery (wd_id row) "failed" attemptNumber None None (Some "Max attempts exceeded")
  else
    pcatch
      (response <~ outside (hook_post (wd_endpoint_url row) (wd_raw_body row)
         (mkHeaders (wd_signature row) (wd_event_type row) (wd_event_id row) (wd_event_timestamp row))) ;;
       let statusCode := hr_status response in
       let responseBody := Some (response_body response) in
       if (200 <=? statusCode) && (statusCode <? 300) then
         finalizeDelivery (wd_id row) "delivered" attemptNumber (Some statusCode) responseBody None
       else if ((500 <=? statusCode) || (statusCode =? 429)) && (attemptNumber <? maxAttempts) then
         scheduleRetry (wd_id row) attemptNumber (Some statusCode) responseBody (Some (http_message statusCode))
       else
         finalizeDelivery (wd_id row) "failed" attemptNumber (Some statusCode) responseBody
           (Some (http_message statusCode)))
      (λ error,
         let message := Some (err_message error) in
         if attemptNumber <? maxAttempts then scheduleRetry (wd_id row) attemptNumber None None message
         else finalizeDelivery (wd_id row) "failed" attemptNumber None None message).

(** [ORDER BY next_attempt_at] *)
Definition due_before (a b : DbDeliveryRow) : Prop := wd_next_attempt_at a ≤ wd_next_attempt_at b.
#[export] Instance due_before_dec : RelDecision due_before.
Proof. intros a b. unfold due_before. apply _. Defined.

Definition is_open (w : DbDeliveryRow) : bool := bool_decide (wd_status w ∈ ["pending"; "retrying"]).
Definition due_deliveries (t : Z) (d : DE * DD) : exc (list DbDeliveryRow) :=
  endpoints ← findAll d.1;
  found ← findAll d.2;
  Ok (take 50 (merge_sort due_before (filter (λ w, is_open w && (wd_next_attempt_at w <=? t) &&
    existsb (λ e, endpoint_has_id (wd_endpoint_id w) e && we_active e) endpoints = true) found))).

Definition begin_processing : call bool := await (λ s,
  (Ok (gb_processing s), if gb_processing s then s else set_processing true s)).
Definition processQueue : call unit :=
  busy <~ begin_processing ;;
  if busy : bool then pret tt
  else
    pfinally
      (rows <~ sql_query due_deliveries ;;
       pfor rows dispatchDelivery)
      (await (modify (set_processing false))).

(** Up to the first [await] of [start] *)
Definition begin_broadcaster : call bool := await (λ s, (Ok (gb_running s), hooks_running true s)).
Definition start : call unit :=
  running <~ begin_broadcaster ;;
  if running : bool then pret tt
  else
    ensureTables ;~
    seedFromEnvironment ;~
    await (modify (λ s, let '(id, ts) := setInterval pollIntervalMs (gb_timers s) in set_timers (Some id) ts s)) ;~
    processQueue.
Definition stop : call unit := await (modify (λ s,
  hooks_running false (set_timers None (clearInterval (gb_timer s) (gb_timers s)) s))).
Definition isRunning : call bool := await (λ s, (Ok (gb_running s), s)).

(** ** History *)

Record GovernanceWebhookDeliveryFilters := mkHookFilters {
  hf_endpointId : option string;
  hf_eventType : option string;
  hf_proposalId : option string;
  hf_status : option string;
  hf_limit : option Z;
  hf_offset : option Z;
}.
Definition given_matches (v : option string) (column : string) : bool :=
  if truthy_opt v then bool_decide (v = Some column) else true.
Definition deliveries_where (filters : GovernanceWebhookDeliveryFilters) (w : DbDeliveryRow) : bool :=
  given_matches (hf_endpointId filters) (wd_endpoint_id w) && given_matches (hf_eventType filters) (wd_event_type w) &&
  given_matches (hf_proposalId filters) (wd_proposal_id w) && given_matches (hf_status filters) (wd_status w).
Definition newest_delivery (a b : DbDeliveryRow) : Prop := wd_created_at b ≤ wd_created_at a.
#[export] Instance newest_delivery_dec : RelDecision newest_delivery.
Proof. intros a b. unfold newest_delivery. apply _. Defined.

(** The deliveries of a page, how many there are in all, the limit and the offset. *)
Definition getDeliveryHistory (filters : GovernanceWebhookDeliveryFilters) :
    call (list DbDeliveryRow * nat * Z * Z) :=
  ensureTables ;~
  let limit := Z.min (Z.max (default 50 (hf_limit filters)) 1) 200 in
  let offset := Z.max (default 0 (hf_offset filters)) 0 in
  found <~ sql_query (λ _ d, findAll d.2) ;;
  total <~ sql_query (λ _ d, count (deliveries_where filters) d.2) ;;
  pret (take (Z.to_nat limit) (drop (Z.to_nat offset)
    (merge_sort newest_delivery (filter (λ w, deliveries_where filters w = true) found))), total, limit, offset).

Record GovernanceWebhookDeliveryStats := mkHookStats {
  hs_pending : nat;
  hs_retrying : nat;
  hs_delivered : nat;
  hs_failed : nat;
  hs_total : nat;
}.
Definition getDeliveryStats : call GovernanceWebhookDeliveryStats :=
  ensureTables ;~
  found <~ sql_query (λ _ d, findAll d.2) ;;
  let counts status := length (filter (λ w, wd_status w = status) found) in
  pret (mkHookStats (counts "pending") (counts "retrying") (counts "delivered") (counts "failed") (length found)).

(** The calls from outside, those the timer and the broadcasts make among them. *)
Inductive hook_call : call unit → Prop :=
| hook_start : hook_call start
| hook_stop : hook_call stop
| hook_register input : hook_call (forget (registerEndpoint input))
| hook_deactivate id : hook_call (forget (deactivateEndpoint id))
| hook_broadcast eventType data : hook_call (forget (broadcast eventType data))
| hook_process : hook_call processQueue
| hook_list inactive : hook_call (forget (listEndpoints inactive))
| hook_history filters : hook_call (forget (getDeliveryHistory filters))
| hook_stats : hook_call (forget getDeliveryStats).
End hooks.

(** ** What the worker keeps *)
Section invariant.
Context {DE DD H : Type} `{!HookWorld H}.
Context `{!PrismaTable string DbEndpointRow DE} `{!PrismaTable (string * string * string) DbDeliveryRow DD}.
Context (JSON_parse : string → exc jsval) (env : HookEnvironment) (pollIntervalMs maxAttempts : Z).
Context (Hmax : 1 <= maxAttempts).
Notation state := (broadcaster (DE * DD) H).
Implicit Types (s : state) (w : DbDeliveryRow).

Definition deliveries s : gmap (string * string * string) DbDeliveryRow := rows (svc_db (gb_svc s)).2.

(** A pending delivery has not been tried; a retried one has attempts left; a settled one
    was tried, no more often than it may be, and is delivered by a response of 2xx only. *)
Definition delivery_ok w : Prop := 1 <= wd_max_attempts w ∧
  (wd_status w = "pending" ∧ wd_attempts w = 0 ∨
   wd_status w = "retrying" ∧ 1 <= wd_attempts w < wd_max_attempts w ∨
   1 <= wd_attempts w <= wd_max_attempts w ∧
     (wd_status w = "failed" ∨
      wd_status w = "delivered" ∧ is_Some (wd_delivered_at w) ∧
        ∃ code, wd_response_status w = Some code ∧ 200 <= code < 300)).
Record hooks_ok s : Prop := {
  hooks_key k w : deliveries s !! k = Some w → delivery_key w = k;
  hooks_id k k' w w' : deliveries s !! k = Some w → deliveries s !! k' = Some w' → wd_id w = wd_id w' → k = k';
  hooks_row k w : deliveries s !! k = Some w → delivery_ok w;
}.

(** What never changes of a delivery *)
Definition same_delivery w w' : Prop :=
  wd_id w' = wd_id w ∧ wd_endpoint_id w' = wd_endpoint_id w ∧ wd_endpoint_url w' = wd_endpoint_url w ∧
  wd_event_type w' = wd_event_type w ∧ wd_proposal_id w' = wd_proposal_id w ∧
  wd_raw_body w' = wd_raw_body w ∧ wd_signature w' = wd_signature w ∧
  wd_max_attempts w' = wd_max_attempts w.
(** A delivery goes on by attempts, from an open status only. *)
Definition goes_on w w' : Prop :=
  same_delivery w w' ∧ (w' = w ∨ is_open w = true ∧ wd_attempts w < wd_attempts w').
#[export] Instance goes_on_preorder : PreOrder goes_on.
Proof.
  split; [intros w; split; [by repeat split|by left]|].
  intros w w' w'' [T S] [T' S']. split.
  - destruct T as (?&?&?&?&?&?&?&?), T' as (?&?&?&?&?&?&?&?). repeat split; congruence.
  - destruct S as [->|[Ho Ha]]; [done|]. right. split; [done|]. destruct S' as [->|[_ Ha']]; lia.
Qed.

Definition hooks_go_on s s' : Prop := ∀ k w, deliveries s !! k = Some w →
  ∃ w', deliveries s' !! k = Some w' ∧ goes_on w w'.
Definition hooks_kept s s' : Prop :=
  (∀ k w, deliveries s !! k = Some w → deliveries s' !! k = Some w) ∧ gb_processing s' = gb_processing s.
#[export] Instance hooks_go_on_preorder : PreOrder hooks_go_on.
Proof.
  split; [intros s k w Hw; by exists w|].
  intros s s' s'' E E' k w Hw. destruct (E k w Hw) as (w' & Hw' & T). destruct (E' k w' Hw') as (w'' & Hw'' & T').
  exists w''. split; [done|by etrans].
Qed.
#[export] Instance hooks_kept_preorder : PreOrder hooks_kept.
Proof.
  split; [by intros s|]. intros s s' s'' [E1 E2] [E1' E2']. split; [by eauto|congruence].
Qed.
Lemma kept_goes_on s s' : hooks_kept s s' → hooks_go_on s s'.
Proof. intros [K _] k w Hw. exists w. by split; [apply K|]. Qed.
Lemma kept_processing s s' : hooks_kept s s' → gb_processing s' = gb_processing s.
Proof. by intros [_ ?]. Qed.

(** Statements that leave the deliveries and the flag alone. *)
Definition silent s s' : Prop :=
  deliveries s' = deliveries s ∧ gb_processing s' = gb_processing s.
Lemma silent_ok s s' : hooks_ok s → silent s s' → hooks_ok s' ∧ hooks_kept s s'.
Proof.
  intros [H2 H3 H4] (Ed & Ep). split.
  - split; rewrite ?Ed; done.
  - split; [by rewrite Ed|done].
Qed.

Lemma same_ok s s' : hooks_ok s → deliveries s' = deliveries s → hooks_ok s' ∧ hooks_go_on s s'.
Proof.
  intros [H2 H3 H4] Ed. split; [split; rewrite ?Ed; done|]. intros k w Hw. exists w. by rewrite Ed.
Qed.

Lemma silent_env {A} (c : M H A) s : silent s (let '(_, w) := on_env c (gb_svc s) in with_svc s w).
Proof. unfold on_env. by destruct (c (svc_env (gb_svc s))). Qed.
Lemma silent_endpoints {A} (c : M DE A) s :
  silent s (let '(_, w) := on_db (on_fst c) (gb_svc s) in with_svc s w).
Proof. unfold on_db, on_fst. by destruct (c (svc_db (gb_svc s)).1). Qed.

Notation guards := (guarded_by hooks_ok gb_processing hooks_go_on hooks_kept).
Notation relies := (rely hooks_go_on hooks_kept).
Notation outside_call := (well_guarded hooks_ok gb_processing hooks_go_on hooks_kept).

Lemma guarded_silent {A} b (S : state → Prop) (c : M state A) (Post : bool → exc A → state → Prop) :
  (∀ s, silent s (final c s)) →
  (∀ s s', S s → hooks_kept s (final c s) → relies b (final c s) s' → Post b (outcome c s) s') →
  guards b S (await c) Post.
Proof.
  intros Hc HS s HI Hb Hs. destruct (silent_ok s _ HI (Hc s)) as [HI' K]. split; [done|]. exists b. split.
  - unfold moves. destruct b; [|done]. split; [by apply kept_goes_on|]. destruct K as [_ ->]. by apply Hb.
  - intros s' _ _ Hr. by apply (HS s).
Qed.
Lemma outside_silent {A} (c : M state A) : (∀ s, silent s (final c s)) → outside_call (await c).
Proof. intros Hc. by apply guarded_silent. Qed.
Lemma outside_env {A} (c : M H A) : outside_call (outside (DE := DE) (DD := DD) c).
Proof.
  apply outside_silent. intros s. pose proof (silent_env c s) as E. unfold final.
  by destruct (on_env c (gb_svc s)).
Qed.
Lemma sql_silent {A} (c : Z → M DE A) s :
  silent s (final (λ s, let '(r, w) := on_db (on_fst (D2 := DD) (c (db_now (svc_env (gb_svc s))))) (gb_svc s) in (r, with_svc s w)) s).
Proof.
  pose proof (silent_endpoints (c (db_now (svc_env (gb_svc s)))) s) as E. unfold final.
  by destruct (on_db _ (gb_svc s)).
Qed.
Lemma outside_query {A} (q : Z → DE * DD → exc A) : outside_call (sql_query q).
Proof. apply outside_silent. intros s. by destruct s as [[d h] ? ? ? ? ? ?]. Qed.
Lemma outside_endpoints {A} (c : Z → M DE A) : outside_call (sql (DD := DD) (λ t, on_fst (c t))).
Proof. apply outside_silent. intros s. apply sql_silent. Qed.
Lemma outside_ensure : outside_call ensureTables.
Proof.
  apply outside_silent. intros s. unfold final. case_match; [done|]. pose proof (silent_env create_tables s) as E.
  destruct (on_env create_tables (gb_svc s)) as [[u|e] w]; exact E.
Qed.
Lemma outside_read {A} (r : state → exc A) : outside_call (await (λ s, (r s, s))).
Proof. by apply outside_silent. Qed.
Lemma outside_now : outside_call process_now.
Proof. apply (outside_read (λ s, Ok (hw_now (svc_env (gb_svc s))))). Qed.
Hint Resolve outside_now outside_env outside_query outside_endpoints outside_ensure outside_read
  kept_goes_on kept_processing : sf.

Lemma outside_register input : outside_call (registerEndpoint JSON_parse input).
Proof.
  unfold registerEndpoint. behave_outside. apply outside_silent. intros [[[d1 d2] h] ? ? ? ? ? ?].
  unfold final, on_db, insert_endpoint, on_fst. cbn [gb_svc svc_db svc_env fst].
  destruct (_ && _); [done|]. by destruct (upsert _ _ _ _).
Qed.
(** A statement on the deliveries alone. *)
Definition with_deliveries s (d : DD) : state :=
  with_svc s (mkSvc ((svc_db (gb_svc s)).1, d) (svc_env (gb_svc s))).
Lemma deliveries_with s d : deliveries (with_deliveries s d) = rows d.
Proof. done. Qed.
Lemma id_taken_false id (d : DE * DD) k w : delivery_id_taken id d = false → rows d.2 !! k = Some w → wd_id w ≠ id.
Proof.
  intros Ht Hk E. unfold delivery_id_taken in Ht. assert (existsb (λ w, bool_decide (wd_id w = id)) (map_to_list (rows d.2)).*2 = true).
  - apply existsb_exists. exists w. split; [|by apply bool_decide_eq_true].
    apply list_elem_of_In, list_elem_of_fmap. exists (k, w). split; [done|by apply elem_of_map_to_list].
  - congruence.
Qed.
Lemma insert_row_ok s d w : hooks_ok s → delivery_ok w → deliveries s !! delivery_key w = None →
  (∀ k w', deliveries s !! k = Some w' → wd_id w' ≠ wd_id w) →
  rows d = <[delivery_key w := w]> (deliveries s) → hooks_ok (with_deliveries s d) ∧ hooks_kept s (with_deliveries s d).
Proof.
  intros [Hk Hi Hr] Hw Hn Hid Ed. split; [split|split; [|done]]; intros *; rewrite deliveries_with, Ed.
  - intros [[<- <-]|[_ ?]]%lookup_insert_Some; [done|by apply Hk].
  - intros [[<- <-]|[_ H1]]%lookup_insert_Some [[<- <-]|[_ H2]]%lookup_insert_Some E; [done| | |by eapply Hi].
    + by destruct (Hid _ _ H2).
    + by destruct (Hid _ _ H1).
  - intros [[<- <-]|[_ ?]]%lookup_insert_Some; [done|by eapply Hr].
  - intros Hx. rewrite lookup_insert_ne; [done|]. intros <-. congruence.
Qed.
Lemma insert_delivery_ok s w : hooks_ok s → delivery_ok w →
  let s' := with_svc s (final (on_db (insert_delivery w)) (gb_svc s)) in hooks_ok s' ∧ hooks_kept s s'.
Proof.
  intros HI Hw. destruct s as [[[d1 d2] h] ? ? ? ? ? ?]. unfold final, on_db, insert_delivery. cbn [gb_svc svc_db svc_env fst snd].
  destruct (negb _); [done|]. destruct (bool_decide _ && _) eqn:Eb; [done|].
  unfold try_catch, bind, on_snd. cbn [fst snd]. destruct (createUnique (delivery_key w) w d2) as [[w'|e] d2'] eqn:Ec.
  - apply createUnique_ok in Ec as (Hn & -> & Ed). refine (insert_row_ok _ d2' w HI Hw Hn _ Ed).
    intros k w' Hk'. rewrite bool_decide_true in Eb by done. by eapply (id_taken_false _ (d1, d2)).
  - apply createUnique_err in Ec as [Ed _]. simpl.
    case_decide; simpl; (apply silent_ok; [exact HI|]; split; [exact Ed|done]).
Qed.
Lemma outside_insert (row : Z → DbDeliveryRow) :
  (∀ t, delivery_ok (row t)) → outside_call (sql (λ t, insert_delivery (row t))).
Proof.
  intros Hrow. apply guarded_outside. intros s HI _.
  pose proof (insert_delivery_ok s _ HI (Hrow (db_now (svc_env (gb_svc s))))) as [HI' K]. unfold final in *.
  by destruct (on_db _ (gb_svc s)) as [r w].
Qed.
Lemma outside_broadcast eventType data : outside_call (broadcast JSON_parse maxAttempts eventType data).
Proof.
  assert (∀ e, outside_call (createDelivery maxAttempts e eventType data)) as Hcreate.
  { intros e. unfold createDelivery. behave_outside. apply outside_insert. intros t. by split; [|left]. }
  assert (∀ l, outside_call (create_deliveries maxAttempts l eventType data)) as Hl.
  { induction l; cbn [create_deliveries]; behave_outside; auto. }
  unfold broadcast, listActiveEndpointsForEvent. behave_outside.
  apply outside_silent. intros s. unfold final. simpl. repeat case_match; done.
Qed.

(** ** One run of the queue *)

(** The rows still to be dispatched are as they were read. *)
Definition unsent (l : list DbDeliveryRow) s : Prop :=
  NoDup (delivery_key <$> l) ∧ Forall (λ w, deliveries s !! delivery_key w = Some w ∧ is_open w = true) l.
Lemma unsent_kept l s s' : unsent l s → hooks_kept s s' → unsent l s'.
Proof.
  intros [Hn Hl] [K _]. split; [done|]. eapply Forall_impl; [exact Hl|]. simpl. intros w [Hw Ho]. split; [by apply K|done].
Qed.
Lemma unsent_tail w l s : unsent (w :: l) s → unsent l s.
Proof. intros [[_ Hn]%NoDup_cons Hl]. split; [done|]. by apply Forall_cons in Hl as [_ ?]. Qed.

(** What an update of the delivery [w] by [f] may do. *)
Definition attempt_of (f : DbDeliveryRow → DbDeliveryRow) w : Prop := delivery_ok (f w) ∧ goes_on w (f w).

Lemma update_deliveries s w d : hooks_ok s → deliveries s !! delivery_key w = Some w →
  ∀ f, attempt_of f w → rows d = (λ r, if delivery_is (wd_id w) r then f r else r) <$> deliveries s →
  hooks_ok (with_deliveries s d) ∧ hooks_go_on s (with_deliveries s d) ∧
  ∀ k, k ≠ delivery_key w → rows d !! k = deliveries s !! k.
Proof.
  intros [Hk Hi Hr] Hw f [Hok Hgo] Ed.
  assert (delivery_key (f w) = delivery_key w) as Ekey.
  { destruct Hgo as [(?&?&?&?&?&_) _]. unfold delivery_key. congruence. }
  assert (wd_id (f w) = wd_id w) as Eid by apply Hgo.
  assert (rows d = <[delivery_key w := f w]> (deliveries s)) as E.
  { rewrite Ed. apply map_eq. intros k. rewrite lookup_fmap. destruct (decide (k = delivery_key w)) as [->|Hne].
    - rewrite lookup_insert_eq, Hw. simpl. unfold delivery_is. by rewrite bool_decide_true.
    - rewrite lookup_insert_ne by done. destruct (deliveries s !! k) as [w'|] eqn:Hw'; [|done]. simpl.
      unfold delivery_is. rewrite bool_decide_false; [done|]. intros Ew. by destruct Hne, (Hi _ _ _ _ Hw' Hw Ew). }
  clear Ed. split; [split; intros *; rewrite deliveries_with, E|split].
  - intros [[<- <-]|[_ ?]]%lookup_insert_Some; [done|by apply Hk].
  - intros [[<- <-]|[_ H1]]%lookup_insert_Some [[<- <-]|[_ H2]]%lookup_insert_Some; rewrite ?Eid; by eauto.
  - intros [[<- <-]|[_ ?]]%lookup_insert_Some; [done|by eapply Hr].
  - intros k w' Hw'. rewrite deliveries_with, E. destruct (decide (k = delivery_key w)) as [->|Hne].
    + exists (f w). rewrite lookup_insert_eq. split; [done|]. by assert (w' = w) as -> by congruence.
    + exists w'. by rewrite lookup_insert_ne.
  - intros k Hne. by rewrite E, lookup_insert_ne.
Qed.

Lemma guarded_update (f : Z → DbDeliveryRow → DbDeliveryRow) w l :
  (∀ t, delivery_ok w → is_open w = true → attempt_of (f t) w) →
  guards true (unsent (w :: l)) (sql (DE := DE) (λ t, on_snd (updateMany (delivery_is (wd_id w)) (f t))))
    (λ b r s, b = true ∧ match r with Ok _ => unsent l s | Throw _ => unsent (w :: l) s end).
Proof.
  intros Hf. apply guarded_inside. intros s HI Hflag Hun. pose proof Hun as [Hn [[Hw Ho] Hl]%Forall_cons].
  pose proof (Hf (db_now (svc_env (gb_svc s))) (hooks_row _ HI _ _ Hw) Ho) as Ha.
  set (c := λ s : state, _). assert (∃ r d, outcome c s = r ∧ final c s = with_deliveries s d ∧
    updateMany (delivery_is (wd_id w)) (f (db_now (svc_env (gb_svc s)))) (svc_db (gb_svc s)).2 = (r, d))
    as (r & d & Er & Ed & Eu).
  { unfold c, outcome, final, on_db, on_snd. destruct (updateMany _ _ _) as [r d]. by exists r, d. }
  rewrite Er, Ed. clearbody c. clear Er Ed. destruct r as [n|e].
  - apply updateMany_ok in Eu as [Eu _].
    destruct (update_deliveries s w d HI Hw _ Ha Eu) as (HI' & HR & Hother).
    split_and!; [done|done|done|]. intros s' _ K. split; [done|]. apply NoDup_cons in Hn as [Hnin Hn].
    apply (unsent_kept l (with_deliveries s d)); [|done]. split; [done|]. apply Forall_forall. intros w' Hw'.
    rewrite Forall_forall in Hl. destruct (Hl w' Hw') as [Hw1 ?]. split; [|done]. rewrite deliveries_with, Hother; [done|].
    intros E. apply Hnin. rewrite <-E. by apply list_elem_of_fmap_2.
  - apply updateMany_err in Eu. assert (silent s (with_deliveries s d)) as Hsil by done.
    destruct (silent_ok _ _ HI Hsil) as [HI' K]. split_and!; [done|by apply kept_goes_on|done|].
    intros s' _ K'. split; [done|]. by eapply unsent_kept; [eapply unsent_kept|].
Qed.

Lemma guarded_health (S : state → Prop) id code success :
  (∀ s s', S s → hooks_kept s s' → S s') →
  guards true S (updateEndpointHealth (DE := DE) (DD := DD) id code success) (λ b r s, b = true ∧ r = Ok tt ∧ S s).
Proof.
  intros HS. unfold updateEndpointHealth. apply guarded_catch; [apply _|apply _|auto with sf..|].
  apply guarded_bind; [apply _|apply _|auto with sf..|]. apply guarded_silent.
  - intros s. apply (sql_silent (λ t, updateMany (endpoint_of id (svc_db (gb_svc s)))
      (if success then endpoint_healthy code t else endpoint_failed code t))).
  - intros s s' Hs K K'. assert (S s') as Hs' by by eapply HS; [eapply HS|].
    destruct (outcome _ s); intros s'' _ _ K''; (split; [done|]); (split; [done|by eapply HS]).
Qed.

(** How the dispatch of [w] ends: done with it, or with [w] as it was. *)
Definition dispatched w l (b : bool) (r : exc unit) s : Prop :=
  b = true ∧ match r with Ok _ => unsent l s | Throw _ => unsent (w :: l) s end.
Lemma guarded_attempt (f : Z → DbDeliveryRow → DbDeliveryRow) w l code success :
  (∀ t, delivery_ok w → is_open w = true → attempt_of (f t) w) →
  guards true (unsent (w :: l))
    (sql (DE := DE) (λ t, on_snd (updateMany (delivery_is (wd_id w)) (f t))) ;~ updateEndpointHealth (wd_id w) code success)
    (dispatched w l).
Proof.
  intros Hf. apply guarded_bind; [apply _|apply _|auto with sf..|]. eapply guarded_post; [by apply guarded_update|].
  intros b [n|e] s HI Hb [-> Hun]; [|done]. eapply guarded_pre; [eapply guarded_post;
    [apply (guarded_health (unsent l)); intros ? ?; apply unsent_kept|]|].
  - intros b r s' _ _ (-> & -> & ?). done.
  - intros s' _ _ K. by eapply unsent_kept.
Qed.

Lemma open_attempts w : delivery_ok w → is_open w = true → 0 <= wd_attempts w < wd_max_attempts w.
Proof.
  intros [Hm Hs] Ho%bool_decide_eq_true. destruct Hs as [[_ ->]|[[_ ?]|[_ Hs]]]; [lia|lia|].
  destruct Hs as [E|[E _]]; rewrite E in Ho; set_solver.
Qed.
Lemma attempt_settled w status code body message t :
  delivery_ok w → is_open w = true →
  status = "failed" ∨ status = "delivered" ∧ (∃ c, code = Some c ∧ 200 <= c < 300) →
  attempt_of (delivery_settled status (wd_attempts w + 1) code body message t) w.
Proof.
  intros Hw Ho Hs. pose proof (open_attempts _ Hw Ho) as Ha. split.
  - split; [apply Hw|]. right; right. simpl. split; [lia|]. destruct Hs as [->|[-> Hc]]; [by left|right].
    split_and!; [done|by eexists|done].
  - split; [by repeat split|]. right. split; [done|]. simpl. lia.
Qed.
Lemma attempt_retrying w code body message next t :
  delivery_ok w → is_open w = true → wd_attempts w + 1 < wd_max_attempts w →
  attempt_of (delivery_retrying (wd_attempts w + 1) code body message next t) w.
Proof.
  intros Hw Ho Hlt. pose proof (open_attempts _ Hw Ho) as Ha. split.
  - split; [apply Hw|]. right; left. simpl. split; [done|lia].
  - split; [by repeat split|]. right. split; [done|]. simpl. lia.
Qed.

Lemma guarded_finalize w l status code body message :
  status = "failed" ∨ status = "delivered" ∧ (∃ c, code = Some c ∧ 200 <= c < 300) →
  guards true (unsent (w :: l)) (finalizeDelivery (wd_id w) status (wd_attempts w + 1) code body message) (dispatched w l).
Proof. intros Hs. apply guarded_attempt. intros t Hw Ho. by apply attempt_settled. Qed.
Lemma guarded_retry w l code body message : wd_attempts w + 1 < wd_max_attempts w →
  guards true (unsent (w :: l)) (scheduleRetry (wd_id w) (wd_attempts w + 1) code body message) (dispatched w l).
Proof.
  intros Hlt. apply guarded_bind; [apply _|apply _|auto with sf..|]. apply guarded_silent; [done|].
  intros s s' Hs K Hr. eapply guarded_pre; [apply guarded_attempt|].
  - intros t Hw Ho. by apply attempt_retrying.
  - intros s'' _ _ K''. by eapply unsent_kept; [eapply unsent_kept|].
Qed.

Lemma guarded_dispatch w l : wd_max_attempts w ≠ 0 →
  guards true (unsent (w :: l)) (dispatchDelivery maxAttempts w) (dispatched w l).
Proof.
  intros Hmax0. unfold dispatchDelivery. rewrite (proj2 (Z.eqb_neq _ _) Hmax0).
  case_match; [apply guarded_finalize; by left|].
  apply guarded_catch; [apply _|apply _|auto with sf..|].
  apply guarded_bind; [apply _|apply _|auto with sf..|]. apply guarded_silent.
  { intros s. pose proof (silent_env (hook_post (wd_endpoint_url w) (wd_raw_body w)
      (mkHeaders (wd_signature w) (wd_event_type w) (wd_event_id w) (wd_event_timestamp w))) s) as E.
    unfold final. by destruct (on_env _ (gb_svc s)). }
  intros s s' Hs K Hr.
  assert (∀ e : js_error, guards true (unsent (w :: l))
    (let message := Some (err_message e) in
     if wd_attempts w + 1 <? wd_max_attempts w then scheduleRetry (wd_id w) (wd_attempts w + 1) None None message
     else finalizeDelivery (wd_id w) "failed" (wd_attempts w + 1) None None message) (dispatched w l)) as Hcatch.
  { intros e. cbv zeta. case_match eqn:Hlt; [apply guarded_retry; lia|apply guarded_finalize; by left]. }
  assert (∀ r : exc unit, ∀ b s1, dispatched w l b r s1 →
    match r with
    | Ok a => dispatched w l b (Ok a) s1
    | Throw e => guarded_by hooks_ok gb_processing hooks_go_on hooks_kept b (relies b s1) (
        let message := Some (err_message e) in
        if wd_attempts w + 1 <? wd_max_attempts w then scheduleRetry (wd_id w) (wd_attempts w + 1) None None message
        else finalizeDelivery (wd_id w) "failed" (wd_attempts w + 1) None None message) (dispatched w l)
    end) as Hthen.
  { intros [u|e] b s1 Hd; [done|]. destruct Hd as [-> Hun]. eapply guarded_pre; [apply Hcatch|].
    intros s2 _ _ K2. by eapply unsent_kept. }
  assert (unsent (w :: l) s') as Hs' by by eapply unsent_kept; [eapply unsent_kept|].
  destruct (outcome _ s) as [response|e]; [|by apply (Hthen (Throw e) true s')].
  cbv zeta. eapply guarded_post; [|intros b r s1 _ _; apply Hthen].
  eapply guarded_pre; [|intros s1 _ _ K1; exact (unsent_kept _ _ _ Hs' K1)].
  lazymatch goal with |- context [if ?b then _ else _] => destruct b eqn:H200 end.
  - apply guarded_finalize. right. split; [done|]. eexists. split; [done|]. lia.
  - lazymatch goal with |- context [if ?b then _ else _] => destruct b eqn:H500 end; [apply guarded_retry; lia|apply guarded_finalize; by left].
Qed.

Lemma submseteq_NoDup {A} (l k : list A) : l ⊆+ k → NoDup k → NoDup l.
Proof. intros (r & Hk)%submseteq_Permutation. rewrite Hk. by intros [? _]%NoDup_app. Qed.
Lemma unsent_due s l : hooks_ok s →
  due_deliveries (db_now (svc_env (gb_svc s))) (svc_db (gb_svc s)) = Ok l → unsent l s.
Proof.
  intros HI Hl. unfold due_deliveries in Hl.
  destruct (findAll (svc_db (gb_svc s)).1) as [endpoints|e]; [|done]. cbn in Hl.
  destruct (findAll (svc_db (gb_svc s)).2) as [found|e] eqn:Hf; [|done]. cbn in Hl. injection Hl as <-.
  apply findAll_ok in Hf. set (p := λ w : DbDeliveryRow, _ : Prop).
  assert (take 50 (merge_sort due_before (filter p found)) ⊆+ filter p found) as Hsub.
  { etrans; [apply submseteq_take|]. by rewrite merge_sort_Permutation. }
  assert (∀ k w, (k, w) ∈ map_to_list (deliveries s) → delivery_key w = k ∧ deliveries s !! delivery_key w = Some w) as Hrow.
  { intros k w Hw%elem_of_map_to_list. by rewrite (hooks_key _ HI _ _ Hw). }
  split.
  - apply (submseteq_NoDup _ (delivery_key <$> found)); [apply fmap_submseteq; etrans; [exact Hsub|apply sublist_submseteq, sublist_filter]|]. rewrite Hf, <-list_fmap_compose.
    rewrite (list_fmap_ext _ fst); [apply NoDup_fst_map_to_list|]. intros i [k w] Hi. apply Hrow. by eapply list_elem_of_lookup_2.
  - apply Forall_forall. intros w Hw. assert (w ∈ filter p found) as [Hp Hin]%list_elem_of_filter.
    { by eapply elem_of_submseteq. }
    split; [|by apply andb_true_iff in Hp as [[? _]%andb_true_iff _]].
    rewrite Hf in Hin. apply list_elem_of_fmap in Hin as ([k w'] & -> & Hin). by eapply Hrow.
Qed.

Lemma outside_process : outside_call (processQueue maxAttempts).
Proof.
  unfold processQueue. apply guarded_bind; [apply _|apply _|auto with sf..|]. apply guarded_acquire. intros s HI _.
  unfold final, outcome. cbn [fst snd]. destruct (gb_processing s) eqn:Hp.
  { split_and!; [done..|]. intros s' _ _. done. }
  destruct (same_ok s (set_processing true s) HI eq_refl) as [HI1 HR1].
  split_and!; [exact HI1|exact HR1|done|]. intros s' HIs' Hps' K. cbv beta iota.
  apply guarded_finally; [apply _|apply _|auto with sf..|].
  eapply (guarded_post _ _ _ _ _ _ _ (λ b _ _, b = true)).
  2:{ intros b r s1 _ _ ->. apply guarded_release. intros s2 HI2 _ _.
      destruct (same_ok s2 (set_processing false s2) HI2 eq_refl) as [HI3 HR3].
      split_and!; [exact HI3|exact HR3|done|]. intros s3 _ _. done. }
  apply guarded_bind; [apply _|apply _|auto with sf..|]. apply guarded_inside.
  intros s1 HI4 Hf _. unfold final, outcome, sql_query, at_svc, on_db.
  pose proof (unsent_due s1) as Hdue. destruct s1 as [[d h] ? ? ? ? ? ?]. cbn [gb_svc svc_db svc_env fst snd] in *.
  split_and!; [exact HI4|reflexivity|done|]. intros s2 _ K2. destruct (due_deliveries _ d) as [l|e]; [|done].
  eapply guarded_pre; [eapply (guarded_for hooks_ok gb_processing hooks_go_on hooks_kept kept_goes_on kept_processing true unsent); auto with sf|].
  - intros l' s3 s4. apply unsent_kept.
  - intros w l'. apply guarded_at; [apply _|apply _|auto with sf..|]. intros s3 HI3 _ Hun.
    pose proof Hun as [_ [[Hw _] _]%Forall_cons]. destruct (hooks_row _ HI3 _ _ Hw) as [Hm _].
    eapply guarded_post; [eapply guarded_pre; [apply (guarded_dispatch w l'); lia|]|].
    + intros s4 _ _ K4. by eapply unsent_kept.
    + intros b [u|e] s4 _ _ [-> ?]; done.
  - intros s3 _ _ K3. apply (unsent_kept l s2); [|exact K3]. refine (unsent_kept l _ s2 _ K2). by apply Hdue.
Qed.

Lemma outside_start : outside_call (start JSON_parse env pollIntervalMs maxAttempts).
Proof.
  unfold start. behave_outside; [by apply outside_silent| | |apply outside_process].
  - unfold seedFromEnvironment. behave_outside. apply outside_register.
  - by apply outside_silent.
Qed.
Lemma outside_hook_call c : hook_call JSON_parse env pollIntervalMs maxAttempts c → outside_call c.
Proof.
  intros []; unfold deactivateEndpoint, listEndpoints, getDeliveryHistory, getDeliveryStats.
  - apply outside_start.
  - by apply outside_silent.
  - behave_outside. apply outside_register.
  - behave_outside.
  - behave_outside. apply outside_broadcast.
  - apply outside_process.
  - behave_outside.
  - behave_outside.
  - behave_outside.
Qed.

(** C7. In every interleaving of any calls with the worker, the timers and the broadcasts, from
    empty tables: there is one delivery per endpoint, event and proposal; one that is
    pending or to be retried has attempts left, and none has more than its maximum; only a
    response of 2xx makes it delivered. From any moment to a later one a delivery keeps its
    target, body and signature, its attempts only grow, and once settled it never changes. *)
Theorem deliveries_settle_once (s0 s1 s2 : state) ps1 ps2 :
  deliveries s0 = ∅ → gb_processing s0 = false →
  rtc (step (hook_call JSON_parse env pollIntervalMs maxAttempts) silent) ([], s0) (ps1, s1) →
  rtc (step (hook_call JSON_parse env pollIntervalMs maxAttempts) silent) (ps1, s1) (ps2, s2) →
  ∀ k w, deliveries s1 !! k = Some w →
    delivery_key w = k ∧ delivery_ok w ∧ ∃ w', deliveries s2 !! k = Some w' ∧ goes_on w w'.
Proof.
  intros He Hp H1 H2 k w Hw.
  assert (∀ s s', hooks_ok s → silent s s' → hooks_ok s' ∧ hooks_kept s s') as Henv by apply silent_ok.
  destruct (exclusive hooks_ok gb_processing hooks_go_on hooks_kept kept_goes_on kept_processing
    _ _ outside_hook_call Henv None ([], s0) (ps1, s1)) as (h1 & HG1 & _); [|done|].
  { split_and!; [split; intros *; simpl; by rewrite He|done|done|done]. }
  destruct (exclusive hooks_ok gb_processing hooks_go_on hooks_kept kept_goes_on kept_processing
    _ _ outside_hook_call Henv h1 (ps1, s1) (ps2, s2) HG1 H2) as (_ & _ & HR).
  pose proof (proj1 HG1) as HI. split_and!; [by eapply hooks_key|by eapply hooks_row|by apply HR].
Qed.
End invariant.

(** ** Signatures, events and delays *)
Section pure.
Context {H : Type} `{!HookWorld H}.

(** A signature is accepted with or without its prefix, and no other text is. *)
Theorem verify_spec (body signature secret : string) : secret ≠ "" →
  verifyGovernanceWebhookSignature body (Some signature) secret = true ↔
    signature = signGovernanceWebhookPayload body secret ∨
    signature = hmac_sha256 secret body ∧ signature ≠ "" ∧
      String.prefix GOVERNANCE_WEBHOOK_SIGNATURE_PREFIX signature = false.
Proof.
  intros Hsecret. unfold verifyGovernanceWebhookSignature, signGovernanceWebhookPayload.
  assert (truthy_str secret = true) as -> by by destruct secret. rewrite orb_false_r. simpl truthy_opt.
  assert (∀ a b : string, (if negb (String.length a =? String.length b)%nat then false else bool_decide (a = b)) = bool_decide (a = b)) as E.
  { intros a b. case_bool_decide as Hab; [subst; by rewrite Nat.eqb_refl|by destruct (_ =? _)%nat]. }
  cbn [default from_option]. rewrite E. destruct signature as [|c signature']; simpl truthy_str; cbv iota.
  { split; [done|]. intros [?|(_ & ? & _)]; done. }
  set (sig := String c signature'). assert (sig ≠ "") as Hne by done.
  assert (truthy_str sig = true) as -> by done. clearbody sig. cbn [negb]. unfold id. rewrite bool_decide_eq_true. destruct (String.prefix _ sig) eqn:Hpre.
  - split; [by left|]. by intros [?|(_ & _ & ?)].
  - split; [intros [=]; by right|]. intros [E'|[-> _]]; [|done]. subst sig. cbn in Hpre. by destruct (hmac_sha256 secret body).
Qed.


Theorem retry_delay_bounds (n m : Z) : 1 <= n →
  1000 <= getRetryDelayMs n <= 60000 ∧ (n <= 6 → getRetryDelayMs n = 1000 * 2 ^ (n - 1)) ∧
  (n <= m → getRetryDelayMs n <= getRetryDelayMs m).
Proof.
  intros Hn. unfold getRetryDelayMs, GOVERNANCE_WEBHOOK_INITIAL_RETRY_MS, GOVERNANCE_WEBHOOK_MAX_RETRY_MS.
  assert (2 ^ 0 <= 2 ^ (n - 1)) by (apply Z.pow_le_mono_r; lia). rewrite Z.max_r by lia. split_and!; [lia|lia| |].
  - intros Hn6. assert (2 ^ (n - 1) <= 2 ^ 5) by (apply Z.pow_le_mono_r; lia). lia.
  - intros Hm. rewrite Z.max_r by lia. assert (2 ^ (n - 1) <= 2 ^ (m - 1)) by (apply Z.pow_le_mono_r; lia). lia.
Qed.
End pure.

(** ** Starting, and registering again *)
Section defects.
Context {H : Type} `{!HookWorld H}.
Context (JSON_parse : string → exc jsval) (env : HookEnvironment) (pollIntervalMs maxAttempts : Z).
Notation endpoint_table := (gmap string DbEndpointRow).
Notation delivery_table := (gmap (string * string * string) DbDeliveryRow).
Notation state := (broadcaster (endpoint_table * delivery_table) H).
Notation start_call := (start (DE := endpoint_table) (DD := delivery_table) JSON_parse env pollIntervalMs maxAttempts).
Implicit Types (s : state) (w : DbDeliveryRow).
Definition endpoints s : endpoint_table := (svc_db (gb_svc s)).1.

(** A start whose tables cannot be created leaves the service running without a timer, and
    no later start does anything. *)
Theorem failed_start_is_final s e h :
  gb_running s = false → gb_tablesReady s = false → create_tables (svc_env (gb_svc s)) = (Throw e, h) →
  ∃ s', run start_call s = (Throw e, s') ∧ gb_running s' = true ∧ gb_timer s' = gb_timer s ∧
    gb_timers s' = gb_timers s ∧ run start_call s' = (Ok tt, s').
Proof.
  destruct s as [[d h0] t ts b p r n]. simpl. intros -> -> Hc.
  exists (mkBroadcaster (mkSvc d h) t ts true p false n). split_and!; [|done..].
  simpl. unfold outcome, final, on_env. simpl. rewrite Hc. reflexivity.
Qed.

Lemma run_registered_again s input e id h :
  endpoints s !! rg_url input = Some e → gb_tablesReady s = true → random_uuid (svc_env (gb_svc s)) = (Ok id, h) →
  truthy_str (default "" (trim <$> rg_secret input)) = true →
  let e1 := registered_again (rg_name input) (default "" (trim <$> rg_secret input))
    (JArr (JStr <$> normalizeGovernanceWebhookEvents (rg_events input))) (default true (rg_active input)) (db_now h) e in
  run (registerEndpoint JSON_parse input) s =
    (mapEndpoint JSON_parse e1, with_svc s (mkSvc (<[rg_url input := e1]> (endpoints s), (svc_db (gb_svc s)).2) h)).
Proof.
  destruct s as [[[es ds] h0] t ts b p r n]. intros He Ht Hid Hsec e1. cbn in He, Ht, Hid. subst r.
  unfold registerEndpoint. rewrite run_pbind. unfold bind at 1, ensureTables. rewrite run_await. cbn [gb_tablesReady].
  rewrite run_pbind. unfold bind at 1, outside, at_svc. rewrite run_await. unfold on_env. cbn [gb_svc svc_env]. rewrite Hid.
  rewrite Hsec. rewrite run_pbind. unfold bind at 1. cbn [run pret lift_exc].
  rewrite run_pbind. unfold bind at 1, sql, at_svc. rewrite run_await.
  unfold on_db, insert_endpoint. cbn [with_svc gb_svc svc_db svc_env fst snd we_url].
  rewrite bool_decide_false by (cbn; by rewrite He). cbn [andb]. unfold on_fst. cbn [fst snd upsert gmap_table].
  unfold mem_upsert. rewrite He. reflexivity.
Qed.

Lemma run_failure s id code : final (run (updateEndpointHealth id code false)) s =
  with_svc s (mkSvc ((λ e, if endpoint_of id (svc_db (gb_svc s)) e then endpoint_failed code (db_now (svc_env (gb_svc s))) e else e)
    <$> endpoints s, (svc_db (gb_svc s)).2) (svc_env (gb_svc s))).
Proof.
  destruct s as [[[es ds] h0] t ts b p r n]. unfold updateEndpointHealth, final. rewrite run_pcatch. unfold forget, pmap.
  unfold try_catch. rewrite run_pbind. unfold bind, sql, at_svc. rewrite run_await. reflexivity.
Qed.
Lemma endpoint_of_delivery (id : string) (d : endpoint_table * delivery_table) (e : DbEndpointRow) k w :
  d.2 !! k = Some w → wd_id w = id → wd_endpoint_id w = we_id e → endpoint_of id d e = true.
Proof.
  intros Hw Hid He. unfold endpoint_of. apply existsb_exists. exists w. split.
  - apply list_elem_of_In, list_elem_of_fmap. exists (k, w). split; [done|by apply elem_of_map_to_list].
  - unfold delivery_is, endpoint_has_id. by rewrite !bool_decide_true by done.
Qed.
Lemma map_registered (e : DbEndpointRow) events : we_events e = JArr (JStr <$> events) →
  ∃ endpoint, mapEndpoint JSON_parse e = Ok endpoint ∧ gw_id endpoint = we_id e ∧ gw_active endpoint = we_active e.
Proof.
  intros He. unfold mapEndpoint, parseStoredEvents. rewrite He. assert (text_values (JStr <$> events) = Ok events) as ->.
  { unfold text_values. clear. induction events as [|x l IH]; [done|]. cbn. unfold text_values in IH. by rewrite IH. }
  by eexists.
Qed.

(** An endpoint that was disabled after ten failures, or is one failure away from it, and is
    registered again and active, is disabled by the next failed attempt. *)
Theorem registered_again_is_disabled s input e k w id h :
  endpoints s !! rg_url input = Some e → 9 <= we_failure_count e →
  (svc_db (gb_svc s)).2 !! k = Some w → wd_endpoint_id w = we_id e →
  gb_tablesReady s = true → random_uuid (svc_env (gb_svc s)) = (Ok id, h) →
  truthy_str (default "" (trim <$> rg_secret input)) = true → rg_active input ≠ Some false →
  ∃ endpoint s1, run (registerEndpoint JSON_parse input) s = (Ok endpoint, s1) ∧
    gw_id endpoint = we_id e ∧ gw_active endpoint = true ∧
    ∀ code, ∃ e', endpoints (final (run (updateEndpointHealth (wd_id w) code false)) s1) !! rg_url input = Some e' ∧
      we_active e' = false.
Proof.
  intros He Hn Hw Hwe Ht Hid Hsec Hact.
  pose proof (run_registered_again s input e id h He Ht Hid Hsec) as Hrun. cbv zeta in Hrun.
  set (e1 := registered_again _ _ _ _ _ _) in *.
  assert (default true (rg_active input) = true) as Ha by by destruct (rg_active input) as [[]|].
  destruct (map_registered e1 (normalizeGovernanceWebhookEvents (rg_events input)) eq_refl) as (endpoint & Emap & Eid & Eact).
  exists endpoint. eexists. split; [by rewrite Hrun, Emap|]. split; [by rewrite Eid|]. split; [by rewrite Eact|].
  intros code. rewrite run_failure. eexists. split.
  - cbn. rewrite lookup_fmap, lookup_insert_eq. reflexivity.
  - rewrite (endpoint_of_delivery (wd_id w) _ _ k w); [|exact Hw|done|exact Hwe].
    cbn. rewrite (proj2 (Z.leb_le _ _)); [done|]. unfold GOVERNANCE_WEBHOOK_DISABLE_AFTER_FAILURES. lia.
Qed.
End defects.

(** ** Concrete runs *)

(** The state is the time and the next identifier; the one endpoint is down. *)
#[export] Instance hook_sample : HookWorld (Z * Z) := {|
  hw_now := fst;
  db_now := fst;
  create_tables := ret tt;
  random_uuid := λ '(t, n), (Ok ("id-" +:+ pretty n), (t, n + 1));
  random_secret := ret "00ff";
  hmac_sha256 secret body := secret +:+ ":" +:+ body;
  hook_post _ _ _ := ret (mkResponse 503 JNull);
|}.
Definition no_parse (text : string) : exc jsval := Throw (Error text).
Definition no_env : HookEnvironment := mkHookEnv None None None None.
Notation sample_state := (broadcaster (gmap string DbEndpointRow * gmap (string * string * string) DbDeliveryRow) (Z * Z)).
Definition hooks0 : sample_state := mkBroadcaster (mkSvc (∅, ∅) (1000, 0)) None no_timers false false false 0.
Definition sample_input : RegisterGovernanceWebhookInput :=
  mkRegister "https://dao.example" (Some "key") None (Some ["executed"]) None.
Definition sample_data : list (string * jsval) := [("proposalId", JStr "p1"); ("status", JStr "Executed")].
Definition first_calls : list (prog sample_state unit) :=
  [forget (registerEndpoint no_parse sample_input); forget (broadcast no_parse 5 "proposal.executed" sample_data);
   processQueue 5].
Definition hooks1 := run_in_turn first_calls hooks0.
Definition hooks2 := run_in_turn [stop : prog sample_state unit; processQueue 5] hooks1.2.

Example first_attempt :
  (λ w, (wd_status w, wd_attempts w, wd_next_attempt_at w)) <$>
    deliveries hooks1.2 !! ("id-0", "proposal.executed", "p1") = Some ("retrying", 1, 2000).
Proof. by vm_compute. Qed.

Lemma deliveries_settle_once_witness :
  ∃ w, deliveries hooks1.2 !! ("id-0", "proposal.executed", "p1") = Some w ∧ delivery_ok w ∧ wd_attempts w = 1 ∧
    ∃ w', deliveries hooks2.2 !! ("id-0", "proposal.executed", "p1") = Some w' ∧ goes_on w w'.
Proof.
  destruct (deliveries hooks1.2 !! ("id-0", "proposal.executed", "p1")) as [w|] eqn:E; [|by vm_compute in E].
  exists w. split; [done|].
  destruct (deliveries_settle_once no_parse no_env 2000 5 ltac:(lia) hooks0 hooks1.2 hooks2.2 hooks1.1 (hooks1.1 ++ hooks2.1)
    ltac:(done) ltac:(done)) with (k := ("id-0", "proposal.executed", "p1")) (w := w) as (_ & Hok & Hgo); [| |exact E|].
  - apply (run_in_turn_steps _ _ first_calls []). repeat constructor.
  - apply (run_in_turn_steps _ _ [stop; processQueue 5]). repeat constructor.
  - split; [exact Hok|]. split; [|exact Hgo]. by vm_compute in E; injection E as <-.
Defined.

(** The database refuses to create the tables. *)
Definition hook_refused : HookWorld (Z * Z) := {|
  hw_now := fst;
  db_now := fst;
  create_tables := throw (Error "permission denied");
  random_uuid := λ '(t, n), (Ok ("id-" +:+ pretty n), (t, n + 1));
  random_secret := ret "00ff";
  hmac_sha256 secret body := secret +:+ ":" +:+ body;
  hook_post _ _ _ := ret (mkResponse 503 JNull);
|}.
Lemma failed_start_is_final_witness :
  ∃ s', run (@start _ _ _ hook_refused _ _ no_parse no_env 2000 5) hooks0 = (Throw (Error "permission denied"), s') ∧
    gb_running s' = true ∧ gb_timer s' = None ∧ gb_timers s' = no_timers ∧
    run (@start _ _ _ hook_refused _ _ no_parse no_env 2000 5) s' = (Ok tt, s').
Proof.
  exact (@failed_start_is_final _ hook_refused no_parse no_env 2000 5 hooks0 (Error "permission denied") (1000, 0)
    eq_refl eq_refl eq_refl).
Defined.

(** An endpoint disabled by ten failures, with a delivery to it. *)
Definition dead_endpoint : DbEndpointRow :=
  mkEndpoint "e1" None "https://dao.example" "key" (JArr [JStr "proposal.executed"]) false 10 (Some 900) (Some 503)
    (Some 900) 0 900.
Definition waiting_delivery : DbDeliveryRow :=
  mkDelivery "d1" "e1" "https://dao.example" "proposal.executed" "p1" None "ev1" "t" "{}" "sha256=key:{}" "retrying" 1 5
    (Some 503) None None 950 None 0 900.
Definition hooks_dead : sample_state :=
  mkBroadcaster (mkSvc ({["https://dao.example" := dead_endpoint]}, {[delivery_key waiting_delivery := waiting_delivery]})
    (1000, 0)) None no_timers true false true 0.
Lemma registered_again_is_disabled_witness :
  ∃ endpoint s1, run (registerEndpoint no_parse sample_input) hooks_dead = (Ok endpoint, s1) ∧
    gw_id endpoint = "e1" ∧ gw_active endpoint = true ∧
    ∀ code, ∃ e', endpoints (final (run (updateEndpointHealth "d1" code false)) s1) !! "https://dao.example" = Some e' ∧
      we_active e' = false.
Proof.
  exact (registered_again_is_disabled no_parse hooks_dead sample_input dead_endpoint (delivery_key waiting_delivery)
    waiting_delivery "id-0" (1000, 1) eq_refl ltac:(done) eq_refl eq_refl eq_refl eq_refl eq_refl ltac:(done)).
Defined.
