(* ===== verification/Notifications.v ===== *)
(** * Alerts to the operators ([services/notificationService.ts])

    An alert is posted to Discord, with retries, and to Slack where Discord was not
    reached; one that was posted keeps alerts of the same key quiet for some minutes.
    The calls are programs of [Async] over the outside world of [Service]. Proved: an alert
    that went out silences every alert of its type, service and severity, whatever it is
    about; Slack is asked only where Discord is not reached; and two alerts of one key that
    overlap are both posted. *)

From Stdlib Require Import Ascii.
From stdpp Require Import pretty.
From S2P Require Import Prelude JsNumber JsString JsDate JsDecimal JsDigits JsMap JsValue Retry Service Async.

Local Open Scope Z_scope.

Inductive AlertSeverity := SeverityLow | SeverityMedium | SeverityHigh | SeverityCritical.
Definition severity_text (s : AlertSeverity) : string :=
  match s with
  | SeverityLow => "low"
  | SeverityMedium => "medium"
  | SeverityHigh => "high"
  | SeverityCritical => "critical"
  end.

(** An alert; its type is the text of [AlertType], its time is that of a [Date], [None]
    being invalid. *)
Record SystemAlert := mkAlert {
  sa_type : string;
  sa_severity : AlertSeverity;
  sa_title : string;
  sa_message : string;
  sa_details : option (list (string * jsval));
  sa_timestamp : option Z;
  sa_service : option string;
  sa_region : option string;
  sa_correlationId : option string;
}.

(** [rateLimitMinutes] is what [parseInt] gave, [None] being [NaN]. *)
Record NotificationConfig := mkNotificationConfig {
  nc_discordWebhookUrl : option string;
  nc_slackWebhookUrl : option string;
  nc_enabledPlatforms : list string;
  nc_rateLimitMinutes : option Z;
  nc_retryAttempts : nat;
  nc_timeoutMs : Z;
}.
(** [Partial<NotificationConfig>]: the properties that are present. *)
Record PartialConfig := mkPartialConfig {
  pc_discordWebhookUrl : option (option string);
  pc_slackWebhookUrl : option (option string);
  pc_enabledPlatforms : option (list string);
  pc_rateLimitMinutes : option (option Z);
  pc_retryAttempts : option nat;
  pc_timeoutMs : option Z;
}.
Definition merge_config (c : NotificationConfig) (p : PartialConfig) : NotificationConfig :=
  mkNotificationConfig (default (nc_discordWebhookUrl c) (pc_discordWebhookUrl p))
    (default (nc_slackWebhookUrl c) (pc_slackWebhookUrl p))
    (default (nc_enabledPlatforms c) (pc_enabledPlatforms p))
    (default (nc_rateLimitMinutes c) (pc_rateLimitMinutes p))
    (default (nc_retryAttempts c) (pc_retryAttempts p)) (default (nc_timeoutMs c) (pc_timeoutMs p)).

Definition OUTGOING_HTTP_TIMEOUT_MS : Z := 5000.
Definition comma : ascii := ","%char.
(** The constructor, over [process.env]. *)
Definition new_config (env : string → option string) (config : option PartialConfig) : NotificationConfig :=
  let platforms := match env "NOTIFICATION_PLATFORMS" with
                   | Some s => split_on comma s ""
                   | None => ["discord"; "slack"]
                   end in
  let base := mkNotificationConfig (env "DISCORD_WEBHOOK_URL") (env "SLACK_WEBHOOK_URL") platforms
    (parseInt10 (str_or (default "" (env "WEBHOOK_RATE_LIMIT_MINUTES")) "5")) 3 OUTGOING_HTTP_TIMEOUT_MS in
  match config with Some p => merge_config base p | None => base end.

Definition generateAlertKey (alert : SystemAlert) : string :=
  sa_type alert +:+ "_" +:+ str_or (default "" (sa_service alert)) "unknown" +:+ "_" +:+ severity_text (sa_severity alert).

(** ** Messages *)

Definition underscore : ascii := "_"%char.
Definition space : ascii := " "%char.
(** [s.replace(/_/g, " ")] *)
Definition spaced (s : string) : string :=
  text ((λ c, if decide (c = underscore) then space else c) <$> chars s).
Definition is_word_char (c : ascii) : bool :=
  let n := nat_of_ascii c in
  ((48 <=? n) && (n <=? 57) || (65 <=? n) && (n <=? 90) || (97 <=? n) && (n <=? 122) || (n =? 95))%nat.
(** [s.replace(/\b\w/g, (l) => l.toUpperCase())] *)
Fixpoint capitalize (after_word : bool) (l : list ascii) : list ascii :=
  match l with
  | [] => []
  | c :: l' => (if is_word_char c && negb after_word then upper_ascii c else c) :: capitalize (is_word_char c) l'
  end.
Definition label_of (key : string) : string := text (capitalize false (chars (spaced key))).
Example label_of_pair : label_of "pool_address_2nd" = "Pool Address 2nd".
Proof. vm_compute. reflexivity. Qed.

(** [JSON.stringify(v, null, 2)] *)
Definition line_feed : string := String (ascii_of_nat 10) "".
Definition indent (depth : nat) : string := text (replicate (2 * depth) space).
Definition indented (depth : nat) (opening closing : string) (items : list string) : string :=
  match items with
  | [] => opening +:+ closing
  | _ => opening +:+ line_feed +:+ indent (S depth) +:+
         join ("," +:+ line_feed +:+ indent (S depth)) items +:+ line_feed +:+ indent depth +:+ closing
  end.
Fixpoint json_indented (depth : nat) (v : jsval) : option string :=
  match v with
  | JArr l => Some (indented depth "[" "]" (map (λ x, default "null" (json_indented (S depth) x)) l))
  | JObj fields =>
      Some (indented depth "{" "}" (omap (λ '(k, x), (λ t, json_string k +:+ ": " +:+ t)
                                            <$> json_indented (S depth) x) fields))
  | _ => JSON_stringify v
  end.
Example indented_sample : json_indented 0 (JObj [("a", JArr [JNum num_one]); ("b", JArr [])]) =
  Some ("{" +:+ line_feed +:+ "  " +:+ json_string "a" +:+ ": [" +:+ line_feed +:+ "    1" +:+ line_feed +:+ "  ]," +:+
        line_feed +:+ "  " +:+ json_string "b" +:+ ": []" +:+ line_feed +:+ "}").
Proof. vm_compute. reflexivity. Qed.

Definition getSeverityEmoji (s : AlertSeverity) : string :=
  match s with SeverityLow => "🟢" | SeverityMedium => "🟡" | SeverityHigh => "🟠" | SeverityCritical => "🔴" end.
Definition COLORS (s : AlertSeverity) : Z :=
  match s with SeverityLow => 65280 | SeverityMedium => 16776960 | SeverityHigh => 16747520 | SeverityCritical => 16711680 end.

Definition detail_text (v : jsval) : string :=
  if is_object v then default "undefined" (json_indented 0 v) else String_val v.
Definition alert_field (name value : string) (inline : bool) : jsval :=
  JObj [("name", JStr name); ("value", JStr value); ("inline", JBool inline)].
(** The optional properties that are set. *)
Definition given_property {A} (o : option string) (f : string → A) : list A :=
  if truthy_opt o then [f (default "" o)] else [].
Definition details_of (alert : SystemAlert) : list (string * jsval) := default [] (sa_details alert).
Definition utc_text (t : option Z) : string := match t with Some t => toUTCString t | None => "Invalid Date" end.

Definition formatDiscordPayload (alert : SystemAlert) : exc jsval :=
  timestamp ← match sa_timestamp alert with
              | Some t => Ok (toISOString t)
              | None => Throw (Error "Invalid time value")
              end;
  let detail_fields := (λ '(key, value), alert_field (label_of key) (detail_text value) false) <$> details_of alert in
  let standardFields :=
    given_property (sa_service alert) (λ s, alert_field "Service" s true) ++
    given_property (sa_region alert) (λ s, alert_field "Region" s true) ++
    given_property (sa_correlationId alert) (λ s, alert_field "Correlation ID" s true) ++
    [alert_field "Severity" (toUpperCase (severity_text (sa_severity alert))) true;
     alert_field "Time" (utc_text (sa_timestamp alert)) true] in
  let embed := JObj
    [("title", JStr (sa_title alert)); ("description", JStr (sa_message alert));
     ("color", JNum (num_of_Z (COLORS (sa_severity alert)))); ("timestamp", JStr timestamp);
     ("footer", JObj [("text", JStr ("StellarFlow Backend • " +:+ toUpperCase (spaced (sa_type alert))))]);
     ("fields", JArr (detail_fields ++ standardFields))] in
  Ok (JObj [("username", JStr "StellarFlow Alerts");
            ("avatar_url", JStr "https://via.placeholder.com/40/FF6B6B/FFFFFF?text=SF");
            ("content", JStr (getSeverityEmoji (sa_severity alert) +:+ " **" +:+ sa_title alert +:+ "**"));
            ("embeds", JArr [embed])]).

Definition slack_text (s : string) : jsval := JObj [("type", JStr "mrkdwn"); ("text", JStr s)].
Definition slack_detail (key : string) (value : jsval) : jsval :=
  slack_text ("*" +:+ label_of key +:+ ":*" +:+ line_feed +:+
    if is_object value then "```" +:+ default "undefined" (json_indented 0 value) +:+ "```" else String_val value).
Definition formatSlackPayload (alert : SystemAlert) : jsval :=
  let header := JObj [("type", JStr "header");
    ("text", JObj [("type", JStr "plain_text");
                   ("text", JStr (getSeverityEmoji (sa_severity alert) +:+ " " +:+ sa_title alert));
                   ("emoji", JBool true)])] in
  let message := JObj [("type", JStr "section"); ("text", slack_text (sa_message alert))] in
  let details := match details_of alert with
    | [] => []
    | l => [JObj [("type", JStr "section"); ("fields", JArr ((λ '(key, value), slack_detail key value) <$> l))]]
    end in
  let context := JObj [("type", JStr "context"); ("elements", JArr (
    given_property (sa_service alert) (λ s, slack_text ("*Service:* " +:+ s)) ++
    given_property (sa_region alert) (λ s, slack_text ("*Region:* " +:+ s)) ++
    given_property (sa_correlationId alert) (λ s, slack_text ("*Correlation ID:* " +:+ s)) ++
    [slack_text ("*Severity:* " +:+ toUpperCase (severity_text (sa_severity alert)));
     slack_text ("*Time:* " +:+ utc_text (sa_timestamp alert))]))] in
  JObj [("username", JStr "StellarFlow Alerts");
        ("icon_url", JStr "https://via.placeholder.com/40/FF6B6B/FFFFFF?text=SF");
        ("blocks", JArr ([header; message] ++ details ++ [context]))].

(** ** The service *)

Record notifier (H : Type) := mkNotifier {
  nf_env : H;
  nf_config : NotificationConfig;
  nf_lastSentTimes : list (string * Z);
}.
Arguments mkNotifier {H} _ _ _.
Arguments nf_env {H} _.
Arguments nf_config {H} _.
Arguments nf_lastSentTimes {H} _.

Section service.
Context {H : Type} `{!Outside H jsval}.
Notation state := (notifier H).
Notation call := (prog state).

Definition with_env (s : state) (h : H) : state := mkNotifier h (nf_config s) (nf_lastSentTimes s).
Definition with_times (times : list (string * Z)) (s : state) : state := mkNotifier (nf_env s) (nf_config s) times.
Definition config_now : call NotificationConfig := await (λ s, (Ok (nf_config s), s)).
Definition time_now : call Z := await (λ s, (Ok (now (nf_env s)), s)).

Definition rateLimitMs (c : NotificationConfig) : option Z := (λ m, m * 60 * 1000) <$> nc_rateLimitMinutes c.
Definition isRateLimited (alertKey : string) (s : state) : bool :=
  let lastSent := default 0 (map_get (nf_lastSentTimes s) alertKey) in
  match rateLimitMs (nf_config s) with
  | Some limit => now (nf_env s) - lastSent <? limit
  | None => false
  end.
Definition updateLastSent (alertKey : string) : call unit := await (modify (λ s,
  with_times (map_set (nf_lastSentTimes s) alertKey (now (nf_env s))) s)).

(** A request, and [withRetry] around it with the settings of [Retry]. *)
Definition post_to (url : NotificationConfig → option string) (payload : jsval) : call unit := await (λ s,
  let '(r, h) := http_post (default "" (url (nf_config s))) payload (nf_env s) in (r, with_env s h)).
Definition retry_config (attempts : nat) : RetryConfig := mkRetryConfig attempts 1000 false DEFAULT_RETRYABLE_STATUS_CODES None.
Fixpoint retrying (request : call unit) (config : RetryConfig) (remaining attempt : nat) : call unit :=
  pcatch request (λ error,
    match remaining with
    | O => pthrow error
    | S remaining' =>
        if retryable config error then
          await (modify (λ s, with_env s
            (wait (calculateDelay (S attempt) (retryDelay config) (exponentialBackoff config)) (nf_env s)))) ;~
          retrying request config remaining' (S attempt)
        else pthrow error
    end).

(** [sendDiscordWebhook] and [sendSlackWebhook] *)
Definition send_webhook (platform : string) (url : NotificationConfig → option string) (payload : jsval) : call bool :=
  config <~ config_now ;;
  if negb (truthy_opt (url config)) || negb (includes (nc_enabledPlatforms config) platform) then pret false
  else
    pcatch (retrying (post_to url payload) (retry_config (nc_retryAttempts config)) (nc_retryAttempts config) 0 ;~ pret true)
      (λ _, pret false).
Definition sendDiscordWebhook : jsval → call bool := send_webhook "discord" nc_discordWebhookUrl.
Definition sendSlackWebhook : jsval → call bool := send_webhook "slack" nc_slackWebhookUrl.

Definition sendAlert (alert : SystemAlert) : call bool :=
  let alertKey := generateAlertKey alert in
  limited <~ await (λ s, (Ok (isRateLimited alertKey s), s)) ;;
  if limited : bool then pret false
  else
    config <~ config_now ;;
    success <~ (if includes (nc_enabledPlatforms config) "discord" then
                  payload <~ Done (formatDiscordPayload alert) ;; sendDiscordWebhook payload
                else pret false) ;;
    config <~ config_now ;;
    success <~ (if negb success && includes (nc_enabledPlatforms config) "slack" then
                  sendSlackWebhook (formatSlackPayload alert)
                else pret success) ;;
    if success : bool then updateLastSent alertKey ;~ pret true else pret false.

(** *** The alerts of the platform *)

Definition stamped_alert (alert : Z → SystemAlert) : call bool := t <~ time_now ;; sendAlert (alert t).

Definition sendKillSwitchTriggeredAlert (reason : string) (service region correlationId : option string) : call bool :=
  stamped_alert (λ t, mkAlert "kill_switch_triggered" SeverityCritical "🚨 KILL SWITCH TRIGGERED"
    ("Critical system protection has been activated due to: " +:+ reason)
    (Some [("trigger_reason", JStr reason); ("automatic_recovery_enabled", JBool true);
           ("manual_intervention_required", JBool (str_includes reason "security" || str_includes reason "data corruption"))])
    (Some t) service region correlationId).

(** The stack of an [Error], [None] for a text. *)
Definition sendSystemFailureAlert (errorMessage : string) (errorStack service region correlationId : option string) : call bool :=
  stamped_alert (λ t, mkAlert "system_failure" SeverityCritical "❌ SYSTEM FAILURE"
    ("A critical system failure has occurred: " +:+ errorMessage)
    (Some (("error_message", JStr errorMessage) :: given_property errorStack (λ stack,
      ("stack_trace", JStr (slice_to 1000 stack +:+ if (1000 <? String.length stack)%nat then "..." else "")))))
    (Some t) service region correlationId).

Definition sendFailoverEventAlert (fromRegion toRegion reason : string) (automatic : bool) (correlationId : option string) : call bool :=
  stamped_alert (λ t, mkAlert "failover_event" SeverityHigh "🔄 FAILOVER EVENT"
    ("System failover from " +:+ fromRegion +:+ " to " +:+ toRegion +:+ if automatic then " (automatic)" else " (manual)")
    (Some [("from_region", JStr fromRegion); ("to_region", JStr toRegion); ("reason", JStr reason);
           ("trigger_type", JStr (if automatic then "automatic" else "manual"))])
    (Some t) (Some "regional-health-service") None correlationId).

Definition sendInvariantBreachAlert (breachType reason : string) (contractId txHash service region correlationId : option string) :
    call bool :=
  stamped_alert (λ t, mkAlert "invariant_breach" SeverityCritical "🚨 INVARIANT VIOLATION — CIRCUIT BREAKER TRIGGERED"
    ("Automated circuit breaker triggered: " +:+ reason)
    (Some ([("breach_type", JStr breachType); ("reason", JStr reason)] ++
           given_property contractId (λ c, ("contract_id", JStr c)) ++
           given_property txHash (λ h, ("pause_tx_hash", JStr h)) ++
           [("action_taken", JStr "pause() submitted via emergency keeper key"); ("manual_intervention_required", JBool true)]))
    (Some t) (Some (default "circuit-breaker" service)) region correlationId).

Definition sendPriceAnomalyAlert (currency : string) (rate expectedRate deviationPercent : number) (source : string)
    (correlationId : option string) : call bool :=
  stamped_alert (λ t, mkAlert "price_anomaly" SeverityHigh "📊 PRICE ANOMALY DETECTED"
    ("Significant price deviation detected for " +:+ currency +:+ ": " +:+ toFixed deviationPercent 2 +:+ "% from expected")
    (Some [("currency", JStr currency); ("current_rate", JNum rate); ("expected_rate", JNum expectedRate);
           ("deviation_percent", JNum deviationPercent); ("source", JStr source)])
    (Some t) (Some "market-rate-service") None correlationId).

Definition sendGovernanceTimelockReadyAlert (proposalId contractId : string) (expiresAt : Z) (correlationId : option string) :
    call bool :=
  stamped_alert (λ t, mkAlert "governance_timelock_ready" SeverityHigh "⏰ GOVERNANCE TIMELOCK ACTION READY FOR EXECUTION"
    ("Queued governance proposal " +:+ proposalId +:+
     " has passed its timelock window and is ready to be executed on-chain.")
    (Some [("proposal_id", JStr proposalId); ("contract_id", JStr contractId);
           ("timelock_expired_at", JStr (toISOString expiresAt));
           ("action_required", JStr "Execute the governance proposal transaction")])
    (Some t) (Some "governance-timelock-service") None correlationId).

Definition sendSupplyInvariantDriftAlert (poolId : string) (physicalBalance internalBalance variancePercent : number)
    (blockHeight : option number) (correlationId : option string) : call bool :=
  stamped_alert (λ t, mkAlert "supply_invariant_drift" SeverityCritical "🚨 SUPPLY INVARIANT DRIFT DETECTED"
    ("Pool " +:+ poolId +:+ " physical reserve (" +:+ String_num physicalBalance +:+ ") drifts " +:+
     toFixed variancePercent 4 +:+ "% from internal balance (" +:+ String_num internalBalance +:+ ").")
    (Some [("pool_id", JStr poolId); ("physical_balance", JNum physicalBalance); ("internal_balance", JNum internalBalance);
           ("variance_percent", JNum variancePercent); ("block_height", JNum (default num_zero blockHeight));
           ("action_required", JStr "Trigger high-priority PagerDuty alert and investigate smart contract pool accounting")])
    (Some t) (Some "supply-invariant-worker") None correlationId).

(** *** Rate limits and configuration *)

Definition clearRateLimit (alertKey : option string) : call unit := await (modify (λ s,
  with_times (if truthy_opt alertKey then map_delete (nf_lastSentTimes s) (default "" alertKey) else []) s)).

Record RateLimitStatus := mkStatus { rl_lastSent : Z; rl_canSend : bool; rl_nextAvailableIn : option Z }.
Definition rate_limit_status (limit : option Z) (t lastSent : Z) : RateLimitStatus :=
  let timeSinceLastSent := t - lastSent in
  let canSend := match limit with Some limit => limit <=? timeSinceLastSent | None => false end in
  mkStatus lastSent canSend (if canSend then Some 0 else (λ limit, limit - timeSinceLastSent) <$> limit).
Definition getRateLimitStatus : call (list (string * RateLimitStatus)) := await (λ s,
  (Ok (map (λ '(key, lastSent), (key, rate_limit_status (rateLimitMs (nf_config s)) (now (nf_env s)) lastSent))
         (nf_lastSentTimes s)), s)).
Definition updateConfig (p : PartialConfig) : call unit := await (modify (λ s,
  mkNotifier (nf_env s) (merge_config (nf_config s) p) (nf_lastSentTimes s))).
Definition getConfig : call NotificationConfig := config_now.
End service.

(** ** When alerts go out *)

(** The clock does not go back while a request or a wait is under way. *)
Class SteadyClock (H : Type) `{!Outside H jsval} : Prop := {
  post_steady url payload (h : H) : now h <= now (final (http_post url payload) h);
  wait_steady ms (h : H) : 0 <= ms → now h <= now (wait ms h);
}.

Section quiet.
Context {H : Type} `{!Outside H jsval} `{!SteadyClock H}.
Notation state := (notifier H).
Implicit Types s : state.

Definition sent_before_now s : Prop := ∀ k t, map_get (nf_lastSentTimes s) k = Some t → t <= now (nf_env s).
(** Times of alerts only get later, under the same configuration. *)
Definition later s s' : Prop :=
  now (nf_env s) <= now (nf_env s') ∧ nf_config s' = nf_config s ∧
  ∀ k t, map_get (nf_lastSentTimes s) k = Some t → ∃ t', map_get (nf_lastSentTimes s') k = Some t' ∧ t <= t'.
#[export] Instance later_preorder : PreOrder later.
Proof.
  split.
  - intros s. split_and!; [done..|]. intros k t Ht. by exists t.
  - intros s s' s'' (N1&C1&T1) (N2&C2&T2). split_and!; [by etrans|congruence|]. intros k t Ht.
    destruct (T1 k t Ht) as (t' & Ht' & ?). destruct (T2 k t' Ht') as (t'' & ? & ?). exists t''. split; [done|lia].
Qed.
Notation fine := (well_behaved sent_before_now later).

Lemma fine_notify_read {A} (f : state → exc A) : fine (await (λ s, (f s, s))).
Proof. apply well_behaved_await. intros s Hs. by split. Qed.
(** A statement that changes the world only, and not its clock back. *)
Lemma fine_world {A} (c : M state A) :
  (∀ s, final c s = with_env s (nf_env (final c s)) ∧ now (nf_env s) <= now (nf_env (final c s))) → fine (await c).
Proof.
  intros Hc. apply well_behaved_await. intros s Hs. destruct (Hc s) as [-> Hn]. split.
  - intros k t Ht. etrans; [exact (Hs k t Ht)|exact Hn].
  - split_and!; [exact Hn|done|]. intros k t Ht. by exists t.
Qed.
Lemma fine_post url payload : fine (post_to url payload).
Proof using SteadyClock0.
  apply fine_world. intros s. unfold final. pose proof (post_steady (default "" (url (nf_config s))) payload (nf_env s)) as Hp.
  unfold final in Hp. by destruct (http_post _ payload (nf_env s)) as [r h].
Qed.
Lemma fine_retrying request config remaining attempt :
  (∀ n, 0 <= calculateDelay n (retryDelay config) (exponentialBackoff config)) →
  fine request → fine (retrying request config remaining attempt).
Proof using SteadyClock0.
  intros Hd Hr. revert attempt. induction remaining as [|remaining IH]; intros attempt; cbn [retrying];
    (apply well_behaved_catch; [apply _|exact Hr|intros e]); [apply well_behaved_throw|].
  destruct (retryable config e); [|apply well_behaved_throw]. apply well_behaved_bind; [apply _| |intros _; apply IH].
  apply fine_world. intros s. split; [done|apply wait_steady, Hd].
Qed.
Lemma fine_webhook platform url payload : fine (send_webhook platform url payload).
Proof using SteadyClock0.
  unfold send_webhook. apply well_behaved_bind; [apply _|apply fine_notify_read|]. intros config.
  destruct (_ || _); [apply well_behaved_ret|]. apply well_behaved_catch; [apply _| |intros e; apply well_behaved_ret].
  apply well_behaved_bind; [apply _|by apply fine_retrying, fine_post|intros ?; apply well_behaved_ret].
Qed.
Lemma fine_alert alert : fine (sendAlert alert).
Proof using SteadyClock0.
  unfold sendAlert. apply well_behaved_bind; [apply _|apply fine_notify_read|intros limited]. destruct limited; [apply well_behaved_ret|].
  apply well_behaved_bind; [apply _|apply fine_notify_read|intros config]. apply well_behaved_bind; [apply _| |].
  { destruct (includes _ _); [|apply well_behaved_ret]. apply well_behaved_sync. intros payload _. apply fine_webhook. }
  intros success. apply well_behaved_bind; [apply _|apply fine_notify_read|intros config']. apply well_behaved_bind; [apply _| |].
  { destruct (negb _ && _); [apply fine_webhook|apply well_behaved_ret]. }
  intros success'. destruct success'; [|apply well_behaved_ret].
  apply well_behaved_bind; [apply _| |intros ?; apply well_behaved_ret]. apply well_behaved_await. intros s Hs. unfold final.
  cbn [modify snd]. split.
  - intros k t. cbn [nf_lastSentTimes with_times nf_env]. rewrite map_get_set. case_decide; [by intros [= <-]|apply Hs].
  - split_and!; [done|done|]. intros k t Ht. cbn [nf_lastSentTimes with_times]. rewrite map_get_set. case_decide as Hk.
    + subst. eexists. split; [done|]. by eapply Hs.
    + by exists t.
Qed.

(** Any alert, stamped with any time. *)
Inductive alert_call : prog state bool → Prop :=
| call_alert alert : alert_call (sendAlert alert)
| call_stamped alert : alert_call (stamped_alert alert).
(** What else may happen: time passes. *)
Definition time_passes s s' : Prop := later s s' ∧ nf_lastSentTimes s' = nf_lastSentTimes s.

(** In every interleaving of alerts: once an alert of a key has gone out, no alert of the
    same type, service and severity does before the interval has passed, whatever it is
    about. *)
Theorem alert_silences_its_key s s' ps key t limit alert :
  sent_before_now s → map_get (nf_lastSentTimes s) key = Some t →
  nc_rateLimitMinutes (nf_config s) = Some limit →
  rtc (step alert_call time_passes) ([], s) (ps, s') →
  now (nf_env s') < t + limit * 60000 → generateAlertKey alert = key →
  run (sendAlert alert) s' = (Ok false, s').
Proof using SteadyClock0.
  intros HI Ht Hl Hr Hn <-.
  destruct (interleaved_fresh sent_before_now later alert_call time_passes) with (w := s) (s' := (ps, s')) as [_ (_&C&T)];
    [|intros s1 s2 HI1 [Hlat E]|done|done|].
  - intros p [alert'|alert']; [apply fine_alert|].
    unfold stamped_alert. apply well_behaved_bind; [apply _|apply fine_notify_read|intros t']. apply fine_alert.
  - split; [|done]. intros k t' Ht'. rewrite E in Ht'. specialize (HI1 k t' Ht'). destruct Hlat as [? _]. lia.
  - simpl in C, T. destruct (T _ _ Ht) as (t' & Ht' & ?). unfold sendAlert. rewrite run_pbind. unfold bind. rewrite run_await.
    unfold isRateLimited, rateLimitMs. rewrite Ht', C, Hl. cbn [default fmap option_fmap option_map].
    match goal with |- context [if ?b then _ else _] => destruct b eqn:E end; [done|]. apply Z.ltb_ge in E.
    cbn [default from_option id] in E. lia.
Qed.
End quiet.

Section posts.
Context {H : Type} `{!Outside H jsval}.
Notation state := (notifier H).

(** A Discord that answers at once. *)
Definition discord_answers : Prop := ∀ url payload (h : H), ∃ h', http_post url payload h = (Ok tt, h').
Definition reaches_discord (s : state) : Prop :=
  truthy_opt (nc_discordWebhookUrl (nf_config s)) = true ∧ includes (nc_enabledPlatforms (nf_config s)) "discord" = true.

(** What is left of an alert that is not held back. *)
Definition past_check (alert : SystemAlert) : prog state bool :=
  config <~ config_now ;;
  success <~ (if includes (nc_enabledPlatforms config) "discord" then
                payload <~ Done (formatDiscordPayload alert) ;; sendDiscordWebhook payload
              else pret false) ;;
  config <~ config_now ;;
  success <~ (if negb success && includes (nc_enabledPlatforms config) "slack" then
                sendSlackWebhook (formatSlackPayload alert)
              else pret success) ;;
  if success : bool then updateLastSent (generateAlertKey alert) ;~ pret true else pret false.

Lemma run_webhook (s : state) payload h' :
  reaches_discord s →
  http_post (default "" (nc_discordWebhookUrl (nf_config s))) payload (nf_env s) = (Ok tt, h') →
  run (sendDiscordWebhook payload) s = (Ok true, with_env s h').
Proof.
  intros [Hu Hp] Hpost. unfold sendDiscordWebhook, send_webhook. rewrite run_pbind. unfold bind, config_now. rewrite run_await.
  rewrite Hu, Hp. cbn [negb orb]. rewrite run_pcatch. unfold try_catch. rewrite run_pbind. unfold bind.
  assert (∀ c n a, run (retrying (post_to nc_discordWebhookUrl payload) c n a) s = (Ok tt, with_env s h')) as Hr.
  { intros c n a. destruct n; cbn [retrying]; rewrite run_pcatch; unfold try_catch, post_to; by rewrite run_await, Hpost. }
  by rewrite Hr.
Qed.
(** Discord's answer ends the alert: Slack is not asked, and the key is marked. *)
Lemma run_past_check (s : state) alert payload h' :
  reaches_discord s → formatDiscordPayload alert = Ok payload →
  http_post (default "" (nc_discordWebhookUrl (nf_config s))) payload (nf_env s) = (Ok tt, h') →
  run (past_check alert) s =
    (Ok true, mkNotifier h' (nf_config s) (map_set (nf_lastSentTimes s) (generateAlertKey alert) (now h'))).
Proof.
  intros Hd Hf Hpost. unfold past_check. rewrite run_pbind. unfold bind, config_now. rewrite run_await.
  rewrite (proj2 Hd), run_pbind, Hf. unfold bind. cbn [pbind]. rewrite (run_webhook s payload h' Hd Hpost).
  rewrite run_pbind. unfold bind. rewrite run_await. by cbn.
Qed.

(** Slack is not asked where Discord answers, be it enabled or not. *)
Theorem discord_answered_slack_silent (s : state) alert payload h' :
  isRateLimited (generateAlertKey alert) s = false → reaches_discord s → formatDiscordPayload alert = Ok payload →
  http_post (default "" (nc_discordWebhookUrl (nf_config s))) payload (nf_env s) = (Ok tt, h') →
  run (sendAlert alert) s =
    (Ok true, mkNotifier h' (nf_config s) (map_set (nf_lastSentTimes s) (generateAlertKey alert) (now h'))).
Proof.
  intros Hl Hd Hf Hpost. change (sendAlert alert) with (limited <~ await (λ s : state, (Ok (isRateLimited (generateAlertKey alert) s), s)) ;;
    if limited : bool then pret false else past_check alert).
  rewrite run_pbind. unfold bind. rewrite run_await, Hl. by apply (run_past_check s alert payload h').
Qed.

(** Two alerts of one key that overlap are both posted: each is checked before the other
    is marked. *)
Theorem overlapping_alerts_both_sent (s : state) alert1 alert2 :
  discord_answers → reaches_discord s → is_Some (sa_timestamp alert1) → is_Some (sa_timestamp alert2) →
  generateAlertKey alert1 = generateAlertKey alert2 → isRateLimited (generateAlertKey alert1) s = false →
  ∃ s' payload1 payload2 h1, rtc (step alert_call time_passes) ([], s) ([Done (Ok true); Done (Ok true)], s') ∧
    formatDiscordPayload alert1 = Ok payload1 ∧ formatDiscordPayload alert2 = Ok payload2 ∧
    let url := default "" (nc_discordWebhookUrl (nf_config s)) in
    http_post url payload1 (nf_env s) = (Ok tt, h1) ∧ http_post url payload2 h1 = (Ok tt, nf_env s').
Proof.
  intros Ha Hd [t1 T1] [t2 T2] Hk Hl. set (url := default "" (nc_discordWebhookUrl (nf_config s))).
  assert (∃ p1, formatDiscordPayload alert1 = Ok p1) as [p1 F1] by (unfold formatDiscordPayload; rewrite T1; by eexists).
  assert (∃ p2, formatDiscordPayload alert2 = Ok p2) as [p2 F2] by (unfold formatDiscordPayload; rewrite T2; by eexists).
  destruct (Ha url p1 (nf_env s)) as [h1 H1]. destruct (Ha url p2 h1) as [h2 H2].
  set (s1 := mkNotifier h1 (nf_config s) (map_set (nf_lastSentTimes s) (generateAlertKey alert1) (now h1))).
  set (s2 := mkNotifier h2 (nf_config s) (map_set (nf_lastSentTimes s1) (generateAlertKey alert2) (now h2))).
  exists s2, p1, p2, h1. split_and!; [|done..].
  assert (∀ alert ps, isRateLimited (generateAlertKey alert) s = false →
    rtc (step alert_call time_passes) (ps, s) (ps ++ [past_check alert], s)) as Hcheck.
  { intros alert ps Hn. eapply rtc_l; [apply (step_call _ _ ps s (sendAlert alert)), call_alert|]. apply rtc_once.
    pose proof (step_resume alert_call time_passes (ps ++ [sendAlert alert]) s (length ps) _ _ _
      (list_lookup_middle ps [] (sendAlert alert) _ eq_refl)) as Hs.
    rewrite (insert_app_r_alt ps), Nat.sub_diag in Hs by lia. cbn [list_insert] in Hs.
    unfold outcome, final in Hs. cbn [fst snd] in Hs. rewrite Hn in Hs. exact Hs. }
  etrans; [exact (Hcheck alert1 [] Hl)|]. etrans; [apply (Hcheck alert2 [past_check alert1]); by rewrite <-Hk|].
  etrans; [exact (finish_alone _ _ [] _ [past_check alert2] _ _ _ (run_past_check s alert1 p1 h1 Hd F1 H1))|].
  exact (finish_alone _ _ [Done (Ok true)] _ [] _ _ _ (run_past_check s1 alert2 p2 h2 Hd F2 H2)).
Qed.
End posts.

(** An alert that went out is marked with the time it did. *)
Lemma sent_is_marked {H} `{!Outside H jsval} (s s' : notifier H) alert :
  run (sendAlert alert) s = (Ok true, s') →
  map_get (nf_lastSentTimes s') (generateAlertKey alert) = Some (now (nf_env s')).
Proof.
  unfold sendAlert. rewrite run_pbind. unfold bind. rewrite run_await. destruct (isRateLimited _ s); [done|].
  rewrite run_pbind. unfold bind, config_now. rewrite run_await. rewrite run_pbind. unfold bind.
  destruct (run (if includes _ _ then _ else _) s) as [[b|e] s1]; [|done]. rewrite run_pbind. unfold bind. rewrite run_await.
  rewrite run_pbind. unfold bind. destruct (run (if _ && _ then _ else _) s1) as [[[|]|e] s2]; [|done..].
  intros Hr. assert (s' = with_times (map_set (nf_lastSentTimes s2) (generateAlertKey alert) (now (nf_env s2))) s2) as ->
    by (symmetry; exact (f_equal snd Hr)).
  cbn [nf_lastSentTimes with_times nf_env]. rewrite map_get_set. by rewrite decide_True.
Qed.

(** ** Concrete runs *)

(** A world whose state is the clock, and where every request is answered. *)
Definition discord_config : NotificationConfig :=
  new_config (λ name, if decide (name = "DISCORD_WEBHOOK_URL") then Some "https://discord.test/hook" else None) None.
Definition quiet_notifier : notifier Z := mkNotifier 1000000 discord_config [].
#[export] Instance quiet_steady : SteadyClock Z.
Proof. split; intros; unfold final; simpl; lia. Qed.
Definition pool_alert (pool : string) : SystemAlert :=
  mkAlert "amm_reserve_divergence" SeverityHigh "Divergence" ("Pool " +:+ pool) None (Some 1000000) (Some "detector") None None.

Example platforms_of_config : (nc_enabledPlatforms discord_config, nc_rateLimitMinutes discord_config) = (["discord"; "slack"], Some 5).
Proof. vm_compute. reflexivity. Qed.

Definition first_sent := run (sendAlert (pool_alert "P1")) quiet_notifier.
Lemma alert_silences_its_key_witness :
  first_sent.1 = Ok true ∧ run (sendAlert (pool_alert "P2")) first_sent.2 = (Ok false, first_sent.2).
Proof.
  split; [vm_compute; reflexivity|].
  apply (alert_silences_its_key first_sent.2 first_sent.2 [] "amm_reserve_divergence_detector_high" 1000000 5 (pool_alert "P2")).
  - intros k t Hk. change (map_get [("amm_reserve_divergence_detector_high", 1000000)] k = Some t) in Hk. simpl in Hk.
    case_decide; [by injection Hk as <-|done].
  - vm_compute. reflexivity.
  - vm_compute. reflexivity.
  - apply rtc_refl.
  - vm_compute. reflexivity.
  - vm_compute. reflexivity.
Defined.
Definition sample_payload : jsval := match formatDiscordPayload (pool_alert "P1") with Ok p => p | Throw _ => JUndef end.
Lemma discord_answered_slack_silent_witness :
  run (sendAlert (pool_alert "P1")) quiet_notifier =
    (Ok true, mkNotifier 1000000 discord_config
       (map_set [] (generateAlertKey (pool_alert "P1")) 1000000)).
Proof.
  refine (discord_answered_slack_silent quiet_notifier (pool_alert "P1") sample_payload 1000000 _ _ _ _).
  - vm_compute. reflexivity.
  - split; vm_compute; reflexivity.
  - vm_compute. reflexivity.
  - vm_compute. reflexivity.
Defined.
Lemma overlapping_alerts_both_sent_witness : ∃ s', rtc (step alert_call time_passes) ([], quiet_notifier)
  ([Done (Ok true); Done (Ok true)], s').
Proof.
  destruct (overlapping_alerts_both_sent quiet_notifier (pool_alert "P1") (pool_alert "P2")) as (s' & p1 & p2 & h1 & Hr & _).
  - intros url payload h. by eexists.
  - split; vm_compute; reflexivity.
  - by eexists.
  - by eexists.
  - vm_compute. reflexivity.
  - vm_compute. reflexivity.
  - by exists s'.
Defined.
