(* ===== verification/AmmPools.v ===== *)
(** * Tracked pools and their reserves ([services/ammReserveDivergenceDetector.ts], first half)

    Reserve amounts as decimal texts of a given scale, the rows of the reserve table as the
    options of the store name its columns, and the store: the pools that are tracked, and
    the update that writes the reserves of the contract over those of the database. A row
    stands for the columns the options name; columns that are cast to text are texts here,
    and reserve columns hold the text that was written. A reserve is read as it was
    written, and a pool that was written is listed with what was written. *)

From Stdlib Require Import Ascii.
From stdpp Require Import pretty.
From S2P Require Import Prelude JsNumber JsString JsDecimal JsDigits JsValue Prisma Service Async.

Local Open Scope Z_scope.

Inductive ReserveScalar :=
| ScalarString (s : string)
| ScalarNumber (n : number)
| ScalarBigint (z : Z)
| ScalarObject (toString : string).
Definition String_scalar (v : ReserveScalar) : string :=
  match v with
  | ScalarString s => s
  | ScalarNumber n => String_num n
  | ScalarBigint z => pretty z
  | ScalarObject s => s
  end.

Inductive SorobanStorageKeyFormat :=
| FormatAuto | FormatSymbol | FormatString | FormatHex | FormatBase64
| FormatU32 | FormatU64 | FormatI128 | FormatU128.

Record DatabasePoolReserveRecord := mkPool {
  po_poolAddress : string;
  po_contractId : string;
  po_reserveA : ReserveScalar;
  po_reserveB : ReserveScalar;
  po_reserveAStorageKey : string;
  po_reserveBStorageKey : string;
  po_reserveAStorageKeyFormat : option SorobanStorageKeyFormat;
  po_reserveBStorageKeyFormat : option SorobanStorageKeyFormat;
  po_reserveScale : option number;
  po_reserveAScale : option number;
  po_reserveBScale : option number;
  po_lastSyncedLedger : option number;
}.

Record ContractPoolReserveState := mkLive {
  cs_poolAddress : string;
  cs_contractId : string;
  cs_ledgerSeq : Z;
  cs_reserveA : Z;
  cs_reserveB : Z;
  cs_observedAt : string;
}.

Record RawPoolReserveRow := mkRaw {
  rr_poolAddress : jsval;
  rr_contractId : jsval;
  rr_reserveA : jsval;
  rr_reserveB : jsval;
  rr_reserveAStorageKey : jsval;
  rr_reserveBStorageKey : jsval;
  rr_reserveAStorageKeyFormat : jsval;
  rr_reserveBStorageKeyFormat : jsval;
  rr_reserveScale : jsval;
  rr_reserveAScale : jsval;
  rr_reserveBScale : jsval;
  rr_lastSyncedLedger : jsval;
}.

Definition DEFAULT_RESERVE_TABLE : string := "amm_pool_reserves".
Definition DEFAULT_LIMIT : Z := 500.

(** ** Amounts and scales *)

Definition requirePositiveInteger (value : number) (field : string) : exc number :=
  if negb (isInteger value) || num_leb value num_zero then
    Throw (Error (field +:+ " must be a positive integer"))
  else Ok value.

Definition normalizeScale (scale : number) (field : string) : exc number :=
  if negb (isInteger scale) || num_ltb scale num_zero || num_ltb (num_of_Z 30) scale then
    Throw (Error (field +:+ " must be an integer between 0 and 30"))
  else Ok scale.

(** [a ?? b ?? 0] *)
Definition given_scale (own shared : option number) : number :=
  match own with Some s => s | None => default num_zero shared end.
Definition reserveScaleFor (pool : DatabasePoolReserveRecord) (side : bool) : exc number :=
  normalizeScale
    (given_scale (if side then po_reserveAScale pool else po_reserveBScale pool) (po_reserveScale pool))
    ("reserve" +:+ (if side then "A" else "B") +:+ "Scale").
Notation side_A := true (only parsing).
Notation side_B := false (only parsing).

Definition pow10 (scale : number) : Z := 10 ^ trunc_Z scale.

Definition plus_char : ascii := "+"%char.
(** [/^[+-]?/] *)
Definition split_signs (l : list ascii) : bool * list ascii :=
  match l with
  | c :: l' => if decide (c = plus_char) then (false, l') else split_sign l
  | [] => (false, [])
  end.

(** [text.padEnd(n, "0")] *)
Definition padEnd (n : nat) (l : list ascii) : list ascii := l ++ replicate (n - length l) zero_char.

Definition reserveScalarToBigInt (value : ReserveScalar) (field : string) (scale : number) : exc Z :=
  normalizedScale ← normalizeScale scale (field +:+ " scale");
  let raw := trim (String_scalar value) in
  if decide (raw = "") then Throw (Error (field +:+ " is empty"))
  else
    let '(negative, body) := split_signs (chars raw) in
    let sign := if negative : bool then -1 else 1 in
    let malformed := Throw (Error (field +:+ " must be an integer reserve amount")) in
    parsed ← match span_digits body with
      | ([], _) => malformed
      | (whole, []) => Ok (sign * digits_value whole * pow10 normalizedScale)
      | (whole, c :: rest) =>
          if decide (c = dot_char) then
            match span_digits rest with
            | ([], _) | (_, _ :: _) => malformed
            | (fractionalPart, []) =>
                let n := Z.to_nat (trunc_Z normalizedScale) in
                if existsb (λ c, negb (bool_decide (c = zero_char))) (drop n fractionalPart) then
                  Throw (Error (field +:+ " has more precision than scale " +:+ String_num normalizedScale))
                else Ok (sign * digits_value (whole ++ padEnd n (take n fractionalPart)))
            end
          else malformed
      end;
    if parsed <? 0 then Throw (Error (field +:+ " must be non-negative")) else Ok parsed.

Definition formatReserveForDatabase (amount : Z) (scale : number) : exc string :=
  normalizedScale ← normalizeScale scale "reserve scale";
  if amount <? 0 then Throw (Error "reserve amount must be non-negative")
  else if trunc_Z normalizedScale =? 0 then Ok (pretty amount)
  else
    let divisor := pow10 normalizedScale in
    let fractional := padStart (Z.to_nat (trunc_Z normalizedScale)) (chars (pretty (amount mod divisor))) in
    Ok (pretty (amount / divisor) +:+ "." +:+ text fractional).

Example reserve_fraction :
  reserveScalarToBigInt (ScalarString " 12.3400 ") "reserveA" (num_of_Z 3) = Ok 12340.
Proof. vm_compute. reflexivity. Qed.
Example reserve_excess :
  is_ok (reserveScalarToBigInt (ScalarString "1.2345") "reserveA" (num_of_Z 3)) = false.
Proof. vm_compute. reflexivity. Qed.
Example reserve_signs :
  (reserveScalarToBigInt (ScalarString "+007") "reserveA" num_zero,
   is_ok (reserveScalarToBigInt (ScalarString "-0.5") "reserveA" (num_of_Z 1))) = (Ok 7, false).
Proof. vm_compute. reflexivity. Qed.
Example reserve_written : formatReserveForDatabase 12034 (num_of_Z 3) = Ok "12.034".
Proof. vm_compute. reflexivity. Qed.

(** ** Rows *)

Definition storage_key_formats : list (string * SorobanStorageKeyFormat) :=
  [("auto", FormatAuto); ("symbol", FormatSymbol); ("string", FormatString); ("hex", FormatHex);
   ("base64", FormatBase64); ("u32", FormatU32); ("u64", FormatU64); ("i128", FormatI128); ("u128", FormatU128)].
Definition is_absent (v : jsval) : bool :=
  match v with JUndef | JNull => true | JStr s => negb (truthy_str s) | _ => false end.
Definition normalizeStorageKeyFormat (value : jsval) : exc (option SorobanStorageKeyFormat) :=
  if is_absent value then Ok None
  else match list_find (λ kf, kf.1 = toLowerCase (String_val value)) storage_key_formats with
       | Some (_, (_, format)) => Ok (Some format)
       | None => Throw (Error ("Unsupported Soroban storage key format: " +:+ String_val value))
       end.

Definition normalizeOptionalNumber (value : jsval) : option number :=
  if is_absent value then None
  else let parsed := Number_val value in if isFinite parsed then Some parsed else None.

Definition rowToReserveRecord (row : RawPoolReserveRow) : exc DatabasePoolReserveRecord :=
  reserveAStorageKeyFormat ← normalizeStorageKeyFormat (rr_reserveAStorageKeyFormat row);
  reserveBStorageKeyFormat ← normalizeStorageKeyFormat (rr_reserveBStorageKeyFormat row);
  Ok (mkPool (String_val (rr_poolAddress row)) (String_val (rr_contractId row))
        (ScalarString (String_val (rr_reserveA row))) (ScalarString (String_val (rr_reserveB row)))
        (String_val (rr_reserveAStorageKey row)) (String_val (rr_reserveBStorageKey row))
        reserveAStorageKeyFormat reserveBStorageKeyFormat
        (normalizeOptionalNumber (rr_reserveScale row)) (normalizeOptionalNumber (rr_reserveAScale row))
        (normalizeOptionalNumber (rr_reserveBScale row)) (normalizeOptionalNumber (rr_lastSyncedLedger row))).

(** ** SQL texts *)

Definition is_word_start (c : ascii) : bool :=
  let n := nat_of_ascii c in
  ((65 <=? n) && (n <=? 90) || (97 <=? n) && (n <=? 122) || (n =? 95))%nat.
Definition is_word (s : string) : bool :=
  match chars s with
  | [] => false
  | c :: l => is_word_start c && forallb (λ c, is_word_start c || is_digit c) l
  end.
Definition quoteSqlIdentifierPath (identifier : string) : exc string :=
  let parts := split_on dot_char identifier "" in
  if existsb (λ part, negb (is_word part)) parts then Throw (Error ("Invalid SQL identifier: " +:+ identifier))
  else Ok (join "." ((λ part, dquote +:+ part +:+ dquote) <$> parts)).

Example quoted_path :
  quoteSqlIdentifierPath "public.amm" = Ok (dquote +:+ "public" +:+ dquote +:+ "." +:+ dquote +:+ "amm" +:+ dquote).
Proof. vm_compute. reflexivity. Qed.
Example quoted_injection : is_ok (quoteSqlIdentifierPath "amm; DROP TABLE x") = false.
Proof. vm_compute. reflexivity. Qed.

Fixpoint quote_chars (l : list ascii) : list ascii :=
  match l with
  | [] => []
  | c :: l' => if decide (c = "'"%char) then c :: c :: quote_chars l' else c :: quote_chars l'
  end.
Definition quoteSqlLiteral (value : string) : string := "'" +:+ text (quote_chars (chars value)) +:+ "'".

(** ** The store *)

(** A row of the reserve table, one field for each column the options can name. *)
Record PoolRow := mkPoolRow {
  pr_pool_address : string;
  pr_contract_id : string;
  pr_reserve_a : string;
  pr_reserve_b : string;
  pr_reserve_a_storage_key : string;
  pr_reserve_b_storage_key : string;
  pr_reserve_a_format : option string;
  pr_reserve_b_format : option string;
  pr_reserve_scale : option string;
  pr_reserve_a_scale : option string;
  pr_reserve_b_scale : option string;
  pr_last_synced_ledger : option Z;
  pr_updated_at : Z;
  pr_active : bool;
}.

(** The fields of [PrismaAmmReserveStore]; options and store have the same columns. *)
Record PrismaAmmReserveStoreOptions := mkOptions {
  so_tableName : option string;
  so_poolAddressColumn : option string;
  so_contractIdColumn : option string;
  so_reserveAColumn : option string;
  so_reserveBColumn : option string;
  so_reserveAStorageKeyColumn : option string;
  so_reserveBStorageKeyColumn : option string;
  so_reserveAStorageKeyFormatColumn : option string;
  so_reserveBStorageKeyFormatColumn : option string;
  so_reserveScaleColumn : option string;
  so_reserveAScaleColumn : option string;
  so_reserveBScaleColumn : option string;
  so_ledgerSeqColumn : option string;
  so_updatedAtColumn : option string;
  so_activeColumn : option string;
  so_limit : option Z;
}.
Definition no_options : PrismaAmmReserveStoreOptions :=
  mkOptions None None None None None None None None None None None None None None None None.

Record PrismaAmmReserveStore := mkStore {
  st_tableName : string;
  st_poolAddressColumn : string;
  st_contractIdColumn : string;
  st_reserveAColumn : string;
  st_reserveBColumn : string;
  st_reserveAStorageKeyColumn : string;
  st_reserveBStorageKeyColumn : string;
  st_reserveAStorageKeyFormatColumn : option string;
  st_reserveBStorageKeyFormatColumn : option string;
  st_reserveScaleColumn : option string;
  st_reserveAScaleColumn : option string;
  st_reserveBScaleColumn : option string;
  st_ledgerSeqColumn : string;
  st_updatedAtColumn : string;
  st_activeColumn : option string;
  st_limit : Z;
}.

Section constructor.
(** [process.env] *)
Context (env : string → option string).

Definition envInt (name : string) (fallback : Z) : exc Z :=
  if truthy_opt (env name) then
    n ← requirePositiveInteger (Number_str (default "" (env name))) name; Ok (trunc_Z n)
  else Ok fallback.

(** [option ?? process.env[name]], and with a default. *)
Definition option_or_env (option : option string) (name : string) : Datatypes.option string :=
  match option with Some s => Some s | None => env name end.
Definition option_or (option : option string) (name fallback : string) : string :=
  default fallback (option_or_env option name).

Definition new_store (o : PrismaAmmReserveStoreOptions) : exc PrismaAmmReserveStore :=
  limit ← match so_limit o with
          | Some n => Ok n
          | None => envInt "AMM_RESERVE_DIVERGENCE_POOL_LIMIT" DEFAULT_LIMIT
          end;
  Ok (mkStore
    (option_or (so_tableName o) "AMM_RESERVE_DIVERGENCE_TABLE" DEFAULT_RESERVE_TABLE)
    (option_or (so_poolAddressColumn o) "AMM_RESERVE_POOL_ADDRESS_COLUMN" "pool_address")
    (option_or (so_contractIdColumn o) "AMM_RESERVE_CONTRACT_ID_COLUMN" "contract_id")
    (option_or (so_reserveAColumn o) "AMM_RESERVE_A_COLUMN" "reserve_a")
    (option_or (so_reserveBColumn o) "AMM_RESERVE_B_COLUMN" "reserve_b")
    (option_or (so_reserveAStorageKeyColumn o) "AMM_RESERVE_A_STORAGE_KEY_COLUMN" "reserve_a_storage_key")
    (option_or (so_reserveBStorageKeyColumn o) "AMM_RESERVE_B_STORAGE_KEY_COLUMN" "reserve_b_storage_key")
    (option_or_env (so_reserveAStorageKeyFormatColumn o) "AMM_RESERVE_A_STORAGE_KEY_FORMAT_COLUMN")
    (option_or_env (so_reserveBStorageKeyFormatColumn o) "AMM_RESERVE_B_STORAGE_KEY_FORMAT_COLUMN")
    (option_or_env (so_reserveScaleColumn o) "AMM_RESERVE_SCALE_COLUMN")
    (option_or_env (so_reserveAScaleColumn o) "AMM_RESERVE_A_SCALE_COLUMN")
    (option_or_env (so_reserveBScaleColumn o) "AMM_RESERVE_B_SCALE_COLUMN")
    (option_or (so_ledgerSeqColumn o) "AMM_RESERVE_LEDGER_SEQ_COLUMN" "last_synced_ledger")
    (option_or (so_updatedAtColumn o) "AMM_RESERVE_UPDATED_AT_COLUMN" "updated_at")
    (option_or_env (so_activeColumn o) "AMM_RESERVE_ACTIVE_COLUMN")
    limit).
End constructor.

(** The optional columns that have a name. *)
Definition named (column : option string) : list string :=
  if truthy_opt column then option_list column else [].
(** [ORDER BY pool, updated_at DESC] *)
Definition row_before (a b : PoolRow) : Prop :=
  if decide (pr_pool_address a = pr_pool_address b) then pr_updated_at b ≤ pr_updated_at a
  else String.leb (pr_pool_address a) (pr_pool_address b) = true.
#[export] Instance row_before_dec : RelDecision row_before.
Proof. intros a b. unfold row_before. case_decide; apply _. Defined.
(** [SELECT DISTINCT ON (pool)]: of rows in order, the first of each pool. *)
Fixpoint distinct_on (last : option string) (l : list PoolRow) : list PoolRow :=
  match l with
  | [] => []
  | r :: l' =>
      if decide (last = Some (pr_pool_address r)) then distinct_on last l'
      else r :: distinct_on (Some (pr_pool_address r)) l'
  end.

(** The text of a nullable column that may not be selected. *)
Definition optional_text (column value : option string) : jsval :=
  if truthy_opt column then match value with Some s => JStr s | None => JNull end else JNull.
Definition format_text (column value : option string) : jsval :=
  if truthy_opt column then match value with Some s => JStr s | None => JNull end else JStr "auto".

Section store.
Context {D H : Type} `{!PrismaTable nat PoolRow D} (db_now : H → Z) (self : PrismaAmmReserveStore).
Notation call := (prog (svc D H)).

Definition tracked_identifiers : list string :=
  [st_tableName self; st_poolAddressColumn self; st_updatedAtColumn self] ++ named (st_activeColumn self) ++
  named (st_reserveScaleColumn self) ++ named (st_reserveAScaleColumn self) ++ named (st_reserveBScaleColumn self) ++
  named (st_reserveAStorageKeyFormatColumn self) ++ named (st_reserveBStorageKeyFormatColumn self) ++
  [st_contractIdColumn self; st_reserveAColumn self; st_reserveBColumn self;
   st_reserveAStorageKeyColumn self; st_reserveBStorageKeyColumn self; st_ledgerSeqColumn self].
Definition resync_identifiers : list string :=
  [st_tableName self; st_reserveAColumn self; st_reserveBColumn self; st_ledgerSeqColumn self;
   st_updatedAtColumn self; st_poolAddressColumn self].

Definition select_row (r : PoolRow) : RawPoolReserveRow :=
  mkRaw (JStr (pr_pool_address r)) (JStr (pr_contract_id r)) (JStr (pr_reserve_a r)) (JStr (pr_reserve_b r))
    (JStr (pr_reserve_a_storage_key r)) (JStr (pr_reserve_b_storage_key r))
    (format_text (st_reserveAStorageKeyFormatColumn self) (pr_reserve_a_format r))
    (format_text (st_reserveBStorageKeyFormatColumn self) (pr_reserve_b_format r))
    (optional_text (st_reserveScaleColumn self) (pr_reserve_scale r))
    (optional_text (st_reserveAScaleColumn self) (pr_reserve_a_scale r))
    (optional_text (st_reserveBScaleColumn self) (pr_reserve_b_scale r))
    (match pr_last_synced_ledger r with Some n => JStr (pretty n) | None => JNull end).

Definition is_tracked (r : PoolRow) : bool := negb (truthy_opt (st_activeColumn self)) || pr_active r.
Definition select_pools (d : D) : exc (list RawPoolReserveRow) :=
  if st_limit self <? 0 then Throw (Error "LIMIT must not be negative")
  else
    l ← findAll d;
    Ok (select_row <$> take (Z.to_nat (st_limit self))
          (distinct_on None (merge_sort row_before (filter (λ r, is_tracked r = true) l)))).

Definition listTrackedPools : call (list DatabasePoolReserveRecord) :=
  _ <~ Done (mapM quoteSqlIdentifierPath tracked_identifiers) ;;
  rows <~ await (query select_pools) ;;
  Done (mapM rowToReserveRecord rows).

Definition is_pool (poolAddress : string) (r : PoolRow) : bool := bool_decide (pr_pool_address r = poolAddress).
Definition resynced (reserveA reserveB : string) (ledgerSeq t : Z) (r : PoolRow) : PoolRow :=
  mkPoolRow (pr_pool_address r) (pr_contract_id r) reserveA reserveB
    (pr_reserve_a_storage_key r) (pr_reserve_b_storage_key r) (pr_reserve_a_format r) (pr_reserve_b_format r)
    (pr_reserve_scale r) (pr_reserve_a_scale r) (pr_reserve_b_scale r) (Some ledgerSeq) t (pr_active r).

Definition resyncPoolReserves (pool : DatabasePoolReserveRecord) (liveState : ContractPoolReserveState) : call unit :=
  _ <~ Done (mapM quoteSqlIdentifierPath resync_identifiers) ;;
  reserveA <~ Done (scale ← reserveScaleFor pool side_A; formatReserveForDatabase (cs_reserveA liveState) scale) ;;
  reserveB <~ Done (scale ← reserveScaleFor pool side_B; formatReserveForDatabase (cs_reserveB liveState) scale) ;;
  forget (await (λ w, on_db (updateMany (is_pool (po_poolAddress pool))
    (resynced reserveA reserveB (cs_ledgerSeq liveState) (db_now (svc_env w)))) w)).
End store.

(** ** A reserve is read as it was written *)

Lemma normalizeScale_Ok scale field s :
  normalizeScale scale field = Ok s → s = scale ∧ 0 ≤ trunc_Z scale ∧ ∀ field', normalizeScale scale field' = Ok scale.
Proof.
  unfold normalizeScale. destruct (_ || _ || _) eqn:E; [done|]. intros [= <-]. split_and!; [done| |done].
  apply orb_false_iff in E as [[_ E]%orb_false_iff _]. destruct scale as [|[] | |[] m e]; try done.
  simpl. destruct (0 <=? e) eqn:He; [apply Z.leb_le in He; simpl; lia|]. apply Z.leb_gt in He.
  simpl. apply Z.div_pos; [lia|]. apply Z.pow_pos_nonneg; lia.
Qed.

Lemma reserveScaleFor_Ok pool side s :
  reserveScaleFor pool side = Ok s → 0 ≤ trunc_Z s ∧ ∀ field, normalizeScale s field = Ok s.
Proof. intros E. unfold reserveScaleFor in E. pose proof E as (-> & ? & ?)%normalizeScale_Ok. done. Qed.

Lemma split_signs_digits c l : is_digit c = true → split_signs (c :: l) = (false, c :: l).
Proof.
  intros Hc. unfold split_signs, split_sign. rewrite !decide_False; [done| |].
  - by apply digit_not_sign.
  - intros ->. done.
Qed.

Lemma read_written whole fraction field scale :
  all_digits whole → whole ≠ [] → all_digits fraction → Z.of_nat (length fraction) = trunc_Z scale →
  (∀ field', normalizeScale scale field' = Ok scale) →
  reserveScalarToBigInt (ScalarString (text (decimal_body whole fraction))) field scale
  = Ok (digits_value (whole ++ fraction)).
Proof.
  intros Hw Hn Hf Hl Hs.
  assert (∀ l, all_digits l → 0 ≤ digits_value l) as Hpos.
  { intros l Hd. unfold digits_value. assert (∀ a, 0 ≤ a → 0 ≤ fold_left (λ acc c, acc * 10 + default 0 (digit_value c)) l a) as G;
      [|by apply G]. induction Hd as [|c l Hc _ IH]; intros a Ha; simpl; [done|]. apply IH.
    enough (0 ≤ default 0 (digit_value c)) by lia. unfold digit_value.
    destruct ((48 <=? Z.of_nat (nat_of_ascii c)) && _) eqn:E; simpl; [|done].
    apply andb_true_iff in E as [E%Z.leb_le _]. lia. }
  destruct (decimal_body_last whole fraction Hw Hn Hf) as (pre & c & Hc & Hd).
  destruct whole as [|w whole]; [done|]. pose proof (Forall_inv Hw) as Hw1. simpl in Hw1.
  assert (∃ rest, decimal_body (w :: whole) fraction = w :: rest) as [rest Hb].
  { unfold decimal_body. destruct fraction; by eexists. }
  assert (chars (trim (text (decimal_body (w :: whole) fraction))) = decimal_body (w :: whole) fraction) as Ht.
  { apply (trim_text _ w c rest); [done|by exists pre|by left|done]. }
  unfold reserveScalarToBigInt. rewrite Hs. cbn [mbind exc_bind String_scalar].
  rewrite decide_False.
  2:{ intros E. rewrite E, Hb in Ht. done. }
  rewrite Ht, Hb, split_signs_digits by done. rewrite <-Hb.
  assert (0 ≤ digits_value ((w :: whole) ++ fraction)) as Hv by by apply Hpos, all_digits_app.
  destruct fraction as [|f fraction].
  - unfold decimal_body. rewrite <-(app_nil_r (w :: whole)) at 1. rewrite span_digits_app by done. simpl mbind.
    unfold pow10. rewrite <-Hl. simpl Z.of_nat. rewrite app_nil_r in Hv |- *.
    rewrite Z.mul_1_r, Z.mul_1_l. by rewrite (proj2 (Z.ltb_ge _ _) Hv).
  - unfold decimal_body. rewrite span_digits_app by done. cbn [app].
    rewrite decide_True by done. rewrite <-(app_nil_r (f :: fraction)) at 1. rewrite span_digits_app by done.
    rewrite <-Hl, Nat2Z.id, drop_all, firstn_all. cbn [existsb mbind exc_bind].
    unfold padEnd. rewrite Nat.sub_diag. cbn [replicate]. rewrite app_nil_r, Z.mul_1_l.
    match goal with |- context [if ?b then _ else _] => destruct b eqn:E end; [|done].
    apply Z.ltb_lt in E. exfalso. revert Hv. apply Zlt_not_le. exact E.
Qed.

Lemma padStart_digits n l : all_digits l → (length l ≤ n)%nat →
  all_digits (padStart n l) ∧ length (padStart n l) = n ∧ digits_value (padStart n l) = digits_value l.
Proof.
  intros Hl Hn. unfold padStart. split_and!.
  - apply all_digits_app. split; [apply all_digits_zeros|done].
  - rewrite length_app, length_replicate. lia.
  - apply digits_zeros_l.
Qed.

(** A number below a power of ten has at most as many digits. *)
Lemma pretty_go_length k x s :
  (x < 10 ^ N.of_nat k)%N → (length (chars (pretty_N_go x s)) ≤ k + length (chars s))%nat.
Proof.
  revert x s. induction k as [|k IH]; intros x s Hx.
  - assert (x = 0%N) as -> by (change (10 ^ N.of_nat 0)%N with 1%N in Hx; lia). by rewrite pretty_N_go_0.
  - destruct (decide (0 < x)%N) as [Hp|Hp].
    + rewrite pretty_N_go_step by done. etrans; [apply IH|simpl; lia].
      apply N.Div0.div_lt_upper_bound. rewrite Nat2N.inj_succ, N.pow_succ_r' in Hx. lia.
    + assert (x = 0%N) as -> by lia. rewrite pretty_N_go_0. lia.
Qed.
Lemma pretty_length z n : 0 ≤ z < 10 ^ Z.of_nat n → (1 ≤ n)%nat → (length (chars (pretty z)) ≤ n)%nat.
Proof.
  intros [Hz Hlt] Hn. destruct z as [|p|p]; [done| |lia].
  change (pretty (Z.pos p)) with (pretty_N_go (Npos p) "").
  etrans; [apply (pretty_go_length n)|simpl; lia]. apply N2Z.inj_lt. rewrite N2Z.inj_pow. by rewrite nat_N_Z.
Qed.

Lemma format_reads scale n :
  0 ≤ n → (∃ s field, normalizeScale scale field = Ok s) →
  ∃ t, formatReserveForDatabase n scale = Ok t ∧
    ∀ field, reserveScalarToBigInt (ScalarString t) field scale = Ok n.
Proof.
  intros Hn (s & field0 & (-> & Hk & Hs)%normalizeScale_Ok). unfold formatReserveForDatabase.
  rewrite Hs. cbn [mbind exc_bind]. rewrite (proj2 (Z.ltb_ge _ _) Hn).
  destruct (Z.eqb_spec (trunc_Z scale) 0) as [E|E].
  - exists (pretty n). split; [done|]. intros field.
    destruct (pretty_nonneg n Hn) as (l & Hl & Hd & Hv & Hne).
    replace (pretty n) with (text (decimal_body l [])) by (by rewrite <-(text_chars (pretty n)), Hl).
    rewrite read_written; [by rewrite app_nil_r, Hv|done..|by constructor|by rewrite E|done].
  - set (k := Z.to_nat (trunc_Z scale)). assert (Z.of_nat k = trunc_Z scale) as Hk' by (unfold k; lia).
    unfold pow10. rewrite <-Hk'. assert (0 < 10 ^ Z.of_nat k) as Hp by (apply Z.pow_pos_nonneg; lia).
    pose proof (Z.mod_pos_bound n _ Hp) as Hm.
    destruct (pretty_nonneg (n / 10 ^ Z.of_nat k)) as (l & Hl & Hd & Hv & Hne); [by apply Z.div_pos|].
    destruct (pretty_nonneg (n mod 10 ^ Z.of_nat k)) as (l' & Hl' & Hd' & Hv' & _); [lia|].
    destruct (padStart_digits k l') as (Pd & Pl & Pv); [done| |].
    { rewrite <-Hl'. apply pretty_length; lia. }
    eexists. split; [done|]. intros field. rewrite Hl'.
    replace (pretty (n / 10 ^ Z.of_nat k) +:+ "." +:+ text (padStart k l'))
      with (text (decimal_body l (padStart k l'))).
    + rewrite read_written; [|done..|by rewrite Pl|done]. f_equal.
      rewrite digits_value_app, Hv, Pv, Hv', Pl. pose proof (Z.div_mod n (10 ^ Z.of_nat k)). lia.
    + rewrite <-(text_chars (pretty (n / 10 ^ Z.of_nat k))), Hl. unfold decimal_body.
      destruct (padStart k l') as [|c t] eqn:Ep; [simpl in Pl; lia|]. clear.
      induction l as [|d l IH]; [done|]. exact (f_equal (String d) IH).
Qed.

(** C37. Any amount can be written, and is read back as it was. *)
Theorem reserve_roundtrip scale n field :
  0 ≤ n → is_ok (normalizeScale scale field) = true →
  ∃ t, formatReserveForDatabase n scale = Ok t ∧ reserveScalarToBigInt (ScalarString t) field scale = Ok n.
Proof.
  intros Hn Hs. destruct (normalizeScale scale field) as [s|] eqn:E; [|done].
  destruct (format_reads scale n Hn) as (t & Ht & Hr); [by exists s, field|]. by exists t.
Qed.
Lemma reserve_roundtrip_witness :
  ∃ t, formatReserveForDatabase 120034 (num_of_Z 7) = Ok t ∧
    reserveScalarToBigInt (ScalarString t) "reserveA" (num_of_Z 7) = Ok 120034.
Proof. apply reserve_roundtrip; [lia|vm_compute; reflexivity]. Defined.

(** ** What the store lists and writes *)

Lemma distinct_on_in last l r : r ∈ distinct_on last l → r ∈ l.
Proof.
  revert last. induction l as [|x l IH]; intros last; simpl; [done|]. case_decide.
  - intros Hr. right. by eapply IH.
  - intros [->|Hr]%elem_of_cons; [by left|right; by eapply IH].
Qed.

Section store_facts.
Context {D H : Type} `{!PrismaTable nat PoolRow D} (db_now : H → Z) (self : PrismaAmmReserveStore).
Notation world := (svc D H).

(** Reserves and scales of a record that a row gives rise to. *)
Lemma row_record r p : rowToReserveRecord (select_row self r) = Ok p →
  po_poolAddress p = pr_pool_address r ∧
  po_reserveA p = ScalarString (pr_reserve_a r) ∧ po_reserveB p = ScalarString (pr_reserve_b r).
Proof.
  unfold rowToReserveRecord. intros (fa & _ & (fb & _ & [= <-])%bind_Ok)%bind_Ok. done.
Qed.

Lemma run_listTrackedPools (w : world) pools w' :
  run (listTrackedPools self) w = (Ok pools, w') →
  w' = w ∧ Forall (λ p, ∃ k r, rows (svc_db w) !! k = Some r ∧ rowToReserveRecord (select_row self r) = Ok p) pools.
Proof.
  unfold listTrackedPools. destruct (mapM quoteSqlIdentifierPath _); [|done]. cbn [pbind]. rewrite run_pbind.
  unfold bind. rewrite run_await. unfold query. destruct (select_pools self (svc_db w)) as [raw|e] eqn:E; [|done].
  intros [= E2 <-]. split; [done|]. apply mapM_Ok in E2. unfold select_pools in E.
  destruct (_ <? 0) in E; [done|]. apply bind_Ok in E as (l & Hl & [= <-]). apply findAll_ok in Hl.
  apply Forall_forall. intros p Hp. apply list_elem_of_lookup in Hp as [i Hp].
  destruct (Forall2_lookup_r _ _ _ _ _ E2 Hp) as (x & Hx & Hrow). rewrite list_lookup_fmap in Hx.
  apply fmap_Some in Hx as (r & Hr & ->). apply list_elem_of_lookup_2 in Hr.
  assert (r ∈ l) as Hin.
  { apply elem_of_take in Hr as (j & Hj & _). apply list_elem_of_lookup_2, distinct_on_in in Hj.
    rewrite merge_sort_Permutation in Hj. by apply list_elem_of_filter in Hj as [_ Hj]. }
  rewrite Hl in Hin. apply list_elem_of_fmap in Hin as ([k r'] & -> & Hin). exists k, r'. split; [|done].
  by apply elem_of_map_to_list in Hin.
Qed.

(** The reserves of the contract, in every row of the pool. *)
Definition written_back (pool : DatabasePoolReserveRecord) (live : ContractPoolReserveState) (d : D) : Prop :=
  ∃ sA sB a b t m, reserveScaleFor pool side_A = Ok sA ∧ reserveScaleFor pool side_B = Ok sB ∧
    formatReserveForDatabase (cs_reserveA live) sA = Ok a ∧ formatReserveForDatabase (cs_reserveB live) sB = Ok b ∧
    rows d = (λ r, if is_pool (po_poolAddress pool) r then resynced a b (cs_ledgerSeq live) t r else r) <$> m.

(** What a resync that succeeds has written. *)
Lemma run_resync pool live (w w' : world) :
  run (resyncPoolReserves db_now self pool live) w = (Ok tt, w') → written_back pool live (svc_db w').
Proof.
  unfold resyncPoolReserves. destruct (mapM _ _) as [ids|]; [|done]. cbn [pbind].
  destruct (reserveScaleFor pool side_A) as [sA|] eqn:EA; [|done]. cbn [mbind exc_bind].
  destruct (formatReserveForDatabase (cs_reserveA live) sA) as [a|] eqn:FA; [|done]. cbn [pbind].
  destruct (reserveScaleFor pool side_B) as [sB|] eqn:EB; [|done]. cbn [mbind exc_bind].
  destruct (formatReserveForDatabase (cs_reserveB live) sB) as [b|] eqn:FB; [|done]. cbn [pbind].
  unfold forget, pmap. rewrite run_pbind. unfold bind. rewrite run_await. unfold on_db.
  destruct (updateMany _ _ (svc_db w)) as [[n|] d] eqn:E; [|done]. intros Hw. injection Hw as <-.
  apply updateMany_ok in E as [E _]. exists sA, sB, a, b. do 2 eexists. split_and!; [done..|]. exact E.
Qed.

Lemma reads_format n s u field :
  formatReserveForDatabase n s = Ok u → (∀ f, normalizeScale s f = Ok s) →
  reserveScalarToBigInt (ScalarString u) field s = Ok n.
Proof.
  intros Hu Hs. assert (0 ≤ n) as Hn.
  { unfold formatReserveForDatabase in Hu. rewrite Hs in Hu. cbn [mbind exc_bind] in Hu.
    destruct (n <? 0) eqn:E; [done|]. by apply Z.ltb_ge in E. }
  destruct (format_reads s n Hn) as (u' & Hu' & Hr); [by exists s, field|]. rewrite Hu' in Hu. injection Hu as <-. apply Hr.
Qed.

(** A record listed then reads as the reserves of the contract, at the same scales. *)
Lemma written_back_read pool live (w w' : world) pools p fieldA fieldB :
  written_back pool live (svc_db w) →
  run (listTrackedPools self) w = (Ok pools, w') → p ∈ pools →
  po_poolAddress p = po_poolAddress pool →
  (∀ side, reserveScaleFor p side = reserveScaleFor pool side) →
  (scale ← reserveScaleFor p side_A; reserveScalarToBigInt (po_reserveA p) fieldA scale) = Ok (cs_reserveA live) ∧
  (scale ← reserveScaleFor p side_B; reserveScalarToBigInt (po_reserveB p) fieldB scale) = Ok (cs_reserveB live).
Proof.
  intros (sA & sB & a & b & t & m & EA & EB & FA & FB & Hrows) [-> Hl]%run_listTrackedPools Hp Ha Hs.
  rewrite Forall_forall in Hl. destruct (Hl p Hp) as (k & r & Hk & Hrow). rewrite Hrows, lookup_fmap in Hk.
  apply fmap_Some in Hk as (r0 & _ & ->). apply row_record in Hrow as (Hpa & HA & HB).
  assert (is_pool (po_poolAddress pool) r0 = true) as Hpool.
  { apply bool_decide_eq_true. rewrite <-Ha, Hpa. by destruct (is_pool _ r0). }
  rewrite Hpool in *. rewrite !Hs, EA, EB, HA, HB. cbn [mbind exc_bind pr_reserve_a pr_reserve_b resynced].
  apply reserveScaleFor_Ok in EA as [_ EA], EB as [_ EB]. split; by apply reads_format.
Qed.
End store_facts.
