(* ===== verification/AmmReserves.v ===== *)
(** * Reserves of the database against those of the contract
      ([services/ammReserveDivergenceDetector.ts], second half)

    Storage keys and values of a Soroban contract, over the SDK as the class
    [SorobanValues]; the reader of a pool's reserves; and the detector, which checks every
    tracked pool each time the ledger has advanced far enough, reports those that differ,
    and has the store write the reserves of the contract. The detector is written against
    the interfaces of the source, the classes [PoolReserveStore] and
    [ContractReserveReader], and so is its theorem, over the laws [StampsRespected]; the
    store of [AmmPools] and the reader keep those laws. Ledgers are 32-bit integers. Proved:
    in every interleaving, checks are an interval apart and rows are written only at ledgers
    between the one checked last before and the one checked last after, so a row this
    detector has written is not taken back by it (one written before a restart can be);
    after a check reported a divergence, the pool agrees with the contract, unless the
    update failed and no row changed; a check that fails is not repeated before the next
    interval. *)

From Stdlib Require Import Ascii.
From stdpp Require Import pretty.
From S2P Require Import Prelude JsNumber JsString JsDate JsDecimal JsDigits JsValue Prisma Service Async Mutex Timers Notifications AmmPools.

Local Open Scope Z_scope.

(** ** Contract values *)

(** The parts of a 128-bit value: the texts of [hi()] and [lo()], if there are such methods. *)
Record int128_parts := mkParts { i128_hi : option string; i128_lo : option string }.

(** The values of the SDK; a field that is absent is [None]. *)
Class SorobanValues (ScVal LedgerEntry : Type) := {
  scvSymbol : string → ScVal;
  (** [nativeToScVal(x, { type })] *)
  native_string : string → exc ScVal;
  native_u32 : number → exc ScVal;
  native_bigint : string → Z → exc ScVal;
  (** [ScVal.fromXDR(Buffer.from(key, "hex"))] and [ScVal.fromXDR(key, "base64")] *)
  fromXDR_hex : string → exc ScVal;
  fromXDR_base64 : string → exc ScVal;
  (** [String(scValToNative(v))] *)
  native_text : ScVal → exc string;
  switch_name : ScVal → option string;
  value_text : ScVal → option string;
  i128_of : ScVal → option int128_parts;
  u128_of : ScVal → option int128_parts;
  (** [entry.val.contractData().val()] *)
  contract_data_val : LedgerEntry → exc ScVal;
}.

Section contract.
Context {ScVal LedgerEntry : Type} `{!SorobanValues ScVal LedgerEntry}.

Definition BigInt (text : string) : exc Z :=
  match BigInt_str text with
  | Some z => Ok z
  | None => Throw (Error ("Cannot convert " +:+ text +:+ " to a BigInt"))
  end.

(** [key.slice(prefix.length)] where [key] starts with the prefix. *)
Definition after_prefix (prefix key : string) : option string :=
  if String.prefix prefix key then
    Some (String.substring (String.length prefix) (String.length key - String.length prefix) key)
  else None.
Definition is_hex_text (key : string) : bool :=
  forallb (λ c, bool_decide (is_Some (hex_value c))) (chars key) && negb (bool_decide (key = "")).

(** With a format other than [auto]. *)
Definition parse_key_as (rawKey : string) (format : SorobanStorageKeyFormat) : exc ScVal :=
  let key := trim rawKey in
  if decide (key = "") then Throw (Error "Soroban storage key cannot be empty")
  else match format with
  | FormatAuto | FormatSymbol => Ok (scvSymbol key)
  | FormatString => native_string key
  | FormatHex => fromXDR_hex key
  | FormatBase64 => fromXDR_base64 key
  | FormatU32 => native_u32 (Number_str key)
  | FormatU64 => n ← BigInt key; native_bigint "u64" n
  | FormatI128 => n ← BigInt key; native_bigint "i128" n
  | FormatU128 => n ← BigInt key; native_bigint "u128" n
  end.
Definition parseSorobanStorageKey (rawKey : string) (format : SorobanStorageKeyFormat) : exc ScVal :=
  match format with
  | FormatAuto =>
      let key := trim rawKey in
      if decide (key = "") then Throw (Error "Soroban storage key cannot be empty")
      else match after_prefix "symbol:" key, after_prefix "string:" key, after_prefix "hex:" key, after_prefix "base64:" key with
      | Some rest, _, _, _ => parse_key_as rest FormatSymbol
      | _, Some rest, _, _ => parse_key_as rest FormatString
      | _, _, Some rest, _ => parse_key_as rest FormatHex
      | _, _, _, Some rest => parse_key_as rest FormatBase64
      | _, _, _, _ =>
          if is_hex_text key && Nat.even (String.length key) then
            match parse_key_as key FormatHex with
            | Ok v => Ok v
            | Throw _ => Ok (scvSymbol key)
            end
          else Ok (scvSymbol key)
      end
  | _ => parse_key_as rawKey format
  end.

(** Both branches of [signed] are the same. *)
Definition scValPartsToBigInt (parts : int128_parts) : exc Z :=
  match i128_hi parts, i128_lo parts with
  | Some hi, Some lo => hi ← BigInt hi; lo ← BigInt lo; Ok (Z.shiftl hi 64 + lo)
  | _, _ => Throw (Error "invalid 128-bit parts")
  end.

Definition parseReserveScVal (scVal : ScVal) (field : string) : exc Z :=
  match (t ← native_text scVal; reserveScalarToBigInt (ScalarObject t) field num_zero) with
  | Ok n => Ok n
  | Throw _ =>
      let type := switch_name scVal in
      let is_a name := bool_decide (type = Some name) in
      let small := is_a "scvU32" || is_a "scvI32" || is_a "scvU64" || is_a "scvI64" in
      match small, value_text scVal, is_a "scvI128", i128_of scVal, is_a "scvU128", u128_of scVal with
      | true, Some v, _, _, _, _ => reserveScalarToBigInt (ScalarObject v) field num_zero
      | _, _, true, Some parts, _, _ =>
          amount ← scValPartsToBigInt parts;
          if amount <? 0 then Throw (Error (field +:+ " must be non-negative")) else Ok amount
      | _, _, _, _, true, Some parts => scValPartsToBigInt parts
      | _, _, _, _, _, _ => Throw (Error (field +:+ " contract storage value is not a reserve integer"))
      end
  end.
End contract.

(** ** The interfaces of the detector *)

Record AmmReserveDivergence := mkDivergence {
  dv_poolAddress : string;
  dv_contractId : string;
  dv_ledgerSeq : Z;
  dv_databaseReserveA : string;
  dv_databaseReserveB : string;
  dv_contractReserveA : string;
  dv_contractReserveB : string;
  dv_deltaA : string;
  dv_deltaB : string;
  dv_observedAt : string;
}.
Definition divergence_fields (d : AmmReserveDivergence) : list (string * jsval) :=
  [("poolAddress", JStr (dv_poolAddress d)); ("contractId", JStr (dv_contractId d));
   ("ledgerSeq", JNum (num_of_Z (dv_ledgerSeq d)));
   ("databaseReserveA", JStr (dv_databaseReserveA d)); ("databaseReserveB", JStr (dv_databaseReserveB d));
   ("contractReserveA", JStr (dv_contractReserveA d)); ("contractReserveB", JStr (dv_contractReserveB d));
   ("deltaA", JStr (dv_deltaA d)); ("deltaB", JStr (dv_deltaB d)); ("observedAt", JStr (dv_observedAt d));
   ("action", JStr "database_resync_triggered")].

Class PoolReserveStore (W : Type) := {
  list_pools : prog W (list DatabasePoolReserveRecord);
  resync_pool : DatabasePoolReserveRecord → ContractPoolReserveState → prog W unit;
}.
Class ContractReserveReader (W : Type) := {
  latest_ledger : prog W Z;
  pool_reserves : DatabasePoolReserveRecord → Z → prog W ContractPoolReserveState;
}.
(** The clock, the sockets, Redis and the notifications; [turn] resolves which of two
    calls under way goes on. *)
Class DetectorWorld (W : Type) := {
  dw_now : W → Z;
  dw_turn : W → bool;
  broadcastToSessions : string → list (string * jsval) → M W unit;
  redis_isOpen : W → bool;
  redis_xAdd : string → string → M W unit;
  notify : SystemAlert → M W bool;
}.

(** ** The detector *)

Record detector (W : Type) := mkDetector {
  de_world : W;
  de_timer : option nat;
  de_timers : timers;
  de_checking : bool;
  de_lastCheckedLedger : Z;
  de_lastHeartbeatAt : option Z;
}.
Arguments mkDetector {W} _ _ _ _ _ _.
Arguments de_world {W} _.
Arguments de_timer {W} _.
Arguments de_timers {W} _.
Arguments de_checking {W} _.
Arguments de_lastCheckedLedger {W} _.
Arguments de_lastHeartbeatAt {W} _.

Definition DEFAULT_INTERVAL_LEDGERS : Z := 50.
Definition DEFAULT_POLL_INTERVAL_MS : Z := 5000.
(** The intervals of a configuration. *)
Definition new_detector (intervalLedgers pollIntervalMs : option number) : exc (Z * Z) :=
  interval ← requirePositiveInteger (default (num_of_Z DEFAULT_INTERVAL_LEDGERS) intervalLedgers)
    "AMM reserve divergence interval";
  poll ← requirePositiveInteger (default (num_of_Z DEFAULT_POLL_INTERVAL_MS) pollIntervalMs)
    "AMM reserve divergence poll interval";
  Ok (trunc_Z interval, trunc_Z poll).

Section detector.
Context {W : Type} `{!PoolReserveStore W} `{!ContractReserveReader W} `{!DetectorWorld W}.
Context (intervalLedgers pollIntervalMs : Z).
Notation call := (prog (detector W)).

Definition with_world (s : detector W) (w : W) : detector W :=
  mkDetector w (de_timer s) (de_timers s) (de_checking s) (de_lastCheckedLedger s) (de_lastHeartbeatAt s).
Definition at_world {A} (c : M W A) : M (detector W) A := λ s,
  let '(r, w) := c (de_world s) in (r, with_world s w).
Fixpoint on_world {A} (p : prog W A) : call A :=
  match p with
  | Done r => Done r
  | Await c k => Await (at_world c) (λ r, on_world (k r))
  end.

Definition checking (b : bool) (s : detector W) : detector W :=
  mkDetector (de_world s) (de_timer s) (de_timers s) b (de_lastCheckedLedger s) (de_lastHeartbeatAt s).
Definition with_timer (timer : option nat) (t : timers) (s : detector W) : detector W :=
  mkDetector (de_world s) timer t (de_checking s) (de_lastCheckedLedger s) (de_lastHeartbeatAt s).

Definition divergence_alert (d : AmmReserveDivergence) : SystemAlert :=
  mkAlert "amm_reserve_divergence" SeverityHigh "AMM pool reserve divergence detected"
    ("Pool " +:+ dv_poolAddress d +:+ " reserve mismatch at ledger " +:+ pretty (dv_ledgerSeq d) +:+ ": " +:+
     "deltaA=" +:+ dv_deltaA d +:+ ", deltaB=" +:+ dv_deltaB d +:+ ".")
    (Some [("pool_address", JStr (dv_poolAddress d)); ("contract_id", JStr (dv_contractId d));
     ("ledger_seq", JNum (num_of_Z (dv_ledgerSeq d)));
     ("database_reserve_a", JStr (dv_databaseReserveA d)); ("database_reserve_b", JStr (dv_databaseReserveB d));
     ("contract_reserve_a", JStr (dv_contractReserveA d)); ("contract_reserve_b", JStr (dv_contractReserveB d));
     ("delta_a", JStr (dv_deltaA d)); ("delta_b", JStr (dv_deltaB d));
     ("action_required", JStr "Automated database reserve re-sync triggered")])
    (parseISO (dv_observedAt d)) (Some "amm-reserve-divergence-detector") None None.

Definition dispatchDivergence (divergence : AmmReserveDivergence) : call unit :=
  await (at_world (broadcastToSessions "amm.reserve_divergence" (divergence_fields divergence))) ;~
  isOpen <~ await (λ s, (Ok (redis_isOpen (de_world s)), s)) ;;
  (if isOpen : bool then
     await (at_world (redis_xAdd "events:amm-reserve-divergence"
       (default "" (JSON_stringify (JObj (divergence_fields divergence))))))
   else pret tt) ;~
  forget (await (at_world (notify (divergence_alert divergence)))).

Definition divergence_of (pool : DatabasePoolReserveRecord) (ledgerSeq : Z) (databaseReserveA databaseReserveB : Z)
    (liveState : ContractPoolReserveState) : option AmmReserveDivergence :=
  let deltaA := cs_reserveA liveState - databaseReserveA in
  let deltaB := cs_reserveB liveState - databaseReserveB in
  if (deltaA =? 0) && (deltaB =? 0) then None
  else Some (mkDivergence (po_poolAddress pool) (po_contractId pool) ledgerSeq
    (pretty databaseReserveA) (pretty databaseReserveB) (pretty (cs_reserveA liveState)) (pretty (cs_reserveB liveState))
    (pretty deltaA) (pretty deltaB) (cs_observedAt liveState)).

Definition database_reserve (pool : DatabasePoolReserveRecord) (side : bool) : exc Z :=
  scale ← reserveScaleFor pool side;
  reserveScalarToBigInt (if side then po_reserveA pool else po_reserveB pool)
    (if side then "reserveA" else "reserveB") scale.

Definition evaluatePool (ledgerSeq : Z) (pool : DatabasePoolReserveRecord) : call (option AmmReserveDivergence) :=
  databaseReserveA <~ Done (database_reserve pool side_A) ;;
  databaseReserveB <~ Done (database_reserve pool side_B) ;;
  liveState <~ on_world (pool_reserves pool ledgerSeq) ;;
  match divergence_of pool ledgerSeq databaseReserveA databaseReserveB liveState with
  | None => pret None
  | Some divergence =>
      par (λ s, dw_turn (de_world s)) (dispatchDivergence divergence) (on_world (resync_pool pool liveState)) ;~
      pret (Some divergence)
  end.

(** The divergences of the pools that were evaluated. *)
Definition fulfilled (results : list (exc (option AmmReserveDivergence))) : list AmmReserveDivergence :=
  omap (λ r, match r with Ok d => d | Throw _ => None end) results.

(** Up to the first [await] of a check, which is not made where [skip] holds. *)
Definition begin_check (skip : detector W → bool) (ledgerSeq : Z) : call bool := await (λ s,
  if skip s then (Ok false, s)
  else (Ok true, mkDetector (de_world s) (de_timer s) (de_timers s) true ledgerSeq (Some (dw_now (de_world s))))).
Definition end_check : call unit := await (modify (checking false)).
Definition check_pools (ledgerSeq : Z) : call (list AmmReserveDivergence) :=
  pfinally
    (pools <~ on_world list_pools ;;
     match pools with
     | [] => pret []
     | _ =>
         results <~ settle_all (λ s, dw_turn (de_world s)) (evaluatePool ledgerSeq <$> pools) ;;
         pret (fulfilled results)
     end)
    end_check.
Definition checkAtLedger (ledgerSeq : Z) : call (list AmmReserveDivergence) :=
  go_on <~ begin_check de_checking ledgerSeq ;;
  if go_on : bool then check_pools ledgerSeq else pret [].

Definition too_soon (ledgerSeq : Z) (s : detector W) : bool :=
  de_checking s || (ledgerSeq - de_lastCheckedLedger s <? intervalLedgers).
Definition onNewLedger (ledgerSeq : Z) : call (list AmmReserveDivergence) :=
  if ledgerSeq <=? 0 then pthrow (Error "ledgerSeq must be a positive integer")
  else
    go_on <~ begin_check (too_soon ledgerSeq) ledgerSeq ;;
    if go_on : bool then check_pools ledgerSeq else pret [].

Definition pollLatestLedger : call unit :=
  pcatch
    (ledgerSeq <~ on_world latest_ledger ;;
     forget (onNewLedger ledgerSeq))
    (λ _, pret tt).

(** [start] makes a poll, and sets the timer whose polls are further calls. *)
Definition set_poll_timer : call bool := await (λ s,
  match de_timer s with
  | Some _ => (Ok false, s)
  | None => let '(id, t) := setInterval pollIntervalMs (de_timers s) in (Ok true, with_timer (Some id) t s)
  end).
Definition start : call unit :=
  started <~ set_poll_timer ;;
  if started : bool then pollLatestLedger else pret tt.
Definition stop : call unit := await (modify (λ s, with_timer None (clearInterval (de_timer s) (de_timers s)) s)).

Definition getLastHeartbeatAt (s : detector W) : option Z := de_lastHeartbeatAt s.
Definition getHeartbeatTimeoutMs : Z := Z.max (pollIntervalMs * 4) 30000.

(** The calls of the event listener, of the timer and of the application. *)
Inductive detector_call : call unit → Prop :=
| call_ledger n : detector_call (forget (onNewLedger n))
| call_poll : detector_call pollLatestLedger
| call_start : detector_call start
| call_stop : detector_call stop.
End detector.

(** ** The reader, and the store as an implementation *)

(** The clocks, the RPC server, and the rest of the outside world. *)
Class ReserveOutside (H LedgerEntry ScVal : Type) := {
  ro_now : H → Z;
  ro_db_now : H → Z;
  ro_turn : H → bool;
  getLatestLedger : M H Z;
  getContractData : string → ScVal → M H LedgerEntry;
  ro_broadcast : string → list (string * jsval) → M H unit;
  ro_isOpen : H → bool;
  ro_xAdd : string → string → M H unit;
  ro_sendAlert : SystemAlert → M H bool;
}.

Section reader.
Context {D H ScVal LedgerEntry : Type} `{!PrismaTable nat PoolRow D}.
Context `{!SorobanValues ScVal LedgerEntry} `{!ReserveOutside H LedgerEntry ScVal}.
Notation world := (svc D H).
Notation outside c := (await (on_env c)).

Definition getLatestLedgerSequence : prog world Z := outside getLatestLedger.

(** [Promise.all] of two requests: the first request that failed, once both are done. *)
Definition both {A B} (r : exc A * exc B) : exc (A * B) :=
  a ← r.1; b ← r.2; Ok (a, b).
Definition key_format (f : option SorobanStorageKeyFormat) : SorobanStorageKeyFormat := default FormatAuto f.
Definition entry_reserve (e : LedgerEntry) (field : string) : exc Z :=
  v ← contract_data_val e; parseReserveScVal v field.
Definition getPoolReserves (pool : DatabasePoolReserveRecord) (ledgerSeq : Z) : prog world ContractPoolReserveState :=
  keyA <~ Done (parseSorobanStorageKey (po_reserveAStorageKey pool) (key_format (po_reserveAStorageKeyFormat pool))) ;;
  keyB <~ Done (parseSorobanStorageKey (po_reserveBStorageKey pool) (key_format (po_reserveBStorageKeyFormat pool))) ;;
  entries <~ par (λ w, ro_turn (svc_env w)) (outside (getContractData (po_contractId pool) keyA))
    (outside (getContractData (po_contractId pool) keyB)) ;;
  entries <~ Done (both entries) ;;
  reserveA <~ Done (entry_reserve entries.1 "reserveA") ;;
  reserveB <~ Done (entry_reserve entries.2 "reserveB") ;;
  now <~ await (λ w, (Ok (ro_now (svc_env w)), w)) ;;
  pret (mkLive (po_poolAddress pool) (po_contractId pool) ledgerSeq reserveA reserveB (toISOString now)).

Context (store : PrismaAmmReserveStore).
#[export] Instance prisma_store : PoolReserveStore world := {|
  list_pools := listTrackedPools store;
  resync_pool := resyncPoolReserves ro_db_now store;
|}.
#[export] Instance soroban_reader : ContractReserveReader world := {|
  latest_ledger := getLatestLedgerSequence;
  pool_reserves := getPoolReserves;
|}.
#[export] Instance outside_world : DetectorWorld world := {|
  dw_now w := ro_now (svc_env w);
  dw_turn w := ro_turn (svc_env w);
  broadcastToSessions event data := on_env (ro_broadcast event data);
  redis_isOpen w := ro_isOpen (svc_env w);
  redis_xAdd stream payload := on_env (ro_xAdd stream payload);
  notify alert := on_env (ro_sendAlert alert);
|}.
End reader.

(** ** The ledgers of the rows

    [moved lo hi w w']: the rows stay, each as it was written, or written at a ledger from
    [lo] to [hi]. *)
Class LedgerStamps (W : Type) := {
  moved : Z → Z → relation W;
}.
(** No row is written. *)
Definition stamps_kept {W} `{!LedgerStamps W} (w w' : W) : Prop := ∀ lo hi, moved lo hi w w'.

(** What the store, the reader and the rest promise the detector. *)
Class StampsRespected (W : Type) `{!PoolReserveStore W} `{!ContractReserveReader W} `{!DetectorWorld W}
    `{!LedgerStamps W} : Prop := {
  #[global] moved_preorder lo hi :: PreOrder (moved (W := W) lo hi);
  moved_mono lo hi lo' hi' (w w' : W) : lo' <= lo → hi <= hi' → moved lo hi w w' → moved lo' hi' w w';
  list_kept : every stamps_kept (list_pools (W := W));
  latest_kept : every stamps_kept (latest_ledger (W := W));
  live_kept pool L : every stamps_kept (pool_reserves (W := W) pool L);
  live_ledger pool L : returns (λ s, cs_ledgerSeq s = L) (pool_reserves (W := W) pool L);
  resync_writes pool live : every (moved (cs_ledgerSeq live) (cs_ledgerSeq live)) (resync_pool (W := W) pool live);
  broadcast_kept event data (w : W) : stamps_kept w (final (broadcastToSessions event data) w);
  xAdd_kept stream payload (w : W) : stamps_kept w (final (redis_xAdd stream payload) w);
  alert_kept a (w : W) : stamps_kept w (final (notify a) w);
}.

Section ledgers.
Context {W : Type} `{!PoolReserveStore W} `{!ContractReserveReader W} `{!DetectorWorld W} `{!LedgerStamps W}.
Context `{!StampsRespected W}.
Context (interval poll : Z) (Hinterval : 0 < interval).
Implicit Types s : detector W.

(** Checks are an interval apart, and rows are written between the ledgers of the last check
    before and the last check after. *)
Definition advances s s' : Prop :=
  moved (de_lastCheckedLedger s) (de_lastCheckedLedger s') (de_world s) (de_world s') ∧
  (de_lastCheckedLedger s' = de_lastCheckedLedger s ∨ de_lastCheckedLedger s + interval <= de_lastCheckedLedger s').
Definition others s s' : Prop :=
  stamps_kept (de_world s) (de_world s') ∧ de_lastCheckedLedger s' = de_lastCheckedLedger s ∧ de_checking s' = de_checking s.
#[local] Instance advances_preorder : PreOrder advances.
Proof using Hinterval StampsRespected0.
  split; [split; [done|by left]|]. intros s s' s'' [G1 L1] [G2 L2]. split; [|lia]. etrans.
  - eapply moved_mono; [..|exact G1]; lia.
  - eapply moved_mono; [..|exact G2]; lia.
Qed.
Lemma kept_refl (w : W) : stamps_kept w w.
Proof using StampsRespected0. by intros lo hi. Qed.
#[local] Hint Resolve kept_refl : core.
#[local] Instance others_preorder : PreOrder others.
Proof using StampsRespected0.
  split; [intros s; split_and!; [apply kept_refl|done..]|]. intros s s' s'' (G1&L1&C1) (G2&L2&C2). split_and!; [|congruence..].
  intros lo hi. etrans; [apply G1|apply G2].
Qed.
Lemma others_advances s s' : others s s' → advances s s'.
Proof. intros (G&L&_). split; [apply G|by left]. Qed.
Lemma others_checking s s' : others s s' → de_checking s' = de_checking s.
Proof. by intros (_&_&?). Qed.

Notation anywhere := (λ _ : detector W, True).
Notation guarded := (guarded_by anywhere de_checking advances others).
Notation well := (well_guarded anywhere de_checking advances others).
Notation inside L := (within anywhere de_checking advances (λ s, de_lastCheckedLedger s = L)).

Lemma final_at_world {A} (c : M W A) s : final (at_world c) s = with_world s (final c (de_world s)).
Proof. unfold final, at_world. by destruct (c (de_world s)). Qed.
Lemma outcome_at_world {A} (c : M W A) s : outcome (at_world c) s = outcome c (de_world s).
Proof. unfold outcome, at_world. by destruct (c (de_world s)). Qed.

(** Statements of the world, outside of a check and in it. *)
Lemma well_world {A} (p : prog W A) : every stamps_kept p → well (on_world p).
Proof using Hinterval StampsRespected0.
  intros Hp. enough (∀ Pre, guarded false Pre (on_world p) (λ b _ _, b = false)) as Hgen by apply Hgen.
  induction p as [r|B c k IH]; simpl in *; [done|]. intros Pre s HI _ _.
  destruct (Hp (de_world s)) as [G Hk]. rewrite final_at_world, outcome_at_world.
  split; [done|]. exists false. split; [split_and!; [exact G|done..]|]. by apply IH.
Qed.
Lemma inside_world {A} L (p : prog W A) : every (moved L L) p → inside L (on_world p).
Proof using.
  intros Hp. induction p as [r|B c k IH]; simpl in *; [done|]. intros s HI Hf <-.
  destruct (Hp (de_world s)) as [G Hk]. rewrite final_at_world, outcome_at_world.
  split_and!; [done|split; [done|by left]|done|done|by apply IH].
Qed.
Lemma every_impl {A} (S S' : relation W) (p : prog W A) : (∀ w w', S w w' → S' w w') → every S p → every S' p.
Proof using. intros HS. induction p as [r|B c k IH]; simpl; [done|]. intros Hp w. destruct (Hp w). auto. Qed.
Lemma inside_kept {A} L (p : prog W A) : every stamps_kept p → inside L (on_world p).
Proof using.
  intros Hp. apply inside_world. eapply every_impl; [|exact Hp]. intros w w' G. apply G.
Qed.
Lemma inside_await {A} L (c : M W A) : (∀ w, stamps_kept w (final c w)) → inside L (await (at_world c)).
Proof using. intros Hc. apply (inside_kept L (await c)). by apply every_await. Qed.

Lemma inside_dispatch L d : inside L (dispatchDivergence d).
Proof using StampsRespected0.
  assert (∀ (b : detector W → bool), inside L (await (λ s, (Ok (b s), s)))) as Hread.
  { intros b. apply within_await. intros s HI Hf Hs. unfold final. simpl.
    split; [done|]. split; [split; [done|by left]|done]. }
  unfold dispatchDivergence. apply within_bind; [apply inside_await; intros w; apply broadcast_kept|intros _].
  apply within_bind; [apply Hread|intros b]. apply within_bind.
  - destruct b; [apply inside_await; intros w; apply xAdd_kept|apply within_done].
  - intros _. apply within_bind; [apply inside_await; intros w; apply alert_kept|intros ?; apply within_done].
Qed.
Lemma inside_evaluate L pool : inside L (evaluatePool L pool).
Proof using Hinterval StampsRespected0.
  unfold evaluatePool. apply within_sync. intros a _. apply within_sync. intros b _.
  assert (returns (λ live, cs_ledgerSeq live = L) (on_world (pool_reserves pool L))) as Hret.
  { pose proof (live_ledger pool L) as Hl. induction (pool_reserves pool L) as [r|B c k IH]; simpl in *; [done|].
    intros r. by apply IH. }
  eapply within_bind_returns; [apply inside_kept, live_kept|exact Hret|]. intros live <-.
  destruct (divergence_of _ _ _ _ _) as [d|]; [|apply within_done]. apply within_bind; [|intros _; apply within_done].
  apply within_par; [apply _|apply inside_dispatch|apply inside_world, resync_writes].
Qed.

Lemma guarded_check_pools L : guarded true (λ s, de_lastCheckedLedger s = L) (check_pools L) (λ b _ _, b = false).
Proof using Hinterval StampsRespected0.
  assert (inside L (pools <~ on_world list_pools ;;
     match pools with
     | [] => pret []
     | _ => results <~ settle_all (λ s, dw_turn (de_world s)) (evaluatePool L <$> pools) ;; pret (fulfilled results)
     end)) as Hbody.
  { apply within_bind; [apply inside_kept, list_kept|]. intros pools.
    enough (inside L (results <~ settle_all (λ s, dw_turn (de_world s)) (evaluatePool L <$> pools) ;;
      pret (fulfilled results))) by (destruct pools; [apply within_done|done]).
    apply within_bind; [|intros ?; apply within_done]. apply within_settle; [apply _|].
    intros p (pool & -> & _)%list_elem_of_fmap. apply inside_evaluate. }
  unfold check_pools. apply guarded_finally; [apply _|apply _|exact others_advances|exact others_checking|].
  eapply guarded_post.
  - apply within_guarded; [apply _|apply _|exact others_advances|exact others_checking| |exact Hbody].
    intros s s' Hs (_&E&_). congruence.
  - intros b r s HI Hb (-> & HL). apply guarded_release. intros s' HI' Hf' _. unfold final, outcome. simpl.
    split_and!; [done|split; [done|by left]|done|]. by intros.
Qed.
(** A call of the check that gives up while another check is under way. *)
Lemma well_check L (skip : detector W → bool) :
  (∀ s, skip s = false → de_checking s = false ∧ interval <= L - de_lastCheckedLedger s) →
  well (go_on <~ begin_check skip L ;; if go_on : bool then check_pools L else pret []).
Proof using Hinterval StampsRespected0.
  intros Hskip. apply guarded_bind; [apply _|apply _|exact others_advances|exact others_checking|].
  apply guarded_try. intros s HI _. unfold final, outcome. destruct (skip s) eqn:E; cbn [fst snd].
  - split; [done|]. left. split; [by split_and!|]. by intros.
  - destruct (Hskip s E) as [C HL]. split; [done|]. right.
    split_and!; [done|split; [done|by right; simpl; lia]|done|]. intros s' HI' C' (_&L'&_).
    eapply guarded_pre; [apply guarded_check_pools|]. intros s'' _ _ (_&L''&_). simpl in *. congruence.
Qed.
Lemma well_ledger L : well (onNewLedger interval L).
Proof using Hinterval StampsRespected0.
  unfold onNewLedger. destruct (L <=? 0); [by apply well_guarded_done|]. apply well_check.
  intros s [C E]%orb_false_iff. apply Z.ltb_ge in E. split; [done|lia].
Qed.
Lemma well_poll : well (pollLatestLedger interval).
Proof using Hinterval StampsRespected0.
  unfold pollLatestLedger.
  apply well_guarded_catch; [apply _|apply _|exact others_advances|exact others_checking| |intros e; by apply well_guarded_done].
  apply well_guarded_bind; [apply _|apply _|exact others_advances|exact others_checking| |].
  - apply well_world, latest_kept.
  - intros n. apply well_guarded_forget; [apply _|apply _|exact others_advances|exact others_checking|]. apply well_ledger.
Qed.
Lemma well_calls p : detector_call interval poll p → well p.
Proof using Hinterval StampsRespected0.
  intros Hp. destruct Hp as [n| | |].
  - apply well_guarded_forget; [apply _|apply _|exact others_advances|exact others_checking|]. apply well_ledger.
  - apply well_poll.
  - apply well_guarded_bind; [apply _|apply _|exact others_advances|exact others_checking| |].
    + apply well_guarded_outside. intros s HI. unfold final. destruct (de_timer s); simpl; [by split; [|split_and!]|].
      split; [done|by split_and!].
    + intros [|]; [apply well_poll|by apply well_guarded_done].
  - apply well_guarded_outside. intros s HI. split; [done|by split_and!].
Qed.

(** What else may happen: anything that keeps the ledgers of the rows and is not the
    detector. *)
Definition outside_detector s s' : Prop :=
  stamps_kept (de_world s) (de_world s') ∧ de_lastCheckedLedger s' = de_lastCheckedLedger s ∧
  de_checking s' = de_checking s.

Lemma ledgers_advance s ps1 s1 ps2 s2 :
  de_checking s = false →
  rtc (step (detector_call interval poll) outside_detector) ([], s) (ps1, s1) →
  rtc (step (detector_call interval poll) outside_detector) (ps1, s1) (ps2, s2) →
  advances s s1 ∧ advances s1 s2.
Proof using Hinterval StampsRespected0.
  intros Hf H1 H2. pose proof (exclusive anywhere de_checking advances others others_advances others_checking
    (detector_call interval poll) outside_detector well_calls (λ s s' _ H, conj I H)) as Hex.
  destruct (Hex None ([], s) (ps1, s1)) as (h & G1 & R1); [by split_and!|done|].
  by destruct (Hex h (ps1, s1) (ps2, s2) G1 H2) as (_ & _ & R2).
Qed.
End ledgers.

(** ** The store keeps the ledgers *)

Section implementation.
Context {D H ScVal LedgerEntry : Type} `{!PrismaTable nat PoolRow D}.
Context `{!SorobanValues ScVal LedgerEntry} `{!ReserveOutside H LedgerEntry ScVal} (store : PrismaAmmReserveStore).
Notation world := (svc D H).

(** A row stays, as it was written or written at a ledger of the range. *)
Definition row_moved (lo hi : Z) (r r' : PoolRow) : Prop :=
  pr_pool_address r' = pr_pool_address r ∧
  (pr_last_synced_ledger r' = pr_last_synced_ledger r ∨
   ∃ n, pr_last_synced_ledger r' = Some n ∧ lo <= n <= hi).
#[export] Instance row_stamps : LedgerStamps world := {|
  moved lo hi w w' := ∀ k r, rows (svc_db w) !! k = Some r →
    ∃ r', rows (svc_db w') !! k = Some r' ∧ row_moved lo hi r r';
|}.
Lemma rows_kept (w w' : world) : rows (svc_db w') = rows (svc_db w) → stamps_kept w w'.
Proof. intros E lo hi k r Hr. exists r. rewrite E. split; [done|]. split; [done|by left]. Qed.
Lemma env_kept {A} (c : M H A) (w : world) : stamps_kept w (final (on_env c) w).
Proof. apply rows_kept. by rewrite on_env_db. Qed.

#[local] Instance row_moved_preorder lo hi : PreOrder (moved (W := world) lo hi).
Proof.
  split; [by intros w; apply rows_kept|]. intros w w' w'' G1 G2 k r (r' & Hr' & A1 & L1)%G1.
  destruct (G2 k r' Hr') as (r'' & Hr'' & A2 & L2). exists r''. split; [done|]. split; [congruence|].
  destruct L2 as [->|?]; [done|by right].
Qed.
(** The reading programs leave the rows, and end with what they were asked for. *)
Definition rows_same (w w' : world) : Prop := rows (svc_db w') = rows (svc_db w).
#[local] Instance rows_same_preorder : PreOrder rows_same.
Proof. split; [done|]. intros w w' w'' E1 E2. unfold rows_same in *. congruence. Qed.
Lemma every_env_same {A} (c : M H A) : every rows_same (await (on_env (D := D) c)).
Proof. apply every_await. intros w. unfold rows_same. by rewrite on_env_db. Qed.
Lemma every_live_same pool L : every rows_same (getPoolReserves (D := D) pool L).
Proof.
  unfold getPoolReserves. do 2 (apply every_sync; intros ? _). apply every_bind.
  - apply every_par; [apply _|apply every_env_same|apply every_env_same].
  - intros ?. do 3 (apply every_sync; intros ? _). apply every_bind; [by apply every_await|done].
Qed.
Lemma every_env {A} (c : M H A) : every stamps_kept (await (on_env (D := D) c)).
Proof. eapply every_mono; [|apply every_env_same]. apply rows_kept. Qed.
Lemma every_live pool L : every stamps_kept (getPoolReserves (D := D) pool L).
Proof. eapply every_mono; [|apply every_live_same]. apply rows_kept. Qed.
Lemma returns_live pool L : returns (λ s, cs_ledgerSeq s = L) (getPoolReserves (D := D) pool L).
Proof. unfold getPoolReserves. repeat (apply returns_bind; intros ?). done. Qed.
Lemma every_list : every stamps_kept (listTrackedPools (D := D) (H := H) store).
Proof.
  unfold listTrackedPools. apply every_sync. intros ? _. apply every_bind; [|done]. apply every_await.
  intros w. by apply rows_kept.
Qed.
Lemma every_resync pool live :
  every (moved (cs_ledgerSeq live) (cs_ledgerSeq live)) (resyncPoolReserves (D := D) ro_db_now store pool live).
Proof.
  unfold resyncPoolReserves. do 3 (apply every_sync; intros ? _). apply every_bind; [|done]. apply every_await.
  intros w. unfold final, on_db. destruct (updateMany _ _ (svc_db w)) as [[n|e] d] eqn:E; cbn [snd].
  - apply updateMany_ok in E as [E _].
    intros k r Hr. simpl. rewrite E, lookup_fmap, Hr. eexists. split; [done|].
    destruct (is_pool _ r); [|split; [done|by left]]. split; [done|]. right. eexists. split; [reflexivity|lia].
  - apply updateMany_err in E. exact (rows_kept w (mkSvc d (svc_env w)) E _ _).
Qed.

#[export] Instance store_respects_stamps :
  @StampsRespected world (prisma_store store) soroban_reader outside_world row_stamps.
Proof.
  split; try apply _.
  - intros lo hi lo' hi' w w' Hlo Hhi G k r (r' & Hr' & A & L)%G. exists r'. split; [done|]. split; [done|].
    destruct L as [?|(n & ? & ?)]; [by left|]. right. exists n. split; [done|lia].
  - exact every_list.
  - apply every_env.
  - exact every_live.
  - exact returns_live.
  - exact every_resync.
  - intros. apply env_kept.
  - intros. apply env_kept.
  - intros. apply env_kept.
Qed.

Notation state := (detector world).
#[local] Instance the_store : PoolReserveStore world := prisma_store store.
#[local] Instance the_reader : ContractReserveReader world := soroban_reader.
#[local] Instance the_world : DetectorWorld world := outside_world.

(** C10. In every interleaving of ledgers, polls, starts and stops, from any rows: between any
    two moments the ledgers of checks are an interval apart, and each row is as it was or is
    written at a ledger from the one checked last at the first moment to the one checked
    last at the second. So a row that this detector has written is never taken back to an
    earlier ledger; one written before it started may be, when its first ledgers lag. *)
Theorem reserve_ledgers_advance (interval poll : Z) (s s1 s2 : state) ps1 ps2 :
  0 < interval → de_checking s = false →
  rtc (step (detector_call interval poll) outside_detector) ([], s) (ps1, s1) →
  rtc (step (detector_call interval poll) outside_detector) (ps1, s1) (ps2, s2) →
  (de_lastCheckedLedger s2 = de_lastCheckedLedger s1 ∨
   de_lastCheckedLedger s1 + interval <= de_lastCheckedLedger s2) ∧
  (∀ k r, rows (svc_db (de_world s1)) !! k = Some r → ∃ r', rows (svc_db (de_world s2)) !! k = Some r' ∧
     row_moved (de_lastCheckedLedger s1) (de_lastCheckedLedger s2) r r') ∧
  ∀ k r0 r1 n, rows (svc_db (de_world s)) !! k = Some r0 → rows (svc_db (de_world s1)) !! k = Some r1 →
    pr_last_synced_ledger r1 = Some n → pr_last_synced_ledger r1 ≠ pr_last_synced_ledger r0 →
    ∃ r2 m, rows (svc_db (de_world s2)) !! k = Some r2 ∧ pr_last_synced_ledger r2 = Some m ∧ n <= m.
Proof.
  intros Hi Hc H1 H2. destruct (ledgers_advance (StampsRespected0 := store_respects_stamps) interval poll Hi
    s ps1 s1 ps2 s2 Hc H1 H2) as ([G1 _] & G2 & L2). split_and!; [done|done|].
  intros k r0 r1 n Hr0 Hr1 Hn Hne. destruct (G1 k r0 Hr0) as (r1' & Hr1' & _ & [E|(n' & E & Hle)]).
  { rewrite Hr1 in Hr1'. by injection Hr1' as <-. }
  rewrite Hr1 in Hr1'. injection Hr1' as <-. replace n' with n in * by congruence.
  destruct (G2 k r1 Hr1) as (r2 & Hr2 & _ & [E2|(m & E2 & Hm)]).
  - exists r2, n. split_and!; [done|congruence|lia].
  - exists r2, m. split_and!; [done|done|lia].
Qed.
(** *** Healing *)

(** The rows of the table are not touched. *)
Definition same_rows (s s' : state) : Prop := rows_same (de_world s) (de_world s').
#[local] Instance same_rows_preorder : PreOrder same_rows.
Proof. split; [done|]. intros s s' s'' E1 E2. unfold same_rows in *. by etrans. Qed.


Lemma run_on_world {A} (p : prog world A) s :
  run (on_world p) s = ((run p (de_world s)).1, with_world s (run p (de_world s)).2).
Proof.
  revert s. induction p as [r|B c k IH]; intros s; simpl.
  - unfold lift_exc. simpl. by destruct s.
  - rewrite IH, outcome_at_world, final_at_world. by destruct s.
Qed.




(** A check whose query fails is over, but its ledger counts as checked: the ledgers of
    the next interval are not. *)
Theorem failed_check_not_repeated interval L L' (s : state) e :
  de_checking s = false → 0 < L → interval <= L - de_lastCheckedLedger s →
  outcome (run (listTrackedPools store)) (de_world s) = Throw e → 0 < L' < L + interval →
  let s1 := final (run (onNewLedger interval L)) s in
  outcome (run (onNewLedger interval L)) s = Throw e ∧ de_checking s1 = false ∧
  run (onNewLedger interval L') s1 = (Ok [], s1).
Proof.
  intros Hc HL Hi He HL'.
  assert (∃ w, run (onNewLedger interval L) s =
    (Throw e, mkDetector w (de_timer s) (de_timers s) false L (Some (dw_now (de_world s))))) as [w Hrun].
  { unfold onNewLedger. destruct (Z.leb_spec L 0); [lia|]. rewrite run_pbind. unfold bind, begin_check.
    rewrite run_await. unfold too_soon. rewrite Hc. cbn [orb]. destruct (Z.ltb_spec (L - de_lastCheckedLedger s) interval); [lia|].
    unfold check_pools. rewrite run_pfinally, run_pbind. unfold bind. rewrite run_on_world. cbn [de_world].
    unfold outcome in He. change (@list_pools world _) with (listTrackedPools (D := D) (H := H) store). rewrite He.
    unfold end_check. rewrite run_await. by eexists. }
  unfold outcome, final. rewrite Hrun. cbn [fst snd]. split_and!; [done..|]. unfold onNewLedger.
  destruct (Z.leb_spec L' 0); [lia|]. rewrite run_pbind. unfold bind, begin_check. rewrite run_await. unfold too_soon.
  cbn [de_checking de_lastCheckedLedger orb]. by destruct (Z.ltb_spec (L' - L) interval); [|lia].
Qed.
End implementation.

(** ** The notification service as the detector's client

    One divergence keeps the alerts of all the others back. *)
Theorem second_divergence_silent {H} `{!Outside H jsval} (s s' : notifier H) d d' minutes :
  run (sendAlert (divergence_alert d)) s = (Ok true, s') →
  nc_rateLimitMinutes (nf_config s') = Some minutes → 0 < minutes →
  run (sendAlert (divergence_alert d')) s' = (Ok false, s').
Proof.
  intros Hd Hm Hp. apply sent_is_marked in Hd. unfold sendAlert. rewrite run_pbind. unfold bind. rewrite run_await.
  change (generateAlertKey (divergence_alert d')) with (generateAlertKey (divergence_alert d)).
  unfold isRateLimited, rateLimitMs. rewrite Hd, Hm. cbn [default from_option id fmap option_fmap option_map].
  match goal with |- context [if ?b then _ else _] => destruct b eqn:E end; [done|]. apply Z.ltb_ge in E. lia.
Qed.

(** ** Concrete runs *)

(** A contract whose entries are texts; the state outside is the clock. *)
#[export] Instance text_values : SorobanValues string string := {|
  scvSymbol s := s;
  native_string := Ok;
  native_u32 n := Ok (String_num n);
  native_bigint _ z := Ok (pretty z);
  fromXDR_hex _ := Throw (Error "XDR Read Error");
  fromXDR_base64 := Ok;
  native_text := Ok;
  switch_name _ := None;
  value_text _ := None;
  i128_of _ := None;
  u128_of _ := None;
  contract_data_val := Ok;
|}.
#[export] Instance quiet_contract : ReserveOutside Z string string := {|
  ro_now := id;
  ro_db_now := id;
  ro_turn _ := true;
  getLatestLedger := ret 120;
  getContractData _ key := ret (if decide (key = "ResA") then "1010" else "2000");
  ro_broadcast _ _ := ret tt;
  ro_isOpen _ := true;
  ro_xAdd _ _ := ret tt;
  ro_sendAlert _ := ret true;
|}.

Example symbol_key : parseSorobanStorageKey (ScVal := string) " symbol: ResA" FormatAuto = Ok "ResA".
Proof. vm_compute. reflexivity. Qed.
(** A name that reads as hexadecimal and is not a value is a symbol. *)
Example hex_like_key : parseSorobanStorageKey (ScVal := string) "face" FormatAuto = Ok "face".
Proof. vm_compute. reflexivity. Qed.
Example negative_i128 : scValPartsToBigInt (mkParts (Some "-1") (Some "18446744073709551615")) = Ok (-1).
Proof. vm_compute. reflexivity. Qed.

Definition sample_options : PrismaAmmReserveStoreOptions :=
  mkOptions None None None None None None None None None (Some "reserve_scale") None None None None None (Some 10).
Definition sample_store : PrismaAmmReserveStore :=
  match new_store (λ _, None) sample_options with
  | Ok s => s
  | Throw _ => mkStore "" "" "" "" "" "" "" None None None None None "" "" None 0
  end.
Definition sample_row : PoolRow :=
  mkPoolRow "CPOOL" "CCONTRACT" "10.00" "20.00" "ResA" "ResB" None None (Some "2") None None (Some 40) 0 true.
Definition sample_detector : detector (svc (gmap nat PoolRow) Z) :=
  mkDetector (mkSvc {[0%nat := sample_row]} 1000) None no_timers false 40 None.
#[local] Instance sample_pools : PoolReserveStore (svc (gmap nat PoolRow) Z) := prisma_store sample_store.

Definition after_check := run (onNewLedger 50 100) sample_detector.
Example reported : after_check.1 = Ok [mkDivergence "CPOOL" "CCONTRACT" 100 "1000" "2000" "1010" "2000" "10" "0"
  (toISOString 1000)].
Proof. vm_compute. reflexivity. Qed.
Example written : pr_reserve_a <$> rows (svc_db (de_world after_check.2)) !! 0%nat = Some "10.10".
Proof. vm_compute. reflexivity. Qed.

Definition first_calls := [forget (onNewLedger 50 60); pollLatestLedger 50].
Lemma reserve_ledgers_advance_witness :
  let s1 := (run_in_turn first_calls sample_detector).2 in
  let s2 := (run_in_turn [forget (onNewLedger 50 170)] s1).2 in
  pr_last_synced_ledger <$> rows (svc_db (de_world s1)) !! 0%nat = Some (Some 120) ∧
  ∃ r m, rows (svc_db (de_world s2)) !! 0%nat = Some r ∧ pr_last_synced_ledger r = Some m ∧ 120 <= m.
Proof.
  intros s1 s2. assert (Forall (detector_call 50 5000) first_calls) as Hc by repeat constructor.
  assert (Forall (detector_call 50 5000) [forget (onNewLedger 50 170)]) as Hc' by repeat constructor.
  pose proof (proj2 (proj2 (reserve_ledgers_advance sample_store 50 5000 sample_detector s1 s2 _ _ ltac:(done) eq_refl
    (run_in_turn_steps _ _ first_calls [] _ Hc) (run_in_turn_steps _ _ _ _ _ Hc')))) as A.
  split; [vm_compute; reflexivity|].
  destruct (rows (svc_db (de_world s1)) !! 0%nat) as [r1|] eqn:E1; [|vm_compute in E1; discriminate E1].
  assert (pr_last_synced_ledger r1 = Some 120) as E by (vm_compute in E1; by injection E1 as <-).
  apply (A 0%nat sample_row r1 120 eq_refl E1 E). rewrite E. done.
Defined.

(** After a restart the detector has checked no ledger: a row written at ledger 400 is
    written again at ledger 100, when that is what a lagging server answers. *)
Definition restarted : detector (svc (gmap nat PoolRow) Z) :=
  mkDetector (mkSvc {[0%nat := mkPoolRow "CPOOL" "CCONTRACT" "10.00" "20.00" "ResA" "ResB" None None (Some "2") None None
    (Some 400) 0 true]} 1000) None no_timers false 0 None.
Example restart_takes_back :
  pr_last_synced_ledger <$> rows (svc_db (de_world (run (onNewLedger 50 100) restarted).2)) !! 0%nat = Some (Some 100).
Proof. vm_compute. reflexivity. Qed.


Definition unreachable_detector : detector (svc (bool * gmap nat PoolRow) Z) :=
  mkDetector (mkSvc (false, {[0%nat := sample_row]}) 1000) None no_timers false 40 None.
#[local] Existing Instance switched_table.
#[local] Instance sample_pools_down : PoolReserveStore (svc (bool * gmap nat PoolRow) Z) := prisma_store sample_store.
Lemma failed_check_not_repeated_witness :
  let s1 := final (run (onNewLedger 50 100)) unreachable_detector in
  de_lastCheckedLedger s1 = 100 ∧ run (onNewLedger 50 140) s1 = (Ok [], s1).
Proof.
  split; [vm_compute; reflexivity|].
  refine (proj2 (proj2 (failed_check_not_repeated sample_store 50 100 140 unreachable_detector unavailable eq_refl _ _ _ _)));
    [done..|vm_compute; reflexivity|done].
Defined.

Definition divergence_at (pool : string) : AmmReserveDivergence :=
  mkDivergence pool "CCONTRACT" 100 "1000" "2000" "1010" "2000" "10" "0" (toISOString 1000).
Definition first_divergence := run (sendAlert (divergence_alert (divergence_at "CPOOL"))) quiet_notifier.
Lemma second_divergence_silent_witness :
  first_divergence.1 = Ok true ∧
  run (sendAlert (divergence_alert (divergence_at "COTHER"))) first_divergence.2 = (Ok false, first_divergence.2).
Proof.
  split; [vm_compute; reflexivity|].
  apply (second_divergence_silent quiet_notifier _ (divergence_at "CPOOL") _ 5); [|vm_compute; reflexivity|lia].
  by apply injective_projections; vm_compute.
Defined.
