(* ===== verification/Watchdog.v ===== *)
(** * The watchdog ([services/systemHealthWatchdog.ts])

    Probes of connections, depths of queues and heartbeats of workers, checked together by
    one round at a time; a worker whose heartbeat is too old is restarted, no more often
    than its cooldown; a check that turns degraded raises an alert. Rounds are programs of
    [Async] over any world. A request that times out is a statement that fails; what it
    does after that is not modelled. The call of a worker's restart is made in the statement
    that notes its time; the rest of the restart follows in statements of its own. Proved:
    in every interleaving the watchdog calls the restart of a worker at times a cooldown
    apart; alerts mark the turns to degraded; a round that
    waits for a restart keeps every other round from being made; and the detector of
    [AmmReserves] is restarted while it polls as it should. *)

From Stdlib Require Import Ascii.
From stdpp Require Import pretty.
From S2P Require Import Prelude JsNumber JsString JsDate JsDecimal JsMap JsValue Prisma Service Async Timers Notifications AmmPools AmmReserves.

Local Open Scope Z_scope.

Definition WATCHDOG_POLL_INTERVAL_MS : Z := 5000.
Definition DEFAULT_PROBE_TIMEOUT_MS : Z := 4000.
Definition DEFAULT_RESTART_COOLDOWN_MS : Z := 30000.

Inductive WatchdogCheckStatus := Healthy | Degraded.
#[export] Instance status_eq_dec : EqDecision WatchdogCheckStatus.
Proof. solve_decision. Defined.

Record WatchdogCheck := mkCheck {
  ck_status : WatchdogCheckStatus;
  ck_latencyMs : Z;
  ck_checkedAt : string;
  ck_message : option string;
  ck_details : option (list (string * jsval));
}.
Record WatchdogSnapshot := mkSnap {
  sn_status : WatchdogCheckStatus;
  sn_checkedAt : string;
  sn_checks : list (string * WatchdogCheck);
}.

(** A queue; its depth is asked for under a name the world knows. *)
Record QueueProbe := mkQueue {
  qp_name : string;
  qp_getDepth : string;
  qp_maxHealthyDepth : number;
}.

Section types.
Context (W : Type).
(** A worker; its [restart] is known by its name among the programs the watchdog is given. *)
Record ManagedWorker := mkWorker {
  mw_name : string;
  mw_getLastHeartbeatAt : W → exc (option Z);
  mw_restart : string;
  mw_heartbeatTimeoutMs : Z;
  mw_restartCooldownMs : option Z;
}.
(** [lastRestartAt] is [None] for negative infinity. *)
Record WorkerState := mkWorkerState {
  ws_worker : ManagedWorker;
  ws_registeredAt : Z;
  ws_lastRestartAt : option Z;
  ws_restarting : bool;
}.
(** The fields of the watchdog. A worker's state is an object that the map names and a
    check may still hold when the map no longer does: [wd_states] are these objects. *)
Record watchdog := mkWatchdog {
  wd_world : W;
  wd_states : list WorkerState;
  wd_queues : list (string * QueueProbe);
  wd_workers : list (string * nat);
  wd_activeDegradations : list string;
  wd_timer : option nat;
  wd_timers : timers;
  wd_checking : bool;
  wd_snapshot : option WatchdogSnapshot;
}.
End types.
Arguments mkWorker {W} _ _ _ _ _.
Arguments mw_name {W} _.
Arguments mw_getLastHeartbeatAt {W} _.
Arguments mw_restart {W} _.
Arguments mw_heartbeatTimeoutMs {W} _.
Arguments mw_restartCooldownMs {W} _.
Arguments mkWorkerState {W} _ _ _ _.
Arguments ws_worker {W} _.
Arguments ws_registeredAt {W} _.
Arguments ws_lastRestartAt {W} _.
Arguments ws_restarting {W} _.
Arguments mkWatchdog {W} _ _ _ _ _ _ _ _ _.
Arguments wd_world {W} _.
Arguments wd_states {W} _.
Arguments wd_queues {W} _.
Arguments wd_workers {W} _.
Arguments wd_activeDegradations {W} _.
Arguments wd_timer {W} _.
Arguments wd_timers {W} _.
Arguments wd_checking {W} _.
Arguments wd_snapshot {W} _.

(** The clock, which call goes on, whether a request is out of time, the probes of the
    dependencies and the depths of the queues, and the alerts. *)
Class WatchdogWorld (W : Type) := {
  wd_now : W → Z;
  wd_turn : W → bool;
  timed_out : W → bool;
  probe_code : string → M W unit;
  depth_code : string → M W number;
  raise_alert : SystemAlert → M W bool;
}.

Section watchdog.
Context {W : Type} `{!WatchdogWorld W}.
(** The names of the dependencies; what a call of a worker's restart does up to its first
    [await], and what is left of it after. *)
Context (probes : list string) (pollIntervalMs probeTimeoutMs : Z).
Context (restart_call : string → M W unit) (restart_code : string → prog W unit).
Notation state := (watchdog W).
Notation call := (prog state).

Definition set_world (w : W) (s : state) : state :=
  mkWatchdog w (wd_states s) (wd_queues s) (wd_workers s) (wd_activeDegradations s) (wd_timer s) (wd_timers s)
    (wd_checking s) (wd_snapshot s).
Definition set_states (states : list (WorkerState W)) (s : state) : state :=
  mkWatchdog (wd_world s) states (wd_queues s) (wd_workers s) (wd_activeDegradations s) (wd_timer s) (wd_timers s)
    (wd_checking s) (wd_snapshot s).
Definition set_queues (queues : list (string * QueueProbe)) (s : state) : state :=
  mkWatchdog (wd_world s) (wd_states s) queues (wd_workers s) (wd_activeDegradations s) (wd_timer s) (wd_timers s)
    (wd_checking s) (wd_snapshot s).
Definition set_workers (workers : list (string * nat)) (s : state) : state :=
  mkWatchdog (wd_world s) (wd_states s) (wd_queues s) workers (wd_activeDegradations s) (wd_timer s) (wd_timers s)
    (wd_checking s) (wd_snapshot s).
Definition set_active (active : list string) (s : state) : state :=
  mkWatchdog (wd_world s) (wd_states s) (wd_queues s) (wd_workers s) active (wd_timer s) (wd_timers s)
    (wd_checking s) (wd_snapshot s).
Definition set_timer (timer : option nat) (t : timers) (s : state) : state :=
  mkWatchdog (wd_world s) (wd_states s) (wd_queues s) (wd_workers s) (wd_activeDegradations s) timer t
    (wd_checking s) (wd_snapshot s).
Definition set_checking (b : bool) (s : state) : state :=
  mkWatchdog (wd_world s) (wd_states s) (wd_queues s) (wd_workers s) (wd_activeDegradations s) (wd_timer s) (wd_timers s)
    b (wd_snapshot s).
Definition set_snapshot (snapshot : WatchdogSnapshot) (s : state) : state :=
  mkWatchdog (wd_world s) (wd_states s) (wd_queues s) (wd_workers s) (wd_activeDegradations s) (wd_timer s) (wd_timers s)
    (wd_checking s) (Some snapshot).

Definition on_this_world {A} (c : M W A) : M state A := λ s,
  let '(r, w) := c (wd_world s) in (r, set_world w s).
Fixpoint in_world {A} (p : prog W A) : call A :=
  match p with
  | Done r => Done r
  | Await c k => Await (on_this_world c) (λ r, in_world (k r))
  end.
Definition time_of (s : state) : Z := wd_now (wd_world s).
Definition read_time : call Z := await (λ s, (Ok (time_of s), s)).

(** ** Registration *)

Definition positiveNumber (value : Z) (label : string) : exc Z :=
  if value <=? 0 then Throw (Error (label +:+ " must be a positive number")) else Ok value.
Definition positive_depth (value : number) (label : string) : exc number :=
  if negb (isFinite value) || num_leb value num_zero then Throw (Error (label +:+ " must be a positive number")) else Ok value.

Definition registerQueue (queue : QueueProbe) : call unit :=
  _ <~ Done (positive_depth (qp_maxHealthyDepth queue) (qp_name queue +:+ " maximum queue depth")) ;;
  await (modify (λ s, set_queues (map_set (wd_queues s) (qp_name queue) queue) s)).
Definition unregisterQueue (name : string) : call unit := await (modify (λ s, set_queues (map_delete (wd_queues s) name) s)).

Definition registerWorker (worker : ManagedWorker W) : call unit :=
  _ <~ Done (positiveNumber (mw_heartbeatTimeoutMs worker) (mw_name worker +:+ " heartbeat timeout")) ;;
  _ <~ Done (match mw_restartCooldownMs worker with
             | Some ms => positiveNumber ms (mw_name worker +:+ " restart cooldown")
             | None => Ok 0
             end) ;;
  await (modify (λ s,
    set_workers (map_set (wd_workers s) (mw_name worker) (length (wd_states s)))
      (set_states (wd_states s ++ [mkWorkerState worker (time_of s) None false]) s))).
Definition unregisterWorker (name : string) : call unit := await (modify (λ s, set_workers (map_delete (wd_workers s) name) s)).

(** ** The checks *)

Definition result (status : WatchdogCheckStatus) (startedAt : Z) (message : option string)
    (details : option (list (string * jsval))) : call WatchdogCheck := await (λ s,
  (Ok (mkCheck status (Z.max 0 (time_of s - startedAt)) (toISOString (time_of s)) message details), s)).

(** [Promise.race] of a request and its timer. *)
Definition withTimeout {A} (request : M W A) : call A := await (λ s,
  if timed_out (wd_world s) then
    (Throw (Error ("Health probe timed out after " +:+ pretty probeTimeoutMs +:+ "ms")), s)
  else on_this_world request s).

Definition runProbe (probe : string) : call WatchdogCheck :=
  startedAt <~ read_time ;;
  pcatch (withTimeout (probe_code probe) ;~ result Healthy startedAt None None)
    (λ error, result Degraded startedAt (Some (err_message error)) None).

Definition num_text (z : Z) : jsval := JNum (num_of_Z z).
Definition checkQueue (queue : QueueProbe) : call WatchdogCheck :=
  startedAt <~ read_time ;;
  pcatch
    (depth <~ withTimeout (depth_code (qp_getDepth queue)) ;;
     let details := Some [("depth", JNum depth); ("maxHealthyDepth", JNum (qp_maxHealthyDepth queue))] in
     if num_ltb (qp_maxHealthyDepth queue) depth then
       result Degraded startedAt
         (Some ("Queue depth " +:+ String_num depth +:+ " exceeds threshold " +:+ String_num (qp_maxHealthyDepth queue))) details
     else result Healthy startedAt None details)
    (λ error, result Degraded startedAt (Some (err_message error)) None).

(** What a look at a worker finds, up to the first [await]. *)
Inductive worker_look :=
| LookFailed (error : js_error)
| LookFresh (details : list (string * jsval))
| LookSuppressed (age : Z) (details : list (string * jsval))
| LookRestart (age : Z) (details : list (string * jsval)) (restart : string) (called : exc unit).

Definition heartbeat_details (worker : ManagedWorker W) (age : Z) (heartbeat : option Z) : list (string * jsval) :=
  [("heartbeatAgeMs", num_text age); ("heartbeatTimeoutMs", num_text (mw_heartbeatTimeoutMs worker));
   ("lastHeartbeatAt", match heartbeat with Some t => JStr (toISOString t) | None => JNull end)].
Definition cooldown_of (worker : ManagedWorker W) : Z := default DEFAULT_RESTART_COOLDOWN_MS (mw_restartCooldownMs worker).
Definition cooled_down (t : Z) (st : WorkerState W) : bool :=
  match ws_lastRestartAt st with Some last => cooldown_of (ws_worker st) <=? t - last | None => true end.
Definition restart_begun (t : Z) (st : WorkerState W) : WorkerState W :=
  mkWorkerState (ws_worker st) (ws_registeredAt st) (Some t) true.
Definition restart_ended (st : WorkerState W) : WorkerState W :=
  mkWorkerState (ws_worker st) (ws_registeredAt st) (ws_lastRestartAt st) false.

Definition look_at (id : nat) (st : WorkerState W) (s : state) : worker_look * state :=
  let worker := ws_worker st in
  match mw_getLastHeartbeatAt worker (wd_world s) with
  | Throw e => (LookFailed e, s)
  | Ok heartbeat =>
      let age := Z.max 0 (time_of s - default (ws_registeredAt st) heartbeat) in
      let details := heartbeat_details worker age heartbeat in
      if age <=? mw_heartbeatTimeoutMs worker then (LookFresh details, s)
      else if negb (ws_restarting st) && cooled_down (time_of s) st then
        let '(called, s') := on_this_world (restart_call (mw_restart worker))
          (set_states (<[id := restart_begun (time_of s) st]> (wd_states s)) s) in
        (LookRestart age details (mw_restart worker) called, s')
      else (LookSuppressed age details, s)
  end.
Definition end_restart (id : nat) : call unit := await (modify (λ s,
  set_states (alter restart_ended id (wd_states s)) s)).
Definition heartbeat_old (age : Z) : option string := Some ("Worker heartbeat is " +:+ pretty age +:+ "ms old").

Definition checkWorker (id : nat) : call WatchdogCheck :=
  look <~ await (λ s, match wd_states s !! id with
                      | Some st => let '(l, s') := look_at id st s in (Ok (l, time_of s), s')
                      | None => (Throw (Error "Cannot read properties of undefined"), s)
                      end) ;;
  let '(look, startedAt) := look in
  match look with
  | LookFailed e => result Degraded startedAt (Some ("Worker heartbeat probe failed: " +:+ err_message e)) None
  | LookFresh details => result Healthy startedAt None (Some details)
  | LookSuppressed age details =>
      result Degraded startedAt (heartbeat_old age) (Some (details ++ [("restartSuppressedByCooldown", JBool true)]))
  | LookRestart age details restart called =>
      extra <~ pfinally
        (pcatch (Done called ;~ in_world (restart_code restart) ;~ pret [("restarted", JBool true)])
           (λ error, pret [("restartError", JStr (err_message error))]))
        (end_restart id) ;;
      result Degraded startedAt (heartbeat_old age) (Some (details ++ extra))
  end.

(** The checks of a round, with their names. *)
Inductive round_check :=
| CheckProbe (name : string)
| CheckQueue (queue : QueueProbe)
| CheckWorker (name : string) (id : nat).
Definition checks_of (s : state) : list round_check :=
  (CheckProbe <$> probes) ++
  ((λ '(_, queue), CheckQueue queue) <$> wd_queues s) ++
  omap (λ '(_, id), (λ st, CheckWorker (mw_name (ws_worker st)) id) <$> wd_states s !! id) (wd_workers s).
Definition named_check (c : round_check) : call (string * WatchdogCheck) :=
  match c with
  | CheckProbe name => pmap (pair name) (runProbe name)
  | CheckQueue queue => pmap (pair ("queue:" +:+ qp_name queue)) (checkQueue queue)
  | CheckWorker name id => pmap (pair ("worker:" +:+ name)) (checkWorker id)
  end.
(** [Promise.all] *)
Definition all_done {A} (rs : list (exc A)) : exc (list A) := mapM id rs.
Definition fromEntries (l : list (string * WatchdogCheck)) : list (string * WatchdogCheck) :=
  foldl (λ m '(k, v), map_set m k v) [] l.

(** *** Alerts *)

Definition degradation_alert (name : string) (check : WatchdogCheck) (t : Z) : SystemAlert :=
  mkAlert "health_check_failure" SeverityHigh "System health degradation detected"
    (default (name +:+ " health check failed") (ck_message check)) (ck_details check) (Some t)
    (Some ("system-health-watchdog:" +:+ name)) None None.

(** The names that turn degraded, in order, and the names that are degraded after. *)
Fixpoint transitions (checks : list (string * WatchdogCheck)) (active : list string) :
    list (string * WatchdogCheck) * list string :=
  match checks with
  | [] => ([], active)
  | (name, check) :: checks' =>
      match ck_status check with
      | Healthy => transitions checks' (filter (λ n, n ≠ name) active)
      | Degraded =>
          if decide (name ∈ active) then transitions checks' active
          else let '(l, active') := transitions checks' (active ++ [name]) in ((name, check) :: l, active')
      end
  end.
Definition reportTransitions (checks : list (string * WatchdogCheck)) : call unit :=
  alerts <~ await (λ s,
    let '(l, active) := transitions checks (wd_activeDegradations s) in
    (Ok (map (λ '(name, check), degradation_alert name check (time_of s)) l), set_active active s)) ;;
  forget (settle_all (λ s, wd_turn (wd_world s)) ((λ a, await (on_this_world (raise_alert a))) <$> alerts)).

(** *** Rounds *)

Definition all_healthy (checks : list (string * WatchdogCheck)) : bool :=
  forallb (λ c, bool_decide (ck_status c.2 = Healthy)) checks.
Definition performChecks : call WatchdogSnapshot :=
  checks <~ await (λ s, (Ok (checks_of s), s)) ;;
  results <~ settle_all (λ s, wd_turn (wd_world s)) (named_check <$> checks) ;;
  results <~ Done (all_done results) ;;
  let checks := fromEntries results in
  snapshot <~ await (λ s,
    let snapshot := mkSnap (if all_healthy checks then Healthy else Degraded) (toISOString (time_of s)) checks in
    (Ok snapshot, set_snapshot snapshot s)) ;;
  reportTransitions checks ;~
  pret snapshot.

(** A round under way is not made again; its caller gets the promise of the round, which is
    [None] here. *)
Definition begin_round : call bool := await (λ s,
  if wd_checking s then (Ok false, s) else (Ok true, set_checking true s)).
Definition end_round : call unit := await (modify (set_checking false)).
Definition runOnce : call (option WatchdogSnapshot) :=
  begun <~ begin_round ;;
  if begun : bool then pmap Some (pfinally performChecks end_round) else pret None.

Definition start : call unit :=
  started <~ await (λ s, match wd_timer s with
                         | Some _ => (Ok false, s)
                         | None => let '(id, t) := setInterval pollIntervalMs (wd_timers s) in
                                   (Ok true, set_timer (Some id) t s)
                         end) ;;
  if started : bool then forget runOnce else pret tt.
Definition stop : call unit := await (modify (λ s, set_timer None (clearInterval (wd_timer s) (wd_timers s)) s)).
Definition getSnapshot : call (option WatchdogSnapshot) := await (λ s, (Ok (wd_snapshot s), s)).

(** The calls; [may_register] says which workers are registered. *)
Inductive watchdog_call (may_register : ManagedWorker W → Prop) : call unit → Prop :=
| call_round : watchdog_call may_register (forget runOnce)
| call_start : watchdog_call may_register start
| call_stop : watchdog_call may_register stop
| call_snapshot : watchdog_call may_register (forget getSnapshot)
| call_queue q : watchdog_call may_register (registerQueue q)
| call_unqueue n : watchdog_call may_register (unregisterQueue n)
| call_worker wk : may_register wk → watchdog_call may_register (registerWorker wk)
| call_unworker n : watchdog_call may_register (unregisterWorker n).
End watchdog.

(** ** Restarts *)

(** A log of the restarts called, with their times, that nothing else writes. *)
Class RestartLog (W : Type) `{!WatchdogWorld W} (restart_call : string → M W unit) (restart_code : string → prog W unit) := {
  restart_log : W → list (string * Z);
  call_logged name w : restart_log (final (restart_call name) w) = restart_log w ++ [(name, wd_now w)];
  code_silent name : every (λ w w', restart_log w' = restart_log w) (restart_code name);
  probe_silent name w : restart_log (final (probe_code name) w) = restart_log w;
  depth_silent name w : restart_log (final (depth_code name) w) = restart_log w;
  alert_silent a w : restart_log (final (raise_alert a) w) = restart_log w;
}.

(** Times at least [c] apart, the first one so from [last]; and the last one then. *)
Fixpoint spaced (c : Z) (last : option Z) (l : list Z) : Prop :=
  match l with
  | [] => True
  | t :: l' => match last with Some t0 => t0 + c <= t | None => True end ∧ spaced c (Some t) l'
  end.
Definition last_of (last : option Z) (l : list Z) : option Z := foldl (λ _ t, Some t) last l.
Lemma spaced_app c last l1 l2 : spaced c last (l1 ++ l2) ↔ spaced c last l1 ∧ spaced c (last_of last l1) l2.
Proof. revert last. induction l1 as [|t l1 IH]; intros last; simpl; [tauto|]. rewrite IH. tauto. Qed.

(** The times at which the restart [name] was called. *)
Definition times_of (name : string) (log : list (string * Z)) : list Z := (filter (λ e, e.1 = name) log).*2.
Lemma times_of_snoc name log n t :
  times_of name (log ++ [(n, t)]) = times_of name log ++ (if decide (n = name) then [t] else []).
Proof. unfold times_of. rewrite filter_app, fmap_app, filter_cons, filter_nil. simpl. by case_decide. Qed.

Section restarts.
Context {W : Type} `{!WatchdogWorld W}.
Context (probes : list string) (pollIntervalMs probeTimeoutMs : Z).
Context (restart_call : string → M W unit) (restart_code : string → prog W unit).
Context `{!RestartLog W restart_call restart_code}.
(** The worker's object, and its restart. *)
Context (id : nat) (name : string).
Notation state := (watchdog W).
Implicit Types s : state.

Definition restart_times s : list Z := times_of name (restart_log (wd_world s)).
(** No other object has this restart. *)
Definition sole s : Prop :=
  ∀ j st, wd_states s !! j = Some st → mw_restart (ws_worker st) = name → j = id.
(** The restarts called between two moments, and what the object notes of them. *)
Definition restarts_spaced s s' : Prop :=
  ∀ st, wd_states s !! id = Some st → mw_restart (ws_worker st) = name →
    ∃ st' l, wd_states s' !! id = Some st' ∧ ws_worker st' = ws_worker st ∧
      restart_times s' = restart_times s ++ l ∧
      spaced (cooldown_of (ws_worker st)) (ws_lastRestartAt st) l ∧
      ws_lastRestartAt st' = last_of (ws_lastRestartAt st) l.
#[local] Instance restarts_spaced_preorder : PreOrder restarts_spaced.
Proof.
  split.
  - intros s st Hs _. exists st, []. by rewrite app_nil_r.
  - intros s s1 s2 H1 H2 st Hs Hn. destruct (H1 st Hs Hn) as (st1 & l1 & Hs1 & E1 & T1 & S1 & L1).
    destruct (H2 st1 Hs1) as (st2 & l2 & Hs2 & E2 & T2 & S2 & L2); [by rewrite E1|].
    exists st2, (l1 ++ l2). rewrite E1, L1 in S2. split_and!; [done|congruence|by rewrite T2, T1, app_assoc| |].
    + by apply spaced_app.
    + rewrite L2, L1. unfold last_of. by rewrite foldl_app.
Qed.
Definition cooling s s' : Prop := sole s → sole s' ∧ restarts_spaced s s'.
Notation fine := (every cooling).

Definition quiet s s' : Prop :=
  wd_states s' = wd_states s ∧ restart_log (wd_world s') = restart_log (wd_world s).
Lemma quiet_cooling s s' : quiet s s' → cooling s s'.
Proof.
  intros [E L] Hs. split; [intros j st; rewrite E; apply Hs|]. intros st Hst _. exists st, [].
  unfold restart_times. rewrite E, L, app_nil_r. done.
Qed.
#[local] Instance cooling_reflexive : Reflexive cooling.
Proof. intros s. by apply quiet_cooling. Qed.
Lemma fine_quiet {A} (c : M state A) : (∀ s, quiet s (final c s)) → fine (await c).
Proof. intros Hc. apply every_await. intros s. apply quiet_cooling, Hc. Qed.
Lemma quiet_world {A} (c : M W A) s :
  restart_log (final c (wd_world s)) = restart_log (wd_world s) → quiet s (final (on_this_world c) s).
Proof. unfold quiet, final, on_this_world. by destruct (c (wd_world s)). Qed.
Lemma fine_restart n : fine (in_world (restart_code n)).
Proof.
  pose proof (code_silent n) as Hc. induction (restart_code n) as [r|B c k IH]; cbn [in_world every] in *; [done|].
  intros s. split; [apply quiet_cooling, quiet_world, Hc|]. apply IH.
  unfold outcome, on_this_world. destruct (Hc (wd_world s)) as [_ Hk]. unfold outcome in Hk.
  by destruct (c (wd_world s)).
Qed.
Lemma fine_timeout {A} (c : M W A) :
  (∀ w, restart_log (final c w) = restart_log w) → fine (withTimeout probeTimeoutMs c).
Proof.
  intros Hc. apply fine_quiet. intros s. unfold final. destruct (timed_out _); [done|]. by apply quiet_world.
Qed.
Lemma fine_watchdog_read {A} (f : state → exc A) : fine (await (λ s, (f s, s))).
Proof. by apply fine_quiet. Qed.
Lemma fine_modify f : (∀ s, quiet s (f s)) → fine (await (modify f)).
Proof. intros Hf. apply fine_quiet. exact Hf. Qed.
#[local] Hint Resolve fine_restart fine_timeout fine_watchdog_read probe_silent depth_silent : sf.

(** The state of an object changes, and no other. *)
Lemma sole_insert s (i : nat) st st' w :
  wd_states s !! i = Some st → ws_worker st' = ws_worker st → sole s →
  sole (set_world w (set_states (<[i := st']> (wd_states s)) s)).
Proof.
  intros Hst E Hs j st0 [(<- & <- & _)|[_ Hj]]%list_lookup_insert_Some; [rewrite E; exact (Hs i st Hst)|exact (Hs j st0 Hj)].
Qed.

(** A restart is called a cooldown after the one before, which the object has noted. *)
Lemma fine_look i : fine (await (λ s, match wd_states s !! i with
    | Some st => let '(l, s') := look_at restart_call i st s in (Ok (l, time_of s), s')
    | None => (Throw (Error "Cannot read properties of undefined"), s)
    end)).
Proof.
  apply every_await. intros s. unfold final. destruct (wd_states s !! i) as [st|] eqn:Hst; [|done].
  unfold look_at. destruct (mw_getLastHeartbeatAt _ _) as [heartbeat|]; [|done].
  destruct (_ <=? _); [done|]. destruct (negb _ && _) eqn:E; [|done].
  apply andb_true_iff in E as [_ E]. unfold on_this_world. cbn [wd_world set_states].
  pose proof (call_logged (mw_restart (ws_worker st)) (wd_world s)) as Hlog. unfold final in Hlog.
  destruct (restart_call _ _) as [called w]. cbn [snd] in Hlog |- *.
  intros Hs. split; [by eapply sole_insert|]. intros st1 Hst1 Hn.
  unfold restart_times. cbn [wd_world wd_states set_world set_states]. rewrite Hlog, times_of_snoc.
  destruct (decide (mw_restart (ws_worker st) = name)) as [Hi|Hi].
  - pose proof (Hs i st Hst Hi) as ->. replace st1 with st in * by congruence.
    exists (restart_begun (time_of s) st), [time_of s].
    split_and!; [apply list_lookup_insert_eq; by eapply lookup_lt_Some|done|done| |done].
    split; [|done]. unfold cooled_down in E. destruct (ws_lastRestartAt st) as [last|]; [|done].
    apply Z.leb_le in E. lia.
  - assert (i ≠ id) by (intros ->; congruence). exists st1, []. rewrite !app_nil_r, list_lookup_insert_ne by done. done.
Qed.
Lemma fine_end_restart i : fine (end_restart i).
Proof.
  apply every_await. intros s Hs. unfold final. cbn [modify snd]. split.
  - intros j st. cbn [wd_states set_states]. destruct (decide (j = i)) as [->|Hne].
    + rewrite list_lookup_alter_eq. intros (st0 & Hst0 & ->)%fmap_Some. exact (Hs i st0 Hst0).
    + rewrite list_lookup_alter_ne by done. apply Hs.
  - intros st Hst _. unfold restart_times. cbn [wd_states wd_world set_states].
    destruct (decide (id = i)) as [->|Hne].
    + exists (restart_ended st), []. rewrite list_lookup_alter_eq, Hst, app_nil_r. done.
    + exists st, []. rewrite list_lookup_alter_ne, app_nil_r by done. done.
Qed.
Lemma fine_checkWorker i : fine (checkWorker restart_call restart_code i).
Proof.
  unfold checkWorker, result. apply every_bind; [apply fine_look|]. intros [look startedAt]. destruct look.
  all: each; try apply fine_end_restart; apply fine_watchdog_read.
Qed.
Lemma fine_named c : fine (named_check probeTimeoutMs restart_call restart_code c).
Proof.
  destruct c as [n|queue|n i]; apply every_bind; try (intros; apply every_done).
  - unfold runProbe, result, read_time. each; apply fine_watchdog_read.
  - unfold checkQueue, result, read_time. each; apply fine_watchdog_read.
  - apply fine_checkWorker.
Qed.
Lemma fine_report checks : fine (reportTransitions checks).
Proof.
  unfold reportTransitions. apply every_bind.
  - apply fine_quiet. intros s. unfold quiet, final. by destruct (transitions _ _).
  - intros alerts. each. apply list_elem_of_fmap in H as (a & -> & _). apply fine_quiet. intros s.
    apply quiet_world, alert_silent.
Qed.
Lemma fine_round : fine (runOnce probes probeTimeoutMs restart_call restart_code).
Proof.
  unfold runOnce. apply every_bind; [apply fine_quiet; intros s; unfold quiet, final; by destruct (wd_checking s)|intros begun].
  destruct begun; [|apply every_done]. apply every_bind; [|intros; apply every_done].
  apply every_finally; [|by apply fine_modify]. unfold performChecks. apply every_bind; [apply fine_watchdog_read|intros checks].
  apply every_bind; [|intros results].
  { apply every_settle; [apply _|]. intros p (c & -> & _)%list_elem_of_fmap. apply fine_named. }
  apply every_sync. intros l _. apply every_bind; [by apply fine_quiet|intros snapshot].
  apply every_bind; [apply fine_report|intros; apply every_done].
Qed.
Lemma fine_calls p :
  watchdog_call probes pollIntervalMs probeTimeoutMs restart_call restart_code (λ wk, mw_restart wk ≠ name) p → fine p.
Proof.
  intros Hp. destruct Hp as [| | | |q|n|wk Hwk|n].
  - each. apply fine_round.
  - unfold start. apply every_bind; [apply fine_quiet; intros s; unfold quiet, final; by destruct (wd_timer s)|intros started].
    destruct started; each. apply fine_round.
  - by apply fine_modify.
  - unfold getSnapshot. each.
  - unfold registerQueue. each. by apply fine_modify.
  - by apply fine_modify.
  - unfold registerWorker. each. apply every_await. intros s Hs. unfold final. cbn [modify snd]. split.
    + intros j st. cbn [wd_states set_workers set_states]. intros [Hst|[_ Hst]]%lookup_app_Some; [by apply (Hs j)|].
      by apply list_lookup_singleton_Some in Hst as [_ <-].
    + intros st Hst _. exists st, []. unfold restart_times. cbn [wd_states wd_world set_workers set_states].
      rewrite lookup_app_l, app_nil_r by by eapply lookup_lt_Some. done.
  - by apply fine_modify.
Qed.

(** What else may happen: anything that is not the watchdog, and calls no restart for it. *)
Definition outside_restarts s s' : Prop := quiet s s'.

Lemma restarts_spaced_steps s s' ps :
  sole s →
  rtc (step (watchdog_call probes pollIntervalMs probeTimeoutMs restart_call restart_code (λ wk, mw_restart wk ≠ name))
    outside_restarts) ([], s) (ps, s') →
  restarts_spaced s s'.
Proof.
  intros HI Hr. destruct (interleaved_fresh sole restarts_spaced
    (watchdog_call probes pollIntervalMs probeTimeoutMs restart_call restart_code (λ wk, mw_restart wk ≠ name)) outside_restarts)
    with (w := s) (s' := (ps, s')) as [_ HR]; [| |done..].
  - intros p Hp. apply every_well_behaved. by apply fine_calls.
  - intros s1 s2 Hs1 E. by apply quiet_cooling.
Qed.
End restarts.

(** *** The world with a log *)

Section logged.
Context {W : Type} `{!WatchdogWorld W}.
Context (restart_call : string → M W unit) (restart_code : string → prog W unit).
Notation logged := (W * list (string * Z))%type.

Definition logged_call (name : string) : M logged unit := λ '(w, l),
  let '(r, w') := restart_call name w in (r, (w', l ++ [(name, wd_now w)])).
Definition beside_log {A} (c : M W A) : M logged A := λ '(w, l), let '(r, w') := c w in (r, (w', l)).
Fixpoint code_beside_log {A} (p : prog W A) : prog logged A :=
  match p with
  | Done r => Done r
  | Await c k => Await (beside_log c) (λ r, code_beside_log (k r))
  end.
#[export] Instance logged_world : WatchdogWorld logged := {|
  wd_now w := wd_now w.1;
  wd_turn w := wd_turn w.1;
  timed_out w := timed_out w.1;
  probe_code n := beside_log (probe_code n);
  depth_code n := beside_log (depth_code n);
  raise_alert a := beside_log (raise_alert a);
|}.
Lemma beside_log_silent {A} (c : M W A) w : (final (beside_log c) w).2 = w.2.
Proof. unfold final, beside_log. destruct w as [w l]. by destruct (c w). Qed.
Lemma code_beside_silent {A} (p : prog W A) : every (λ w w' : logged, w'.2 = w.2) (code_beside_log p).
Proof. induction p as [r|B c k IH]; simpl; [done|]. intros w. split; [apply beside_log_silent|apply IH]. Qed.
Lemma logged_call_logs name (w : logged) :
  (final (logged_call name) w).2 = w.2 ++ [(name, wd_now (WatchdogWorld := logged_world) w)].
Proof. unfold final, logged_call. destruct w as [w l]. simpl. by destruct (restart_call name w). Qed.
#[export] Instance logged_restarts : RestartLog logged logged_call (λ n, code_beside_log (restart_code n)) := {|
  restart_log := snd;
  call_logged := logged_call_logs;
  code_silent n := code_beside_silent (restart_code n);
  probe_silent n := beside_log_silent (probe_code n);
  depth_silent n := beside_log_silent (depth_code n);
  alert_silent a := beside_log_silent (raise_alert a);
|}.
End logged.

Section cooldowns.
Context {W : Type} `{!WatchdogWorld W}.
Context (probes : list string) (pollIntervalMs probeTimeoutMs : Z).
Context (restart_call : string → M W unit) (restart_code : string → prog W unit).
Implicit Types s : watchdog (W * list (string * Z)).

(** C14. In every interleaving, whatever fails, the watchdog calls the restart of a worker at
    times that are the worker's cooldown apart, the first one a cooldown after the restart
    its object had noted before; and the object has noted the last call. The log beside the
    world has the calls with their times. The worker's object is the only one with this
    restart: the same worker registered again has a cooldown of its own. *)
Theorem restarts_respect_cooldown s s' ps id st :
  let name := mw_restart (ws_worker st) in
  let calls := watchdog_call probes pollIntervalMs probeTimeoutMs (logged_call restart_call)
    (λ n, code_beside_log (restart_code n)) (λ wk, mw_restart wk ≠ name) in
  wd_states s !! id = Some st →
  (∀ j st', wd_states s !! j = Some st' → mw_restart (ws_worker st') = name → j = id) →
  rtc (step calls (λ s1 s2, wd_states s2 = wd_states s1 ∧ (wd_world s2).2 = (wd_world s1).2)) ([], s) (ps, s') →
  ∃ st' new, wd_states s' !! id = Some st' ∧ ws_worker st' = ws_worker st ∧
    times_of name (wd_world s').2 = times_of name (wd_world s).2 ++ new ∧
    spaced (cooldown_of (ws_worker st)) (ws_lastRestartAt st) new ∧
    ws_lastRestartAt st' = last_of (ws_lastRestartAt st) new.
Proof.
  intros name calls Hst Hsole Hr.
  exact (restarts_spaced_steps probes pollIntervalMs probeTimeoutMs (logged_call restart_call)
    (λ n, code_beside_log (restart_code n)) id name s s' ps Hsole Hr st Hst eq_refl).
Qed.
End cooldowns.

(** ** A round that does not end *)

Section waiting.
Context {W : Type} `{!WatchdogWorld W}.
Context (probes : list string) (pollIntervalMs probeTimeoutMs : Z).
Context (restart_call : string → M W unit) (restart_code : string → prog W unit).
Notation state := (watchdog W).
Implicit Types s : state.
Notation calls := (watchdog_call probes pollIntervalMs probeTimeoutMs restart_call restart_code (λ _, True)).

(** What else may happen: anything that is not the watchdog. *)
Definition outside_watchdog s s' : Prop :=
  wd_states s' = wd_states s ∧ wd_checking s' = wd_checking s ∧ wd_snapshot s' = wd_snapshot s ∧
  wd_activeDegradations s' = wd_activeDegradations s.

Definition same_report s s' : Prop :=
  wd_snapshot s' = wd_snapshot s ∧ wd_activeDegradations s' = wd_activeDegradations s.
#[local] Instance same_report_preorder : PreOrder same_report.
Proof. split; [done|]. intros s1 s2 s3 [A1 B1] [A2 B2]. split; congruence. Qed.
Definition in_round s : Prop := wd_checking s = true.
Notation waits Pre p := (guarantee in_round same_report Pre p (λ _ _, True)).

Lemma waiting_round Pre : waits Pre (forget (runOnce probes probeTimeoutMs restart_call restart_code)).
Proof.
  apply guarantee_bind; [apply _|]. unfold runOnce. apply guarantee_bind; [apply _|]. intros s Hs _. unfold in_round in Hs.
  unfold final, outcome. rewrite Hs. split_and!; [done..|]. by intros.
Qed.
Lemma waiting_modify f :
  (∀ s, wd_checking (f s) = wd_checking s ∧ same_report s (f s)) → waits (λ _, True) (await (modify f)).
Proof. intros Hf. apply well_behaved_await. intros s Hs. destruct (Hf s) as [E ?]. split; [|done]. unfold in_round, final. simpl. by rewrite E. Qed.
Lemma waiting_calls p : calls p → waits (λ _, True) p.
Proof.
  intros Hp. destruct Hp as [| | | |q|n|wk _|n].
  - apply waiting_round.
  - unfold start. apply guarantee_bind; [apply _|]. intros s Hs _. unfold final, outcome.
    destruct (wd_timer s); cbn [fst snd]; (split_and!; [done..|]); intros s2 _ _; [by apply guarantee_ret|apply waiting_round].
  - by apply waiting_modify.
  - unfold forget, pmap, getSnapshot. apply well_behaved_bind; [apply _|by apply well_behaved_await|].
    intros. apply well_behaved_ret.
  - unfold registerQueue. apply well_behaved_sync. intros _ _. by apply waiting_modify.
  - by apply waiting_modify.
  - unfold registerWorker. do 2 (apply well_behaved_sync; intros _ _). by apply waiting_modify.
  - by apply waiting_modify.
Qed.
(** While a round waits, for a restart that does not come back say, no other round is made:
    nothing is checked and no alert is raised, whatever else is called. *)
Theorem waiting_round_stops_checks s s' ps :
  wd_checking s = true →
  rtc (step calls outside_watchdog) ([], s) (ps, s') →
  wd_checking s' = true ∧ wd_snapshot s' = wd_snapshot s ∧ wd_activeDegradations s' = wd_activeDegradations s.
Proof.
  intros Hc Hr.
  destruct (interleaved_fresh in_round same_report calls outside_watchdog) with (w := s) (s' := (ps, s')) as [HI [HR1 HR2]]; [apply waiting_calls| |done|done|done].
  intros s1 s2 Hs1 (_ & E1 & E2 & E3). split; [unfold in_round; by rewrite E1|done].
Qed.
End waiting.

(** ** Alerts *)

Definition turns_degraded (checks : list (string * WatchdogCheck)) (active : list string) n c : Prop :=
  (n, c) ∈ checks ∧ ck_status c = Degraded ∧ n ∉ active.
Definition stays_degraded (checks : list (string * WatchdogCheck)) (active : list string) n : Prop :=
  (∃ c, (n, c) ∈ checks ∧ ck_status c = Degraded) ∨ (n ∈ active ∧ ¬ ∃ c, (n, c) ∈ checks ∧ ck_status c = Healthy).
Definition reports_turns (checks : list (string * WatchdogCheck)) (active : list string)
    (l : list (string * WatchdogCheck)) (active' : list string) : Prop :=
  (∀ n c, (n, c) ∈ l ↔ turns_degraded checks active n c) ∧ ∀ n, n ∈ active' ↔ stays_degraded checks active n.

(** The steps of the loop. *)
Section loop.
Context (name : string) (check : WatchdogCheck) (checks : list (string * WatchdogCheck)).
Context (Hne : ∀ c, (name, c) ∉ checks).
Implicit Types active : list string.
Notation round := ((name, check) :: checks).
Lemma degraded_cons n : (∃ c, (n, c) ∈ round ∧ ck_status c = Degraded) ↔
  (n = name ∧ ck_status check = Degraded) ∨ ∃ c, (n, c) ∈ checks ∧ ck_status c = Degraded.
Proof using.
  setoid_rewrite elem_of_cons. setoid_rewrite pair_equal_spec. split.
  - intros (c & [[-> ->]|Hc] & Hd); [by left|right; by exists c].
  - intros [[-> Hd]|(c & Hc & Hd)]; [exists check|exists c]; tauto.
Qed.
Lemma healthy_cons n : (∃ c, (n, c) ∈ round ∧ ck_status c = Healthy) ↔
  (n = name ∧ ck_status check = Healthy) ∨ ∃ c, (n, c) ∈ checks ∧ ck_status c = Healthy.
Proof using.
  setoid_rewrite elem_of_cons. setoid_rewrite pair_equal_spec. split.
  - intros (c & [[-> ->]|Hc] & Hd); [by left|right; by exists c].
  - intros [[-> Hd]|(c & Hc & Hd)]; [exists check|exists c]; tauto.
Qed.
Lemma not_again n s : (∃ c, (n, c) ∈ checks ∧ ck_status c = s) → n ≠ name.
Proof using Hne. intros (c & Hc & _) ->. by apply (Hne c). Qed.
Lemma turn_healthy active l active' : ck_status check = Healthy →
  reports_turns checks (filter (λ n, n ≠ name) active) l active' → reports_turns round active l active'.
Proof using Hne.
  intros Hs [H1 H2]. unfold turns_degraded, stays_degraded in *. split.
  - intros n c. unfold turns_degraded. rewrite H1, elem_of_cons, pair_equal_spec, list_elem_of_filter. split.
    { intros (Hc & Hd & Ha). assert (n ≠ name) by (intros ->; by apply (Hne c)). tauto. }
    intros ([[-> ->]|Hc] & Hd & Ha); [congruence|]. tauto.
  - intros n. unfold stays_degraded. rewrite H2, degraded_cons, healthy_cons, list_elem_of_filter, Hs.
    pose proof (not_again n Degraded). pose proof (not_again n Healthy). intuition congruence.
Qed.
Lemma turn_known active l active' : ck_status check = Degraded → name ∈ active →
  reports_turns checks active l active' → reports_turns round active l active'.
Proof using Hne.
  intros Hs Hact [H1 H2]. unfold turns_degraded, stays_degraded in *. split.
  - intros n c. unfold turns_degraded. rewrite H1, elem_of_cons, pair_equal_spec. split; [tauto|].
    intros ([[-> ->]|Hc] & Hd & Ha); [done|]. tauto.
  - intros n. unfold stays_degraded. rewrite H2, degraded_cons, healthy_cons, Hs.
    pose proof (not_again n Healthy). intuition (subst; intuition congruence).
Qed.
Lemma turn_new active l active' : ck_status check = Degraded → name ∉ active →
  reports_turns checks (active ++ [name]) l active' → reports_turns round active ((name, check) :: l) active'.
Proof using Hne.
  intros Hs Hact [H1 H2]. unfold turns_degraded, stays_degraded in *. split.
  - intros n c. unfold turns_degraded. rewrite !elem_of_cons, H1, !pair_equal_spec, elem_of_app, list_elem_of_singleton. split.
    + intros [[-> ->]|(Hc & Hd & Ha)]; tauto.
    + intros ([[-> ->]|Hc] & Hd & Ha); [tauto|]. right. split_and!; [done..|]. intros [?|Hname]; [done|]. subst. by apply (Hne c).
  - intros n. unfold stays_degraded. rewrite H2, degraded_cons, healthy_cons, elem_of_app, list_elem_of_singleton, Hs.
    pose proof (not_again n Healthy). intuition (subst; intuition congruence).
Qed.
End loop.

(** A round alerts of the checks that turn degraded, and of no others; a name stays among
    the degraded ones until a check of it is healthy. *)
Theorem alerts_mark_transitions checks active :
  NoDup checks.*1 →
  (∀ n c, (n, c) ∈ (transitions checks active).1 ↔ (n, c) ∈ checks ∧ ck_status c = Degraded ∧ n ∉ active) ∧
  (∀ n, n ∈ (transitions checks active).2 ↔
    (∃ c, (n, c) ∈ checks ∧ ck_status c = Degraded) ∨ (n ∈ active ∧ ¬ ∃ c, (n, c) ∈ checks ∧ ck_status c = Healthy)).
Proof.
  change (NoDup checks.*1 → reports_turns checks active (transitions checks active).1 (transitions checks active).2).
  revert active. induction checks as [|[name check] checks IH]; intros active Hn.
  { unfold reports_turns, turns_degraded, stays_degraded. split; [intros n c|intros n]; cbn [transitions fst snd];
      repeat setoid_rewrite elem_of_nil; naive_solver. }
  rewrite fmap_cons in Hn. apply NoDup_cons in Hn as [Hnew Hn].
  assert (∀ c, (name, c) ∉ checks) as Hne.
  { intros c Hc. apply Hnew. apply list_elem_of_fmap. by exists (name, c). }
  cbn [transitions]. destruct (ck_status check) eqn:Es; [by apply turn_healthy, IH|].
  case_decide as Hact; [by apply turn_known; [..|apply IH]|].
  pose proof (turn_new name check checks Hne active _ _ Es Hact (IH (active ++ [name]) Hn)) as Ht.
  by destruct (transitions checks (active ++ [name])).
Qed.

(** ** The detector of reserves as a worker *)

Section reserves.
Context {W : Type} `{!PoolReserveStore W} `{!ContractReserveReader W} `{!DetectorWorld W}.
Notation pollIntervalMs := DEFAULT_POLL_INTERVAL_MS.

#[export] Instance detector_world : WatchdogWorld (detector W) := {|
  wd_now d := dw_now (de_world d);
  wd_turn d := dw_turn (de_world d);
  timed_out _ := false;
  probe_code _ := ret tt;
  depth_code _ := ret num_zero;
  raise_alert a := at_world (notify a);
|}.
(** As the application registers it. *)
Definition detector_worker : ManagedWorker (detector W) :=
  mkWorker "amm-reserve-divergence-detector" (λ d, Ok (getLastHeartbeatAt d)) "amm-reserve-divergence-detector"
    (getHeartbeatTimeoutMs pollIntervalMs) None.
Definition restart_detector : prog (detector W) unit :=
  AmmReserves.stop ;~ AmmReserves.start DEFAULT_INTERVAL_LEDGERS pollIntervalMs.

(** The heartbeat is that of the last check, not of the last poll: while the ledger has not
    advanced by fifty, polls leave it as it is, and half a minute after the check the
    watchdog restarts the detector. *)
Theorem polling_detector_restarted restart_call (d : detector W) t ledgers (w : W) (s : watchdog (detector W)) id st :
  de_checking d = false → de_lastHeartbeatAt d = Some t →
  Forall (λ n, 0 < n < de_lastCheckedLedger d + DEFAULT_INTERVAL_LEDGERS) ledgers →
  t + 30000 < dw_now w →
  wd_world s = with_world (run_in_turn ((λ n, forget (onNewLedger DEFAULT_INTERVAL_LEDGERS n)) <$> ledgers) d).2 w →
  wd_states s !! id = Some st → ws_worker st = detector_worker → ws_restarting st = false →
  cooled_down (dw_now w) st = true →
  (∃ details called, (look_at restart_call id st s).1 =
     LookRestart (dw_now w - t) details "amm-reserve-divergence-detector" called) ∧
  (run_in_turn ((λ n, forget (onNewLedger DEFAULT_INTERVAL_LEDGERS n)) <$> ledgers) d).1 = replicate (length ledgers) (Done (Ok tt)).
Proof.
  intros Hc Hh Hl Ht Hw Hst Hwk Hr Hcd.
  assert (run_in_turn ((λ n, forget (onNewLedger DEFAULT_INTERVAL_LEDGERS n)) <$> ledgers) d
    = (replicate (length ledgers) (Done (Ok tt)), d)) as Hrun.
  { clear Hw. induction Hl as [|n ledgers Hn _ IH]; [done|]. cbn [fmap list_fmap run_in_turn].
    assert (run (forget (onNewLedger DEFAULT_INTERVAL_LEDGERS n)) d = (Ok tt, d)) as ->.
    { unfold forget, pmap, onNewLedger. destruct (Z.leb_spec n 0); [lia|]. rewrite run_pbind. unfold bind. rewrite run_pbind.
      unfold bind, begin_check. rewrite run_await. unfold too_soon. rewrite Hc. cbn [orb].
      by destruct (Z.ltb_spec (n - de_lastCheckedLedger d) DEFAULT_INTERVAL_LEDGERS); [|lia]. }
    by rewrite IH. }
  rewrite Hrun in *. cbn [fst snd] in *. split; [|done]. unfold look_at. rewrite Hwk. cbn [detector_worker mw_getLastHeartbeatAt].
  unfold time_of. rewrite Hw. cbn [wd_now detector_world de_world with_world getLastHeartbeatAt de_lastHeartbeatAt].
  unfold getLastHeartbeatAt. cbn [de_lastHeartbeatAt with_world]. rewrite Hh. cbn [default from_option mw_heartbeatTimeoutMs].
  simpl. replace (Z.max 0 (dw_now w - t)) with (dw_now w - t) by lia.
  rewrite Hr, Hcd. destruct (Z.leb_spec (dw_now w - t) (getHeartbeatTimeoutMs pollIntervalMs)) as [Hle|_];
    [|by destruct (on_this_world _ _) as [called s']; eexists _, called].
  change (getHeartbeatTimeoutMs pollIntervalMs) with 30000 in Hle. lia.
Qed.
End reserves.

(** ** Concrete runs *)

(** A world that is its clock. *)
#[export] Instance clock_world : WatchdogWorld Z := {|
  wd_now := id;
  wd_turn _ := true;
  timed_out _ := false;
  probe_code _ := ret tt;
  depth_code _ := ret num_zero;
  raise_alert _ := ret true;
|}.
Notation logged_clock := (Z * list (string * Z))%type.
Definition stale_worker : ManagedWorker logged_clock := mkWorker "prices" (λ _, Ok (Some 80000)) "restartPrices" 10000 (Some 30000).
Definition sample_watchdog : watchdog logged_clock :=
  mkWatchdog (100000, [("restartPrices", 60000)]) [mkWorkerState stale_worker 0 (Some 60000) false] []
    [("prices", 0%nat)] [] None no_timers false None.
(** A restart that does its work in one statement, after the first [await]. *)
Definition call_prices : string → M Z unit := λ _, ret tt.
Definition restart_prices : string → prog Z unit := λ _, await (ret tt).
Notation sample_round := (runOnce [] 4000 (logged_call call_prices) (λ n, code_beside_log (restart_prices n))).
Definition rounds := run_in_turn [forget sample_round; forget sample_round] sample_watchdog.

(** The worker is restarted once, and one alert is raised. *)
Example restarted_once : (wd_world rounds.2).2 = [("restartPrices", 60000); ("restartPrices", 100000)].
Proof. vm_compute. reflexivity. Qed.
Example suppressed_then : (λ s, (λ p, (p.1, ck_message p.2)) <$> sn_checks s) <$> wd_snapshot rounds.2 =
  Some [("worker:prices", Some "Worker heartbeat is 20000ms old")].
Proof. vm_compute. reflexivity. Qed.

Lemma restarts_respect_cooldown_witness : ∃ new,
  times_of "restartPrices" (wd_world rounds.2).2 = [60000] ++ new ∧ spaced 30000 (Some 60000) new.
Proof.
  destruct (restarts_respect_cooldown [] 5000 4000 call_prices restart_prices sample_watchdog rounds.2 rounds.1 0
    (mkWorkerState stale_worker 0 (Some 60000) false)) as (st' & new & _ & _ & Ht & Hs & _).
  - done.
  - intros [|j] st; [done|done].
  - apply (run_in_turn_steps _ _ _ []). repeat constructor.
  - by exists new.
Defined.

(** A round at the restart of a worker. *)
Definition waiting := schedule [0; 0; 0]%nat [forget sample_round] sample_watchdog.
Example at_restart : (wd_checking waiting.2, (λ st, ws_restarting st) <$> wd_states waiting.2 !! 0%nat) = (true, Some true).
Proof. vm_compute. reflexivity. Qed.
Lemma waiting_round_stops_checks_witness :
  let s := waiting.2 in
  let s' := (run_in_turn [forget sample_round; stop; start [] 5000 4000 (logged_call call_prices)
    (λ n, code_beside_log (restart_prices n))] s).2 in
  wd_checking s' = true ∧ wd_snapshot s' = None.
Proof.
  intros s s'. destruct (waiting_round_stops_checks [] 5000 4000 (logged_call call_prices)
    (λ n, code_beside_log (restart_prices n)) s s'
    (run_in_turn [forget sample_round; stop; start [] 5000 4000 (logged_call call_prices)
      (λ n, code_beside_log (restart_prices n))] s).1) as (Hc & Hs & _).
  - vm_compute. reflexivity.
  - apply (run_in_turn_steps _ _ _ []). repeat constructor.
  - split; [exact Hc|]. etrans; [exact Hs|]. vm_compute. reflexivity.
Defined.

Definition deep_queue : WatchdogCheck := mkCheck Degraded 0 "" None None.
Lemma alerts_mark_transitions_witness :
  ("queue:a", deep_queue) ∈ (transitions [("queue:a", deep_queue); ("queue:b", deep_queue)] ["queue:b"]).1 ∧
  ("queue:b", deep_queue) ∉ (transitions [("queue:a", deep_queue); ("queue:b", deep_queue)] ["queue:b"]).1.
Proof.
  destruct (alerts_mark_transitions [("queue:a", deep_queue); ("queue:b", deep_queue)] ["queue:b"]) as [H _].
  - apply (bool_decide_unpack _). vm_compute. exact Logic.I.
  - rewrite !H. split; [split_and!; [by left|done|]|intros (_ & _ & Hn); apply Hn; by left].
    apply (bool_decide_unpack _). vm_compute. exact Logic.I.
Defined.

#[local] Instance witness_store : PoolReserveStore (svc (gmap nat PoolRow) Z) := prisma_store sample_store.
Definition checked_detector : detector (svc (gmap nat PoolRow) Z) :=
  mkDetector (mkSvc ∅ 1000) None no_timers false 100 (Some 1000).
Definition watching : watchdog (detector (svc (gmap nat PoolRow) Z)) :=
  mkWatchdog (with_world checked_detector (mkSvc ∅ 32000)) [mkWorkerState detector_worker 0 None false] []
    [("amm-reserve-divergence-detector", 0%nat)] [] None no_timers false None.
Lemma polling_detector_restarted_witness :
  ∃ details called, (look_at (λ _, ret tt) 0 (mkWorkerState detector_worker 0 None false) watching).1 =
    LookRestart 31000 details "amm-reserve-divergence-detector" called.
Proof.
  refine (proj1 (polling_detector_restarted (λ _, ret tt) checked_detector 1000 [101; 102; 106] (mkSvc ∅ 32000) watching 0
    (mkWorkerState detector_worker 0 None false) eq_refl eq_refl _ _ _ eq_refl eq_refl eq_refl eq_refl));
    [repeat constructor|done|done].
Defined.
