(* ===== verification/Ciphers.v ===== *)
(** * Encryption at rest ([crypto/encryption.ts])

    AES-256-GCM over the primitives of Node's crypto: the vector, the ciphertext and the tag
    as one text. Binary data is its text in lower-case hexadecimal. Proved from what is known
    of the primitives: what a key encrypted, it decrypts. *)

From Stdlib Require Import Ascii.
From S2P Require Import Prelude JsNumber JsString JsDecimal JsDigits JsValue.

Local Open Scope Z_scope.

Definition is_hex_digit (c : ascii) : bool := bool_decide (is_Some (hex_value c)).
(** SHA-256 and AES-256-GCM of Node, on texts in hexadecimal. *)
Class Ciphers (H : Type) := {
  sha256 : string → string;
  random_iv : M H string;
  gcm_encrypt : string → string → string → string * string;
  gcm_decrypt : string → string → string → string → exc string;
}.

Definition IV_LENGTH : nat := 12.
Definition TAG_LENGTH : nat := 16.

(** [Buffer.from(text, "hex")]: up to the first pair that is not hexadecimal. *)
Fixpoint hex_pairs (l : list ascii) : list ascii :=
  match l with
  | a :: b :: l' => if is_hex_digit a && is_hex_digit b then lower_ascii a :: lower_ascii b :: hex_pairs l' else []
  | _ => []
  end.

(** Where the tag starts: [buffer.length - TAG_LENGTH], which counts from the end where it is negative. *)
Definition tag_start (n : nat) : nat :=
  if (n <? 2 * TAG_LENGTH)%nat then (n - (2 * TAG_LENGTH - n))%nat else (n - 2 * TAG_LENGTH)%nat.

Section encryption.
Context {H : Type} `{!Ciphers H}.

(** The text of a plaintext under a key of 32 bytes, and what a text is under it. *)
Definition seal (key plain : string) : M H string :=
  iv <- random_iv ;;
  let '(encrypted, tag) := gcm_encrypt key iv plain in ret (iv +:+ encrypted +:+ tag).
Definition unseal (key encryptedText : string) : exc string :=
  let buffer := hex_pairs (chars encryptedText) in
  let iv := take (2 * IV_LENGTH) buffer in
  let tag := drop (tag_start (length buffer)) buffer in
  let ciphertext := drop (2 * IV_LENGTH) (take (tag_start (length buffer)) buffer) in
  gcm_decrypt key (text iv) (text ciphertext) (text tag).

Definition encrypt (plain masterKey : string) : M H string := seal (sha256 masterKey) plain.
Definition decrypt (encryptedText masterKey : string) : exc string :=
  if decide (encryptedText = "") then Throw (Error "encryptedText must be provided")
  else if decide (masterKey = "") then Throw (Error "masterKey must be provided")
  else match unseal (sha256 masterKey) encryptedText with
       | Ok plain => Ok plain
       | Throw e => Throw (Error ("Decryption failed: " +:+ err_message e))
       end.
End encryption.

(** What is known of AES-GCM: a text is decrypted with the key, the vector and the tag it
    was encrypted with; and how its parts are written. *)
Definition lower_hex (s : string) : Prop := Forall (λ c, is_hex_digit c = true ∧ lower_ascii c = c) (chars s).
Class GcmLaws (H : Type) `{!Ciphers H} : Prop := {
  gcm_inverse key iv plain : let '(c, tag) := gcm_encrypt key iv plain in gcm_decrypt key iv c tag = Ok plain;
  gcm_hex key iv plain : let '(c, tag) := gcm_encrypt key iv plain in
    lower_hex c ∧ Nat.even (String.length c) = true ∧ lower_hex tag ∧ String.length tag = (2 * TAG_LENGTH)%nat;
  iv_hex (h h' : H) iv : random_iv h = (Ok iv, h') → lower_hex iv ∧ String.length iv = (2 * IV_LENGTH)%nat;
}.

Lemma hex_pairs_id l : Forall (λ c, is_hex_digit c = true ∧ lower_ascii c = c) l → Nat.even (length l) = true → hex_pairs l = l.
Proof.
  induction l as [l IH] using (induction_ltof1 _ length). unfold ltof in IH. intros Hl He.
  destruct l as [|a [|b l]]; [done|done|]. inversion Hl as [|? ? [Ha La] Hl']; subst. inversion Hl' as [|? ? [Hb Lb] Hl'']; subst.
  simpl. rewrite Ha, Hb, La, Lb. simpl. by rewrite IH by (simpl; first [lia|done]).
Qed.
Lemma chars_app s1 s2 : chars (s1 +:+ s2) = chars s1 ++ chars s2.
Proof. induction s1 as [|c s1 IH]; [done|]. simpl. by rewrite <-IH. Qed.
Lemma length_chars s : length (chars s) = String.length s.
Proof. induction s as [|c s IH]; simpl; congruence. Qed.

(** A text is decrypted with the key it was encrypted with. *)
Lemma unseal_seal {H} `{!Ciphers H} `{!GcmLaws H} key plain (h h' : H) c :
  seal key plain h = (Ok c, h') → c ≠ "" ∧ unseal key c = Ok plain.
Proof.
  unfold seal, bind. destruct (random_iv h) as [[iv|e] h1] eqn:Eiv; [|done].
  destruct (gcm_encrypt key iv plain) as [ct tag] eqn:Eg. intros [= <- <-].
  destruct (iv_hex _ _ _ Eiv) as [Hiv Liv]. pose proof (gcm_hex key iv plain) as Hg.
  pose proof (gcm_inverse key iv plain) as Hinv. rewrite Eg in Hg, Hinv. destruct Hg as (Hct & Ect & Htag & Ltag).
  split; [intros E; apply (f_equal String.length) in E; rewrite <-length_chars, chars_app, length_app, length_chars, Liv in E; done|].
  unfold unseal. rewrite hex_pairs_id, !chars_app.
  - rewrite !length_app, !length_chars, Liv, Ltag. rewrite take_app_length' by by rewrite length_chars, Liv.
    replace (tag_start _) with (2 * IV_LENGTH + String.length ct)%nat
      by (unfold tag_start; destruct (Nat.ltb_spec (2 * IV_LENGTH + (String.length ct + 2 * TAG_LENGTH)) (2 * TAG_LENGTH)); lia).
    rewrite app_assoc, drop_app_length' by (rewrite length_app, !length_chars; lia).
    rewrite take_app_length' by (rewrite length_app, !length_chars; lia).
    rewrite drop_app_length' by by rewrite length_chars, Liv. by rewrite !text_chars, Hinv.
  - rewrite !chars_app. unfold lower_hex in *. by rewrite !Forall_app.
  - rewrite !chars_app, !length_app, !length_chars, Liv, Ltag. rewrite !Nat.even_add, Ect. done.
Qed.
Lemma decrypt_encrypt {H} `{!Ciphers H} `{!GcmLaws H} plain masterKey (h h' : H) c :
  masterKey ≠ "" → encrypt plain masterKey h = (Ok c, h') → decrypt c masterKey = Ok plain.
Proof.
  intros Hk [Hc E]%unseal_seal. unfold decrypt. rewrite !decide_False by done. by rewrite E.
Qed.

(** ** Ciphers that only write in hexadecimal, which show that the laws hold together *)

Definition byte_hex (c : ascii) : list ascii := [hex_digit (nat_of_ascii c / 16); hex_digit (nat_of_ascii c mod 16)].
Fixpoint hex_text (l : list ascii) : list ascii :=
  match l with
  | a :: b :: l' =>
      ascii_of_nat (Z.to_nat (16 * default 0 (hex_value a) + default 0 (hex_value b))) :: hex_text l'
  | _ => []
  end.
Definition zeros (n : nat) : string := text (replicate n "0"%char).
Definition hex_ciphers {H} : Ciphers H := {|
  sha256 key := key;
  random_iv := ret (zeros (2 * IV_LENGTH));
  gcm_encrypt key iv plain := (text (mjoin (byte_hex <$> chars plain)), zeros (2 * TAG_LENGTH));
  gcm_decrypt key iv c tag := Ok (text (hex_text (chars c)));
|}.

Lemma byte_hex_ok c : hex_text (byte_hex c) = [c] ∧ Forall (λ d, is_hex_digit d = true ∧ lower_ascii d = d) (byte_hex c).
Proof. destruct c as [[] [] [] [] [] [] [] []]; (split; [vm_compute; reflexivity|repeat constructor]). Qed.
Lemma hex_text_app c l : hex_text (byte_hex c ++ l) = hex_text (byte_hex c) ++ hex_text l.
Proof. done. Qed.
Lemma hex_text_bytes l : hex_text (mjoin (byte_hex <$> l)) = l.
Proof.
  induction l as [|c l IH]; [done|]. rewrite fmap_cons.
  change (hex_text (byte_hex c ++ mjoin (byte_hex <$> l)) = c :: l).
  rewrite hex_text_app, IH. by destruct (byte_hex_ok c) as [-> _].
Qed.
Lemma hex_pairs_lower l : Forall (λ d, is_hex_digit d = true ∧ lower_ascii d = d) (mjoin (byte_hex <$> l)).
Proof. induction l as [|c l IH]; [constructor|]. rewrite fmap_cons. apply Forall_app. split; [apply byte_hex_ok|exact IH]. Qed.
Lemma hex_pairs_even l : Nat.even (length (mjoin (byte_hex <$> l))) = true.
Proof. induction l as [|c l IH]; [done|exact IH]. Qed.
#[export] Instance hex_laws {H} : @GcmLaws H hex_ciphers.
Proof.
  split.
  - intros key iv plain. cbn. by rewrite chars_text, hex_text_bytes, text_chars.
  - intros key iv plain. cbn. unfold lower_hex. rewrite <-!length_chars, !chars_text. split_and!; [apply hex_pairs_lower|apply hex_pairs_even| |done].
    repeat constructor.
  - intros h h' iv [= <- <-]. split; [repeat constructor|done].
Qed.
