(* ===== verification/KycTypes.v ===== *)
(** * Customers of SEP-12 ([services/kycTypes.ts], [services/kycEncryption.ts])

    The statuses of a customer and their transitions, the fields a customer provides,
    accounts and memos, and the encryption of the stored fields with [Ciphers]. Objects are
    lists of their properties, the members of [Object.prototype] aside. ACCEPTED and
    REJECTED have no way out. *)

From Stdlib Require Import Ascii.
From S2P Require Import Prelude JsNumber JsString JsDecimal JsDigits JsMap JsValue Ciphers.

Local Open Scope Z_scope.

(** ** Statuses *)

Inductive Sep12Status := ACCEPTED | PROCESSING | NEEDS_INFO | REJECTED.
#[export] Instance sep12_status_eq_dec : EqDecision Sep12Status.
Proof. solve_decision. Defined.

Definition status_name (s : Sep12Status) : string :=
  match s with
  | ACCEPTED => "ACCEPTED" | PROCESSING => "PROCESSING" | NEEDS_INFO => "NEEDS_INFO" | REJECTED => "REJECTED"
  end.
Definition SEP12_STATUSES : list Sep12Status := [PROCESSING; NEEDS_INFO; ACCEPTED; REJECTED].
Definition SEP12_STATUS_TRANSITIONS (s : Sep12Status) : list Sep12Status :=
  match s with
  | PROCESSING => [ACCEPTED; NEEDS_INFO; REJECTED]
  | NEEDS_INFO => [PROCESSING; ACCEPTED; REJECTED]
  | ACCEPTED | REJECTED => []
  end.

Definition status_of_text (s : string) : option Sep12Status :=
  find (λ st, bool_decide (status_name st = s)) SEP12_STATUSES.
Definition isSep12Status (value : jsval) : bool :=
  match value with JStr s => bool_decide (is_Some (status_of_text s)) | _ => false end.
Definition asSep12Status (value : jsval) : Sep12Status :=
  match value with JStr s => default PROCESSING (status_of_text s) | _ => PROCESSING end.

Definition canTransition (from to : Sep12Status) : bool :=
  bool_decide (from = to) || includes (SEP12_STATUS_TRANSITIONS from) to.

(** Errors carry the name of their class. *)
Definition Sep12ValidationError (message : string) : js_error := mk_error message (Some "Sep12ValidationError") None.
Definition Sep12NotFoundError (message : string) : js_error := mk_error message (Some "Sep12NotFoundError") None.
Definition Sep12TransitionError (message : string) : js_error := mk_error message (Some "Sep12TransitionError") None.
Definition KycEncryptionError (message : string) : js_error := mk_error message (Some "KycEncryptionError") None.
Definition KycAnchorError (message : string) : js_error := mk_error message (Some "KycAnchorError") None.

Definition applyTransition (from to : Sep12Status) : exc Sep12Status :=
  if canTransition from to then Ok to
  else Throw (Sep12TransitionError ("Invalid customer status transition: " +:+ status_name from +:+ " -> " +:+ status_name to)).

(** ** Fields *)

Record Sep12FieldSpec := mkSpec {
  fs_type : string;
  fs_description : string;
  fs_choices : option (list string);
  fs_optional : option bool;
}.
Definition plain_spec (type description : string) : Sep12FieldSpec := mkSpec type description None None.
Notation KycPayload := (list (string * jsval)).

Definition REQUIRED_KYC_FIELDS : list string := ["first_name"; "last_name"; "email_address"; "id_type"; "id_number"].
Definition DEFAULT_FIELD_SPECS : list (string * Sep12FieldSpec) :=
  [("first_name", plain_spec "string" "Customer's first name");
   ("last_name", plain_spec "string" "Customer's last name");
   ("email_address", plain_spec "string" "Customer's email address");
   ("id_type", mkSpec "string" "Government-issued identification document type"
      (Some ["passport"; "drivers_license"; "national_id"]) None);
   ("id_number", plain_spec "string" "Government-issued identification document number");
   ("date_of_birth", mkSpec "date" "Customer's date of birth (YYYY-MM-DD)" None (Some true));
   ("address", plain_spec "string" "Customer's residential address")].
Definition SEP12_RESERVED_KEYS : list string :=
  ["id"; "account"; "memo"; "memo_type"; "type"; "fields"; "provided_fields"; "status"; "message"].

Definition underscore_char : ascii := "_"%char.
Definition capital (part : string) : string :=
  match part with "" => "" | String c rest => String (upper_ascii c) rest end%string.
Definition formatFieldLabel (name : string) : string := join " " (capital <$> split_on underscore_char name "").
Definition fieldSpecsFor (names : list string) : list (string * Sep12FieldSpec) :=
  foldl (λ specs name,
    map_set specs name (default (plain_spec "string" (formatFieldLabel name)) (map_get DEFAULT_FIELD_SPECS name))) [] names.
(** As JSON, the way the database and the responses hold it. *)
Definition spec_json (s : Sep12FieldSpec) : jsval :=
  JObj ([("type", JStr (fs_type s)); ("description", JStr (fs_description s))] ++
        match fs_choices s with Some l => [("choices", JArr (JStr <$> l))] | None => [] end ++
        match fs_optional s with Some b => [("optional", JBool b)] | None => [] end).
Definition fields_json (specs : list (string * Sep12FieldSpec)) : jsval := JObj (prod_map id spec_json <$> specs).

Definition is_blank (v : jsval) : bool :=
  match v with
  | JUndef | JNull => true
  | JStr s => bool_decide (trim s = "")
  | _ => false
  end.
Definition missingRequiredFields (payload : KycPayload) : list string :=
  filter (λ name, is_blank (default JUndef (map_get payload name)) = true) REQUIRED_KYC_FIELDS.

Example missing_sample : missingRequiredFields [("first_name", JStr "A"); ("last_name", JStr " "); ("id_type", JNull);
  ("id_number", JNum num_one)] = ["last_name"; "email_address"; "id_type"].
Proof. vm_compute. reflexivity. Qed.
Example label_sample : formatFieldLabel "tax_id_number" = "Tax Id Number".
Proof. vm_compute. reflexivity. Qed.

(** ** Identities *)

Inductive MemoType := MemoId | MemoText | MemoHash.
Definition memo_type_name (m : MemoType) : string :=
  match m with MemoId => "id" | MemoText => "text" | MemoHash => "hash" end.
Definition MEMO_TYPES : list MemoType := [MemoId; MemoText; MemoHash].
Definition memo_type_of_text (s : string) : option MemoType := find (λ m, bool_decide (memo_type_name m = s)) MEMO_TYPES.

(** [[A-Z2-7]] *)
Definition is_base32 (c : ascii) : bool :=
  let n := nat_of_ascii c in ((65 <=? n) && (n <=? 90) || (50 <=? n) && (n <=? 55))%nat.
Definition isValidStellarAccount (value : string) : bool :=
  match chars value with
  | c :: l =>
      forallb is_base32 l &&
      (bool_decide (c = "G"%char) && (length l =? 55)%nat || bool_decide (c = "M"%char) && (length l =? 68)%nat)
  | [] => false
  end.

Definition parseMemoType (value : jsval) : exc (option MemoType) :=
  match value with
  | JUndef | JNull => Ok None
  | JStr s =>
      if decide (s = "") then Ok None
      else match memo_type_of_text (toLowerCase s) with
           | Some m => Ok (Some m)
           | None => Throw (Sep12ValidationError ("'memo_type' must be one of: " +:+ join ", " (memo_type_name <$> MEMO_TYPES)))
           end
  | _ => Throw (Sep12ValidationError "'memo_type' must be a string")
  end.
Definition validateMemo (memo : string) (memoType : MemoType) : exc unit :=
  match memoType with
  | MemoId =>
      if forallb is_digit (chars memo) && negb (bool_decide (memo = "")) then Ok tt
      else Throw (Sep12ValidationError "'memo' must be a numeric string when 'memo_type' is 'id'")
  | MemoHash =>
      if forallb is_hex_digit (chars memo) && (String.length memo =? 64)%nat then Ok tt
      else Throw (Sep12ValidationError "'memo' must be a 64-character hex string when 'memo_type' is 'hash'")
  | MemoText =>
      if (28 <? String.length memo)%nat then
        Throw (Sep12ValidationError "'memo' must be at most 28 bytes when 'memo_type' is 'text'")
      else Ok tt
  end.

(** ** Encryption *)

Section encryption.
Context {H : Type} `{!Ciphers H}.

(** The keys: the override, and two variables of the environment. *)
Record KycKeys := mkKeys {
  kk_override : option string;
  kk_KYC_ENCRYPTION_KEY : option string;
  kk_VAULT_MASTER_KEY : option string;
}.
Context (JSON_parse : string → exc jsval) (keys : KycKeys).

Definition env_text (o : option string) : string := default "" (trim <$> o).
Definition resolveKey : string :=
  str_or (env_text (kk_override keys)) (str_or (env_text (kk_KYC_ENCRYPTION_KEY keys)) (env_text (kk_VAULT_MASTER_KEY keys))).
Definition encryption_isConfigured : bool := truthy_str resolveKey.
Definition key_missing : js_error := KycEncryptionError "KYC_ENCRYPTION_KEY (or VAULT_MASTER_KEY) is not configured".

Definition encryptPayload (payload : KycPayload) : M H string :=
  if decide (resolveKey = "") then throw key_missing
  else encrypt (default "undefined" (JSON_stringify (JObj payload))) resolveKey.
Definition decryptPayload (ciphertext : string) : exc KycPayload :=
  if decide (resolveKey = "") then Throw key_missing
  else if decide (ciphertext = "") then Throw (KycEncryptionError "Encrypted KYC payload is empty")
  else match (t ← decrypt ciphertext resolveKey; JSON_parse t) with
       | Throw e => Throw (KycEncryptionError ("Unable to decrypt KYC payload: " +:+ err_message e))
       | Ok (JObj payload) => Ok payload
       | Ok _ => Throw (KycEncryptionError "Decrypted KYC payload is not a JSON object")
       end.
End encryption.

(** ** Facts *)

Lemma transition_from_terminal to : canTransition ACCEPTED to = bool_decide (ACCEPTED = to) ∧
  canTransition REJECTED to = bool_decide (REJECTED = to).
Proof. by destruct to. Qed.
