(* ===== verification/Kyc.v ===== *)
(** * The customers of SEP-12 ([services/kycService.ts], [kycStore.ts], [kycAnchorClient.ts], [routes/kyc.ts])

    A customer is looked up, created or updated, and deleted; the fields are kept encrypted
    and forwarded to an anchor, whose verdict becomes the status. The calls are programs of
    [Async] over the table of customers and the outside world; the vocabulary is that of
    [KycTypes]. Proved: what is put is read back, every stored payload is a text the key
    decrypts, in every interleaving, and calls that follow each other never take back a
    verdict. Calls that overlap do, and they create several customers of one account. *)

From Stdlib Require Import Ascii.
From S2P Require Import Prelude JsNumber JsString JsDecimal JsDigits JsMap JsValue Prisma Service Async Ciphers KycTypes.

Local Open Scope Z_scope.

Record KycCustomerRow := mkCustomer {
  kr_id : string;
  kr_account : option string;
  kr_memo : option string;
  kr_memoType : option string;
  kr_status : string;
  kr_message : option string;
  kr_encryptedPayload : string;
  kr_fieldsRequested : jsval;
  kr_anchorReference : option string;
  kr_provider : option string;
  kr_createdAt : Z;
  kr_updatedAt : Z;
}.

Record AnchorSubmission := mkSubmission {
  as_reference : string;
  as_account : option string;
  as_memo : option string;
  as_memoType : option string;
  as_encryptedPayload : string;
  as_fields : list string;
}.
(** What [fetch] answered: [ok], the status, and what [json()] gives. *)
Record AnchorAnswer := mkAnchorAnswer { aa_ok : bool; aa_status : Z; aa_json : exc jsval }.

(** The clock of the database, identifiers, and the anchor. *)
Class KycWorld (H : Type) := {
  database_now : M H Z;
  randomUUID : M H string;
  anchor_fetch : string → AnchorSubmission → M H AnchorAnswer;
}.

Notation fields_map := (list (string * jsval)).
(** [{ ...a, ...b }] *)
Definition spread (a b : fields_map) : fields_map := foldl (λ o kv, map_set o kv.1 kv.2) a b.
Definition asFieldsOrNull (value : jsval) : option fields_map :=
  match value with JObj f => Some f | _ => None end.
Definition fields_or_null (f : option fields_map) : jsval := match f with Some f => JObj f | None => JNull end.
Definition not_reserved (kv : string * jsval) : Prop := kv.1 ∉ SEP12_RESERVED_KEYS.
#[export] Instance not_reserved_dec kv : Decision (not_reserved kv).
Proof. unfold not_reserved. apply _. Defined.

(** ** Requests *)

Record PutInput := mkPutInput {
  pi_id : option string;
  pi_account : option string;
  pi_memo : option string;
  pi_memoType : option MemoType;
  pi_fields : fields_map;
}.

Definition invalid {A} (message : string) : exc A := Throw (Sep12ValidationError message).
Definition check_memo (memo : option string) (memoType : option MemoType) : exc unit :=
  match memo, memoType with
  | Some _, None => invalid "'memo_type' is required when 'memo' is provided"
  | None, Some _ => invalid "'memo' is required when 'memo_type' is provided"
  | Some m, Some t => validateMemo m t
  | None, None => Ok tt
  end.
(** A property that, where present, is a text with something in it. *)
Definition text_property (v : jsval) (name : string) : exc (option string) :=
  match v with
  | JUndef => Ok None
  | JStr s => if decide (trim s = "") then invalid ("'" +:+ name +:+ "' must be a non-empty string") else Ok (Some (trim s))
  | _ => invalid ("'" +:+ name +:+ "' must be a non-empty string")
  end.
Definition invalid_account : string := "'account' must be a valid Stellar account id".
Definition memo_property (v : jsval) : exc (option string) :=
  match v with
  | JUndef | JNull => Ok None
  | JStr s => Ok (if decide (s = "") then None else Some (trim s))
  | _ => invalid "'memo' must be a string"
  end.
Definition parsePutBody (body : jsval) : exc PutInput :=
  match body with
  | JObj record =>
      id ← text_property (field record "id") "id";
      account ← text_property (field record "account") "account";
      _ ← match account with Some a => if isValidStellarAccount a then Ok tt else invalid invalid_account | None => Ok tt end;
      _ ← match id, account with
          | None, None => invalid "Either 'id' or 'account' must be supplied to create or update a customer"
          | _, _ => Ok tt
          end;
      memoType ← parseMemoType (field record "memo_type");
      memo ← memo_property (field record "memo");
      _ ← check_memo memo memoType;
      Ok (mkPutInput id account memo memoType (spread [] (filter not_reserved record)))
  | _ => invalid "Request body must be a JSON object"
  end.

Record GetCustomerParams := mkGetParams {
  gp_id : option string;
  gp_account : option string;
  gp_memo : option string;
  gp_memoType : option MemoType;
}.

(** ** Answers *)

Record Sep12CustomerResponse := mkResponse {
  cr_id : string;
  cr_status : Sep12Status;
  cr_provided_fields : list (string * Sep12FieldSpec);
  cr_message : option string;
  cr_fields : option fields_map;
  cr_values : fields_map;
}.
Record PutCustomerResult := mkPutResult {
  pr_id : string;
  pr_status : Sep12Status;
  pr_message : option string;
  pr_fields : option fields_map;
}.

Definition is_provided (v : jsval) : bool :=
  match v with JUndef | JNull => false | JStr s => negb (bool_decide (s = "")) | _ => true end.
(** Each with the type and the description of its entry; its status is ["provided"]. *)
Definition buildProvidedFields (payload : fields_map) : list (string * Sep12FieldSpec) :=
  foldl (λ provided kv,
    if decide (not_reserved kv) then
      if is_provided kv.2 then
        let spec := default (plain_spec "string" kv.1) (map_get DEFAULT_FIELD_SPECS kv.1) in
        map_set provided kv.1 (plain_spec (fs_type spec) (fs_description spec))
      else provided
    else provided) [] payload.

(** Pick the status to persist. *)
Definition negotiateStatus (current desired : Sep12Status) : Sep12Status :=
  if decide (desired = current) then current
  else if canTransition current desired then desired else current.

(** ** The service *)

Section service.
Context {D H : Type} `{!PrismaTable string KycCustomerRow D} `{!KycWorld H} `{!Ciphers H}.
(** The URL given to the client and that of the environment. *)
Context (JSON_parse : string → exc jsval) (keys : KycKeys) (forwardUrl KYC_ANCHOR_URL : option string).
Notation state := (svc D H).
Notation call := (prog state).

(** *** The anchor *)
Record AnchorDecision := mkDecision {
  ad_status : Sep12Status;
  ad_message : option string;
  ad_anchorReference : option string;
  ad_provider : option string;
}.
Definition resolveUrl : string := str_or (env_text forwardUrl) (env_text KYC_ANCHOR_URL).
Definition text_of (v : jsval) : option string := match v with JStr s => Some s | _ => None end.
Definition read_decision (body : jsval) : AnchorDecision :=
  mkDecision (asSep12Status (prop body "status")) (text_of (prop body "message"))
    (match text_of (prop body "id") with Some id => Some id | None => text_of (prop body "anchor_reference") end)
    (Some "anchor").
Definition submit (submission : AnchorSubmission) : call AnchorDecision :=
  if decide (resolveUrl = "") then pret (mkDecision PROCESSING None None (Some "local"))
  else
    let reference := as_reference submission in
    response <~ pcatch (await (on_env (anchor_fetch resolveUrl submission)))
                  (λ error, pthrow (KycAnchorError ("KYC anchor forwarding failed for " +:+ reference +:+ ": "
                                                    +:+ err_message error))) ;;
    if negb (aa_ok response) then
      pthrow (KycAnchorError ("KYC anchor forwarding returned HTTP " +:+ String_num (num_of_Z (aa_status response)) +:+ " for " +:+ reference))
    else
      body <~ pcatch (await (lift_exc (aa_json response)))
                (λ _, pthrow (KycAnchorError ("KYC anchor returned a non-JSON response for " +:+ reference))) ;;
      pret (read_decision body).

(** *** The store *)
Definition findById (id : string) : call (option KycCustomerRow) := await (query (findUnique id)).
Definition has_identity (account : string) (memoType memo : option string) (r : KycCustomerRow) : bool :=
  bool_decide (kr_account r = Some account ∧ kr_memoType r = memoType ∧ kr_memo r = memo).
Definition newer (best : option KycCustomerRow) (r : KycCustomerRow) : option KycCustomerRow :=
  match best with
  | Some b => if kr_createdAt b <? kr_createdAt r then Some r else best
  | None => Some r
  end.
Definition findByIdentity (account : string) (memoType memo : option string) : call (option KycCustomerRow) :=
  await (query (λ d, found ← findAll d; Ok (foldl newer None (filter (λ r, has_identity account memoType memo r = true) found)))).

Record KycCustomerUpdateData := mkUpdate {
  ku_status : Sep12Status;
  ku_message : option string;
  ku_encryptedPayload : string;
  ku_fieldsRequested : option fields_map;
  ku_anchorReference : option string;
  ku_provider : option string;
}.
Record KycIdentity := mkIdentity {
  ki_id : string;
  ki_account : option string;
  ki_memo : option string;
  ki_memoType : option string;
}.
Definition new_customer (k : KycIdentity) (u : KycCustomerUpdateData) (t : Z) : KycCustomerRow :=
  mkCustomer (ki_id k) (ki_account k) (ki_memo k) (ki_memoType k) (status_name (ku_status u)) (ku_message u)
    (ku_encryptedPayload u) (fields_or_null (ku_fieldsRequested u)) (ku_anchorReference u) (ku_provider u) t t.
Definition updated_customer (u : KycCustomerUpdateData) (t : Z) (r : KycCustomerRow) : KycCustomerRow :=
  mkCustomer (kr_id r) (kr_account r) (kr_memo r) (kr_memoType r) (status_name (ku_status u)) (ku_message u)
    (ku_encryptedPayload u) (fields_or_null (ku_fieldsRequested u)) (ku_anchorReference u) (ku_provider u)
    (kr_createdAt r) t.
(** [@@unique([account, memoType, memo])]: rows with a [NULL] among them do not clash. *)
Definition clashes (a b : KycCustomerRow) : bool :=
  bool_decide (is_Some (kr_account a) ∧ is_Some (kr_memoType a) ∧ is_Some (kr_memo a) ∧
               kr_account a = kr_account b ∧ kr_memoType a = kr_memoType b ∧ kr_memo a = kr_memo b).
Definition insert_customer (r : KycCustomerRow) : M D KycCustomerRow := λ d,
  if existsb (clashes r) (map_to_list (rows d)).*2 then (Throw (mk_error "Unique constraint failed" (Some P2002) None), d)
  else createUnique (kr_id r) r d.
Definition store_create (k : KycIdentity) (u : KycCustomerUpdateData) : M state KycCustomerRow :=
  t <- on_env database_now ;; on_db (insert_customer (new_customer k u t)).
Definition store_update (id : string) (u : KycCustomerUpdateData) : M state KycCustomerRow :=
  t <- on_env database_now ;; on_db (update id (updated_customer u t)).
Definition delete_row (id : string) : M D KycCustomerRow := λ d,
  match rows d !! id with
  | None => (Throw (mk_error "Record to delete does not exist." (Some "P2025") None), d)
  | Some r =>
      match deleteMany (λ r, bool_decide (kr_id r = id)) d with
      | (Ok _, d') => (Ok r, d')
      | (Throw e, d') => (Throw e, d')
      end
  end.
Definition store_delete (id : string) : call KycCustomerRow := await (on_db (delete_row id)).

(** *** Reading *)
Definition resolveCustomer (params : GetCustomerParams) : call (option KycCustomerRow) :=
  match gp_id params with
  | Some (String _ _ as id) => findById id
  | _ =>
    match gp_account params with
    | Some (String _ _ as account) =>
        if isValidStellarAccount account then
          Done (check_memo (gp_memo params) (gp_memoType params)) ;~
          findByIdentity account (memo_type_name <$> gp_memoType params) (gp_memo params)
        else Done (invalid invalid_account)
    | _ => Done (invalid "Either 'id' or 'account' must be supplied")
    end
  end.
Definition buildResponse (row : KycCustomerRow) : exc Sep12CustomerResponse :=
  payload ← decryptPayload JSON_parse keys (kr_encryptedPayload row);
  let status := asSep12Status (JStr (kr_status row)) in
  Ok (mkResponse (kr_id row) status (buildProvidedFields payload)
        (if truthy_opt (kr_message row) then kr_message row else None)
        (if decide (status = NEEDS_INFO) then asFieldsOrNull (kr_fieldsRequested row) else None)
        (spread [] (filter not_reserved payload))).
Definition getCustomer (params : GetCustomerParams) : call (option Sep12CustomerResponse) :=
  row <~ resolveCustomer params ;;
  match row with
  | None => pret None
  | Some row => Done (response ← buildResponse row; Ok (Some response))
  end.

(** *** Creating and updating *)

(** What a [PUT] is going to write. *)
Record PutPlan := mkPlan {
  pp_existing : option KycCustomerRow;
  pp_identity : KycIdentity;
  pp_data : KycCustomerUpdateData;
}.
(** The existing row, the merged fields and their encrypted text. *)
Record PutDraft := mkDraft {
  pd_existing : option KycCustomerRow;
  pd_payload : fields_map;
  pd_encrypted : string;
  pd_reference : string;
}.
Definition or_else {A} (a b : option A) : option A := match a with Some _ => a | None => b end.

(** The bytes and the identifier drawn on the way are no one else's. *)
Definition draft_put (input : PutInput) : call PutDraft :=
  existing <~ match pi_id input with
              | Some id => findById id
              | None => findByIdentity (default "" (pi_account input)) (memo_type_name <$> pi_memoType input) (pi_memo input)
              end ;;
  match pi_id input, existing with
  | Some id, None => pthrow (Sep12NotFoundError ("Unknown customer id '" +:+ id +:+ "'"))
  | _, _ =>
      currentPayload <~ Done (match existing with
                              | Some row => decryptPayload JSON_parse keys (kr_encryptedPayload row)
                              | None => Ok []
                              end) ;;
      let mergedPayload := spread (spread [] currentPayload) (pi_fields input) in
      encryptedPayload <~ await (on_env (encryptPayload keys mergedPayload)) ;;
      reference <~ match existing with Some row => pret (kr_id row) | None => await (on_env randomUUID) end ;;
      pret (mkDraft existing mergedPayload encryptedPayload reference)
  end.
Definition put_identity (input : PutInput) (d : PutDraft) : KycIdentity :=
  let old (f : KycCustomerRow → option string) := pd_existing d ≫= f in
  mkIdentity (pd_reference d) (or_else (pi_account input) (old kr_account)) (or_else (pi_memo input) (old kr_memo))
    (or_else (memo_type_name <$> pi_memoType input) (old kr_memoType)).
Definition current_status (existing : option KycCustomerRow) : Sep12Status :=
  match existing with Some row => asSep12Status (JStr (kr_status row)) | None => PROCESSING end.
Definition decide_put (input : PutInput) (d : PutDraft) : call PutPlan :=
  let identity := put_identity input d in
  let anchorReference := pd_existing d ≫= kr_anchorReference in
  let provider := pd_existing d ≫= kr_provider in
  let current := current_status (pd_existing d) in
  match missingRequiredFields (pd_payload d) with
  | (_ :: _) as missing =>
      pret (mkPlan (pd_existing d) identity
        (mkUpdate (negotiateStatus current NEEDS_INFO) (Some "Additional customer information is required.")
           (pd_encrypted d) (Some (prod_map id spec_json <$> fieldSpecsFor missing)) anchorReference provider))
  | [] =>
      decision <~ submit (mkSubmission (pd_reference d) (ki_account identity) (ki_memo identity) (ki_memoType identity)
                            (pd_encrypted d) (pd_payload d).*1) ;;
      pret (mkPlan (pd_existing d) identity
        (mkUpdate (negotiateStatus current (ad_status decision)) (ad_message decision) (pd_encrypted d) None
           (or_else (ad_anchorReference decision) anchorReference) (or_else (ad_provider decision) provider)))
  end.
Definition prepare_put (body : jsval) : call PutPlan :=
  input <~ Done (parsePutBody body) ;;
  draft <~ draft_put input ;;
  decide_put input draft.
Definition write_put (plan : PutPlan) : call PutCustomerResult :=
  let u := pp_data plan in
  row <~ match pp_existing plan with
         | Some existing => await (store_update (kr_id existing) u)
         | None => await (store_create (pp_identity plan) u)
         end ;;
  pret (mkPutResult (kr_id row) (ku_status u) (if truthy_opt (ku_message u) then ku_message u else None)
          (if decide (ku_status u = NEEDS_INFO) then ku_fieldsRequested u else None)).
Definition putCustomer (body : jsval) : call PutCustomerResult :=
  plan <~ prepare_put body ;; write_put plan.

(** *** Deleting, and the verdict of an operator *)
Definition deleteCustomer (id : string) : call bool :=
  if decide (trim id = "") then Done (invalid "'id' must be a non-empty string")
  else
    row <~ findById id ;;
    match row with
    | None => pret false
    | Some _ => store_delete id ;~ pret true
    end.

Definition status_update (row : KycCustomerRow) (next : Sep12Status) (message : option string) : KycCustomerUpdateData :=
  mkUpdate next (or_else message (kr_message row)) (kr_encryptedPayload row)
    (if decide (next = NEEDS_INFO) then asFieldsOrNull (kr_fieldsRequested row) else None)
    (kr_anchorReference row) (kr_provider row).
Definition updateStatus (id : string) (status : Sep12Status) (message : option string) : call (option Sep12CustomerResponse) :=
  row <~ findById id ;;
  match row with
  | None => pret None
  | Some row =>
      next <~ Done (applyTransition (asSep12Status (JStr (kr_status row))) status) ;;
      updated <~ await (store_update id (status_update row next message)) ;;
      Done (response ← buildResponse updated; Ok (Some response))
  end.

(** *** The routes *)
Inductive Reply (A : Type) := Json (status : Z) (body : A) | ApiError (status : Z) (code message : string).
Arguments Json {A} _ _.
Arguments ApiError {A} _ _ _.

Definition queryValue (value : jsval) : option string :=
  match value with
  | JStr s => Some s
  | JArr (JStr s :: _) => Some s
  | _ => None
  end.
Definition is_error (name : string) (e : js_error) : bool := bool_decide (err_code e = Some name).
Definition sendServiceError {A} (e : js_error) : Reply A :=
  if is_error "Sep12ValidationError" e then ApiError 400 "VALIDATION_ERROR" (err_message e)
  else if is_error "Sep12NotFoundError" e then ApiError 404 "NOT_FOUND" (err_message e)
  else if is_error "Sep12TransitionError" e then ApiError 409 "CONFLICT" (err_message e)
  else if is_error "KycAnchorError" e then ApiError 502 "ANCHOR_UNAVAILABLE" (err_message e)
  else ApiError 500 "INTERNAL_SERVER_ERROR" (err_message e).
Definition query_text (o : option string) : jsval := match o with Some s => JStr s | None => JUndef end.
Definition not_found {A} : Reply A := ApiError 404 "NOT_FOUND" "Customer not found".
(** [req.query], [req.body] and [req.params.id] *)
Definition get_customer_route (q : jsval) : call (Reply Sep12CustomerResponse) :=
  pcatch
    (memoType <~ Done (parseMemoType (query_text (queryValue (prop q "memo_type")))) ;;
     customer <~ getCustomer (mkGetParams (queryValue (prop q "id")) (queryValue (prop q "account"))
                                (queryValue (prop q "memo")) memoType) ;;
     pret (match customer with None => not_found | Some c => Json 200 c end))
    (λ e, pret (sendServiceError e)).
Definition put_customer_route (body : jsval) : call (Reply PutCustomerResult) :=
  pcatch (result <~ putCustomer body ;; pret (Json 200 result)) (λ e, pret (sendServiceError e)).
Definition delete_customer_route (id : string) : call (Reply unit) :=
  pcatch (deleted <~ deleteCustomer id ;; pret (if deleted : bool then Json 200 tt else not_found))
    (λ e, pret (sendServiceError e)).

(** All calls: those of the routes, and the verdicts of the operators. *)
Inductive kyc_call : call unit → Prop :=
| call_get params : kyc_call (forget (getCustomer params))
| call_put body : kyc_call (forget (putCustomer body))
| call_delete id : kyc_call (forget (deleteCustomer id))
| call_status id status message : kyc_call (forget (updateStatus id status message)).
End service.
Arguments kyc_call {D H _ _ _} JSON_parse keys forwardUrl KYC_ANCHOR_URL _.

(** ** Facts *)

Section facts.
Context {D H : Type} `{!PrismaTable string KycCustomerRow D} `{!KycWorld H} `{!Ciphers H} `{!GcmLaws H}.
Context (JSON_parse : string → exc jsval) (keys : KycKeys) (forwardUrl KYC_ANCHOR_URL : option string).
Notation state := (svc D H).
Notation prepare_put := (prepare_put JSON_parse keys forwardUrl KYC_ANCHOR_URL).
Notation putCustomer := (putCustomer JSON_parse keys forwardUrl KYC_ANCHOR_URL).
Notation updateStatus := (updateStatus JSON_parse keys).
Notation getCustomer := (getCustomer JSON_parse keys).
Notation kyc_call := (kyc_call JSON_parse keys forwardUrl KYC_ANCHOR_URL).

Definition payload_text (payload : fields_map) : string := default "undefined" (JSON_stringify (JObj payload)).
Definition opens (c : string) (payload : fields_map) : Prop :=
  resolveKey keys ≠ "" ∧ decrypt c (resolveKey keys) = Ok (payload_text payload).
Lemma encryptPayload_opens payload (h h' : H) c : encryptPayload keys payload h = (Ok c, h') → opens c payload.
Proof using GcmLaws0.
  unfold encryptPayload, opens. destruct (decide (resolveKey keys = "")) as [|Hk]; [done|].
  intros E. split; [done|]. by eapply decrypt_encrypt.
Qed.

(** What a [PUT] of [body] may be going to write. *)
Record planned (body : jsval) (plan : PutPlan) (input : PutInput) (before : fields_map) (desired : Sep12Status) : Prop := {
  planned_input : parsePutBody body = Ok input;
  planned_before : match pp_existing plan with
                   | Some row => decryptPayload JSON_parse keys (kr_encryptedPayload row) = Ok before ∧
                                 ki_id (pp_identity plan) = kr_id row
                   | None => before = []
                   end;
  planned_text : opens (ku_encryptedPayload (pp_data plan)) (spread (spread [] before) (pi_fields input));
  planned_status : ku_status (pp_data plan) = negotiateStatus (current_status (pp_existing plan)) desired;
  planned_account : ki_account (pp_identity plan) = or_else (pi_account input) (pp_existing plan ≫= kr_account);
  planned_memo : ki_memo (pp_identity plan) = or_else (pi_memo input) (pp_existing plan ≫= kr_memo);
}.

Definition drafted (input : PutInput) (draft : PutDraft) (before : fields_map) : Prop :=
  match pd_existing draft with
  | Some row => decryptPayload JSON_parse keys (kr_encryptedPayload row) = Ok before ∧ pd_reference draft = kr_id row
  | None => before = []
  end ∧ pd_payload draft = spread (spread [] before) (pi_fields input) ∧ opens (pd_encrypted draft) (pd_payload draft).

Section prepared.
(** States in which rows are read, whatever happens outside. *)
Context (I : state → Prop) (R : relation state) `{!PreOrder R}.
Context (Henv : ∀ w w', I w → svc_db w' = svc_db w → I w' ∧ R w w').
Definition found (existing : option KycCustomerRow) : Prop :=
  match existing with Some row => ∃ w k, I w ∧ rows (svc_db w) !! k = Some row | None => True end.

Lemma guarantee_outside {A} (Pre : state → Prop) (c : M state A) (Post : exc A → state → Prop) :
  (∀ w, svc_db (final c w) = svc_db w) →
  (∀ w w', I w → Pre w → I w' → Post (outcome c w) w') → guarantee I R Pre (await c) Post.
Proof using All.
  intros Hc Hp. apply guarantee_await. intros w HI Hw. destruct (Henv w (final c w)); [done|apply Hc|].
  split_and!; [done..|]. eauto.
Qed.
Lemma found_byId Pre id : guarantee I R Pre (findById id) (λ r _, ∀ o, r = Ok o → found o).
Proof using All.
  apply guarantee_outside; [done|]. intros w w' HI _ _ o. unfold outcome, query. cbn [fst].
  intros ->%findUnique_ok. destruct (rows (svc_db w) !! id) as [r|] eqn:E; [|done]. simpl. eauto.
Qed.
Lemma newest_in l best r : foldl newer best l = Some r → r ∈ l ∨ best = Some r.
Proof using. clear.
  revert best. induction l as [|x l IH]; intros best; simpl; [by right|]. intros [Hr|Hr]%IH; [left; by right|].
  unfold newer in Hr. destruct best as [b|]; [|injection Hr as ->; left; by left].
  destruct (kr_createdAt b <? kr_createdAt x); [injection Hr as ->; left; by left|by right].
Qed.
Lemma found_byIdentity Pre account memoType memo :
  guarantee I R Pre (findByIdentity account memoType memo) (λ r _, ∀ o, r = Ok o → found o).
Proof using All.
  apply guarantee_outside; [done|]. intros w w' HI _ _ o. unfold outcome, query. cbn [fst].
  intros (l & El%findAll_ok & [= <-])%bind_Ok. destruct (foldl newer None _) as [r|] eqn:E; [|done].
  apply newest_in in E as [E|]; [|done]. apply list_elem_of_filter in E as [_ E]. rewrite El in E.
  apply list_elem_of_fmap in E as ([k r'] & -> & E%elem_of_map_to_list). simpl. eauto.
Qed.

Lemma guarantee_anchor Pre s : guarantee I R Pre (submit (D := D) forwardUrl KYC_ANCHOR_URL s) (λ _ _, True).
Proof using All.
  apply guarantee_fine. unfold submit. case_decide; [done|].
  assert (∀ A (c : M state A), (∀ w, svc_db (final c w) = svc_db w) → well_behaved I R (await c)) as Hout.
  { intros A c Hc. by apply guarantee_outside. }
  behave. by apply Hout, on_env_db.
Qed.

Lemma guarantee_draft Pre input :
  guarantee I R Pre (draft_put (D := D) JSON_parse keys input) (λ r _, ∀ draft, r = Ok draft →
    found (pd_existing draft) ∧ ∃ before, drafted input draft before).
Proof using All.
  unfold draft_put. apply guarantee_bind; [apply _|].
  eapply guarantee_post with (Post := λ r _, ∀ o, r = Ok o → found o).
  { destruct (pi_id input); [apply found_byId|apply found_byIdentity]. }
  intros [existing|e] w HI Hf; [|done]. specialize (Hf existing eq_refl).
  assert (∀ Pre, guarantee I R Pre
    (currentPayload <~ Done (match existing with
                              | Some row => decryptPayload JSON_parse keys (kr_encryptedPayload row)
                              | None => Ok []
                              end) ;;
      let mergedPayload := spread (spread [] currentPayload) (pi_fields input) in
      encryptedPayload <~ await (on_env (encryptPayload keys mergedPayload)) ;;
      reference <~ match existing with Some row => pret (kr_id row) | None => await (on_env randomUUID) end ;;
      pret (mkDraft existing mergedPayload encryptedPayload reference)) (λ r _, ∀ draft, r = Ok draft →
    found (pd_existing draft) ∧ ∃ before, drafted input draft before)) as Hrest;
    [|destruct (pi_id input), existing; first [apply Hrest|done]].
  clear Pre. intros Pre. apply guarantee_sync; [|done]. intros before Hb. cbn zeta. apply guarantee_bind; [apply _|].
  apply guarantee_outside; [apply on_env_db|]. intros w1 w1' _ _ _.
  unfold outcome, on_env. destruct (encryptPayload _ _ (svc_env w1)) as [[c|e] h'] eqn:E; cbn [fst]; [|done].
  apply encryptPayload_opens in E. apply guarantee_bind; [apply _|]. destruct existing as [row|].
  - intros w2 _ _ w3 _ _ draft [= <-]. split; [done|]. by exists before.
  - apply guarantee_outside; [apply on_env_db|]. intros w2 w2' _ _ _. destruct (outcome _ _) as [id|e]; [|done].
    intros w3 _ _ draft [= <-]. split; [done|]. exists before. split; [by injection Hb|done].
Qed.

Lemma guarantee_prepare Pre body :
  guarantee I R Pre (prepare_put body) (λ r _, ∀ plan, r = Ok plan →
    found (pp_existing plan) ∧ ∃ input before desired, planned body plan input before desired).
Proof using All.
  unfold Kyc.prepare_put. apply guarantee_sync; [|done]. intros input Hin. apply guarantee_bind; [apply _|].
  eapply guarantee_post; [apply guarantee_draft|]. intros [draft|e] w HI Hd; [|done].
  destruct (Hd draft eq_refl) as (Hf & before & Hb & Hp & Ho). rewrite Hp in Ho.
  unfold decide_put. destruct (missingRequiredFields (pd_payload draft)) as [|m missing].
  - apply guarantee_bind; [apply _|]. eapply guarantee_post; [apply guarantee_anchor|]. intros [decision|e] w1 _ _; [|done].
    intros w2 _ _ plan [= <-]. split; [done|]. exists input, before, (ad_status decision). by destruct draft as [[row|] ? ? ?].
  - intros w1 _ _ plan [= <-]. split; [done|]. exists input, before, NEEDS_INFO. by destruct draft as [[row|] ? ? ?].
Qed.
End prepared.

(** *** Rows *)
Definition stored_row (k : string) (r : KycCustomerRow) : Prop :=
  kr_id r = k ∧ (∃ payload, opens (kr_encryptedPayload r) payload) ∧ ∃ st, kr_status r = status_name st.
Definition sound (w : state) : Prop := map_Forall stored_row (rows (svc_db w)).

Lemma on_env_then {A B} (c : M H A) (f : A → M D B) (w : state) :
  (∃ e, outcome (a <- on_env c ;; on_db (f a)) w = Throw e ∧ svc_db (final (a <- on_env c ;; on_db (f a)) w) = svc_db w) ∨
  ∃ a, (outcome (a <- on_env c ;; on_db (f a)) w, svc_db (final (a <- on_env c ;; on_db (f a)) w)) = f a (svc_db w).
Proof using.
  clear. unfold bind, on_env, on_db, outcome, final. destruct (c (svc_env w)) as [[a|e] h]; simpl; [|left; eauto].
  right. exists a. by destruct (f a (svc_db w)).
Qed.
Lemma store_update_rows id u (w : state) :
  (∃ e, outcome (store_update id u) w = Throw e ∧ rows (svc_db (final (store_update id u) w)) = rows (svc_db w)) ∨
  ∃ r t, rows (svc_db w) !! id = Some r ∧ outcome (store_update id u) w = Ok (updated_customer u t r) ∧
    rows (svc_db (final (store_update id u) w)) = <[id := updated_customer u t r]> (rows (svc_db w)).
Proof using.
  clear. unfold store_update.
  destruct (on_env_then database_now (λ t, update id (updated_customer u t)) w) as [(e & -> & ->)|[t Ht]]; [left; eauto|].
  destruct (update id (updated_customer u t) (svc_db w)) as [[r|e] d] eqn:E; injection Ht as -> ->.
  - apply update_ok in E as (r0 & Hr & -> & ->). right. eauto.
  - apply update_err in E as ->. left. eauto.
Qed.
Lemma store_create_rows k u (w : state) :
  (∃ e, outcome (store_create k u) w = Throw e ∧ rows (svc_db (final (store_create k u) w)) = rows (svc_db w)) ∨
  ∃ t, rows (svc_db w) !! ki_id k = None ∧ outcome (store_create k u) w = Ok (new_customer k u t) ∧
    rows (svc_db (final (store_create k u) w)) = <[ki_id k := new_customer k u t]> (rows (svc_db w)).
Proof using.
  clear. change (store_create k u) with (t <- on_env database_now ;; on_db ((λ t, insert_customer (new_customer k u t)) t)).
  destruct (on_env_then database_now (λ t, insert_customer (new_customer k u t)) w) as [(e & Hr & Hf)|[t Ht]]; [left; by rewrite Hf; eauto|].
  unfold insert_customer at 3 in Ht. destruct (existsb _ _); [injection Ht as -> ->; left; eauto|].
  destruct (createUnique _ _ (svc_db w)) as [[r|e] d] eqn:E; injection Ht as -> ->.
  - apply createUnique_ok in E as (Hn & -> & ->). right. eauto.
  - apply createUnique_err in E as [-> _]. left. eauto.
Qed.

Lemma sound_outside w w' : sound w → svc_db w' = svc_db w → sound w' ∧ True.
Proof using. clear. unfold sound. by intros Hw ->. Qed.
Lemma sound_update id u p w : opens (ku_encryptedPayload u) p → sound w → sound (final (store_update id u) w).
Proof using.
  intros Ho Hw. destruct (store_update_rows id u w) as [(e & _ & E)|(r & t & Hr & _ & E)]; unfold sound; rewrite E; [done|].
  apply map_Forall_insert_2; [|done]. destruct (Hw _ _ Hr) as (Hk & _ & _). split_and!; [done|by exists p|by eexists].
Qed.
Lemma sound_create k u p w : opens (ku_encryptedPayload u) p → sound w → sound (final (store_create k u) w).
Proof using.
  intros Ho Hw. destruct (store_create_rows k u w) as [(e & _ & E)|(t & Hr & _ & E)]; unfold sound; rewrite E; [done|].
  apply map_Forall_insert_2; [|done]. split_and!; [done|by exists p|by eexists].
Qed.
Lemma delete_row_rows id d : rows (delete_row id d).2 = rows d ∨
  rows (delete_row id d).2 = filter (λ kr, bool_decide (kr_id kr.2 = id) = false) (rows d).
Proof using.
  clear. unfold delete_row. destruct (rows d !! id); [|by left].
  destruct (deleteMany _ d) as [[n|e] d'] eqn:E; simpl; [apply deleteMany_ok in E as [-> _]|apply deleteMany_err in E as ->]; auto.
Qed.
Lemma sound_delete id w : sound w → sound (final (on_db (delete_row id)) w).
Proof using.
  intros Hw. unfold sound, final, on_db. pose proof (delete_row_rows id (svc_db w)) as Hd.
  destruct (delete_row id (svc_db w)) as [r d]. simpl in *. destruct Hd as [->| ->]; [done|].
  intros k r' [Hk _]%map_lookup_filter_Some. by apply Hw.
Qed.

(** *** Every call *)
Notation fine := (well_behaved sound (λ _ _, True)).
#[local] Instance true_preorder : PreOrder (λ _ _ : state, True).
Proof. by split. Qed.
Lemma fine_await {A} (c : M state A) : (∀ w, sound w → sound (final c w)) → fine (await c).
Proof using. intros Hc. apply well_behaved_await. eauto. Qed.
Lemma fine_kyc_read {A} (q : D → exc A) : fine (await (query q)).
Proof using. by apply fine_await. Qed.
#[local] Hint Resolve fine_kyc_read : sf.

Lemma put_fine body : fine (putCustomer body).
Proof using All.
  unfold Kyc.putCustomer. apply guarantee_bind; [apply _|].
  eapply guarantee_post; [apply (guarantee_prepare sound (λ _ _, True) sound_outside)|].
  intros [plan|e] w HI Hp; [|done]. destruct (Hp plan eq_refl) as (_ & input & before & desired & Hplan).
  eapply guarantee_pre with (Pre := λ _, True); [|done]. apply well_behaved_bind; [apply _| |done].
  destruct (pp_existing plan); apply fine_await; intros w' Hw'; [eapply sound_update|eapply sound_create]; try done;
    by eapply planned_text.
Qed.
Lemma status_fine id status message : fine (updateStatus id status message).
Proof using All.
  unfold Kyc.updateStatus. apply guarantee_bind; [apply _|].
  eapply guarantee_post; [apply (found_byId sound (λ _ _, True) sound_outside)|].
  intros [[row|]|e] w HI Hf; [|done..]. destruct (Hf _ eq_refl) as (w0 & k & Hw0 & Hrow).
  destruct (Hw0 _ _ Hrow) as (_ & (p & Hop) & _). eapply guarantee_pre with (Pre := λ _, True); [|done].
  apply well_behaved_sync. intros next _. apply well_behaved_bind; [apply _| |done].
  apply fine_await. intros w' Hw'. by eapply sound_update.
Qed.
Lemma kyc_call_fine p : kyc_call p → fine p.
Proof using All.
  intros [params|body|id|id status message]; unfold forget, pmap;
    (apply well_behaved_bind; [apply _| |done]); [|apply put_fine| |apply status_fine].
  - unfold Kyc.getCustomer, resolveCustomer, findById, findByIdentity, invalid. behave.
  - unfold deleteCustomer, findById, store_delete, invalid. behave. apply fine_await. apply sound_delete.
Qed.

(** ** Every interleaving *)

(** C22. In every interleaving of calls, whatever happens outside, every stored payload is a
    text that the configured key decrypts to the fields of the customer, and every stored
    status is one of the four. *)
Theorem stored_payloads_decrypt (env : relation state) (w : state) s :
  (∀ w w', env w w' → svc_db w' = svc_db w) → sound w → rtc (step kyc_call env) ([], w) s → sound s.2.
Proof using All.
  intros Henv Hw Hr. refine (proj1 (interleaved_fresh sound (λ _ _, True) kyc_call env kyc_call_fine _ w s Hw Hr)).
  intros w1 w2 Hw1 He%Henv. by eapply sound_outside.
Qed.

(** ** Calls in turn *)

Definition terminal (r : KycCustomerRow) : Prop := kr_status r = "ACCEPTED" ∨ kr_status r = "REJECTED".
Lemma negotiate_terminal r desired : terminal r → status_name (negotiateStatus (current_status (Some r)) desired) = kr_status r.
Proof using.
  clear. intros [E|E]; unfold current_status; rewrite E; by destruct desired.
Qed.
Lemma transition_terminal r to next : terminal r → applyTransition (asSep12Status (JStr (kr_status r))) to = Ok next →
  status_name next = kr_status r.
Proof using.
  clear. intros [E|E]; rewrite E; unfold applyTransition; destruct to; by intros [= <-].
Qed.
(** The verdicts of the one are those of the other. *)
Definition verdicts_kept (w w' : state) : Prop :=
  ∀ k r, rows (svc_db w) !! k = Some r → terminal r → ∃ r', rows (svc_db w') !! k = Some r' ∧ kr_status r' = kr_status r.
#[local] Instance verdicts_preorder : PreOrder verdicts_kept.
Proof using.
  clear. split.
  - intros w k r Hr _. eauto.
  - intros w1 w2 w3 H12 H23 k r Hr Ht. destruct (H12 k r Hr Ht) as (r2 & Hr2 & E2).
    destruct (H23 k r2 Hr2) as (r3 & Hr3 & E3); [unfold terminal in *; by rewrite E2|]. exists r3. split; [done|congruence].
Qed.
Lemma verdicts_same w w' : svc_db w' = svc_db w → verdicts_kept w w'.
Proof using. clear. intros E k r Hr _. rewrite E. eauto. Qed.
Lemma verdicts_update id u (w : state) :
  (∀ r, rows (svc_db w) !! id = Some r → terminal r → status_name (ku_status u) = kr_status r) →
  verdicts_kept w (final (store_update id u) w).
Proof using.
  clear. intros Hu k r Hr Ht. destruct (store_update_rows id u w) as [(e & _ & ->)|(r0 & t & Hr0 & _ & ->)]; [by eauto|].
  destruct (decide (k = id)) as [->|Hk]; [|rewrite lookup_insert_ne by done; eauto].
  rewrite lookup_insert_eq. eexists. split; [done|]. simpl. by apply Hu.
Qed.
Lemma verdicts_create k u (w : state) : verdicts_kept w (final (store_create k u) w).
Proof using.
  clear. intros k' r Hr Ht. destruct (store_create_rows k u w) as [(e & _ & ->)|(t & Hn & _ & ->)]; [by eauto|].
  rewrite lookup_insert_ne by congruence. eauto.
Qed.

Lemma prepare_alone body w : sound w →
  wp (run (prepare_put body)) (λ plan w', svc_db w' = svc_db w ∧
      (∀ row, pp_existing plan = Some row → rows (svc_db w) !! kr_id row = Some row) ∧
      ∃ input before desired, planned body plan input before desired)
    (λ _ w', svc_db w' = svc_db w) w.
Proof using All.
  intros Hw. eapply wp_mono; [apply (guarantee_run (λ w', svc_db w' = svc_db w) (λ _ _, True) (λ _, True));
    [apply (guarantee_prepare (λ w', svc_db w' = svc_db w) (λ _ _, True)); intros w1 w2 E1 E2; split; [congruence|done]|done..]| |by intros e w' [? _]].
  intros plan w' (Hdb & _ & Hp). specialize (Hp plan eq_refl) as [Hf Hp]. split_and!; [done| |done].
  intros row E. rewrite E in Hf. destruct Hf as (w0 & k & -> & Hk). by destruct (Hw _ _ Hk) as [-> _].
Qed.
Lemma put_keeps_verdicts body w : sound w → verdicts_kept w (final (run (putCustomer body)) w).
Proof using All.
  intros Hw. apply (wp_final _ (verdicts_kept w)). unfold Kyc.putCustomer. apply wp_pbind.
  eapply wp_mono; [by apply prepare_alone| |intros e w'; apply verdicts_same].
  intros plan w' (Hdb & Hrow & input & before & desired & Hplan). apply wp_pbind.
  assert (verdicts_kept w w') as Hww by by apply verdicts_same.
  destruct (pp_existing plan) as [row|] eqn:Ex; apply wp_await.
  - assert (verdicts_kept w (final (store_update (kr_id row) (pp_data plan)) w')) as Hv.
    { etrans; [done|]. apply verdicts_update. rewrite Hdb, Hrow by done. intros r [= <-] Ht.
      rewrite (planned_status _ _ _ _ _ Hplan), Ex. by apply negotiate_terminal. }
    unfold final, wp in *. by destruct (store_update _ _ w') as [[r|e] w2].
  - assert (verdicts_kept w (final (store_create (pp_identity plan) (pp_data plan)) w')) as Hv.
    { etrans; [done|]. apply verdicts_create. }
    unfold final, wp in *. by destruct (store_create _ _ w') as [[r|e] w2].
Qed.
Lemma status_keeps_verdicts id status message w : sound w → verdicts_kept w (final (run (updateStatus id status message)) w).
Proof using All.
  intros Hw. apply (wp_final _ (verdicts_kept w)). unfold Kyc.updateStatus. apply wp_pbind, wp_await, wp_query; [|done].
  intros row ->%findUnique_ok. destruct (rows (svc_db w) !! id) as [r|] eqn:Er; [|by apply verdicts_same].
  apply wp_sync; [|by intros; apply verdicts_same]. intros next Hn. apply wp_pbind, wp_await.
  assert (verdicts_kept w (final (store_update id (status_update r next message)) w)) as Hv.
  { apply verdicts_update. rewrite Er. intros r' [= <-] Ht. by eapply transition_terminal. }
  unfold final, wp in *. destruct (store_update _ _ w) as [[r'|e] w2]; [|done]. cbn [run]. by destruct (_ ← _; _) as [x|e].
Qed.

Lemma call_keeps_sound p w : kyc_call p → sound w → sound (final (run p) w).
Proof using All.
  intros Hp Hw. apply (wp_final _ sound).
  eapply wp_mono; [exact (guarantee_run sound (λ _ _, True) _ p _ w (kyc_call_fine p Hp) Hw I)|..]; by intros ? ? [? _].
Qed.
Lemma run_forget {A} (p : prog state A) w : final (run (forget p)) w = final (run p) w.
Proof using. clear. unfold final, forget, pmap. rewrite run_pbind. unfold bind. by destruct (run p w) as [[a|e] w']. Qed.

(** Calls that do not delete the customer [id]. *)
Inductive keeping_call (id : string) : prog state unit → Prop :=
| keep_get params : keeping_call id (forget (getCustomer params))
| keep_put body : keeping_call id (forget (putCustomer body))
| keep_delete id' : id' ≠ id → keeping_call id (forget (deleteCustomer id'))
| keep_status id' st message : keeping_call id (forget (updateStatus id' st message)).

Definition verdict_kept (id : string) (w w' : state) : Prop :=
  ∀ r, rows (svc_db w) !! id = Some r → terminal r → ∃ r', rows (svc_db w') !! id = Some r' ∧ kr_status r' = kr_status r.
Lemma delete_keeps_verdict id id' w : sound w → id' ≠ id → verdict_kept id w (final (run (deleteCustomer id')) w).
Proof using.
  clear forwardUrl KYC_ANCHOR_URL. intros Hw Hid. apply (wp_final _ (verdict_kept id w)). unfold deleteCustomer.
  assert (verdict_kept id w w) as Hsame by (intros r Hr _; eauto).
  case_decide; [done|]. apply wp_pbind, wp_await, wp_query; [|done]. intros [row|] _; [|done].
  apply wp_pbind, wp_await. pose proof (delete_row_rows id' (svc_db w)) as Hd.
  assert (∀ d, rows d = rows (svc_db w) ∨ rows d = filter (λ kr, bool_decide (kr_id kr.2 = id') = false) (rows (svc_db w)) →
    verdict_kept id w (mkSvc d (svc_env w))) as Hkept.
  { intros d Ed r Hr _. exists r. split; [|done]. simpl. destruct Ed as [->| ->]; [done|].
    apply map_lookup_filter_Some_2; [done|]. simpl. apply bool_decide_eq_false. destruct (Hw _ _ Hr) as [-> _]. done. }
  apply wp_on_db; intros x d E; rewrite E in Hd; by apply Hkept.
Qed.

(** C13. Calls that follow each other never take back a verdict: a customer that is ACCEPTED or
    REJECTED stays so, whatever is looked up, put, decided or deleted besides it. *)
Theorem verdict_kept_in_turn id (l : list (prog state unit)) (w : state) r :
  Forall (keeping_call id) l → sound w → rows (svc_db w) !! id = Some r → terminal r →
  ∃ r', rows (svc_db (run_in_turn l w).2) !! id = Some r' ∧ kr_status r' = kr_status r.
Proof using All.
  intros Hl. revert w r. induction Hl as [|p l Hp _ IH]; intros w r Hw Hr Ht; simpl; [by eauto|].
  assert (sound (final (run p) w) ∧ verdict_kept id w (final (run p) w)) as [Hs Hv].
  { split; [apply call_keeps_sound; [destruct Hp; constructor|done]|].
    destruct Hp as [params|body|id' Hne|id' st message]; rewrite run_forget.
    - intros r0 Hr0 _. exists r0. split; [|done]. rewrite <-Hr0. do 2 f_equal.
      apply (run_every (λ w w', svc_db w' = svc_db w) (getCustomer params)).
      { split; [done|]. intros ? ? ? E1 E2. congruence. }
      unfold Kyc.getCustomer, resolveCustomer, findById, findByIdentity, invalid. each; by apply every_await.
    - intros r0. by apply put_keeps_verdicts.
    - by apply delete_keeps_verdict.
    - intros r0. by apply status_keeps_verdicts. }
  unfold final in Hs, Hv. destruct (run p w) as [x w1]. cbn [snd] in Hs, Hv.
  destruct (Hv r Hr Ht) as (r1 & Hr1 & E1). destruct (IH w1 r1 Hs Hr1) as (r2 & Hr2 & E2); [unfold terminal; by rewrite E1|].
  destruct (run_in_turn l w1) as [ps2 w2]. exists r2. split; [done|]. by rewrite E2.
Qed.

(** ** What a [PUT] writes *)

Lemma write_alone plan (w : state) res w' : run (write_put plan) w = (Ok res, w') →
  ∃ k row t, rows (svc_db w') = <[k := row]> (rows (svc_db w)) ∧ kr_updatedAt row = t ∧ match pp_existing plan with
      | Some r => k = kr_id r ∧ ∃ r0, rows (svc_db w) !! k = Some r0 ∧ row = updated_customer (pp_data plan) t r0
      | None => k = ki_id (pp_identity plan) ∧ rows (svc_db w) !! k = None ∧ row = new_customer (pp_identity plan) (pp_data plan) t
      end ∧
    res = mkPutResult (kr_id row) (ku_status (pp_data plan))
            (if truthy_opt (ku_message (pp_data plan)) then ku_message (pp_data plan) else None)
            (if decide (ku_status (pp_data plan) = NEEDS_INFO) then ku_fieldsRequested (pp_data plan) else None).
Proof using.
  clear. unfold write_put. rewrite run_pbind. unfold bind.
  destruct (pp_existing plan) as [r|]; rewrite run_await.
  - pose proof (store_update_rows (kr_id r) (pp_data plan) w) as Hs. unfold outcome, final in Hs.
    destruct (store_update _ _ w) as [x w1]. cbn [fst snd] in Hs.
    destruct Hs as [(e & -> & _)|(r0 & t & Hr0 & -> & Er)]; [done|]. intros [= <- <-]. eexists _, _, _. split_and!; eauto.
  - pose proof (store_create_rows (pp_identity plan) (pp_data plan) w) as Hs. unfold outcome, final in Hs.
    destruct (store_create _ _ w) as [x w1]. cbn [fst snd] in Hs.
    destruct Hs as [(e & -> & _)|(t & Hn & -> & Er)]; [done|]. intros [= <- <-]. eexists _, _, _. split_and!; eauto.
Qed.

Definition survives (payload : fields_map) : Prop := JSON_parse (payload_text payload) = Ok (JObj payload).
Lemma decryptPayload_opens c payload : opens c payload → survives payload → decryptPayload JSON_parse keys c = Ok payload.
Proof using.
  clear. intros [Hk Hd] Hp. unfold decryptPayload. rewrite decide_False by done.
  rewrite decide_False by (intros ->; by unfold decrypt in Hd). by rewrite Hd; simpl; rewrite Hp.
Qed.

Definition by_id (id : string) : GetCustomerParams := mkGetParams (Some id) None None None.

(** What was put is read back: the fields stored before, where there was a customer, under
    those of the request, with the status and the message of the answer. *)
Theorem put_then_get body (w w' : state) res : sound w → run (putCustomer body) w = (Ok res, w') → pr_id res ≠ "" →
  ∃ input before, parsePutBody body = Ok input ∧
    (before = [] ∨ ∃ k row, rows (svc_db w) !! k = Some row ∧ decryptPayload JSON_parse keys (kr_encryptedPayload row) = Ok before) ∧
    let payload := spread (spread [] before) (pi_fields input) in
    survives payload → ∀ answer w'', run (getCustomer (by_id (pr_id res))) w' = (Ok answer, w'') →
      ∃ response, answer = Some response ∧ cr_id response = pr_id res ∧ cr_status response = pr_status res ∧
        cr_message response = pr_message res ∧ cr_values response = spread [] (filter not_reserved payload).
Proof using All.
  intros Hw. unfold Kyc.putCustomer. rewrite run_pbind. unfold bind. pose proof (prepare_alone body w Hw) as Hp. unfold wp in Hp.
  destruct (run (prepare_put body) w) as [[plan|e] w1]; [|done].
  destruct Hp as (Hdb & Hrow & input & before & desired & Hplan). intros Hr Hid.
  exists input, before. split; [by eapply planned_input|]. split.
  { pose proof (planned_before _ _ _ _ _ Hplan) as Hb. destruct (pp_existing plan) as [row|]; [right|by left].
    destruct Hb as [Hb _]. exists (kr_id row), row. split; [by apply Hrow|done]. }
  cbn zeta. intros Hs answer w''. destruct (write_alone plan w1 res w' Hr) as (k & row & t & Er & Et & Ek & ->).
  assert (kr_id row = k ∧ kr_encryptedPayload row = ku_encryptedPayload (pp_data plan) ∧
    kr_status row = status_name (ku_status (pp_data plan)) ∧ kr_message row = ku_message (pp_data plan)) as (Ekid & Ee & Es & Em).
  { rewrite Hdb in Ek. destruct (pp_existing plan) as [r|].
    - destruct Ek as (-> & r0 & Hr0 & ->). by destruct (Hw _ _ Hr0) as [? _].
    - by destruct Ek as (-> & _ & ->). }
  unfold Kyc.getCustomer, resolveCustomer, by_id. cbn [gp_id pr_id] in *. rewrite Ekid in *.
  destruct k as [|c k]; [done|]. rewrite run_pbind. unfold bind, findById. rewrite run_await. unfold query.
  destruct (findUnique _ (svc_db w')) as [o|e] eqn:Eo; [|done]. apply findUnique_ok in Eo. rewrite Er, lookup_insert_eq in Eo. subst o.
  cbn [run lift_exc]. unfold buildResponse. rewrite Ee, (decryptPayload_opens _ _ (planned_text _ _ _ _ _ Hplan) Hs).
  cbn. intros [= <- <-]. eexists. split; [done|]. cbn. rewrite Em. split_and!; [done| |done..].
  rewrite Es. by destruct (ku_status (pp_data plan)).
Qed.

(** ** Calls that overlap *)

Lemma rtc_prefix {A B} (env : relation state) ps1 (p : prog state A) (f : A → prog state B) ps2 w a w' :
  run p w = (Ok a, w') →
  rtc (step kyc_call env) (ps1 ++ forget (pbind p f) :: ps2, w) (ps1 ++ forget (f a) :: ps2, w').
Proof using. apply prefix_alone. Qed.
Lemma rtc_finish {A} (env : relation state) ps1 (p : prog state A) ps2 w r w' :
  run p w = (Ok r, w') → rtc (step kyc_call env) (ps1 ++ forget p :: ps2, w) (ps1 ++ Done (Ok tt) :: ps2, w').
Proof using.
  intros Hr. apply finish_alone. unfold forget, pmap. rewrite run_pbind. unfold bind. by rewrite Hr.
Qed.
(** A new call, run to its end. *)
Lemma rtc_call {A} (env : relation state) ps (p : prog state A) w r w' : kyc_call (forget p) →
  run p w = (Ok r, w') → rtc (step kyc_call env) (ps, w) (ps ++ [Done (Ok tt)], w').
Proof using. intros Hp Hr. eapply rtc_l; [by apply step_call|]. by eapply (rtc_finish env ps _ []). Qed.

(** A [PUT] decides on the status it read. If the customer is ACCEPTED before it writes,
    it writes what it decided all the same: the verdict is taken back. *)
Theorem verdict_taken_back env body message (w w1 w2 w3 : state) plan row answer res :
  run (prepare_put body) w = (Ok plan, w1) → pp_existing plan = Some row → ku_status (pp_data plan) = NEEDS_INFO →
  run (updateStatus (kr_id row) ACCEPTED message) w1 = (Ok (Some answer), w2) →
  run (write_put plan) w2 = (Ok res, w3) →
  ∃ ps2 ps3, rtc (step kyc_call env) ([], w) (ps2, w2) ∧ rtc (step kyc_call env) (ps2, w2) (ps3, w3) ∧
    (∃ r2, rows (svc_db w2) !! kr_id row = Some r2 ∧ kr_status r2 = "ACCEPTED") ∧
    (∃ r3, rows (svc_db w3) !! kr_id row = Some r3 ∧ kr_status r3 = "NEEDS_INFO").
Proof using.
  intros Hp He Hn Hs Hr. exists [forget (write_put plan); Done (Ok tt)], [Done (Ok tt); Done (Ok tt)]. split_and!.
  - eapply rtc_l; [apply (step_call _ _ [] w (forget (putCustomer body))); constructor|].
    etrans; [by apply (rtc_prefix env [] (prepare_put body) write_put [])|].
    eapply (rtc_call env [forget (write_put plan)]); [|exact Hs]. constructor.
  - by eapply (rtc_finish env [] _ [_]).
  - revert Hs. unfold Kyc.updateStatus. rewrite run_pbind. unfold bind, findById. rewrite run_await. unfold query.
    destruct (findUnique _ (svc_db w1)) as [[r|]|e] eqn:Eo; [|done..]. destruct (applyTransition _ ACCEPTED) as [next|e] eqn:En; [|done].
    cbn [pbind]. rewrite run_pbind. unfold bind. rewrite run_await.
    pose proof (store_update_rows (kr_id row) (status_update r next message) w1) as Hst. unfold outcome, final in Hst.
    destruct (store_update _ _ w1) as [x w1']. cbn [fst snd] in Hst. destruct Hst as [(e & -> & _)|(r0 & t & Hr0 & -> & Er)]; [done|].
    cbn [run]. destruct (_ ← _; _) as [y|e]; [|done]. intros [= -> <-]. rewrite Er, lookup_insert_eq. eexists. split; [done|].
    cbn. unfold applyTransition in En. destruct (canTransition _ ACCEPTED); [|done]. by injection En as <-.
  - destruct (write_alone plan w2 res w3 Hr) as (k & r3 & t & Er & _ & Ek & _). rewrite He in Ek. destruct Ek as (-> & r0 & _ & ->).
    rewrite Er, lookup_insert_eq. eexists. split; [done|]. cbn. by rewrite Hn.
Qed.

(** Two [PUT]s of one account without a memo that overlap find no customer and both create
    one: nothing keeps the table from holding two customers of one identity. *)
Theorem overlapping_puts_duplicate env body1 body2 (w w1 w2 w3 w4 : state) plan1 plan2 res1 res2 account :
  run (prepare_put body1) w = (Ok plan1, w1) → run (prepare_put body2) w1 = (Ok plan2, w2) →
  pp_existing plan1 = None → pp_existing plan2 = None →
  ki_account (pp_identity plan1) = Some account → ki_account (pp_identity plan2) = Some account →
  ki_memo (pp_identity plan1) = None → ki_memo (pp_identity plan2) = None →
  run (write_put plan1) w2 = (Ok res1, w3) → run (write_put plan2) w3 = (Ok res2, w4) →
  (∃ ps, rtc (step kyc_call env) ([], w) (ps, w4)) ∧ ∃ c1 c2,
    rows (svc_db w4) !! pr_id res1 = Some c1 ∧ rows (svc_db w4) !! pr_id res2 = Some c2 ∧ pr_id res1 ≠ pr_id res2 ∧
    kr_account c1 = Some account ∧ kr_account c2 = Some account ∧ kr_memo c1 = None ∧ kr_memo c2 = None.
Proof using.
  intros Hp1 Hp2 He1 He2 Ha1 Ha2 Hm1 Hm2 Hr1 Hr2. split.
  - exists [Done (Ok tt); Done (Ok tt)].
    eapply rtc_l; [apply (step_call _ _ [] w (forget (putCustomer body1))); constructor|].
    etrans; [by apply (rtc_prefix env [] (prepare_put body1) write_put [])|].
    eapply rtc_l; [apply (step_call _ _ _ _ (forget (putCustomer body2))); constructor|].
    etrans; [by apply (rtc_prefix env [forget (write_put plan1)] (prepare_put body2) write_put [])|].
    etrans; [by eapply (rtc_finish env [] _ [_])|]. by eapply (rtc_finish env [_] _ []).
  - destruct (write_alone plan1 w2 res1 w3 Hr1) as (k1 & c1 & t1 & E1 & _ & K1 & ->). rewrite He1 in K1.
    destruct K1 as (-> & _ & ->). destruct (write_alone plan2 w3 res2 w4 Hr2) as (k2 & c2 & t2 & E2 & _ & K2 & ->).
    rewrite He2 in K2. destruct K2 as (-> & N2 & ->). cbn [pr_id new_customer kr_id] in *.
    assert (ki_id (pp_identity plan1) ≠ ki_id (pp_identity plan2)) as Hne.
    { intros E. by rewrite E1, E, lookup_insert_eq in N2. }
    rewrite E2, lookup_insert_eq, lookup_insert_ne, E1, lookup_insert_eq by done. eexists _, _. by split_and!.
Qed.
End facts.

(** ** Concrete runs *)

#[local] Instance demo_kyc : KycWorld nat := {|
  database_now h := (Ok (Z.of_nat h), h);
  randomUUID h := (Ok (text (replicate (S h) "x"%char)), S h);
  anchor_fetch _ _ := ret (mkAnchorAnswer true 200 (Ok (JObj [("status", JStr "ACCEPTED"); ("id", JStr "a-1")])));
|}.
#[local] Existing Instance hex_ciphers.
Definition demo_keys : KycKeys := mkKeys (Some "key") None None.
Definition demo_account : string := text (replicate 56 "G"%char).
Definition demo_body (l : fields_map) : jsval := JObj (("account", JStr demo_account) :: l).
Definition demo_full : fields_map :=
  [("first_name", JStr "A"); ("last_name", JStr "B"); ("email_address", JStr "a@b"); ("id_type", JStr "passport");
   ("id_number", JStr "1")].
Definition demo_parse (t : string) : exc jsval :=
  if decide (t = payload_text demo_full) then Ok (JObj demo_full) else Ok (JObj [("first_name", JStr "A")]).
Definition demo_state : svc (gmap string KycCustomerRow) nat := mkSvc ∅ 0%nat.
Lemma demo_sound : sound demo_keys demo_state.
Proof. intros k r Hr. change ((∅ : gmap string KycCustomerRow) !! k = Some r) in Hr. by rewrite lookup_empty in Hr. Qed.
Notation demo_put l := (putCustomer demo_parse demo_keys None (Some "https://anchor") (demo_body l)).

Example forwarded_put : outcome (run (demo_put demo_full)) demo_state = Ok (mkPutResult "x" ACCEPTED None None).
Proof. vm_compute. reflexivity. Qed.
Example incomplete_put : (λ r, match r with Ok r => Some (pr_status r, fst <$> default [] (pr_fields r)) | Throw _ => None end)
    (outcome (run (demo_put (take 3 demo_full))) demo_state) = Some (NEEDS_INFO, ["id_type"; "id_number"]).
Proof. vm_compute. reflexivity. Qed.
Example refused_route : outcome (run (put_customer_route demo_parse demo_keys None None (JArr []))) demo_state =
  Ok (ApiError _ 400 "VALIDATION_ERROR" "Request body must be a JSON object").
Proof. vm_compute. reflexivity. Qed.

(** *** The theorems at these values *)
Notation demo_prepare l := (prepare_put demo_parse demo_keys None (Some "https://anchor") (demo_body l)).
Notation demo_calls := (kyc_call demo_parse demo_keys None (Some "https://anchor")).
Definition value_of {A} (r : exc A) (a : A) : A := match r with Ok a => a | Throw _ => a end.
Definition no_data : KycCustomerUpdateData := mkUpdate PROCESSING None "" None None None.
Definition no_plan : PutPlan := mkPlan None (mkIdentity "" None None None) no_data.
Definition no_row : KycCustomerRow := mkCustomer "" None None None "" None "" JNull None None 0 0.
Definition no_answer : Sep12CustomerResponse := mkResponse "" PROCESSING [] None None [].
Definition no_result : PutCustomerResult := mkPutResult "" PROCESSING None None.

Definition accepted_state := final (run (demo_put demo_full)) demo_state.
Definition partial_state := final (run (demo_put (take 1 demo_full))) demo_state.
Definition later_calls : list (prog (svc (gmap string KycCustomerRow) nat) unit) :=
  [forget (demo_put (take 2 demo_full)); forget (updateStatus demo_parse demo_keys "x" PROCESSING None);
   forget (deleteCustomer "xx")].
Lemma accepted_sound : sound demo_keys accepted_state.
Proof.
  unfold accepted_state. rewrite <-run_forget.
  apply (call_keeps_sound demo_parse demo_keys None (Some "https://anchor") (forget (demo_put demo_full)));
    [constructor|apply demo_sound].
Qed.

Lemma stored_payloads_decrypt_witness : sound demo_keys (run_in_turn (take 1 later_calls) demo_state).2.
Proof.
  apply (stored_payloads_decrypt demo_parse demo_keys None (Some "https://anchor") (λ w w', w' = w) demo_state
    ((run_in_turn (take 1 later_calls) demo_state).1, (run_in_turn (take 1 later_calls) demo_state).2)); [by intros w ? ->|apply demo_sound|].
  apply (run_in_turn_steps demo_calls (λ w w', w' = w) (take 1 later_calls) [] demo_state). repeat constructor.
Defined.

Lemma verdict_kept_in_turn_witness : ∃ r, rows (svc_db (run_in_turn later_calls accepted_state).2) !! "x" = Some r ∧
  kr_status r = "ACCEPTED".
Proof.
  destruct (verdict_kept_in_turn demo_parse demo_keys None (Some "https://anchor") "x" later_calls accepted_state
    (default no_row (rows (svc_db accepted_state) !! "x"))) as (r & Hr & E).
  - repeat constructor. done.
  - apply accepted_sound.
  - vm_compute. reflexivity.
  - left. vm_compute. reflexivity.
  - exists r. split; [exact Hr|]. rewrite E. vm_compute. reflexivity.
Defined.

Definition read_back := value_of (outcome (run (getCustomer demo_parse demo_keys (by_id "x"))) accepted_state) None.
Lemma put_then_get_witness : ∃ response,
  outcome (run (getCustomer demo_parse demo_keys (by_id "x"))) accepted_state = Ok (Some response) ∧
  cr_status response = ACCEPTED ∧ cr_values response = demo_full.
Proof.
  destruct (put_then_get demo_parse demo_keys None (Some "https://anchor") (demo_body demo_full) demo_state accepted_state
    (mkPutResult "x" ACCEPTED None None)) as (input & before & Hin & Hb & Hget);
    [apply demo_sound|vm_compute; reflexivity|done|].
  injection Hin as <-. destruct Hb as [->|(k & row & Hrow & _)]; [|by vm_compute in Hrow].
  destruct (Hget ltac:(vm_compute; reflexivity) read_back accepted_state
    ltac:(vm_compute; reflexivity)) as (response & E & _ & Es & _ & Ev).
  exists response. split_and!; [rewrite <-E; vm_compute; reflexivity|exact Es|rewrite Ev; vm_compute; reflexivity].
Defined.

Definition race_plan := value_of (outcome (run (demo_prepare (take 2 demo_full))) partial_state) no_plan.
Definition race_1 := final (run (demo_prepare (take 2 demo_full))) partial_state.
Definition race_2 := final (run (updateStatus demo_parse demo_keys "x" ACCEPTED None)) race_1.
Definition race_3 := final (run (write_put race_plan)) race_2.
Lemma verdict_taken_back_witness : ∃ r2 r3, rows (svc_db race_2) !! "x" = Some r2 ∧ kr_status r2 = "ACCEPTED" ∧
  rows (svc_db race_3) !! "x" = Some r3 ∧ kr_status r3 = "NEEDS_INFO".
Proof.
  destruct (verdict_taken_back demo_parse demo_keys None (Some "https://anchor") (λ _ _, False)
    (demo_body (take 2 demo_full)) None partial_state race_1 race_2 race_3 race_plan
    (default no_row (rows (svc_db partial_state) !! "x"))
    (default no_answer (value_of (outcome (run (updateStatus demo_parse demo_keys "x" ACCEPTED None)) race_1) None))
    (value_of (outcome (run (write_put race_plan)) race_2) no_result))
    as (_ & _ & _ & _ & (r2 & H2 & E2) & (r3 & H3 & E3)); [vm_compute; reflexivity..|].
  exists r2, r3. exact (conj H2 (conj E2 (conj H3 E3))).
Defined.

Definition first_plan := value_of (outcome (run (demo_prepare demo_full)) demo_state) no_plan.
Definition first_state := final (run (demo_prepare demo_full)) demo_state.
Definition second_plan := value_of (outcome (run (demo_prepare demo_full)) first_state) no_plan.
Definition both_prepared := final (run (demo_prepare demo_full)) first_state.
Definition one_written := final (run (write_put first_plan)) both_prepared.
Definition both_written := final (run (write_put second_plan)) one_written.
Lemma overlapping_puts_duplicate_witness : ∃ c1 c2, rows (svc_db both_written) !! "x" = Some c1 ∧
  rows (svc_db both_written) !! "xx" = Some c2 ∧ kr_account c1 = kr_account c2.
Proof.
  destruct (overlapping_puts_duplicate demo_parse demo_keys None (Some "https://anchor") (λ _ _, False)
    (demo_body demo_full) (demo_body demo_full) demo_state first_state both_prepared one_written both_written
    first_plan second_plan (mkPutResult "x" ACCEPTED None None) (mkPutResult "xx" ACCEPTED None None) demo_account)
    as [_ (c1 & c2 & H1 & H2 & _ & E1 & E2 & _)]; [vm_compute; reflexivity..|].
  exists c1, c2. exact (conj H1 (conj H2 (eq_trans E1 (eq_sym E2)))).
Defined.
