(* ===== verification/RelayerKeys.v ===== *)
(** * Keys of the relayers ([services/kmsEnvelopeService.ts], [dekRotationService.ts], [relayerKeyService.ts], [crypto/vault.ts])

    The private key of a relayer is stored encrypted under a key of its own, which only the
    key management service can open; a batch job replaces those keys every 90 days; for
    signing, a private key is put in a vault in memory. The calls are programs of [Async]
    over the table of relayers, the vault and the outside world. Proved: a rotation never
    loses a private key, and a key that was used is out of the vault again; but a rotation that overlaps a new key pair leaves the new public key
    with the old private key, and one that overlaps a deletion brings the private key back. *)

From Stdlib Require Import Ascii.
From stdpp Require Import pretty.
From S2P Require Import Prelude JsNumber JsString JsDecimal JsDigits JsMap JsValue Prisma Service Async Ciphers.

Local Open Scope Z_scope.

(** ** The vault *)

Record VaultContext := mkContext { vc_scope : string; vc_token : string }.
Record Vault := mkVault { va_keys : gmap string string; va_contexts : gmap string string }.
Definition empty_vault : Vault := mkVault ∅ ∅.

Definition vault_register (keyId rawKey : string) (v : Vault) : exc unit * Vault :=
  if decide (keyId = "") then (Throw (Error "keyId must be a non-empty string."), v)
  else if decide (rawKey = "") then (Throw (Error "rawKey must be non-empty."), v)
  else if decide (is_Some (va_keys v !! keyId)) then
    (Throw (Error ("Key '" +:+ keyId +:+ "' is already registered. Call revoke() first.")), v)
  else (Ok tt, mkVault (<[keyId := rawKey]> (va_keys v)) (va_contexts v)).
(** [openContext], with the token that was drawn. *)
Definition vault_openContext (scope token : string) (v : Vault) : exc VaultContext * Vault :=
  if decide (scope = "") then (Throw (Error "scope must be a non-empty string."), v)
  else (Ok (mkContext scope token), mkVault (va_keys v) (<[token := scope]> (va_contexts v))).
Definition vault_retrieve (keyId : string) (context : VaultContext) (v : Vault) : exc string :=
  match va_contexts v !! vc_token context with
  | None => Throw (Error "Invalid or unrecognised vault context.")
  | Some storedScope =>
      if decide (storedScope = "") then Throw (Error "Invalid or unrecognised vault context.")
      else if decide (storedScope = vc_scope context) then
        match va_keys v !! keyId with
        | Some key => Ok key
        | None => Throw (Error ("No key registered for id '" +:+ keyId +:+ "'."))
        end
      else Throw (Error "Vault context scope mismatch.")
  end.
Definition vault_closeContext (context : VaultContext) (v : Vault) : Vault :=
  mkVault (va_keys v) (delete (vc_token context) (va_contexts v)).
Definition vault_revoke (keyId : string) (v : Vault) : Vault := mkVault (delete keyId (va_keys v)) (va_contexts v).
Definition vault_purge (v : Vault) : Vault := empty_vault.

(** ** Rows and the outside world *)

(** The columns of a relayer that hold its keys; times in milliseconds. *)
Record Relayer := mkRelayer {
  rl_id : Z;
  rl_name : string;
  rl_publicKey : option string;
  rl_encryptedPrivateKey : option string;
  rl_encryptedDek : option string;
  rl_dekVersion : option Z;
  rl_dekEncryptedAt : option Z;
  rl_dekRotationScheduledAt : option Z;
  rl_keyGeneratedAt : option Z;
}.

(** The key management service, which answers with the plaintext key in hexadecimal and the
    encrypted one in base64; the clock, tokens and key pairs. A key pair is its public key
    and its secret. *)
Class KeyWorld (H : Type) := {
  key_clock : M H Z;
  kms_generate : M H (option string * option string);
  kms_decrypt : string → M H (option string);
  draw_token : H → string * H;
  draw_keypair : M H (string * string);
  keypair_fromSecret : string → exc string;
}.

Record key_state (D H : Type) := mkKeyState {
  ks_svc : svc D H;
  ks_vault : Vault;
  ks_isRotating : bool;
}.
Arguments mkKeyState {D H} _ _ _.
Arguments ks_svc {D H} _.
Arguments ks_vault {D H} _.
Arguments ks_isRotating {D H} _.

Record EncryptedData := mkEncrypted { ed_ciphertext : string; ed_encryptedDek : string; ed_dekVersion : Z }.
Definition DEK_LENGTH : nat := 32.
Definition ROTATION_INTERVAL_DAYS : Z := 90.
Definition ROTATION_GRACE_PERIOD_HOURS : Z := 24.
Definition days_ms (days : Z) : Z := days * 24 * 60 * 60 * 1000.

Definition KmsEnvelopeError (message code : string) : js_error := mk_error message (Some code) None.
Definition RelayerKeyError (message code : string) : js_error := mk_error message (Some code) None.

Section service.
Context {D H : Type} `{!PrismaTable Z Relayer D} `{!KeyWorld H} `{!Ciphers H}.
(** [KMS_ENVELOPE_KEY_ID] *)
Context (kmsKeyId : string).
Notation state := (key_state D H).
Notation call := (prog state).

Definition with_keys (s : state) (w : svc D H) : state := mkKeyState w (ks_vault s) (ks_isRotating s).
Definition in_svc {A} (c : M (svc D H) A) : M state A := λ s, let '(r, w) := c (ks_svc s) in (r, with_keys s w).
Definition in_world {A} (c : M H A) : call A := await (in_svc (on_env c)).
Definition in_vault {A} (c : Vault → exc A * Vault) : M state A := λ s,
  let '(r, v) := c (ks_vault s) in (r, mkKeyState (ks_svc s) v (ks_isRotating s)).

(** ** Envelopes *)

(** [new KmsEnvelopeService()] of the first use *)
Definition getKmsEnvelopeService : exc unit :=
  if decide (kmsKeyId = "") then
    Throw (KmsEnvelopeError "KMS_ENVELOPE_KEY_ID environment variable is required" "MISSING_KMS_KEY_ID")
  else Ok tt.

Definition dek_bytes (dek : string) : nat := (String.length dek / 2)%nat.
Definition wrong_length (dek : string) : js_error :=
  Error ("Expected " +:+ pretty DEK_LENGTH +:+ "-byte DEK, got " +:+ pretty (dek_bytes dek) +:+ " bytes").
Definition generateDataKey : call (string * string) :=
  pcatch
    (response <~ in_world kms_generate ;;
     match response with
     | (Some plaintext, Some blob) =>
         if decide (dek_bytes plaintext = DEK_LENGTH) then pret (plaintext, blob) else pthrow (wrong_length plaintext)
     | _ => pthrow (Error "KMS returned incomplete data key")
     end)
    (λ e, pthrow (KmsEnvelopeError ("Failed to generate data key: " +:+ err_message e) "DEK_GENERATION_FAILED")).
Definition decryptDataKey (encryptedDek : string) : call string :=
  pcatch
    (response <~ in_world (kms_decrypt encryptedDek) ;;
     match response with
     | Some plaintext =>
         if decide (dek_bytes plaintext = DEK_LENGTH) then pret plaintext else pthrow (wrong_length plaintext)
     | None => pthrow (Error "KMS returned empty plaintext")
     end)
    (λ e, pthrow (KmsEnvelopeError ("Failed to decrypt data key: " +:+ err_message e) "DEK_DECRYPTION_FAILED")).
Definition invalid_dek (dek : string) : js_error :=
  KmsEnvelopeError ("Invalid DEK length: expected " +:+ pretty DEK_LENGTH +:+ " bytes, got " +:+ pretty (dek_bytes dek)) "INVALID_DEK_LENGTH".
Definition encryptWithDek (plaintext dek : string) : M H string :=
  if decide (dek_bytes dek = DEK_LENGTH) then seal dek plaintext else throw (invalid_dek dek).
Definition decryptWithDek (ciphertext dek : string) : exc string :=
  if decide (dek_bytes dek = DEK_LENGTH) then
    match unseal dek ciphertext with
    | Ok plain => Ok plain
    | Throw e => Throw (KmsEnvelopeError ("Decryption failed: " +:+ err_message e) "DECRYPTION_FAILED")
    end
  else Throw (invalid_dek dek).

Definition envelope_encrypt (plaintext : string) (dekVersion : Z) : call EncryptedData :=
  key <~ generateDataKey ;;
  ciphertext <~ in_world (encryptWithDek plaintext key.1) ;;
  pret (mkEncrypted ciphertext key.2 dekVersion).
Definition envelope_decrypt (data : EncryptedData) : call string :=
  dek <~ decryptDataKey (ed_encryptedDek data) ;;
  Done (decryptWithDek (ed_ciphertext data) dek).
Definition rotateEncryption (data : EncryptedData) (newDekVersion : Z) : call EncryptedData :=
  oldDek <~ decryptDataKey (ed_encryptedDek data) ;;
  plaintext <~ Done (decryptWithDek (ed_ciphertext data) oldDek) ;;
  envelope_encrypt plaintext newDekVersion.
Definition validateEncryption (data : EncryptedData) : call bool :=
  pcatch (envelope_decrypt data ;~ pret true) (λ _, pret false).

(** ** Rotation *)

Record RotationResult := mkRotation {
  rr_relayerId : Z;
  rr_relayerName : string;
  rr_success : bool;
  rr_oldDekVersion : Z;
  rr_newDekVersion : Z;
  rr_error : option string;
}.
(** [v || d] *)
Definition nonzero_or (v : option Z) (d : Z) : Z := match v with Some 0 | None => d | Some z => z end.
Definition findRelayer (id : Z) : call (option Relayer) := await (in_svc (query (findUnique id))).
Definition update_relayer (id : Z) (f : Z → Relayer → Relayer) : M state Relayer :=
  in_svc (t <- on_env key_clock ;; on_db (update id (f t))).

Definition rotated (data : EncryptedData) (t : Z) (r : Relayer) : Relayer :=
  mkRelayer (rl_id r) (rl_name r) (rl_publicKey r) (Some (ed_ciphertext data)) (Some (ed_encryptedDek data))
    (Some (ed_dekVersion data)) (Some t) (Some (t + days_ms ROTATION_INTERVAL_DAYS)) (rl_keyGeneratedAt r).
Definition failed_rotation (r : Relayer) (error : string) : RotationResult :=
  mkRotation (rl_id r) (rl_name r) false (nonzero_or (rl_dekVersion r) 0) (nonzero_or (rl_dekVersion r) 0) (Some error).
(** From the row that was read to the new encryption of its key. *)
Definition rotate_encryption_of (r : Relayer) (ciphertext encryptedDek : string) : call EncryptedData :=
  let oldVersion := nonzero_or (rl_dekVersion r) 1 in
  _ <~ Done getKmsEnvelopeService ;;
  rotateEncryption (mkEncrypted ciphertext encryptedDek oldVersion) (oldVersion + 1).
Definition write_rotation (r : Relayer) (data : EncryptedData) : call RotationResult :=
  await (update_relayer (rl_id r) (rotated data)) ;~
  pret (mkRotation (rl_id r) (rl_name r) true (nonzero_or (rl_dekVersion r) 1) (nonzero_or (rl_dekVersion r) 1 + 1) None).
Definition key_columns (r : Relayer) : option (string * string) :=
  match rl_encryptedPrivateKey r, rl_encryptedDek r with
  | Some (String _ _ as c), Some (String _ _ as d) => Some (c, d)
  | _, _ => None
  end.
Definition rotateRelayerDek (relayerId : Z) : call RotationResult :=
  relayer <~ findRelayer relayerId ;;
  match relayer with
  | None => pret (mkRotation relayerId "Unknown" false 0 0 (Some "Relayer not found"))
  | Some r =>
      match key_columns r with
      | None => pret (failed_rotation r "No encrypted key data found")
      | Some (ciphertext, encryptedDek) =>
          pcatch (data <~ rotate_encryption_of r ciphertext encryptedDek ;; write_rotation r data)
            (λ e, pret (failed_rotation r (err_message e)))
      end
  end.

Definition due_by (t : option Z) (bound : Z) : bool := match t with Some t => t <=? bound | None => false end.
Definition needs_rotation (now : Z) (r : Relayer) : bool :=
  bool_decide (is_Some (rl_encryptedPrivateKey r)) && bool_decide (is_Some (rl_encryptedDek r)) &&
  (due_by (rl_dekRotationScheduledAt r) now ||
   bool_decide (rl_dekRotationScheduledAt r = None) && due_by (rl_dekEncryptedAt r) (now - days_ms ROTATION_INTERVAL_DAYS)).
(** The rows the clock of the call selects. *)
Definition select_relayers (f : Z → Relayer → bool) : M state (list Relayer) :=
  in_svc (now <- on_env key_clock ;; query (λ d, rows ← findAll d; Ok (filter (λ r, f now r = true) rows))).
Definition findRelayersNeedingRotation : call (list Relayer) := await (select_relayers needs_rotation).

(** Its times aside. *)
Record RotationSummary := mkSummary {
  su_totalRelayers : nat;
  su_rotatedCount : nat;
  su_failedCount : nat;
  su_skippedCount : nat;
  su_results : list RotationResult;
}.
Definition no_summary : RotationSummary := mkSummary 0 0 0 0 [].
Definition set_rotating (b : bool) (s : state) : state := mkKeyState (ks_svc s) (ks_vault s) b.
(** Is a batch under way? If not, one is from now on. *)
Definition take_rotating : call bool := await (λ s, (Ok (ks_isRotating s), set_rotating true s)).
Definition release_rotating : call unit := await (modify (set_rotating false)).
Definition pause_between : call unit := await (λ s, (Ok tt, s)).
Fixpoint rotate_each (l : list Relayer) : call (list RotationResult) :=
  match l with
  | [] => pret []
  | r :: l' =>
      result <~ rotateRelayerDek (rl_id r) ;;
      pause_between ;~
      results <~ rotate_each l' ;;
      pret (result :: results)
  end.
Definition rotate_batch (dryRun : bool) (maxRelayers : option nat) : call RotationSummary :=
  relayers <~ findRelayersNeedingRotation ;;
  let relayersToRotate := match maxRelayers with Some (S _ as n) => take n relayers | _ => relayers end in
  if decide (relayersToRotate = []) then pret no_summary
  else if dryRun then pret (mkSummary (length relayersToRotate) 0 0 (length relayersToRotate) [])
  else
    results <~ rotate_each relayersToRotate ;;
    pret (mkSummary (length relayersToRotate) (length (filter (λ r, rr_success r = true) results))
            (length (filter (λ r, rr_success r = false) results)) 0 results).
Definition rotateAllOverdueDeks (dryRun : bool) (maxRelayers : option nat) : call RotationSummary :=
  busy <~ take_rotating ;;
  if busy : bool then pret no_summary
  else pfinally (rotate_batch dryRun maxRelayers) release_rotating.

Definition findSeverelyOverdueRelayers (gracePeriodHours : Z) : call (list Relayer) :=
  await (select_relayers (λ now r, bool_decide (is_Some (rl_encryptedPrivateKey r)) &&
    due_by (rl_dekRotationScheduledAt r) (now - gracePeriodHours * 60 * 60 * 1000))).
Definition scheduled_at (at_ : Z) (r : Relayer) : Relayer :=
  mkRelayer (rl_id r) (rl_name r) (rl_publicKey r) (rl_encryptedPrivateKey r) (rl_encryptedDek r) (rl_dekVersion r)
    (rl_dekEncryptedAt r) (Some at_) (rl_keyGeneratedAt r).
Definition scheduleNextRotation (relayerId daysFromNow : Z) : call unit :=
  await (update_relayer relayerId (λ t, scheduled_at (t + days_ms daysFromNow))) ;~ pret tt.

Record RotationStats := mkStats { st_totalWithKeys : nat; st_overdueCount : nat; st_upcomingCount : nat; st_neverRotatedCount : nat }.
Definition has_private (r : Relayer) : bool := bool_decide (is_Some (rl_encryptedPrivateKey r)).
Definition after (t : option Z) (bound : Z) : bool := match t with Some t => bound <? t | None => false end.
(** Four counts under way at once; [turn] says which goes first. *)
Definition getRotationStats (turn : state → bool) : call RotationStats :=
  now <~ in_world key_clock ;;
  answers <~ settle_all turn ((λ p, await (in_svc (query (count p)))) <$>
    [(λ r, has_private r && bool_decide (is_Some (rl_encryptedDek r)));
     (λ r, has_private r && due_by (rl_dekRotationScheduledAt r) now);
     (λ r, has_private r && after (rl_dekRotationScheduledAt r) now && due_by (rl_dekRotationScheduledAt r) (now + days_ms 7));
     (λ r, has_private r && bool_decide (rl_dekRotationScheduledAt r = None))]) ;;
  counts <~ Done (mapM id answers) ;;
  let nth_count i := default 0%nat (counts !! i) in
  pret (mkStats (nth_count 0%nat) (nth_count 1%nat) (nth_count 2%nat) (nth_count 3%nat)).

(** ** Key pairs *)

Record RelayerKeyInfo := mkKeyInfo {
  ki_relayerId : Z;
  ki_relayerName : string;
  ki_publicKey : string;
  ki_hasPrivateKey : bool;
  ki_version : Z;
  ki_keyGeneratedAt : option Z;
  ki_dekEncryptedAt : option Z;
  ki_dekRotationScheduledAt : option Z;
}.
Definition VAULT_KEY_PREFIX : string := "relayer-key-".
Definition vault_key (id : Z) : string := VAULT_KEY_PREFIX +:+ pretty id.
Definition relayer_not_found : js_error := RelayerKeyError "Relayer not found" "RELAYER_NOT_FOUND".
Definition existing_relayer (id : Z) : call Relayer :=
  relayer <~ findRelayer id ;;
  match relayer with Some r => pret r | None => pthrow relayer_not_found end.

Definition new_pair (publicKey : string) (data : EncryptedData) (t : Z) (r : Relayer) : Relayer :=
  mkRelayer (rl_id r) (rl_name r) (Some publicKey) (Some (ed_ciphertext data)) (Some (ed_encryptedDek data))
    (Some (ed_dekVersion data)) (Some t) (Some (t + days_ms ROTATION_INTERVAL_DAYS)) (Some t).
Definition pair_info (r : Relayer) : RelayerKeyInfo :=
  mkKeyInfo (rl_id r) (rl_name r) (default "" (rl_publicKey r)) true (nonzero_or (rl_dekVersion r) 1)
    (rl_keyGeneratedAt r) (rl_dekEncryptedAt r) (rl_dekRotationScheduledAt r).
Definition generateAndStoreKeyPair (relayerId : Z) (force : bool) : call RelayerKeyInfo :=
  relayer <~ existing_relayer relayerId ;;
  if truthy_opt (rl_encryptedPrivateKey relayer) && negb force then
    pthrow (RelayerKeyError ("Relayer '" +:+ rl_name relayer +:+ "' already has a key pair. Use force=true to regenerate.")
              "KEY_ALREADY_EXISTS")
  else
    pcatch
      (keypair <~ in_world draw_keypair ;;
       _ <~ Done getKmsEnvelopeService ;;
       encryptedData <~ envelope_encrypt keypair.2 1 ;;
       updated <~ await (update_relayer (rl_id relayer) (new_pair keypair.1 encryptedData)) ;;
       pret (pair_info updated))
      (λ e, pthrow (RelayerKeyError ("Failed to generate key pair: " +:+ err_message e) "KEY_GENERATION_FAILED")).

(** Revoke a stale entry, register the key and open a context, without an [await]. *)
Definition load_key (id : Z) (privateKey : string) : M state VaultContext :=
  in_vault (λ v, (Ok tt, vault_revoke (vault_key id) v)) ;;;
  in_vault (vault_register (vault_key id) privateKey) ;;;
  token <- in_svc (on_env (λ h, let '(t, h') := draw_token h in (Ok t, h'))) ;;
  in_vault (vault_openContext ("relayer-" +:+ pretty id +:+ "-signing") token).
Definition retrievePrivateKey (relayerId : Z) : call VaultContext :=
  relayer <~ existing_relayer relayerId ;;
  match key_columns relayer with
  | None => pthrow (RelayerKeyError ("No private key found for relayer '" +:+ rl_name relayer +:+ "'") "NO_PRIVATE_KEY")
  | Some (ciphertext, encryptedDek) =>
      pcatch
        (_ <~ Done getKmsEnvelopeService ;;
         privateKey <~ envelope_decrypt (mkEncrypted ciphertext encryptedDek (nonzero_or (rl_dekVersion relayer) 1)) ;;
         await (load_key (rl_id relayer) privateKey))
        (λ e, pthrow (RelayerKeyError ("Failed to retrieve private key: " +:+ err_message e) "KEY_RETRIEVAL_FAILED"))
  end.
Definition getPrivateKeyFromVault (relayerId : Z) (context : VaultContext) : call string :=
  await (λ s, (vault_retrieve (vault_key relayerId) context (ks_vault s), s)).
Definition revokePrivateKey (relayerId : Z) (context : VaultContext) : call unit :=
  await (in_vault (λ v, (Ok tt, vault_revoke (vault_key relayerId) (vault_closeContext context v)))).
Definition withPrivateKey {T} (relayerId : Z) (callback : string → call T) : call T :=
  context <~ retrievePrivateKey relayerId ;;
  pfinally (privateKey <~ getPrivateKeyFromVault relayerId context ;; callback privateKey)
    (revokePrivateKey relayerId context).

Definition rotateKeyPair (relayerId : Z) : call RelayerKeyInfo :=
  existing_relayer relayerId ;~ generateAndStoreKeyPair relayerId true.
Definition key_info (r : Relayer) : RelayerKeyInfo :=
  mkKeyInfo (rl_id r) (rl_name r) (default "" (rl_publicKey r)) (truthy_opt (rl_encryptedPrivateKey r))
    (nonzero_or (rl_dekVersion r) 0) (rl_keyGeneratedAt r) (rl_dekEncryptedAt r) (rl_dekRotationScheduledAt r).
Definition getKeyInfo (relayerId : Z) : call (option RelayerKeyInfo) :=
  relayer <~ findRelayer relayerId ;; pret (key_info <$> relayer).
(** [orderBy: { name: "asc" }], in the order the database has for texts *)
Definition listAllKeys (by_name : list Relayer → list Relayer) : call (list RelayerKeyInfo) :=
  relayers <~ await (in_svc (query findAll)) ;; pret (key_info <$> by_name relayers).
(** The callback of the validation: is the secret that of the public key stored? *)
Definition check_pair (relayerId : Z) (privateKey : string) : call bool :=
  publicKey <~ Done (keypair_fromSecret privateKey) ;;
  relayer <~ findRelayer relayerId ;;
  match relayer ≫= rl_publicKey with
  | Some (String _ _ as stored) =>
      if decide (publicKey = stored) then pret true
      else pthrow (Error "Public key mismatch: decrypted key does not match stored public key")
  | _ => pret true
  end.
Definition validateEncryptedKey (relayerId : Z) : call bool := withPrivateKey relayerId (check_pair relayerId).

Definition without_keys (r : Relayer) : Relayer :=
  mkRelayer (rl_id r) (rl_name r) None None None None None None None.
Definition deleteKeyPair (relayerId : Z) : call unit :=
  existing_relayer relayerId ;~ await (update_relayer relayerId (λ _, without_keys)) ;~ pret tt.
End service.

(** ** What a row holds *)

(** What is known of the key management service: each encrypted key is that of one key,
    which is the only one it is ever decrypted to. *)
Class KmsLaws (H : Type) `{!KeyWorld H} := {
  wrapped : string → string;
  kms_decrypt_wrapped blob dek (h h' : H) : kms_decrypt blob h = (Ok (Some dek), h') → dek = wrapped blob;
  kms_generate_wrapped dek blob (h h' : H) : kms_generate h = (Ok (Some dek, Some blob), h') → wrapped blob = dek ∧ blob ≠ "";
}.

Section facts.
Context {D H : Type} `{!PrismaTable Z Relayer D} `{!KeyWorld H} `{!Ciphers H} `{!GcmLaws H} `{!KmsLaws H}.
Context (kmsKeyId : string).
Notation state := (key_state D H).
Notation call := (prog state).

(** The private key that the columns of a row hold. *)
Definition sealed_key (c b secret : string) : Prop := decryptWithDek c (wrapped b) = Ok secret.
Definition holds_key (r : Relayer) (secret : string) : Prop :=
  match key_columns r with Some (c, b) => sealed_key c b secret | None => False end.
Definition data_holds (secret : string) (data : EncryptedData) : Prop :=
  ed_ciphertext data ≠ "" ∧ ed_encryptedDek data ≠ "" ∧ sealed_key (ed_ciphertext data) (ed_encryptedDek data) secret.
Definition stored_key (w : state) (id : Z) (secret : string) (public : option string) : Prop :=
  ∃ r, rows (svc_db (ks_svc w)) !! id = Some r ∧ holds_key r secret ∧ rl_publicKey r = public.

Lemma key_columns_data c b r : c ≠ "" → b ≠ "" → rl_encryptedPrivateKey r = Some c → rl_encryptedDek r = Some b →
  key_columns r = Some (c, b).
Proof. clear. unfold key_columns. intros Hc Hb -> ->. by destruct c, b. Qed.
Lemma rotated_holds data t r secret : data_holds secret data → holds_key (rotated data t r) secret.
Proof using. intros (Hc & Hb & Hs). unfold holds_key. by rewrite (key_columns_data (ed_ciphertext data) (ed_encryptedDek data)). Qed.
Lemma new_pair_holds p data t r secret : data_holds secret data → holds_key (new_pair p data t r) secret.
Proof using. intros (Hc & Hb & Hs). unfold holds_key. by rewrite (key_columns_data (ed_ciphertext data) (ed_encryptedDek data)). Qed.

Lemma yields_world {A} (P : A → Prop) (c : M H A) : (∀ h a h', c h = (Ok a, h') → P a) → yields P (in_world (D := D) c).
Proof using.
  clear. intros Hc. apply yields_await. intros w a w'. unfold in_svc, on_env. destruct (c (svc_env (ks_svc w))) as [r h] eqn:E.
  intros [= -> _]. by eapply Hc.
Qed.
Lemma generate_yields : yields (λ k, wrapped k.2 = k.1 ∧ k.2 ≠ "") (generateDataKey (D := D)).
Proof using All.
  apply yields_catch; [|done]. apply yields_bind with (Q := λ o, match o with (Some k, Some b) => wrapped b = k ∧ b ≠ "" | _ => True end).
  - apply yields_world. intros h [[k|] [b|]] h' E; [|done..]. by eapply kms_generate_wrapped.
  - intros [[k|] [b|]] Hk; [|done..]. by case_decide.
Qed.
Lemma decrypt_yields b : yields (λ k, k = wrapped b) (decryptDataKey (D := D) b).
Proof using All.
  apply yields_catch; [|done]. apply yields_bind with (Q := λ o, match o with Some k => k = wrapped b | _ => True end).
  - apply yields_world. intros h [k|] h' E; [|done]. by eapply kms_decrypt_wrapped.
  - intros [k|] Hk; [|done]. by case_decide.
Qed.
Lemma encrypt_yields secret v : yields (data_holds secret) (envelope_encrypt (D := D) secret v).
Proof using All.
  eapply yields_bind; [apply generate_yields|]. intros [dek b] [Hw Hb]. simpl in Hw, Hb. cbn [fst snd].
  eapply yields_bind with (Q := λ c, c ≠ "" ∧ decryptWithDek c dek = Ok secret); [|].
  - apply yields_world. intros h c h'. unfold encryptWithDek, decryptWithDek. case_decide; [|done].
    intros [Hc E]%unseal_seal. by rewrite E.
  - intros c [Hc E]. split_and!; [done|done|]. unfold sealed_key. simpl. by rewrite Hw.
Qed.
Lemma decrypt_holds c b v secret : sealed_key c b secret →
  yields (λ s, s = secret) (envelope_decrypt (D := D) (mkEncrypted c b v)).
Proof using All.
  intros Hs. eapply yields_bind; [apply decrypt_yields|]. intros k ->. simpl. unfold sealed_key in Hs. by rewrite Hs.
Qed.
(** A rotation that yields data has decrypted the key, and encrypted it again. *)
Lemma rotate_encryption_yields r c b : yields (λ data, ∃ secret, sealed_key c b secret ∧ data_holds secret data)
  (rotate_encryption_of (D := D) kmsKeyId r c b).
Proof using All.
  unfold rotate_encryption_of, getKmsEnvelopeService. case_decide; [done|]. cbn [pbind].
  eapply yields_bind; [apply decrypt_yields|]. intros k ->. cbn [ed_ciphertext ed_encryptedDek].
  destruct (decryptWithDek c (wrapped b)) as [secret|e] eqn:E; [|done]. cbn [pbind].
  eapply yields_mono; [apply encrypt_yields|]. intros data Hd. by exists secret.
Qed.

(** ** Rotations keep keys *)

(** Rows stand under their ids, and private keys stay with their public keys. *)
Definition keyed (w : state) : Prop := map_Forall (λ k r, rl_id r = k) (rows (svc_db (ks_svc w))).
Definition keys_kept (w w' : state) : Prop := ∀ id secret public, stored_key w id secret public → stored_key w' id secret public.
#[local] Instance keys_kept_preorder : PreOrder keys_kept.
Proof. split; [by intros w id s p Hs|]. intros w1 w2 w3 H12 H23 id s p Hs. by apply H23, H12. Qed.
Notation fine := (well_behaved keyed keys_kept).

Lemma fine_same {A} (c : M state A) : (∀ w, svc_db (ks_svc (final c w)) = svc_db (ks_svc w)) → fine (await c).
Proof using.
  intros Hc. apply well_behaved_await. intros w Hw. split; [unfold keyed; by rewrite Hc|].
  intros id s p (r & Hr & ?). exists r. by rewrite Hc.
Qed.
Lemma in_svc_final {A} (c : M (svc D H) A) w : ks_svc (final (in_svc c) w) = final c (ks_svc w).
Proof using. clear. unfold final, in_svc. by destruct (c (ks_svc w)). Qed.
Lemma fine_keys_world {A} (c : M H A) : fine (in_world c).
Proof using. apply fine_same. intros w. by rewrite in_svc_final, on_env_db. Qed.
Lemma fine_query {A} (q : D → exc A) : fine (await (in_svc (query q))).
Proof using. apply fine_same. intros w. by rewrite in_svc_final. Qed.
Lemma fine_select f : fine (await (select_relayers f)).
Proof using.
  apply fine_same. intros w. unfold select_relayers. rewrite in_svc_final. unfold final, bind, on_env, query.
  by destruct (key_clock (svc_env (ks_svc w))) as [[t|e] h].
Qed.
Lemma fine_vault {A} (c : Vault → exc A * Vault) : fine (await (in_vault c)).
Proof using. apply fine_same. intros w. unfold final, in_vault. by destruct (c (ks_vault w)). Qed.
#[local] Hint Resolve fine_keys_world fine_query fine_select fine_vault : sf.

Lemma update_relayer_rows id f w :
  (∃ e, outcome (update_relayer id f) w = Throw e ∧ rows (svc_db (ks_svc (final (update_relayer id f) w))) = rows (svc_db (ks_svc w))) ∨
  ∃ r t, rows (svc_db (ks_svc w)) !! id = Some r ∧ outcome (update_relayer id f) w = Ok (f t r) ∧
    rows (svc_db (ks_svc (final (update_relayer id f) w))) = <[id := f t r]> (rows (svc_db (ks_svc w))).
Proof using.
  clear. unfold update_relayer, outcome, final, in_svc, bind, on_env, on_db.
  destruct (key_clock (svc_env (ks_svc w))) as [[t|e] h]; simpl; [|left; eauto].
  destruct (update id (f t) (svc_db (ks_svc w))) as [[r|e] d] eqn:E; simpl.
  - apply update_ok in E as (r0 & Hr & -> & ->). right. eauto.
  - apply update_err in E as ->. left. eauto.
Qed.
(** An update that leaves every key that the row may hold in its place. *)
Lemma fine_relayer_update (Pre : state → Prop) id f :
  (∀ t r, rl_id (f t r) = rl_id r) →
  (∀ w t r secret public, keyed w → Pre w → rows (svc_db (ks_svc w)) !! id = Some r → holds_key r secret → rl_publicKey r = public →
     holds_key (f t r) secret ∧ rl_publicKey (f t r) = public) →
  guarantee keyed keys_kept Pre (await (update_relayer id f)) (λ _ _, True).
Proof using.
  intros Hid Hf. apply guarantee_await. intros w Hw HPre.
  destruct (update_relayer_rows id f w) as [(e & _ & E)|(r & t & Hr & _ & E)].
  - split_and!; [unfold keyed; by rewrite E| |done]. intros k s p (r & ? & ?). exists r. by rewrite E.
  - split_and!; [| |done].
    + unfold keyed. rewrite E. apply map_Forall_insert_2; [rewrite Hid; by apply Hw|done].
    + intros k s p (r1 & Hr1 & Hk & Hp). destruct (decide (k = id)) as [->|Hne].
      * assert (r1 = r) as -> by congruence. exists (f t r). rewrite E, lookup_insert_eq. split; [done|]. by eapply Hf.
      * exists r1. rewrite E, lookup_insert_ne by done. done.
Qed.

Lemma fine_generate : fine generateDataKey.
Proof using. unfold generateDataKey. behave. Qed.
Lemma fine_decrypt b : fine (decryptDataKey b).
Proof using. unfold decryptDataKey. behave. Qed.
#[local] Hint Resolve fine_generate fine_decrypt : sf.
Lemma fine_encrypt secret v : fine (envelope_encrypt secret v).
Proof using. unfold envelope_encrypt. behave. Qed.
#[local] Hint Resolve fine_encrypt : sf.
Lemma fine_rotate_encryption r c b : fine (rotate_encryption_of kmsKeyId r c b).
Proof using. unfold rotate_encryption_of, rotateEncryption. behave. Qed.
Lemma holds_key_functional r s s' : holds_key r s → holds_key r s' → s = s'.
Proof using. unfold holds_key, sealed_key. destruct (key_columns r) as [[c b]|]; [|done]. congruence. Qed.

Lemma fine_rotate id : fine (rotateRelayerDek kmsKeyId id).
Proof using All.
  unfold rotateRelayerDek. apply guarantee_bind; [apply _|].
  eapply guarantee_post with (Post := λ o w, ∀ r, o = Ok (Some r) → ∀ secret, holds_key r secret → ∃ p, stored_key w (rl_id r) secret p).
  { apply guarantee_read; [apply _|intros w; unfold final, in_svc; simpl; by destruct w as [[]]|].
    intros w w' Hw _ HR _ r E secret Hk. exists (rl_publicKey r). apply HR. exists r. split; [|done].
    unfold outcome, in_svc, query in E. simpl in E. apply findUnique_ok in E.
    by rewrite (Hw _ _ (eq_sym E)). }
  intros [[r|]|e] w HI Hs; [|done..]. specialize (Hs r eq_refl).
  destruct (key_columns r) as [[c b]|] eqn:Ec; [|done]. apply guarantee_catch; [apply _|].
  eapply guarantee_post with (Post := λ _ _, True); [|intros [x|e] w' _ _; [done|]; by eapply guarantee_pre with (Pre := λ _, True)].
  destruct (decryptWithDek c (wrapped b)) as [secret|e] eqn:E.
  - assert (holds_key r secret) as Hk by (unfold holds_key; by rewrite Ec).
    eapply guarantee_pre with (Pre := λ w, ∃ p, stored_key w (rl_id r) secret p).
    2:{ intros w' _ HR. destruct (Hs secret Hk) as [p Hp]. exists p. by apply HR. }
    eapply guarantee_yields; [|apply fine_rotate_encryption|apply (rotate_encryption_yields r c b)| |done].
    { intros w1 w2 [p Hp] HR. exists p. by apply HR. }
    intros data (secret' & Hs' & Hd). assert (secret' = secret) as -> by (unfold sealed_key in Hs'; congruence).
    unfold write_rotation. apply guarantee_bind; [apply _|].
    eapply guarantee_post; [apply fine_relayer_update|]; [done| |by intros [x|e] w' _ _].
    intros w1 t r1 s1 p1 _ (p2 & r2 & Hr2 & Hk2 & _) Hr1 Hk1 <-. split; [|done].
    assert (r2 = r1) as -> by congruence. rewrite (holds_key_functional r1 s1 secret) by done. by apply rotated_holds.
  - eapply guarantee_pre with (Pre := λ _, True); [|done].
    eapply guarantee_yields; [done|apply fine_rotate_encryption|apply (rotate_encryption_yields r c b)| |done].
    intros data (secret & Hs' & _). unfold sealed_key in Hs'. congruence.
Qed.
#[local] Hint Resolve fine_rotate : sf.

Lemma fine_pause : fine pause_between.
Proof using. by apply fine_same. Qed.
Lemma fine_rotating : fine take_rotating ∧ fine release_rotating.
Proof using. split; by apply fine_same. Qed.
#[local] Hint Resolve fine_pause : sf.
Lemma fine_each l : fine (rotate_each kmsKeyId l).
Proof using All. induction l as [|r l IH]; cbn [rotate_each]; behave. Qed.
#[local] Hint Resolve fine_each : sf.
Lemma fine_batch dryRun n : fine (rotateAllOverdueDeks kmsKeyId dryRun n).
Proof using All.
  unfold rotateAllOverdueDeks. apply well_behaved_bind; [apply _|apply fine_rotating|]. intros [|]; [done|].
  apply well_behaved_finally; [apply _| |apply fine_rotating].
  unfold rotate_batch, findRelayersNeedingRotation. behave.
Qed.
Lemma fine_existing id : fine (existing_relayer id).
Proof using. unfold existing_relayer, findRelayer. behave. Qed.
#[local] Hint Resolve fine_existing : sf.
Lemma fine_retrieve id : fine (retrievePrivateKey kmsKeyId id).
Proof using.
  unfold retrievePrivateKey, envelope_decrypt. behave. apply fine_same. intros w. unfold load_key, final, bind, in_vault.
  simpl. destruct (vault_register _ _ _) as [[u|e] v]; [|done]. unfold in_svc, on_env. simpl.
  by destruct (draw_token _) as [t h].
Qed.
Lemma fine_vault_get id context : fine (getPrivateKeyFromVault id context).
Proof using. by apply fine_same. Qed.
#[local] Hint Resolve fine_retrieve fine_vault_get : sf.
Lemma fine_with {T} id (callback : string → call T) : (∀ k, fine (callback k)) → fine (withPrivateKey kmsKeyId id callback).
Proof using. intros Hc. unfold withPrivateKey, revokePrivateKey. behave. Qed.
Lemma fine_schedule id days : fine (scheduleNextRotation id days).
Proof using.
  unfold scheduleNextRotation. apply well_behaved_bind; [apply _| |done]. apply fine_relayer_update; [done|].
  intros w t r s p _ _ _ Hk Hp. done.
Qed.

(** The calls that use keys or rotate their encryption, those that make or delete key pairs aside. *)
Inductive using_call : call unit → Prop :=
| use_rotate id : using_call (forget (rotateRelayerDek kmsKeyId id))
| use_batch dryRun n : using_call (forget (rotateAllOverdueDeks kmsKeyId dryRun n))
| use_schedule id days : using_call (forget (scheduleNextRotation id days))
| use_overdue hours : using_call (forget (findSeverelyOverdueRelayers hours))
| use_key id (callback : string → call unit) :
    (∀ k, every (λ w w', svc_db (ks_svc w') = svc_db (ks_svc w)) (callback k)) → using_call (withPrivateKey kmsKeyId id callback)
| use_validate id : using_call (forget (validateEncryptedKey kmsKeyId id)).

Lemma using_fine p : using_call p → fine p.
Proof using All.
  intros [id|dryRun n|id days|hours|id callback Hc|id]; unfold forget, pmap;
    try (apply well_behaved_bind; [apply _| |done]).
  - apply fine_rotate.
  - apply fine_batch.
  - apply fine_schedule.
  - unfold findSeverelyOverdueRelayers. behave.
  - apply fine_with. intros k. apply every_well_behaved. specialize (Hc k). induction (callback k) as [r|B c k' IH]; [done|].
    simpl in *. intros w. destruct (Hc w) as [E Hk]. split; [|by apply IH]. intros Hw. split; [unfold keyed; by rewrite E|].
    intros i sec pub (r & Hr & ?). exists r. by rewrite E.
  - apply fine_with. intros k. unfold check_pair, findRelayer. behave.
Qed.

(** C9. In every interleaving of rotations, of batches of them, of retrievals and of uses of
    keys, whatever the key management service answers and whatever fails: a relayer holds
    the private key it held, with the public key it had. *)
Theorem rotations_keep_keys env w s id secret public :
  (∀ w w', env w w' → svc_db (ks_svc w') = svc_db (ks_svc w)) → keyed w → stored_key w id secret public →
  rtc (step using_call env) ([], w) s → stored_key s.2 id secret public.
Proof using All.
  intros Henv Hw Hk Hr. refine (proj2 (interleaved_fresh keyed keys_kept using_call env using_fine _ w s Hw Hr) id secret public Hk).
  intros w1 w2 Hw1 E%Henv. split; [unfold keyed; by rewrite E|]. intros i k p (r & ? & ?). exists r. by rewrite E.
Qed.

(** ** A rotation among other calls *)

(** All calls. *)
Inductive key_call : call unit → Prop :=
| call_using p : using_call p → key_call p
| call_generate id force : key_call (forget (generateAndStoreKeyPair kmsKeyId id force))
| call_rotate_pair id : key_call (forget (rotateKeyPair kmsKeyId id))
| call_delete_pair id : key_call (forget (deleteKeyPair id)).

Lemma wp_find_relayer id Q E (w : state) : (∀ e, E e w) → Q (rows (svc_db (ks_svc w)) !! id) w → wp (run (findRelayer id)) Q E w.
Proof using.
  clear. intros He Hq. apply wp_await. unfold wp, in_svc, query. destruct w as [[d h] v b]. simpl.
  destruct (findUnique id d) as [o|e] eqn:Eo; [|by apply He]. by apply findUnique_ok in Eo as ->.
Qed.
Lemma wp_existing id Q E (w : state) :
  (∀ e, E e w) → (∀ r, rows (svc_db (ks_svc w)) !! id = Some r → Q r w) → wp (run (existing_relayer id)) Q E w.
Proof using.
  clear. intros He Hq. apply wp_pbind, wp_find_relayer; [done|]. destruct (rows (svc_db (ks_svc w)) !! id) as [r|]; [|apply He]. by apply Hq.
Qed.
Definition same_table (w w' : state) : Prop := svc_db (ks_svc w') = svc_db (ks_svc w).
#[local] Instance same_table_preorder : PreOrder same_table.
Proof using. clear. split; [by intros w|]. intros w1 w2 w3 E1 E2. unfold same_table in *. congruence. Qed.
Lemma every_world {A} (c : M H A) : every same_table (in_world c).
Proof using. clear. apply every_await. intros w. unfold same_table. by rewrite in_svc_final, on_env_db. Qed.
#[local] Hint Resolve every_world : sf.
Lemma every_encrypt secret v : every same_table (envelope_encrypt secret v).
Proof using. clear. unfold envelope_encrypt, generateDataKey. each. Qed.
Lemma every_rotate_encryption r c b : every same_table (rotate_encryption_of kmsKeyId r c b).
Proof using. unfold rotate_encryption_of, rotateEncryption, decryptDataKey. each. apply every_encrypt. Qed.

(** A row as the last update has left it. *)
Lemma update_relayer_run id f (w : state) r w' : update_relayer id f w = (Ok r, w') →
  ∃ r0 t, rows (svc_db (ks_svc w)) !! id = Some r0 ∧ r = f t r0 ∧ rows (svc_db (ks_svc w')) = <[id := f t r0]> (rows (svc_db (ks_svc w))).
Proof using.
  clear. intros E. destruct (update_relayer_rows id f w) as [(e & E1 & _)|(r0 & t & Hr & E1 & E2)];
    unfold outcome, final in *; rewrite E in *; [done|]. exists r0, t. split_and!; [done|by injection E1|done].
Qed.
Lemma generate_alone id force (w w' : state) info : keyed w → run (generateAndStoreKeyPair kmsKeyId id force) w = (Ok info, w') →
  ∃ r, rows (svc_db (ks_svc w')) !! id = Some r ∧ rl_publicKey r = Some (ki_publicKey info).
Proof using.
  clear KmsLaws0 GcmLaws0. intros Hw Hr. assert (wp (run (generateAndStoreKeyPair kmsKeyId id force)) (λ info w',
    ∃ r, rows (svc_db (ks_svc w')) !! id = Some r ∧ rl_publicKey r = Some (ki_publicKey info)) (λ _ _, True) w) as Hwp;
    [|unfold wp in Hwp; by rewrite Hr in Hwp].
  unfold generateAndStoreKeyPair. apply wp_pbind, wp_existing; [done|]. intros r Hrow. case_match; [done|].
  apply wp_pcatch, wp_pbind.
  assert (∀ A (p : call A) w, wp (run p) (λ _ _, True) (λ _ _, True) w) as Hany.
  { intros A p w0. unfold wp. by destruct (run p w0) as [[x|e] ?]. }
  eapply wp_mono; [apply Hany| |done]. intros pair w1 _. apply wp_sync; [|done]. intros _ _. apply wp_pbind.
  eapply wp_mono; [apply Hany| |done]. intros data w2 _. apply wp_pbind, wp_await. unfold wp.
  destruct (update_relayer _ _ w2) as [[r'|e] w3] eqn:E; [|done].
  apply update_relayer_run in E as (r0 & t & Hr0 & -> & Er). rewrite (Hw _ _ Hrow) in Er. cbn. rewrite Er, lookup_insert_eq. eauto.
Qed.
Lemma delete_alone id (w w' : state) : keyed w → run (deleteKeyPair id) w = (Ok tt, w') →
  ∃ r, rows (svc_db (ks_svc w')) !! id = Some (without_keys r).
Proof using.
  clear kmsKeyId KmsLaws0 GcmLaws0. intros Hw. unfold deleteKeyPair. rewrite !run_pbind. unfold bind.
  destruct (run (existing_relayer id) w) as [[r|e] w1]; [|done]. rewrite run_pbind. unfold bind. rewrite run_await.
  destruct (update_relayer _ _ w1) as [[r'|e] w2] eqn:E; [|done]. intros [= <-].
  apply update_relayer_run in E as (r0 & t & _ & _ & ->). exists r0. by rewrite lookup_insert_eq.
Qed.

(** What a rotation has read and encrypted again, it writes, whatever another call did
    meanwhile. *)
Lemma rotation_writes_old env (q : call unit) id r c b old data (w w1 w2 w3 : state) res u :
  keyed w → key_call q → findUnique id (svc_db (ks_svc w)) = Ok (Some r) → key_columns r = Some (c, b) → sealed_key c b old →
  run (rotate_encryption_of kmsKeyId r c b) w = (Ok data, w1) → run q w1 = (Ok u, w2) →
  run (write_rotation r data) w2 = (Ok res, w3) →
  (∃ ps, rtc (step key_call env) ([], w) (ps, w3)) ∧
  ∀ r2, rows (svc_db (ks_svc w2)) !! id = Some r2 → stored_key w3 id old (rl_publicKey r2).
Proof using All.
  intros Hw Hq Hf Hc Hs H1 H2 H3. assert (rl_id r = id) as Hid by by apply findUnique_ok in Hf; symmetry in Hf; apply Hw in Hf. split.
  - exists [Done (Ok tt); Done (Ok u)]. eapply rtc_l; [apply (step_call _ _ [] w (forget (rotateRelayerDek kmsKeyId id))); by do 2 constructor|].
    set (tail := pcatch (write_rotation r data) (λ e, pret (failed_rotation r (err_message e)))).
    etrans; [apply (alone_steps key_call env [] _ (forget tail) []), alone_bind|].
    { etrans; [apply alone_bind, (alone_run (findRelayer id) w (Ok (Some r)) w)|].
      - unfold findRelayer. rewrite run_await. unfold in_svc, query. rewrite Hf. by destruct w as [[]].
      - simpl. rewrite Hc. apply alone_catch. etrans; [by apply alone_bind, alone_run|]. done. }
    eapply rtc_l; [by apply (step_call _ _ _ _ q)|].
    etrans; [by eapply (alone_steps key_call env [forget tail] q (Done (Ok u)) []), alone_run|].
    apply (alone_steps key_call env [] (forget tail) (Done (Ok tt)) [Done (Ok u)]).
    etrans; [by apply alone_bind, alone_catch, alone_run|]. done.
  - intros r2 Hr2. assert (data_holds old data) as Hd.
    { destruct (yields_run _ _ _ _ _ (rotate_encryption_yields r c b) H1) as (s & Hs' & Hd).
      assert (s = old) as -> by (unfold sealed_key in *; congruence). done. }
    revert H3. unfold write_rotation. rewrite run_pbind. unfold bind. rewrite run_await.
    destruct (update_relayer _ _ w2) as [[r'|e] w4] eqn:E; [|done]. intros [= _ <-].
    apply update_relayer_run in E as (r0 & t & Hr0 & _ & E). rewrite Hid in Hr0, E. assert (r0 = r2) as -> by congruence.
    exists (rotated data t r2). rewrite E, lookup_insert_eq. split_and!; [done|by apply rotated_holds|done].
Qed.

(** C32. A rotation that overlaps a new key pair of the relayer: the row ends with the new
    public key and the old private key, and what it signs is not by that public key. *)
Theorem rotation_mixes_pairs env id r c b old data info res (w w1 w2 w3 : state) :
  keyed w → findUnique id (svc_db (ks_svc w)) = Ok (Some r) → key_columns r = Some (c, b) → sealed_key c b old →
  run (rotate_encryption_of kmsKeyId r c b) w = (Ok data, w1) →
  run (generateAndStoreKeyPair kmsKeyId id true) w1 = (Ok info, w2) → run (write_rotation r data) w2 = (Ok res, w3) →
  (∃ ps, rtc (step key_call env) ([], w) (ps, w3)) ∧ stored_key w3 id old (Some (ki_publicKey info)).
Proof using All.
  intros Hw Hf Hc Hs H1 H2 H3. assert (keyed w1) as Hw1.
  { unfold keyed. replace w1 with (final (run (rotate_encryption_of kmsKeyId r c b)) w) by by unfold final; rewrite H1.
    by rewrite (run_every same_table _ w (every_rotate_encryption r c b)). }
  destruct (generate_alone _ _ _ _ _ Hw1 H2) as (r2 & Hr2 & Hp). rewrite <-Hp.
  destruct (rotation_writes_old env (forget (generateAndStoreKeyPair kmsKeyId id true)) id r c b old data w w1 w2 w3 res tt)
    as [Hps Hk]; try done; [by constructor| |by split; [|apply Hk]].
  by rewrite run_forget_ok with (1 := H2).
Qed.
(** A rotation that overlaps the deletion of the key pair brings the private key back. *)
Theorem rotation_undoes_deletion env id r c b old data res (w w1 w2 w3 : state) :
  keyed w → findUnique id (svc_db (ks_svc w)) = Ok (Some r) → key_columns r = Some (c, b) → sealed_key c b old →
  run (rotate_encryption_of kmsKeyId r c b) w = (Ok data, w1) →
  run (deleteKeyPair id) w1 = (Ok tt, w2) → run (write_rotation r data) w2 = (Ok res, w3) →
  (∃ ps, rtc (step key_call env) ([], w) (ps, w3)) ∧
  (∀ secret public, ¬ stored_key w2 id secret public) ∧ stored_key w3 id old None.
Proof using All.
  intros Hw Hf Hc Hs H1 H2 H3. assert (keyed w1) as Hw1.
  { unfold keyed. replace w1 with (final (run (rotate_encryption_of kmsKeyId r c b)) w) by by unfold final; rewrite H1.
    by rewrite (run_every same_table _ w (every_rotate_encryption r c b)). }
  destruct (delete_alone _ _ _ Hw1 H2) as (r2 & Hr2).
  destruct (rotation_writes_old env (forget (deleteKeyPair id)) id r c b old data w w1 w2 w3 res tt)
    as [Hps Hk]; try done; [by constructor|by rewrite run_forget_ok with (1 := H2)|].
  split_and!; [done| |by apply Hk in Hr2]. intros s p (r3 & Hr3 & Hs3 & _). rewrite Hr2 in Hr3. by injection Hr3 as <-.
Qed.

(** ** The vault *)

Definition same_vault (w w' : state) : Prop := ks_vault w' = ks_vault w ∧ svc_db (ks_svc w') = svc_db (ks_svc w).
#[local] Instance same_vault_preorder : PreOrder same_vault.
Proof using. clear. split; [by intros w|]. intros w1 w2 w3 [E1 F1] [E2 F2]. split; congruence. Qed.
Lemma every_decrypt b : every same_vault (decryptDataKey b).
Proof using.
  clear. unfold decryptDataKey, in_world. each. apply every_await. intros w. unfold final, in_svc, on_env.
  destruct (kms_decrypt b (svc_env (ks_svc w))). done.
Qed.
Lemma load_key_vault id key (w : state) r w' : load_key id key w = (r, w') →
  match r with
  | Ok context => va_keys (ks_vault w') = <[vault_key id := key]> (va_keys (ks_vault w)) ∧
                  va_contexts (ks_vault w') !! vc_token context = Some (vc_scope context) ∧ vc_scope context ≠ ""
  | Throw _ => va_keys (ks_vault w') = delete (vault_key id) (va_keys (ks_vault w))
  end.
Proof using.
  clear. unfold load_key, bind, in_vault, vault_revoke, vault_register. cbn [ks_vault ks_svc va_keys va_contexts].
  destruct (decide (vault_key id = "")); [by intros [= <- <-]|]. destruct (decide (key = "")); [by intros [= <- <-]|].
  rewrite decide_False by (rewrite lookup_delete_eq; by intros []). unfold in_svc, on_env. cbn [ks_svc].
  destruct (draw_token (svc_env (ks_svc w))) as [t h]. cbn.
  intros [= <- <-]. cbn. by rewrite insert_delete_eq, lookup_insert_eq.
Qed.
Lemma retrieve_alone id (w : state) r w' : keyed w → run (retrievePrivateKey kmsKeyId id) w = (r, w') →
  match r with
  | Ok context => ∃ key, va_keys (ks_vault w') = <[vault_key id := key]> (va_keys (ks_vault w)) ∧
      va_contexts (ks_vault w') !! vc_token context = Some (vc_scope context) ∧ vc_scope context ≠ "" ∧
      ∀ secret public, stored_key w id secret public → key = secret
  | Throw _ => va_keys (ks_vault w') = va_keys (ks_vault w) ∨ va_keys (ks_vault w') = delete (vault_key id) (va_keys (ks_vault w))
  end.
Proof using All.
  intros Hw Hr. assert (wp (run (retrievePrivateKey kmsKeyId id)) (λ context w', ∃ key,
      va_keys (ks_vault w') = <[vault_key id := key]> (va_keys (ks_vault w)) ∧
      va_contexts (ks_vault w') !! vc_token context = Some (vc_scope context) ∧ vc_scope context ≠ "" ∧
      ∀ secret public, stored_key w id secret public → key = secret)
    (λ _ w', va_keys (ks_vault w') = va_keys (ks_vault w) ∨ va_keys (ks_vault w') = delete (vault_key id) (va_keys (ks_vault w))) w) as Hwp;
    [|unfold wp in Hwp; rewrite Hr in Hwp; by destruct r].
  unfold retrievePrivateKey. apply wp_pbind, wp_existing; [by left|]. intros row Hrow.
  destruct (key_columns row) as [[c b]|] eqn:Ec; [|by left]. apply wp_pcatch, wp_sync; [|by left]. intros _ _.
  apply wp_pbind. unfold envelope_decrypt. apply wp_pbind. unfold wp at 1.
  pose proof (run_every same_vault _ w (every_decrypt b)) as [Ev _]. unfold final in Ev. cbn [ed_encryptedDek ed_ciphertext].
  destruct (run (decryptDataKey b) w) as [[dek|e] w1] eqn:E1; cbn [snd] in Ev; [|left; cbn; by rewrite Ev].
  apply (yields_run (λ k, k = wrapped b)) in E1; [|apply decrypt_yields]. subst dek.
  destruct (decryptWithDek c (wrapped b)) as [key|e] eqn:Ek; [|left; cbn; by rewrite Ev].
  unfold wp at 1. cbn [run lift_exc]. apply wp_await. unfold wp.
  destruct (load_key (rl_id row) key w1) as [[context|e] w2] eqn:El; apply load_key_vault in El; rewrite (Hw _ _ Hrow), Ev in El.
  - destruct El as (E2 & E3 & E4). exists key. split_and!; [done..|]. intros s p (r2 & Hr2 & Hs2 & _).
    assert (r2 = row) as -> by congruence. unfold holds_key, sealed_key in Hs2. rewrite Ec in Hs2. congruence.
  - right. exact El.
Qed.

(** Whatever comes of it, a use of a private key gets the key that the relayer holds and
    leaves no key in the vault that was not there. *)
Theorem used_key_leaves_vault {T} id (callback : string → call T) (w : state) r w' :
  keyed w → va_keys (ks_vault w) !! vault_key id = None →
  (∀ k w, ks_vault (final (run (callback k)) w) = ks_vault w) →
  run (withPrivateKey kmsKeyId id callback) w = (r, w') →
  va_keys (ks_vault w') = va_keys (ks_vault w) ∧
  (∀ x secret public, r = Ok x → stored_key w id secret public → ∃ w1, outcome (run (callback secret)) w1 = Ok x).
Proof using All.
  intros Hw Hn Hc. unfold withPrivateKey. rewrite run_pbind. unfold bind.
  destruct (run (retrievePrivateKey kmsKeyId id) w) as [[context|e] w1] eqn:E; (apply retrieve_alone in E; [|done]).
  2:{ intros [= <- <-]. split; [|done]. destruct E as [->| ->]; [done|]. by rewrite delete_id. }
  destruct E as (key & Ek & Ect & Esc & Es). rewrite run_pfinally, run_pbind. unfold bind, getPrivateKeyFromVault. rewrite run_await.
  assert (vault_retrieve (vault_key id) context (ks_vault w1) = Ok key) as Hret.
  { unfold vault_retrieve. rewrite Ect. rewrite decide_False, decide_True by done. by rewrite Ek, lookup_insert_eq. }
  rewrite Hret. unfold revokePrivateKey. specialize (Hc key w1). unfold final in Hc.
  destruct (run (callback key) w1) as [x w2] eqn:Ecb. cbn [snd] in Hc. rewrite run_await. unfold in_vault. cbn. intros [= <- <-]. cbn.
  split; [by rewrite Hc, Ek, delete_insert_id|]. intros y secret public -> Hs. exists w1. rewrite <-(Es _ _ Hs). unfold outcome. by rewrite Ecb.
Qed.
End facts.

(** ** Concrete runs *)

#[local] Instance demo_keys_world : KeyWorld nat := {|
  key_clock h := (Ok (Z.of_nat h), h);
  kms_generate := ret (Some (text (replicate 64 "0"%char)), Some "blob");
  kms_decrypt _ := ret (Some (text (replicate 64 "0"%char)));
  draw_token h := (text (replicate (S h) "t"%char), S h);
  draw_keypair h := (Ok (text ("G"%char :: replicate h "A"%char), text ("S"%char :: replicate h "A"%char)), S h);
  keypair_fromSecret s := Ok ("G" +:+ String.substring 1 (String.length s) s);
|}.
#[local] Existing Instance hex_ciphers.
#[local] Instance demo_kms_laws : KmsLaws nat.
Proof.
  refine {| wrapped _ := text (replicate 64 "0"%char) |}.
  - by intros blob dek h h' [= <-].
  - by intros dek blob h h' [= <- <-].
Defined.

Definition bare_relayer : Relayer := mkRelayer 1 "R" None None None None None None None.
Definition no_keys : key_state (gmap Z Relayer) nat := mkKeyState (mkSvc (singletonM 1 bare_relayer) 0%nat) empty_vault false.
Definition with_pair := final (run (generateAndStoreKeyPair "kms" 1 false)) no_keys.
Definition the_row := default bare_relayer (rows (svc_db (ks_svc with_pair)) !! 1).
Definition the_columns := default ("", "") (key_columns the_row).
Definition ok_of {A} (r : exc A) (a : A) : A := match r with Ok a => a | Throw _ => a end.

Example rotated_twice : (λ r, match r with Ok r => Some (rr_oldDekVersion r, rr_newDekVersion r) | Throw _ => None end)
    (outcome (run (rotateRelayerDek "kms" 1 ;~ rotateRelayerDek "kms" 1)) with_pair) = Some (2, 3).
Proof. vm_compute. reflexivity. Qed.
Example pair_refused : (λ r, match r with Ok _ => None | Throw e => err_code e end)
    (outcome (run (generateAndStoreKeyPair "kms" 1 false)) with_pair) = Some "KEY_ALREADY_EXISTS".
Proof. vm_compute. reflexivity. Qed.
Example pair_valid : outcome (run (validateEncryptedKey "kms" 1)) with_pair = Ok true.
Proof. vm_compute. reflexivity. Qed.

Lemma with_pair_keyed : keyed with_pair.
Proof.
  intros k r Hr. assert (rows (svc_db (ks_svc with_pair)) = {[1 := the_row]}) as E by (vm_compute; reflexivity).
  rewrite E in Hr. apply lookup_singleton_Some in Hr as [<- <-]. vm_compute. reflexivity.
Qed.
Lemma with_pair_stored : stored_key with_pair 1 "S" (Some "G").
Proof. exists the_row. split; [vm_compute; reflexivity|]. split; [|vm_compute; reflexivity]. vm_compute. reflexivity. Qed.

Lemma rotations_keep_keys_witness : stored_key (final (run (forget (rotateRelayerDek "kms" 1))) with_pair) 1 "S" (Some "G").
Proof.
  apply (rotations_keep_keys "kms" (λ w w', w' = w) with_pair
    ([Done (outcome (run (forget (rotateRelayerDek "kms" 1))) with_pair)], final (run (forget (rotateRelayerDek "kms" 1))) with_pair)).
  - by intros w ? ->.
  - apply with_pair_keyed.
  - apply with_pair_stored.
  - apply run_reachable. constructor.
Defined.

Definition again_data := ok_of (outcome (run (rotate_encryption_of "kms" the_row the_columns.1 the_columns.2)) with_pair) (mkEncrypted "" "" 0).
Definition again_encrypted := final (run (rotate_encryption_of "kms" the_row the_columns.1 the_columns.2)) with_pair.
Definition other_pair := final (run (generateAndStoreKeyPair "kms" 1 true)) again_encrypted.
Definition other_info := ok_of (outcome (run (generateAndStoreKeyPair "kms" 1 true)) again_encrypted) (pair_info bare_relayer).
Definition old_written := final (run (write_rotation the_row again_data)) other_pair.
Definition deleted_pair := final (run (deleteKeyPair 1)) again_encrypted.
Definition old_restored := final (run (write_rotation the_row again_data)) deleted_pair.
Definition rotation_done : RotationResult := mkRotation 1 "R" true 1 2 None.

Lemma rotation_mixes_pairs_witness : stored_key old_written 1 "S" (Some "GA") ∧
  is_ok (outcome (run (validateEncryptedKey "kms" 1)) old_written) = false.
Proof.
  destruct (rotation_mixes_pairs "kms" (λ _ _, False) 1 the_row the_columns.1 the_columns.2 "S" again_data other_info rotation_done
    with_pair again_encrypted other_pair old_written) as [_ Hk];
    [apply with_pair_keyed|vm_compute; reflexivity..|].
  split; [exact Hk|vm_compute; reflexivity].
Defined.
Lemma rotation_undoes_deletion_witness : (∀ secret public, ¬ stored_key deleted_pair 1 secret public) ∧ stored_key old_restored 1 "S" None.
Proof.
  destruct (rotation_undoes_deletion "kms" (λ _ _, False) 1 the_row the_columns.1 the_columns.2 "S" again_data rotation_done
    with_pair again_encrypted deleted_pair old_restored) as (_ & Hd & Hk);
    [apply with_pair_keyed|vm_compute; reflexivity..|].
  split; [exact Hd|exact Hk].
Defined.
Lemma used_key_leaves_vault_witness : va_keys (ks_vault (final (run (withPrivateKey "kms" 1 pret)) with_pair)) = ∅ ∧
  ∃ w1 : key_state (gmap Z Relayer) nat, outcome (run (pret "S")) w1 = Ok "S".
Proof.
  destruct (used_key_leaves_vault "kms" 1 pret with_pair (Ok "S") (final (run (withPrivateKey "kms" 1 pret)) with_pair))
    as [E1 E2]; [apply with_pair_keyed|vm_compute; reflexivity|done|vm_compute; reflexivity|].
  split; [rewrite E1; vm_compute; reflexivity|]. apply (E2 "S" "S" (Some "G")); [reflexivity|apply with_pair_stored].
Defined.
