(* ===== verification/EventBusConfig.v ===== *)
(** * Configuration of the event bus monitor ([services/eventBus/config.ts], [types.ts])

    The queues that are watched, the thresholds of the alerts and the limits of the
    autoscaler, read from the environment; thresholds are taken to be small enough that
    five of them are an exact number. Proved: whatever recovery
    ratio is configured, the one in force is the default or zero. *)

From Stdlib Require Import Ascii SpecFloat.
From S2P Require Import Prelude JsNumber JsString JsDecimal JsDigits JsMap.

Local Open Scope Z_scope.

Inductive QueueTransport := RedisList | RedisStream | RedisSet | RedisPubsub | Amqp.
#[export] Instance transport_eq_dec : EqDecision QueueTransport.
Proof. solve_decision. Defined.

(** [qd_local] says whether the process keeps a buffer of its own for the queue. *)
Record QueueDescriptor := mkQueue {
  qd_name : string;
  qd_pool : string;
  qd_transport : QueueTransport;
  qd_key : option string;
  qd_channel : option string;
  qd_warningThreshold : option Z;
  qd_criticalThreshold : option Z;
  qd_local : bool;
}.
Definition plain_queue (name pool : string) (transport : QueueTransport) (key channel : option string) : QueueDescriptor :=
  mkQueue name pool transport key channel None None false.

Definition DEFAULT_BACKPRESSURE_THRESHOLD : Z := 1000.
Definition DEFAULT_CRITICAL_MULTIPLIER : Z := 5.
Definition DEFAULT_RECOVERY_RATIO : number := Number_str "0.5".
Definition DEFAULT_CELERY_QUEUES : list string := ["celery"; "webhook.retry"; "webhook.dead"; "index-shielded-notes"].
Definition DEFAULT_CELERY_POOL : string := "celery-webhook".
Definition DEFAULT_DLQ_KEY : string := "stellarflow:dlq".

Record AlertBotConfig := mkBotConfig {
  bc_threshold : Z;
  bc_criticalThreshold : Z;
  bc_cooldownMs : Z;
  bc_totalScopeName : string;
  bc_alertOnTotal : bool;
  bc_recoveryRatio : number;
  bc_resolveOnRecovery : bool;
}.
Record AutoscalerConfig := mkScalerConfig {
  ac_enabled : bool;
  ac_minReplicas : Z;
  ac_maxReplicas : Z;
  ac_targetMessagesPerReplica : Z;
  ac_maxScaleStep : Z;
  ac_cooldownMs : Z;
  ac_scaleDownStabilizationMs : Z;
  ac_scaleDownThreshold : Z;
  ac_pools : list string;
}.
Record EventBusConfig := mkBusConfig {
  ec_enabled : bool;
  ec_pollIntervalMs : Z;
  ec_probeTimeoutMs : Z;
  ec_historySize : Z;
  ec_redisUrl : option string;
  ec_amqpUrl : option string;
  ec_rabbitmqManagementUrl : option string;
  ec_rabbitmqVhost : string;
  ec_alert : AlertBotConfig;
  ec_autoscaler : AutoscalerConfig;
  ec_queues : list QueueDescriptor;
  ec_pagerdutyRoutingKey : option string;
  ec_slackWebhookUrl : option string;
}.

(** ** Reading the environment *)

Section environment.
Context (env : string → option string).

(** A number that is given and within its bounds, rounded down; [read] takes it as a
    counter or as it is. *)
Definition configured (key : string) (min max : number) : option number :=
  match env key with
  | Some raw =>
      if decide (trim raw = "") then None
      else
        let parsed := Number_str raw in
        if negb (isFinite parsed) || num_ltb parsed min || num_ltb max parsed then None else Some (math_floor parsed)
  | None => None
  end.
Definition MAX_SAFE_INTEGER : number := num_of_Z (2 ^ 53 - 1).
Definition readNumber {A} (read : number → A) (key : string) (fallback : A) (min max : number) : A :=
  match configured key min max with Some x => read x | None => fallback end.
Definition readCounter (key : string) (fallback min : Z) : Z :=
  readNumber trunc_Z key fallback (num_of_Z min) MAX_SAFE_INTEGER.
Definition readBounded (key : string) (fallback min max : Z) : Z :=
  readNumber trunc_Z key fallback (num_of_Z min) (num_of_Z max).

Definition readBoolean (key : string) (fallback : bool) : bool :=
  match env key with
  | Some raw =>
      let normalized := toLowerCase (trim raw) in
      if decide (normalized = "") then fallback
      else if includes ["1"; "true"; "yes"; "on"] normalized then true
      else if includes ["0"; "false"; "no"; "off"] normalized then false
      else fallback
  | None => fallback
  end.
Definition list_comma : ascii := ","%char.
Definition readList (key : string) (fallback : list string) : list string :=
  match env key with
  | Some raw =>
      if decide (trim raw = "") then fallback
      else match filter (λ item, item ≠ "") (trim <$> split_on list_comma raw "") with
           | [] => fallback
           | items => items
           end
  | None => fallback
  end.
Definition readString (key : string) : option string :=
  match env key with
  | Some raw => if decide (trim raw = "") then None else Some (trim raw)
  | None => None
  end.

(** ** The queues *)

Definition colon : ascii := ":"%char.
Definition transport_of (t : string) : option QueueTransport :=
  if decide (t = "redis-list") then Some RedisList
  else if decide (t = "redis-stream") then Some RedisStream
  else if decide (t = "redis-set") then Some RedisSet
  else if decide (t = "amqp") then Some Amqp else None.
Definition parseQueueSpec (spec : string) : option QueueDescriptor :=
  let parts := split_on colon spec "" in
  let part i := default "" (parts !! i) in
  let '(name, transport, key) := (part 0%nat, part 1%nat, part 2%nat) in
  if decide (name = "" ∨ transport = "") then None
  else
    let pool := default "default" (readString "EVENT_BUS_WORKER_POOL") in
    if decide (transport = "redis-pubsub") then Some (plain_queue name pool RedisPubsub None (Some (str_or key name)))
    else t ← transport_of transport; Some (plain_queue name pool t (Some (str_or key name)) None).
Definition buildQueueDescriptors : list QueueDescriptor :=
  match readList "EVENT_BUS_QUEUES" [] with
  | (_ :: _) as explicit => omap parseQueueSpec explicit
  | [] =>
      let celeryQueues := readList "CELERY_MONITORED_QUEUES" DEFAULT_CELERY_QUEUES in
      let pool := default DEFAULT_CELERY_POOL (readString "CELERY_WORKER_POOL") in
      let dlqKey := default DEFAULT_DLQ_KEY (readString "DLQ_REDIS_KEY") in
      ((λ queue, plain_queue ("celery:" +:+ queue) pool Amqp (Some queue) None) <$> celeryQueues) ++
      [plain_queue "redis:dlq" "ingestion-dlq" RedisList (Some dlqKey) None] ++
      match readString "REDIS_DLQ_WORKER_QUEUE_KEY" with
      | Some key => [plain_queue "redis:dlq-worker" "ingestion-dlq" RedisStream (Some key) None]
      | None => []
      end ++
      ((λ key, plain_queue ("redis:stream:" +:+ key) "redis-streams" RedisStream (Some key) None)
         <$> readList "REDIS_MONITORED_STREAM_KEYS" []) ++
      ((λ key, plain_queue ("redis:list:" +:+ key) "redis-lists" RedisList (Some key) None)
         <$> readList "REDIS_MONITORED_LIST_KEYS" []) ++
      ((λ channel, plain_queue ("redis:pubsub:" +:+ channel) "redis-pubsub" RedisPubsub None (Some channel))
         <$> readList "REDIS_MONITORED_PUBSUB_CHANNELS" [])
  end.

Definition either {A} (a b : option A) : option A := match a with Some _ => a | None => b end.
Definition recovery_ratio : number :=
  readNumber (λ x, x) "EVENT_BUS_RECOVERY_RATIO" DEFAULT_RECOVERY_RATIO (Number_str "0.01") (Number_str "0.99").
Definition loadEventBusConfig : EventBusConfig :=
  let threshold := readCounter "EVENT_BUS_BACKPRESSURE_THRESHOLD" DEFAULT_BACKPRESSURE_THRESHOLD 1 in
  let criticalThreshold := readCounter "EVENT_BUS_CRITICAL_THRESHOLD"
    (Z.max threshold (threshold * DEFAULT_CRITICAL_MULTIPLIER)) 1 in
  let minReplicas := readBounded "EVENT_BUS_AUTOSCALE_MIN_REPLICAS" 1 0 10000 in
  let maxReplicas := Z.max minReplicas (readBounded "EVENT_BUS_AUTOSCALE_MAX_REPLICAS" 20 0 10000) in
  mkBusConfig (readBoolean "EVENT_BUS_MONITORING_ENABLED" true)
    (readCounter "EVENT_BUS_POLL_INTERVAL_MS" 15000 1000) (readCounter "EVENT_BUS_PROBE_TIMEOUT_MS" 5000 100)
    (readBounded "EVENT_BUS_HISTORY_SIZE" 120 1 10000)
    (either (readString "EVENT_BUS_REDIS_URL") (readString "REDIS_URL"))
    (either (readString "EVENT_BUS_AMQP_URL") (readString "CELERY_BROKER_URL"))
    (readString "RABBITMQ_MANAGEMENT_URL") (default "/" (readString "RABBITMQ_VHOST"))
    (mkBotConfig threshold (Z.max threshold criticalThreshold) (readCounter "EVENT_BUS_ALERT_COOLDOWN_MS" (15 * 60 * 1000) 0)
       (default "event-bus-total" (readString "EVENT_BUS_TOTAL_SCOPE_NAME"))
       (readBoolean "EVENT_BUS_ALERT_ON_TOTAL" true) recovery_ratio (readBoolean "EVENT_BUS_RESOLVE_ALERTS" true))
    (mkScalerConfig (readBoolean "EVENT_BUS_AUTOSCALE_ENABLED" false) minReplicas maxReplicas
       (readCounter "EVENT_BUS_AUTOSCALE_TARGET_MSGS_PER_REPLICA" 250 1)
       (readBounded "EVENT_BUS_AUTOSCALE_MAX_STEP" 5 1 1000)
       (readCounter "EVENT_BUS_AUTOSCALE_COOLDOWN_MS" (5 * 60 * 1000) 0)
       (readCounter "EVENT_BUS_AUTOSCALE_STABILIZATION_MS" (10 * 60 * 1000) 0)
       (readCounter "EVENT_BUS_AUTOSCALE_DOWN_THRESHOLD" (threshold / 4) 0)
       (readList "EVENT_BUS_AUTOSCALE_POOLS" []))
    buildQueueDescriptors (readString "PAGERDUTY_ROUTING_KEY") (readString "SLACK_WEBHOOK_URL").
End environment.

(** ** Facts *)

(** A number between a hundredth and 99 hundredths is rounded down to zero. *)
Lemma floor_fraction x : valid_num x → isFinite x = true →
  num_ltb x (Number_str "0.01") = false → num_ltb (Number_str "0.99") x = false → math_floor x = num_zero.
Proof.
  intros Hv Hf Hlo Hhi.
  assert (valid_num (Number_str "0.01") ∧ valid_num (Number_str "0.99") ∧
          isFinite (Number_str "0.01") = true ∧ isFinite (Number_str "0.99") = true ∧
          0 < num_val (Number_str "0.01") ∧ num_val (Number_str "0.99") < 2 ^ 1074) as (V1 & V2 & F1 & F2 & P1 & P2)
    by by vm_compute.
  rewrite num_ltb_val in Hlo, Hhi by done. apply bool_decide_eq_false in Hlo, Hhi.
  set (lo := num_val (Number_str "0.01")) in *. set (hi := num_val (Number_str "0.99")) in *. clearbody lo hi.
  destruct x as [s| | |s m e]; [change (num_val (S754_zero s)) with 0 in Hlo; lia|done|done|].
  assert (emin prec emax ≤ e) as He by by apply (bounded_emin m). change (emin prec emax) with (-1074) in He.
  assert (num_val (S754_finite s m e) = cond_Zopp s (Zpos m * 2 ^ (e + 1074))) as Ev.
  { cbn [num_val]. unfold aligned. change (emin prec emax) with (-1074). by replace (e - -1074) with (e + 1074) by lia. }
  rewrite Ev in Hlo, Hhi. assert (0 < 2 ^ (e + 1074)) as Hp by (apply Z.pow_pos_nonneg; lia).
  destruct s; cbn [cond_Zopp] in Hlo, Hhi; [lia|].
  assert (Zpos m * 2 ^ (e + 1074) < 2 ^ 1074) as Hm by lia.
  assert (e < 0) as Hneg.
  { destruct (Z.ltb_spec e 0); [done|]. exfalso. rewrite Z.pow_add_r in Hm by lia.
    assert (0 < 2 ^ e) by (apply Z.pow_pos_nonneg; lia). nia. }
  assert (Zpos m < 2 ^ (- e)) as Hme.
  { replace (2 ^ 1074) with (2 ^ (- e) * 2 ^ (e + 1074)) in Hm by (rewrite <-Z.pow_add_r by lia; f_equal; lia). nia. }
  assert (isInteger (S754_finite false m e) = false) as Hi.
  { cbn [isInteger]. rewrite Z.mod_small by lia. by destruct (Z.leb_spec 0 e); [lia|]. }
  unfold math_floor. rewrite Hi. cbn [cond_Zopp]. by rewrite Z.div_small by lia.
Qed.

(** C39. Whatever recovery ratio is configured, the one in force is the default or zero: every
    ratio that is accepted is rounded down. *)
Theorem recovery_ratio_default_or_zero env :
  (∀ raw, env "EVENT_BUS_RECOVERY_RATIO" = Some raw → valid_num (Number_str raw)) →
  bc_recoveryRatio (ec_alert (loadEventBusConfig env)) =
    match configured env "EVENT_BUS_RECOVERY_RATIO" (Number_str "0.01") (Number_str "0.99") with
    | Some _ => num_zero
    | None => DEFAULT_RECOVERY_RATIO
    end.
Proof.
  intros Hv. change (bc_recoveryRatio _) with (recovery_ratio env). unfold recovery_ratio, readNumber, configured.
  destruct (env "EVENT_BUS_RECOVERY_RATIO") as [raw|]; [|done]. case_decide; [done|]. cbn zeta.
  destruct (isFinite (Number_str raw)) eqn:Ef; [|done]. destruct (num_ltb (Number_str raw) (Number_str "0.01")) eqn:E1; [done|].
  destruct (num_ltb (Number_str "0.99") (Number_str raw)) eqn:E2; [done|]. cbn [negb orb]. apply floor_fraction; auto.
Qed.

Definition seventy (key : string) : option string := if decide (key = "EVENT_BUS_RECOVERY_RATIO") then Some "0.7" else None.
Lemma recovery_ratio_default_or_zero_witness : bc_recoveryRatio (ec_alert (loadEventBusConfig seventy)) = num_zero.
Proof.
  rewrite recovery_ratio_default_or_zero; [vm_compute; reflexivity|]. intros raw [= <-]. vm_compute. reflexivity.
Defined.
Example default_queues : qd_name <$> buildQueueDescriptors (λ _, None) =
  ["celery:celery"; "celery:webhook.retry"; "celery:webhook.dead"; "celery:index-shielded-notes"; "redis:dlq"].
Proof. vm_compute. reflexivity. Qed.
Example parsed_queue : parseQueueSpec (λ _, None) "jobs:redis-stream:jobs-key" =
  Some (plain_queue "jobs" "default" RedisStream (Some "jobs-key") None).
Proof. vm_compute. reflexivity. Qed.
