(* ===== verification/EventBus.v ===== *)
(** * The event bus monitor ([services/eventBus/])

    One cycle reads the depth of every watched queue ([queueDepthCollector.ts]), asks the
    autoscaler for replica counts and applies them ([workerAutoscaler.ts]), and raises or
    resolves alerts ([queueBackpressureBot.ts]); [eventBusService.ts] runs it on an
    interval, one at a time. The calls are programs of [Async] over the state of these
    objects and the outside world. Proved: a pool is scaled within its limits and by its
    step at most; an alert is repeated when its cooldown is over and not before. But a
    broker that does not answer looks like an empty one: the incident of the bus resolves
    and replicas are removed; a backlog about the critical threshold is announced each
    time; and with the recovery ratio that any configured one becomes, no incident is ever
    closed, in any interleaving. *)

From Stdlib Require Import SpecFloat.
From stdpp Require Import pretty.
From S2P Require Import Prelude JsNumber JsString JsDate JsDecimal JsMap JsRounding Serialization Async Timers EventBusConfig.

Local Open Scope Z_scope.

(** ** Data *)

Inductive BackpressureLevel := LevelOk | LevelWarning | LevelCritical.
#[export] Instance level_eq_dec : EqDecision BackpressureLevel.
Proof. solve_decision. Defined.
Definition UNKNOWN_DEPTH : Z := -1.

Record QueueDepthReading := mkReading {
  qr_pending : Z;
  qr_unacked : option Z;
  qr_consumers : option Z;
  qr_oldestPendingAgeSeconds : option Z;
}.
Record QueueDepthSample := mkSample {
  qs_name : string;
  qs_pool : string;
  qs_transport : QueueTransport;
  qs_pending : Z;
  qs_unacked : option Z;
  qs_consumers : option Z;
  qs_oldestPendingAgeSeconds : option Z;
  qs_acceptingMessages : bool;
  qs_observedAt : string;
  qs_error : option string;
}.
Record QueueDepthReport := mkReport {
  qp_samples : list QueueDepthSample;
  qp_totalPending : Z;
  qp_probeErrors : list string;
  qp_observedAt : string;
}.

Inductive AlertKind := KindTrigger | KindReminder | KindResolve.
(** A queue in the breakdown of an alert. *)
Record AlertQueue := mkAlertQueue {
  aq_name : string;
  aq_pool : string;
  aq_transport : QueueTransport;
  aq_pending : Z;
  aq_consumers : option Z;
  aq_unacked : option Z;
}.
Record BackpressureAlert := mkBusAlert {
  ba_scope : string;
  ba_pool : option string;
  ba_level : BackpressureLevel;
  ba_pending : Z;
  ba_threshold : Z;
  ba_criticalThreshold : Z;
  ba_overshootPercent : number;
  ba_kind : AlertKind;
  ba_observedAt : string;
  ba_queues : list AlertQueue;
  ba_probeErrors : list string;
  ba_desiredReplicas : option Z;
}.
Record BackpressureEvaluation := mkEvaluation {
  be_alerts : list BackpressureAlert;
  be_levels : list (string * BackpressureLevel);
  be_totalPending : Z;
  be_criticalScopes : list string;
}.

Inductive ScaleAction := ScaleNone | ScaleUp | ScaleDown.
#[export] Instance action_eq_dec : EqDecision ScaleAction.
Proof. solve_decision. Defined.
Record ScaleDecision := mkScale {
  sd_pool : string;
  sd_action : ScaleAction;
  sd_from : option Z;
  sd_to : Z;
  sd_reason : string;
  sd_pending : Z;
  sd_limitedBy : option string;
  sd_decidedAt : string;
}.
Record AutoscalerEvaluation := mkScaling {
  ae_decisions : list ScaleDecision;
  ae_desired : list (string * Z);
  ae_enabled : bool;
}.
Record ApplyResult := mkApplied { ar_pool : string; ar_applied : bool; ar_error : option string }.

Record EventBusCycleResult := mkCycle {
  cy_observedAt : string;
  cy_samples : list QueueDepthSample;
  cy_totalPending : Z;
  cy_probeErrors : list string;
  cy_backpressure : BackpressureEvaluation;
  cy_autoscaler : AutoscalerEvaluation;
  cy_appliedScales : list ApplyResult;
  cy_durationMs : Z;
}.
Record EventBusHistoryPoint := mkPoint {
  hp_observedAt : string;
  hp_totalPending : Z;
  hp_queues : list (string * Z);
}.

Record ScopeState := mkScope {
  sc_level : BackpressureLevel;
  sc_lastNotifiedAt : option Z;
  sc_lastPending : Z;
  sc_peakPending : Z;
  sc_lastAlertAt : option string;
}.
Record PoolState := mkPool {
  po_lastPending : Z;
  po_quietSince : option Z;
  po_lastActionAt : option Z;
  po_lastDesired : option Z;
  po_lastKnown : option Z;
}.

(** ** The outside world *)

(** The clock; the buffers of the process; the brokers, of which a reader may be missing;
    whether the timer of a probe runs out first; the provider of replicas; the dispatcher
    of alerts. *)
Class BusWorld (H : Type) := {
  bus_now : H → Z;
  local_depth : QueueDescriptor → H → Z;
  redis_reader : bool;
  list_length : string → M H Z;
  set_length : string → M H Z;
  stream_length : string → M H Z;
  channel_subscribers : string → M H Z;
  oldest_entry_age : option (string → M H (option Z));
  amqp_reader : bool;
  check_queue : string → M H (Z * Z);
  management_stats : option (string → M H (option Z));
  probe_runs_out : H → bool;
  scale_provider : bool;
  get_replicas : string → M H (option Z);
  set_replicas : string → Z → M H unit;
  dispatch_trigger : BackpressureAlert → M H unit;
  dispatch_resolve : BackpressureAlert → M H unit;
}.

Record event_bus (H : Type) := mkBus {
  eb_world : H;
  eb_queues : list QueueDescriptor;
  eb_scopes : list (string * ScopeState);
  eb_pools : list (string * PoolState);
  eb_timer : option nat;
  eb_timers : timers;
  eb_inFlight : bool;
  eb_lastCycle : option EventBusCycleResult;
  eb_history : list EventBusHistoryPoint;
  eb_lastDecisions : list ScaleDecision;
}.
Arguments mkBus {H} _ _ _ _ _ _ _ _ _ _.
Arguments eb_world {H} _.
Arguments eb_queues {H} _.
Arguments eb_scopes {H} _.
Arguments eb_pools {H} _.
Arguments eb_timer {H} _.
Arguments eb_timers {H} _.
Arguments eb_inFlight {H} _.
Arguments eb_lastCycle {H} _.
Arguments eb_history {H} _.
Arguments eb_lastDecisions {H} _.

(** ** The alerts *)

Section bot.
Context (config : AlertBotConfig) (thresholds : list (string * (Z * Z))).

Definition thresholdsFromQueues (queues : list QueueDescriptor) (defaults : Z * Z) : list (string * (Z * Z)) :=
  foldl (λ map queue,
    let warning := default defaults.1 (qd_warningThreshold queue) in
    let critical := Z.max warning (default defaults.2 (qd_criticalThreshold queue)) in
    if decide (warning ≠ defaults.1 ∨ critical ≠ defaults.2) then map_set map (qd_name queue) (warning, critical) else map)
    [] queues.
(** Warning and critical. *)
Definition thresholdsFor (queueName : string) : Z * Z :=
  default (bc_threshold config, bc_criticalThreshold config) (map_get thresholds queueName).

Definition new_scope : ScopeState := mkScope LevelOk None 0 0 None.
Definition with_level (s : ScopeState) (level : BackpressureLevel) (pending : Z) : ScopeState :=
  mkScope level (sc_lastNotifiedAt s) pending (sc_peakPending s) (sc_lastAlertAt s).
Definition notified (s : ScopeState) (now : Z) (observedAt : string) : ScopeState :=
  mkScope (sc_level s) (Some now) (sc_lastPending s) (sc_peakPending s) (Some observedAt).
Definition with_peak (s : ScopeState) (pending : Z) : ScopeState :=
  mkScope (sc_level s) (sc_lastNotifiedAt s) pending (Z.max (sc_peakPending s) pending) (sc_lastAlertAt s).
(** The state after, the level of the outcome, and the level and the kind of the alert. *)
Definition evaluateScope (s : ScopeState) (pending : Z) (limits : Z * Z) (now : Z) (observedAt : string)
  : ScopeState * BackpressureLevel * option (BackpressureLevel * AlertKind) :=
  let '(warning, critical) := limits in
  if num_ltb (num_of_Z pending) (num_mul (num_of_Z warning) (bc_recoveryRatio config)) then
    let wasAlerting := negb (bool_decide (sc_level s = LevelOk)) in
    let s := with_level s LevelOk pending in
    if wasAlerting && bc_resolveOnRecovery config then (notified s now observedAt, LevelOk, Some (LevelOk, KindResolve))
    else (s, LevelOk, None)
  else
    let rawLevel := if critical <=? pending then LevelCritical else LevelWarning in
    if pending <? warning then (with_level s (sc_level s) pending, sc_level s, None)
    else
      let escalated := negb (bool_decide (sc_level s = rawLevel)) in
      let cooldownElapsed := match sc_lastNotifiedAt s with None => true | Some t => bc_cooldownMs config <=? now - t end in
      let level := if escalated then rawLevel else sc_level s in
      let s := with_peak s pending in
      if negb escalated && negb cooldownElapsed then (s, level, None)
      else (notified (with_level s level pending) now observedAt, level,
            Some (level, if escalated then KindTrigger else KindReminder)).

Definition overshoot (pending warning : Z) : number :=
  if 0 <? warning then
    num_div (math_round (num_mul (num_div (num_of_Z pending) (num_of_Z warning)) (num_of_Z 1000))) (num_of_Z 10)
  else num_zero.
Definition by_pending (a b : QueueDepthSample) : number := num_sub (num_of_Z (qs_pending b)) (num_of_Z (qs_pending a)).
Definition alert_queue (s : QueueDepthSample) : AlertQueue :=
  mkAlertQueue (qs_name s) (qs_pool s) (qs_transport s) (qs_pending s) (qs_consumers s) (qs_unacked s).
Definition buildAlert (scope : string) (pool : option string) (breakdown : list QueueDepthSample) (probeErrors : list string)
    (observedAt : string) (pending : Z) (limits : Z * Z) (desired : option Z) (lk : BackpressureLevel * AlertKind) : BackpressureAlert :=
  mkBusAlert scope pool lk.1 pending limits.1 limits.2 (overshoot pending limits.1) lk.2 observedAt
    (alert_queue <$> js_sort by_pending breakdown) probeErrors desired.
End bot.

Definition is_known (s : QueueDepthSample) : bool := negb (bool_decide (qs_pending s = UNKNOWN_DEPTH)).
Definition sum_pending (l : list QueueDepthSample) : Z := foldl (λ total s, total + qs_pending s) 0 l.

(** ** The autoscaler *)

Section autoscaler.
Context (config : AutoscalerConfig).

(** [Math.ceil] of a quotient of integers *)
Definition ceil_div (a b : Z) : Z := - (- a / b).
Definition desiredReplicasFor (pending : Z) : Z :=
  if pending <=? 0 then ac_minReplicas config
  else Z.min (ac_maxReplicas config)
         (Z.max (ac_minReplicas config) (ceil_div pending (Z.max 1 (ac_targetMessagesPerReplica config)))).
Definition pendingForPool (samples : list QueueDepthSample) (pool : string) : Z :=
  sum_pending (filter (λ s, qs_pool s = pool ∧ is_known s = true) samples).
Definition new_pool : PoolState := mkPool 0 None None None None.
Definition first_seen (l : list string) : list string := foldl (λ seen x, if includes seen x then seen else seen ++ [x]) [] l.
Definition poolsToManage (samples : list QueueDepthSample) : list string :=
  match ac_pools config with
  | (_ :: _) as pools => pools
  | [] => merge_sort (λ a b, (a ≤ b)%string) (first_seen (qs_pool <$> samples))
  end.

Definition observed (s : PoolState) (pending target now : Z) : PoolState :=
  mkPool pending
    (if pending <=? ac_scaleDownThreshold config then Some (default now (po_quietSince s)) else None)
    (po_lastActionAt s) (Some target) (po_lastKnown s).
(** What to do for a pool, from its state after the observation. *)
Definition decide_scale (pool : string) (s : PoolState) (pending target now : Z) : ScaleDecision :=
  let decision action from to reason limitedBy := mkScale pool action from to reason pending limitedBy (toISOString now) in
  match po_lastKnown s with
  | None => decision ScaleNone None target "Baseline adopted; awaiting the next provider read" (Some "unknown-current")
  | Some current =>
      let step := ac_maxScaleStep config in
      let stepped := if current <? target then Z.min target (current + step) else Z.max target (current - step) in
      let clamped := if stepped =? target then None else Some "max-scale-step" in
      if stepped =? current then
        decision ScaleNone (Some current) current "Replica count already matches the target" None
      else if current <? stepped then
        decision ScaleUp (Some current) stepped
          ("Backlog of " +:+ pretty pending +:+ " messages needs " +:+ pretty stepped +:+ " replicas") clamped
      else
        let settled := match po_quietSince s with
                       | Some t => ac_scaleDownStabilizationMs config <=? now - t
                       | None => false
                       end in
        if negb settled then
          decision ScaleNone (Some current) current
            ("Scale-down deferred: backlog must stay under " +:+ pretty (ac_scaleDownThreshold config) +:+ " for " +:+
             pretty (ac_scaleDownStabilizationMs config) +:+ "ms") (Some "scale-down-stabilization")
        else if (1 <=? ac_minReplicas config) && (stepped <? 1) then
          decision ScaleNone (Some current) current "Scale-down blocked: pools keep at least one replica" (Some "min-replicas")
        else
          decision ScaleDown (Some current) stepped
            ("Backlog drained to " +:+ pretty pending +:+ " messages; releasing " +:+ pretty (current - stepped) +:+ " replica(s)")
            clamped
  end.
Definition evaluate_pool (samples : list QueueDepthSample) (now : Z) (acc : list (string * PoolState) * AutoscalerEvaluation)
    (pool : string) : list (string * PoolState) * AutoscalerEvaluation :=
  let pending := pendingForPool samples pool in
  let target := desiredReplicasFor pending in
  let s := observed (default new_pool (map_get acc.1 pool)) pending target now in
  (map_set acc.1 pool s,
   mkScaling (ae_decisions acc.2 ++ [decide_scale pool s pending target now]) (map_set (ae_desired acc.2) pool target)
     (ae_enabled acc.2)).
Definition evaluate_pools (samples : list QueueDepthSample) (now : Z) (pools : list (string * PoolState))
  : list (string * PoolState) * AutoscalerEvaluation :=
  foldl (evaluate_pool samples now) (pools, mkScaling [] [] (ac_enabled config)) (poolsToManage samples).
End autoscaler.

(** ** The monitor *)

Section service.
Context {H : Type} `{!BusWorld H}.
Context (config : EventBusConfig) (turn : event_bus H → bool).
Notation state := (event_bus H).
Notation call := (prog state).

Definition with_bus_world (s : state) (h : H) : state :=
  mkBus h (eb_queues s) (eb_scopes s) (eb_pools s) (eb_timer s) (eb_timers s) (eb_inFlight s) (eb_lastCycle s)
    (eb_history s) (eb_lastDecisions s).
Definition with_scopes (s : state) (scopes : list (string * ScopeState)) : state :=
  mkBus (eb_world s) (eb_queues s) scopes (eb_pools s) (eb_timer s) (eb_timers s) (eb_inFlight s) (eb_lastCycle s)
    (eb_history s) (eb_lastDecisions s).
Definition with_pools (s : state) (pools : list (string * PoolState)) : state :=
  mkBus (eb_world s) (eb_queues s) (eb_scopes s) pools (eb_timer s) (eb_timers s) (eb_inFlight s) (eb_lastCycle s)
    (eb_history s) (eb_lastDecisions s).
Definition with_decisions (s : state) (l : list ScaleDecision) : state :=
  mkBus (eb_world s) (eb_queues s) (eb_scopes s) (eb_pools s) (eb_timer s) (eb_timers s) (eb_inFlight s) (eb_lastCycle s)
    (eb_history s) l.
Definition with_flight (s : state) (b : bool) : state :=
  mkBus (eb_world s) (eb_queues s) (eb_scopes s) (eb_pools s) (eb_timer s) (eb_timers s) b (eb_lastCycle s)
    (eb_history s) (eb_lastDecisions s).
Definition with_timer (s : state) (timer : option nat) (timers : timers) : state :=
  mkBus (eb_world s) (eb_queues s) (eb_scopes s) (eb_pools s) timer timers (eb_inFlight s) (eb_lastCycle s)
    (eb_history s) (eb_lastDecisions s).
Definition on_bus {A} (c : M H A) : M state A := λ s, let '(r, h) := c (eb_world s) in (r, with_bus_world s h).
Definition clock (s : state) : Z := bus_now (eb_world s).

(** *** The collector *)

Definition registerQueue (descriptor : QueueDescriptor) : call unit := await (modify (λ s,
  mkBus (eb_world s) (eb_queues s ++ [descriptor]) (eb_scopes s) (eb_pools s) (eb_timer s) (eb_timers s) (eb_inFlight s)
    (eb_lastCycle s) (eb_history s) (eb_lastDecisions s))).
(** What [registerQueue] returned: the first queue of the name goes. *)
Fixpoint remove_named (name : string) (l : list QueueDescriptor) : list QueueDescriptor :=
  match l with
  | [] => []
  | q :: l' => if decide (qd_name q = name) then l' else q :: remove_named name l'
  end.
Definition unregisterQueue (name : string) : call unit := await (modify (λ s,
  mkBus (eb_world s) (remove_named name (eb_queues s)) (eb_scopes s) (eb_pools s) (eb_timer s) (eb_timers s) (eb_inFlight s)
    (eb_lastCycle s) (eb_history s) (eb_lastDecisions s))).

Definition requireKey (queue : QueueDescriptor) : exc string :=
  if truthy_opt (qd_key queue) then Ok (default "" (qd_key queue))
  else Throw (Error ("Queue " +:+ qd_name queue +:+ " is missing its Redis/AMQP key")).
Definition requireChannel (queue : QueueDescriptor) : exc string :=
  if truthy_opt (qd_channel queue) then Ok (default "" (qd_channel queue))
  else Throw (Error ("Queue " +:+ qd_name queue +:+ " is missing its pub/sub channel")).
Definition oldestAge (queue : QueueDescriptor) : M H (option Z) :=
  match oldest_entry_age with
  | None => ret None
  | Some read =>
      try_catch (key <- lift_exc (requireKey queue) ;; age <- read key ;; ret (Z.max 0 <$> age)) (λ _, ret None)
  end.
Definition localDepth (queue : QueueDescriptor) (h : H) : Z := if qd_local queue then local_depth queue h else 0.
Definition readRedisQueue (queue : QueueDescriptor) : M H QueueDepthReading := λ h,
  if negb redis_reader then (Throw (Error "No Redis reader configured for this collector"), h)
  else
    let depth := localDepth queue h in
    match qd_transport queue with
    | RedisList =>
        (key <- lift_exc (requireKey queue) ;; n <- list_length key ;; age <- oldestAge queue ;;
         ret (mkReading (n + depth) None None age)) h
    | RedisSet =>
        (key <- lift_exc (requireKey queue) ;; n <- set_length key ;; ret (mkReading (n + depth) None None None)) h
    | RedisStream =>
        (key <- lift_exc (requireKey queue) ;; n <- stream_length key ;; age <- oldestAge queue ;;
         ret (mkReading (n + depth) None None age)) h
    | RedisPubsub =>
        (channel <- lift_exc (requireChannel queue) ;; subscribers <- channel_subscribers channel ;;
         ret (mkReading depth None (Some subscribers) None)) h
    | Amqp => (Throw (Error "Unsupported Redis transport: amqp"), h)
    end.
Definition readAmqpQueue (queue : QueueDescriptor) : M H QueueDepthReading :=
  if negb amqp_reader then throw (Error "No AMQP reader configured for this collector")
  else
    queueName <- lift_exc (requireKey queue) ;;
    declared <- check_queue queueName ;;
    unacked <- match management_stats with
               | Some stats => try_catch (stats queueName) (λ _, ret None)
               | None => ret None
               end ;;
    ret (mkReading declared.1 unacked (Some declared.2) None).
Definition readQueue (queue : QueueDescriptor) : M H QueueDepthReading :=
  if decide (qd_transport queue = Amqp) then readAmqpQueue queue else readRedisQueue queue.
(** [Promise.race] of a probe, which is one statement, and its timer. *)
Definition probe_in_time {A} (probe : M H A) : M H A := λ h,
  if probe_runs_out h then
    (Throw (Error ("Queue probe timed out after " +:+ pretty (ec_probeTimeoutMs config) +:+ "ms")), h)
  else probe h.
Definition sample_of (queue : QueueDescriptor) (observedAt : string) (r : exc QueueDepthReading) : QueueDepthSample :=
  match r with
  | Ok reading =>
      mkSample (qd_name queue) (qd_pool queue) (qd_transport queue) (Z.max 0 (qr_pending reading)) (qr_unacked reading)
        (qr_consumers reading) (qr_oldestPendingAgeSeconds reading)
        (match qr_consumers reading with None => true | Some n => 0 <? n end) observedAt None
  | Throw e =>
      mkSample (qd_name queue) (qd_pool queue) (qd_transport queue) UNKNOWN_DEPTH None None None true observedAt
        (Some (err_message e))
  end.
Definition inspect (queue : QueueDescriptor) : call QueueDepthSample := await (λ s,
  let observedAt := toISOString (clock s) in
  let '(r, h) := probe_in_time (readQueue queue) (eb_world s) in
  (Ok (sample_of queue observedAt r), with_bus_world s h)).
Definition total_of (samples : list QueueDepthSample) : Z :=
  foldl (λ total s, if 0 <? qs_pending s then total + qs_pending s else total) 0 samples.
Definition read_state {A} (f : state → A) : call A := await (λ s, (Ok (f s), s)).
Definition collect : call QueueDepthReport :=
  queues <~ read_state eb_queues ;;
  answers <~ settle_all turn (inspect <$> queues) ;;
  samples <~ Done (mapM id answers) ;;
  read_state (λ s, mkReport samples (total_of samples) (omap qs_error samples) (toISOString (clock s))).

(** *** The bot *)

Definition bus_thresholds : list (string * (Z * Z)) :=
  thresholdsFromQueues (ec_queues config) (bc_threshold (ec_alert config), bc_criticalThreshold (ec_alert config)).
Definition resolveDesired (decisions : list ScaleDecision) (pool : option string) : option Z :=
  match pool with
  | Some (String _ _ as p) => sd_to <$> find (λ d, bool_decide (sd_pool d = p)) decisions
  | _ => None
  end.
(** One scope: its state, its level and its alert. *)
Definition evaluate_scope (s : state) (observedAt : string) (probeErrors : list string)
    (acc : list (string * ScopeState) * BackpressureEvaluation)
    (scope : string) (pool : option string) (breakdown : list QueueDepthSample) (pending : Z) (limits : Z * Z)
  : list (string * ScopeState) * BackpressureEvaluation :=
  let '(scopes, e) := acc in
  let '(st, level, alert) := evaluateScope (ec_alert config) (default new_scope (map_get scopes scope)) pending limits (clock s) observedAt in
  (map_set scopes scope st,
   mkEvaluation
     (be_alerts e ++ match alert with
                     | Some lk => [buildAlert scope pool breakdown probeErrors observedAt pending limits
                                     (resolveDesired (eb_lastDecisions s) pool) lk]
                     | None => []
                     end)
     (map_set (be_levels e) scope level) (be_totalPending e)
     (be_criticalScopes e ++ if decide (level = LevelCritical) then [scope] else [])).
Definition evaluate_scopes (samples : list QueueDepthSample) (probeErrors : list string) (s : state)
  : list (string * ScopeState) * BackpressureEvaluation :=
  let observedAt := toISOString (clock s) in
  let healthy := filter (λ x, is_known x = true) samples in
  let failed := filter (λ x, is_known x = false) samples in
  let total := sum_pending healthy in
  let acc := foldl (λ acc x, evaluate_scope s observedAt probeErrors acc (qs_name x) (Some (qs_pool x)) [x] (qs_pending x)
                       (thresholdsFor (ec_alert config) bus_thresholds (qs_name x)))
               (eb_scopes s, mkEvaluation [] [] total []) healthy in
  let acc := if bc_alertOnTotal (ec_alert config) then
               evaluate_scope s observedAt probeErrors acc (bc_totalScopeName (ec_alert config)) None healthy total
                 (bc_threshold (ec_alert config), bc_criticalThreshold (ec_alert config))
             else acc in
  (acc.1, mkEvaluation (be_alerts acc.2) (foldl (λ levels x, map_set levels (qs_name x) LevelOk) (be_levels acc.2) failed)
            (be_totalPending acc.2) (be_criticalScopes acc.2)).
Definition dispatchAlert (alert : BackpressureAlert) : call unit :=
  if negb (ec_enabled config) then pret tt
  else pcatch (await (on_bus (match ba_kind alert with
                              | KindResolve => dispatch_resolve alert
                              | _ => dispatch_trigger alert
                              end))) (λ _, pret tt).
Definition evaluate_alerts (samples : list QueueDepthSample) (probeErrors : list string) : call BackpressureEvaluation :=
  evaluation <~ await (λ s, let '(scopes, e) := evaluate_scopes samples probeErrors s in (Ok e, with_scopes s scopes)) ;;
  pfor (be_alerts evaluation) dispatchAlert ;~
  pret evaluation.
Definition getLevels : call (list (string * BackpressureLevel)) := read_state (λ s, map (λ p, (p.1, sc_level p.2)) (eb_scopes s)).
Definition forget_scope (scope : string) : call unit := await (modify (λ s, with_scopes s (map_delete (eb_scopes s) scope))).

(** *** The autoscaler *)

Definition pool_of (s : state) (pool : string) : PoolState := default new_pool (map_get (eb_pools s) pool).
(** [stateFor]: a pool that is new has a state from then on. *)
Definition touch_pool (s : state) (pool : string) : state := with_pools s (map_set (eb_pools s) pool (pool_of s pool)).
Definition known_replicas (p : PoolState) (n : Z) : PoolState :=
  mkPool (po_lastPending p) (po_quietSince p) (po_lastActionAt p) (po_lastDesired p) (Some n).
Definition acted (p : PoolState) (n now : Z) : PoolState :=
  mkPool (po_lastPending p) (po_quietSince p) (Some now) (po_lastDesired p) (Some n).
Definition set_pool (s : state) (pool : string) (p : PoolState) : state := with_pools s (map_set (eb_pools s) pool p).
Definition last_known (pool : string) : call (option Z) :=
  await (λ s, (Ok (po_lastKnown (pool_of s pool)), touch_pool s pool)).
Definition refreshReplicaCount (pool : string) : call (option Z) :=
  if negb scale_provider then last_known pool
  else
    pcatch
      (count <~ await (on_bus (get_replicas pool)) ;;
       match count with
       | Some n => await (modify (λ s, set_pool s pool (known_replicas (pool_of s pool) n))) ;~ pret count
       | None => pret count
       end)
      (λ _, last_known pool).
Definition evaluate_scaling (samples : list QueueDepthSample) : M state AutoscalerEvaluation := λ s,
  let '(pools, e) := evaluate_pools (ec_autoscaler config) samples (clock s) (eb_pools s) in (Ok e, with_pools s pools).
(** Is the last action on the pool too recent? *)
Definition cooling (decision : ScaleDecision) : call bool := await (λ s,
  (Ok (match po_lastActionAt (pool_of s (sd_pool decision)) with
       | Some t => clock s - t <? ac_cooldownMs (ec_autoscaler config)
       | None => false
       end), touch_pool s (sd_pool decision))).
Definition apply_decision (decision : ScaleDecision) : call (option ApplyResult) :=
  let pool := sd_pool decision in
  if decide (sd_action decision = ScaleNone) then pret None
  else if negb (ac_enabled (ec_autoscaler config)) then pret (Some (mkApplied pool false None))
  else if negb scale_provider then pret (Some (mkApplied pool false (Some "no-provider")))
  else
    busy <~ cooling decision ;;
    if busy : bool then pret (Some (mkApplied pool false (Some "cooldown")))
    else
      pcatch
        (await (on_bus (set_replicas pool (sd_to decision))) ;~
         await (modify (λ s, set_pool s pool (acted (pool_of s pool) (sd_to decision) (clock s)))) ;~
         pret (Some (mkApplied pool true None)))
        (λ e, pret (Some (mkApplied pool false (Some (err_message e))))).
Fixpoint apply_each (decisions : list ScaleDecision) : call (list ApplyResult) :=
  match decisions with
  | [] => pret []
  | d :: rest => r <~ apply_decision d ;; rs <~ apply_each rest ;; pret (match r with Some r => r :: rs | None => rs end)
  end.
Definition apply_scaling (evaluation : AutoscalerEvaluation) : call (list ApplyResult) := apply_each (ae_decisions evaluation).

(** *** One cycle *)

Definition recordHistory (point : EventBusHistoryPoint) (history : list EventBusHistoryPoint) : list EventBusHistoryPoint :=
  let l := history ++ [point] in drop (length l - Z.to_nat (ec_historySize config)) l.
Definition end_cycle (result : EventBusCycleResult) (s : state) : state :=
  mkBus (eb_world s) (eb_queues s) (eb_scopes s) (eb_pools s) (eb_timer s) (eb_timers s) (eb_inFlight s) (Some result)
    (recordHistory (mkPoint (cy_observedAt result) (cy_totalPending result)
                      ((λ x, (qs_name x, qs_pending x)) <$> cy_samples result)) (eb_history s)) (eb_lastDecisions s).
(** The metrics that are published on the way are left out. *)
Definition executeCycle : call EventBusCycleResult :=
  startedAt <~ read_state clock ;;
  report <~ collect ;;
  let samples := qp_samples report in
  let pools := match ac_pools (ec_autoscaler config) with (_ :: _) as l => l | [] => first_seen (qs_pool <$> samples) end in
  pfor pools (λ pool, forget (refreshReplicaCount pool)) ;~
  autoscaler <~ await (evaluate_scaling samples) ;;
  await (modify (λ s, with_decisions s (ae_decisions autoscaler))) ;~
  appliedScales <~ apply_scaling autoscaler ;;
  backpressure <~ evaluate_alerts samples (qp_probeErrors report) ;;
  await (λ s,
    let result := mkCycle (qp_observedAt report) samples (qp_totalPending report) (qp_probeErrors report) backpressure
                    autoscaler appliedScales (Z.max 0 (clock s - startedAt)) in
    (Ok result, end_cycle result s)).
(** Is a cycle under way? If not, one is from now on. *)
Definition begin_cycle : call bool := await (λ s, (Ok (eb_inFlight s), with_flight s true)).
(** [None] is the answer of a call that shares the cycle under way. *)
Definition runCycle : call (option EventBusCycleResult) :=
  busy <~ begin_cycle ;;
  if busy : bool then pret None
  else pmap Some (pfinally executeCycle (await (modify (λ s, with_flight s false)))).

(** The first cycle is a call of its own. *)
Definition start : call unit := await (modify (λ s,
  if decide (is_Some (eb_timer s)) then s
  else if negb (ec_enabled config) then s
  else let '(id, timers) := setInterval (ec_pollIntervalMs config) (eb_timers s) in with_timer s (Some id) timers)).
(** The connection to the broker, which is closed as well, is outside. *)
Definition stop : call unit := await (modify (λ s, with_timer s None (clearInterval (eb_timer s) (eb_timers s)))).
Definition isRunning : call bool := read_state (λ s, bool_decide (is_Some (eb_timer s))).
Definition getHistory (limit : option Z) : call (list EventBusHistoryPoint) := read_state (λ s,
  let size := default (ec_historySize config) limit in
  let l := eb_history s in
  if Z.of_nat (length l) <=? size then l else drop (length l - Z.to_nat size) l).

(** All calls, those a timer makes among them; nothing calls [forget]. *)
Inductive bus_call : call unit → Prop :=
| call_cycle : bus_call (forget runCycle)
| call_bus_start : bus_call start
| call_bus_stop : bus_call stop
| call_register q : bus_call (registerQueue q)
| call_unregister name : bus_call (unregisterQueue name).
End service.

(** ** The autoscaler *)

Section autoscaler_facts.
Context (config : AutoscalerConfig).

Lemma desired_bounds pending : ac_minReplicas config ≤ ac_maxReplicas config →
  ac_minReplicas config ≤ desiredReplicasFor config pending ≤ ac_maxReplicas config.
Proof. unfold desiredReplicasFor. destruct (pending <=? 0); lia. Qed.
Lemma evaluated_decision samples now pools l acc0 d :
  d ∈ ae_decisions (foldl (evaluate_pool config samples now) (pools, acc0) l).2 →
  d ∈ ae_decisions acc0 ∨ ∃ pool s, let pending := pendingForPool samples pool in
    d = decide_scale config pool (observed config s pending (desiredReplicasFor config pending) now) pending
          (desiredReplicasFor config pending) now.
Proof.
  revert pools acc0. induction l as [|pool l IH]; intros pools acc0; simpl; [by left|].
  intros [Hd|Hd]%IH; [|by right]. cbn [evaluate_pool snd ae_decisions] in Hd.
  apply elem_of_app in Hd as [Hd|Hd]; [by left|]. apply list_elem_of_singleton in Hd as ->. right. by eexists _, _.
Qed.

(** C16. Whatever was observed: a pool is scaled towards what its backlog needs, which is within
    the limits, by a step at most, and down only after it was quiet for long enough. *)
Theorem scaling_within_limits samples now pools d :
  ac_minReplicas config ≤ ac_maxReplicas config → 0 ≤ ac_maxScaleStep config →
  d ∈ ae_decisions (evaluate_pools config samples now pools).2 → sd_action d ≠ ScaleNone →
  ∃ current target, sd_from d = Some current ∧ ac_minReplicas config ≤ target ≤ ac_maxReplicas config ∧
    Z.abs (sd_to d - current) ≤ ac_maxScaleStep config ∧
    match sd_action d with
    | ScaleUp => current < sd_to d ≤ target
    | _ => target ≤ sd_to d < current ∧ sd_pending d ≤ ac_scaleDownThreshold config
    end.
Proof.
  intros Hmm Hstep [Hd|(pool & s & ->)]%evaluated_decision; [by apply not_elem_of_nil in Hd|]. cbn zeta.
  set (pending := pendingForPool samples pool). pose proof (desired_bounds pending Hmm) as Hb.
  set (target := desiredReplicasFor config pending) in *. unfold decide_scale. cbn [po_lastKnown observed po_quietSince].
  destruct (po_lastKnown s) as [current|]; [|done]. set (stepped := if current <? target then _ else _).
  assert (Z.abs (stepped - current) ≤ ac_maxScaleStep config ∧ (current ≤ stepped ≤ target ∨ target ≤ stepped ≤ current)) as [Hs1 Hs2].
  { unfold stepped. destruct (Z.ltb_spec current target); lia. }
  destruct (Z.eqb_spec stepped current) as [|Hne]; [done|]. destruct (Z.ltb_spec current stepped) as [Hlt|Hge].
  - intros _. exists current, target. cbn. split_and!; first [done|lia].
  - destruct (Z.leb_spec pending (ac_scaleDownThreshold config)) as [Hq|]; [|done].
    destruct (negb _); [done|]. destruct (_ && _); [done|]. intros _. exists current, target. cbn. split_and!; first [done|lia].
Qed.

(** The depth of a queue that cannot be read counts for nothing: *)
Lemma unknown_pending samples pool : Forall (λ s, qs_pool s = pool → is_known s = false) samples → pendingForPool samples pool = 0.
Proof.
  intros Hs. unfold pendingForPool. replace (filter _ samples) with (@nil QueueDepthSample); [done|]. symmetry.
  induction Hs as [|s l Hs _ IH]; [done|]. rewrite filter_cons_False; [done|]. intros [Hp Hk]. rewrite Hs in Hk; done.
Qed.
(** when the broker of a pool does not answer, from one cycle to another that is late
    enough, replicas of the pool are removed. *)
Theorem outage_scales_down samples1 samples2 pool s current now1 now2 :
  Forall (λ x, qs_pool x = pool → is_known x = false) samples1 → Forall (λ x, qs_pool x = pool → is_known x = false) samples2 →
  0 ≤ ac_scaleDownThreshold config → ac_scaleDownStabilizationMs config ≤ now2 - now1 → po_quietSince s = None →
  po_lastKnown s = Some current → 1 ≤ ac_minReplicas config < current → 1 ≤ ac_maxScaleStep config →
  let s1 := observed config s (pendingForPool samples1 pool) (desiredReplicasFor config (pendingForPool samples1 pool)) now1 in
  let s2 := observed config s1 (pendingForPool samples2 pool) (desiredReplicasFor config (pendingForPool samples2 pool)) now2 in
  let d := decide_scale config pool s2 (pendingForPool samples2 pool) (desiredReplicasFor config (pendingForPool samples2 pool)) now2 in
  sd_action d = ScaleDown ∧ sd_to d = Z.max (ac_minReplicas config) (current - ac_maxScaleStep config).
Proof.
  intros H1 H2 Ht Hstab Hq Hk Hmin Hstep. rewrite (unknown_pending samples1), (unknown_pending samples2) by done.
  cbn zeta. unfold desiredReplicasFor, decide_scale, observed. cbn [Z.leb po_lastKnown po_quietSince Z.compare].
  rewrite Hk, Hq. destruct (Z.leb_spec 0 (ac_scaleDownThreshold config)); [|lia]. cbn [default from_option]. unfold id.
  destruct (Z.ltb_spec current (ac_minReplicas config)); [lia|].
  destruct (Z.eqb_spec (Z.max (ac_minReplicas config) (current - ac_maxScaleStep config)) current); [lia|].
  destruct (Z.ltb_spec current (Z.max (ac_minReplicas config) (current - ac_maxScaleStep config))); [lia|].
  destruct (Z.leb_spec (ac_scaleDownStabilizationMs config) (now2 - now1)); [|lia]. cbn [negb].
  destruct (Z.ltb_spec (Z.max (ac_minReplicas config) (current - ac_maxScaleStep config)) 1); [lia|].
  by rewrite andb_false_r.
Qed.
End autoscaler_facts.

(** ** The alerts of one scope *)

Section alert_facts.
Context (config : AlertBotConfig) (limits : Z * Z) (observedAt : string).
Notation recovered pending := (num_ltb (num_of_Z pending) (num_mul (num_of_Z limits.1) (bc_recoveryRatio config))).

(** The alerts of observations, of a backlog and a time each. *)
Fixpoint observe (s : ScopeState) (l : list (Z * Z)) : list (option (BackpressureLevel * AlertKind)) :=
  match l with
  | [] => []
  | (pending, now) :: l => let r := evaluateScope config s pending limits now observedAt in r.2 :: observe r.1.1 l
  end.

Lemma above_warning s pending now :
  recovered pending = false → limits.1 ≤ pending →
  let level := if limits.2 <=? pending then LevelCritical else LevelWarning in
  sc_level s ≠ level →
  let r := evaluateScope config s pending limits now observedAt in
  r.2 = Some (level, KindTrigger) ∧ sc_level r.1.1 = level.
Proof.
  intros Hr Hw level Hl. unfold evaluateScope. destruct limits as [warning critical]. cbn [fst snd] in *. rewrite Hr.
  destruct (Z.ltb_spec pending warning); [lia|]. fold level. by rewrite bool_decide_eq_false_2.
Qed.

(** A backlog about the critical threshold is announced in every cycle, up and down, however
    long the cooldown. *)
Theorem oscillation_pages_each_time s low high times :
  recovered low = false → recovered high = false → limits.1 ≤ low < limits.2 → limits.2 ≤ high →
  sc_level s ≠ LevelCritical →
  observe s (flat_map (λ t, [(high, t.1); (low, t.2)]) times) =
    flat_map (λ _ : Z * Z, [Some (LevelCritical, KindTrigger); Some (LevelWarning, KindTrigger)]) times.
Proof.
  intros Hrl Hrh Hlow Hhigh. revert s. induction times as [|[t1 t2] times IH]; intros s Hs; [done|].
  cbn [flat_map app observe fst snd].
  destruct (above_warning s high t1 Hrh ltac:(lia)) as [E1 L1]; [by rewrite (proj2 (Z.leb_le _ _) Hhigh)|].
  rewrite E1. rewrite (proj2 (Z.leb_le _ _) Hhigh) in *. set (s1 := (evaluateScope _ s _ _ _ _).1.1) in *.
  assert ((limits.2 <=? low) = false) as Hc by (apply Z.leb_gt; lia).
  destruct (above_warning s1 low t2 Hrl ltac:(lia)) as [E2 L2]; [by rewrite Hc, L1|].
  rewrite E2, Hc in *. do 2 f_equal. apply IH. by rewrite L2.
Qed.

(** An alert is repeated when its cooldown is over, and not before. *)
Theorem reminders_respect_cooldown s pending now t :
  sc_lastNotifiedAt s = Some t →
  (evaluateScope config s pending limits now observedAt).2 = Some (sc_level s, KindReminder) ↔
  bc_cooldownMs config ≤ now - t ∧ limits.1 ≤ pending ∧ recovered pending = false ∧
  sc_level s = if limits.2 <=? pending then LevelCritical else LevelWarning.
Proof.
  destruct limits as [warning critical]. cbn [fst snd]. intros Ht. unfold evaluateScope. rewrite Ht.
  destruct (num_ltb _ _).
  { split; [|by intros (_ & _ & ? & _)]. destruct (_ && _); done. }
  destruct (Z.ltb_spec pending warning); [split; [done|lia]|]. set (level := if critical <=? pending then _ else _).
  case_bool_decide as Hl; cbn [negb andb].
  - destruct (Z.leb_spec (bc_cooldownMs config) (now - t)); cbn [negb snd]; [|split; [done|lia]]. split; [done|intros _; done].
  - cbn [snd]. split; [done|]. by intros (_ & _ & _ & ?).
Qed.

(** With a recovery ratio of zero, the level of a scope that alerts is never ok again. *)
Lemma zero_never_recovers pending : bc_recoveryRatio config = num_zero → 0 ≤ pending → recovered pending = false.
Proof.
  intros -> Hp. assert (∀ x : number, num_mul x num_zero = S754_nan ∨ ∃ b, num_mul x num_zero = S754_zero b) as Hz.
  { intros []; [right; by eexists|by left|by left|right; by eexists]. }
  assert (pending = 0 ∨ signed false (num_of_Z pending)) as Hs.
  { destruct (decide (pending = 0)) as [|Hne]; [by left|right]. pose proof (num_of_Z_signed pending Hne) as Hs.
    by rewrite (proj2 (Z.ltb_ge _ _) Hp) in Hs. }
  destruct Hs as [->|Hs]; [by destruct (Hz (num_of_Z limits.1)) as [->|[[] ->]]|].
  destruct (Hz (num_of_Z limits.1)) as [->|[b ->]]; destruct (num_of_Z pending) as [|[]| |[] ??]; done.
Qed.
Lemma scope_stays s pending now :
  bc_recoveryRatio config = num_zero → 0 ≤ pending →
  let r := evaluateScope config s pending limits now observedAt in
  (∀ lk, r.2 = Some lk → lk.2 ≠ KindResolve) ∧ (sc_level s ≠ LevelOk → sc_level r.1.1 ≠ LevelOk).
Proof.
  intros Hr Hp. pose proof (zero_never_recovers pending Hr Hp) as Hz. destruct limits as [warning critical]. cbn [fst] in Hz.
  unfold evaluateScope. rewrite Hz. cbn zeta. destruct (pending <? warning); [done|].
  set (level := if critical <=? pending then _ else _).
  assert (level ≠ LevelOk) as Hne by (unfold level; by destruct (_ <=? _)). clearbody level.
  case_bool_decide; cbn [negb andb]; [destruct (sc_lastNotifiedAt s) as [t|]; [destruct (_ <=? _)|]|]; simpl;
    (split; [by intros ? [= <-]|done]).
Qed.
End alert_facts.

(** ** The alerts of the monitor *)

Section incidents.
Context {H : Type} `{!BusWorld H}.
Context (config : EventBusConfig) (turn : event_bus H → bool).
Notation state := (event_bus H).
Notation call := (prog state).
Notation acc := (list (string * ScopeState) * BackpressureEvaluation)%type.

Definition alerting (scopes : list (string * ScopeState)) (scope : string) : Prop :=
  ∃ st, map_get scopes scope = Some st ∧ sc_level st ≠ LevelOk.
Definition incidents_kept (s s' : state) : Prop := ∀ scope, alerting (eb_scopes s) scope → alerting (eb_scopes s') scope.
#[local] Instance incidents_kept_preorder : PreOrder incidents_kept.
Proof. split; [by intros s scope|]. intros s1 s2 s3 H1 H2 scope Hs. auto. Qed.
Notation fine p := (well_behaved (λ _, True) incidents_kept p).
Definition same_scopes (s s' : state) : Prop := eb_scopes s' = eb_scopes s.
#[local] Instance same_scopes_reflexive : Reflexive same_scopes.
Proof. by intros s. Qed.
Notation calm p := (every same_scopes p).

Lemma calm_fine {A} (p : call A) : calm p → fine p.
Proof. intros Hp. apply every_well_behaved. eapply every_mono; [|exact Hp]. intros s s' E _. split; [done|]. intros scope. by rewrite E. Qed.
Lemma calm_world {A} (c : M H A) : calm (await (on_bus c)).
Proof. apply every_await. intros s. unfold final, on_bus, same_scopes. by destruct (c _). Qed.
Lemma calm_modify f : (∀ s, eb_scopes (f s) = eb_scopes s) → calm (await (modify f)).
Proof. intros Hf. apply every_await. intros s. apply Hf. Qed.
Lemma calm_read {A} (f : state → A) : calm (read_state f).
Proof. by apply every_await. Qed.
Lemma calm_for {A} (l : list A) (body : A → call unit) : (∀ x, calm (body x)) → calm (pfor l body).
Proof. intros Hb. induction l as [|x l IH]; simpl; [done|]. by apply every_bind; [apply Hb|intros []]. Qed.
Hint Resolve calm_world calm_read : sf.

Lemma calm_collect : calm (collect config turn).
Proof.
  unfold collect. each. apply list_elem_of_fmap in H0 as (q & -> & _). apply every_await. intros s.
  unfold final, same_scopes. by destruct (probe_in_time _ _ _).
Qed.
Lemma calm_refresh pool : calm (refreshReplicaCount pool).
Proof. unfold refreshReplicaCount, last_known. each; try (by apply calm_modify); by apply every_await. Qed.
Lemma calm_apply decisions : calm (apply_each config decisions).
Proof.
  induction decisions as [|d l IH]; cbn [apply_each]; [apply every_done|]. unfold apply_decision, cooling. each; try exact IH.
  - by apply every_await.
  - by apply calm_modify.
Qed.
Lemma calm_dispatch alert : calm (dispatchAlert config alert).
Proof. unfold dispatchAlert. each. Qed.

(** The depth of a queue is a count or minus one. *)
Definition real_depth (x : QueueDepthSample) : Prop := -1 ≤ qs_pending x.
Lemma collected_depths : yields (λ r, Forall real_depth (qp_samples r)) (collect config turn).
Proof.
  unfold collect. eapply yields_bind; [apply yields_true|intros queues _].
  eapply yields_bind; [apply (yields_settle _ real_depth)|].
  { intros p (q & -> & _)%list_elem_of_fmap. apply yields_await. intros s a s'. destruct (probe_in_time _ _ _) as [r h].
    intros [= <- _]. unfold real_depth. destruct r; simpl; unfold UNKNOWN_DEPTH; lia. }
  intros answers Ha. eapply yields_bind; [apply (yields_done (Forall real_depth))|].
  - induction Ha as [|r l Hr _ IH]; simpl; [done|]. destruct r as [x|e]; [|done]. cbn [id ok_satisfies] in *.
    destruct (mapM id l) as [xs|e]; simpl in *; [by constructor|done].
  - intros samples Hs. apply yields_await. by intros s a s' [= <- _].
Qed.

Context (Hzero : bc_recoveryRatio (ec_alert config) = num_zero).

Lemma scope_kept (s : state) observedAt errors (a : acc) scope pool breakdown pending limits scope' :
  0 ≤ pending → alerting a.1 scope' → alerting (evaluate_scope config s observedAt errors a scope pool breakdown pending limits).1 scope'.
Proof.
  intros Hp (st & Hst & Hl). destruct a as [scopes e]. unfold evaluate_scope, alerting.
  pose proof (scope_stays (ec_alert config) limits observedAt (default new_scope (map_get scopes scope)) pending (clock s) Hzero Hp) as [_ Hstay].
  destruct (evaluateScope _ _ _ _ _ _) as [[st' level] alert]. cbn [fst snd] in *. rewrite map_get_set.
  case_decide as Hk; [|by exists st]. exists st'. split; [done|]. apply Hstay. subst. by rewrite Hst.
Qed.
Lemma healthy_depths samples : Forall real_depth samples → Forall (λ x, 0 ≤ qs_pending x) (filter (λ x, is_known x = true) samples).
Proof.
  intros Hs. apply Forall_forall. intros x [Hk Hx]%list_elem_of_filter. rewrite Forall_forall in Hs. specialize (Hs x Hx).
  unfold real_depth, is_known, UNKNOWN_DEPTH in *. apply negb_true_iff, bool_decide_eq_false in Hk. lia.
Qed.
Lemma sum_nonneg l : Forall (λ x, 0 ≤ qs_pending x) l → 0 ≤ sum_pending l.
Proof.
  intros Hl. unfold sum_pending. enough (∀ n, 0 ≤ n → 0 ≤ foldl (λ total s, total + qs_pending s) n l) as Hall by by apply Hall.
  induction Hl as [|x l Hx _ IH]; intros n Hn; simpl; [done|]. apply IH. lia.
Qed.
Lemma scopes_kept samples errors s : Forall real_depth samples → incidents_kept s (with_scopes s (evaluate_scopes config samples errors s).1).
Proof.
  intros Hs scope Ha. apply healthy_depths in Hs. unfold evaluate_scopes. cbn [with_scopes eb_scopes fst].
  set (start := (eb_scopes s, _)). assert (alerting start.1 scope) as Hstart by done. clearbody start.
  assert (alerting (foldl (λ a x, evaluate_scope config s (toISOString (clock s)) errors a (qs_name x) (Some (qs_pool x)) [x]
    (qs_pending x) (thresholdsFor (ec_alert config) (bus_thresholds config) (qs_name x))) start
    (filter (λ x, is_known x = true) samples)).1 scope) as Hfold.
  { clear Ha. revert start Hstart. induction Hs as [|x l Hx _ IH]; intros a Hal; simpl; [done|]. by apply IH, scope_kept. }
  destruct (bc_alertOnTotal _); [|done]. apply scope_kept; [by apply sum_nonneg|done].
Qed.
Lemma fine_alerts samples errors : Forall real_depth samples → fine (evaluate_alerts config samples errors).
Proof.
  intros Hs. unfold evaluate_alerts. apply well_behaved_bind; [apply _| |].
  - apply well_behaved_await. intros s _. split; [done|]. unfold final. pose proof (scopes_kept samples errors s Hs) as Hk.
    by destruct (evaluate_scopes _ _ _ _).
  - intros e. apply calm_fine. apply every_bind; [apply calm_for, calm_dispatch|intros; apply every_done].
Qed.
Lemma fine_execute : fine (executeCycle config turn).
Proof.
  unfold executeCycle. apply well_behaved_bind; [apply _|apply calm_fine, calm_read|intros startedAt].
  apply (guarantee_yields _ _ (λ _, True) (λ r, Forall real_depth (qp_samples r))); [done|apply calm_fine, calm_collect|apply collected_depths| |done].
  intros report Hr. apply well_behaved_bind; [apply _|apply calm_fine, calm_for; intros pool; each; apply calm_refresh|intros []].
  apply well_behaved_bind; [apply _| |intros scaling].
  { apply calm_fine, every_await. intros s. unfold final, evaluate_scaling. by destruct (evaluate_pools _ _ _ _). }
  apply well_behaved_bind; [apply _|by apply calm_fine, calm_modify|intros []].
  apply well_behaved_bind; [apply _|apply calm_fine, calm_apply|intros applied].
  apply well_behaved_bind; [apply _|by apply fine_alerts|intros alerts]. by apply calm_fine, every_await.
Qed.
Lemma fine_bus_calls p : bus_call config turn p → fine p.
Proof.
  intros []; try (apply calm_fine, calm_modify; intros s; done).
  - unfold forget, pmap, runCycle, begin_cycle, pmap. behave; try apply fine_execute; by apply calm_fine, every_await.
  - apply calm_fine, calm_modify. intros s. case_decide; [done|]. destruct (negb _); [done|]. by destruct (setInterval _ _).
Qed.

(** C15. With a recovery ratio of zero, which is what any configured ratio becomes, no incident
    is ever closed: in every interleaving a scope that alerts goes on to alert. *)
Theorem incidents_never_close s s' ps scope :
  alerting (eb_scopes s) scope →
  rtc (step (bus_call config turn) same_scopes) ([], s) (ps, s') →
  alerting (eb_scopes s') scope.
Proof.
  intros Ha Hr. destruct (interleaved_fresh (λ _, True) incidents_kept (bus_call config turn) same_scopes)
    with (w := s) (s' := (ps, s')) as [_ Hk]; [exact fine_bus_calls| |done|done|by apply Hk].
  intros s1 s2 _ E. split; [done|]. intros sc. by rewrite E.
Qed.
End incidents.

(** ** A broker that does not answer *)

(** The depths that cannot be read count for nothing in the total either, so that the
    incident of the whole bus is announced as resolved when no probe succeeds. *)
Theorem outage_resolves_total {H} `{!BusWorld H} (config : EventBusConfig) samples errors (s : event_bus H) :
  let bot := ec_alert config in
  Forall (λ x, is_known x = false) samples →
  bc_alertOnTotal bot = true → bc_resolveOnRecovery bot = true →
  num_ltb num_zero (num_mul (num_of_Z (bc_threshold bot)) (bc_recoveryRatio bot)) = true →
  alerting (eb_scopes s) (bc_totalScopeName bot) →
  let r := evaluate_scopes config samples errors s in
  (∃ alert, be_alerts r.2 = [alert] ∧ ba_scope alert = bc_totalScopeName bot ∧ ba_kind alert = KindResolve ∧ ba_pending alert = 0) ∧
  ¬ alerting r.1 (bc_totalScopeName bot).
Proof.
  intros bot Hs Ht Hr Hlt (st & Hst & Hl). unfold evaluate_scopes. fold bot.
  assert (filter (λ x, is_known x = true) samples = []) as ->.
  { induction Hs as [|x l Hx _ IH]; [done|]. rewrite filter_cons_False; [done|]. by rewrite Hx. }
  cbn [foldl]. rewrite Ht. change (sum_pending []) with 0. unfold evaluate_scope. fold bot. rewrite Hst.
  cbn [default from_option]. unfold id, evaluateScope. change (num_of_Z 0) with num_zero. rewrite Hlt, Hr.
  rewrite (bool_decide_eq_false_2 _ Hl). cbn. split.
  - by eexists.
  - intros (st' & Hst' & Hne). rewrite map_get_set, decide_True in Hst' by done. by injection Hst' as <-.
Qed.

(** ** Concrete runs *)

(** A world that is its clock and the depth of every queue, where a depth below zero is a
    broker that does not answer. *)
#[export] Instance sample_bus : BusWorld (Z * Z) := {|
  bus_now := fst;
  local_depth _ _ := 0;
  redis_reader := true;
  list_length _ := λ h, (if h.2 <? 0 then Throw (Error "ECONNREFUSED") else Ok h.2, h);
  set_length _ := λ h, (Ok h.2, h);
  stream_length _ := λ h, (Ok h.2, h);
  channel_subscribers _ := ret 0;
  oldest_entry_age := None;
  amqp_reader := false;
  check_queue _ := ret (0, 0);
  management_stats := None;
  probe_runs_out _ := false;
  scale_provider := false;
  get_replicas _ := ret None;
  set_replicas _ _ := ret tt;
  dispatch_trigger _ := ret tt;
  dispatch_resolve _ := ret tt;
|}.
Definition one_queue (key : string) : option string := if decide (key = "EVENT_BUS_QUEUES") then Some "jobs:redis-list" else None.
Definition one_queue_seventy (key : string) : option string :=
  if decide (key = "EVENT_BUS_QUEUES") then Some "jobs:redis-list" else seventy key.
Definition open_scope : ScopeState := mkScope LevelWarning (Some 0) 1500 1500 None.
Definition open_bus (env : string → option string) (depth : Z) : event_bus (Z * Z) :=
  mkBus (1000, depth) (ec_queues (loadEventBusConfig env)) [("jobs", open_scope); ("event-bus-total", open_scope)] [] None
    no_timers false None [] [].
Definition after_cycle env depth :=
  run_in_turn [forget (runCycle (loadEventBusConfig env) (λ _, true))] (open_bus env depth).

(** With the default ratio a drained queue is resolved; with the configured one it is not. *)
Example resolved_by_default : (λ p, (p.1, sc_level p.2)) <$> eb_scopes (after_cycle one_queue 0).2 =
  [("jobs", LevelOk); ("event-bus-total", LevelOk)].
Proof. vm_compute. reflexivity. Qed.
Lemma incidents_never_close_witness : alerting (eb_scopes (after_cycle one_queue_seventy 0).2) "jobs".
Proof.
  apply (incidents_never_close (loadEventBusConfig one_queue_seventy) (λ _, true) ltac:(vm_compute; reflexivity)
    (open_bus one_queue_seventy 0) _ (after_cycle one_queue_seventy 0).1).
  - by exists open_scope.
  - apply (run_in_turn_steps _ _ _ []). repeat constructor.
Defined.

(** A broker that is down resolves the incident of the bus. *)
Definition down_sample : QueueDepthSample :=
  mkSample "jobs" "default" RedisList UNKNOWN_DEPTH None None None true "" (Some "ECONNREFUSED").
Lemma outage_resolves_total_witness :
  ¬ alerting (evaluate_scopes (loadEventBusConfig one_queue) [down_sample] [] (open_bus one_queue (-1))).1 "event-bus-total".
Proof.
  refine (proj2 (outage_resolves_total (loadEventBusConfig one_queue) [down_sample] [] (open_bus one_queue (-1)) _ _ _ _ _)).
  - by repeat constructor.
  - vm_compute. reflexivity.
  - vm_compute. reflexivity.
  - vm_compute. reflexivity.
  - by exists open_scope.
Defined.

Definition sample_scaler : AutoscalerConfig := mkScalerConfig true 1 20 250 5 300000 600000 250 [].
Definition busy_pool : PoolState := mkPool 3000 None None (Some 12) (Some 9).
Definition busy_sample : QueueDepthSample := mkSample "jobs" "default" RedisList 3000 None None None true "" None.
Lemma scaling_within_limits_witness : ∃ d, ae_decisions (evaluate_pools sample_scaler [busy_sample] 0 [("default", busy_pool)]).2 = [d] ∧
  sd_action d = ScaleUp ∧ ∃ current target, sd_from d = Some current ∧ 1 ≤ target ≤ 20 ∧ current < sd_to d ≤ target.
Proof.
  eexists. split; [vm_compute; reflexivity|]. split; [reflexivity|]. edestruct (scaling_within_limits sample_scaler [busy_sample] 0 [("default", busy_pool)])
    as (current & target & Hf & Ht & _ & Hm).
  - done.
  - done.
  - vm_compute. by left.
  - done.
  - exists current, target. split; [exact Hf|]. split; [exact Ht|exact Hm].
Defined.
Lemma outage_scales_down_witness :
  let s1 := observed sample_scaler busy_pool 0 1 1000 in
  let d := decide_scale sample_scaler "default" (observed sample_scaler s1 0 1 700000) 0 1 700000 in
  sd_action d = ScaleDown ∧ sd_to d = 4.
Proof.
  apply (outage_scales_down sample_scaler [down_sample] [down_sample] "default" busy_pool 9 1000 700000); try done.
  - by repeat constructor.
  - by repeat constructor.
Defined.

Definition default_bot : AlertBotConfig := ec_alert (loadEventBusConfig one_queue).
Lemma oscillation_pages_each_time_witness :
  observe default_bot (1000, 5000) "" new_scope [(5001, 0); (4999, 15000); (5001, 30000); (4999, 45000)] =
    [Some (LevelCritical, KindTrigger); Some (LevelWarning, KindTrigger); Some (LevelCritical, KindTrigger); Some (LevelWarning, KindTrigger)].
Proof.
  apply (oscillation_pages_each_time default_bot (1000, 5000) "" new_scope 4999 5001 [(0, 15000); (30000, 45000)]).
  - vm_compute. reflexivity.
  - vm_compute. reflexivity.
  - done.
  - done.
  - done.
Defined.
Lemma reminders_respect_cooldown_witness :
  (evaluateScope default_bot open_scope 1500 (1000, 5000) 900000 "").2 = Some (LevelWarning, KindReminder).
Proof.
  apply (reminders_respect_cooldown default_bot (1000, 5000) "" open_scope 1500 900000 0 eq_refl).
  vm_compute. split_and!; done.
Defined.
