(* ===== verification/Compliance.v ===== *)
(** * Remittances and their screening ([services/complianceScreeningWorker.ts],
      [complianceScreeningClient.ts], [anchorPayoutRelayService.ts], [complianceTypes.ts])

    A worker takes the remittances that wait for it, asks a sanctions list about both
    parties and has the cleared ones paid out by the receiving anchor. The calls are
    programs of [Async] over the table of remittances, which [AnchorWebhook]
    shares; one round runs at a time. *)

From stdpp Require Import pretty.
From S2P Require Import Prelude JsNumber JsString JsMap JsValue Prisma Service Async Mutex Timers.

Local Open Scope Z_scope.

(** ** Data *)

Record RemittanceRow := mkRemittance {
  rt_id : string;
  rt_userId : string;
  rt_asset : string;
  rt_senderCurrency : string;
  rt_receiverCurrency : string;
  rt_amount : number;
  rt_outputAmount : number;
  rt_fee : number;
  rt_rate : number;
  rt_status : string;
  rt_provider : option string;
  rt_stellarTxHash : option string;
  rt_reference : option string;
  rt_errorMessage : option string;
  rt_senderPublicKey : option string;
  rt_recipientPublicKey : option string;
  rt_screeningProvider : option string;
  rt_screeningHits : jsval;
  rt_payoutHalted : bool;
  rt_payoutRelayedAt : option Z;
  rt_screenedAt : option Z;
  rt_createdAt : Z;
  rt_updatedAt : Z;
}.

(** [REMITTANCE_STATUS] *)
Definition PENDING_SCREENING : string := "pending_screening".
Definition SCREENING : string := "screening".
Definition FLAGGED_COMPLIANCE : string := "flagged_compliance".
Definition COMPLIANCE_CLEARED : string := "compliance_cleared".
Definition PAYOUT_RELAYED : string := "payout_relayed".
Definition PAYOUT_HALTED : string := "payout_halted".

Record AddressScreenResult := mkScreenResult {
  sr_publicKey : string;
  sr_sanctioned : bool;
  sr_provider : jsval;
  sr_raw : jsval;
}.
Inductive HitRole := HitSender | HitRecipient.
Record ScreeningHit := mkHit {
  sh_publicKey : string;
  sh_role : HitRole;
  sh_provider : jsval;
  sh_raw : jsval;
}.
Record ComplianceAlert := mkComplianceAlert {
  ca_severity : string;
  ca_title : string;
  ca_message : string;
  ca_details : list (string * jsval);
}.
(** The addresses after [trim]. *)
Record ComplianceConfig := mkComplianceConfig {
  cc_apiUrl : option string;
  cc_apiKey : option string;
  cc_relayUrl : option string;
  cc_intervalMs : Z;
  cc_batchSize : nat;
}.
(** What the anchor is asked to pay. *)
Record PayoutRequest := mkPayout { pq_remittanceId : string; pq_sender : string; pq_recipient : string }.

Definition ComplianceScreeningApiError (message : string) : js_error := mk_error message (Some "ComplianceScreeningApiError") None.
Definition PayoutHaltedError (message : string) : js_error := mk_error message (Some "PayoutHaltedError") None.

(** The clock; which of two requests under way answers first; the sanctions list, which
    gives the body of its answer; the receiving anchor, which gives [ok] and the status; and
    the notifications. *)
Class ComplianceWorld (H : Type) := {
  cw_now : H → Z;
  cw_turn : H → bool;
  screening_post : string → option string → string → M H jsval;
  payout_post : string → PayoutRequest → M H (bool * Z);
  compliance_alert : ComplianceAlert → M H unit;
}.

(** Work that a call starts without waiting for it ([AnchorWebhook]). *)
Inductive Background :=
| SettlementCallback (id status : string)
| SettlementNotice (id newStatus previousStatus : string).

Record remittances (D H : Type) := mkRemittances {
  rm_svc : svc D H;
  rm_running : bool;
  rm_timer : option nat;
  rm_timers : timers;
  rm_background : list Background;
}.
Arguments mkRemittances {D H} _ _ _ _ _.
Arguments rm_svc {D H} _.
Arguments rm_running {D H} _.
Arguments rm_timer {D H} _.
Arguments rm_timers {D H} _.
Arguments rm_background {D H} _.

(** ** The columns written *)

Definition with_status (status : string) (r : RemittanceRow) : RemittanceRow :=
  mkRemittance (rt_id r) (rt_userId r) (rt_asset r) (rt_senderCurrency r) (rt_receiverCurrency r) (rt_amount r) (rt_outputAmount r)
    (rt_fee r) (rt_rate r) status (rt_provider r) (rt_stellarTxHash r) (rt_reference r) (rt_errorMessage r) (rt_senderPublicKey r)
    (rt_recipientPublicKey r) (rt_screeningProvider r) (rt_screeningHits r) (rt_payoutHalted r) (rt_payoutRelayedAt r)
    (rt_screenedAt r) (rt_createdAt r) (rt_updatedAt r).
(** [@updatedAt]: every update through Prisma sets the column. *)
Definition touched (t : Z) (r : RemittanceRow) : RemittanceRow :=
  mkRemittance (rt_id r) (rt_userId r) (rt_asset r) (rt_senderCurrency r) (rt_receiverCurrency r) (rt_amount r) (rt_outputAmount r)
    (rt_fee r) (rt_rate r) (rt_status r) (rt_provider r) (rt_stellarTxHash r) (rt_reference r) (rt_errorMessage r) (rt_senderPublicKey r)
    (rt_recipientPublicKey r) (rt_screeningProvider r) (rt_screeningHits r) (rt_payoutHalted r) (rt_payoutRelayedAt r)
    (rt_screenedAt r) (rt_createdAt r) t.
Definition screened (provider : option string) (hits : jsval) (halted : bool) (t : Z) (r : RemittanceRow) : RemittanceRow :=
  mkRemittance (rt_id r) (rt_userId r) (rt_asset r) (rt_senderCurrency r) (rt_receiverCurrency r) (rt_amount r) (rt_outputAmount r)
    (rt_fee r) (rt_rate r) (rt_status r) (rt_provider r) (rt_stellarTxHash r) (rt_reference r) (rt_errorMessage r) (rt_senderPublicKey r)
    (rt_recipientPublicKey r) provider hits halted (rt_payoutRelayedAt r) (Some t) (rt_createdAt r) (rt_updatedAt r).
Definition relayed_at (t : Z) (r : RemittanceRow) : RemittanceRow :=
  mkRemittance (rt_id r) (rt_userId r) (rt_asset r) (rt_senderCurrency r) (rt_receiverCurrency r) (rt_amount r) (rt_outputAmount r)
    (rt_fee r) (rt_rate r) (rt_status r) (rt_provider r) (rt_stellarTxHash r) (rt_reference r) (rt_errorMessage r) (rt_senderPublicKey r)
    (rt_recipientPublicKey r) (rt_screeningProvider r) (rt_screeningHits r) (rt_payoutHalted r) (Some t)
    (rt_screenedAt r) (rt_createdAt r) (rt_updatedAt r).
Definition with_provider (provider : option string) (r : RemittanceRow) : RemittanceRow :=
  mkRemittance (rt_id r) (rt_userId r) (rt_asset r) (rt_senderCurrency r) (rt_receiverCurrency r) (rt_amount r) (rt_outputAmount r)
    (rt_fee r) (rt_rate r) (rt_status r) provider (rt_stellarTxHash r) (rt_reference r) (rt_errorMessage r) (rt_senderPublicKey r)
    (rt_recipientPublicKey r) (rt_screeningProvider r) (rt_screeningHits r) (rt_payoutHalted r) (rt_payoutRelayedAt r)
    (rt_screenedAt r) (rt_createdAt r) (rt_updatedAt r).

(** ** The answer of the sanctions list *)

Definition bool_of (v : jsval) : option bool := match v with JBool b => Some b | _ => None end.
Fixpoint first_bool (l : list jsval) : option bool :=
  match l with
  | [] => None
  | v :: l => match bool_of v with Some b => Some b | None => first_bool l end
  end.
Definition parseSanctioned (body : jsval) : bool :=
  match first_bool (prop body <$> ["sanctioned"; "is_sanctioned"; "hit"; "isHit"]) with
  | Some b => b
  | None => match prop body "matches" with JArr (_ :: _) => true | _ => false end
  end.
Definition body_or_empty (data : jsval) : jsval := match data with JUndef | JNull => JObj [] | _ => data end.
Definition provider_of (body : jsval) : jsval :=
  match prop body "provider" with JUndef | JNull => JStr "compliance_screening_api" | v => v end.

Definition role_name (r : HitRole) : string := match r with HitSender => "sender" | HitRecipient => "recipient" end.
Definition hit_json (h : ScreeningHit) : jsval :=
  JObj [("publicKey", JStr (sh_publicKey h)); ("role", JStr (role_name (sh_role h))); ("sanctioned", JBool true);
        ("provider", sh_provider h); ("raw", sh_raw h)].
Definition hit_of (role : HitRole) (r : AddressScreenResult) : list ScreeningHit :=
  if sr_sanctioned r then [mkHit (sr_publicKey r) role (sr_provider r) (sr_raw r)] else [].
(** The column takes a text, and Prisma rejects anything else. *)
Definition text_column (name : string) (v : jsval) : exc (option string) :=
  match v with
  | JStr s => Ok (Some s)
  | JUndef | JNull => Ok None
  | _ => Throw (Error ("Argument `" +:+ name +:+ "`: Invalid value provided. Expected String"))
  end.

(** ** The worker *)

Section worker.
Context {D H : Type} `{!PrismaTable string RemittanceRow D} `{!ComplianceWorld H}.
Context (config : ComplianceConfig).
Notation state := (remittances D H).
Notation call := (prog state).

Definition with_svc (s : state) (v : svc D H) : state :=
  mkRemittances v (rm_running s) (rm_timer s) (rm_timers s) (rm_background s).
Definition with_running (s : state) (b : bool) : state :=
  mkRemittances (rm_svc s) b (rm_timer s) (rm_timers s) (rm_background s).
Definition with_timers (s : state) (timer : option nat) (t : timers) : state :=
  mkRemittances (rm_svc s) (rm_running s) timer t (rm_background s).
Definition with_background (s : state) (l : list Background) : state :=
  mkRemittances (rm_svc s) (rm_running s) (rm_timer s) (rm_timers s) l.
Definition at_svc {A} (c : M (svc D H) A) : M state A := λ s, let '(r, v) := c (rm_svc s) in (r, with_svc s v).
Definition world_of (s : state) : H := svc_env (rm_svc s).
Definition table (s : state) : gmap string RemittanceRow := rows (svc_db (rm_svc s)).

(** [update({ where: { id }, data })] *)
Definition update_remittance (id : string) (f : Z → RemittanceRow → RemittanceRow) : M state RemittanceRow := λ s,
  let t := cw_now (world_of s) in at_svc (on_db (update id (λ r, touched t (f t r)))) s.

Definition isConfigured : bool := truthy_opt (cc_apiUrl config).
Definition screenPublicKey (publicKey : string) : call AddressScreenResult :=
  match cc_apiUrl config with
  | Some (String _ _ as url) =>
      pcatch
        (data <~ await (at_svc (on_env (screening_post url (cc_apiKey config) publicKey))) ;;
         let body := body_or_empty data in
         pret (mkScreenResult publicKey (parseSanctioned body) (provider_of body) body))
        (λ e, pthrow (ComplianceScreeningApiError
                        ("Compliance screening API failed for " +:+ publicKey +:+ ": " +:+ err_message e)))
  | _ => pthrow (ComplianceScreeningApiError "COMPLIANCE_SCREENING_API_URL is not configured")
  end.

(** [status] and [payoutHalted] are those of the object that is passed. *)
Definition relay (status : string) (payoutHalted : bool) (request : PayoutRequest) : call unit :=
  if payoutHalted || bool_decide (status = FLAGGED_COMPLIANCE) || bool_decide (status = PAYOUT_HALTED) then
    pthrow (PayoutHaltedError ("Anchor payout halted for remittance " +:+ pq_remittanceId request +:+ " (status=" +:+ status +:+ ")"))
  else if decide (status ≠ COMPLIANCE_CLEARED) then
    pthrow (PayoutHaltedError ("Anchor payout refused for remittance " +:+ pq_remittanceId request +:+ ": compliance not cleared"))
  else
    match cc_relayUrl config with
    | Some (String _ _ as url) =>
        response <~ await (at_svc (on_env (payout_post url request))) ;;
        if (response : bool * Z).1 then pret tt
        else pthrow (Error ("Anchor payout relay returned HTTP " +:+ pretty response.2 +:+ " for " +:+ pq_remittanceId request))
    | _ => pret tt
    end.

Definition send_alert (alert : ComplianceAlert) : call unit := await (at_svc (on_env (compliance_alert alert))).
Definition flagged_alert (id sender recipient : string) (hits : list ScreeningHit) : ComplianceAlert :=
  mkComplianceAlert "CRITICAL" "Remittance flagged for compliance"
    ("Sender or recipient matched a sanctions/OFAC watchlist for remittance " +:+ id)
    [("remittanceId", JStr id); ("senderPublicKey", JStr sender); ("recipientPublicKey", JStr recipient);
     ("hits", JArr (hit_json <$> hits))].
Definition halted_alert (id message : string) : ComplianceAlert :=
  mkComplianceAlert "HIGH" "Remittance payout halted" message [("remittanceId", JStr id)].

Definition mark_screening (id : string) : call unit :=
  forget (await (update_remittance id (λ _, with_status SCREENING))).
Definition flagAndHalt (id sender recipient : string) (hits : list ScreeningHit) : call unit :=
  await (provider <- lift_exc (text_column "screeningProvider" (default JUndef (sh_provider <$> head hits))) ;;
         update_remittance id (λ t r, with_status FLAGGED_COMPLIANCE
           (screened (from_option Some (rt_screeningProvider r) provider) (JArr (hit_json <$> hits)) true t r))) ;~
  send_alert (flagged_alert id sender recipient hits).
Definition mark_cleared (id : string) (provider : jsval) : call unit :=
  forget (await (provider <- lift_exc (text_column "screeningProvider" provider) ;;
                 update_remittance id (λ t r, with_status COMPLIANCE_CLEARED
                   (screened (from_option Some (rt_screeningProvider r) provider) (JArr []) false t r)))).
Definition relayIfCleared (request : PayoutRequest) : call unit :=
  relay COMPLIANCE_CLEARED false request ;~
  forget (await (update_remittance (pq_remittanceId request) (λ t r, with_status PAYOUT_RELAYED (relayed_at t r)))).
Definition is_screening_failure (e : js_error) : bool :=
  bool_decide (err_code e = Some "ComplianceScreeningApiError" ∨ err_code e = Some "PayoutHaltedError").
Definition halt_payout (id : string) (e : js_error) : call unit :=
  await (update_remittance id (λ t r, with_status PAYOUT_HALTED
    (screened (rt_screeningProvider r) (JObj [("error", JStr (err_message e))]) true t r))) ;~
  if is_screening_failure e then send_alert (halted_alert id (err_message e)) else pret tt.
(** Both parties are asked about at once; a failure is noticed when both have answered. *)
Definition screen_parties (sender recipient : string) : call (list AddressScreenResult) :=
  answers <~ settle_all (λ s, cw_turn (world_of s)) [screenPublicKey sender; screenPublicKey recipient] ;;
  Done (mapM id answers).
Definition hits_of (results : list AddressScreenResult) : list ScreeningHit :=
  match results with
  | [sender; recipient] => hit_of HitSender sender ++ hit_of HitRecipient recipient
  | _ => []
  end.
Definition screen_and_pay (request : PayoutRequest) : call unit :=
  let id := pq_remittanceId request in
  results <~ screen_parties (pq_sender request) (pq_recipient request) ;;
  match hits_of results with
  | (_ :: _) as hits => flagAndHalt id (pq_sender request) (pq_recipient request) hits
  | [] =>
      mark_cleared id (default JUndef (sr_provider <$> head results)) ;~
      relayIfCleared request
  end.
Definition screenTransaction (tx : RemittanceRow) : call unit :=
  match rt_senderPublicKey tx, rt_recipientPublicKey tx with
  | Some (String _ _ as sender), Some (String _ _ as recipient) =>
      mark_screening (rt_id tx) ;~
      pcatch (screen_and_pay (mkPayout (rt_id tx) sender recipient)) (halt_payout (rt_id tx))
  | _, _ => pret tt
  end.

Definition oldest_first (a b : RemittanceRow) : Prop := rt_createdAt a ≤ rt_createdAt b.
#[export] Instance oldest_first_dec a b : Decision (oldest_first a b).
Proof. unfold oldest_first. apply _. Defined.
Definition waiting_rows (found : list RemittanceRow) : list RemittanceRow :=
  take (cc_batchSize config) (merge_sort oldest_first (filter (λ r, rt_status r = PENDING_SCREENING) found)).
Definition find_waiting : call (list RemittanceRow) :=
  await (at_svc (query (λ d, found ← findAll d; Ok (waiting_rows found)))).
(** Is a round under way? If not, one is from now on. *)
Definition begin_round : call bool := await (λ s, (Ok (rm_running s), with_running s true)).
Definition runOnce : call unit :=
  busy <~ begin_round ;;
  if busy : bool then pret tt
  else pfinally
         (if negb isConfigured then pret tt
          else pending <~ find_waiting ;; pfor pending screenTransaction)
         (await (modify (λ s, with_running s false))).
(** The first round is a call of its own. *)
Definition start : call unit := await (modify (λ s,
  if decide (is_Some (rm_timer s)) then s
  else let '(id, t) := setInterval (cc_intervalMs config) (rm_timers s) in with_timers s (Some id) t)).
Definition stop : call unit := await (modify (λ s, with_timers s None (clearInterval (rm_timer s) (rm_timers s)))).

(** All calls, those a timer makes among them. *)
Inductive compliance_call : call unit → Prop :=
| call_round : compliance_call runOnce
| call_start : compliance_call start
| call_stop : compliance_call stop.
End worker.
