(* ===== verification/AnchorWebhook.v ===== *)
(** * The webhook of the anchors ([services/anchorWebhookService.ts], [routes/anchors.ts])

    An anchor reports the status of a remittance; the route checks the signature over the
    raw body, the service maps the status and writes it. The table is that of
    [Compliance], whose worker runs beside it. Proved of both together, in every
    interleaving: what is paid out was found on no sanctions list, and is paid out once.
    But statuses that the mapping does not know pass from any state, so that a halted or
    a completed remittance is taken back to [PENDING] and completes again; a flagged one
    completes at once, one created by SEP-31 never does; the worker overwrites what the
    webhook wrote meanwhile; and rows without keys hold up all rounds. *)

From stdpp Require Import pretty.
From S2P Require Import Prelude JsNumber JsString JsDecimal JsMap JsValue Prisma Service Async Mutex Parallel Timers Compliance.

Local Open Scope Z_scope.

(** ** Statuses *)

Definition COMPLETED_STATUSES : list string := ["completed"; "complete"; "delivered"; "settled"; "success"; "dispatched"].
Definition READY_FOR_PICKUP_STATUSES : list string :=
  ["ready_for_pickup"; "ready_for_cash_pickup"; "pickup_ready"; "pending_receiver"].
Definition TRANSITIONABLE_FROM_STATES : list string :=
  ["PENDING"; "pending_user_transfer"; "pending_receiver"; "READY_FOR_PICKUP"; "ready_for_pickup"; "payout_relayed"; "screening";
   "compliance_cleared"; "flagged_compliance"].

(** A status that is not listed is passed through, as the known ones are. *)
Definition normalizeStatus (anchorStatus : string) : string :=
  let normalized := toLowerCase anchorStatus in
  if includes COMPLETED_STATUSES normalized then "COMPLETED"
  else if includes READY_FOR_PICKUP_STATUSES normalized then "READY_FOR_PICKUP"
  else toUpperCase anchorStatus.

Record AnchorStatusUpdateResult := mkUpdateResult {
  ur_success : bool;
  ur_transactionId : option string;
  ur_previousStatus : option string;
  ur_newStatus : option string;
  ur_message : option string;
  ur_error : option string;
}.
Definition failed_update (id : option string) (error : string) : AnchorStatusUpdateResult :=
  mkUpdateResult false id None None None (Some error).

(** The identifier and the status, in lower case, or what is wrong with the payload. *)
Definition extractTransactionInfo (payload : jsval) : string * string + string :=
  let transaction := prop payload "transaction" in
  let text (v : jsval) : string := match v with JUndef | JNull => "" | _ => trim (String_val v) end in
  if negb (truthy transaction && is_object transaction) then inr "Missing or invalid 'transaction' field in payload"
  else
    let transactionId := text (prop transaction "id") in
    if decide (transactionId = "") then inr "Missing or empty 'transaction.id' field"
    else
      let rawStatus := text (prop transaction "status") in
      if decide (rawStatus = "") then inr "Missing or empty 'transaction.status' field"
      else inl (transactionId, toLowerCase rawStatus).

(** What Express hands to the route: the bytes, or what a parser before it made of them. *)
Inductive RequestBody := RawBody (text : string) | ParsedBody (value : jsval).
Inductive WebhookReply :=
| WebhookAccepted (result : AnchorStatusUpdateResult)
| WebhookRefused (status : Z) (code message : string).

(** The signature in hexadecimal of a text under a secret; what is started on a change of
    status, the callback of SEP-31 and the notices to the recipient. *)
Class AnchorWorld (H : Type) := {
  anchor_hmac : string → string → string;
  settlement_callback : string → string → M H unit;
  settlement_notice : string → string → string → M H unit;
}.

(** ** The service *)

Section service.
Context {D H : Type} `{!PrismaTable string RemittanceRow D} `{!ComplianceWorld H} `{!AnchorWorld H}.
Context (JSON_parse : string → exc jsval) (ANCHOR_WEBHOOK_SECRET : option string).
Notation state := (remittances D H).
Notation call := (prog state).

(** The hash function throws on anything but text and bytes, and the comparison on texts of
    different length; both count as a wrong signature. *)
Definition validateSignature (payload : RequestBody) (signature : option string) (secret : string) : bool :=
  match signature with
  | Some (String _ _ as signature) =>
      if decide (secret = "") then false
      else match payload with
           | RawBody text => bool_decide (anchor_hmac secret text = signature)
           | ParsedBody _ => false
           end
  | _ => false
  end.

Definition find_status (id : string) : call (option string) :=
  await (at_svc (query (λ d, found ← findUnique id d; Ok (option_map rt_status found)))).
Definition is_settlement (status : string) : bool := bool_decide (status = "COMPLETED" ∨ status = "READY_FOR_PICKUP").
(** [updateMany({ where: { id, status: currentStatus }, data: { status, updatedAt } })] *)
Definition write_status (id currentStatus newStatus : string) : call nat := await (λ s,
  let t := cw_now (world_of s) in
  at_svc (on_db (updateMany (λ r, bool_decide (rt_id r = id ∧ rt_status r = currentStatus))
                   (λ r, touched t (with_status newStatus r)))) s).
(** The calls that are not waited for. *)
Definition settlement_work (id newStatus currentStatus : string) : list Background :=
  (if decide (newStatus = "COMPLETED") then [SettlementCallback id "completed"] else []) ++
  (if is_settlement newStatus then [SettlementNotice id newStatus currentStatus] else []).
Definition start_background (l : list Background) : call unit :=
  await (modify (λ s, with_background s (rm_background s ++ l))).
(** The status before, and whether it was changed; [None] if there is no such row. *)
Definition transitionTransactionStatus (id newStatus : string) : call (option (string * bool)) :=
  found <~ find_status id ;;
  match found with
  | None => pret None
  | Some currentStatus =>
      if decide (currentStatus = newStatus) then pret (Some (currentStatus, false))
      else if is_settlement newStatus && negb (includes TRANSITIONABLE_FROM_STATES currentStatus) then
        pret (Some (currentStatus, false))
      else
        count <~ write_status id currentStatus newStatus ;;
        if decide (count = 0%nat) then pret (Some (currentStatus, false))
        else start_background (settlement_work id newStatus currentStatus) ;~ pret (Some (currentStatus, true))
  end.
Definition update_result (id newStatus : string) (r : option (string * bool)) : AnchorStatusUpdateResult :=
  match r with
  | None => failed_update (Some id) "Transaction not found in database"
  | Some (previous, false) =>
      mkUpdateResult true (Some id) (Some previous) (Some newStatus)
        (Some ("Status update not applied: transaction already in status '" +:+ previous +:+ "'")) None
  | Some (previous, true) =>
      mkUpdateResult true (Some id) (Some previous) (Some newStatus) (Some "Transaction status updated successfully") None
  end.
(** The signature it is given as well is not looked at. *)
Definition processWebhook (payload : jsval) : call AnchorStatusUpdateResult :=
  if negb (truthy payload && is_object payload) then pret (failed_update None "Invalid JSON payload: expected an object")
  else
    match extractTransactionInfo payload with
    | inr error => pret (failed_update None error)
    | inl (id, rawStatus) =>
        let newStatus := normalizeStatus rawStatus in
        pcatch (pmap (update_result id newStatus) (transitionTransactionStatus id newStatus))
          (λ e, pret (failed_update (Some id) (err_message e)))
    end.

Definition webhook_answer (result : AnchorStatusUpdateResult) : WebhookReply :=
  if ur_success result then WebhookAccepted result
  else
    let error := default "" (ur_error result) in
    WebhookRefused (if str_includes error "not found" then 404 else 400) "WEBHOOK_PROCESSING_ERROR"
      (str_or error "Failed to process webhook").
Definition body_text (body : RequestBody) : string := match body with RawBody text => text | ParsedBody v => String_val v end.
Definition webhook_route (body : RequestBody) (signature : option string) : call WebhookReply :=
  let secret := default "" ANCHOR_WEBHOOK_SECRET in
  if decide (secret = "") then
    pret (WebhookRefused 500 "CONFIGURATION_ERROR" "ANCHOR_WEBHOOK_SECRET is not configured")
  else if negb (validateSignature body signature secret) then
    pret (WebhookRefused 401 "INVALID_SIGNATURE" "Invalid or missing X-Anchor-Signature header")
  else
    match JSON_parse (body_text body) with
    | Throw _ => pret (WebhookRefused 400 "INVALID_JSON" "Request body is not valid JSON")
    | Ok payload => pmap webhook_answer (processWebhook payload)
    end.

(** One of the calls that were started and not waited for goes on. *)
Definition run_background : call unit :=
  task <~ await (λ s, match rm_background s with
                      | task :: rest => (Ok (Some task), with_background s rest)
                      | [] => (Ok None, s)
                      end) ;;
  match task with
  | Some (SettlementCallback id status) => pcatch (await (at_svc (on_env (settlement_callback id status)))) (λ _, pret tt)
  | Some (SettlementNotice id newStatus previous) =>
      pcatch (await (at_svc (on_env (settlement_notice id newStatus previous)))) (λ _, pret tt)
  | None => pret tt
  end.

Context (config : ComplianceConfig).
(** All calls on the table. *)
Inductive remittance_call : call unit → Prop :=
| call_compliance p : compliance_call config p → remittance_call p
| call_webhook body signature : remittance_call (forget (webhook_route body signature))
| call_background : remittance_call run_background.
End service.
Arguments remittance_call {D H _ _ _} JSON_parse ANCHOR_WEBHOOK_SECRET config _.

(** ** What is paid out *)

(** The payouts that were asked for, and the keys the sanctions list answered were clean. *)
Class PayoutLog (H : Type) `{!ComplianceWorld H, !AnchorWorld H} := {
  payouts : H → list PayoutRequest;
  clean_keys : H → list string;
  screening_logged url api key h r h' : screening_post url api key h = (r, h') →
    payouts h' = payouts h ∧ clean_keys h ⊆ clean_keys h' ∧
    (∀ data, r = Ok data → parseSanctioned (body_or_empty data) = false → key ∈ clean_keys h');
  payout_logged url request h r h' : payout_post url request h = (r, h') →
    payouts h' = payouts h ++ [request] ∧ clean_keys h ⊆ clean_keys h';
  alert_logged alert h r h' : compliance_alert alert h = (r, h') → payouts h' = payouts h ∧ clean_keys h ⊆ clean_keys h';
  callback_logged id status h r h' : settlement_callback id status h = (r, h') →
    payouts h' = payouts h ∧ clean_keys h ⊆ clean_keys h';
  notice_logged id status previous h r h' : settlement_notice id status previous h = (r, h') →
    payouts h' = payouts h ∧ clean_keys h ⊆ clean_keys h';
}.

(** A text in upper case is not the status that waits for screening. *)
Lemma upper_not_waiting s : toUpperCase s ≠ PENDING_SCREENING.
Proof.
  destruct s as [|c s]; [done|]. cbn [toUpperCase]. intros [= Hc _]. revert Hc. unfold upper_ascii.
  destruct c as [[] [] [] [] [] [] [] []]; vm_compute; done.
Qed.
Lemma normalized_not_waiting s : normalizeStatus s ≠ PENDING_SCREENING.
Proof. unfold normalizeStatus. destruct (includes _ _); [done|]. destruct (includes _ _); [done|]. apply upper_not_waiting. Qed.

Section paid.
Context {D H : Type} `{!PrismaTable string RemittanceRow D} `{!ComplianceWorld H} `{!AnchorWorld H} `{!PayoutLog H}.
Context (JSON_parse : string → exc jsval) (ANCHOR_WEBHOOK_SECRET : option string) (config : ComplianceConfig).
Notation state := (remittances D H).
Notation call := (prog state).

Definition paid (s : state) : list PayoutRequest := payouts (world_of s).
Definition paid_ids (s : state) : list string := pq_remittanceId <$> paid s.
(** The row is there and does not wait for screening any more. *)
Definition taken (s : state) (id : string) : Prop := ∃ r, table s !! id = Some r ∧ rt_status r ≠ PENDING_SCREENING.
Definition keyed (s : state) : Prop := ∀ k r, table s !! k = Some r → rt_id r = k.
Definition clean_payout (s : state) (p : PayoutRequest) : Prop :=
  pq_sender p ∈ clean_keys (world_of s) ∧ pq_recipient p ∈ clean_keys (world_of s).
Definition payouts_sound (s : state) : Prop :=
  keyed s ∧ NoDup (paid_ids s) ∧ Forall (λ p, taken s (pq_remittanceId p) ∧ clean_payout s p) (paid s).

(** What any statement may do, and what those outside a round do. *)
Definition moves_on (s s' : state) : Prop :=
  (∀ id, taken s id → taken s' id) ∧ clean_keys (world_of s) ⊆ clean_keys (world_of s').
Definition outside_round (s s' : state) : Prop :=
  moves_on s s' ∧ rm_running s' = rm_running s ∧ paid s' = paid s.
#[local] Instance moves_on_preorder : PreOrder moves_on.
Proof. split; [by intros s|]. intros s1 s2 s3 [A1 B1] [A2 B2]. split; [auto|set_solver]. Qed.
#[local] Instance outside_round_preorder : PreOrder outside_round.
Proof. split; [by intros s|]. intros s1 s2 s3 (A1 & B1 & C1) (A2 & B2 & C2). split_and!; [by etrans|congruence..]. Qed.
Lemma outside_moves s s' : outside_round s s' → moves_on s s'.
Proof. by intros (? & _). Qed.
Lemma outside_running s s' : outside_round s s' → rm_running s' = rm_running s.
Proof. by intros (_ & ? & _). Qed.
Hint Resolve outside_moves outside_running : sf.

Lemma clean_kept s s' p : clean_payout s p → moves_on s s' → clean_payout s' p.
Proof. intros [Ha Hb] [_ Hc]. split; set_solver. Qed.
Lemma sound_kept s s' : payouts_sound s → keyed s' → moves_on s s' → paid s' = paid s → payouts_sound s'.
Proof.
  intros (_ & Hn & Hp) Hk Hm E. split; [done|]. unfold paid_ids. rewrite E. split; [done|].
  eapply Forall_impl; [exact Hp|]. intros p [Ht Hc]. split; [by apply Hm|by eapply clean_kept].
Qed.
Notation fine p := (well_guarded payouts_sound rm_running moves_on outside_round p).
Notation calm p := (guarantee payouts_sound outside_round (λ _, True) p (λ _ _, True)).
Notation inside p Pre Post := (guarded_by payouts_sound rm_running moves_on outside_round true Pre p Post).

Lemma payouts_kept_outside s s' : payouts_sound s → keyed s' → outside_round s s' → payouts_sound s' ∧ outside_round s s'.
Proof. intros HI Hk Ho. split; [|done]. eapply sound_kept; [done..|apply Ho|apply Ho]. Qed.

(** Statements in the world. *)
Lemma world_outside {A} (c : M H A) (s : state) :
  payouts_sound s → payouts (c (world_of s)).2 = payouts (world_of s) → clean_keys (world_of s) ⊆ clean_keys (c (world_of s)).2 →
  payouts_sound (final (at_svc (on_env c)) s) ∧ outside_round s (final (at_svc (on_env c)) s).
Proof.
  intros HI Hp Hc. unfold final, at_svc, on_env. destruct s as [[d h] running timer timers bg]. unfold world_of in *.
  cbn [rm_svc svc_env svc_db] in *. destruct (c h) as [r h']. cbn [snd] in *. apply payouts_kept_outside; [done|exact (proj1 HI)|].
  split; [split; [done|exact Hc]|]. split; [done|]. exact Hp.
Qed.
Lemma screening_outside url api key s : payouts_sound s →
  payouts_sound (final (at_svc (on_env (screening_post url api key))) s) ∧
  outside_round s (final (at_svc (on_env (screening_post url api key))) s).
Proof.
  intros HI. destruct (screening_post url api key (world_of s)) as [r h'] eqn:E. apply screening_logged in E as Hl.
  apply world_outside; [done|rewrite E; apply Hl..].
Qed.
Lemma alert_outside alert s : payouts_sound s →
  payouts_sound (final (at_svc (on_env (compliance_alert alert))) s) ∧
  outside_round s (final (at_svc (on_env (compliance_alert alert))) s).
Proof.
  intros HI. destruct (compliance_alert alert (world_of s)) as [r h'] eqn:E. apply alert_logged in E as Hl.
  apply world_outside; [done|rewrite E; apply Hl..].
Qed.

(** Statements on the table. *)
Lemma rows_outside {A} (c : M D A) (s : state) :
  payouts_sound s →
  (∀ k r, rows (c (svc_db (rm_svc s))).2 !! k = Some r → rt_id r = k) →
  (∀ id r, table s !! id = Some r → rt_status r ≠ PENDING_SCREENING →
     ∃ r', rows (c (svc_db (rm_svc s))).2 !! id = Some r' ∧ rt_status r' ≠ PENDING_SCREENING) →
  payouts_sound (final (at_svc (on_db c)) s) ∧ outside_round s (final (at_svc (on_db c)) s).
Proof.
  intros HI Hk Ht. unfold final, at_svc, on_db. destruct s as [[d h] running timer timers bg]. unfold table in *.
  cbn [rm_svc svc_env svc_db] in *. destruct (c d) as [r d']. cbn [snd] in *. apply payouts_kept_outside; [done|exact Hk|].
  split; [|done]. split; [|done]. intros id (r0 & Hr & Hs). by apply (Ht id r0).
Qed.
Lemma update_outside id f (s : state) :
  payouts_sound s → (∀ t r, rt_id (f t r) = rt_id r) → (∀ t r, rt_status (f t r) ≠ PENDING_SCREENING) →
  payouts_sound (final (update_remittance id f) s) ∧ outside_round s (final (update_remittance id f) s).
Proof.
  intros HI Hid Hst. unfold update_remittance. apply (rows_outside _ s HI).
  - intros k r. destruct (update id _ _) as [[r0|e] d'] eqn:E; cbn [snd].
    + apply update_ok in E as (r1 & Hr1 & -> & ->). intros [(<- & <-)|[_ Hr]]%lookup_insert_Some; [|by apply (proj1 HI)].
      cbn [touched rt_id]. rewrite Hid. by apply (proj1 HI).
    + apply update_err in E as ->. apply (proj1 HI).
  - intros k r Hr Hs. destruct (update id _ _) as [[r0|e] d'] eqn:E; cbn [snd].
    + apply update_ok in E as (r1 & Hr1 & -> & ->). destruct (decide (id = k)) as [<-|Hne].
      * rewrite lookup_insert_eq. eexists. split; [done|]. apply Hst.
      * rewrite lookup_insert_ne by done. by exists r.
    + apply update_err in E as ->. by exists r.
Qed.

(** The screening of a key: an answer that is clean is logged. *)
Definition logged (key : string) (r : exc AddressScreenResult) (s : state) : Prop :=
  match r with Ok x => sr_sanctioned x = false → key ∈ clean_keys (world_of s) | Throw _ => True end.
Lemma logged_stable key r : stable outside_round (logged key r).
Proof. intros s s' Hl ((_ & Hc) & _). destruct r as [x|e]; [|done]. intros Hx. specialize (Hl Hx). set_solver. Qed.
Lemma screen_logged key : guarantee payouts_sound outside_round (λ _, True) (screenPublicKey config key) (logged key).
Proof.
  unfold screenPublicKey. destruct (cc_apiUrl config) as [[|c url]|]; [done| |done].
  apply guarantee_catch; [apply _|]. apply guarantee_bind; [apply _|]. apply guarantee_await. intros s HI _.
  destruct (screening_outside (String c url) (cc_apiKey config) key s HI) as [HI' Ho]. split_and!; [done..|].
  intros s' _ Hs'. set (post := screening_post _ _ _) in *. unfold outcome, at_svc, on_env.
  destruct s as [[d h] running timer timers bg]. unfold final, at_svc, on_env in Hs'. cbn [rm_svc svc_env svc_db] in *.
  destruct (post h) as [[data|e] h'] eqn:E; [|done]. cbn. intros s2 _ Hs2 Hclean.
  apply screening_logged in E as (_ & _ & Hk). destruct Hs' as ((_ & Hc) & _), Hs2 as ((_ & Hc2) & _).
  unfold world_of in *. cbn in Hc. apply Hc2, Hc. exact (Hk data eq_refl Hclean).
Qed.
Lemma parties_logged sender recipient :
  guarantee payouts_sound outside_round (λ _, True) (screen_parties config sender recipient)
    (λ r s, ∀ results, r = Ok results → hits_of results = [] →
       sender ∈ clean_keys (world_of s) ∧ recipient ∈ clean_keys (world_of s)).
Proof.
  unfold screen_parties. apply guarantee_bind; [apply _|]. eapply guarantee_post.
  - apply (guarantee_settle payouts_sound outside_round _ (λ _, True)
      [(screenPublicKey config sender, logged sender); (screenPublicKey config recipient, logged recipient)]).
    + apply stable_true.
    + intros x Hx r. apply elem_of_cons in Hx as [->|[->|[]%elem_of_nil]%elem_of_cons]; apply logged_stable.
    + intros x [->|[->|[]%elem_of_nil]%elem_of_cons]%elem_of_cons; apply screen_logged.
  - intros rs s _ (answers & -> & Hf). intros s' _ Hs' results Hr Hh.
    inversion Hf as [|? r1 ? l1 H1 Hf1]; subst. inversion Hf1 as [|? r2 ? l2 H2 Hf2]; subst. inversion Hf2; subst.
    cbn [fst snd] in *. apply (logged_stable _ _ s s') in H1, H2; [|done..]. clear -H1 H2 Hr Hh.
    destruct r1 as [x|], r2 as [y|]; try done. cbn in Hr. injection Hr as <-. cbn in *. unfold hit_of in Hh.
    destruct (sr_sanctioned x), (sr_sanctioned y); try done. auto.
Qed.

(** The request to pay. *)
Lemma payout_inside url request s :
  payouts_sound s → pq_remittanceId request ∉ paid_ids s → taken s (pq_remittanceId request) → clean_payout s request →
  payouts_sound (final (at_svc (on_env (payout_post url request))) s) ∧
  moves_on s (final (at_svc (on_env (payout_post url request))) s) ∧
  rm_running (final (at_svc (on_env (payout_post url request))) s) = rm_running s ∧
  paid_ids (final (at_svc (on_env (payout_post url request))) s) = paid_ids s ++ [pq_remittanceId request].
Proof.
  intros (Hk & Hn & Hp) Hnew Ht Hcl. unfold final, at_svc, on_env. destruct s as [[d h] running timer timers bg].
  unfold paid_ids, paid, clean_payout, world_of in *. cbn [rm_svc svc_env svc_db] in *.
  destruct (payout_post url request h) as [r h'] eqn:E. apply payout_logged in E as [E Hc]. cbn.
  rewrite E, fmap_app. cbn [fmap list_fmap].
  assert (∀ p, pq_sender p ∈ clean_keys h ∧ pq_recipient p ∈ clean_keys h →
               pq_sender p ∈ clean_keys h' ∧ pq_recipient p ∈ clean_keys h') as Hcl' by set_solver.
  split_and!; [|split; [done|exact Hc]|done|done]. split_and!; [exact Hk| |].
  - unfold paid_ids, paid, world_of. cbn. rewrite E, fmap_app. apply NoDup_app. split; [done|]. split; [|by apply NoDup_singleton].
    intros x Hx ->%list_elem_of_singleton. done.
  - unfold paid, world_of. cbn. rewrite E. apply Forall_app. split; [|repeat constructor; [exact Ht|by apply Hcl'..]].
    eapply Forall_impl; [exact Hp|]. intros p [Htp Hcp]. split; [exact Htp|by apply Hcl'].
Qed.

(** ** A round *)

Lemma quiet_inside {A} (S : state → Prop) (p : call A) Post :
  stable outside_round S → guarantee payouts_sound outside_round (λ _, True) p Post →
  inside p S (λ b r s, b = true ∧ Post r s ∧ S s).
Proof.
  intros HS Hp. eapply guarded_pre; [apply (guarded_quiet _ _ _ _ outside_moves outside_running)|].
  - exact (guarantee_frame _ _ S (λ _, True) p Post HS Hp).
  - by intros s _ _ Hs.
Qed.
Lemma calm_update id f :
  (∀ t r, rt_id (f t r) = rt_id r) → (∀ t r, rt_status (f t r) ≠ PENDING_SCREENING) → calm (await (update_remittance id f)).
Proof. intros Hid Hst. apply well_behaved_await. intros s HI. by apply update_outside. Qed.
Lemma calm_alert alert : calm (send_alert alert).
Proof. apply well_behaved_await. intros s HI. by apply alert_outside. Qed.
Lemma calm_text {A} name v (c : option string → M state A) :
  (∀ p, calm (await (c p))) → calm (await (provider <- lift_exc (text_column name v) ;; c provider)).
Proof.
  intros Hc. apply well_behaved_await. intros s HI. unfold final, bind, lift_exc. destruct (text_column name v) as [p|e]; [|done].
  destruct (Hc p s HI I) as (? & ? & _). done.
Qed.
Lemma calm_halt id e : calm (halt_payout id e).
Proof.
  unfold halt_payout. apply well_behaved_bind; [apply _|by apply calm_update|intros _].
  destruct (is_screening_failure e); [apply calm_alert|apply well_behaved_ret].
Qed.
Lemma calm_flag id sender recipient hits : calm (flagAndHalt id sender recipient hits).
Proof.
  unfold flagAndHalt. apply well_behaved_bind; [apply _| |intros _; apply calm_alert]. apply calm_text. intros p. by apply calm_update.
Qed.
Lemma calm_cleared id provider : calm (mark_cleared id provider).
Proof.
  unfold mark_cleared. apply well_behaved_bind; [apply _| |intros _; apply well_behaved_ret].
  apply calm_text. intros p. by apply calm_update.
Qed.

(** The rows a round has still to look at. *)
Definition unpaid (ids : list string) (s : state) : Prop := ∀ id, id ∈ ids → id ∉ paid_ids s.
Lemma unpaid_stable ids : stable outside_round (unpaid ids).
Proof. intros s s' Hu (_ & _ & E) id Hid. unfold paid_ids. rewrite E. by apply Hu. Qed.
Definition to_pay (id : string) (ids : list string) (s : state) : Prop := taken s id ∧ unpaid (id :: ids) s.
Lemma to_pay_stable id ids : stable outside_round (to_pay id ids).
Proof. intros s s' [Ht Hu] Ho. split; [by apply Ho|by eapply unpaid_stable]. Qed.
Lemma clean_stable request : stable outside_round (λ s, clean_payout s request).
Proof. intros s s' Hc (Hm & _). by eapply clean_kept. Qed.
Lemma unpaid_paid id ids s s' : unpaid (id :: ids) s → NoDup (id :: ids) → paid_ids s' = paid_ids s ++ [id] → unpaid ids s'.
Proof.
  intros Hu [Hnew _]%NoDup_cons E x Hx. rewrite E. intros [Hp| ->%list_elem_of_singleton]%elem_of_app; [|done].
  by apply (Hu x); [right|].
Qed.

Lemma relay_inside request ids :
  NoDup (pq_remittanceId request :: ids) →
  inside (relay config COMPLIANCE_CLEARED false request) (λ s, to_pay (pq_remittanceId request) ids s ∧ clean_payout s request)
    (λ b r s, b = true ∧ unpaid ids s).
Proof.
  intros Hn. assert (∀ s, to_pay (pq_remittanceId request) ids s → unpaid ids s) as Htail.
  { intros s [_ Hu] id Hid. apply Hu. by right. }
  unfold relay. cbn [orb]. rewrite !bool_decide_eq_false_2 by done. rewrite decide_False by (intros Hc; by apply Hc). cbn [orb].
  destruct (cc_relayUrl config) as [[|c url]|]; try by (apply guarded_done; intros s _ _ [Hs _]; auto).
  apply (guarded_bind _ _ _ _ outside_moves outside_running). apply guarded_inside. intros s HI Hrun [Hs Hc].
  destruct (payout_inside (String c url) request s) as (HI' & Hm & Hf & E); [done|apply (proj2 Hs); by left|apply (proj1 Hs)|done|].
  split_and!; [done|done|congruence|]. intros s' HI2 Ho. pose proof (unpaid_paid _ _ _ _ (proj2 Hs) Hn E) as Hu.
  destruct (outcome _ s) as [[ok status]|e]; [|split; [done|by eapply unpaid_stable]].
  destruct ok; apply guarded_done; intros s2 _ _ Ho2; (split; [done|]); eapply unpaid_stable; [|exact Ho2| |exact Ho2];
    by eapply unpaid_stable.
Qed.
Lemma pay_inside request ids :
  NoDup (pq_remittanceId request :: ids) →
  inside (screen_and_pay config request) (to_pay (pq_remittanceId request) ids) (λ b r s, b = true ∧ unpaid ids s).
Proof.
  intros Hn. set (S := to_pay (pq_remittanceId request) ids). pose proof (to_pay_stable (pq_remittanceId request) ids) as HS.
  fold S in HS. assert (∀ s, S s → unpaid ids s) as Htail by (intros s [_ Hu] id Hid; apply Hu; by right).
  unfold screen_and_pay. apply (guarded_bind _ _ _ _ outside_moves outside_running).
  eapply guarded_post; [exact (quiet_inside S _ _ HS (parties_logged _ _))|].
  intros b [results|e] s HI Hh (-> & Hlog & Hs); [|by split; [|apply Htail]]. destruct (hits_of results) as [|hit hits] eqn:Eh.
  - assert (clean_payout s request) as Hc by by apply (Hlog results).
    apply (guarded_bind _ _ _ _ outside_moves outside_running). eapply guarded_post; [eapply guarded_pre|].
    + apply (quiet_inside (λ s, S s ∧ clean_payout s request)); [|apply calm_cleared].
      intros s1 s2 [H1 H2] Ho. split; [by eapply HS|by eapply clean_stable].
    + intros s1 _ _ Ho. split; [by eapply HS|by eapply clean_stable].
    + intros b [[]|e] s1 HI1 Hh1 (-> & _ & Hs1 & Hc1); [|by split; [|apply Htail]]. unfold relayIfCleared.
      apply (guarded_bind _ _ _ _ outside_moves outside_running). eapply guarded_post; [eapply guarded_pre; [by apply relay_inside|]|].
      * intros s2 _ _ Ho. split; [by eapply HS|by eapply (clean_stable request)].
      * intros b [[]|e] s2 HI2 Hh2 (-> & Hu); [|done]. eapply guarded_post; [eapply guarded_pre|].
        -- apply (quiet_inside (unpaid ids)); [apply unpaid_stable|]. apply well_behaved_bind; [apply _|by apply calm_update|done].
        -- intros s3 _ _ Ho. by eapply unpaid_stable.
        -- by intros b r s3 _ _ (? & _ & ?).
  - eapply guarded_post; [eapply guarded_pre|].
    + apply (quiet_inside S); [done|apply calm_flag].
    + intros s1 _ _ Ho. by eapply HS.
    + intros b r s1 _ _ (-> & _ & Hs1). split; [done|by apply Htail].
Qed.

Definition unpaid_rows (l : list RemittanceRow) (s : state) : Prop := NoDup (rt_id <$> l) ∧ unpaid (rt_id <$> l) s.
Lemma screen_inside tx l :
  inside (screenTransaction config tx) (unpaid_rows (tx :: l)) (λ b r s, match r with
    | Ok _ => b = true ∧ unpaid_rows l s
    | Throw _ => b = true
    end).
Proof.
  assert (∀ s, unpaid_rows (tx :: l) s → NoDup (rt_id <$> l) ∧ unpaid (rt_id <$> l) s) as Htail.
  { intros s [[_ Hn]%NoDup_cons Hu]. split; [done|]. intros id Hid. apply Hu. by right. }
  unfold screenTransaction. destruct (rt_senderPublicKey tx) as [[|c1 sender]|]; try (apply guarded_done; intros s _ _ Hs; split; [done|exact (Htail s Hs)]).
  destruct (rt_recipientPublicKey tx) as [[|c2 recipient]|]; try (apply guarded_done; intros s _ _ Hs; split; [done|exact (Htail s Hs)]).
  apply (guarded_bind _ _ _ _ outside_moves outside_running). unfold mark_screening, forget, pmap.
  apply (guarded_bind _ _ _ _ outside_moves outside_running). apply guarded_inside. intros s HI Hrun [Hn Hu].
  destruct (update_outside (rt_id tx) (λ _, with_status SCREENING) s HI) as [HI' Ho]; [done..|].
  split_and!; [done|by apply Ho|by rewrite (outside_running _ _ Ho)|]. intros s1 HI1 Ho1.
  destruct (outcome _ s) as [row|e] eqn:Eo; [|done]. apply guarded_done. intros s2 _ _ Ho2.
  assert (to_pay (rt_id tx) (rt_id <$> l) s2) as Hpay.
  { eapply to_pay_stable; [|exact Ho2]. eapply to_pay_stable; [|exact Ho1]. split.
    - revert Eo. unfold outcome, final, update_remittance, at_svc, on_db, taken, table. destruct s as [[d h] running timer timers bg].
      cbn [rm_svc svc_db svc_env]. destruct (update _ _ d) as [[r|e] d'] eqn:E; [|done]. intros _. cbn.
      apply update_ok in E as (r0 & _ & -> & ->). rewrite lookup_insert_eq. eexists. by split.
    - by eapply unpaid_stable. }
  apply (guarded_catch _ _ _ _ outside_moves outside_running). eapply guarded_post; [eapply guarded_pre|].
  - apply (pay_inside (mkPayout (rt_id tx) (String c1 sender) (String c2 recipient))). exact Hn.
  - intros s3 _ _ Ho3. by eapply to_pay_stable.
  - apply NoDup_cons in Hn as [_ Hn]. intros b [[]|e] s3 _ _ [-> Hu3]; [by split|].
    eapply guarded_post; [eapply guarded_pre|].
    + apply (quiet_inside (unpaid (rt_id <$> l))); [apply unpaid_stable|apply calm_halt].
    + intros s4 _ _ Ho4. by eapply unpaid_stable.
    + by intros b [[]|e'] s4 _ _ (-> & _ & Hu4).
Qed.

Lemma waiting_unpaid (s : state) found :
  payouts_sound s → findAll (svc_db (rm_svc s)) = Ok found → unpaid_rows (waiting_rows config found) s.
Proof.
  intros (Hk & _ & Hp) Hf. apply findAll_ok in Hf. unfold waiting_rows.
  set (sorted := merge_sort oldest_first _).
  assert (sorted ≡ₚ filter (λ r, rt_status r = PENDING_SCREENING) found) as Hs by apply merge_sort_Permutation.
  assert (∀ r, r ∈ sorted → table s !! rt_id r = Some r ∧ rt_status r = PENDING_SCREENING) as Hr.
  { intros r Hr. rewrite Hs in Hr. apply list_elem_of_filter in Hr as [Hst Hr]. split; [|done].
    rewrite Hf in Hr. apply list_elem_of_fmap in Hr as ([k r'] & -> & Hkr%elem_of_map_to_list). cbn [snd] in *.
    by rewrite (Hk _ _ Hkr). }
  assert (∀ r, r ∈ take (cc_batchSize config) sorted → r ∈ sorted) as Htake.
  { intros r (i & Hi & _)%elem_of_take. by eapply list_elem_of_lookup_2. }
  split.
  - rewrite fmap_take. eapply sublist_NoDup; [|apply sublist_take]. rewrite Hs.
    eapply sublist_NoDup; [|apply fmap_sublist, sublist_filter]. rewrite Hf, <-list_fmap_compose.
    apply (NoDup_fmap_2_strong _ _); [|apply NoDup_map_to_list].
    intros [k1 r1] [k2 r2] H1%elem_of_map_to_list H2%elem_of_map_to_list. cbn. intros E.
    apply Hk in H1 as E1. apply Hk in H2 as E2. rewrite E1, E2 in E. subst k1. unfold table in *. congruence.
  - intros id (r & -> & Hin%Htake%Hr)%list_elem_of_fmap (p & E & Hpaid)%list_elem_of_fmap. destruct Hin as [Hrow Hst].
    rewrite Forall_forall in Hp. destruct (Hp p Hpaid) as [(r' & Hr' & Hne) _]. rewrite <-E in Hr'. congruence.
Qed.

(** *** All calls *)

Lemma state_outside (f : state → state) (s : state) :
  payouts_sound s → rm_svc (f s) = rm_svc s → rm_running (f s) = rm_running s → payouts_sound (f s) ∧ outside_round s (f s).
Proof.
  intros HI E Er. unfold payouts_sound, outside_round, moves_on, keyed, paid_ids, paid, taken, clean_payout, table, world_of in *.
  rewrite E, Er. auto.
Qed.
Lemma round_fine : fine (runOnce config).
Proof.
  unfold runOnce. apply (guarded_bind _ _ _ _ outside_moves outside_running). apply guarded_acquire. intros s HI _.
  unfold final, outcome. cbn [fst snd]. destruct (rm_running s) eqn:Hrun.
  { destruct (state_outside (λ s, with_running s true) s HI) as [HI' Ho]; [done|by rewrite Hrun|]. split_and!; [done..|].
    intros s' _ _. by apply guarded_done. }
  split_and!; [exact HI|by split|done|]. intros s1 HI1 Hf1 Ho1.
  apply (guarded_finally _ _ _ _ outside_moves outside_running).
  eapply (guarded_post _ _ _ _ _ _ _ (λ b _ _, b = true)).
  2:{ intros b r s2 _ _ ->. apply guarded_release. intros s3 HI3 _ _. split_and!; [exact HI3|by split|done|]. intros s4 _ _.
      by apply guarded_done. }
  destruct (negb (isConfigured config)); [by apply guarded_done|].
  apply (guarded_bind _ _ _ _ outside_moves outside_running). apply guarded_inside. intros s2 HI2 Hf2 _.
  pose proof (waiting_unpaid s2) as Hw. unfold find_waiting, final, outcome, at_svc, query. destruct s2 as [[d h] running timer timers bg].
  cbn [rm_svc svc_db svc_env fst snd] in *. split_and!; [exact HI2|by split|exact Hf2|]. intros s3 HI3 Ho3.
  destruct (findAll d) as [found|e]; [|done]. cbn.
  eapply guarded_pre; [eapply (guarded_for _ _ _ _ outside_moves outside_running true unpaid_rows)|].
  - intros l w w' [Hn Hu] Ho. split; [done|]. by eapply unpaid_stable.
  - intros x l. eapply guarded_post; [apply screen_inside|]. intros b [[]|e] w _ _; auto.
  - by intros w _ _ _.
  - intros w _ _ Ho. destruct (Hw found HI2 eq_refl) as [Hn Hu]. split; [done|]. eapply unpaid_stable; [|exact Ho].
    by eapply unpaid_stable.
Qed.

Lemma outside_await {A} (c : M state A) :
  (∀ s, payouts_sound s → payouts_sound (final c s) ∧ outside_round s (final c s)) → fine (await c).
Proof. apply well_guarded_outside. Qed.
Lemma outside_modify (f : state → state) :
  (∀ s, rm_svc (f s) = rm_svc s ∧ rm_running (f s) = rm_running s) → fine (await (modify f)).
Proof. intros Hf. apply outside_await. intros s HI. by apply state_outside; [|apply Hf..]. Qed.
Lemma outside_find id : fine (find_status id).
Proof.
  apply outside_await. intros s HI. unfold final, at_svc, query. destruct s as [[d h] running timer timers bg].
  cbn. by apply (state_outside (λ s, s)).
Qed.
Lemma outside_write id current status : fine (write_status id current (normalizeStatus status)).
Proof.
  apply outside_await. intros s HI. unfold write_status. apply (rows_outside _ s HI).
  - intros k r. destruct (updateMany _ _ _) as [[n|e] d'] eqn:E; cbn [snd].
    + apply updateMany_ok in E as [-> _]. rewrite lookup_fmap. intros (r0 & Hr0 & ->)%fmap_Some.
      destruct (bool_decide _); [cbn|]; by apply (proj1 HI).
    + apply updateMany_err in E as ->. apply (proj1 HI).
  - intros k r Hr Hs. destruct (updateMany _ _ _) as [[n|e] d'] eqn:E; cbn [snd].
    + apply updateMany_ok in E as [-> _]. unfold table in Hr. rewrite lookup_fmap, Hr. cbn. eexists. split; [done|].
      destruct (bool_decide _); [apply normalized_not_waiting|done].
    + apply updateMany_err in E as ->. by exists r.
Qed.
Lemma callback_fine id status : fine (await (at_svc (on_env (settlement_callback id status)))).
Proof.
  apply outside_await. intros s HI. destruct (settlement_callback id status (world_of s)) as [r h'] eqn:E.
  apply callback_logged in E as Hl. apply world_outside; [done|rewrite E; apply Hl..].
Qed.
Lemma notice_fine id status previous : fine (await (at_svc (on_env (settlement_notice id status previous)))).
Proof.
  apply outside_await. intros s HI. destruct (settlement_notice id status previous (world_of s)) as [r h'] eqn:E.
  apply notice_logged in E as Hl. apply world_outside; [done|rewrite E; apply Hl..].
Qed.
Lemma webhook_fine body signature : fine (webhook_route JSON_parse ANCHOR_WEBHOOK_SECRET body signature).
Proof.
  unfold webhook_route, pmap, processWebhook, transitionTransactionStatus, start_background, pmap. behave_outside.
  - apply outside_find.
  - apply outside_write.
  - by apply outside_modify.
Qed.
Lemma remittance_fine p : remittance_call JSON_parse ANCHOR_WEBHOOK_SECRET config p → fine p.
Proof.
  intros [q []|body signature|].
  - apply round_fine.
  - apply outside_modify. intros s. case_decide; [done|]. by destruct (setInterval _ _).
  - by apply outside_modify.
  - unfold forget, pmap. apply (well_guarded_bind _ _ _ _ outside_moves outside_running); [apply webhook_fine|]. intros a. apply well_guarded_done.
  - unfold run_background. apply (well_guarded_bind _ _ _ _ outside_moves outside_running).
    + apply outside_await. intros s HI. unfold final. destruct (rm_background s) as [|task rest]; [by split|].
      by apply (state_outside (λ s, with_background s rest)).
    + intros task. behave_outside; [apply callback_fine|apply notice_fine].
Qed.

(** C8. In every interleaving of rounds, timers, webhooks and what they start, each payout was
    asked for once, and both of its parties had been answered not to be on the list.
    Elsewhere rows may be added and changed, as long as none goes back to wait for screening. *)
Theorem payouts_screened_once s s' ps :
  paid s = [] → keyed s → rm_running s = false →
  rtc (step (remittance_call JSON_parse ANCHOR_WEBHOOK_SECRET config) (λ s s', keyed s' ∧ outside_round s s')) ([], s) (ps, s') →
  NoDup (paid_ids s') ∧ ∀ p, p ∈ paid s' → clean_payout s' p.
Proof.
  intros Hp Hk Hr Hs.
  destruct (exclusive_fresh payouts_sound rm_running moves_on outside_round outside_moves outside_running
    (remittance_call JSON_parse ANCHOR_WEBHOOK_SECRET config) (λ s s', keyed s' ∧ outside_round s s') remittance_fine)
    with (w := s) (s' := (ps, s')) as [(_ & Hn & Hc) _]; [| |done|done|].
  - intros w w' HI [Hk' Ho]. by apply payouts_kept_outside.
  - split; [done|]. unfold paid_ids. rewrite Hp. split; constructor.
  - split; [done|]. intros p Hin. rewrite Forall_forall in Hc. by apply Hc.
Qed.
End paid.

(** ** What the webhook writes *)

Section transitions.
Context {D H : Type} `{!PrismaTable string RemittanceRow D} `{!ComplianceWorld H} `{!AnchorWorld H}.
Notation state := (remittances D H).
Notation call := (prog state).

Definition may_become (status newStatus : string) : bool :=
  negb (bool_decide (status = newStatus)) && (negb (is_settlement newStatus) || includes TRANSITIONABLE_FROM_STATES status).

Lemma find_status_alone id (s s' : state) o : run (find_status id) s = (Ok o, s') → o = rt_status <$> table s !! id ∧ s' = s.
Proof.
  unfold find_status. rewrite run_await. unfold at_svc, query, table. destruct s as [[d h] running timer timers bg]. cbn.
  destruct (findUnique id d) as [found|e] eqn:E; [|done]. intros [= <- <-]. apply findUnique_ok in E as ->. by destruct (_ !! _).
Qed.
Lemma write_status_alone id current newStatus (s s' : state) n r :
  keyed s → table s !! id = Some r → rt_status r = current → run (write_status id current newStatus) s = (Ok n, s') →
  n ≠ 0%nat ∧ table s' = <[id := touched (cw_now (world_of s)) (with_status newStatus r)]> (table s) ∧
  rm_background s' = rm_background s ∧ world_of s' = world_of s.
Proof.
  intros Hk Hr Hst. unfold write_status. rewrite run_await. unfold at_svc, on_db, table, keyed, world_of in *.
  destruct s as [[d h] running timer timers bg]. cbn [rm_svc svc_db svc_env] in *.
  destruct (updateMany _ _ d) as [[k|e] d'] eqn:E; [|done]. intros [= <- <-]. cbn.
  apply updateMany_ok in E as [-> ->]. split_and!; [| |done..].
  - intros Hn%length_zero_iff_nil. assert (r ∈ filter (λ x, bool_decide (rt_id x = id ∧ rt_status x = current) = true) (map_to_list (rows d)).*2) as Hin.
    { apply list_elem_of_filter. split; [apply bool_decide_eq_true; split; [by apply Hk|done]|].
      apply list_elem_of_fmap. exists (id, r). split; [done|by apply elem_of_map_to_list]. }
    rewrite Hn in Hin. by apply not_elem_of_nil in Hin.
  - apply map_eq. intros k. rewrite lookup_fmap. destruct (decide (k = id)) as [->|Hne].
    + rewrite Hr, lookup_insert_eq. cbn. by rewrite bool_decide_eq_true_2 by (split; [by apply Hk|done]).
    + rewrite lookup_insert_ne by done. destruct (rows d !! k) as [x|] eqn:Ex; [|done]. cbn.
      rewrite bool_decide_eq_false_2; [done|]. intros [Hid _]. apply Hk in Ex. congruence.
Qed.
(** What a report that is answered without an error has done. *)
Theorem transition_spec id newStatus (s s' : state) o :
  keyed s → run (transitionTransactionStatus id newStatus) s = (Ok o, s') →
  match table s !! id with
  | None => o = None ∧ s' = s
  | Some r =>
      if may_become (rt_status r) newStatus then
        o = Some (rt_status r, true) ∧ table s' = <[id := touched (cw_now (world_of s)) (with_status newStatus r)]> (table s) ∧
        rm_background s' = rm_background s ++ settlement_work id newStatus (rt_status r)
      else o = Some (rt_status r, false) ∧ s' = s
  end.
Proof.
  intros Hk. unfold transitionTransactionStatus. rewrite run_pbind. unfold bind. destruct (run (find_status id) s) as [[found|e] s1] eqn:E; [|done].
  apply find_status_alone in E as [-> ->]. destruct (table s !! id) as [r|] eqn:Er; cbn [fmap option_fmap option_map].
  2:{ by intros [= <- <-]. }
  unfold may_become. case_decide as Heq.
  { rewrite bool_decide_eq_true_2 by done. by intros [= <- <-]. }
  rewrite bool_decide_eq_false_2 by done. cbn [negb andb]. destruct (is_settlement newStatus) eqn:Eset; cbn [negb andb orb];
    [destruct (includes TRANSITIONABLE_FROM_STATES (rt_status r)) eqn:Einc; cbn [negb]; [|by intros [= <- <-]]|].
  all: rewrite run_pbind; unfold bind; destruct (run (write_status id (rt_status r) newStatus) s) as [[n|e] s1] eqn:Ew; [|done];
    apply (write_status_alone id (rt_status r) newStatus s s1 n r Hk Er eq_refl) in Ew as (Hn & Ht & Hb & _);
    rewrite decide_False by done; rewrite run_pbind; unfold bind, start_background; rewrite run_await; cbn; intros [= <- <-];
    split; [done|]; split; [exact Ht|]; cbn; by rewrite Hb.
Qed.

Lemma keyed_written id f (s s' : state) r :
  keyed s → table s !! id = Some r → (∀ r, rt_id (f r) = rt_id r) → table s' = <[id := f r]> (table s) → keyed s'.
Proof.
  intros Hk Hr Hf E k x. unfold keyed in *. rewrite E. intros [(<- & <-)|[_ Hx]]%lookup_insert_Some; [|by apply Hk].
  rewrite Hf. by apply Hk.
Qed.
(** Two reports complete any remittance, one that was halted or flagged and one that was
    completed before, and what follows a completion is started again. *)
Lemma pending_then_completed id (s s1 s2 : state) r o1 o2 :
  keyed s → table s !! id = Some r → rt_status r ≠ "PENDING" →
  run (transitionTransactionStatus id (normalizeStatus "pending")) s = (Ok o1, s1) →
  run (transitionTransactionStatus id (normalizeStatus "completed")) s1 = (Ok o2, s2) →
  rt_status <$> table s2 !! id = Some "COMPLETED" ∧
  rm_background s2 = rm_background s ++ [SettlementCallback id "completed"; SettlementNotice id "COMPLETED" "PENDING"].
Proof.
  intros Hk Hr Hne H1 H2. apply transition_spec in H1; [|done]. rewrite Hr in H1.
  change (normalizeStatus "pending") with "PENDING" in H1. change (normalizeStatus "completed") with "COMPLETED" in H2.
  unfold may_become in H1. rewrite bool_decide_eq_false_2 in H1 by done. cbn in H1. destruct H1 as (-> & Ht & Hb).
  apply transition_spec in H2.
  2:{ by eapply (keyed_written id (λ r, touched (cw_now (world_of s)) (with_status "PENDING" r))). }
  rewrite Ht, lookup_insert_eq in H2. cbn in H2. destruct H2 as (-> & Ht2 & Hb2). rewrite Ht2, lookup_insert_eq. split; [done|].
  rewrite Hb2, Hb. by rewrite app_nil_r.
Qed.
Theorem halted_is_completed id (s s1 s2 : state) r o1 o2 :
  keyed s → table s !! id = Some r → rt_status r ∈ [PAYOUT_HALTED; FLAGGED_COMPLIANCE; "COMPLETED"; "FAILED"; "REVERSED"] →
  run (transitionTransactionStatus id (normalizeStatus "pending")) s = (Ok o1, s1) →
  run (transitionTransactionStatus id (normalizeStatus "completed")) s1 = (Ok o2, s2) →
  rt_status <$> table s2 !! id = Some "COMPLETED" ∧
  rm_background s2 = rm_background s ++ [SettlementCallback id "completed"; SettlementNotice id "COMPLETED" "PENDING"].
Proof.
  intros Hk Hr Hs. apply (pending_then_completed id s s1 s2 r); [done..|]. intros E. rewrite E in Hs. revert Hs.
  apply (bool_decide_unpack _). vm_compute. exact Logic.I.
Qed.

(** A remittance created by SEP-31 is not settled by any report of a settlement. *)
Theorem sep31_not_settled id status (s s' : state) r o :
  keyed s → table s !! id = Some r → rt_status r = "pending_sender" →
  toLowerCase status ∈ COMPLETED_STATUSES ++ READY_FOR_PICKUP_STATUSES →
  run (transitionTransactionStatus id (normalizeStatus status)) s = (Ok o, s') →
  o = Some ("pending_sender", false) ∧ s' = s.
Proof.
  intros Hk Hr Hst Hin H1. apply transition_spec in H1; [|done]. rewrite Hr, Hst in H1.
  assert (may_become "pending_sender" (normalizeStatus status) = false) as E; [|by rewrite E in H1].
  unfold normalizeStatus, includes. apply elem_of_app in Hin as [Hin|Hin].
  - by rewrite bool_decide_eq_true_2.
  - destruct (bool_decide _) eqn:Ec; [done|]. rewrite bool_decide_eq_true_2 by done. done.
Qed.
End transitions.

(** ** Rounds that do nothing *)

Section starvation.
Context {D H : Type} `{!PrismaTable string RemittanceRow D} `{!ComplianceWorld H}.
Context (config : ComplianceConfig).
Notation state := (remittances D H).

Definition has_keys (r : RemittanceRow) : bool := truthy_opt (rt_senderPublicKey r) && truthy_opt (rt_recipientPublicKey r).
Definition waits (r : RemittanceRow) : Prop := rt_status r = PENDING_SCREENING.
#[export] Instance waits_dec r : Decision (waits r).
Proof. unfold waits. apply _. Defined.
(** The rows that wait without keys fill a batch, and are older than those with keys. *)
Definition starved (l : list RemittanceRow) : Prop :=
  (cc_batchSize config ≤ length (filter (λ r, has_keys r = false) (filter waits l)))%nat ∧
  ∀ a b, a ∈ l → b ∈ l → waits a → waits b → has_keys a = false → has_keys b = true → rt_createdAt a < rt_createdAt b.

Lemma keyless_first l n x :
  StronglySorted oldest_first l → (∀ a b, a ∈ l → b ∈ l → has_keys a = false → has_keys b = true → rt_createdAt a < rt_createdAt b) →
  (n ≤ length (filter (λ r, has_keys r = false) l))%nat → x ∈ take n l → has_keys x = false.
Proof.
  intros Hs. revert n. induction Hs as [|y l Hs IH Hy]; intros n Ho Hn; [by rewrite take_nil; intros ?%not_elem_of_nil|].
  destruct n as [|n]; [by intros ?%not_elem_of_nil|]. cbn [take]. destruct (has_keys y) eqn:Ey.
  - exfalso. rewrite filter_cons_False in Hn by by rewrite Ey.
    destruct (filter (λ r, has_keys r = false) l) as [|z k] eqn:Ez; [simpl in Hn; lia|].
    assert (z ∈ filter (λ r, has_keys r = false) l) as [Hz Hin]%list_elem_of_filter by (rewrite Ez; by left).
    assert (rt_createdAt z < rt_createdAt y) by (apply Ho; [by right|by left|done|done]).
    rewrite Forall_forall in Hy. specialize (Hy z Hin). unfold oldest_first in Hy. lia.
  - rewrite filter_cons_True in Hn by done. cbn [length] in Hn. intros [->|Hx]%elem_of_cons; [done|].
    apply (IH n); [|lia|done]. intros a b Ha Hb. apply Ho; by right.
Qed.
Lemma starved_batch l found : l ≡ₚ found → starved l → ∀ x, x ∈ waiting_rows config found → has_keys x = false.
Proof.
  intros Hp [Hn Ho] x. unfold waiting_rows. set (sorted := merge_sort oldest_first _).
  assert (sorted ≡ₚ filter waits l) as Hs by (unfold sorted; rewrite merge_sort_Permutation; by rewrite Hp).
  apply keyless_first.
  - apply StronglySorted_merge_sort; [intros a b c; unfold oldest_first; lia|]. intros a b. unfold oldest_first. lia.
  - intros a b. rewrite Hs, !list_elem_of_filter. intros [Ha Hal] [Hb Hbl]. by apply Ho.
  - by rewrite Hs.
Qed.
Lemma skipped tx : has_keys tx = false → screenTransaction (H := H) config tx = pret tt :> prog state unit.
Proof.
  unfold has_keys, screenTransaction. destruct (rt_senderPublicKey tx) as [[|]|]; try done.
  by destruct (rt_recipientPublicKey tx) as [[|]|].
Qed.
Lemma skipped_all l : (∀ x, x ∈ l → has_keys x = false) → pfor l (screenTransaction config) = pret tt :> prog state unit.
Proof.
  intros Hl. induction l as [|x l IH]; [done|]. cbn [pfor]. rewrite skipped by (apply Hl; by left). cbn. apply IH.
  intros y Hy. apply Hl. by right.
Qed.

(** Rows without keys are never screened nor marked. When they fill a batch, any number of
    rounds leaves everything as it is, whoever else waits. *)
Theorem keyless_rows_starve n (s : state) :
  starved (map_to_list (table s)).*2 → rm_running s = false → (run_in_turn (replicate n (runOnce config)) s).2 = s.
Proof.
  intros Hst Hr. assert ((run (runOnce config) s).2 = s) as Hround.
  { unfold runOnce. rewrite run_pbind. unfold bind, begin_round. rewrite run_await, Hr.
    rewrite run_pfinally. destruct (isConfigured config); cbn [negb].
    - rewrite run_pbind. unfold bind, find_waiting. rewrite run_await. unfold at_svc, query.
      destruct s as [[d h] running timer timers bg]. cbn in Hr. subst running. cbn.
      destruct (findAll d) as [found|e] eqn:Ef; [|done]. cbn. rewrite skipped_all; [done|].
      eapply starved_batch; [|exact Hst]. symmetry. by apply findAll_ok in Ef.
    - destruct s as [[d h] running timer timers bg]. cbn in Hr. by subst running. }
  induction n as [|n IH]; [done|]. cbn [replicate run_in_turn]. destruct (run (runOnce config) s) as [r s1]. cbn in Hround. subst s1.
  destruct (run_in_turn _ s) as [ps s2]. exact IH.
Qed.
End starvation.

(** A body that a parser before the route took apart has no signature: the report is refused,
    whatever the header says. The application installs such a parser for all routes. *)
Theorem parsed_body_refused {D H} `{!PrismaTable string RemittanceRow D} `{!ComplianceWorld H} `{!AnchorWorld H}
    JSON_parse secret v signature (s : remittances D H) :
  secret ≠ "" →
  run (webhook_route JSON_parse (Some secret) (ParsedBody v) signature) s =
    (Ok (WebhookRefused 401 "INVALID_SIGNATURE" "Invalid or missing X-Anchor-Signature header"), s).
Proof.
  intros Hs. unfold webhook_route, validateSignature. cbn [default from_option]. unfold id. rewrite decide_False by done.
  destruct signature as [[|]|]; [done| |done]. by rewrite decide_False.
Qed.

(** ** Concrete runs *)

(** A world that is its clock, the keys found clean and the payouts; the list holds one key. *)
#[export] Instance sample_compliance : ComplianceWorld (Z * list string * list PayoutRequest) := {|
  cw_now h := h.1.1;
  cw_turn _ := true;
  screening_post _ _ key := λ '(t, clean, paid),
    (Ok (JObj [("sanctioned", JBool (bool_decide (key = "GBAD")))]),
     (t + 1, if decide (key = "GBAD") then clean else clean ++ [key], paid));
  payout_post _ request := λ '(t, clean, paid), (Ok (true, 200), (t + 1, clean, paid ++ [request]));
  compliance_alert _ := ret tt;
|}.
#[export] Instance sample_anchor : AnchorWorld (Z * list string * list PayoutRequest) := {|
  anchor_hmac secret text := secret +:+ ":" +:+ text;
  settlement_callback _ _ := ret tt;
  settlement_notice _ _ _ := ret tt;
|}.
#[export] Instance sample_payouts : PayoutLog (Z * list string * list PayoutRequest).
Proof.
  refine {| payouts h := h.2; clean_keys h := h.1.2 |}.
  - intros url api key [[t clean] paid] r h' [= <- <-]. cbn -[parseSanctioned decide]. split; [done|]. split.
    + case_decide; [done|]. set_solver.
    + intros data [= <-]. destruct (decide (key = "GBAD")) as [->|_]; [by vm_compute|]. intros _. set_solver.
  - intros url request [[t clean] paid] r h' [= <- <-]. done.
  - by intros alert h r h' [= <- <-].
  - by intros id status h r h' [= <- <-].
  - by intros id status previous h r h' [= <- <-].
Defined.
Definition sample_remittance (id status : string) (sender recipient : option string) (createdAt : Z) : RemittanceRow :=
  mkRemittance id "u1" "USDC" "USD" "NGN" num_zero num_zero num_zero num_zero status None None None None sender recipient None JNull
    false None None createdAt createdAt.
Definition sample_config : ComplianceConfig := mkComplianceConfig (Some "https://list") None (Some "https://anchor") 15000 2.
Definition remittances_of (l : list RemittanceRow) : remittances (gmap string RemittanceRow) (Z * list string * list PayoutRequest) :=
  mkRemittances (mkSvc (list_to_map ((λ r, (rt_id r, r)) <$> l)) (1000, [], [])) false None no_timers [].
Definition status_of (id : string) (s : remittances (gmap string RemittanceRow) (Z * list string * list PayoutRequest)) : option string :=
  rt_status <$> table s !! id.
Definition status_report (id status : string) : RequestBody := RawBody (id +:+ "=" +:+ status).
(** A parser for the bodies of the examples. *)
Definition parse_report (text : string) : exc jsval :=
  match String.index 0 "=" text with
  | Some n => Ok (JObj [("transaction", JObj [("id", JStr (String.substring 0 n text));
                          ("status", JStr (String.substring (S n) (String.length text) text))])])
  | None => Throw (Error "Unexpected token")
  end.
Definition signed_report (id status : string) :=
  forget (webhook_route (D := gmap string RemittanceRow) parse_report (Some "key") (status_report id status)
            (Some ("key:" +:+ id +:+ "=" +:+ status))).
Definition two_rows := remittances_of
  [sample_remittance "a" PENDING_SCREENING (Some "GA") (Some "GB") 1; sample_remittance "b" PENDING_SCREENING (Some "GC") (Some "GBAD") 2].
Definition after_round := run_in_turn [runOnce sample_config] two_rows.

Example one_paid_one_flagged : (status_of "a" after_round.2, status_of "b" after_round.2, paid_ids after_round.2) =
  (Some PAYOUT_RELAYED, Some FLAGGED_COMPLIANCE, ["a"]).
Proof. vm_compute. reflexivity. Qed.
(** A flagged remittance is completed by one report. *)
Example flagged_completes : status_of "b" (run_in_turn [signed_report "b" "settled"] after_round.2).2 = Some "COMPLETED".
Proof. vm_compute. reflexivity. Qed.
(** The worker overwrites a completion that arrives while the anchor is asked to pay; the
    next report completes the remittance, and starts the callback, a second time. *)
Definition overtaken := schedule (replicate 8 0%nat) [runOnce sample_config; signed_report "a" "completed"] two_rows.
Definition overtaken2 := schedule (replicate 3 1%nat ++ replicate 40 0%nat) overtaken.1 overtaken.2.
Example overwritten :
  (status_of "a" (schedule (replicate 3 1%nat) overtaken.1 overtaken.2).2, status_of "a" overtaken2.2) =
    (Some "COMPLETED", Some PAYOUT_RELAYED).
Proof. vm_compute. reflexivity. Qed.

Lemma sample_row l k r : table (remittances_of l) !! k = Some r → k = rt_id r ∧ r ∈ l.
Proof.
  unfold remittances_of, table. cbn. intros Hk%elem_of_list_to_map_2.
  by apply list_elem_of_fmap in Hk as (x & [= -> ->] & Hx).
Qed.
Lemma remittances_keyed l : keyed (remittances_of l).
Proof. by intros k r [-> _]%sample_row. Qed.
Definition overtaken_calls : list (prog _ unit) := [runOnce sample_config; signed_report "a" "completed"; run_background].
(** The round of two rows, then the completion of the one and what it starts. *)
Lemma payouts_screened_once_witness : NoDup ["a"] ∧ "GA" ∈ ["GA"; "GB"; "GC"].
Proof.
  destruct (payouts_screened_once parse_report (Some "key") sample_config two_rows (run_in_turn overtaken_calls two_rows).2
    (run_in_turn overtaken_calls two_rows).1) as [Hn Hc]; [vm_compute; reflexivity|apply remittances_keyed|reflexivity| |].
  - apply (run_in_turn_steps (remittance_call parse_report (Some "key") sample_config) _ overtaken_calls []).
    apply Forall_cons_2; [apply call_compliance, call_round|]. apply Forall_cons_2; [apply call_webhook|].
    apply Forall_singleton, call_background.
  - split; [exact Hn|]. apply (Hc (mkPayout "a" "GA" "GB")). apply list_elem_of_here.
Defined.

Definition halted_row := remittances_of [sample_remittance "h" PAYOUT_HALTED (Some "GA") (Some "GB") 1].
Definition sent_row := remittances_of [sample_remittance "s" "pending_sender" None None 1].
Definition reported id status := run (transitionTransactionStatus (D := gmap string RemittanceRow) (ComplianceWorld0 := sample_compliance) id status).
Definition reopened_row := (reported "h" "PENDING" halted_row).2.
Definition settled_row := (reported "h" "COMPLETED" reopened_row).2.
Lemma transition_spec_witness : status_of "h" reopened_row = Some "PENDING".
Proof.
  destruct (transition_spec (ComplianceWorld0 := sample_compliance) "h" "PENDING" halted_row reopened_row
    (Some (PAYOUT_HALTED, true)) (remittances_keyed _) ltac:(vm_compute; reflexivity)) as (_ & Ht & _).
  unfold status_of. rewrite Ht. vm_compute. reflexivity.
Defined.
Lemma halted_is_completed_witness : status_of "h" settled_row = Some "COMPLETED".
Proof.
  exact (proj1 (halted_is_completed (ComplianceWorld0 := sample_compliance) "h" halted_row reopened_row settled_row
    (sample_remittance "h" PAYOUT_HALTED (Some "GA") (Some "GB") 1) (Some (PAYOUT_HALTED, true)) (Some ("PENDING", true))
    (remittances_keyed _) ltac:(vm_compute; reflexivity) (list_elem_of_here _ _) ltac:(vm_compute; reflexivity)
    ltac:(vm_compute; reflexivity))).
Defined.
Lemma sep31_not_settled_witness : (reported "s" (normalizeStatus "completed") sent_row).2 = sent_row.
Proof.
  exact (proj2 (sep31_not_settled (ComplianceWorld0 := sample_compliance) "s" "completed" sent_row
    (reported "s" (normalizeStatus "completed") sent_row).2 (sample_remittance "s" "pending_sender" None None 1)
    (Some ("pending_sender", false)) (remittances_keyed _) ltac:(vm_compute; reflexivity) eq_refl (list_elem_of_here _ _)
    ltac:(vm_compute; reflexivity))).
Defined.

(** Two rows without keys, and one with keys behind them. *)
Definition starved_list :=
  [sample_remittance "x" PENDING_SCREENING None None 1; sample_remittance "y" PENDING_SCREENING (Some "") None 2;
   sample_remittance "z" PENDING_SCREENING (Some "GA") (Some "GB") 3].
Definition starved_rows := remittances_of starved_list.
Lemma keyless_rows_starve_witness :
  status_of "z" (run_in_turn (replicate 100 (runOnce sample_config)) starved_rows).2 = Some PENDING_SCREENING.
Proof.
  rewrite (keyless_rows_starve sample_config 100 starved_rows); [vm_compute; reflexivity| |reflexivity].
  assert (∀ r, r ∈ (map_to_list (table starved_rows)).*2 → r ∈ starved_list) as Hl.
  { intros r ([k x] & -> & Hp%elem_of_map_to_list)%list_elem_of_fmap. by apply sample_row in Hp as [_ Hp]. }
  split; [vm_compute; lia|]. intros a b Ha%Hl Hb%Hl _ _. revert a Ha b Hb. unfold starved_list.
  assert (Forall (λ a, Forall (λ b, has_keys a = false → has_keys b = true → rt_createdAt a < rt_createdAt b) starved_list) starved_list) as Hf.
  { repeat constructor; done. }
  intros a Ha b Hb. rewrite Forall_forall in Hf. apply (proj1 (Forall_forall _ _) (Hf a Ha) b Hb).
Defined.
Lemma parsed_body_refused_witness : run (webhook_route parse_report (Some "key") (ParsedBody (JObj [])) (Some "any")) two_rows =
  (Ok (WebhookRefused 401 "INVALID_SIGNATURE" "Invalid or missing X-Anchor-Signature header"), two_rows).
Proof. apply parsed_body_refused. discriminate. Defined.
